(* ===== verification/_CoqProject ===== *)
-Q . S2P
Prelude.v
Glob.v
PamBridge.v
PamRules.v
PamGovernance.v
Permissions.v
PermissionCache.v
JsNum.v
Money.v
Calendar.v
InvoiceDb.v
Invoices.v
InvoiceLogic.v
InvoiceLifecycle.v
InvoiceSafety.v
Ledger.v
AsyncQueue.v
IpMatch.v
Versions.v
Json.v
PatchApproval.v
ConfigPolicy.v
ConfigResolution.v
PolicyRules.v
PolicyEvaluation.v
PolicySafety.v
AlertConditions.v
AlertMeaning.v
AlertCooldown.v
AlertService.v
AlertSafety.v
TicketSla.v
TicketDesk.v
Tickets.v
InboundEmail.v
TicketConfig.v
TicketLogic.v
TicketSteps.v
TicketRules.v
TicketSafety.v
TicketMail.v
TicketRaces.v
RateLimit.v
Contracts.v
ContractSchedule.v
ContractLifecycle.v
ContractBilling.v
ContractSafety.v
Quotes.v
QuoteLifecycle.v
QuoteHandlers.v
QuoteAccept.v
QuoteSafety.v
StripePayments.v
StripeLinks.v
StripeSafety.v
TimeEntries.v
TimeEntrySteps.v
TimeEntrySafety.v
CommandRules.v
CommandMachine.v
CommandQueue.v
CommandLogic.v
CommandStore.v
CommandSteps.v
CommandHandlers.v
CommandSafety.v
CommandRuns.v
CommandCases.v
