(* ===== verification/Prelude.v ===== *)
(** * A verification development for the Remuda RMM server

    Remuda is a remote monitoring and management platform for managed service providers.
    Its server ([src/apps/api], TypeScript) decides who may do what on a customer's
    devices, watches the devices and bills for the work.  This library models the parts of
    the server that carry those decisions: privileged access, permissions, rate limits and
    address allowlists; the policies a device is under, the patches approved for it and the
    alerts it raises; the commands sent to it; the tickets of customers; quotes, contracts,
    invoices, payments and time.  Paths below are relative to [src/apps/api/src].

    ** Parts and how they interact

    Privileged access.  A request to elevate a program, or a tool call of the desktop
    helper, is matched against the organisation's rules.  [Glob] is the path matcher,
    [PamBridge] the verdict of software policies, [PamRules] the rule engine
    ([services/pamBridge.ts], [services/pamRuleEngine.ts]); [PamGovernance] is the handler
    that runs the engine for a tool call inside one transaction whose statements may fail
    ([services/pamToolActionGovernance.ts]).

    Access.  [Permissions] and [PermissionCache] model [services/permissions.ts]: loading a
    user's permissions, the tenant checks, and the cache of several processes whose loads
    interleave with invalidations.  [RateLimit] is [services/rate-limit.ts] over the class
    [RedisStore]; [IpMatch] is [services/ipMatch.ts]; [AsyncQueue] is
    [utils/asyncQueue.ts]; [Versions] is [services/versionCompare.ts]; [TicketSla] is
    [services/ticketSla.ts].

    Devices.  [Json] holds the values of JSON columns with the coercions the code applies to
    them.
    - Patch approval: which pending patches of a device may be installed, from the approvals
      of its partner and ring and from the automatic rules.  [PatchApproval]
      ([services/patchApprovalEvaluator.ts]).
    - Configuration policies: [ConfigPolicy] holds the tables, the assignments of policies at
      five levels and the resolvers that find the settings of each feature for a device
      ([services/featureConfigResolver.ts]); [ConfigResolution] has their theorems.
    - Policy evaluation: [PolicyRules] checks the rules of a policy against a device,
      [PolicyEvaluation] holds the tables and the handlers that evaluate policies, record
      compliance and start remediation ([services/policyEvaluationService.ts]);
      [PolicySafety] has their theorems.
    - Alerts: [AlertConditions] has the condition handlers, their registry, evaluation and
      validation ([services/alertConditions]); [AlertCooldown] the cooldowns and the record of
      transitions ([services/alertCooldown.ts]) over the class [RedisKeys]; [AlertService] the
      service, the jobs of the worker and the actions of users and of the assistant
      ([services/alertService.ts], [deviceSiteResolver.ts], [aiToolsAlerts.ts],
      [jobs/alertWorker.ts], [routes/alerts/alerts.ts]).  A job runs in one transaction:
      [run_job] commits or rolls back, and what was published or cached stays.

    Commands.  A command for a device is a row that requests and jobs queue, that the socket of
    the agent or a poll hands over, and that a result, a timeout or a cancellation settles; all
    of them work on the table at the same time.
    - [CommandRules] has the types of commands, their timeouts and the checks of results
      ([services/commandTimeouts.ts], [agentCommandResultValidation.ts]).
    - [CommandMachine] has the table, programs of atomic actions ([Prog]) and the machine that
      interleaves them, with transactions, savepoints, row locks, refused statements and lost
      answers ([db/index.ts], [db/schema/devices.ts]).
    - [CommandQueue] has the handlers ([services/commandQueue.ts], [commandDispatch.ts],
      [jobs/staleCommandReaper.ts], [routes/agents/commands.ts], the command parts of
      [routes/agentWs.ts] and of other routes) and the histories ([moves]).

    Tickets.  A ticket is opened by staff, by a customer in the portal, from an alert or by
    mail, moves through a life cycle that stops and runs its SLA clock, and is swept for missed
    targets.
    - [TicketDesk] holds the tables and effects, the transactions, the allocation of numbers
      and the reads of settings ([db/schema], [services/ticketNumbers.ts],
      [ticketEvents.ts], [ticketConfigService.ts]).
    - [Tickets] has the handlers of [services/ticketService.ts], the routes of
      [routes/portal/tickets.ts] and the sweep of [jobs/ticketSlaWorker.ts].
    - [InboundEmail] has the pipeline from a received mail to a ticket and the review queue
      ([services/inboundEmail], [jobs/inboundEmailWorker.ts]); it calls [Tickets].
    - [TicketConfig] has statuses, priorities, settings of organisations and sender domains
      ([services/ticketConfigService.ts]), which the handlers read.

    Billing.  [JsNum] gives the numbers of JavaScript, [Money] the arithmetic of amounts
    ([services/invoiceMath.ts], [quoteMath.ts], [catalogPricing.ts], [stripeMoney.ts]),
    [Calendar] that of dates ([services/contractMath.ts], [quoteExpiry.ts]).  Three services
    share the database:
    - the invoice service: tables in [InvoiceDb], handlers in [Invoices]
      ([services/invoiceService.ts], [invoiceAssembly.ts], [invoiceNumbers.ts]);
    - the contract service, which bills a period by calling the invoice service:
      [Contracts] ([services/contractService.ts], [contractRenewal.ts],
      [contractQuantities.ts], [jobs/contractWorker.ts]);
    - the quote service, which on acceptance writes an invoice and creates contracts:
      [Quotes] ([services/quoteService.ts], [quoteLifecycle.ts], [quoteAcceptService.ts],
      [quoteToContract.ts], [jobs/quoteExpiryReaper.ts]);
    - card payments, which open a checkout session for the balance of an invoice and later
      write payments to its ledger: [StripePayments] ([services/invoiceCheckout.ts],
      [stripeReconcile.ts], [stripeSettle.ts], [stripeWebhook.ts], [partnerStripe.ts],
      [jobs/stripeReconcileSweep.ts], the pay and settle routes of
      [routes/portal/invoices.ts]);
    - time tracking, whose entries and parts the invoice service bills: [TimeEntries]
      ([services/timeEntryService.ts]).  Its requests go on after a failed statement, so its
      monad [TM] keeps the state of the transaction across errors, and [request] commits or
      rolls back as PostgreSQL does.
    Their states nest ([QDB] holds a [CDB], which holds a [DB], and [SDB] holds a [DB]),
    and [in_contracts], [invoicing] and [in_ledger] run a handler of the inner service on its part of the state.

    ** How code becomes definitions

    A pure function is a function; one that may throw returns [outcome].  A handler that
    reads and writes tables is a function in a small state and error monad of its service
    ([M], [CM], [QM], [SM]), with one definition per handler and one bind per statement, so that
    guards, early returns and the order of writes are those of the code.  A table is a
    [gmap] from row id to a record; unique indexes are the keys of maps; columns always
    written together form one record.  Fresh ids come from a counter in the state.  The
    clock is an argument.  Where several requests can interleave and the code relies on it
    ([PermissionCache], [PamGovernance], [TimeEntries], [TicketDesk]) the interleaving or the failing
    statements are explicit: a transaction of the ticket desk has a schedule of statements that
    fail, statements on other connections see and change what is committed, and [w_rival] is
    what others commit between the read and the update of a compare-and-swap.  The handlers of
    [CommandQueue] are interleaved action by action.  Elsewhere a request is a transaction that runs alone, which is what the row
    locks and conditional updates of the code are for.

    Numeric and money columns are kept as the texts the code writes; PostgreSQL pads their
    decimals, which none of the operations depends on.  Strings are sequences of ASCII
    characters.  What is outside the sources is a parameter: [Intl.DateTimeFormat] and
    [localeCompare] in [PamRules], Redis in [RateLimit] and [PermissionCache], SHA-256,
    token signing and mail in [PamGovernance] and [Quotes], the API of Stripe and the
    encryption of keys in [StripePayments], the zones of [Intl] in [ConfigPolicy], Redis
    in [AlertCooldown], JSON texts and the schemas of results in [CommandRules] ([ResultText]), and
    in [AlertConditions] what the query layer does with a value that is
    not of the column's type ([SqlParams]).  Each such class has an instance, used by the
    examples.  Rules and conditions are stored as unchecked JSON, so the evaluators of
    [PolicyRules] and [AlertConditions] take [json] and read it as the code does, with its
    coercions and type errors; [AlertMeaning] relates them to the declared types.

    ** What the theorems show

    - [Glob], [PamBridge], [PamRules], [PamGovernance]: the matcher decides the glob
      language; the engine returns the verdict of the least applicable rule whatever order
      the database returns them in; a tool call is approved only through an enabled rule in
      scope, also when statements fail.
    - [Permissions], [PermissionCache]: loaded permissions reach only organisations of the
      membership; an invalidated cache entry is never served, for every interleaving.
    - [Money], [Calendar]: line totals are the nearest cent and invoice totals exact within
      stated bounds; minor units round-trip; a date lies in the period the walk returns, and
      the walks end.
    - [InvoiceLogic], [InvoiceLifecycle], [InvoiceSafety], [Ledger]: every handler refines an
      abstract life cycle; over every history issued invoices are frozen, work is billed
      once, numbers have no gaps; balance = total - payments to the cent.  That work is billed
      once assumes ([environment]) that nobody takes a billed entry out of that status;
      [TimeEntrySafety.billed_entry_can_be_reset] shows an edit that does.
    - [ContractSchedule], [ContractLifecycle], [ContractBilling], [ContractSafety]: a due run
      bills exactly the lines of the contract for its period; billed periods are disjoint over
      every history; notices are sent once.  Two theorems record defects: a contract that
      renews automatically still expires, and a contract resumed inside a billed period is
      not billed again.
    - [QuoteLifecycle], [QuoteHandlers], [QuoteAccept], [QuoteSafety]: an acceptance invoices
      the amount the customer was shown, and every visible line is billed exactly once, on
      the invoice or on a contract; over every history a quote is accepted at most once and
      what was signed stays as it was; refused acceptances change nothing.
    - [StripeLinks], [StripeSafety]: a capture is posted to the cent or refused whole, a
      refund gives back what it says, over every history a session stands for one card
      payment of its own invoice, and an event touches only invoices of its account.  Two
      theorems record defects: a fully refunded session can be recorded again, and a second
      payment link at the same balance fails.
    - [TimeEntrySteps], [TimeEntrySafety]: every request, committed or rolled back, makes a
      step of a small specification, so over every history a user has one running timer and
      entries are changed by their owners and managers only; what a start does alone and in a
      race; the totals of a timesheet.  Four theorems record defects: the retry of a lost
      race, a lost entry whose comment failed, entries missing from a timesheet, and billed
      work that can be billed again.
    - [PatchApproval]: the approved patches are those a declarative account of approvals,
      rings and rules admits, and a ring of another partner approves nothing by its rules.
    - [ConfigResolution]: the settings of a feature are those of the assignment closest to the
      device, but the protection of its backups is the strictest any assignment asks for.
    - [PolicyRules], [PolicySafety]: a device is compliant when every rule that applies holds
      and none is malformed; what an evaluation writes is well formed, records each device
      once, and starts remediation only for devices that fail an enforced policy.
    - [AlertMeaning], [AlertCooldown], [AlertSafety]: validated conditions trigger exactly when
      their meaning over the monitoring tables holds; over every history of jobs and requests
      a rule has at most one unresolved alert on a device; the length of cooldowns and the
      test for flapping; an evaluation run queues every eligible device once up to its cap.
      Defects on record: a cooldown of zero loses the announcement of an alert, a refused
      statement undoes alerts that were announced, and the assistant opens a resolved alert
      again.
    - [TicketLogic] is a program logic for such transactions, [TicketSteps] the steps a ticket may
      take, and [TicketRules] proves with both that every handler takes only such steps,
      whichever of its statements fail.  [TicketSafety]: over every history of requests,
      jobs and mails tickets are consistent and within their tenant, pauses are not credited
      twice, missed targets are announced once, numbers are never given out again.
      [TicketMail]: a mail is handled once, and one that was not verified does nothing.
      [TicketRaces]: a change of status that lost a race changes nothing; and three defects: a
      refused feedback row undoes an assignment that was answered as made, a conversion that
      fails strands its mail, and an assignment that races stops the SLA clock.
      The histories of [TicketSafety] let assignments run alone for that reason, and let nobody
      commit between the read and the update of a field edit, a comment or a move.
    - [CommandLogic] is a program logic over ghost states (claims held, facts learnt), [CommandStore]
      the invariant that ties the ghost states of all processes to the table and the open
      transactions, [CommandSteps] the soundness of every action and [CommandHandlers] the proof of
      every handler.  [CommandSafety]: over every interleaving a command is handed over at most
      once and to its consumer, a settled command stays as it is, only its own device completes
      it, and an answer of [executeCommand] is what the table holds.  [CommandRuns]: what the
      reaper and a poll do when they run undisturbed, and that they end.  [CommandCases]:
      histories, and three defects: a command answered as unreachable still runs, an answer that
      comes before the commit is lost, and a failure while a timeout is passed on undoes the run
      of the reaper.
    - [AsyncQueue], [IpMatch], [Versions], [TicketSla], [RateLimit]: order and delivery of the
      queue, meaning of CIDR ranges, convexity of version ranges, round trip of breach
      targets, and the windows of the limiter and the lockout.

    ** Bounds and fuel

    The period walks of [Calendar] stop after 100000 steps as the code does; the theorems
    ask for dates up to the year 9000 and intervals up to 1200 months, for which the guard
    is never reached.  Money theorems hold for amounts below 2^40 or 2^49 cents (stated in
    each), inside which doubles are exact.  [print_digits] and [month_search] recurse on a
    fuel that covers every value of their type.  Terms of contracts made from quotes are 1
    to 120 months, the bounds of the request validators.  [queue_pages] and [delete_pages]
    recurse on fuel: a page that is not the last takes at least one row, so the number of rows
    is enough, which [processEvaluateAll_queues] proves.  Theorems about windows of time ask
    for whole durations and a clock within the range of [Date], stated in each.

    ** Not modelled

    The agent (Go), the user interfaces, HTTP parsing, migrations and row-level security,
    rendering of documents and mail, and clients of external services.  The
    administration of policies, alert rules and templates, alert correlation and the jobs that
    install patches are left out, as are the lists and detail reads of tickets, the routes of
    the staff around the ticket handlers, the parsing of webhooks and the mails sent on ticket
    events.  Of commands, the handlers that run after a result is stored are recorded as calls;
    the services that queue rows of their own ([services/scriptExecution.ts], [wakeOnLan.ts],
    [jobs/deploymentWorker.ts]) insert, claim and send as the queue does and are not modelled
    apart, and neither are terminals, desktops and tunnels.

    This file holds the shared notation, automation and generic lemmas. *)

From stdpp Require Export base list strings gmap option sorting.
From Stdlib Require Export ZArith Lia Ascii.
From Stdlib Require String.

(** ** Results of fallible code

    A TypeScript function that may [throw] is a function into [outcome E A]:
    [Ok a] is a normal return and [Throw e] an exception carrying [e]. *)

Inductive outcome (E A : Type) : Type :=
| Ok (a : A)
| Throw (e : E).
Arguments Ok {E A} a.
Arguments Throw {E A} e.

#[export] Instance outcome_ret {E} : MRet (outcome E) := λ A a, Ok a.
#[export] Instance outcome_bind {E} : MBind (outcome E) := λ A B f m,
  match m with Ok a => f a | Throw e => Throw e end.
#[export] Instance outcome_fmap {E} : FMap (outcome E) := λ A B f m,
  match m with Ok a => Ok (f a) | Throw e => Throw e end.

Declare Scope js_scope.
Delimit Scope js_scope with js.

(** [if (c) throw e;] followed by the rest of the body. *)
Notation "'throw_if' c 'with' e ;; k" := (if c then Throw e else k)
  (at level 100, c at next level, e at next level, k at level 200,
   right associativity) : js_scope.

(** [a ?? b] on nullable values, with [b] nullable too. *)
Definition or_else {A} (a b : option A) : option A :=
  match a with Some x => Some x | None => b end.

(** ** Automation *)

Create HintDb remuda discriminated.


(** Case analysis on the scrutinee of the first [match] or [if] of the goal or
    of a hypothesis, keeping the equation. *)
Ltac case_goal :=
  match goal with
  | |- context [match ?x with _ => _ end] => let E := fresh "E" in destruct x eqn:E
  end.
Ltac case_hyp H :=
  match type of H with
  | context [match ?x with _ => _ end] => let E := fresh "E" in destruct x eqn:E
  end.

(** Turn boolean equations on [&&], [||], [negb], [bool_decide] and the integer
    comparisons into propositions. *)
Ltac bool_prop :=
  repeat match goal with
  | H : _ && _ = true |- _ => apply andb_true_iff in H; destruct H
  | H : _ || _ = false |- _ => apply orb_false_iff in H; destruct H
  | H : negb _ = true |- _ => apply negb_true_iff in H
  | H : negb _ = false |- _ => apply negb_false_iff in H
  | H : bool_decide _ = true |- _ => apply bool_decide_eq_true in H
  | H : bool_decide _ = false |- _ => apply bool_decide_eq_false in H
  | H : (_ <? _)%Z = true |- _ => apply Z.ltb_lt in H
  | H : (_ <? _)%Z = false |- _ => apply Z.ltb_ge in H
  | H : (_ <=? _)%Z = true |- _ => apply Z.leb_le in H
  | H : (_ <=? _)%Z = false |- _ => apply Z.leb_gt in H
  | H : (_ =? _)%Z = true |- _ => apply Z.eqb_eq in H
  | H : (_ =? _)%Z = false |- _ => apply Z.eqb_neq in H
  end.

(** ** JavaScript strings

    A string is a sequence of ASCII characters. *)

Abbreviation chars := String.list_ascii_of_string.
Abbreviation of_chars := String.string_of_list_ascii.

Definition lower_ascii (c : ascii) : ascii :=
  let n := nat_of_ascii c in
  if (65 <=? n) && (n <=? 90) then ascii_of_nat (n + 32) else c.

Fixpoint toLowerCase (s : string) : string :=
  match s with
  | EmptyString => EmptyString
  | String c s' => String (lower_ascii c) (toLowerCase s')
  end.

Definition is_space (c : ascii) : bool :=
  let n := nat_of_ascii c in ((9 <=? n) && (n <=? 13)) || (n =? 32).

Fixpoint drop_spaces (l : list ascii) : list ascii :=
  match l with
  | c :: l' => if is_space c then drop_spaces l' else l
  | [] => []
  end.

Definition trim (s : string) : string :=
  of_chars (reverse (drop_spaces (reverse (drop_spaces (chars s))))).

Fixpoint startsWith (p s : string) : bool :=
  match p, s with
  | EmptyString, _ => true
  | String a p', String b s' => Ascii.eqb a b && startsWith p' s'
  | String _ _, EmptyString => false
  end.

(** [s.includes(p)]. *)
Fixpoint includes (p s : string) : bool :=
  startsWith p s ||
  match s with
  | EmptyString => false
  | String _ s' => includes p s'
  end.

(** [s.split(sep)] for a one-character separator; never empty. *)
Fixpoint split_chars (sep : ascii) (l : list ascii) : list (list ascii) :=
  match l with
  | [] => [[]]
  | c :: l' =>
      if Ascii.eqb c sep then [] :: split_chars sep l'
      else match split_chars sep l' with
           | w :: ws => (c :: w) :: ws
           | [] => [[c]]
           end
  end.
Definition split (sep : ascii) (s : string) : list string :=
  of_chars <$> split_chars sep (chars s).

(** Truthiness of a nullable string: neither [null]/[undefined] nor [""]. *)
Definition truthy (s : option string) : bool :=
  match s with Some (String _ _) => true | _ => false end.

(** ** Decimal digits *)

Definition is_digit (c : ascii) : bool :=
  let n := nat_of_ascii c in (48 <=? n) && (n <=? 57).
Definition digit_val (c : ascii) : Z := Z.of_nat (nat_of_ascii c) - 48.

(** Value of a digit sequence, most significant digit first. *)
Definition digits_val (l : list ascii) : Z :=
  fold_left (λ acc c, 10 * acc + digit_val c)%Z l 0%Z.

Definition all_digits (l : list ascii) : bool :=
  negb (Nat.eqb (length l) 0) && forallb is_digit l.

Definition digit_char (d : Z) : ascii := ascii_of_nat (48 + Z.to_nat d).

(** Decimal digits of [n >= 0], prepended to [acc]; [fuel] bounds their number. *)
Fixpoint print_digits (fuel : nat) (n : Z) (acc : list ascii) : list ascii :=
  match fuel with
  | O => acc
  | S fuel' =>
      let acc' := digit_char (n mod 10) :: acc in
      if (n / 10 =? 0)%Z then acc' else print_digits fuel' (n / 10) acc'
  end.

(** [String(n)] for an integer: [n] has at most [log2 n + 1] decimal digits. *)
Definition print_nat (n : Z) : list ascii := print_digits (S (Z.to_nat (Z.log2 n))) n [].
Definition print_Z (n : Z) : string :=
  of_chars (if (n <? 0)%Z then "-"%char :: print_nat (- n) else print_nat n).

#[global] Arguments is_digit : simpl never.
#[global] Arguments digit_val : simpl never.
#[global] Arguments digit_char : simpl never.
#[global] Arguments lower_ascii : simpl never.
#[global] Arguments is_space : simpl never.

Lemma digit_char_val d : (0 <= d < 10)%Z → digit_val (digit_char d) = d.
Proof.
  intros Hd. unfold digit_val, digit_char. rewrite nat_ascii_embedding by lia. lia.
Qed.

Lemma digit_char_is_digit d : (0 <= d < 10)%Z → is_digit (digit_char d) = true.
Proof.
  intros Hd. unfold is_digit, digit_char. rewrite nat_ascii_embedding by lia.
  apply andb_true_iff. rewrite !Nat.leb_le. lia.
Qed.

Lemma is_digit_val c : is_digit c = true → (0 <= digit_val c < 10)%Z.
Proof.
  unfold is_digit, digit_val. rewrite andb_true_iff, !Nat.leb_le. lia.
Qed.

Lemma digits_val_acc fuel n acc :
  (0 <= n < 2 ^ Z.of_nat fuel)%Z → fuel ≠ O →
  digits_val (print_digits fuel n acc) =
  fold_left (λ a c, 10 * a + digit_val c)%Z acc n.
Proof.
  unfold digits_val. revert n acc. induction fuel as [|fuel IH]; intros n acc Hn Hf; [done|].
  simpl. pose proof (Z.mod_pos_bound n 10 ltac:(lia)) as Hm.
  pose proof (Z.div_mod n 10 ltac:(lia)) as Hdm.
  destruct (Z.eqb_spec (n / 10) 0) as [E|E].
  - simpl. rewrite digit_char_val by lia. f_equal. lia.
  - rewrite Nat2Z.inj_succ, Z.pow_succ_r in Hn by lia.
    rewrite IH; [simpl; rewrite digit_char_val by lia; f_equal; lia | |].
    + split; [apply Z.div_pos; lia|]. apply Z.div_lt_upper_bound; lia.
    + intros ->. simpl in Hn. assert (n / 10 = 0)%Z by (apply Z.div_small; lia). done.
Qed.

Lemma print_nat_fuel n : (0 <= n)%Z → (0 <= n < 2 ^ Z.of_nat (S (Z.to_nat (Z.log2 n))))%Z.
Proof.
  intros Hn. rewrite Nat2Z.inj_succ, Z2Nat.id by apply Z.log2_nonneg. split; [done|].
  destruct (decide (n = 0)%Z) as [->|]; [done|]. apply Z.log2_spec. lia.
Qed.

Lemma print_nat_val n : (0 <= n)%Z → digits_val (print_nat n) = n.
Proof. intros Hn. unfold print_nat. rewrite digits_val_acc; [done | by apply print_nat_fuel | done]. Qed.

Lemma print_digits_digits fuel n acc :
  (0 <= n)%Z → forallb is_digit acc = true → forallb is_digit (print_digits fuel n acc) = true.
Proof.
  revert n acc. induction fuel as [|fuel IH]; intros n acc Hn Hacc; simpl; [done|].
  pose proof (Z.mod_pos_bound n 10 ltac:(lia)).
  assert (forallb is_digit (digit_char (n mod 10) :: acc) = true).
  { apply andb_true_iff. split; [by apply digit_char_is_digit | done]. }
  case_match; [done|]. apply IH; [apply Z.div_pos; lia | done].
Qed.

Lemma print_digits_length fuel n acc : length acc ≤ length (print_digits fuel n acc).
Proof.
  revert n acc. induction fuel as [|fuel IH]; intros n acc; simpl; [done|].
  case_match; simpl; [lia|]. etrans; [|apply IH]. simpl. lia.
Qed.

Lemma print_nat_all_digits n : (0 <= n)%Z → all_digits (print_nat n) = true.
Proof.
  intros Hn. unfold all_digits, print_nat. rewrite print_digits_digits by done.
  rewrite andb_true_r. apply negb_true_iff, Nat.eqb_neq. simpl.
  case_match; simpl; [lia|]. pose proof (print_digits_length (Z.to_nat (Z.log2 n)) (n / 10)
    [digit_char (n mod 10)]). simpl in *. lia.
Qed.

(** Value of a digit sequence with one digit in front. *)
Lemma digits_val_fold l a :
  fold_left (λ acc c, 10 * acc + digit_val c)%Z l a = (a * 10 ^ Z.of_nat (length l) + digits_val l)%Z.
Proof.
  unfold digits_val. revert a. induction l as [|c l IH]; intros a; simpl; [lia|].
  rewrite (IH (10 * a + _)%Z), (IH (0 + _)%Z).
  replace (Z.of_nat (S (length l))) with (Z.succ (Z.of_nat (length l))) by lia.
  rewrite Z.pow_succ_r by lia. ring.
Qed.

Lemma digits_val_cons c l :
  digits_val (c :: l) = (digit_val c * 10 ^ Z.of_nat (length l) + digits_val l)%Z.
Proof. unfold digits_val at 1. simpl. by rewrite digits_val_fold. Qed.

Lemma digits_val_bound l :
  forallb is_digit l = true → (0 <= digits_val l < 10 ^ Z.of_nat (length l))%Z.
Proof.
  induction l as [|c l IH]; [done|]. simpl forallb. intros [Hc Hl]%andb_true_iff.
  rewrite digits_val_cons. apply is_digit_val in Hc. specialize (IH Hl). simpl length.
  replace (Z.of_nat (S (length l))) with (Z.succ (Z.of_nat (length l))) by lia.
  rewrite Z.pow_succ_r by lia. nia.
Qed.

(** ** String order

    JavaScript compares strings by code units, left to right. *)

Definition str_cmp (a b : string) : Z :=
  match String.compare a b with Lt => -1 | Eq => 0 | Gt => 1 end%Z.
Definition str_le (a b : string) : bool := (str_cmp a b <=? 0)%Z.
Definition str_lt (a b : string) : bool := (str_cmp a b <? 0)%Z.

Lemma str_cmp_flip a b : str_cmp a b = (- str_cmp b a)%Z.
Proof. unfold str_cmp. rewrite (String.compare_antisym a b). by destruct (String.compare b a). Qed.

Lemma str_cmp_refl a : str_cmp a a = 0%Z.
Proof. pose proof (str_cmp_flip a a). lia. Qed.

Lemma str_cmp_zero a b : str_cmp a b = 0%Z ↔ a = b.
Proof.
  split; [|intros ->; apply str_cmp_refl]. unfold str_cmp.
  destruct (String.compare a b) eqn:E; [|done..]. by apply String.compare_eq_iff in E.
Qed.

Lemma ascii_compare_N a b : Ascii.compare a b = N.compare (N_of_ascii a) (N_of_ascii b).
Proof. done. Qed.

Lemma str_cmp_trans a b c : (str_cmp a b <= 0 → str_cmp b c <= 0 → str_cmp a c <= 0)%Z.
Proof.
  unfold str_cmp. revert b c.
  induction a as [|x a IH]; intros [|y b] [|z c]; simpl; try lia; try done.
  rewrite !ascii_compare_N. specialize (IH b c).
  destruct (N.compare_spec (N_of_ascii x) (N_of_ascii y)) as [Exy| |],
    (N.compare_spec (N_of_ascii y) (N_of_ascii z)) as [Eyz| |],
    (N.compare_spec (N_of_ascii x) (N_of_ascii z)); try lia; try done.
Qed.

(** ** Separators *)

Lemma chars_app a b : chars (a +:+ b) = chars a ++ chars b.
Proof. induction a as [|c a IH]; simpl; [done|]. by rewrite IH. Qed.

Lemma chars_inj a b : chars a = chars b → a = b.
Proof.
  intros H. rewrite <- (String.string_of_list_ascii_of_string a),
    <- (String.string_of_list_ascii_of_string b). by rewrite H.
Qed.

(** Joining around a separator is injective when one side's parts avoid it. *)
Lemma app_sep_inj {A} (x : A) (a b c d : list A) :
  x ∉ c → x ∉ d → a ++ x :: b = c ++ x :: d → a = c ∧ b = d.
Proof.
  intros Hc Hd. revert c Hc. induction a as [|y a IH]; intros [|z c] Hc H; simplify_eq/=.
  - done.
  - set_solver.
  - set_solver.
  - destruct (IH c) as [-> ->]; set_solver.
Qed.

(** The same when the two first parts avoid the separator. *)
Lemma app_sep_inj_l {A} (x : A) (a b c d : list A) :
  x ∉ a → x ∉ c → a ++ x :: b = c ++ x :: d → a = c ∧ b = d.
Proof.
  revert c. induction a as [|y a IH]; intros [|z c] Ha Hc H; simplify_eq/=.
  - done.
  - set_solver.
  - set_solver.
  - destruct (IH c) as [-> ->]; set_solver.
Qed.

(** The same when the two last parts avoid it. *)
Lemma app_sep_inj_r {A} (x : A) (a b c d : list A) :
  x ∉ b → x ∉ d → a ++ x :: b = c ++ x :: d → a = c ∧ b = d.
Proof.
  intros Hb Hd H. apply (f_equal reverse) in H. rewrite !reverse_app, !reverse_cons in H.
  rewrite <- !app_assoc in H. simpl in H.
  apply app_sep_inj_l in H as [H1 H2]; [|by rewrite elem_of_reverse..].
  split; by apply (inj reverse).
Qed.

Definition has_no (x : ascii) (s : string) : Prop := x ∉ chars s.

Lemma string_sep_inj x (a b c d : string) :
  has_no x c → has_no x d →
  a +:+ String x EmptyString +:+ b = c +:+ String x EmptyString +:+ d → a = c ∧ b = d.
Proof.
  intros Hc Hd H. apply (f_equal chars) in H. rewrite !chars_app in H. simpl in H.
  apply app_sep_inj in H as [H1 H2]; [|done..]. split; by apply chars_inj.
Qed.

(** ** Maps built in a loop *)

(** The entry of a list that a map built by successive [set] calls holds for a key. *)
Definition last_with {A} (key : A → string) (k : string) (l : list A) : option A :=
  last (filter (λ r, key r = k) l).

Lemma fold_insert_last {A} (key : A → string) (l : list A) (m : gmap string A) k :
  fold_left (λ m r, <[key r := r]> m) l m !! k = or_else (last_with key k l) (m !! k).
Proof.
  unfold last_with. induction l as [|r l IH] using rev_ind; [done|].
  rewrite fold_left_app, filter_app, filter_cons, filter_nil. simpl. case_decide as Hk.
  - subst. by rewrite lookup_insert, last_snoc, decide_True.
  - by rewrite lookup_insert_ne, app_nil_r.
Qed.

Lemma fold_left_filter {A B} (f : B → A → B) (t : A → bool) l (b : B) :
  fold_left (λ b a, if t a then f b a else b) l b = fold_left f (filter t l) b.
Proof.
  revert b. induction l as [|a l IH]; intros b; [done|]. simpl. rewrite IH, filter_cons.
  case_decide as Ht; destruct (t a); done.
Qed.

(** ** Filters *)

Lemma filter_empty {A} (t : A → bool) l :
  Nat.eqb (length (filter t l)) 0 = true ↔ ∀ x, x ∈ l → t x = false.
Proof.
  rewrite Nat.eqb_eq, length_zero_iff_nil. split.
  - intros Hn x Hx. destruct (t x) eqn:E; [|done].
    assert (x ∈ filter t l) as Hf by (apply list_elem_of_filter; by rewrite E). by rewrite Hn in Hf; apply elem_of_nil in Hf.
  - intros H. destruct (filter t l) as [|x l'] eqn:E; [done|].
    assert (x ∈ filter t l) as Hf by (rewrite E; left). apply list_elem_of_filter in Hf as [Ht Hx].
    by rewrite H in Ht.
Qed.

Lemma filter_nonempty {A} (t : A → bool) l :
  Nat.eqb (length (filter t l)) 0 = false ↔ ∃ x, x ∈ l ∧ t x = true.
Proof.
  destruct (Nat.eqb _ 0) eqn:E.
  - rewrite filter_empty in E. split; [done|]. intros (x & Hx & Ht). by rewrite E in Ht.
  - split; [intros _|done]. destruct (filter t l) as [|x l'] eqn:F; [done|].
    assert (x ∈ filter t l) as [Ht Hx]%list_elem_of_filter by (rewrite F; left).
    exists x. by destruct (t x).
Qed.

Lemma filter_ext_in {A} (P Q : A → Prop) `{!∀ x, Decision (P x)} `{!∀ x, Decision (Q x)} (l : list A) :
  (∀ x, x ∈ l → P x ↔ Q x) → filter P l = filter Q l.
Proof.
  induction l as [|x l IH]; intros Hl; [done|]. rewrite !filter_cons, IH by (intros; apply Hl; by right).
  destruct (Hl x ltac:(left)) as [H1 H2].
  destruct (decide (P x)), (decide (Q x)); try done; exfalso; auto.
Qed.

Lemma head_filter_Some {A} (P : A → Prop) `{!∀ x, Decision (P x)} (l : list A) x :
  head (filter P l) = Some x → P x ∧ x ∈ l.
Proof.
  intros Hx. destruct (filter P l) as [|y l'] eqn:E; [done|]. injection Hx as ->.
  assert (x ∈ filter P l) as [? ?]%list_elem_of_filter by (rewrite E; left). done.
Qed.
