(* ===== verification/Glob.v ===== *)
(** * Path globs of PAM rules ([services/pamBridge.ts], [matchPathGlob]).

    The matcher normalises both sides, tokenises the glob and fills a table of
    booleans from the last token backward.  [glob_lang] is the language of a
    token sequence, given without any algorithm; the matcher decides it. *)

From S2P Require Import Prelude.

(** ** Normalisation and tokens *)

Definition slash : ascii := "/".
Definition backslash : ascii := "\".
Definition asterisk : ascii := "*".

(** [s.replace(/\\/g, '/').toLowerCase()] *)
Definition norm_char (c : ascii) : ascii :=
  lower_ascii (if Ascii.eqb c backslash then slash else c).
Definition norm (s : string) : list ascii := norm_char <$> chars s.

Inductive Tok :=
| Star (crossesSlash : bool)
| Lit (ch : ascii).

#[export] Instance Tok_eq_dec : EqDecision Tok.
Proof. solve_decision. Defined.

(** The inner [while] loop: how many asterisks stand at the front, and the rest. *)
Fixpoint star_run (g : list ascii) : nat * list ascii :=
  match g with
  | c :: g' => if Ascii.eqb c asterisk
               then let '(n, r) := star_run g' in (S n, r) else (0, g)
  | [] => (0, [])
  end.

(** The tokenising [for] loop; [fuel] bounds the number of iterations, each of
    which consumes at least one character. *)
Fixpoint tokenize_loop (fuel : nat) (g : list ascii) : list Tok :=
  match fuel, g with
  | S fuel', c :: g' =>
      if Ascii.eqb c asterisk
      then let '(count, r) := star_run g in
           Star (2 <=? count) :: tokenize_loop fuel' r
      else Lit c :: tokenize_loop fuel' g'
  | _, _ => []
  end.
Definition tokenize (g : list ascii) : list Tok := tokenize_loop (length g) g.

(** ** The dynamic program

    A row is the array [dp] of length [|t| + 1].  The loops over [ti] become
    recursions over the text and the row in parallel; the star loop runs from
    high to low, so its recursive call comes first. *)

Fixpoint star_row (cross : bool) (t : list ascii) (dp : list bool) : list bool :=
  match t, dp with
  | c :: t', v :: dp' =>
      let next := star_row cross t' dp' in
      (v || ((cross || negb (Ascii.eqb c slash)) && default false (head next))) :: next
  | [], v :: _ => [v]
  | _, [] => []
  end.

Fixpoint lit_row (ch : ascii) (t : list ascii) (dp : list bool) : list bool :=
  match t, dp with
  | c :: t', _ :: dp' =>
      (Ascii.eqb ch c && default false (head dp')) :: lit_row ch t' dp'
  | [], _ :: _ => [false]
  | _, [] => []
  end.

Definition tok_row (tok : Tok) (t : list ascii) (dp : list bool) : list bool :=
  match tok with
  | Star cross => star_row cross t dp
  | Lit ch => lit_row ch t dp
  end.

(** [new Array(tn + 1).fill(false)] with [dp[tn] = true]. *)
Definition init_row (t : list ascii) : list bool := replicate (length t) false ++ [true].

Definition dp_table (toks : list Tok) (t : list ascii) : list bool :=
  foldr (λ tok dp, tok_row tok t dp) (init_row t) toks.

Definition matchPathGlob (glob path : string) : bool :=
  let g := norm glob in
  let t := norm path in
  default false (head (dp_table (tokenize g) t)).

(** ** Reference semantics *)

(** A span a star may absorb: anything for [**], no slash for [*]. *)
Definition span_ok (cross : bool) (s : list ascii) : Prop :=
  cross = true ∨ slash ∉ s.

Inductive glob_lang : list Tok → list ascii → Prop :=
| glob_nil : glob_lang [] []
| glob_lit c toks t : glob_lang toks t → glob_lang (Lit c :: toks) (c :: t)
| glob_star cross toks s t :
    span_ok cross s → glob_lang toks t → glob_lang (Star cross :: toks) (s ++ t).
#[export] Hint Constructors glob_lang : remuda.

(** The language of a glob text read character by character, with a maximal run
    of asterisks as one wildcard. *)
Inductive glob_text : list ascii → list ascii → Prop :=
| gt_nil : glob_text [] []
| gt_lit c g t : c ≠ asterisk → glob_text g t → glob_text (c :: g) (c :: t)
| gt_stars n g s t :
    head g ≠ Some asterisk → span_ok (2 <=? S n) s → glob_text g t →
    glob_text (replicate (S n) asterisk ++ g) (s ++ t).
#[export] Hint Constructors glob_text : remuda.

(** ** Rows compute the suffix language *)

(** Row [dp] is right for [toks] when entry [i] decides [toks] on [drop i t]. *)
Definition row_ok (toks : list Tok) (t : list ascii) (dp : list bool) : Prop :=
  length dp = S (length t) ∧
  ∀ i, i ≤ length t → (dp !! i = Some true ↔ glob_lang toks (drop i t)).

Lemma glob_lang_nil_inv t : glob_lang [] t → t = [].
Proof. by inversion 1. Qed.

Lemma glob_lang_lit_inv c toks t :
  glob_lang (Lit c :: toks) t ↔ ∃ t', t = c :: t' ∧ glob_lang toks t'.
Proof. split; [inversion 1; eauto | intros (t' & -> & ?); by constructor]. Qed.

(** A star either matches nothing here or absorbs one more character. *)
Lemma glob_lang_star_nil cross toks :
  glob_lang (Star cross :: toks) [] ↔ glob_lang toks [].
Proof.
  split.
  - inversion 1 as [| |? ? s t Hs Ht Heq Heq2]. by apply app_nil in Heq2 as [-> ->].
  - intros H. apply (glob_star cross toks [] []); [right; set_solver | done].
Qed.

Lemma glob_lang_star_cons cross toks c t :
  glob_lang (Star cross :: toks) (c :: t) ↔
  glob_lang toks (c :: t) ∨
  ((cross = true ∨ c ≠ slash) ∧ glob_lang (Star cross :: toks) t).
Proof.
  split.
  - inversion 1 as [| |? ? s t' Hs Ht Heq Heq2]. subst.
    destruct s as [|c' s]; simpl in *; [subst; by left|]. injection Heq2 as -> <-.
    right. split.
    + destruct Hs as [|Hs]; [by left | right; set_solver].
    + apply glob_star; [|done]. destruct Hs as [|Hs]; [by left | right; set_solver].
  - intros [H|[Hc H]].
    + apply (glob_star cross toks [] (c :: t)); [right; set_solver | done].
    + inversion H as [| |? ? s t' Hs Ht Heq Heq2]; subst.
      apply (glob_star cross toks (c :: s) t'); [|done].
      destruct Hc as [|Hc]; [by left|]. destruct Hs as [|Hs]; [by left|]. right. set_solver.
Qed.

Lemma row_ok_cons toks c t v dp :
  row_ok toks (c :: t) (v :: dp) ↔
  (v = true ↔ glob_lang toks (c :: t)) ∧ row_ok toks t dp.
Proof.
  unfold row_ok; simpl. split.
  - intros [Hl H]. split; [|split; [lia|]].
    + specialize (H 0 ltac:(lia)). simpl in H. naive_solver.
    + intros i Hi. apply (H (S i)); lia.
  - intros [H0 [Hl H]]. split; [lia|]. intros [|i] Hi; simpl; [naive_solver|]. apply H; lia.
Qed.

Lemma row_ok_nil toks v dp :
  row_ok toks [] (v :: dp) ↔ dp = [] ∧ (v = true ↔ glob_lang toks []).
Proof.
  unfold row_ok; simpl. split.
  - intros [Hl H]. split; [apply length_zero_iff_nil; lia|].
    specialize (H 0 ltac:(lia)). simpl in H. naive_solver.
  - intros [-> H]. split; [done|]. intros i Hi. assert (i = 0) as -> by lia. simpl. naive_solver.
Qed.

Lemma row_ok_head toks t dp :
  row_ok toks t dp → default false (head dp) = true ↔ glob_lang toks t.
Proof.
  intros [Hl H]. destruct dp as [|v dp]; [done|]. specialize (H 0 ltac:(lia)).
  simpl in *. naive_solver.
Qed.

Lemma init_row_ok t : row_ok [] t (init_row t).
Proof.
  induction t as [|c t IH].
  - apply row_ok_nil. split; [done|]. split; [constructor | done].
  - apply row_ok_cons. split; [|done]. split; [done|]. by inversion 1.
Qed.

Lemma star_row_ok cross toks t dp :
  row_ok toks t dp → row_ok (Star cross :: toks) t (star_row cross t dp).
Proof.
  revert dp. induction t as [|c t IH]; intros [|v dp] Hdp; try by destruct Hdp.
  - apply row_ok_nil in Hdp as [-> Hv]. apply row_ok_nil. split; [done|].
    by rewrite glob_lang_star_nil.
  - apply row_ok_cons in Hdp as [Hv Hdp]. simpl. specialize (IH _ Hdp).
    apply row_ok_cons. split; [|done].
    rewrite glob_lang_star_cons, <- (row_ok_head _ _ _ IH), <- Hv.
    rewrite orb_true_iff, andb_true_iff, orb_true_iff, negb_true_iff, Ascii.eqb_neq. done.
Qed.

Lemma lit_row_ok ch toks t dp :
  row_ok toks t dp → row_ok (Lit ch :: toks) t (lit_row ch t dp).
Proof.
  revert dp. induction t as [|c t IH]; intros [|v dp] Hdp; try by destruct Hdp.
  - apply row_ok_nil in Hdp as [-> Hv]. apply row_ok_nil. split; [done|].
    split; [done|]. by inversion 1.
  - apply row_ok_cons in Hdp as [Hv Hdp]. simpl. apply row_ok_cons. split; [|by apply IH].
    rewrite andb_true_iff, Ascii.eqb_eq, (row_ok_head _ _ _ Hdp), glob_lang_lit_inv.
    naive_solver.
Qed.

Lemma dp_table_ok toks t : row_ok toks t (dp_table toks t).
Proof.
  induction toks as [|[cross|ch] toks IH]; simpl;
    [apply init_row_ok | by apply star_row_ok | by apply lit_row_ok].
Qed.

(** ** Tokens and glob text have the same language *)

Lemma star_run_spec g n r :
  star_run g = (n, r) → g = replicate n asterisk ++ r ∧ head r ≠ Some asterisk.
Proof.
  revert n r. induction g as [|c g IH]; intros n r; simpl; [intros [= <- <-]; done|].
  destruct (Ascii.eqb_spec c asterisk) as [->|Hne].
  - destruct (star_run g) as [m s] eqn:E. intros [= <- <-].
    destruct (IH _ _ eq_refl) as [-> ?]. done.
  - intros [= <- <-]. simpl. split; [done|]. congruence.
Qed.

Lemma stars_prefix_inj n m g g' :
  head g ≠ Some asterisk → head g' ≠ Some asterisk →
  replicate n asterisk ++ g = replicate m asterisk ++ g' → n = m ∧ g = g'.
Proof.
  revert m. induction n as [|n IH]; intros [|m] Hg Hg' Heq; simpl in *; subst; try done.
  injection Heq as Heq. destruct (IH m) as [-> ->]; auto.
Qed.

Lemma tokenize_loop_lang fuel g t :
  length g ≤ fuel → glob_lang (tokenize_loop fuel g) t ↔ glob_text g t.
Proof.
  revert g t. induction fuel as [|fuel IH]; intros [|c g] t Hlen; simpl in Hlen; try lia;
    [split; inversion 1; constructor..|].
  simpl. destruct (Ascii.eqb_spec c asterisk) as [->|Hne].
  - destruct (star_run g) as [n r] eqn:E. apply star_run_spec in E as [-> Hr].
    rewrite length_app, length_replicate in Hlen.
    change (asterisk :: replicate n asterisk ++ r) with (replicate (S n) asterisk ++ r).
    split.
    + inversion 1; subst. apply gt_stars; [done..|]. apply IH; [lia | done].
    + intros H. remember (replicate (S n) asterisk ++ r) as g eqn:Eg.
      destruct H as [|c g u Hc Hg|m g s u Hg Hs Hu]; [done|by injection Eg as ->|].
      apply stars_prefix_inj in Eg as [[= ->] ->]; [|done..].
      apply glob_star; [done|]. apply IH; [lia | done].
  - rewrite glob_lang_lit_inv. split.
    + intros (t' & -> & H). apply gt_lit; [done|]. apply IH; [lia | done].
    + inversion 1; subst; [|done]. eexists. split; [done|]. apply IH; [lia | done].
Qed.

Lemma tokenize_lang g t : glob_lang (tokenize g) t ↔ glob_text g t.
Proof. by apply tokenize_loop_lang. Qed.

(** ** Properties *)

(** C2. The table-filling matcher decides the glob language: [matchPathGlob]
    returns [true] exactly on the paths that the glob text denotes after both
    sides are normalised, where a lone [*] absorbs any slash-free span, a run of
    two or more [*] absorbs any span and every other character is literal. *)
Theorem matchPathGlob_correct glob path :
  matchPathGlob glob path = true ↔ glob_text (norm glob) (norm path).
Proof.
  unfold matchPathGlob. rewrite (row_ok_head _ _ _ (dp_table_ok _ _)). apply tokenize_lang.
Qed.
