(* ===== verification/PamBridge.v ===== *)
(** * Software-policy bridge for elevation requests ([services/pamBridge.ts]).

    A UAC-intercept candidate is matched against the executable rules of the
    device's winning software policy.  The verdict is the strongest hit, a
    blocklist hit beating any allowlist hit; audit policies are only reported. *)

From S2P Require Import Prelude Glob.

(** ** Data *)

Inductive MatchedField := FHash | FSigner | FPublisher | FPath.
Inductive PolicyMode := allowlist | blocklist | audit.

#[export] Instance MatchedField_eq_dec : EqDecision MatchedField.
Proof. solve_decision. Defined.
#[export] Instance PolicyMode_eq_dec : EqDecision PolicyMode.
Proof. solve_decision. Defined.

(** [SoftwarePolicyExecutableRule] *)
Record ExecutableRule := {
  er_name : string;
  er_sha256 : option string;
  er_signer : option string;
  er_publisher : option string;
  er_pathGlob : option string }.

Record PamBridgeInput := {
  in_orgId : string;
  in_deviceId : string;
  in_path : string;
  in_hash : option string;
  in_signer : option string;
  in_publisher : option string }.

Record LoadedPolicy := {
  lp_id : string;
  lp_mode : PolicyMode;
  lp_priority : Z;
  lp_executable : option (list ExecutableRule) }.

Record AuditMatch := {
  am_policyId : string; am_ruleName : string; am_field : MatchedField }.

(** The binding part of a verdict; absent when [match] is [null]. *)
Record Binding := {
  bi_mode : PolicyMode; bi_policyId : string; bi_ruleIndex : nat;
  bi_ruleName : string; bi_field : MatchedField }.

Record PamBridgeVerdict := {
  bv_match : option Binding;
  bv_auditMatches : list AuditMatch }.

(** ** One rule *)

(** [a && b && f(a) === f(b)] on nullable strings. *)
Definition both_eq (f : string → string) (a b : option string) : bool :=
  truthy a && truthy b && bool_decide (f <$> a = f <$> b).

Definition matchRule (input : PamBridgeInput) (rule : ExecutableRule) : option MatchedField :=
  if both_eq toLowerCase (er_sha256 rule) (in_hash input) then Some FHash
  else if both_eq (λ s, toLowerCase (trim s)) (er_signer rule) (in_signer input) then Some FSigner
  else if both_eq (λ s, toLowerCase (trim s)) (er_publisher rule) (in_publisher input)
       then Some FPublisher
  else if truthy (er_pathGlob rule) && truthy (Some (in_path input)) &&
          matchPathGlob (default EmptyString (er_pathGlob rule)) (in_path input)
       then Some FPath
  else None.

(** ** All policies *)

Record Hit := {
  h_policy : LoadedPolicy; h_ruleIndex : nat; h_rule : ExecutableRule;
  h_field : MatchedField }.

Definition FIELD_PRECEDENCE (f : MatchedField) : nat :=
  match f with FHash => 0 | FSigner => 1 | FPublisher => 2 | FPath => 3 end.

(** The comparison of the [pickStrongestHit] loop: does [candidate] replace [best]? *)
Definition replaces (candidate best : Hit) : bool :=
  let fc := FIELD_PRECEDENCE (h_field candidate) in
  let fb := FIELD_PRECEDENCE (h_field best) in
  if fc <? fb then true
  else if fc =? fb
       then (lp_priority (h_policy best) <? lp_priority (h_policy candidate))%Z
       else false.

Definition pickStrongestHit (hits : list Hit) : option Hit :=
  match hits with
  | [] => None
  | h :: rest => Some (fold_left (λ best c, if replaces c best then c else best) rest h)
  end.

(** The three accumulators of [matchPoliciesAgainst]. *)
Record Hits := { allowHits : list Hit; blockHits : list Hit; auditHits : list Hit }.

Definition push_hit (acc : Hits) (h : Hit) : Hits :=
  match lp_mode (h_policy h) with
  | allowlist => {| allowHits := allowHits acc ++ [h]; blockHits := blockHits acc;
                    auditHits := auditHits acc |}
  | blocklist => {| allowHits := allowHits acc; blockHits := blockHits acc ++ [h];
                    auditHits := auditHits acc |}
  | audit => {| allowHits := allowHits acc; blockHits := blockHits acc;
                auditHits := auditHits acc ++ [h] |}
  end.

(** The inner loop over the rules of one policy, from rule index [i]. *)
Fixpoint scan_rules (input : PamBridgeInput) (p : LoadedPolicy) (i : nat)
    (rules : list ExecutableRule) (acc : Hits) : Hits :=
  match rules with
  | [] => acc
  | r :: rules' =>
      scan_rules input p (S i) rules'
        (match matchRule input r with
         | Some f => push_hit acc {| h_policy := p; h_ruleIndex := i; h_rule := r; h_field := f |}
         | None => acc
         end)
  end.

Definition scan_policies (input : PamBridgeInput) (policies : list LoadedPolicy) : Hits :=
  fold_left (λ acc p, scan_rules input p 0 (default [] (lp_executable p)) acc) policies
    {| allowHits := []; blockHits := []; auditHits := [] |}.

Definition to_audit (h : Hit) : AuditMatch :=
  {| am_policyId := lp_id (h_policy h); am_ruleName := er_name (h_rule h);
     am_field := h_field h |}.

Definition to_binding (h : Hit) : Binding :=
  {| bi_mode := if bool_decide (lp_mode (h_policy h) = blocklist) then blocklist else allowlist;
     bi_policyId := lp_id (h_policy h); bi_ruleIndex := h_ruleIndex h;
     bi_ruleName := er_name (h_rule h); bi_field := h_field h |}.

Definition matchPoliciesAgainst (input : PamBridgeInput) (policies : list LoadedPolicy)
    : PamBridgeVerdict :=
  let acc := scan_policies input policies in
  {| bv_match := to_binding <$>
       or_else (pickStrongestHit (blockHits acc)) (pickStrongestHit (allowHits acc));
     bv_auditMatches := to_audit <$> auditHits acc |}.

(** ** Loading the winning policy *)

(** A row of [software_policies] as the bridge selects it. *)
Record PolicyRow := { pr_policy : LoadedPolicy; pr_isActive : bool }.

(** What the bridge reads: the result of the config-policy resolver for each
    device, and the policy rows visible in the ambient access context, if any. *)
Record BridgeDb := {
  bd_hasContext : bool;
  bd_winner : gmap string string;
  bd_policies : gmap string PolicyRow }.

Definition loadActivePoliciesForDevice (db : BridgeDb) (deviceId : string)
    : list LoadedPolicy :=
  match bd_winner db !! deviceId with
  | None => []
  | Some winningPolicyId =>
      match bd_policies db !! winningPolicyId with
      | Some row => if pr_isActive row then [pr_policy row] else []
      | None => []
      end
  end.

Inductive BridgeError := NoDbAccessContext.

Definition evaluatePamBridge (db : BridgeDb) (input : PamBridgeInput)
    : outcome BridgeError PamBridgeVerdict :=
  if negb (bd_hasContext db) then Throw NoDbAccessContext
  else Ok (matchPoliciesAgainst input (loadActivePoliciesForDevice db (in_deviceId input))).

(** ** Specification vocabulary *)

(** [h] is a hit of [input] on [policies]: it names a rule of one of the policies,
    at its index, and the field that rule matches on. *)
Definition is_hit (input : PamBridgeInput) (policies : list LoadedPolicy) (h : Hit) : Prop :=
  h_policy h ∈ policies ∧
  default [] (lp_executable (h_policy h)) !! h_ruleIndex h = Some (h_rule h) ∧
  matchRule input (h_rule h) = Some (h_field h).

(** No hit of the same mode is stronger: none matches on a stronger field, and
    none on the same field has a higher priority. *)
Definition strongest (P : Hit → Prop) (h : Hit) : Prop :=
  P h ∧ ∀ h', P h' →
    FIELD_PRECEDENCE (h_field h) ≤ FIELD_PRECEDENCE (h_field h') ∧
    (h_field h' = h_field h →
     (lp_priority (h_policy h') ≤ lp_priority (h_policy h))%Z).

Definition hit_of (input : PamBridgeInput) (policies : list LoadedPolicy) (m : PolicyMode)
    (h : Hit) : Prop :=
  is_hit input policies h ∧ lp_mode (h_policy h) = m.

(** ** Lemmas *)

Lemma FIELD_PRECEDENCE_inj f g : FIELD_PRECEDENCE f = FIELD_PRECEDENCE g → f = g.
Proof. by destruct f, g. Qed.

(** [no_stronger h h']: [h'] would not replace [h]; a total preorder. *)
Definition no_stronger (h h' : Hit) : Prop :=
  FIELD_PRECEDENCE (h_field h) < FIELD_PRECEDENCE (h_field h') ∨
  (h_field h = h_field h' ∧ (lp_priority (h_policy h') ≤ lp_priority (h_policy h))%Z).

Lemma no_stronger_trans a b c : no_stronger a b → no_stronger b c → no_stronger a c.
Proof.
  unfold no_stronger. intros [?|[E ?]] [?|[E' ?]]; [left; lia | left; congruence..|].
  right. split; [congruence | lia].
Qed.

Lemma no_stronger_refl a : no_stronger a a.
Proof. right. split; [done | lia]. Qed.

Lemma replaces_spec c b : if replaces c b then no_stronger c b else no_stronger b c.
Proof.
  unfold replaces, no_stronger.
  destruct (Nat.ltb_spec (FIELD_PRECEDENCE (h_field c)) (FIELD_PRECEDENCE (h_field b))); [by left|].
  destruct (Nat.eqb_spec (FIELD_PRECEDENCE (h_field c)) (FIELD_PRECEDENCE (h_field b))) as [E|].
  - apply FIELD_PRECEDENCE_inj in E.
    destruct (Z.ltb_spec (lp_priority (h_policy b)) (lp_priority (h_policy c)));
      right; (split; [congruence | lia]).
  - left. lia.
Qed.

Lemma pick_loop_spec rest h :
  let r := fold_left (λ best c, if replaces c best then c else best) rest h in
  (r = h ∨ r ∈ rest) ∧ no_stronger r h ∧ ∀ x, x ∈ rest → no_stronger r x.
Proof.
  revert h. induction rest as [|c rest IH]; intros h; simpl.
  - split_and!; [by left | apply no_stronger_refl | set_solver].
  - pose proof (replaces_spec c h) as Hr. destruct (replaces c h).
    + destruct (IH c) as (Hin & Hc & Hall). split_and!; [|by eapply no_stronger_trans|].
      * destruct Hin as [->|]; right; set_solver.
      * intros x [->|?]%elem_of_cons; auto.
    + destruct (IH h) as (Hin & Hc & Hall). split_and!; [|done|].
      * destruct Hin as [->|]; [by left | right; set_solver].
      * intros x [->|?]%elem_of_cons; [by eapply no_stronger_trans | auto].
Qed.

Lemma no_stronger_strongest h h' :
  no_stronger h h' →
  FIELD_PRECEDENCE (h_field h) ≤ FIELD_PRECEDENCE (h_field h') ∧
  (h_field h' = h_field h → (lp_priority (h_policy h') ≤ lp_priority (h_policy h))%Z).
Proof.
  intros [Hlt|[E ?]]; (split; [try (rewrite E); lia|]); intros E'; [|lia].
  rewrite E' in Hlt. lia.
Qed.

Lemma pickStrongestHit_None hits : pickStrongestHit hits = None ↔ hits = [].
Proof. by destruct hits. Qed.

Lemma pickStrongestHit_Some hits h :
  pickStrongestHit hits = Some h → strongest (.∈ hits) h.
Proof.
  destruct hits as [|h0 rest]; [done|]. simpl. intros [= <-].
  destruct (pick_loop_spec rest h0) as (Hin & Hh & Hall). split.
  - destruct Hin as [Hin|Hin]; [rewrite Hin|]; set_solver.
  - intros x [->|Hx]%elem_of_cons; apply no_stronger_strongest; auto.
Qed.

(** The hits collected for a mode. *)
Definition hits_in (m : PolicyMode) (acc : Hits) : list Hit :=
  match m with
  | allowlist => allowHits acc | blocklist => blockHits acc | audit => auditHits acc
  end.

Lemma hits_in_push m acc h x :
  x ∈ hits_in m (push_hit acc h) ↔
  x ∈ hits_in m acc ∨ (x = h ∧ lp_mode (h_policy h) = m).
Proof.
  unfold push_hit. destruct (lp_mode (h_policy h)) eqn:E, m; simpl;
    rewrite ?elem_of_app, ?list_elem_of_singleton; naive_solver.
Qed.

Lemma scan_rules_spec input p i rules acc m h :
  h ∈ hits_in m (scan_rules input p i rules acc) ↔
  h ∈ hits_in m acc ∨
  (h_policy h = p ∧ lp_mode p = m ∧ i ≤ h_ruleIndex h ∧
   rules !! (h_ruleIndex h - i) = Some (h_rule h) ∧
   matchRule input (h_rule h) = Some (h_field h)).
Proof.
  revert i acc. induction rules as [|r rules IH]; intros i acc; simpl.
  { rewrite lookup_nil. naive_solver. }
  rewrite IH.
  assert (∀ j, S i ≤ j → (r :: rules) !! (j - i) = rules !! (j - S i)) as Hshift.
  { intros j Hj. by replace (j - i) with (S (j - S i)) by lia. }
  split.
  - intros [H|(Hp & Hm & Hi & Hl & Hf)].
    + destruct (matchRule input r) as [f|] eqn:Er; [|by left].
      apply hits_in_push in H as [H|[-> H]]; [by left|]. right. simpl.
      rewrite Nat.sub_diag. naive_solver.
    + right. rewrite Hshift by lia. split_and!; [done..|lia|done|done].
  - intros [H|(Hp & Hm & Hi & Hl & Hf)].
    + left. destruct (matchRule input r); [|done]. apply hits_in_push. by left.
    + destruct (decide (h_ruleIndex h = i)) as [Ei|].
      * left. rewrite Ei, Nat.sub_diag in Hl. simpl in Hl. injection Hl as ->.
        rewrite Hf. apply hits_in_push. right. destruct h; simpl in *; subst. done.
      * right. rewrite Hshift in Hl by lia. split_and!; [done..|lia|done|done].
Qed.

Lemma scan_policies_spec input policies m h :
  h ∈ hits_in m (scan_policies input policies) ↔ hit_of input policies m h.
Proof.
  unfold scan_policies, hit_of, is_hit.
  assert (∀ acc, h ∈ hits_in m (fold_left
      (λ acc p, scan_rules input p 0 (default [] (lp_executable p)) acc) policies acc) ↔
    h ∈ hits_in m acc ∨ ((h_policy h ∈ policies ∧
      default [] (lp_executable (h_policy h)) !! h_ruleIndex h = Some (h_rule h) ∧
      matchRule input (h_rule h) = Some (h_field h)) ∧ lp_mode (h_policy h) = m)) as Hgen.
  { induction policies as [|p ps IH]; intros acc; simpl; [set_solver|].
    rewrite IH, scan_rules_spec, elem_of_cons, Nat.sub_0_r.
    split; [intros [[?|(<- & <- & _ & ? & ?)]|?]; naive_solver|].
    intros [?|[([->|?] & ? & ?) <-]]; [tauto | | naive_solver].
    left; right. split_and!; [done..|lia|done|done]. }
  rewrite Hgen. destruct m; simpl; set_solver.
Qed.

Lemma strongest_iff (P Q : Hit → Prop) h : (∀ x, P x ↔ Q x) → strongest P h → strongest Q h.
Proof. intros H [? Hs]. split; [by apply H|]. intros h' ?. apply Hs. by apply H. Qed.

(** ** Properties *)

(** The bridge verdict is exactly the documented precedence.  A blocklist
    verdict reports a strongest hit among the blocklist hits; an allowlist
    verdict reports a strongest hit among the allowlist hits and is only given
    when no blocklist rule matches; no verdict is given only when neither kind
    matches; and the audit list holds exactly the hits on audit policies. *)
Theorem matchPoliciesAgainst_spec input policies :
  let v := matchPoliciesAgainst input policies in
  match bv_match v with
  | None => ∀ h, is_hit input policies h → lp_mode (h_policy h) = audit
  | Some b =>
      ∃ h, b = to_binding h ∧
        ((bi_mode b = blocklist ∧ strongest (hit_of input policies blocklist) h) ∨
         (bi_mode b = allowlist ∧ strongest (hit_of input policies allowlist) h ∧
          ∀ h', ¬ hit_of input policies blocklist h'))
  end ∧
  ∀ a, a ∈ bv_auditMatches v ↔ ∃ h, a = to_audit h ∧ hit_of input policies audit h.
Proof.
  pose proof (scan_policies_spec input policies) as Hscan. simpl. split.
  - destruct (pickStrongestHit (blockHits _)) as [h|] eqn:Eb; simpl.
    + apply pickStrongestHit_Some in Eb. exists h. split; [done|]. left.
      apply (strongest_iff _ _ _ (Hscan blocklist)) in Eb. split; [|done].
      destruct Eb as [[_ Hm] _]. by rewrite bool_decide_eq_true_2.
    + apply pickStrongestHit_None in Eb.
      assert (∀ h', ¬ hit_of input policies blocklist h') as Hno.
      { intros h' Hh. apply (Hscan blocklist) in Hh. simpl in Hh. rewrite Eb in Hh. set_solver. }
      destruct (pickStrongestHit (allowHits _)) as [h|] eqn:Ea; simpl.
      * apply pickStrongestHit_Some in Ea. exists h. split; [done|]. right.
        apply (strongest_iff _ _ _ (Hscan allowlist)) in Ea. split_and!; [|done|done].
        destruct Ea as [[_ Hm] _]. by rewrite Hm.
      * apply pickStrongestHit_None in Ea. intros h Hh.
        destruct (lp_mode (h_policy h)) eqn:Em; [| |done].
        -- assert (h ∈ allowHits (scan_policies input policies)) as Hin
             by (apply (Hscan allowlist); by split). rewrite Ea in Hin. set_solver.
        -- by destruct (Hno h).
  - intros a. rewrite list_elem_of_fmap. by setoid_rewrite (Hscan audit).
Qed.
