(* ===== verification/PamRules.v ===== *)
(** * PAM-native rule engine ([services/pamRuleEngine.ts]).

    Rules are ordered by (priority, creation time, id); the first enabled rule all
    of whose criteria hold decides.  Two things come from the platform and are
    parameters: [formatToParts], the parts [Intl.DateTimeFormat] prints for an
    instant in a time zone ([None] when it throws), and [localeCompare]. *)

From S2P Require Import Prelude Glob.

Open Scope Z_scope.

(** ** Data *)

Inductive Verdict := auto_approve | auto_deny | require_approval | ignore.

Inductive NegateKey :=
| KSigner | KSignerGroup | KHash | KPathGlob | KParentImage | KCommandLine
| KUser | KAdGroup | KToolName | KRiskTier.

#[export] Instance Verdict_eq_dec : EqDecision Verdict.
Proof. solve_decision. Defined.
#[export] Instance NegateKey_eq_dec : EqDecision NegateKey.
Proof. solve_decision. Defined.

Record TimeWindow := {
  tw_start : string; tw_end : string;
  tw_days : option (list Z); tw_timezone : option string }.

Record PamRule := {
  r_id : string; r_name : string; r_enabled : bool; r_priority : Z;
  r_createdAt : option Z;
  matchSigner : option string; matchSignerGroupId : option string;
  matchHash : option string; r_matchPathGlob : option string;
  matchParentImage : option string; matchCommandLine : option string;
  matchUser : option string; matchAdGroup : option string;
  matchToolName : option string; matchRiskTier : option Z;
  matchNegate : option (list NegateKey);
  r_timeWindow : option TimeWindow;
  r_verdict : Verdict; r_approvalDurationMinutes : option Z }.

Record Candidate := {
  targetExecutablePath : option string; targetExecutableHash : option string;
  targetExecutableSigner : option string; subjectUsername : string;
  parentImage : option string; commandLine : option string;
  subjectAdGroups : option (list string);
  toolName : option string; riskTier : option Z; c_at : option Z }.

Record PamRuleMatch := {
  m_ruleId : string; m_ruleName : string; m_verdict : Verdict;
  m_approvalDurationMinutes : option Z }.

(** [SignerGroupResolver]; [None] is [undefined]. *)
Abbreviation SignerGroups := (option (gmap string (list string))).

(** ** Criteria *)

Definition eqCi (a b : string) : bool := bool_decide (toLowerCase a = toLowerCase b).

Definition isSome {A} (o : option A) : bool := match o with Some _ => true | None => false end.

(** [present && f(rule value, candidate value)] *)
Definition on_both {A B} (f : A → B → bool) (a : option A) (b : option B) : bool :=
  match a, b with Some x, Some y => f x y | _, _ => false end.

Definition hasAnyCriteria (rule : PamRule) : bool :=
  truthy (matchSigner rule) || truthy (matchSignerGroupId rule) || truthy (matchHash rule) ||
  truthy (r_matchPathGlob rule) || truthy (matchParentImage rule) ||
  truthy (matchCommandLine rule) || truthy (matchUser rule) || truthy (matchAdGroup rule) ||
  truthy (matchToolName rule) || isSome (matchRiskTier rule).

Definition hasToolActionCriterion (rule : PamRule) : bool :=
  truthy (matchToolName rule) || isSome (matchRiskTier rule).

(** ** Time windows *)

(** The regular expression [^(\d{1,2}):(\d{2})$] and the range check. *)
Definition parse_hhmm (s : string) : option Z :=
  let check h m := if (23 <? h) || (59 <? m) then None else Some (h * 60 + m) in
  match chars s with
  | [h1; c; m1; m2] =>
      if is_digit h1 && Ascii.eqb c ":" && is_digit m1 && is_digit m2
      then check (digits_val [h1]) (digits_val [m1; m2]) else None
  | [h1; h2; c; m1; m2] =>
      if is_digit h1 && is_digit h2 && Ascii.eqb c ":" && is_digit m1 && is_digit m2
      then check (digits_val [h1; h2]) (digits_val [m1; m2]) else None
  | _ => None
  end.

Definition dayNames : list string :=
  ["Sun"; "Mon"; "Tue"; "Wed"; "Thu"; "Fri"; "Sat"]%string.

(** [dayNames.indexOf(s)], with -1 for an absent name. *)
Definition weekday_index (s : string) : Z :=
  match list_find (s =.) dayNames with Some (i, _) => Z.of_nat i | None => -1 end.

(** [Number(s)] on a formatted numeral: [""] is 0, digits their value, else NaN. *)
Definition Number_part (s : string) : option Z :=
  match chars s with
  | [] => Some 0
  | l => if forallb is_digit l then Some (digits_val l) else None
  end.

Definition get_part (parts : list (string * string)) (type : string) : string :=
  match list_find (λ p, p.1 = type) parts with Some (_, p) => p.2 | None => EmptyString end.

(** Minutes of the day against an inclusive window that may wrap midnight. *)
Definition in_minutes (start stop minutes : Z) : bool :=
  if start <=? stop then (start <=? minutes) && (minutes <=? stop)
  else (start <=? minutes) || (minutes <=? stop).

(** Laws of [String.prototype.localeCompare] on row ids: a consistent comparator
    that is zero only on equal ids. *)
Class Collation (cmp : string → string → Z) := {
  coll_flip : ∀ a b, cmp a b < 0 ↔ 0 < cmp b a;
  coll_zero : ∀ a b, cmp a b = 0 → a = b;
  coll_trans : ∀ a b c, cmp a b <= 0 → cmp b c <= 0 → cmp a c <= 0 }.

Section Engine.
Context (formatToParts : string → Z → option (list (string * string))).
Context (localeCompare : string → string → Z).

Definition isWithinTimeWindow (window : TimeWindow) (at_ : Z) : bool :=
  match parse_hhmm (tw_start window), parse_hhmm (tw_end window) with
  | Some start, Some stop =>
      match formatToParts (default "UTC"%string (tw_timezone window)) at_ with
      | None => false
      | Some parts =>
          let weekday := weekday_index (get_part parts "weekday") in
          match Number_part (get_part parts "hour"), Number_part (get_part parts "minute") with
          | Some hour, Some minute =>
              let minutes := (hour mod 24) * 60 + minute in
              if weekday <? 0 then false
              else match tw_days window with
                   | Some (d :: ds) => if bool_decide (weekday ∈ d :: ds)
                                       then in_minutes start stop minutes else false
                   | _ => in_minutes start stop minutes
                   end
          | _, _ => false
          end
      end
  | _, _ => false
  end.

(** [satisfied] of [ruleMatches]. *)
Definition satisfied (negate : list NegateKey) (key : NegateKey) (present positive : bool) : bool :=
  if negb present then false
  else if bool_decide (key ∈ negate) then negb positive else positive.

Definition ruleMatches (rule : PamRule) (c : Candidate) (signerGroups : SignerGroups)
    (now : Z) : bool :=
  if negb (hasAnyCriteria rule) then false else
  let negate := default [] (matchNegate rule) in
  let sat := satisfied negate in
  if truthy (matchHash rule) &&
     negb (sat KHash (isSome (targetExecutableHash c))
             (on_both eqCi (matchHash rule) (targetExecutableHash c))) then false else
  if truthy (matchSigner rule) &&
     negb (sat KSigner (isSome (targetExecutableSigner c))
             (on_both eqCi (matchSigner rule) (targetExecutableSigner c))) then false else
  let members := g ← signerGroups; gid ← matchSignerGroupId rule; g !! gid in
  let group_present := isSome (targetExecutableSigner c) &&
    match members with Some (_ :: _) => true | _ => false end in
  if truthy (matchSignerGroupId rule) &&
     negb (sat KSignerGroup group_present
             (group_present && on_both (λ ms s, existsb (λ m, eqCi m s) ms)
                members (targetExecutableSigner c))) then false else
  if truthy (r_matchPathGlob rule) &&
     negb (sat KPathGlob (isSome (targetExecutablePath c))
             (on_both matchPathGlob (r_matchPathGlob rule) (targetExecutablePath c))) then false else
  if truthy (matchParentImage rule) &&
     negb (sat KParentImage (isSome (parentImage c))
             (on_both matchPathGlob (matchParentImage rule) (parentImage c))) then false else
  if truthy (matchCommandLine rule) &&
     negb (sat KCommandLine (isSome (commandLine c))
             (on_both (λ m l, includes (toLowerCase m) (toLowerCase l))
                (matchCommandLine rule) (commandLine c))) then false else
  if truthy (matchUser rule) &&
     negb (sat KUser true (on_both eqCi (matchUser rule) (Some (subjectUsername c)))) then false else
  if truthy (matchAdGroup rule) &&
     negb (sat KAdGroup (isSome (subjectAdGroups c))
             (on_both (λ m gs, existsb (λ g, eqCi g m) gs)
                (matchAdGroup rule) (subjectAdGroups c))) then false else
  if truthy (matchToolName rule) &&
     negb (sat KToolName (isSome (toolName c))
             (on_both eqCi (matchToolName rule) (toolName c))) then false else
  if isSome (matchRiskTier rule) &&
     negb (sat KRiskTier (isSome (riskTier c))
             (on_both Z.eqb (matchRiskTier rule) (riskTier c))) then false else
  match r_timeWindow rule with
  | Some w => isWithinTimeWindow w (default now (c_at c))
  | None => true
  end.

(** ** Ordering and evaluation *)

(** The comparator passed to [sort]. *)
Definition rule_cmp (a b : PamRule) : Z :=
  if negb (r_priority a =? r_priority b) then r_priority a - r_priority b
  else let at_ := default 0 (r_createdAt a) in
       let bt := default 0 (r_createdAt b) in
       if negb (at_ =? bt) then at_ - bt
       else localeCompare (r_id a) (r_id b).

(** [Array.prototype.sort] is stable, so with a consistent comparator its result
    is that of insertion sort. *)
Fixpoint insert_rule (r : PamRule) (l : list PamRule) : list PamRule :=
  match l with
  | [] => [r]
  | x :: l' => if rule_cmp r x <=? 0 then r :: l else x :: insert_rule r l'
  end.
Definition sort_rules (rules : list PamRule) : list PamRule := foldr insert_rule [] rules.

Definition to_match (rule : PamRule) : PamRuleMatch :=
  {| m_ruleId := r_id rule; m_ruleName := r_name rule; m_verdict := r_verdict rule;
     m_approvalDurationMinutes := r_approvalDurationMinutes rule |}.

Fixpoint first_match (ordered : list PamRule) (c : Candidate) (groups : SignerGroups)
    (now : Z) : option PamRuleMatch :=
  match ordered with
  | [] => None
  | rule :: rest =>
      if negb (r_enabled rule) then first_match rest c groups now
      else if ruleMatches rule c groups now then Some (to_match rule)
      else first_match rest c groups now
  end.

Definition evaluatePamRules (rules : list PamRule) (c : Candidate) (groups : SignerGroups)
    (now : Z) : option PamRuleMatch :=
  first_match (sort_rules rules) c groups now.

Definition evaluatePamToolActionRules (rules : list PamRule) (c : Candidate) (now : Z)
    : option PamRuleMatch :=
  evaluatePamRules (List.filter hasToolActionCriterion rules) c None now.
End Engine.

(** ** Specification vocabulary *)

(** Does the rule carry criterion [k]? *)
Definition crit_set (rule : PamRule) (k : NegateKey) : bool :=
  match k with
  | KSigner => truthy (matchSigner rule) | KSignerGroup => truthy (matchSignerGroupId rule)
  | KHash => truthy (matchHash rule) | KPathGlob => truthy (r_matchPathGlob rule)
  | KParentImage => truthy (matchParentImage rule)
  | KCommandLine => truthy (matchCommandLine rule) | KUser => truthy (matchUser rule)
  | KAdGroup => truthy (matchAdGroup rule) | KToolName => truthy (matchToolName rule)
  | KRiskTier => isSome (matchRiskTier rule)
  end.

(** The members of the rule's signer group, when it resolves. *)
Definition group_members (rule : PamRule) (groups : SignerGroups) : option (list string) :=
  g ← groups; gid ← matchSignerGroupId rule; g !! gid.

(** Does the candidate supply the data criterion [k] compares against? *)
Definition data_present (rule : PamRule) (c : Candidate) (groups : SignerGroups)
    (k : NegateKey) : bool :=
  match k with
  | KSigner => isSome (targetExecutableSigner c)
  | KSignerGroup => isSome (targetExecutableSigner c) &&
      match group_members rule groups with Some (_ :: _) => true | _ => false end
  | KHash => isSome (targetExecutableHash c) | KPathGlob => isSome (targetExecutablePath c)
  | KParentImage => isSome (parentImage c) | KCommandLine => isSome (commandLine c)
  | KUser => true | KAdGroup => isSome (subjectAdGroups c)
  | KToolName => isSome (toolName c) | KRiskTier => isSome (riskTier c)
  end.

(** The comparison of criterion [k], before negation. *)
Definition compares (rule : PamRule) (c : Candidate) (groups : SignerGroups)
    (k : NegateKey) : bool :=
  match k with
  | KSigner => on_both eqCi (matchSigner rule) (targetExecutableSigner c)
  | KSignerGroup => on_both (λ ms s, existsb (λ m, eqCi m s) ms)
                      (group_members rule groups) (targetExecutableSigner c)
  | KHash => on_both eqCi (matchHash rule) (targetExecutableHash c)
  | KPathGlob => on_both matchPathGlob (r_matchPathGlob rule) (targetExecutablePath c)
  | KParentImage => on_both matchPathGlob (matchParentImage rule) (parentImage c)
  | KCommandLine => on_both (λ m l, includes (toLowerCase m) (toLowerCase l))
                      (matchCommandLine rule) (commandLine c)
  | KUser => on_both eqCi (matchUser rule) (Some (subjectUsername c))
  | KAdGroup => on_both (λ m gs, existsb (λ g, eqCi g m) gs)
                  (matchAdGroup rule) (subjectAdGroups c)
  | KToolName => on_both eqCi (matchToolName rule) (toolName c)
  | KRiskTier => on_both Z.eqb (matchRiskTier rule) (riskTier c)
  end.

(** Criterion [k] holds: its data is there and the comparison has the wanted sign. *)
Definition crit_holds (rule : PamRule) (c : Candidate) (groups : SignerGroups)
    (k : NegateKey) : Prop :=
  data_present rule c groups k = true ∧
  compares rule c groups k = negb (bool_decide (k ∈ default [] (matchNegate rule))).

Definition all_keys : list NegateKey :=
  [KHash; KSigner; KSignerGroup; KPathGlob; KParentImage; KCommandLine; KUser; KAdGroup;
   KToolName; KRiskTier].

(** ** Matching lemmas *)

Lemma elem_of_all_keys k : k ∈ all_keys.
Proof. destruct k; set_solver. Qed.

Lemma hasAnyCriteria_iff rule : hasAnyCriteria rule = true ↔ ∃ k, crit_set rule k = true.
Proof.
  unfold hasAnyCriteria. rewrite !orb_true_iff. split.
  - intros H. repeat destruct H as [H|H];
      [exists KSigner | exists KSignerGroup | exists KHash | exists KPathGlob
      | exists KParentImage | exists KCommandLine | exists KUser | exists KAdGroup
      | exists KToolName | exists KRiskTier]; done.
  - intros [[] H]; simpl in H; tauto.
Qed.

Lemma guard_true (set sat rest : bool) :
  (if set && negb sat then false else rest) = true ↔ (set = true → sat = true) ∧ rest = true.
Proof. destruct set, sat, rest; simpl; naive_solver. Qed.

Lemma satisfied_true negate k present positive :
  satisfied negate k present positive = true ↔
  present = true ∧ positive = negb (bool_decide (k ∈ negate)).
Proof. unfold satisfied. case_bool_decide; destruct present, positive; naive_solver. Qed.

Lemma all_keys_forall (P : NegateKey → Prop) :
  (∀ k, P k) ↔
  P KHash ∧ P KSigner ∧ P KSignerGroup ∧ P KPathGlob ∧ P KParentImage ∧ P KCommandLine ∧
  P KUser ∧ P KAdGroup ∧ P KToolName ∧ P KRiskTier.
Proof. split; [naive_solver | intros H []; tauto]. Qed.

Lemma ruleMatches_iff ftp rule c groups now :
  ruleMatches ftp rule c groups now = true ↔
  (∃ k, crit_set rule k = true) ∧
  (∀ k, crit_set rule k = true → crit_holds rule c groups k) ∧
  (∀ w, r_timeWindow rule = Some w → isWithinTimeWindow ftp w (default now (c_at c)) = true).
Proof.
  unfold ruleMatches. rewrite <- hasAnyCriteria_iff.
  destruct (hasAnyCriteria rule); simpl; [|naive_solver].
  rewrite !guard_true, !satisfied_true, all_keys_forall. unfold crit_holds. simpl.
  fold (group_members rule groups).
  assert (match r_timeWindow rule with
          | Some w => isWithinTimeWindow ftp w (default now (c_at c)) | None => true end = true ↔
          ∀ w, r_timeWindow rule = Some w →
            isWithinTimeWindow ftp w (default now (c_at c)) = true) as ->.
  { destruct (r_timeWindow rule); naive_solver. }
  assert (∀ present positive want : bool,
    present = true ∧ present && positive = want ↔ present = true ∧ positive = want) as Hp.
  { intros [] [] []; naive_solver. }
  rewrite Hp. tauto.
Qed.

(** ** Order lemmas *)

Section Order.
Context (localeCompare : string → string → Z) {C : Collation localeCompare}.
Local Abbreviation rule_cmp := (rule_cmp localeCompare).
Definition rule_le (a b : PamRule) : Prop := rule_cmp a b <= 0.

Lemma rule_le_total a b : rule_le a b ∨ rule_le b a.
Proof.
  unfold rule_le, PamRules.rule_cmp.
  rewrite (Z.eqb_sym (r_priority b)), (Z.eqb_sym (default 0 (r_createdAt b))).
  destruct (Z.eqb_spec (r_priority a) (r_priority b)); simpl; [|lia].
  destruct (Z.eqb_spec (default 0 (r_createdAt a)) (default 0 (r_createdAt b))); simpl; [|lia].
  pose proof (coll_flip (r_id a) (r_id b)). pose proof (coll_flip (r_id b) (r_id a)). lia.
Qed.

Lemma rule_le_trans a b c : rule_le a b → rule_le b c → rule_le a c.
Proof.
  unfold rule_le, PamRules.rule_cmp.
  repeat case_match; bool_prop; try lia. by apply coll_trans.
Qed.

Lemma rule_le_antisym a b : rule_le a b → rule_le b a → r_id a = r_id b.
Proof.
  unfold rule_le, PamRules.rule_cmp. repeat case_match; bool_prop; try lia.
  intros ??. apply coll_zero.
  pose proof (coll_flip (r_id a) (r_id b)). pose proof (coll_flip (r_id b) (r_id a)). lia.
Qed.

Local Abbreviation insert_rule := (insert_rule localeCompare).
Local Abbreviation sort_rules := (sort_rules localeCompare).

Lemma insert_rule_perm r l : insert_rule r l ≡ₚ r :: l.
Proof.
  induction l as [|x l IH]; simpl; [done|]. case_match; [done|]. rewrite IH. constructor.
Qed.

Lemma sort_rules_perm l : sort_rules l ≡ₚ l.
Proof. induction l as [|r l IH]; simpl; [done|]. by rewrite insert_rule_perm, IH. Qed.

Lemma insert_rule_sorted r l :
  StronglySorted rule_le l → StronglySorted rule_le (insert_rule r l).
Proof.
  induction 1 as [|x l Hs IH Hx]; simpl; [repeat constructor|].
  case_match eqn:E; bool_prop.
  - constructor; [by constructor|]. constructor; [done|].
    eapply Forall_impl; [exact Hx|]. intros y. by apply rule_le_trans.
  - constructor; [done|]. rewrite insert_rule_perm. constructor; [|done].
    destruct (rule_le_total r x); [unfold rule_le in *; lia | done].
Qed.

Lemma sort_rules_sorted l : StronglySorted rule_le (sort_rules l).
Proof. induction l; simpl; [constructor | by apply insert_rule_sorted]. Qed.

Context (ftp : string → Z → option (list (string * string))).

(** A rule that may decide [c]: enabled, and all its criteria hold. *)
Definition applicable (c : Candidate) (groups : SignerGroups) (now : Z) (r : PamRule) : Prop :=
  r_enabled r = true ∧ ruleMatches ftp r c groups now = true.

Lemma first_match_sorted l c groups now :
  StronglySorted rule_le l →
  match first_match ftp l c groups now with
  | None => ∀ r, r ∈ l → ¬ applicable c groups now r
  | Some m => ∃ r, r ∈ l ∧ applicable c groups now r ∧ m = to_match r ∧
                   ∀ r', r' ∈ l → applicable c groups now r' → r = r' ∨ rule_le r r'
  end.
Proof.
  induction 1 as [|x l Hs IH Hx]; simpl; [set_solver|]. unfold applicable in *.
  destruct (r_enabled x) eqn:Een; simpl; [destruct (ruleMatches ftp x c groups now) eqn:Em|].
  - exists x. split_and!; [set_solver|done..|]. intros r' [->|Hr']%elem_of_cons _; [by left|].
    right. rewrite Forall_forall in Hx. by apply Hx.
  - destruct (first_match _ _ _ _ _) as [m|];
      [|intros r [->|?]%elem_of_cons [? ?]; [congruence | by apply (IH r)]].
    destruct IH as (r & ? & [? ?] & ? & Hmin). exists r. split_and!; [set_solver|done..|].
    intros r' [->|?]%elem_of_cons [? ?]; [congruence | by apply Hmin].
  - destruct (first_match _ _ _ _ _) as [m|];
      [|intros r [->|?]%elem_of_cons [? ?]; [congruence | by apply (IH r)]].
    destruct IH as (r & ? & [? ?] & ? & Hmin). exists r. split_and!; [set_solver|done..|].
    intros r' [->|?]%elem_of_cons [? ?]; [congruence | by apply Hmin].
Qed.

Lemma rule_le_refl_or r r' : r = r' ∨ rule_le r r' → rule_le r r'.
Proof. intros [->|]; [|done]. by destruct (rule_le_total r' r'). Qed.

Lemma evaluate_least rules c groups now :
  match evaluatePamRules ftp localeCompare rules c groups now with
  | None => ∀ r, r ∈ rules → ¬ applicable c groups now r
  | Some m => ∃ r, r ∈ rules ∧ applicable c groups now r ∧ m = to_match r ∧
                   ∀ r', r' ∈ rules → applicable c groups now r' → rule_le r r'
  end.
Proof.
  unfold evaluatePamRules.
  pose proof (first_match_sorted _ c groups now (sort_rules_sorted rules)) as H.
  case_match.
  - destruct H as (r & Hr & ? & ? & Hmin). exists r. rewrite sort_rules_perm in Hr.
    split_and!; [done..|]. intros r' Hr' ?. apply rule_le_refl_or, Hmin; [|done].
    by rewrite sort_rules_perm.
  - intros r Hr. apply H. by rewrite sort_rules_perm.
Qed.

Lemma ids_unique rules a b :
  NoDup (r_id <$> rules) → a ∈ rules → b ∈ rules → r_id a = r_id b → a = b.
Proof.
  intros Hnd [i Hi]%list_elem_of_lookup [j Hj]%list_elem_of_lookup E.
  assert (i = j) as ->; [|congruence].
  eapply NoDup_lookup; [exact Hnd | by rewrite list_lookup_fmap, Hi |].
  rewrite list_lookup_fmap, Hj. simpl. by rewrite E.
Qed.
End Order.

(** ** Time windows as arcs of the day *)

Lemma parse_hhmm_bound s v : parse_hhmm s = Some v → 0 <= v < 1440.
Proof.
  unfold parse_hhmm.
  assert (∀ l1 l2, forallb is_digit l1 = true → forallb is_digit l2 = true →
    (if (23 <? digits_val l1) || (59 <? digits_val l2) then None
     else Some (digits_val l1 * 60 + digits_val l2)) = Some v → 0 <= v < 1440) as Hc.
  { intros l1 l2 H1%digits_val_bound H2%digits_val_bound.
    destruct (Z.ltb_spec 23 (digits_val l1)), (Z.ltb_spec 59 (digits_val l2)); simpl; try done.
    intros [= <-]. lia. }
  destruct (chars s) as [|a [|b [|c [|d [|e [|? ?]]]]]]; try done.
  - destruct (is_digit a && _ && _ && _) eqn:E; [|done]. bool_prop.
    apply (Hc [a] [c; d]); simpl; by rewrite ?andb_true_r, ?andb_true_iff.
  - destruct (is_digit a && _ && _ && _ && _) eqn:E; [|done]. bool_prop.
    apply (Hc [a; b] [d; e]); simpl; by rewrite ?andb_true_r, ?andb_true_iff.
Qed.

Lemma in_minutes_arc start stop m :
  0 <= start < 1440 → 0 <= stop < 1440 → 0 <= m < 1440 →
  in_minutes start stop m = ((m - start) mod 1440 <=? (stop - start) mod 1440).
Proof.
  intros Hs He Hm.
  assert (∀ x, -1440 < x < 1440 → x mod 1440 = if x <? 0 then x + 1440 else x) as Hmod.
  { intros x Hx. destruct (Z.ltb_spec x 0); [|by apply Z.mod_small; lia].
    symmetry. apply (Z.mod_unique_pos _ _ (-1)); lia. }
  unfold in_minutes. rewrite !Hmod by lia.
  destruct (Z.leb_spec start stop), (Z.ltb_spec (m - start) 0), (Z.ltb_spec (stop - start) 0),
    (Z.leb_spec start m), (Z.leb_spec m stop); simpl; lia.
Qed.

(** ** A concrete platform

    Code-unit comparison is a collation, and UTC wall-clock parts can be computed. *)

#[export] Instance str_cmp_collation : Collation str_cmp.
Proof.
  split; intros a b.
  - rewrite (str_cmp_flip a b). lia.
  - apply str_cmp_zero.
  - apply str_cmp_trans.
Qed.

(** Wall-clock parts in UTC; day 0 of the epoch was a Thursday. *)
Definition utcParts (tz : string) (ms : Z) : option (list (string * string)) :=
  if bool_decide (tz = "UTC"%string) then
    let mins := ms / 60000 in
    let day := nth (Z.to_nat ((mins / 1440 + 4) mod 7)) dayNames EmptyString in
    Some [("weekday", day); ("hour", of_chars (print_nat ((mins / 60) mod 24)));
          ("minute", of_chars (print_nat (mins mod 60)))]%string
  else None.

Definition blank_rule : PamRule := {|
  r_id := "r0"; r_name := "blank"; r_enabled := true; r_priority := 100; r_createdAt := Some 0;
  matchSigner := None; matchSignerGroupId := None; matchHash := None; r_matchPathGlob := None;
  matchParentImage := None; matchCommandLine := None; matchUser := None; matchAdGroup := None;
  matchToolName := None; matchRiskTier := None; matchNegate := None; r_timeWindow := None;
  r_verdict := require_approval; r_approvalDurationMinutes := None |}.

(** Deny anything outside [C:\Program Files], with the glob negated. *)
Definition deny_outside_program_files : PamRule := {|
  r_id := "r1"; r_name := "outside Program Files"; r_enabled := true; r_priority := 10;
  r_createdAt := Some 5; matchSigner := None; matchSignerGroupId := None; matchHash := None;
  r_matchPathGlob := Some "C:\Program Files\**"%string; matchParentImage := None;
  matchCommandLine := None; matchUser := None; matchAdGroup := None; matchToolName := None;
  matchRiskTier := None; matchNegate := Some [KPathGlob]; r_timeWindow := None;
  r_verdict := auto_deny; r_approvalDurationMinutes := None |}.

(** Approve Adobe binaries by signer during the night. *)
Definition approve_adobe_at_night : PamRule := {|
  r_id := "r2"; r_name := "Adobe"; r_enabled := true; r_priority := 20; r_createdAt := Some 1;
  matchSigner := Some "Adobe Inc."%string; matchSignerGroupId := None; matchHash := None;
  r_matchPathGlob := None; matchParentImage := None; matchCommandLine := None;
  matchUser := None; matchAdGroup := None; matchToolName := None; matchRiskTier := None;
  matchNegate := None;
  r_timeWindow := Some {| tw_start := "22:00"; tw_end := "06:00"; tw_days := None;
                          tw_timezone := None |}%string;
  r_verdict := auto_approve; r_approvalDurationMinutes := Some 15 |}.

Definition adobe_candidate (path : option string) (hour : Z) : Candidate := {|
  targetExecutablePath := path; targetExecutableHash := None;
  targetExecutableSigner := Some "ADOBE INC."%string; subjectUsername := "bob";
  parentImage := None; commandLine := None; subjectAdGroups := None; toolName := None;
  riskTier := None; c_at := Some (hour * 3600000) |}.

Definition sample_rules : list PamRule :=
  [approve_adobe_at_night; blank_rule; deny_outside_program_files].

Example sample_deny : evaluatePamRules utcParts str_cmp sample_rules
  (adobe_candidate (Some "D:\tmp\x.exe"%string) 23) None 0 = Some (to_match deny_outside_program_files).
Proof. vm_compute. reflexivity. Qed.

(** ** Properties *)



(** The decision does not depend on the order in which the database returns the
    rules: any permutation of a rule list with distinct ids gives the same match. *)
Theorem evaluatePamRules_permutation formatToParts localeCompare
    `{!Collation localeCompare} rules rules' c groups now :
  rules ≡ₚ rules' → NoDup (r_id <$> rules) →
  evaluatePamRules formatToParts localeCompare rules c groups now =
  evaluatePamRules formatToParts localeCompare rules' c groups now.
Proof.
  intros Hp Hnd.
  pose proof (evaluate_least localeCompare formatToParts rules c groups now) as H.
  pose proof (evaluate_least localeCompare formatToParts rules' c groups now) as H'.
  assert (∀ x, x ∈ rules ↔ x ∈ rules') as Hin by (intros x; by rewrite Hp).
  do 2 case_match; [|set_solver..|done].
  destruct H as (r & Hr & ? & -> & Hmin), H' as (r' & Hr' & ? & -> & Hmin').
  assert (r = r') as ->; [|done].
  apply (ids_unique rules); [done..|by apply Hin|].
  apply (rule_le_antisym localeCompare); [apply Hmin | apply Hmin']; set_solver.
Qed.

Lemma evaluatePamRules_permutation_witness :
  evaluatePamRules utcParts str_cmp sample_rules (adobe_candidate None 23) None 0 =
  evaluatePamRules utcParts str_cmp (reverse sample_rules) (adobe_candidate None 23) None 0.
Proof.
  apply evaluatePamRules_permutation; [apply _ | by rewrite reverse_Permutation |].
  apply (bool_decide_unpack _). vm_compute. exact I.
Defined.

(** A rule matches exactly when it carries at least one identifying criterion,
    every criterion it carries has its candidate data present and compares with the
    wanted sign (inverted for a negated criterion), and its time window, if any, is
    active.  In particular missing data fails a criterion whether or not it is
    negated, and a time window alone never matches. *)
Theorem ruleMatches_spec formatToParts rule c groups now :
  ruleMatches formatToParts rule c groups now = true ↔
  (∃ k, crit_set rule k = true) ∧
  (∀ k, crit_set rule k = true →
     data_present rule c groups k = true ∧
     compares rule c groups k = negb (bool_decide (k ∈ default [] (matchNegate rule)))) ∧
  (∀ w, r_timeWindow rule = Some w →
     isWithinTimeWindow formatToParts w (default now (c_at c)) = true).
Proof. apply ruleMatches_iff. Qed.

(** A well-formed time window is an arc of the day, overnight windows included:
    it is active exactly on an allowed weekday when the minutes elapsed since its
    start, counted around midnight, do not exceed the length of the window. *)
Theorem isWithinTimeWindow_arc formatToParts window at_ start stop parts h m :
  parse_hhmm (tw_start window) = Some start →
  parse_hhmm (tw_end window) = Some stop →
  formatToParts (default "UTC"%string (tw_timezone window)) at_ = Some parts →
  Number_part (get_part parts "hour") = Some h →
  Number_part (get_part parts "minute") = Some m → 0 <= m < 60 →
  isWithinTimeWindow formatToParts window at_ = true ↔
  0 <= weekday_index (get_part parts "weekday") ∧
  (∀ d ds, tw_days window = Some (d :: ds) →
     weekday_index (get_part parts "weekday") ∈ d :: ds) ∧
  ((h mod 24) * 60 + m - start) mod 1440 <= (stop - start) mod 1440.
Proof.
  intros Hs He Hp Hh Hm Hmb. unfold isWithinTimeWindow. rewrite Hs, He, Hp, Hh, Hm.
  pose proof (Z.mod_pos_bound h 24 ltac:(lia)).
  rewrite in_minutes_arc by (try apply parse_hhmm_bound in Hs; try apply parse_hhmm_bound in He; lia).
  destruct (Z.ltb_spec (weekday_index (get_part parts "weekday")) 0); [split; [done | lia]|].
  destruct (tw_days window) as [[|d ds]|]; [|case_bool_decide|];
    rewrite ?Z.leb_le; naive_solver.
Qed.

Lemma isWithinTimeWindow_arc_witness :
  isWithinTimeWindow utcParts
    {| tw_start := "22:00"; tw_end := "06:00"; tw_days := Some [5]; tw_timezone := None |}%string
    (86400000 + 3600000 * 3) = true.
Proof.
  apply (isWithinTimeWindow_arc utcParts _ _ 1320 360
    [("weekday", "Fri"); ("hour", "3"); ("minute", "0")]%string 3 0);
    try (vm_compute; reflexivity); try lia.
  split_and!; [vm_compute; done | | vm_compute; done].
  intros d ds [= <- <-]. apply (bool_decide_unpack _). vm_compute. exact I.
Defined.
