(* ===== verification/PamGovernance.v ===== *)
(** * Governance of Helper tool actions ([services/pamToolActionGovernance.ts]).

    A tier >= 2 Helper tool call becomes an elevation request that the PAM rules
    decide; the decision is mirrored onto the execution row the SDK gate polls.
    All statements run in one database transaction.  Statements may fail: the
    model takes a fault schedule, one boolean per statement, and a failed statement
    aborts the transaction, as PostgreSQL does, so that every later statement fails
    too and nothing of it is committed.  Events go to a bus outside the database. *)

From S2P Require Import Prelude Glob PamRules.

Open Scope Z_scope.

(** ** Data *)

Inductive Decision := auto_approved | denied | pending.
#[export] Instance Decision_eq_dec : EqDecision Decision.
Proof. solve_decision. Defined.

Inductive ExecStatus := ExPending | ExApproved | ExRejected | ExOther.
#[export] Instance ExecStatus_eq_dec : EqDecision ExecStatus.
Proof. solve_decision. Defined.

Record Execution := {
  ex_status : ExecStatus; ex_approvedBy : option string; ex_approvedAt : option Z }.

(** A [pam_rules] row: the engine's rule with its tenancy columns. *)
Record RuleRow := { rr_orgId : string; rr_siteId : option string; rr_rule : PamRule }.

Record Elevation := {
  el_id : string; el_orgId : string; el_siteId : option string; el_deviceId : string;
  el_subjectUsername : string; el_reason : string; el_status : Decision;
  el_requestedAt : Z; el_approvedAt : option Z; el_expiresAt : option Z;
  el_denialReason : option string; el_executionId : string; el_toolName : string;
  el_actionDigest : string; el_riskTier : Z; el_ruleId : option string }.

Inductive AuditEvent := AuRequested | AuAutoApproved | AuDenied.
Record AuditRow := { au_elevation : string; au_event : AuditEvent; au_at : Z }.

(** The tables as visible in the organisation's access context. *)
Record GovDb := {
  devices : gmap string (option string);          (* device id to site id *)
  pamRulesTbl : list RuleRow;
  elevationRequests : list Elevation;
  elevationAudit : list AuditRow;
  aiToolExecutions : gmap string Execution }.

Record ToolActionParams := {
  p_orgId : string; p_deviceId : string; p_executionId : string; p_toolName : string;
  p_toolInput : string; p_riskTier : Z; p_subjectUsername : string }.

Definition AUTO_APPROVE_DEFAULT_DURATION_MINUTES : Z := 15.

(** ** The transaction monad *)

Record TxState := {
  tx_db : GovDb; tx_aborted : bool; tx_faults : list bool;
  tx_events : list Decision                       (* published events, by decision *) }.

Definition tx (A : Type) : Type := TxState → outcome unit A * TxState.

#[export] Instance tx_ret : MRet tx := λ A a s, (Ok a, s).
#[export] Instance tx_bind : MBind tx := λ A B f m s,
  match m s with (Ok a, s') => f a s' | (Throw e, s') => (Throw e, s') end.

(** One SQL statement. *)
Definition stmt {A} (f : GovDb → A * GovDb) : tx A := λ s,
  if tx_aborted s then (Throw tt, s)
  else match tx_faults s with
       | true :: fs => (Throw tt, {| tx_db := tx_db s; tx_aborted := true; tx_faults := fs;
                                     tx_events := tx_events s |})
       | fs => let '(a, db') := f (tx_db s) in
               (Ok a, {| tx_db := db'; tx_aborted := false; tx_faults := tail fs;
                         tx_events := tx_events s |})
       end.

(** [publishEvent], which reaches the bus or not. *)
Definition publish (reached : bool) (d : Decision) : tx unit := λ s,
  if reached
  then (Ok tt, {| tx_db := tx_db s; tx_aborted := tx_aborted s; tx_faults := tx_faults s;
                  tx_events := tx_events s ++ [d] |})
  else (Throw tt, s).

(** [try { m } catch { }] *)
Definition best_effort (m : tx unit) : tx unit := λ s, (Ok tt, snd (m s)).

(** [withDbAccessContext]: the body in a transaction; its writes are kept only when
    it returns and no statement failed.  Published events stay published. *)
Definition withDbAccessContext {A} (m : tx A) (faults : list bool) (db : GovDb)
    : outcome unit A * GovDb * list Decision :=
  match m {| tx_db := db; tx_aborted := false; tx_faults := faults; tx_events := [] |} with
  | (Ok a, s') => (Ok a, if tx_aborted s' then db else tx_db s', tx_events s')
  | (Throw e, s') => (Throw e, db, tx_events s')
  end.

(** ** Statements *)

Definition set_executions (db : GovDb) (m : gmap string Execution) : GovDb :=
  {| devices := devices db; pamRulesTbl := pamRulesTbl db;
     elevationRequests := elevationRequests db; elevationAudit := elevationAudit db;
     aiToolExecutions := m |}.

Definition insert_elevation (e : Elevation) (db : GovDb) : unit * GovDb :=
  (tt, {| devices := devices db; pamRulesTbl := pamRulesTbl db;
          elevationRequests := elevationRequests db ++ [e];
          elevationAudit := elevationAudit db; aiToolExecutions := aiToolExecutions db |}).

Definition insert_audit (a : AuditRow) (db : GovDb) : unit * GovDb :=
  (tt, {| devices := devices db; pamRulesTbl := pamRulesTbl db;
          elevationRequests := elevationRequests db;
          elevationAudit := elevationAudit db ++ [a]; aiToolExecutions := aiToolExecutions db |}).

(** [UPDATE ... SET status ... WHERE id = executionId AND status = 'pending'];
    returns whether a row flipped. *)
Definition mirrorElevationDecisionToExecution (executionId : string) (approved : bool)
    (approvedByUserId : option string) (now : Z) (db : GovDb) : bool * GovDb :=
  match aiToolExecutions db !! executionId with
  | Some e =>
      if bool_decide (ex_status e = ExPending)
      then (true, set_executions db (<[executionId :=
              if approved
              then {| ex_status := ExApproved; ex_approvedBy := approvedByUserId;
                      ex_approvedAt := Some now |}
              else {| ex_status := ExRejected; ex_approvedBy := ex_approvedBy e;
                      ex_approvedAt := ex_approvedAt e |}]> (aiToolExecutions db)))
      else (false, db)
  | None => (false, db)
  end.

(** The [where] clause that narrows the rules to the organisation and site. *)
Definition rule_in_scope (orgId : string) (siteId : option string) (row : RuleRow) : bool :=
  bool_decide (rr_orgId row = orgId) && r_enabled (rr_rule row) &&
  match siteId with
  | Some s => bool_decide (rr_siteId row = None) || bool_decide (rr_siteId row = Some s)
  | None => bool_decide (rr_siteId row = None)
  end.

(** ** The handler *)

Section Decide.
Context (formatToParts : string → Z → option (list (string * string))).
Context (localeCompare : string → string → Z).
(** [sha256] of the JSON text of the tool input, in hexadecimal. *)
Context (digest : string → string).

Definition tool_candidate (params : ToolActionParams) (now : Z) : Candidate := {|
  targetExecutablePath := None; targetExecutableHash := None; targetExecutableSigner := None;
  subjectUsername := p_subjectUsername params; parentImage := None; commandLine := None;
  subjectAdGroups := None; toolName := Some (p_toolName params);
  riskTier := Some (p_riskTier params); c_at := Some now |}.

Definition decision_of (m : option PamRuleMatch) : Decision :=
  match m with
  | Some r => match m_verdict r with
              | auto_approve => auto_approved
              | auto_deny => denied
              | require_approval | ignore => pending
              end
  | None => pending
  end.

Definition elevation_row (params : ToolActionParams) (now : Z) (newId : string)
    (siteId : option string) (m : option PamRuleMatch) : Elevation :=
  let decision := decision_of m in
  let durationMinutes := match m with
    | Some r => default AUTO_APPROVE_DEFAULT_DURATION_MINUTES (m_approvalDurationMinutes r)
    | None => AUTO_APPROVE_DEFAULT_DURATION_MINUTES end in
  {| el_id := newId; el_orgId := p_orgId params; el_siteId := siteId;
     el_deviceId := p_deviceId params; el_subjectUsername := p_subjectUsername params;
     el_reason := "Breeze Helper requested AI tool '" +:+ p_toolName params +:+ "' (tier "
                  +:+ print_Z (p_riskTier params) +:+ ")";
     el_status := decision; el_requestedAt := now;
     el_approvedAt := if bool_decide (decision = auto_approved) then Some now else None;
     el_expiresAt := if bool_decide (decision = auto_approved)
                     then Some (now + durationMinutes * 60000) else None;
     el_denialReason := if bool_decide (decision = denied)
       then Some ("Denied by PAM rule '" +:+
                  match m with Some r => m_ruleName r | None => "" end +:+ "'")%string else None;
     el_executionId := p_executionId params; el_toolName := p_toolName params;
     el_actionDigest := digest (p_toolInput params); el_riskTier := p_riskTier params;
     el_ruleId := m_ruleId <$> m |}.

Definition write_audit (decision : Decision) (rowId : string) (now : Z) : tx unit :=
  stmt (insert_audit {| au_elevation := rowId; au_event := AuRequested; au_at := now |});;
  match decision with
  | pending => mret tt
  | auto_approved =>
      stmt (insert_audit {| au_elevation := rowId; au_event := AuAutoApproved; au_at := now |})
  | denied =>
      stmt (insert_audit {| au_elevation := rowId; au_event := AuDenied; au_at := now |})
  end.

Definition decideInContext (params : ToolActionParams) (now : Z) (newId : string)
    (busUp : bool) : tx Decision :=
  siteId ← stmt (λ db, (mjoin (devices db !! p_deviceId params), db));
  rules ← stmt (λ db, (rr_rule <$>
            List.filter (rule_in_scope (p_orgId params) siteId) (pamRulesTbl db), db));
  let m := evaluatePamToolActionRules formatToParts localeCompare rules
             (tool_candidate params now) now in
  let decision := decision_of m in
  stmt (insert_elevation (elevation_row params now newId siteId m));;
  best_effort (write_audit decision newId now);;
  (match decision with
   | pending => mret tt
   | auto_approved =>
       stmt (mirrorElevationDecisionToExecution (p_executionId params) true None now);; mret tt
   | denied =>
       stmt (mirrorElevationDecisionToExecution (p_executionId params) false None now);; mret tt
   end);;
  best_effort (publish busUp decision);;
  mret decision.

Definition decideHelperToolAction (params : ToolActionParams) (now : Z) (newId : string)
    (busUp : bool) (faults : list bool) (db : GovDb) : Decision * GovDb * list Decision :=
  match withDbAccessContext (decideInContext params now newId busUp) faults db with
  | (Ok d, db', evs) => (d, db', evs)
  | (Throw _, db', evs) => (pending, db', evs)
  end.
End Decide.

(** ** Lemmas *)

Lemma stmt_ok {A} (f : GovDb → A * GovDb) s a s' :
  stmt f s = (Ok a, s') →
  tx_aborted s = false ∧ tx_aborted s' = false ∧ f (tx_db s) = (a, tx_db s').
Proof.
  unfold stmt. destruct (tx_aborted s); [done|].
  destruct (tx_faults s) as [|[] fs]; try done;
    destruct (f (tx_db s)) as [b db']; intros [= -> <-]; done.
Qed.

Lemma tx_bind_ok {A B} (m : tx A) (k : A → tx B) s b s' :
  (m ≫= k) s = (Ok b, s') → ∃ a s1, m s = (Ok a, s1) ∧ k a s1 = (Ok b, s').
Proof.
  unfold mbind, tx_bind. destruct (m s) as [[a|e] s1]; [eauto | done].
Qed.

(** Auditing touches only the audit table. *)
Definition same_but_audit (db db' : GovDb) : Prop :=
  devices db' = devices db ∧ pamRulesTbl db' = pamRulesTbl db ∧
  elevationRequests db' = elevationRequests db ∧ aiToolExecutions db' = aiToolExecutions db.

Lemma stmt_audit_frame row s : same_but_audit (tx_db s) (tx_db (stmt (insert_audit row) s).2).
Proof. unfold stmt. destruct (tx_aborted s); [done|]. by destruct (tx_faults s) as [|[] ?]. Qed.

Lemma write_audit_frame d id now s :
  same_but_audit (tx_db s) (tx_db (write_audit d id now s).2).
Proof.
  unfold write_audit, mbind, tx_bind.
  pose proof (stmt_audit_frame {| au_elevation := id; au_event := AuRequested; au_at := now |} s)
    as Hf.
  destruct (stmt _ s) as [[u|e] s1]; simpl in *; [|done].
  destruct d; simpl; [..|done];
    match goal with |- same_but_audit _ (tx_db (stmt (insert_audit ?r) s1).2) =>
      pose proof (stmt_audit_frame r s1) end;
    unfold same_but_audit in *; intuition congruence.
Qed.

(** The mirror writes only the execution table, and what it writes depends on nothing else. *)
Lemma mirror_frame id approved by_ now db0 db flip db' :
  mirrorElevationDecisionToExecution id approved by_ now db = (flip, db') →
  aiToolExecutions db = aiToolExecutions db0 →
  elevationRequests db' = elevationRequests db ∧
  aiToolExecutions db' =
    aiToolExecutions (mirrorElevationDecisionToExecution id approved by_ now db0).2.
Proof.
  unfold mirrorElevationDecisionToExecution. intros H E. rewrite <- E.
  destruct (aiToolExecutions db !! id) as [e|]; [case_bool_decide|];
    injection H as <- <-; auto.
Qed.

Section Facts.
Context (formatToParts : string → Z → option (list (string * string))).
Context (localeCompare : string → string → Z) `{!Collation localeCompare}.
Context (digest : string → string).
Context (params : ToolActionParams) (now : Z) (newId : string).

(** What the rules in scope say, read off the database before the call. *)
Definition site_of (db : GovDb) : option string := mjoin (devices db !! p_deviceId params).
Definition rules_in_scope (db : GovDb) : list PamRule :=
  rr_rule <$> List.filter (rule_in_scope (p_orgId params) (site_of db)) (pamRulesTbl db).
Definition match_of (db : GovDb) : option PamRuleMatch :=
  evaluatePamToolActionRules formatToParts localeCompare (rules_in_scope db)
    (tool_candidate params now) now.

(** A run that reaches its end with a binding decision committed everything. *)
Lemma decideInContext_run busUp faults db d s' :
  decideInContext formatToParts localeCompare digest params now newId busUp
    {| tx_db := db; tx_aborted := false; tx_faults := faults; tx_events := [] |} = (Ok d, s') →
  d = decision_of (match_of db) ∧
  (d ≠ pending → tx_aborted s' = false) ∧
  elevationRequests (tx_db s') = elevationRequests db ++
    [elevation_row digest params now newId (site_of db) (match_of db)] ∧
  aiToolExecutions (tx_db s') =
    match d with
    | pending => aiToolExecutions db
    | _ => aiToolExecutions (mirrorElevationDecisionToExecution (p_executionId params)
             (bool_decide (d = auto_approved)) None now db).2
    end.
Proof.
  unfold decideInContext. intros H.
  apply tx_bind_ok in H as (site & s1 & Hq1 & H). apply stmt_ok in Hq1 as (_ & _ & [= <- Hd1]).
  apply tx_bind_ok in H as (rules & s2 & Hq2 & H). apply stmt_ok in Hq2 as (_ & _ & [= <- Hd2]).
  simpl in *. rewrite <- Hd1 in H. fold (site_of db) (rules_in_scope db) (match_of db) in H.
  apply tx_bind_ok in H as ([] & s3 & Hq3 & H). apply stmt_ok in Hq3 as (_ & _ & [= Hd3]).
  rewrite <- Hd2, <- Hd1 in Hd3.
  apply tx_bind_ok in H as ([] & s4 & Hq4 & H). unfold best_effort in Hq4. injection Hq4 as Hq4.
  pose proof (write_audit_frame (decision_of (match_of db)) newId now s3) as (_ & _ & He & Hx).
  rewrite Hq4 in He, Hx. rewrite <- Hd3 in He, Hx. simpl in He, Hx.
  apply tx_bind_ok in H as ([] & s5 & Hq5 & H).
  apply tx_bind_ok in H as ([] & s6 & Hq6 & H). injection H as <- <-.
  assert (tx_db s6 = tx_db s5 ∧ tx_aborted s6 = tx_aborted s5) as [Hdb6 Hab6].
  { unfold best_effort, publish in Hq6. injection Hq6 as <-. by destruct busUp. }
  rewrite Hdb6, Hab6. split; [done|].
  assert (∀ b, (stmt (mirrorElevationDecisionToExecution (p_executionId params) b None now);;
      mret tt) s4 = (Ok (), s5) →
    tx_aborted s5 = false ∧ elevationRequests (tx_db s5) = elevationRequests (tx_db s4) ∧
    aiToolExecutions (tx_db s5) = aiToolExecutions
      (mirrorElevationDecisionToExecution (p_executionId params) b None now db).2) as Hmirror.
  { intros b Hb. apply tx_bind_ok in Hb as (flip & s5' & Hb & [= <-]).
    apply stmt_ok in Hb as (_ & ? & Hb).
    eapply mirror_frame in Hb as [-> ->]; [done | by rewrite Hx]. }
  destruct (decision_of (match_of db));
    [by apply Hmirror in Hq5 as (? & -> & ->).. |].
  injection Hq5 as <-. done.
Qed.

(** An enabled rule of the organisation, without a site or of the device's own. *)
Lemma rule_in_scope_spec orgId siteId row :
  rule_in_scope orgId siteId row = true →
  rr_orgId row = orgId ∧ r_enabled (rr_rule row) = true ∧
  (rr_siteId row = None ∨ (siteId ≠ None ∧ rr_siteId row = siteId)).
Proof.
  unfold rule_in_scope. intros H. bool_prop. split_and!; [done..|].
  destruct siteId as [st|]; [|left; by bool_prop].
  match goal with H : _ || _ = true |- _ => apply orb_true_iff in H as [H|H] end; bool_prop; auto.
Qed.

(** The rule behind a binding tool-action match. *)
Lemma tool_match_rule db m :
  match_of db = Some m →
  ∃ row, row ∈ pamRulesTbl db ∧
    (rr_orgId row = p_orgId params ∧ r_enabled (rr_rule row) = true ∧
     (rr_siteId row = None ∨ (site_of db ≠ None ∧ rr_siteId row = site_of db))) ∧
    hasToolActionCriterion (rr_rule row) = true ∧
    ruleMatches formatToParts (rr_rule row) (tool_candidate params now) None now = true ∧
    m = to_match (rr_rule row).
Proof.
  intros Hm. unfold match_of, evaluatePamToolActionRules in Hm.
  pose proof (evaluate_least localeCompare formatToParts
    (List.filter hasToolActionCriterion (rules_in_scope db))
    (tool_candidate params now) None now) as H.
  rewrite Hm in H. destruct H as (r & Hr & [_ Hmatch] & -> & _).
  apply list_elem_of_In, filter_In in Hr as [Hr Htool].
  unfold rules_in_scope in Hr. apply list_elem_of_In, list_elem_of_fmap in Hr as (row & -> & Hrow).
  apply list_elem_of_In, filter_In in Hrow as [Hrow Hscope].
  apply rule_in_scope_spec in Hscope. exists row. by split; [apply list_elem_of_In|].
Qed.
End Facts.

(** ** Properties *)

(** C3. Whatever statements fail, a Helper tool action is auto-approved or denied only
    through a tool-action rule of the organisation, enabled and in scope for the
    device's site, that matches the action and has that verdict; the decision, the
    elevation row and the mirrored execution status are then committed together.
    When the outcome is [pending] no execution row has changed. *)
Theorem decideHelperToolAction_safe formatToParts localeCompare `{!Collation localeCompare}
    digest params now newId busUp faults db d db' evs :
  decideHelperToolAction formatToParts localeCompare digest params now newId busUp faults db =
    (d, db', evs) →
  match d with
  | pending => aiToolExecutions db' = aiToolExecutions db
  | _ =>
      (∃ row, row ∈ pamRulesTbl db ∧
         (rr_orgId row = p_orgId params ∧ r_enabled (rr_rule row) = true ∧
          (rr_siteId row = None ∨ (site_of params db ≠ None ∧ rr_siteId row = site_of params db))) ∧
         hasToolActionCriterion (rr_rule row) = true ∧
         ruleMatches formatToParts (rr_rule row) (tool_candidate params now) None now = true ∧
         r_verdict (rr_rule row) = match d with auto_approved => auto_approve | _ => auto_deny end ∧
         ∃ e, elevationRequests db' = elevationRequests db ++ [e] ∧ el_status e = d ∧
              el_executionId e = p_executionId params ∧ el_ruleId e = Some (r_id (rr_rule row))) ∧
      aiToolExecutions db' =
        aiToolExecutions (mirrorElevationDecisionToExecution (p_executionId params)
          (bool_decide (d = auto_approved)) None now db).2
  end.
Proof.
  unfold decideHelperToolAction, withDbAccessContext.
  destruct (decideInContext _ _ _ _ _ _ _ _) as [[d'|e] s'] eqn:Hrun; intros [= <- <- <-]; [|done].
  apply decideInContext_run in Hrun as (Ed & Hab & He & Hx).
  assert (d' ≠ pending → ∃ m, match_of formatToParts localeCompare params now db = Some m ∧
    m_verdict m = match d' with auto_approved => auto_approve | _ => auto_deny end) as Hm.
  { intros Hne. destruct (match_of _ _ _ _ db) as [m|]; [|done]. exists m. split; [done|].
    subst d'. simpl in *. by destruct (m_verdict m). }
  assert (d' = pending ∨ d' ≠ pending) as [->|Hne] by (destruct d'; auto).
  { by destruct (tx_aborted s'). }
  destruct (Hm Hne) as (m & Em & Hv). rewrite (Hab Hne).
  pose proof Em as Em'. apply tool_match_rule in Em as (row & ? & ? & ? & ? & Eto); [|done].
  rewrite Eto in Hv. simpl in Hv.
  assert (∃ e, elevationRequests (tx_db s') = elevationRequests db ++ [e] ∧ el_status e = d' ∧
    el_executionId e = p_executionId params ∧ el_ruleId e = Some (r_id (rr_rule row))) as Hrow.
  { eexists. split; [exact He|]. simpl. split_and!; [done..|]. by rewrite Em', Eto. }
  destruct d'; [| |done]; (split; [exists row; auto 10 | done]).
Qed.

Definition sample_tool_rule : PamRule := {|
  r_id := "t1"; r_name := "restart is fine"; r_enabled := true; r_priority := 10;
  r_createdAt := None; matchSigner := None; matchSignerGroupId := None; matchHash := None;
  r_matchPathGlob := None; matchParentImage := None; matchCommandLine := None;
  matchUser := None; matchAdGroup := None; matchToolName := Some "restart_service"%string;
  matchRiskTier := Some 2; matchNegate := None; r_timeWindow := None;
  r_verdict := auto_approve; r_approvalDurationMinutes := None |}.
Definition sample_db : GovDb := {|
  devices := {[ "dev"%string := Some "site"%string ]};
  pamRulesTbl := [ {| rr_orgId := "org"; rr_siteId := None; rr_rule := sample_tool_rule |} ];
  elevationRequests := []; elevationAudit := [];
  aiToolExecutions := {[ "ex"%string :=
    {| ex_status := ExPending; ex_approvedBy := None; ex_approvedAt := None |} ]} |}.
Definition sample_params : ToolActionParams := {|
  p_orgId := "org"; p_deviceId := "dev"; p_executionId := "ex";
  p_toolName := "Restart_Service"; p_toolInput := "{}"; p_riskTier := 2;
  p_subjectUsername := "HOST-1" |}.

Lemma decideHelperToolAction_safe_witness :
  ∃ row, row ∈ pamRulesTbl sample_db ∧ r_verdict (rr_rule row) = auto_approve.
Proof.
  destruct (decideHelperToolAction utcParts str_cmp id sample_params 0 "e1" true [] sample_db)
    as [[d db'] evs] eqn:E.
  pose proof (decideHelperToolAction_safe utcParts str_cmp id sample_params 0 "e1" true []
    sample_db d db' evs E) as H.
  assert (d = auto_approved) as ->.
  { apply (f_equal (λ x, x.1.1)) in E. simpl in E. rewrite <- E. vm_compute. reflexivity. }
  destruct H as [(row & ? & _ & _ & _ & ? & _) _]. eauto.
Defined.

(** The audit rows a decision writes. *)
Definition audit_rows (d : Decision) (id : string) (now : Z) : list AuditRow :=
  {| au_elevation := id; au_event := AuRequested; au_at := now |} ::
  match d with
  | pending => []
  | auto_approved => [{| au_elevation := id; au_event := AuAutoApproved; au_at := now |}]
  | denied => [{| au_elevation := id; au_event := AuDenied; au_at := now |}]
  end.

(** When no statement fails the handler carries its decision through: it returns
    what the rules in scope say, adds the elevation row and its audit trail,
    publishes the event, and flips the polled execution row out of [pending]
    exactly when the decision is binding. *)
Theorem decideHelperToolAction_complete formatToParts localeCompare digest params now newId db :
  let m := match_of formatToParts localeCompare params now db in
  let d := decision_of m in
  decideHelperToolAction formatToParts localeCompare digest params now newId true [] db =
  (d,
   {| devices := devices db; pamRulesTbl := pamRulesTbl db;
      elevationRequests := elevationRequests db ++
        [elevation_row digest params now newId (site_of params db) m];
      elevationAudit := elevationAudit db ++ audit_rows d newId now;
      aiToolExecutions :=
        match d with
        | pending => aiToolExecutions db
        | _ => aiToolExecutions (mirrorElevationDecisionToExecution (p_executionId params)
                 (bool_decide (d = auto_approved)) None now db).2
        end |},
   [d]).
Proof.
  intros m d. unfold decideHelperToolAction, withDbAccessContext, decideInContext.
  unfold mbind, tx_bind, stmt, best_effort. simpl.
  fold (site_of params db) (rules_in_scope params db).
  fold (match_of formatToParts localeCompare params now db). fold m. fold d.
  unfold write_audit, mbind, tx_bind, stmt, mirrorElevationDecisionToExecution.
  destruct d; simpl; rewrite <- ?(assoc_L (++)); simpl; try done;
    (destruct (aiToolExecutions db !! p_executionId params); [case_bool_decide|]; done).
Qed.
