(* ===== verification/Permissions.v ===== *)
(** * Role permissions and tenant access ([services/permissions.ts]).

    Loading a user's effective permissions from the membership and role tables, the
    permission and tenant checks built on them, and the permission registry
    ([packages/shared/src/constants/permissions.ts]). *)

From S2P Require Import Prelude.

Open Scope Z_scope.

(** ** Data *)

Inductive Scope := SystemScope | PartnerScope | OrganizationScope.
Inductive OrgAccess := AccessAll | AccessSelected | AccessNone.
#[export] Instance Scope_eq_dec : EqDecision Scope.
Proof. solve_decision. Defined.
#[export] Instance OrgAccess_eq_dec : EqDecision OrgAccess.
Proof. solve_decision. Defined.

(** [{ resource, action }] *)
Abbreviation Permission := (string * string)%type.

Record UserPermissions := {
  up_permissions : list Permission;
  up_partnerId : option string;
  up_orgId : option string;
  up_roleId : string;
  up_scope : Scope;
  up_orgAccess : option OrgAccess;
  up_allowedOrgIds : option (list string);
  up_allowedSiteIds : option (list string) }.
#[export] Instance UserPermissions_eq_dec : EqDecision UserPermissions.
Proof. solve_decision. Defined.

Record Context_ := { cx_partnerId : option string; cx_orgId : option string }.
#[export] Instance Context_eq_dec : EqDecision Context_.
Proof. solve_decision. Defined.

Record OrgUser := {
  ou_orgId : string; ou_userId : string; ou_roleId : string; ou_siteIds : option (list string) }.
Record PartnerUser := {
  pu_partnerId : string; pu_userId : string; pu_roleId : string;
  pu_orgAccess : OrgAccess; pu_orgIds : option (list string) }.

(** The membership tables, and for each role the joined permission rows. *)
Record PermDb := {
  organizationUsers : list OrgUser;
  partnerUsers : list PartnerUser;
  rolePermissions : gmap string (list Permission) }.

(** ** Loading *)

(** What the membership queries establish: role, scope and access lists. *)
Record Membership := {
  mb_roleId : string; mb_scope : Scope; mb_orgAccess : option OrgAccess;
  mb_allowedOrgIds : option (list string); mb_allowedSiteIds : option (list string) }.

(** [x || null] for a nullable id: the empty string counts as absent. *)
Definition non_empty (s : option string) : option string :=
  if truthy s then s else None.

Definition find_org_user (db : PermDb) (userId orgId : string) : option OrgUser :=
  snd <$> list_find (λ r, ou_userId r = userId ∧ ou_orgId r = orgId) (organizationUsers db).
Definition find_partner_user (db : PermDb) (userId partnerId : string) : option PartnerUser :=
  snd <$> list_find (λ r, pu_userId r = userId ∧ pu_partnerId r = partnerId) (partnerUsers db).

(** Organisation membership first; the partner membership only when it gave no role.
    [role_id] is a non-null uuid, so a row that is found gives a role. *)
Definition readMembership (db : PermDb) (userId : string) (cx : Context_) : option Membership :=
  let org := orgId ← non_empty (cx_orgId cx);
             r ← find_org_user db userId orgId;
             Some {| mb_roleId := ou_roleId r; mb_scope := OrganizationScope;
                     mb_orgAccess := None; mb_allowedOrgIds := None;
                     mb_allowedSiteIds := ou_siteIds r |} in
  let partner := partnerId ← non_empty (cx_partnerId cx);
                 r ← find_partner_user db userId partnerId;
                 Some {| mb_roleId := pu_roleId r; mb_scope := PartnerScope;
                         mb_orgAccess := Some (pu_orgAccess r);
                         mb_allowedOrgIds := pu_orgIds r; mb_allowedSiteIds := None |} in
  or_else org partner.

Definition readRolePermissions (db : PermDb) (roleId : string) : list Permission :=
  default [] (rolePermissions db !! roleId).

Definition assemble (cx : Context_) (mb : Membership) (perms : list Permission)
    : UserPermissions :=
  {| up_permissions := perms; up_partnerId := non_empty (cx_partnerId cx);
     up_orgId := non_empty (cx_orgId cx); up_roleId := mb_roleId mb; up_scope := mb_scope mb;
     up_orgAccess := mb_orgAccess mb; up_allowedOrgIds := mb_allowedOrgIds mb;
     up_allowedSiteIds := mb_allowedSiteIds mb |}.

(** The uncached body of [getUserPermissions]. *)
Definition loadUserPermissions (db : PermDb) (userId : string) (cx : Context_)
    : option UserPermissions :=
  mb ← readMembership db userId cx;
  Some (assemble cx mb (readRolePermissions db (mb_roleId mb))).

(** ** Checks *)

Definition hasPermission (up : UserPermissions) (resource action : string) : bool :=
  existsb (λ p, (bool_decide (p.1 = resource) || bool_decide (p.1 = "*"%string)) &&
                (bool_decide (p.2 = action) || bool_decide (p.2 = "*"%string)))
          (up_permissions up).

Definition canAccessOrg (up : UserPermissions) (orgId : string) : bool :=
  match up_scope up with
  | OrganizationScope => bool_decide (up_orgId up = Some orgId)
  | PartnerScope =>
      match up_orgAccess up with
      | Some AccessAll => true
      | Some AccessNone => false
      | Some AccessSelected =>
          match up_allowedOrgIds up with
          | Some ids => bool_decide (orgId ∈ ids)
          | None => false
          end
      | None => true
      end
  | SystemScope => true
  end.

Definition canAccessSite (up : UserPermissions) (siteId : string) : bool :=
  match up_allowedSiteIds up with
  | None => true
  | Some ids => bool_decide (siteId ∈ ids)
  end.

(** ** The registry *)

Definition PERMISSION_GRANTS : list Permission :=
  [("backup", "read"); ("backup", "write"); ("devices", "read"); ("devices", "write");
   ("devices", "delete"); ("devices", "execute"); ("topology", "read"); ("topology", "write");
   ("scripts", "read"); ("scripts", "write"); ("scripts", "delete"); ("scripts", "execute");
   ("alerts", "read"); ("alerts", "write"); ("alerts", "acknowledge"); ("tickets", "read");
   ("tickets", "write"); ("tickets", "manage"); ("catalog", "read"); ("catalog", "write");
   ("catalog", "delete"); ("invoices", "read"); ("invoices", "write"); ("invoices", "send");
   ("invoices", "export"); ("contracts", "read"); ("contracts", "write");
   ("contracts", "manage"); ("quotes", "read"); ("quotes", "write"); ("quotes", "send");
   ("time_entries", "read"); ("time_entries", "write"); ("users", "read"); ("users", "write");
   ("users", "delete"); ("users", "invite"); ("organizations", "read");
   ("organizations", "write"); ("organizations", "delete"); ("sso", "admin");
   ("sites", "read"); ("sites", "write"); ("sites", "delete"); ("automations", "read");
   ("automations", "write"); ("automations", "delete"); ("remote", "access");
   ("audit", "read"); ("audit", "export"); ("reports", "read"); ("reports", "write");
   ("reports", "delete"); ("reports", "export"); ("billing", "manage");
   ("vulnerabilities", "accept_risk"); ("*", "*")]%string.

Definition permissionKey (p : Permission) : string := p.1 +:+ ":" +:+ p.2.
Definition KNOWN_PERMISSION_KEYS : list string := permissionKey <$> PERMISSION_GRANTS.
Definition ASSIGNABLE_PERMISSIONS : list Permission :=
  List.filter (λ p, negb (bool_decide (p.1 = "*"%string)) && negb (bool_decide (p.2 = "*"%string)))
    PERMISSION_GRANTS.
Definition ASSIGNABLE_PERMISSION_KEYS : list string := permissionKey <$> ASSIGNABLE_PERMISSIONS.
Definition isKnownPermission (p : Permission) : bool :=
  bool_decide (permissionKey p ∈ KNOWN_PERMISSION_KEYS).
Definition isAssignablePermission (p : Permission) : bool :=
  bool_decide (permissionKey p ∈ ASSIGNABLE_PERMISSION_KEYS).

(** ** Lemmas *)

Lemma non_empty_Some s x : non_empty s = Some x ↔ s = Some x ∧ x ≠ EmptyString.
Proof. destruct s as [[|c s]|]; unfold non_empty; simpl; naive_solver. Qed.

(** The membership rows the context selects. *)
Definition org_row (db : PermDb) (userId : string) (cx : Context_) : option OrgUser :=
  orgId ← non_empty (cx_orgId cx); find_org_user db userId orgId.
Definition partner_row (db : PermDb) (userId : string) (cx : Context_) : option PartnerUser :=
  partnerId ← non_empty (cx_partnerId cx); find_partner_user db userId partnerId.

Lemma readMembership_rows db userId cx :
  readMembership db userId cx =
  match org_row db userId cx, partner_row db userId cx with
  | Some r, _ => Some {| mb_roleId := ou_roleId r; mb_scope := OrganizationScope;
                         mb_orgAccess := None; mb_allowedOrgIds := None;
                         mb_allowedSiteIds := ou_siteIds r |}
  | None, Some r => Some {| mb_roleId := pu_roleId r; mb_scope := PartnerScope;
                            mb_orgAccess := Some (pu_orgAccess r);
                            mb_allowedOrgIds := pu_orgIds r; mb_allowedSiteIds := None |}
  | None, None => None
  end.
Proof.
  unfold readMembership, org_row, partner_row.
  destruct (non_empty (cx_orgId cx)) as [o|]; simpl;
    [destruct (find_org_user db userId o); simpl|];
    destruct (non_empty (cx_partnerId cx)) as [p|]; simpl; try done;
    by destruct (find_partner_user db userId p).
Qed.

Lemma registry_colon_free p :
  p ∈ PERMISSION_GRANTS → has_no ":" p.1 ∧ has_no ":" p.2.
Proof.
  assert (Forall (λ p : Permission, has_no ":" p.1 ∧ has_no ":" p.2) PERMISSION_GRANTS) as H.
  { unfold has_no. apply (bool_decide_unpack _). vm_compute. exact I. }
  rewrite Forall_forall in H. apply H.
Qed.

Lemma key_in_registry (l : list Permission) p :
  (∀ q, q ∈ l → q ∈ PERMISSION_GRANTS) → permissionKey p ∈ permissionKey <$> l ↔ p ∈ l.
Proof.
  intros Hl. rewrite list_elem_of_fmap. split; [|naive_solver].
  intros (q & E & Hq). destruct (registry_colon_free q (Hl q Hq)) as [H1 H2].
  destruct (string_sep_inj ":" p.1 p.2 q.1 q.2 H1 H2 E).
  by destruct p, q; simpl in *; subst.
Qed.

(** ** Properties *)

(** Tenant isolation of loaded permissions: permissions loaded for a user in a
    context admit an organisation exactly when the context names it and the user is
    a member of it, or the user has no membership there and their partner membership
    covers it ([all], or [selected] and listed).  Loaded permissions never have
    system scope. *)
Theorem canAccessOrg_loaded db userId cx up orgId :
  loadUserPermissions db userId cx = Some up →
  up_scope up ≠ SystemScope ∧
  (canAccessOrg up orgId = true ↔
   match org_row db userId cx with
   | Some _ => cx_orgId cx = Some orgId
   | None =>
       ∃ r, partner_row db userId cx = Some r ∧
         (pu_orgAccess r = AccessAll ∨
          pu_orgAccess r = AccessSelected ∧ ∃ ids, pu_orgIds r = Some ids ∧ orgId ∈ ids)
   end).
Proof.
  unfold loadUserPermissions. rewrite readMembership_rows.
  destruct (org_row db userId cx) as [r|] eqn:Eo; simpl.
  - intros [= <-]. split; [done|]. unfold canAccessOrg; simpl.
    rewrite bool_decide_eq_true, non_empty_Some. split; [naive_solver|]. intros E.
    split; [done|]. intros ->. unfold org_row in Eo. by rewrite E in Eo.
  - destruct (partner_row db userId cx) as [r|]; simpl; [|done]. intros [= <-].
    split; [done|]. unfold canAccessOrg; simpl. destruct r as [? ? ? a ids]; simpl.
    destruct a, ids; rewrite ?bool_decide_eq_true;
      (split; [intros H; eexists; split; [done|]; simpl; naive_solver
              | intros (r' & [= <-] & H); simpl in *; naive_solver]).
Qed.

Definition sample_perm_db : PermDb := {|
  organizationUsers := [];
  partnerUsers := [ {| pu_partnerId := "p"; pu_userId := "u"; pu_roleId := "role";
                       pu_orgAccess := AccessSelected; pu_orgIds := Some ["o1"%string] |} ];
  rolePermissions := {[ "role"%string := [("devices", "read")]%string ]} |}.

Lemma canAccessOrg_loaded_witness :
  ∃ up, loadUserPermissions sample_perm_db "u"
          {| cx_partnerId := Some "p"; cx_orgId := None |}%string = Some up ∧
    up_scope up ≠ SystemScope ∧ canAccessOrg up "o1" = true.
Proof.
  eexists. split; [vm_compute; reflexivity|].
  edestruct (canAccessOrg_loaded sample_perm_db "u"
    {| cx_partnerId := Some "p"; cx_orgId := None |}%string) as [Hs Hc];
    [vm_compute; reflexivity|].
  split; [exact Hs|]. apply Hc. vm_compute. eexists. split; [reflexivity|]. right.
  split; [reflexivity|]. eexists. split; [reflexivity|]. left.
Defined.

(** The assignability check of custom roles accepts exactly the registered
    permissions other than wildcards, although it compares joined keys: no other
    resource and action can forge a registered key. *)
Theorem isAssignablePermission_exact p :
  isAssignablePermission p = true ↔
  p ∈ PERMISSION_GRANTS ∧ p.1 ≠ "*"%string ∧ p.2 ≠ "*"%string.
Proof.
  unfold isAssignablePermission, ASSIGNABLE_PERMISSION_KEYS, ASSIGNABLE_PERMISSIONS.
  assert (∀ q, q ∈ List.filter (λ p : Permission, negb (bool_decide (p.1 = "*"%string)) &&
    negb (bool_decide (p.2 = "*"%string))) PERMISSION_GRANTS ↔
    q ∈ PERMISSION_GRANTS ∧ q.1 ≠ "*"%string ∧ q.2 ≠ "*"%string) as Hf.
  { intros q. rewrite list_elem_of_In, filter_In, <- list_elem_of_In, andb_true_iff,
      !negb_true_iff, !bool_decide_eq_false. tauto. }
  rewrite bool_decide_eq_true, key_in_registry by (intros q Hq; by apply Hf).
  apply Hf.
Qed.
