(* ===== verification/PermissionCache.v ===== *)
(** * The permission cache ([services/permissions.ts]).

    Every API process keeps a hot cache of loaded permissions.  Entries carry the
    global and per-user version counters read from Redis before the load; a lookup
    compares them with the current counters.  The first half models the functions;
    the second half models several processes as a step relation, in which a load is
    not atomic, and shows that an invalidated entry is never served. *)

From S2P Require Import Prelude Permissions.

Open Scope Z_scope.

(** ** Functions *)

Record Versions := { globalVersion : Z; userVersion : Z }.
#[export] Instance Versions_eq_dec : EqDecision Versions.
Proof. solve_decision. Defined.

Record CacheEntry := {
  ce_userPerms : UserPermissions; ce_expiresAt : Z; ce_versions : option Versions }.

(** Redis counters; [None] when Redis is unavailable or the read fails. *)
Abbreviation Redis := (option (gmap string Z)).
Abbreviation Cache := (gmap string CacheEntry).

Definition CACHE_TTL : Z := 5 * 60 * 1000.
Definition GLOBAL_VERSION_KEY : string := "permission-cache:version".
Definition userPermissionVersionKey (userId : string) : string :=
  "permission-cache:user-version:" +:+ userId.

(** Version counters; a missing key reads as ['0']. *)
Definition versions_in (m : gmap string Z) (userId : string) : Versions :=
  {| globalVersion := default 0 (m !! GLOBAL_VERSION_KEY);
     userVersion := default 0 (m !! userPermissionVersionKey userId) |}.
Definition getPermissionCacheVersions (redis : Redis) (userId : string) : option Versions :=
  m ← redis; Some (versions_in m userId).

Definition cacheVersionsMatch (cached current : option Versions) : bool :=
  match cached, current with
  | Some a, Some b => (globalVersion a =? globalVersion b) && (userVersion a =? userVersion b)
  | None, None => true
  | _, _ => false
  end.

Definition or_empty (s : option string) : string := default EmptyString s.
Definition cacheKey (userId : string) (cx : Context_) : string :=
  userId +:+ ":" +:+ or_empty (cx_partnerId cx) +:+ ":" +:+ or_empty (cx_orgId cx).

(** The cache test at the head of [getUserPermissions]. *)
Definition cacheHit (cache : Cache) (key : string) (versions : option Versions) (now : Z)
    : option UserPermissions :=
  match cache !! key with
  | Some e => if (now <? ce_expiresAt e) && cacheVersionsMatch (ce_versions e) versions
              then Some (ce_userPerms e) else None
  | None => None
  end.

Definition getUserPermissions (redis : Redis) (db : PermDb) (cache : Cache)
    (userId : string) (cx : Context_) (now : Z) : option UserPermissions * Cache :=
  let key := cacheKey userId cx in
  let versions := getPermissionCacheVersions redis userId in
  match cacheHit cache key versions now with
  | Some up => (Some up, cache)
  | None =>
      match loadUserPermissions db userId cx with
      | None => (None, cache)
      | Some up =>
          (Some up, <[key := {| ce_userPerms := up; ce_expiresAt := now + CACHE_TTL;
                                ce_versions := versions |}]> cache)
      end
  end.

(** The local part of [clearPermissionCache]. *)
Definition clear_local (cache : Cache) (userId : option string) : Cache :=
  if truthy userId
  then filter (λ kv, startsWith (or_empty userId +:+ ":") kv.1 = false) cache
  else ∅.

(** [redis.incr(key)] *)
Definition incr (m : gmap string Z) (key : string) : gmap string Z :=
  <[key := default 0 (m !! key) + 1]> m.
Definition bumpSharedPermissionCacheVersion (redis : Redis) (userId : option string) : Redis :=
  m ← redis;
  Some (incr m (if truthy userId then userPermissionVersionKey (or_empty userId)
                else GLOBAL_VERSION_KEY)).

Definition clearPermissionCache (redis : Redis) (cache : Cache) (userId : option string)
    : Redis * Cache :=
  (bumpSharedPermissionCacheVersion redis userId, clear_local cache userId).

(** ** Several processes

    A request that misses reads the versions, then the membership, then the role's
    permissions, and stores; other steps may come in between.  [sy_dirty] holds the
    users whose permissions changed in the database and for whom
    [clearPermissionCache] has not bumped the counter yet. *)

Record Flight := {
  fl_proc : nat; fl_user : string; fl_cx : Context_; fl_versions : Versions;
  fl_membership : option (option Membership) }.

Record Sys := {
  sy_db : PermDb; sy_redis : gmap string Z; sy_caches : gmap nat Cache;
  sy_flights : gmap nat Flight; sy_dirty : gset string }.

Definition cache_of (s : Sys) (p : nat) : Cache := default ∅ (sy_caches s !! p).

(** Ids are uuids: they contain no colon, and a user id is not empty. *)
Definition wf_ids (u : string) (cx : Context_) : Prop :=
  has_no ":" u ∧ has_no ":" (or_empty (cx_partnerId cx)) ∧ has_no ":" (or_empty (cx_orgId cx)).

Definition with_flight (s : Sys) (i : nat) (f : option Flight) : Sys :=
  {| sy_db := sy_db s; sy_redis := sy_redis s; sy_caches := sy_caches s;
     sy_flights := partial_alter (λ _, f) i (sy_flights s); sy_dirty := sy_dirty s |}.
Definition with_cache (s : Sys) (p : nat) (c : Cache) : Sys :=
  {| sy_db := sy_db s; sy_redis := sy_redis s; sy_caches := <[p := c]> (sy_caches s);
     sy_flights := sy_flights s; sy_dirty := sy_dirty s |}.
Definition set_membership (f : Flight) (mb : option Membership) : Flight :=
  {| fl_proc := fl_proc f; fl_user := fl_user f; fl_cx := fl_cx f;
     fl_versions := fl_versions f; fl_membership := Some mb |}.

Inductive step : Sys → Sys → Prop :=
(* a request reads the counters and misses *)
| st_start s i p u cx now :
    wf_ids u cx → sy_flights s !! i = None →
    cacheHit (cache_of s p) (cacheKey u cx) (Some (versions_in (sy_redis s) u)) now = None →
    step s (with_flight s i (Some {| fl_proc := p; fl_user := u; fl_cx := cx;
      fl_versions := versions_in (sy_redis s) u; fl_membership := None |}))
(* the membership queries *)
| st_membership s i f :
    sy_flights s !! i = Some f → fl_membership f = None →
    step s (with_flight s i (Some (set_membership f
      (readMembership (sy_db s) (fl_user f) (fl_cx f)))))
(* no role: return null, cache nothing *)
| st_no_role s i f :
    sy_flights s !! i = Some f → fl_membership f = Some None → step s (with_flight s i None)
(* the role-permission query, and the store *)
| st_store s i f mb now :
    sy_flights s !! i = Some f → fl_membership f = Some (Some mb) →
    step s (with_flight (with_cache s (fl_proc f)
      (<[cacheKey (fl_user f) (fl_cx f) :=
         {| ce_userPerms := assemble (fl_cx f) mb (readRolePermissions (sy_db s) (mb_roleId mb));
            ce_expiresAt := now + CACHE_TTL; ce_versions := Some (fl_versions f) |}]>
       (cache_of s (fl_proc f)))) i None)
(* a database change; the users it affects become dirty *)
| st_change s db' dirty' :
    sy_dirty s ⊆ dirty' →
    (∀ u cx, loadUserPermissions (sy_db s) u cx ≠ loadUserPermissions db' u cx → u ∈ dirty') →
    step s {| sy_db := db'; sy_redis := sy_redis s; sy_caches := sy_caches s;
              sy_flights := sy_flights s; sy_dirty := dirty' |}
(* clearPermissionCache: the local deletion, then the shared bump *)
| st_clear s p u : step s (with_cache s p (clear_local (cache_of s p) u))
| st_bump s u m' :
    bumpSharedPermissionCacheVersion (Some (sy_redis s)) u = Some m' →
    step s {| sy_db := sy_db s; sy_redis := m'; sy_caches := sy_caches s;
              sy_flights := sy_flights s;
              sy_dirty := if truthy u then sy_dirty s ∖ {[or_empty u]} else ∅ |}.

Definition initial (db : PermDb) : Sys :=
  {| sy_db := db; sy_redis := ∅; sy_caches := ∅; sy_flights := ∅; sy_dirty := ∅ |}.
Definition reachable (s : Sys) : Prop := ∃ db, rtc step (initial db) s.

(** ** Keys and contexts *)

Lemma cacheKey_inj u cx u' cx' :
  wf_ids u cx → wf_ids u' cx' → cacheKey u cx = cacheKey u' cx' →
  u = u' ∧ or_empty (cx_partnerId cx) = or_empty (cx_partnerId cx') ∧
  or_empty (cx_orgId cx) = or_empty (cx_orgId cx').
Proof.
  intros (Hu & Hp & Ho) (Hu' & Hp' & Ho') H. unfold cacheKey in H.
  apply (f_equal chars) in H. rewrite !chars_app in H. simpl in H. unfold has_no in *.
  apply app_sep_inj_l in H as [H1 H2]; [|done..].
  apply app_sep_inj_l in H2 as [H2 H3]; [|done..].
  split_and!; by apply chars_inj.
Qed.

Lemma non_empty_or_empty s s' : or_empty s = or_empty s' → non_empty s = non_empty s'.
Proof. by destruct s as [[]|], s' as [[]|]; simpl; intros; simplify_eq. Qed.

(** The load depends only on the normalised context. *)
Lemma load_context db u cx cx' :
  or_empty (cx_partnerId cx) = or_empty (cx_partnerId cx') →
  or_empty (cx_orgId cx) = or_empty (cx_orgId cx') →
  loadUserPermissions db u cx = loadUserPermissions db u cx'.
Proof.
  intros Hp%non_empty_or_empty Ho%non_empty_or_empty.
  unfold loadUserPermissions, readMembership, assemble. by rewrite Hp, Ho.
Qed.

(** The membership is recoverable from the loaded permissions. *)
Lemma load_membership db db' u cx :
  loadUserPermissions db u cx = loadUserPermissions db' u cx →
  readMembership db u cx = readMembership db' u cx.
Proof.
  unfold loadUserPermissions.
  destruct (readMembership db u cx) as [[]|], (readMembership db' u cx) as [[]|];
    simpl; intros H; simplify_eq; done.
Qed.

(** ** The coherence invariant *)

Definition ver_le (a b : Versions) : Prop :=
  globalVersion a <= globalVersion b ∧ userVersion a <= userVersion b.

(** Data read for [u] under versions [v]: either an invalidation has passed since, or
    one is due, or the data ([ok]) is what the database says now. *)
Definition coherent (s : Sys) (u : string) (v : Versions) (ok : Prop) : Prop :=
  ver_le v (versions_in (sy_redis s) u) ∧
  (v ≠ versions_in (sy_redis s) u ∨ u ∈ sy_dirty s ∨ ok).

Definition entry_ok (s : Sys) (key : string) (e : CacheEntry) : Prop :=
  ∃ u cx v, wf_ids u cx ∧ key = cacheKey u cx ∧ ce_versions e = Some v ∧
    coherent s u v (loadUserPermissions (sy_db s) u cx = Some (ce_userPerms e)).

Definition flight_ok (s : Sys) (f : Flight) : Prop :=
  wf_ids (fl_user f) (fl_cx f) ∧
  coherent s (fl_user f) (fl_versions f)
    (match fl_membership f with
     | None => True
     | Some mb => mb = readMembership (sy_db s) (fl_user f) (fl_cx f)
     end).

Definition Inv (s : Sys) : Prop :=
  (∀ p key e, cache_of s p !! key = Some e → entry_ok s key e) ∧
  (∀ i f, sy_flights s !! i = Some f → flight_ok s f).

Lemma coherent_mono s s' u v (ok ok' : Prop) :
  ver_le (versions_in (sy_redis s) u) (versions_in (sy_redis s') u) →
  (v = versions_in (sy_redis s') u → v = versions_in (sy_redis s) u) →
  (v = versions_in (sy_redis s') u → u ∈ sy_dirty s → u ∈ sy_dirty s') →
  (ok → u ∈ sy_dirty s' ∨ ok') →
  coherent s u v ok → coherent s' u v ok'.
Proof.
  intros [Hg Hu] Heq Hd Hok [[Hg0 Hu0] Hc]. split; [unfold ver_le in *; lia|].
  destruct (decide (v = versions_in (sy_redis s') u)); [|by left]. right. naive_solver.
Qed.

(** Steps that leave the database, the counters and the dirty set alone. *)
Lemma coherent_same s s' u v ok :
  sy_redis s' = sy_redis s → sy_dirty s' = sy_dirty s → coherent s u v ok → coherent s' u v ok.
Proof. unfold coherent. by intros -> ->. Qed.

Lemma entry_same s s' key e :
  sy_redis s' = sy_redis s → sy_dirty s' = sy_dirty s → sy_db s' = sy_db s →
  entry_ok s key e → entry_ok s' key e.
Proof.
  intros Hr Hd Hdb (u & cx & v & Hw & Hk & Hv & H). exists u, cx, v.
  rewrite Hdb. eauto using coherent_same.
Qed.

Lemma flight_same s s' f :
  sy_redis s' = sy_redis s → sy_dirty s' = sy_dirty s → sy_db s' = sy_db s →
  flight_ok s f → flight_ok s' f.
Proof. intros Hr Hd Hdb [Hw H]. split; [done|]. rewrite Hdb. eauto using coherent_same. Qed.

(** A bump makes every data of the bumped users stale. *)
Lemma bump_versions m u m' :
  bumpSharedPermissionCacheVersion (Some m) u = Some m' →
  ∀ w, ver_le (versions_in m w) (versions_in m' w) ∧
       (versions_in m w = versions_in m' w → truthy u = true ∧ w ≠ or_empty u).
Proof.
  unfold bumpSharedPermissionCacheVersion, incr. simpl. intros [= <-] w.
  unfold ver_le, versions_in; simpl.
  assert (∀ x, GLOBAL_VERSION_KEY ≠ userPermissionVersionKey x) as Hne by done.
  destruct (truthy u).
  - rewrite lookup_insert_ne by done.
    destruct (decide (w = or_empty u)) as [->|Hw].
    + rewrite lookup_insert_eq. simpl. split; [lia|]. intros [= H]. lia.
    + rewrite lookup_insert_ne; [split; [lia | done]|].
      intros H. apply Hw. unfold userPermissionVersionKey in H. by apply (inj _) in H.
  - rewrite lookup_insert_eq, lookup_insert_ne by done. simpl. split; [lia|].
    intros [= H]. lia.
Qed.

(** ** Preservation *)

Lemma cache_of_with_cache s p c q :
  cache_of (with_cache s p c) q = if decide (p = q) then c else cache_of s q.
Proof.
  unfold cache_of, with_cache; simpl. rewrite lookup_insert. by case_decide.
Qed.

Lemma flights_with_flight s i f j g :
  sy_flights (with_flight s i f) !! j = Some g →
  (j = i ∧ f = Some g) ∨ sy_flights s !! j = Some g.
Proof.
  unfold with_flight; simpl. destruct (decide (i = j)) as [->|];
    [rewrite lookup_partial_alter_eq | rewrite lookup_partial_alter_ne by done]; auto.
Qed.

(** Replacing one flight keeps the invariant when the new flight is right. *)
Lemma Inv_with_flight s i f :
  Inv s → (∀ g, f = Some g → flight_ok s g) → Inv (with_flight s i f).
Proof.
  intros [Hc Hf] Hok. split.
  - intros p key e He. eapply entry_same; [done..|]. eapply Hc, He.
  - intros j g [[_ Hg]|Hg]%flights_with_flight; eapply flight_same; try done; eauto.
Qed.

(** Replacing one cache keeps it when every new entry is right. *)
Lemma Inv_with_cache s p c :
  Inv s → (∀ key e, c !! key = Some e → entry_ok s key e) → Inv (with_cache s p c).
Proof.
  intros [Hc Hf] Hok. split.
  - intros q key e. rewrite cache_of_with_cache. intros He. eapply entry_same; [done..|].
    case_decide; eauto.
  - intros j g Hg. eapply flight_same; [done..|]. eauto.
Qed.

Lemma ver_le_refl v : ver_le v v.
Proof. split; lia. Qed.

Lemma clear_local_sub cache u key e :
  clear_local cache u !! key = Some e → cache !! key = Some e.
Proof.
  unfold clear_local. destruct (truthy u); [|by rewrite lookup_empty].
  rewrite map_lookup_filter_Some. tauto.
Qed.

Lemma Inv_change s db' dirty' :
  Inv s → sy_dirty s ⊆ dirty' →
  (∀ u cx, loadUserPermissions (sy_db s) u cx ≠ loadUserPermissions db' u cx → u ∈ dirty') →
  Inv {| sy_db := db'; sy_redis := sy_redis s; sy_caches := sy_caches s;
         sy_flights := sy_flights s; sy_dirty := dirty' |}.
Proof.
  intros [Hc Hf] Hsub Haff. split.
  - intros p key e He. destruct (Hc p key e He) as (u & cx & v & Hw & Hk & Hv & Hco).
    exists u, cx, v. split_and!; [done..|].
    eapply coherent_mono, Hco; simpl; [apply ver_le_refl | done | set_solver |].
    intros Hl. destruct (decide (loadUserPermissions (sy_db s) u cx =
      loadUserPermissions db' u cx)) as [E|E]; [right; congruence | left; eauto].
  - intros i f Hi. destruct (Hf i f Hi) as [Hw Hco]. split; [done|].
    eapply coherent_mono, Hco; simpl; [apply ver_le_refl | done | set_solver |].
    destruct (fl_membership f) as [mb|]; [|auto]. intros ->.
    destruct (decide (loadUserPermissions (sy_db s) (fl_user f) (fl_cx f) =
      loadUserPermissions db' (fl_user f) (fl_cx f))) as [E|E]; [|left; eauto].
    right. by apply load_membership.
Qed.

Lemma Inv_bump s u m' :
  Inv s → bumpSharedPermissionCacheVersion (Some (sy_redis s)) u = Some m' →
  Inv {| sy_db := sy_db s; sy_redis := m'; sy_caches := sy_caches s;
         sy_flights := sy_flights s;
         sy_dirty := if truthy u then sy_dirty s ∖ {[or_empty u]} else ∅ |}.
Proof.
  intros [Hc Hf] Hb. pose proof (bump_versions _ _ _ Hb) as Hver.
  assert (∀ w v (ok : Prop), coherent s w v ok → coherent
    {| sy_db := sy_db s; sy_redis := m'; sy_caches := sy_caches s; sy_flights := sy_flights s;
       sy_dirty := if truthy u then sy_dirty s ∖ {[or_empty u]} else ∅ |} w v ok) as Hmono.
  { intros w v ok Hco. destruct (Hver w) as [Hle Heq].
    assert (v = versions_in m' w → v = versions_in (sy_redis s) w) as Hback.
    { intros ->. destruct Hco as [[? ?] _], Hle as [? ?].
      destruct (versions_in m' w), (versions_in (sy_redis s) w); simpl in *. f_equal; lia. }
    eapply coherent_mono, Hco; simpl; [done | done | | auto].
    intros E Hd. pose proof (Hback E). destruct Heq as [-> Hne]; [congruence|]. set_solver. }
  split.
  - intros p key e He. destruct (Hc p key e He) as (w & cx & v & ? & ? & ? & Hco).
    exists w, cx, v. split_and!; [done..|]. by apply Hmono.
  - intros i f Hi. destruct (Hf i f Hi) as [? Hco]. split; [done|]. by apply Hmono.
Qed.

Lemma Inv_store s i f mb now :
  Inv s → sy_flights s !! i = Some f → fl_membership f = Some (Some mb) →
  Inv (with_cache s (fl_proc f)
    (<[cacheKey (fl_user f) (fl_cx f) :=
       {| ce_userPerms := assemble (fl_cx f) mb (readRolePermissions (sy_db s) (mb_roleId mb));
          ce_expiresAt := now + CACHE_TTL; ce_versions := Some (fl_versions f) |}]>
     (cache_of s (fl_proc f)))).
Proof.
  intros HI Hi Hmb. apply Inv_with_cache; [done|]. intros key e.
  rewrite lookup_insert. case_decide as Hk; [|by apply HI]. intros [= <-].
  destruct (proj2 HI i f Hi) as [Hw Hco]. rewrite Hmb in Hco.
  exists (fl_user f), (fl_cx f), (fl_versions f). split_and!; [done..|]. simpl.
  eapply coherent_mono, Hco; [apply ver_le_refl | done | done |]. intros E. right.
  unfold loadUserPermissions. by rewrite <- E.
Qed.

Lemma Inv_step s s' : Inv s → step s s' → Inv s'.
Proof.
  intros HI Hst. destruct Hst as [s i p u cx now Hw Hn Hmiss|s i f Hi Hm|s i f Hi Hm
    |s i f mb now Hi Hm|s db' dirty' Hsub Haff|s p u|s u m' Hb].
  - apply Inv_with_flight; [done|]. intros g [= <-]. split; [done|].
    split; [apply ver_le_refl|]. simpl. auto.
  - apply Inv_with_flight; [done|]. intros g [= <-]. destruct (proj2 HI i f Hi) as [Hw Hco].
    split; [done|]. eapply coherent_mono, Hco; [apply ver_le_refl | done | done |]. simpl. auto.
  - apply Inv_with_flight; [done|]. done.
  - apply Inv_with_flight; [by eapply Inv_store|]. done.
  - by apply Inv_change.
  - apply Inv_with_cache; [done|]. intros key e He%clear_local_sub. by eapply HI.
  - by apply Inv_bump.
Qed.

Lemma Inv_reachable s : reachable s → Inv s.
Proof.
  intros [db Hs]. cut (Inv (initial db)).
  { revert Hs. generalize (initial db). intros s0 Hs.
    induction Hs as [|x y z Hxy Hyz IH]; [done|]. intros Hx. apply IH. by eapply Inv_step. }
  split; [intros p key e | intros i f Hf].
  - unfold cache_of, initial; simpl. rewrite !lookup_empty. simpl. by rewrite lookup_empty.
  - simpl in Hf. by rewrite lookup_empty in Hf.
Qed.

Lemma cacheVersionsMatch_eq v cur :
  cacheVersionsMatch (Some v) (Some cur) = true → v = cur.
Proof. destruct v, cur. simpl. intros. bool_prop. by simplify_eq. Qed.

(** ** Properties *)

(** Cross-process coherence of the permission cache: in every state that any
    interleaving of requests, database changes and invalidations can reach, a cache
    hit in any process, under the current counters, returns exactly what a fresh
    load would return, for every user whose last permission change has been followed
    by its invalidation.  It rests on reading the counters before the tables. *)
Theorem cacheHit_fresh s p u cx now up :
  reachable s → wf_ids u cx → u ∉ sy_dirty s →
  cacheHit (cache_of s p) (cacheKey u cx)
    (getPermissionCacheVersions (Some (sy_redis s)) u) now = Some up →
  loadUserPermissions (sy_db s) u cx = Some up.
Proof.
  intros Hr Hw Hd Hit. apply Inv_reachable in Hr as [Hc _]. unfold cacheHit in Hit.
  destruct (cache_of s p !! cacheKey u cx) as [e|] eqn:He; [|done].
  destruct (_ && _) eqn:Hcond; [|done]. injection Hit as <-. bool_prop.
  destruct (Hc p _ e He) as (u' & cx' & v & Hw' & Hk & Hv & [_ Hco]).
  destruct (cacheKey_inj _ _ _ _ Hw Hw' Hk) as (<- & Hp & Ho).
  rewrite (load_context _ _ _ _ Hp Ho). rewrite Hv in *.
  match goal with H : cacheVersionsMatch _ _ = true |- _ => apply cacheVersionsMatch_eq in H end.
  naive_solver.
Qed.

Definition sample_cx : Context_ := {| cx_partnerId := Some "p"; cx_orgId := None |}%string.
Definition sample_flight (mb : option (option Membership)) : Flight :=
  {| fl_proc := 0; fl_user := "u"; fl_cx := sample_cx; fl_versions := versions_in ∅ "u";
     fl_membership := mb |}%nat.
Definition sample_mb : Membership :=
  {| mb_roleId := "role"; mb_scope := PartnerScope; mb_orgAccess := Some AccessSelected;
     mb_allowedOrgIds := Some ["o1"]; mb_allowedSiteIds := None |}%string.
Definition sample_s1 : Sys := with_flight (initial sample_perm_db) 7 (Some (sample_flight None)).
Definition sample_s2 : Sys :=
  with_flight sample_s1 7 (Some (sample_flight (Some (Some sample_mb)))).
Definition sample_up : UserPermissions :=
  assemble sample_cx sample_mb [("devices", "read")]%string.
Definition sample_s3 : Sys :=
  with_flight (with_cache sample_s2 0 {[ cacheKey "u" sample_cx :=
    {| ce_userPerms := sample_up; ce_expiresAt := 0 + CACHE_TTL;
       ce_versions := Some (versions_in ∅ "u") |} ]}) 7 None.

Lemma cacheHit_fresh_witness : loadUserPermissions (sy_db sample_s3) "u" sample_cx = Some sample_up.
Proof.
  assert (wf_ids "u" sample_cx) as Hw.
  { unfold wf_ids, has_no. split_and!; apply (bool_decide_unpack _); vm_compute; exact I. }
  assert (reachable sample_s3) as Hr.
  { exists sample_perm_db. apply (rtc_l _ _ sample_s1).
    { exact (st_start (initial sample_perm_db) 7 0 "u" sample_cx 0 Hw eq_refl eq_refl). }
    apply (rtc_l _ _ sample_s2).
    { exact (st_membership sample_s1 7 (sample_flight None) eq_refl eq_refl). }
    apply rtc_once.
    exact (st_store sample_s2 7 (sample_flight (Some (Some sample_mb))) sample_mb 0
      eq_refl eq_refl). }
  apply (cacheHit_fresh sample_s3 0 "u" sample_cx 1 sample_up Hr Hw).
  - apply (bool_decide_unpack _). vm_compute. exact I.
  - vm_compute. reflexivity.
Defined.
