(* ===== verification/JsNum.v ===== *)
(** * JavaScript numbers.

    A finite IEEE-754 double is its exact rational value; every arithmetic operation
    is the exact one followed by [rnd], rounding to nearest, ties to even, with a
    53-bit significand.  The exponent range is left out: the model covers results
    between the smallest normal and the largest finite double, which holds amounts,
    quantities and rates by a wide margin.  [None] stands for [NaN].

    [rnd] is executable, so concrete inputs evaluate to what the engine computes;
    its relative error bound [rnd_error] and its exactness on integers up to [2^53]
    ([rnd_int]) carry the proofs about money. *)

From S2P Require Import Prelude.
From Stdlib Require Export QArith Qround Qpower Qabs Lqa.

Open Scope Q_scope.

(** ** Rounding *)

Definition pow2 (k : Z) : Q := Qpower 2 k.

(** [floor (log2 q)] for [q > 0]. *)
Definition ilog2 (q : Q) : Z :=
  let l := (Z.log2 (Qnum q) - Z.log2 (Zpos (Qden q)))%Z in
  if Qle_bool (pow2 l) q then l else (l - 1)%Z.

Definition round_half_even (x : Q) : Z :=
  let f := Qfloor x in
  match Qcompare (x - inject_Z f) (1 # 2) with
  | Lt => f
  | Gt => (f + 1)%Z
  | Eq => if Z.even f then f else (f + 1)%Z
  end.

Definition rnd_pos (q : Q) : Q :=
  let k := (ilog2 q - 52)%Z in
  Qred (inject_Z (round_half_even (q / pow2 k)) * pow2 k).

Definition rnd (q : Q) : Q :=
  match Qcompare q 0 with
  | Eq => 0
  | Gt => rnd_pos q
  | Lt => - rnd_pos (- q)
  end.

(** ** Numbers with NaN *)

Abbreviation num := (option Q).

Definition lift2 (f : Q → Q → Q) (a b : num) : num :=
  match a, b with Some x, Some y => Some (rnd (f x y)) | _, _ => None end.
Definition nadd : num → num → num := lift2 Qplus.
Definition nsub : num → num → num := lift2 Qminus.
Definition nmul : num → num → num := lift2 Qmult.
Definition ndiv : num → num → num := lift2 Qdiv.

(** An integer literal or integer-valued number. *)
Definition nint (z : Z) : num := Some (inject_Z z).

(** [Math.floor] and [Math.round] (to nearest, ties toward positive infinity). *)
Definition Math_floor (a : num) : option Z := Qfloor <$> a.
Definition Math_round (a : num) : option Z := (λ q, Qfloor (q + (1 # 2))) <$> a.

(** An integer result used as a number again. *)
Definition of_int (z : option Z) : num := inject_Z <$> z.

(** ** Text to number

    [Number(s)] on decimal literals: an optional sign, digits, and optionally a point
    and digits; surrounding blanks are ignored and the empty string is 0.  Any other
    text is NaN here; exponent, hexadecimal and [Infinity] literals do not occur in the
    numeric columns and request fields this is applied to. *)

Definition decimal_value (int frac : list ascii) : Q :=
  inject_Z (digits_val (int ++ frac)) / inject_Z (10 ^ Z.of_nat (length frac)).

Definition parse_unsigned (l : list ascii) : option Q :=
  match split_chars "." l with
  | [int] => if all_digits int then Some (decimal_value int []) else None
  | [int; frac] =>
      if forallb is_digit int && forallb is_digit frac && negb (Nat.eqb (length (int ++ frac)) 0)
      then Some (decimal_value int frac) else None
  | _ => None
  end.

Definition parse_decimal (l : list ascii) : option Q :=
  match l with
  | c :: l' => if Ascii.eqb c "-" then Qopp <$> parse_unsigned l'
               else if Ascii.eqb c "+" then parse_unsigned l' else parse_unsigned l
  | [] => Some 0
  end.

Definition Number (s : string) : num := rnd <$> parse_decimal (chars (trim s)).

(** ** Number to text *)

(** [n] in at least [w] digits, zeros in front ([padStart]). *)
Definition pad (w : nat) (l : list ascii) : list ascii := replicate (w - length l) "0"%char ++ l.

Definition fixed_text (f : nat) (n : Z) : list ascii :=
  let p := (10 ^ Z.of_nat f)%Z in
  print_nat (n / p) ++ "."%char :: pad f (print_nat (n mod p)).

(** [x.toFixed(f)] for [f > 0]: the integer nearest to [|x| * 10^f], the larger one on
    a tie, computed exactly; [NaN] prints as ["NaN"]. *)
Definition toFixed (f : nat) (x : num) : string :=
  match x with
  | None => "NaN"
  | Some q =>
      let n := Qfloor (Qabs q * inject_Z (10 ^ Z.of_nat f) + (1 # 2)) in
      of_chars (if Qle_bool 0 q then fixed_text f n else "-"%char :: fixed_text f n)
  end.

(** ** Rounding lemmas *)

Lemma pow2_pos k : 0 < pow2 k.
Proof. apply Qpower_0_lt. lra. Qed.

Lemma pow2_add a b : pow2 (a + b) == pow2 a * pow2 b.
Proof. apply Qpower_plus. lra. Qed.

Lemma pow2_Z k : (0 <= k)%Z → pow2 k == inject_Z (2 ^ k).
Proof. intros Hk. unfold pow2. rewrite Zpower_Qpower by done. reflexivity. Qed.

Lemma pow2_le a b : (a <= b)%Z → pow2 a <= pow2 b.
Proof. intros H. apply Qpower_le_compat_l; [done | lra]. Qed.

(** [n / d] lies between the powers of two of its logarithm estimate. *)
Lemma log2_quotient n d :
  (0 < n)%Z → let l := (Z.log2 n - Z.log2 (Zpos d))%Z in
  pow2 (l - 1) < n # d ∧ n # d < pow2 (l + 1).
Proof.
  intros Hn l. pose proof (Z.log2_spec n Hn) as [Hn1 Hn2].
  pose proof (Z.log2_spec (Zpos d) ltac:(lia)) as [Hd1 Hd2].
  pose proof (Z.log2_nonneg n). pose proof (Z.log2_nonneg (Zpos d)).
  assert (n # d == inject_Z n / inject_Z (Zpos d)) as E.
  { unfold Qeq, Qdiv, Qmult, Qinv, inject_Z; simpl. lia. }
  assert (0 < inject_Z (Zpos d)) as Hd by (unfold Qlt; simpl; lia).
  assert (∀ a b : Z, (a < b)%Z → inject_Z a < inject_Z b) as HZ by (intros; by rewrite <- Zlt_Qlt).
  assert (∀ a b : Z, (a <= b)%Z → inject_Z a <= inject_Z b) as HZl by (intros; by rewrite <- Zle_Qle).
  rewrite E. split.
  - apply Qlt_shift_div_l; [done|].
    apply Qlt_le_trans with (pow2 (l - 1) * inject_Z (2 ^ Z.succ (Z.log2 (Zpos d)))).
    { apply Qmult_lt_l; [apply pow2_pos | by apply HZ]. }
    rewrite <- pow2_Z by lia. rewrite <- pow2_add.
    replace (l - 1 + Z.succ (Z.log2 (Zpos d)))%Z with (Z.log2 n) by (unfold l; lia).
    rewrite pow2_Z by done. by apply HZl.
  - apply Qlt_shift_div_r; [done|].
    apply Qlt_le_trans with (inject_Z (2 ^ Z.succ (Z.log2 n))); [by apply HZ|].
    rewrite <- pow2_Z by lia.
    replace (Z.succ (Z.log2 n)) with (l + 1 + Z.log2 (Zpos d))%Z by (unfold l; lia).
    rewrite pow2_add. apply Qmult_le_l; [apply pow2_pos|].
    rewrite pow2_Z by done. by apply HZl.
Qed.

Lemma ilog2_spec q : 0 < q → pow2 (ilog2 q) <= q ∧ q < pow2 (ilog2 q + 1).
Proof.
  intros Hq. destruct q as [n d]. assert (0 < n)%Z as Hn.
  { unfold Qlt in Hq. simpl in Hq. lia. }
  destruct (log2_quotient n d Hn) as [H1 H2]. unfold ilog2. simpl Qnum. simpl Qden.
  destruct (Qle_bool _ _) eqn:E.
  - apply Qle_bool_iff in E. split; done.
  - split; [by apply Qlt_le_weak|]. replace (_ - 1 + 1)%Z with (Z.log2 n - Z.log2 (Zpos d))%Z by lia.
    apply Qnot_le_lt. intros Hle. apply Qle_bool_iff in Hle. congruence.
Qed.

Lemma Qfloor_bounds x : inject_Z (Qfloor x) <= x ∧ x < inject_Z (Qfloor x) + 1.
Proof.
  split; [apply Qfloor_le|]. pose proof (Qlt_floor x) as H. rewrite inject_Z_plus in H. exact H.
Qed.

Lemma round_half_even_error x : Qabs (inject_Z (round_half_even x) - x) <= 1 # 2.
Proof.
  unfold round_half_even. destruct (Qfloor_bounds x) as [H1 H2].
  apply Qabs_Qle_condition.
  destruct (Qcompare_spec (x - inject_Z (Qfloor x)) (1 # 2)) as [E|E|E];
    [destruct (Z.even (Qfloor x))|..]; rewrite ?inject_Z_plus; change (inject_Z 1) with 1; lra.
Qed.

Lemma round_half_even_int x z : x == inject_Z z → round_half_even x = z.
Proof.
  intros E. unfold round_half_even. rewrite (Qfloor_comp _ _ E), Qfloor_Z.
  destruct (Qcompare_spec (x - inject_Z z) (1 # 2)) as [H|H|H]; [lra | done | lra].
Qed.

(** The unit in the last place of [q] is at most [q * 2^-52]. *)
Lemma rnd_pos_error q : 0 < q → Qabs (rnd_pos q - q) <= q * (1 # 2 ^ 53).
Proof.
  intros Hq. destruct (ilog2_spec q Hq) as [Hlo _]. unfold rnd_pos.
  set (k := (ilog2 q - 52)%Z). rewrite Qred_correct.
  pose proof (pow2_pos k) as Hk.
  assert (Qabs (inject_Z (round_half_even (q / pow2 k)) * pow2 k - q) ==
    Qabs (inject_Z (round_half_even (q / pow2 k)) - q / pow2 k) * pow2 k) as ->.
  { transitivity (Qabs ((inject_Z (round_half_even (q / pow2 k)) - q / pow2 k) * pow2 k)).
    - apply Qabs_wd. field. lra.
    - rewrite Qabs_Qmult, (Qabs_pos (pow2 k)) by lra. reflexivity. }
  pose proof (round_half_even_error (q / pow2 k)) as He.
  assert (pow2 (ilog2 q) == pow2 k * pow2 52) as Hs.
  { rewrite <- pow2_add. unfold k. replace (ilog2 q - 52 + 52)%Z with (ilog2 q) by lia. done. }
  assert (pow2 52 == inject_Z (2 ^ 52)) as E52 by (apply pow2_Z; lia).
  rewrite E52 in Hs. change (inject_Z (2 ^ 52)) with (4503599627370496 # 1) in Hs.
  change (1 # 2 ^ 53) with (1 # 9007199254740992).
  apply Qle_trans with ((1 # 2) * pow2 k); [apply Qmult_le_compat_r; [done | lra]|].
  lra.
Qed.

Lemma rnd_error q : Qabs (rnd q - q) <= Qabs q * (1 # 2 ^ 53).
Proof.
  unfold rnd. destruct (Qcompare_spec q 0) as [E|E|E].
  - rewrite E. done.
  - rewrite (Qabs_neg q) by lra.
    rewrite <- (Qabs_opp (- rnd_pos (- q) - q)).
    assert (- (- rnd_pos (- q) - q) == rnd_pos (- q) - - q) as -> by ring.
    apply rnd_pos_error. lra.
  - rewrite (Qabs_pos q) by lra. by apply rnd_pos_error.
Qed.

Lemma rnd_pos_int q z :
  q == inject_Z z → (0 < z <= 2 ^ 53)%Z → rnd_pos q == inject_Z z.
Proof.
  intros E Hz. assert (0 < q) as Hq.
  { rewrite E. change 0 with (inject_Z 0). rewrite <- Zlt_Qlt. lia. }
  destruct (ilog2_spec q Hq) as [Hlo Hhi]. unfold rnd_pos. rewrite Qred_correct.
  set (k := (ilog2 q - 52)%Z). pose proof (pow2_pos k) as Hk.
  assert (∃ x, q / pow2 k == inject_Z x) as [x Ex].
  { destruct (Z.le_gt_cases k 0) as [Hle|Hgt].
    - exists (z * 2 ^ (- k))%Z. rewrite inject_Z_mult, <- pow2_Z by lia. rewrite E.
      assert (pow2 (- k) * pow2 k == 1) as Hinv by (rewrite <- pow2_add, Z.add_opp_diag_l; done).
      apply (Qmult_inj_r _ _ (pow2 k)); [lra|]. rewrite <- Qmult_assoc, Hinv. field. lra.
    - (* only [2^53] itself is that large *)
      assert (inject_Z (2 ^ 53) <= q) as Hbig.
      { rewrite <- pow2_Z by lia. eapply Qle_trans, Hlo. apply pow2_le. unfold k in *. lia. }
      rewrite E, <- Zle_Qle in Hbig. assert (z = 2 ^ 53)%Z as -> by lia.
      assert (ilog2 q = 53)%Z as Hl.
      { assert (ilog2 q < 54)%Z; [|unfold k in *; lia].
        apply (Qpower_lt_compat_l_inv 2); [|lra].
        change (pow2 (ilog2 q) < pow2 54). eapply Qle_lt_trans; [exact Hlo|].
        rewrite E, pow2_Z by lia. rewrite <- Zlt_Qlt. lia. }
      exists (2 ^ 52)%Z. unfold k. rewrite Hl, E.
      change (pow2 (53 - 52)) with (2 # 1). reflexivity. }
  rewrite (round_half_even_int _ _ Ex), <- Ex. rewrite <- E. field. lra.
Qed.

Lemma rnd_int q z : q == inject_Z z → (Z.abs z <= 2 ^ 53)%Z → rnd q == inject_Z z.
Proof.
  intros E Hz. unfold rnd. destruct (Qcompare_spec q 0) as [H|H|H].
  - rewrite <- E. by symmetry.
  - assert (z < 0)%Z. { rewrite E in H. change 0 with (inject_Z 0) in H. by rewrite <- Zlt_Qlt in H. }
    rewrite (rnd_pos_int (- q) (- z)); [rewrite inject_Z_opp; ring | | lia].
    rewrite E. by rewrite inject_Z_opp.
  - assert (0 < z)%Z. { rewrite E in H. change 0 with (inject_Z 0) in H. by rewrite <- Zlt_Qlt in H. }
    apply rnd_pos_int; [done | lia].
Qed.

(** The error bound as a pair of linear inequalities. *)
Lemma rnd_within q B :
  Qabs q <= B → q - B * (1 # 9007199254740992) <= rnd q ∧ rnd q <= q + B * (1 # 9007199254740992).
Proof.
  intros HB. pose proof (rnd_error q) as He. apply Qabs_Qle_condition in He as [H1 H2].
  change (1 # 2 ^ 53) with (1 # 9007199254740992) in *. lra.
Qed.

Lemma rnd_nonneg q : 0 <= q → 0 <= rnd q.
Proof.
  intros Hq. pose proof (rnd_error q) as He. rewrite (Qabs_pos q) in He by done.
  apply Qabs_Qle_condition in He as [H1 H2]. change (1 # 2 ^ 53) with (1 # 9007199254740992) in *. lra.
Qed.

Lemma rnd_neg q : q < 0 → rnd q < 0.
Proof.
  intros Hq. pose proof (rnd_error q) as He. rewrite (Qabs_neg q) in He by lra.
  apply Qabs_Qle_condition in He as [H1 H2]. change (1 # 2 ^ 53) with (1 # 9007199254740992) in *. lra.
Qed.

Lemma Qfloor_unique x z : inject_Z z <= x → x < inject_Z z + 1 → Qfloor x = z.
Proof.
  intros H1 H2. destruct (Qfloor_bounds x) as [H3 H4].
  assert (inject_Z z < inject_Z (Qfloor x) + 1) as Ha by lra.
  assert (inject_Z (Qfloor x) < inject_Z z + 1) as Hb by lra.
  change 1 with (inject_Z 1) in Ha, Hb. rewrite <- inject_Z_plus, <- Zlt_Qlt in Ha, Hb. lia.
Qed.

(** Anything closer than a half to an integer rounds to it. *)
Lemma Qfloor_near x z : Qabs (x - inject_Z z) < 1 # 2 → Qfloor (x + (1 # 2)) = z.
Proof. intros [H1 H2]%Qabs_Qlt_condition. apply Qfloor_unique; lra. Qed.

(** ** Decimal text lemmas *)

Lemma digits_val_app l1 l2 :
  digits_val (l1 ++ l2) = (digits_val l1 * 10 ^ Z.of_nat (length l2) + digits_val l2)%Z.
Proof. unfold digits_val at 1. rewrite fold_left_app. apply digits_val_fold. Qed.

Lemma digits_val_zeros n : digits_val (replicate n "0"%char) = 0%Z.
Proof.
  induction n as [|n IH]; [done|]. simpl. rewrite digits_val_cons, IH. done.
Qed.

Lemma pad_val w l : digits_val (pad w l) = digits_val l.
Proof. unfold pad. rewrite digits_val_app, digits_val_zeros. lia. Qed.

Lemma pad_digits w l : forallb is_digit l = true → forallb is_digit (pad w l) = true.
Proof.
  intros Hl. unfold pad. rewrite forallb_app, Hl, andb_true_r.
  induction (w - length l)%nat as [|n IH]; [done|]. simpl. by rewrite IH.
Qed.

Lemma pad_length w l : (length l ≤ w)%nat → length (pad w l) = w.
Proof. intros. unfold pad. rewrite length_app, length_replicate. lia. Qed.

Lemma print_digits_length_le fuel n acc k :
  (0 <= n < 10 ^ Z.of_nat k)%Z → k ≠ O →
  (length (print_digits fuel n acc) ≤ k + length acc)%nat.
Proof.
  revert n acc k. induction fuel as [|fuel IH]; intros n acc k Hn Hk; simpl; [lia|].
  destruct (Z.eqb_spec (n / 10) 0) as [E|E]; simpl; [lia|].
  destruct k as [|k]; [done|].
  rewrite Nat2Z.inj_succ, Z.pow_succ_r in Hn by lia.
  assert (0 <= n / 10 < 10 ^ Z.of_nat k)%Z as Hq.
  { split; [apply Z.div_pos; lia|]. apply Z.div_lt_upper_bound; lia. }
  assert (k ≠ O) by (intros ->; simpl in Hq; lia).
  specialize (IH (n / 10)%Z (digit_char (n mod 10) :: acc) k Hq ltac:(done)). simpl in IH. lia.
Qed.

Lemma print_nat_length_le n k :
  (0 <= n < 10 ^ Z.of_nat k)%Z → k ≠ O → (length (print_nat n) ≤ k)%nat.
Proof.
  intros Hn Hk. unfold print_nat.
  pose proof (print_digits_length_le (S (Z.to_nat (Z.log2 n))) n [] k Hn Hk). simpl in *. lia.
Qed.

Lemma split_chars_none sep l : sep ∉ l → split_chars sep l = [l].
Proof.
  induction l as [|c l IH]; intros Hl; simpl; [done|].
  destruct (Ascii.eqb_spec c sep); [set_solver|]. rewrite IH by set_solver. done.
Qed.

Lemma split_chars_app sep l1 l2 :
  sep ∉ l1 → split_chars sep (l1 ++ sep :: l2) = l1 :: split_chars sep l2.
Proof.
  induction l1 as [|c l1 IH]; intros Hl; simpl.
  - by rewrite Ascii.eqb_refl.
  - destruct (Ascii.eqb_spec c sep); [set_solver|]. rewrite IH by set_solver. done.
Qed.

Lemma digits_not_in l (c : ascii) : forallb is_digit l = true → is_digit c = false → c ∉ l.
Proof.
  induction l as [|x l IH]; simpl; [set_solver|]. intros [Hx Hl]%andb_true_iff Hc.
  apply not_elem_of_cons. split; [congruence | auto].
Qed.

Lemma print_nat_digits n : (0 <= n)%Z → forallb is_digit (print_nat n) = true.
Proof. intros Hn. pose proof (print_nat_all_digits n Hn) as H. by apply andb_true_iff in H as [_ ?]. Qed.

Lemma print_nat_nonempty n : (0 <= n)%Z → ∃ c l, print_nat n = c :: l ∧ is_digit c = true.
Proof.
  intros Hn. pose proof (print_nat_all_digits n Hn) as H. unfold all_digits in H.
  destruct (print_nat n) as [|c l]; [done|]. simpl in H. apply andb_true_iff in H as [Hc _]. eauto.
Qed.

(** The text of [n / 10^f] reads back as that value. *)
Lemma parse_fixed_text f n :
  (0 <= n)%Z → f ≠ O →
  ∃ q, parse_unsigned (fixed_text f n) = Some q ∧ q == inject_Z n / inject_Z (10 ^ Z.of_nat f).
Proof.
  intros Hn Hf. unfold parse_unsigned, fixed_text.
  set (p := (10 ^ Z.of_nat f)%Z). assert (0 < p)%Z as Hp by (apply Z.pow_pos_nonneg; lia).
  pose proof (Z.mod_pos_bound n p Hp) as Hm. pose proof (Z.div_pos n p Hn Hp) as Hd.
  pose proof (print_nat_digits (n / p) Hd) as D1.
  pose proof (pad_digits f _ (print_nat_digits (n mod p) ltac:(lia))) as D2.
  rewrite split_chars_app by (by apply digits_not_in).
  rewrite split_chars_none by (by apply digits_not_in).
  rewrite D1, D2. destruct (print_nat_nonempty (n / p) Hd) as (c & l & El & _).
  assert (negb (Nat.eqb (length (print_nat (n / p) ++ pad f (print_nat (n mod p)))) 0) = true)
    as -> by (by rewrite El).
  simpl. eexists. split; [done|]. unfold decimal_value.
  assert (length (pad f (print_nat (n mod p))) = f) as Hlen
    by (apply pad_length, print_nat_length_le; [exact Hm | done]).
  rewrite digits_val_app, pad_val, Hlen, !print_nat_val by lia. fold p.
  rewrite Z.mul_comm, <- Z.div_mod by lia. done.
Qed.

(** Text without blanks is not changed by [trim]. *)
Lemma drop_spaces_id l : forallb (λ c, negb (is_space c)) l = true → drop_spaces l = l.
Proof. destruct l as [|c l]; simpl; [done|]. intros [Hc _]%andb_true_iff. bool_prop. by rewrite Hc. Qed.

Lemma trim_id l : forallb (λ c, negb (is_space c)) l = true → trim (of_chars l) = of_chars l.
Proof.
  intros Hl. unfold trim. rewrite String.list_ascii_of_string_of_list_ascii.
  rewrite (drop_spaces_id l) by done.
  rewrite drop_spaces_id; [by rewrite reverse_involutive|].
  rewrite forallb_forall in *. intros x Hx. apply Hl.
  apply list_elem_of_In in Hx. apply list_elem_of_In. by rewrite elem_of_reverse in Hx.
Qed.

Lemma digit_not_space c : is_digit c = true → is_space c = false.
Proof.
  unfold is_digit, is_space. generalize (nat_of_ascii c) as n. intros n.
  destruct (Nat.leb_spec 48 n), (Nat.leb_spec n 13), (Nat.eqb_spec n 32); simpl;
    rewrite ?andb_false_r; try done; lia.
Qed.

Lemma digits_no_space l :
  forallb is_digit l = true → forallb (λ c, negb (is_space c)) l = true.
Proof.
  intros H. rewrite forallb_forall in *. intros c Hc. by rewrite digit_not_space by auto.
Qed.

Lemma fixed_text_no_space f n :
  (0 <= n)%Z → forallb (λ c, negb (is_space c)) (fixed_text f n) = true.
Proof.
  intros Hn. unfold fixed_text. assert (0 < 10 ^ Z.of_nat f)%Z as Hp by (apply Z.pow_pos_nonneg; lia).
  pose proof (Z.mod_pos_bound n _ Hp). pose proof (Z.div_pos n _ Hn Hp).
  rewrite forallb_app. apply andb_true_iff. split; [by apply digits_no_space, print_nat_digits|].
  change (negb (is_space ".") && forallb (λ c, negb (is_space c)) (pad f (print_nat (n mod 10 ^ Z.of_nat f))) = true).
  apply andb_true_iff. split; [done|]. apply digits_no_space, pad_digits, print_nat_digits. lia.
Qed.

Lemma pow10_pos f : 0 < inject_Z (10 ^ Z.of_nat f).
Proof. change 0 with (inject_Z 0). rewrite <- Zlt_Qlt. apply Z.pow_pos_nonneg; lia. Qed.

(** The text of the signed decimal [n / 10^f], and what it reads back as. *)
Definition decimal_text (f : nat) (n : Z) : string :=
  of_chars (if (n <? 0)%Z then "-"%char :: fixed_text f (- n) else fixed_text f n).

Lemma Number_decimal_text f n :
  f ≠ O → ∃ q, Number (decimal_text f n) = Some (rnd q) ∧
               q == inject_Z n / inject_Z (10 ^ Z.of_nat f).
Proof.
  intros Hf. unfold Number, decimal_text. destruct (Z.ltb_spec n 0) as [Hn|Hn].
  - destruct (parse_fixed_text f (- n)) as (q & Hq & E); [lia | done|].
    rewrite trim_id by (simpl; by rewrite fixed_text_no_space by lia).
    rewrite String.list_ascii_of_string_of_list_ascii. simpl. rewrite Hq. simpl.
    eexists. split; [done|]. rewrite E, inject_Z_opp. field.
    pose proof (pow10_pos f). lra.
  - destruct (parse_fixed_text f n) as (q & Hq & E); [lia | done|].
    rewrite trim_id by (by apply fixed_text_no_space).
    rewrite String.list_ascii_of_string_of_list_ascii. unfold parse_decimal.
    destruct (print_nat_nonempty (n / 10 ^ Z.of_nat f)) as (c & l & El & Hc).
    { apply Z.div_pos; [lia|]. apply Z.pow_pos_nonneg; lia. }
    assert (∃ l', fixed_text f n = c :: l') as [l' El'].
    { unfold fixed_text. rewrite El. simpl. eauto. }
    rewrite El' in *. destruct (Ascii.eqb_spec c "-") as [->|]; [done|].
    destruct (Ascii.eqb_spec c "+") as [->|]; [done|]. rewrite Hq. simpl. eauto.
Qed.

(** [toFixed] prints the nearest decimal. *)
Lemma toFixed_near f q n :
  Qabs (q * inject_Z (10 ^ Z.of_nat f) - inject_Z n) < 1 # 2 →
  (0 <= q ↔ (0 <= n)%Z) → toFixed f (Some q) = decimal_text f n.
Proof.
  intros Hnear Hsign. unfold toFixed, decimal_text.
  set (P := inject_Z (10 ^ Z.of_nat f)) in *.
  destruct (Qle_bool 0 q) eqn:E.
  - apply Qle_bool_iff in E. rewrite (Qabs_pos q) by done.
    rewrite (Qfloor_near _ n Hnear). apply Hsign in E.
    destruct (Z.ltb_spec n 0); [lia | done].
  - assert (¬ 0 <= q) as Hq by (intros H; apply Qle_bool_iff in H; congruence).
    rewrite (Qabs_neg q) by lra. rewrite (Qfloor_near (- q * P) (- n)).
    + destruct (Z.ltb_spec n 0); [done | naive_solver lia].
    + rewrite inject_Z_opp, <- Qabs_opp.
      eapply Qle_lt_trans, Hnear. apply Qle_lteq. right. apply Qabs_wd. ring.
Qed.

(** ** Relative error *)

(** The unit roundoff [2^-53]. *)
Definition uround : Q := 1 # 9007199254740992.

(** [x] approximates [y] with relative error at most [e]. *)
Definition rel (x y e : Q) : Prop := Qabs (x - y) <= e * Qabs y.

Lemma rel_rnd q : rel (rnd q) q uround.
Proof. unfold rel. rewrite Qmult_comm. apply rnd_error. Qed.

Lemma rel_trans x y z e1 e2 :
  0 <= e1 → 0 <= e2 → e2 <= 1 → rel x y e1 → rel y z e2 → rel x z (2 * e1 + e2).
Proof.
  unfold rel. intros He1 He2 He2' H1 H2.
  assert (Qabs (x - z) <= Qabs (x - y) + Qabs (y - z)) as Ht.
  { eapply Qle_trans, Qabs_triangle. apply Qle_lteq. right. apply Qabs_wd. ring. }
  assert (Qabs y <= Qabs (y - z) + Qabs z) as Hy.
  { eapply Qle_trans, Qabs_triangle. apply Qle_lteq. right. apply Qabs_wd. ring. }
  pose proof (Qabs_nonneg z).
  assert (e2 * Qabs z <= 1 * Qabs z) by (by apply Qmult_le_compat_r).
  assert (Qabs y * e1 <= (2 * Qabs z) * e1) by (apply Qmult_le_compat_r; [lra | done]).
  lra.
Qed.

Lemma rel_mul x x' y y' e1 e2 :
  0 <= e1 → 0 <= e2 → rel x x' e1 → rel y y' e2 → rel (x * y) (x' * y') (e1 + e2 + e1 * e2).
Proof.
  unfold rel. intros He1 He2 H1 H2.
  assert (Qabs (x * y - x' * y') <=
    Qabs (x - x') * Qabs (y - y') + (Qabs (x - x') * Qabs y' + Qabs x' * Qabs (y - y'))) as Ht.
  { rewrite <- !Qabs_Qmult. eapply Qle_trans; [|apply Qplus_le_r, Qabs_triangle].
    eapply Qle_trans, Qabs_triangle. apply Qle_lteq. right. apply Qabs_wd. ring. }
  rewrite Qabs_Qmult.
  pose proof (Qabs_nonneg x'). pose proof (Qabs_nonneg y').
  pose proof (Qabs_nonneg (x - x')). pose proof (Qabs_nonneg (y - y')).
  assert (Qabs (x - x') * Qabs (y - y') <= (e1 * Qabs x') * (e2 * Qabs y')).
  { by apply Qmult_le_compat_nonneg. }
  assert (Qabs (x - x') * Qabs y' <= (e1 * Qabs x') * Qabs y') by (by apply Qmult_le_compat_r).
  assert (Qabs (y - y') * Qabs x' <= (e2 * Qabs y') * Qabs x') by (by apply Qmult_le_compat_r).
  lra.
Qed.

Lemma rel_wd x x' y y' e : x == x' → y == y' → rel x y e → rel x' y' e.
Proof. unfold rel. intros Hx Hy H. by rewrite <- Hx, <- Hy. Qed.

Lemma rel_weaken x y e e' : e <= e' → rel x y e → rel x y e'.
Proof.
  unfold rel. intros He H. eapply Qle_trans; [exact H|].
  apply Qmult_le_compat_r; [done | apply Qabs_nonneg].
Qed.

(** [Math.floor(n + 0.5)] of an approximation of [v] is within a half of [v], up to
    the error. *)
Lemma floor_half_within n v e :
  rel n v e → 0 <= e → e <= 1 →
  let t := inject_Z (Qfloor (rnd (n + (1 # 2)))) in
  let d := (e + 2 * uround) * Qabs v + uround in
  v - (1 # 2) - d <= t ∧ t <= v + (1 # 2) + d.
Proof.
  intros Hrel He He1 t d. unfold rel in Hrel.
  assert (Qabs (n + (1 # 2)) <= 2 * Qabs v + (1 # 2)) as Hb.
  { assert (Qabs (n + (1 # 2)) <= Qabs (n - v) + (Qabs v + Qabs (1 # 2))) as Ht.
    { eapply Qle_trans; [|apply Qplus_le_r, Qabs_triangle].
      eapply Qle_trans, Qabs_triangle. apply Qle_lteq. right. apply Qabs_wd. ring. }
    change (Qabs (1 # 2)) with (1 # 2) in Ht.
    assert (e * Qabs v <= 1 * Qabs v) by (apply Qmult_le_compat_r; [done | apply Qabs_nonneg]).
    lra. }
  destruct (rnd_within _ _ Hb) as [H1 H2].
  destruct (Qfloor_bounds (rnd (n + (1 # 2)))) as [H3 H4]. fold t in H3, H4.
  apply Qabs_Qle_condition in Hrel as [H5 H6]. pose proof (Qabs_nonneg v).
  unfold d, uround. lra.
Qed.

(** A document number: a prefix, the year and a counter of at least four digits. *)
Lemma print_Z_nonneg z : (0 <= z)%Z → chars (print_Z z) = print_nat z.
Proof.
  intros Hz. unfold print_Z. destruct (Z.ltb_spec z 0); [lia|].
  by rewrite String.list_ascii_of_string_of_list_ascii.
Qed.
Lemma print_nat_no_dash n : (0 <= n)%Z → "-"%char ∉ print_nat n.
Proof. intros Hn. apply digits_not_in; [by apply print_nat_digits | done]. Qed.
Lemma pad_no_dash w n : (0 <= n)%Z → "-"%char ∉ pad w (print_nat n).
Proof. intros Hn. apply digits_not_in; [by apply pad_digits, print_nat_digits | done]. Qed.
Lemma print_Z_inj a b : chars (print_Z a) = chars (print_Z b) → a = b.
Proof.
  unfold print_Z. rewrite !String.list_ascii_of_string_of_list_ascii.
  destruct (Z.ltb_spec a 0), (Z.ltb_spec b 0); intros H'.
  - injection H' as H'. apply (f_equal digits_val) in H'. rewrite !print_nat_val in H' by lia. lia.
  - exfalso. apply (print_nat_no_dash b); [done|]. rewrite <- H'. set_solver.
  - exfalso. apply (print_nat_no_dash a); [done|]. rewrite H'. set_solver.
  - apply (f_equal digits_val) in H'. by rewrite !print_nat_val in H' by lia.
Qed.

Lemma numbered_inj p y c p' y' c' :
  (0 <= y)%Z → (0 <= y')%Z → (0 <= c)%Z → (0 <= c')%Z →
  p +:+ "-" +:+ print_Z y +:+ "-" +:+ of_chars (pad 4 (chars (print_Z c))) =
  p' +:+ "-" +:+ print_Z y' +:+ "-" +:+ of_chars (pad 4 (chars (print_Z c'))) → y = y' ∧ c = c'.
Proof.
  intros Hy Hy' Hc Hc' H.
  apply (f_equal chars) in H. rewrite !chars_app, !String.list_ascii_of_string_of_list_ascii in H.
  rewrite !print_Z_nonneg in H by done. simpl in H.
  assert (∀ a b z : list ascii, a ++ "-"%char :: b ++ "-"%char :: z =
    (a ++ "-"%char :: b) ++ "-"%char :: z) as Hassoc by (intros; by rewrite <- app_assoc).
  rewrite !Hassoc in H. apply app_sep_inj_r in H as [H1 H2]; [|by apply pad_no_dash..].
  apply app_sep_inj_r in H1 as [_ H1]; [|by apply print_nat_no_dash..].
  apply (f_equal digits_val) in H1, H2. rewrite !pad_val, !print_nat_val in H2 by done.
  by rewrite !print_nat_val in H1 by done.
Qed.
