(* ===== verification/Money.v ===== *)
(** * Money ([services/invoiceMath.ts], [quoteMath.ts], [catalogPricing.ts],
    [stripeMoney.ts]).

    Amounts are decimal texts; the code computes cents with JavaScript numbers.  The
    definitions follow it operation by operation on [JsNum]; the theorems give the
    bounds within which the results are the exact ones. *)

From S2P Require Import Prelude JsNum.

Open Scope Q_scope.

(** ** invoiceMath.ts *)

Definition toCents (v : option string) : option Z :=
  match v with
  | None | Some EmptyString => Some 0%Z
  | Some s => Math_round (nmul (Number s) (nint 100))
  end.

Definition fromCents (cents : num) : string := toFixed 2 (ndiv cents (nint 100)).

Definition roundHalfUp (n : num) : option Z := Math_floor (nadd n (Some (1 # 2))).

Definition computeLineTotal (quantity unitPrice : string) : string :=
  let fractionalCents := nmul (nmul (Number quantity) (Number unitPrice)) (nint 100) in
  fromCents (of_int (roundHalfUp fractionalCents)).

Record TotalsLine := { lineTotal : string; taxable : bool; customerVisible : bool }.

Record Totals := { t_subtotal : string; t_taxTotal : string; t_total : string }.

(** The loop of [computeInvoiceTotals]: [(subtotalCents, taxableCents)]. *)
Definition totals_step (acc : num * num) (l : TotalsLine) : num * num :=
  let '(subtotalCents, taxableCents) := acc in
  if negb (customerVisible l) then acc
  else let c := of_int (toCents (Some (lineTotal l))) in
       (nadd subtotalCents c, if taxable l then nadd taxableCents c else taxableCents).

(** The end of [computeInvoiceTotals], shared with no other caller. *)
Definition finish_totals (subtotalCents taxableCents rate : num) : Totals :=
  let taxCents := of_int (roundHalfUp (nmul taxableCents rate)) in
  let totalCents := nadd subtotalCents taxCents in
  {| t_subtotal := fromCents subtotalCents; t_taxTotal := fromCents taxCents;
     t_total := fromCents totalCents |}.

Definition computeInvoiceTotals (lines : list TotalsLine) (taxRate : option string) : Totals :=
  let '(subtotalCents, taxableCents) := fold_left totals_step lines (nint 0, nint 0) in
  let rate := match taxRate with
              | None | Some EmptyString => nint 0
              | Some r => Number r
              end in
  finish_totals subtotalCents taxableCents rate.

Definition resolveEffectiveTaxRate (taxExempt : bool) (orgRate partnerRate : option string)
    : string :=
  if taxExempt then "0.000"
  else toFixed 3 (Number (default "0"%string (or_else orgRate partnerRate))).

(** ** quoteMath.ts *)

Inductive Recurrence := one_time | monthly | annual.
#[export] Instance Recurrence_eq_dec : EqDecision Recurrence.
Proof. solve_decision. Defined.

Record QuoteLineForMath := {
  ql_quantity : string; ql_unitPrice : string; ql_taxable : bool;
  ql_customerVisible : bool; ql_recurrence : Recurrence }.

Record QuoteTotals := {
  q_subtotal : string; q_taxTotal : string; q_total : string; q_oneTimeTotal : string;
  q_monthlyRecurringTotal : string; q_annualRecurringTotal : string;
  q_dueOnAcceptanceTotal : string }.

(** The five accumulators of [computeQuoteTotals]. *)
Record QuoteAcc := {
  qa_oneTime : num; qa_monthly : num; qa_annual : num;
  qa_taxableBasis : num; qa_oneTimeTaxableBasis : num }.

Definition quote_step (a : QuoteAcc) (l : QuoteLineForMath) : QuoteAcc :=
  if negb (ql_customerVisible l) then a
  else
    let lineCents := of_int (toCents (Some (computeLineTotal (ql_quantity l) (ql_unitPrice l)))) in
    let rec_is r := bool_decide (ql_recurrence l = r) in
    {| qa_oneTime := if rec_is monthly then qa_oneTime a else if rec_is annual then qa_oneTime a
                     else nadd (qa_oneTime a) lineCents;
       qa_monthly := if rec_is monthly then nadd (qa_monthly a) lineCents else qa_monthly a;
       qa_annual := if rec_is monthly then qa_annual a
                    else if rec_is annual then nadd (qa_annual a) lineCents else qa_annual a;
       qa_taxableBasis := if ql_taxable l then nadd (qa_taxableBasis a) lineCents
                          else qa_taxableBasis a;
       qa_oneTimeTaxableBasis :=
         if ql_taxable l && rec_is one_time then nadd (qa_oneTimeTaxableBasis a) lineCents
         else qa_oneTimeTaxableBasis a |}.

Definition quote_acc0 : QuoteAcc :=
  {| qa_oneTime := nint 0; qa_monthly := nint 0; qa_annual := nint 0;
     qa_taxableBasis := nint 0; qa_oneTimeTaxableBasis := nint 0 |}.
Definition quote_acc (lines : list QuoteLineForMath) : QuoteAcc :=
  fold_left quote_step lines quote_acc0.

(** [taxRate] is a number or [null]; the outer option is [null]. *)
Definition computeQuoteTotals (lines : list QuoteLineForMath) (taxRate : option num)
    : QuoteTotals :=
  let a := quote_acc lines in
  let subtotal := nadd (nadd (qa_oneTime a) (qa_monthly a)) (qa_annual a) in
  let rate := default (nint 0) taxRate in
  let taxCents := of_int (Math_floor (nadd (nmul (qa_taxableBasis a) rate) (Some (1 # 2)))) in
  let oneTimeTaxCents :=
    of_int (Math_floor (nadd (nmul (qa_oneTimeTaxableBasis a) rate) (Some (1 # 2)))) in
  {| q_subtotal := fromCents subtotal; q_taxTotal := fromCents taxCents;
     q_total := fromCents (nadd subtotal taxCents);
     q_oneTimeTotal := fromCents (qa_oneTime a);
     q_monthlyRecurringTotal := fromCents (qa_monthly a);
     q_annualRecurringTotal := fromCents (qa_annual a);
     q_dueOnAcceptanceTotal := fromCents (nadd (qa_oneTime a) oneTimeTaxCents) |}.

(** ** catalogPricing.ts *)

Definition deriveUnitPrice (explicitPrice : option num) (costBasis markupPercent : option string)
    : string :=
  match explicitPrice with
  | Some p => toFixed 2 p
  | None =>
      match costBasis, markupPercent with
      | Some cost, Some markup =>
          let c := of_int (toCents (Some cost)) in
          fromCents (of_int (Math_round
            (nmul c (nadd (nint 1) (ndiv (Number markup) (nint 100))))))
      | _, _ => "0.00"%string
      end
  end.

Inductive BundleProblem :=
| SELF_REFERENCE | NESTED_BUNDLE | CROSS_PARTNER | COMPONENT_NOT_FOUND | DUPLICATE_COMPONENT.
#[export] Instance BundleProblem_eq_dec : EqDecision BundleProblem.
Proof. solve_decision. Defined.

Record ComponentMeta := { cm_isBundle : bool; cm_partnerId : string }.

(** [Set.add] on a JavaScript set: insertion order, no duplicates. *)
Definition set_add {A} `{EqDecision A} (x : A) (l : list A) : list A :=
  if bool_decide (x ∈ l) then l else l ++ [x].

(** One iteration over [(problems, seen)]. *)
Definition bundle_step (bundleId bundlePartnerId : string) (meta : gmap string ComponentMeta)
    (acc : list BundleProblem * list string) (c : string) : list BundleProblem * list string :=
  let '(problems, seen) := acc in
  let problems := if bool_decide (c ∈ seen) then set_add DUPLICATE_COMPONENT problems else problems in
  let seen := set_add c seen in
  let problems := if bool_decide (c = bundleId) then set_add SELF_REFERENCE problems else problems in
  match meta !! c with
  | None => (set_add COMPONENT_NOT_FOUND problems, seen)
  | Some m =>
      let problems := if cm_isBundle m then set_add NESTED_BUNDLE problems else problems in
      let problems := if bool_decide (cm_partnerId m = bundlePartnerId) then problems
                      else set_add CROSS_PARTNER problems in
      (problems, seen)
  end.

Definition detectBundleProblems (bundleId bundlePartnerId : string) (components : list string)
    (meta : gmap string ComponentMeta) : list BundleProblem :=
  fst (fold_left (bundle_step bundleId bundlePartnerId meta) components ([], [])).

Record CatalogItem := {
  ci_unitPrice : string; ci_costBasis : option string; ci_taxable : bool;
  ci_taxCategory : option string }.
Inductive PriceSource := org_override | item.
Record ResolvedPrice := {
  rp_unitPrice : string; rp_costBasis : option string; rp_taxable : bool;
  rp_taxCategory : option string; rp_source : PriceSource }.

Definition resolvePriceFrom (it : CatalogItem) (override : option string) : ResolvedPrice :=
  {| rp_unitPrice := default (ci_unitPrice it) override; rp_costBasis := ci_costBasis it;
     rp_taxable := ci_taxable it; rp_taxCategory := ci_taxCategory it;
     rp_source := match override with Some _ => org_override | None => item end |}.

Record BundleComponent := {
  bc_quantity : string; bc_costBasis : option string; bc_revenueAllocation : option string }.
Record BundleEconomics := {
  be_headlinePrice : string; be_totalCost : string; be_margin : string; be_marginPct : num;
  be_allocationTotal : string; be_allocationMatchesHeadline : bool }.

(** The loop of [computeBundleEconomicsFrom]: [(costCents, allocCents, anyAllocation)]. *)
Definition economics_step (acc : num * num * bool) (c : BundleComponent) : num * num * bool :=
  let '(costCents, allocCents, anyAllocation) := acc in
  let quantity := if truthy (Some (bc_quantity c)) then bc_quantity c else "0"%string in
  let costCents := nadd costCents (of_int (Math_round
    (nmul (of_int (toCents (bc_costBasis c))) (Number quantity)))) in
  match bc_revenueAllocation c with
  | Some a => (costCents, nadd allocCents (of_int (toCents (Some a))), true)
  | None => (costCents, allocCents, anyAllocation)
  end.

(** [===] on numbers: NaN is equal to nothing. *)
Definition num_eqb (a b : num) : bool :=
  match a, b with Some x, Some y => Qeq_bool x y | _, _ => false end.

Definition computeBundleEconomicsFrom (headlinePrice : string)
    (components : list BundleComponent) : BundleEconomics :=
  let '(costCents, allocCents, anyAllocation) :=
    fold_left economics_step components (nint 0, nint 0, false) in
  let headlineCents := of_int (toCents (Some headlinePrice)) in
  let marginCents := nsub headlineCents costCents in
  {| be_headlinePrice := fromCents headlineCents; be_totalCost := fromCents costCents;
     be_margin := fromCents marginCents;
     be_marginPct :=
       if num_eqb headlineCents (nint 0) then nint 0
       else ndiv (of_int (Math_round (nmul (ndiv marginCents headlineCents) (nint 10000))))
                 (nint 100);
     be_allocationTotal := fromCents allocCents;
     be_allocationMatchesHeadline :=
       if anyAllocation then num_eqb allocCents headlineCents else true |}.

(** ** stripeMoney.ts *)

Definition ZERO_DECIMAL : list string :=
  ["BIF"; "CLP"; "DJF"; "GNF"; "JPY"; "KMF"; "KRW"; "MGA"; "PYG"; "RWF"; "UGX"; "VND"; "VUV";
   "XAF"; "XOF"; "XPF"]%string.

Definition upper_ascii (c : ascii) : ascii :=
  let n := nat_of_ascii c in
  if (97 <=? n)%nat && (n <=? 122)%nat then ascii_of_nat (n - 32) else c.
Definition toUpperCase (s : string) : string := of_chars (upper_ascii <$> chars s).

Definition isZeroDecimal (currency : string) : bool :=
  bool_decide (toUpperCase currency ∈ ZERO_DECIMAL).

Inductive StripeMoneyError := NonFiniteAmount.

Definition toMinorUnits (amountMajor : string) (currency : string)
    : outcome StripeMoneyError (option Z) :=
  match Number amountMajor with
  | None => Throw NonFiniteAmount
  | n => Ok (if isZeroDecimal currency then Math_round n else Math_round (nmul n (nint 100)))
  end.

Definition fromMinorUnits (minor : num) (currency : string) : outcome StripeMoneyError string :=
  match minor with
  | None => Throw NonFiniteAmount
  | n => Ok (if isZeroDecimal currency then toFixed 2 n else toFixed 2 (ndiv n (nint 100)))
  end.

(** ** Reading and writing cents *)

Lemma rel_near x z e :
  rel x (inject_Z z) e → e <= 4 * uround → (Z.abs z <= 2 ^ 49)%Z → Qabs (x - inject_Z z) < 1 # 2.
Proof.
  unfold rel. intros H He Hz. eapply Qle_lt_trans; [exact H|].
  assert (Qabs (inject_Z z) <= inject_Z (2 ^ 49)) as Hb.
  { change (Qabs (inject_Z z)) with (inject_Z (Z.abs z)). by rewrite <- Zle_Qle. }
  change (inject_Z (2 ^ 49)) with (562949953421312 # 1) in Hb.
  pose proof (Qabs_nonneg (inject_Z z)).
  assert (e * Qabs (inject_Z z) <= (4 * uround) * Qabs (inject_Z z)) by (by apply Qmult_le_compat_r).
  unfold uround in *. lra.
Qed.

Lemma rel_refl x : rel x x 0.
Proof.
  unfold rel. assert (x - x == 0) as -> by ring. change (Qabs 0) with 0.
  pose proof (Qabs_nonneg x). lra.
Qed.

Lemma fromCents_int q z :
  q == inject_Z z → (Z.abs z <= 2 ^ 49)%Z → fromCents (Some q) = decimal_text 2 z.
Proof.
  intros Hq Hz. unfold fromCents, ndiv, nint, lift2. apply toFixed_near.
  - apply (rel_near _ _ (uround)); [|unfold uround; lra | done].
    apply (rel_wd (rnd (q / inject_Z 100) * inject_Z 100) _ (q / inject_Z 100 * inject_Z 100) _);
      [done | rewrite Hq; field; discriminate|].
    apply (rel_weaken _ _ (uround + 0 + uround * 0)); [unfold uround; lra|].
    apply rel_mul; [unfold uround; lra | lra | apply rel_rnd | apply rel_refl].
  - split; intros H.
    + destruct (Z.lt_ge_cases z 0) as [Hn|]; [|done]. exfalso.
      assert (rnd (q / inject_Z 100) < 0); [|lra].
      apply rnd_neg. rewrite Hq. rewrite Zlt_Qlt in Hn. change (inject_Z 100) with (100#1).
      unfold Qdiv. change (/ (100 # 1)) with (1 # 100). change (inject_Z 0) with 0 in Hn. lra.
    + apply rnd_nonneg. rewrite Hq. rewrite Zle_Qle in H. unfold Qdiv.
      change (/ inject_Z 100) with (1 # 100). change (inject_Z 0) with 0 in H. lra.
Qed.

Lemma decimal_text_nonempty f z : decimal_text f z ≠ EmptyString.
Proof.
  unfold decimal_text. case_match eqn:E; [done|]. apply Z.ltb_ge in E.
  destruct (print_nat_nonempty (z / 10 ^ Z.of_nat f)) as (c & l & El & _).
  { apply Z.div_pos; [lia|]. apply Z.pow_pos_nonneg; lia. }
  unfold fixed_text. rewrite El. done.
Qed.

(** What a decimal text with [f] digits reads as, up to one rounding. *)
Lemma Number_rel f n :
  f ≠ O → ∃ q, Number (decimal_text f n) = Some q ∧
               rel q (inject_Z n / inject_Z (10 ^ Z.of_nat f)) uround.
Proof.
  intros Hf. destruct (Number_decimal_text f n Hf) as (q & Hq & E).
  exists (rnd q). split; [done|]. eapply rel_wd; [reflexivity | exact E | apply rel_rnd].
Qed.

(** A product of two approximations, rounded once more. *)
Lemma rel_nmul x x' y y' e1 e2 :
  0 <= e1 → 0 <= e2 → e1 <= 8 * uround → e2 <= 8 * uround → rel x x' e1 → rel y y' e2 →
  rel (rnd (x * y)) (x' * y') (e1 + e2 + 3 * uround).
Proof.
  intros. assert (e1 * e2 <= e1 * (8 * uround)) as Hm.
  { rewrite !(Qmult_comm e1). by apply Qmult_le_compat_r. }
  assert (rel (x * y) (x' * y') (e1 + e2 + uround)) as Hp.
  { eapply rel_weaken; [|by apply (rel_mul _ _ _ _ e1 e2)]. unfold uround in *. lra. }
  eapply rel_weaken; [|eapply rel_trans; [..|apply rel_rnd|exact Hp]]; unfold uround in *; lra.
Qed.

Lemma toCents_text z : (Z.abs z <= 2 ^ 49)%Z → toCents (Some (decimal_text 2 z)) = Some z.
Proof.
  intros Hz. destruct (Number_rel 2 z) as (q & Hq & Hr); [done|].
  unfold toCents. destruct (decimal_text 2 z) eqn:E; [by apply decimal_text_nonempty in E|].
  rewrite <- E in *. rewrite Hq. simpl. f_equal. apply Qfloor_near.
  apply (rel_near _ _ (uround + 0 + 3 * uround)); [|unfold uround; lra | done].
  eapply rel_wd; [reflexivity| |eapply rel_nmul; [..|exact Hr|apply (rel_refl (inject_Z 100))]];
    try (unfold uround; lra).
  change (10 ^ Z.of_nat 2)%Z with 100%Z. by field.
Qed.

(** ** Rounding to the nearest cent *)

Lemma roundHalfUp_near n (h N : Z) e :
  rel n (inject_Z N / inject_Z (2 * h)) e → 0 <= e → e <= 1 → (0 < h)%Z →
  (e + 2 * uround) * inject_Z (Z.abs N) + uround * inject_Z (2 * h) < 1 →
  ∃ t, roundHalfUp (Some n) = Some t ∧ (Z.abs (2 * h * t - N) <= h)%Z.
Proof.
  intros Hrel He He1 Hh Hsmall. set (D := inject_Z (2 * h)) in *.
  assert (0 < D) as HD by (unfold D; change 0 with (inject_Z 0); rewrite <- Zlt_Qlt; lia).
  destruct (floor_half_within n _ e Hrel He He1) as [H1 H2].
  set (t := Qfloor (rnd (n + (1 # 2)))) in *. exists t. split; [done|].
  set (v := inject_Z N / D) in *.
  assert (v * D == inject_Z N) as Hv by (unfold v; field; lra).
  assert (Qabs v * D == inject_Z (Z.abs N)) as Ha.
  { rewrite <- (Qabs_pos D) by lra. rewrite <- Qabs_Qmult, Hv. done. }
  set (d := (e + 2 * uround) * Qabs v + uround) in *.
  assert (d * D < 1) as Hd.
  { eapply Qle_lt_trans, Hsmall. rewrite <- Ha. unfold d. lra. }
  assert ((v - (1 # 2) - d) * D <= inject_Z t * D) as H1' by (apply Qmult_le_compat_r; lra).
  assert (inject_Z t * D <= (v + (1 # 2) + d) * D) as H2' by (apply Qmult_le_compat_r; lra).
  assert (inject_Z (2 * h * t - N) == inject_Z t * D - inject_Z N) as Ht.
  { unfold D. unfold Zminus. rewrite inject_Z_plus, inject_Z_opp, !inject_Z_mult. ring. }
  assert (D == 2 * inject_Z h) as HDh by (unfold D; rewrite inject_Z_mult; done).
  assert (inject_Z (2 * h * t - N) < inject_Z (h + 1)) as Hu.
  { rewrite Ht, inject_Z_plus. change (inject_Z 1) with 1. lra. }
  assert (inject_Z (- (h + 1)) < inject_Z (2 * h * t - N)) as Hl.
  { rewrite Ht, inject_Z_opp, inject_Z_plus. change (inject_Z 1) with 1. lra. }
  rewrite <- Zlt_Qlt in Hu, Hl. lia.
Qed.

(** C4 (computeLineTotal, invoiceMath.ts): for a quantity and a unit price with two
    decimals, the line total is a two-decimal amount nearest to the exact product, as
    long as the product stays below [2^49] hundredths of a cent. *)
Theorem computeLineTotal_nearest a b :
  (Z.abs (a * b) <= 2 ^ 49)%Z →
  ∃ t, computeLineTotal (decimal_text 2 a) (decimal_text 2 b) = decimal_text 2 t ∧
       (Z.abs (100 * t - a * b) <= 50)%Z.
Proof.
  intros Hab. unfold computeLineTotal.
  destruct (Number_rel 2 a) as (qa & -> & Ha); [done|].
  destruct (Number_rel 2 b) as (qb & -> & Hb); [done|].
  change (10 ^ Z.of_nat 2)%Z with 100%Z in *. unfold nmul, nint, lift2.
  assert (rel (rnd (rnd (qa * qb) * inject_Z 100)) (inject_Z (a * b) / inject_Z (2 * 50))
            (8 * uround)) as Hr.
  { eapply rel_weaken; [|eapply rel_wd; [reflexivity| |
      eapply rel_nmul; [..|eapply rel_nmul; [..|exact Ha|exact Hb]|apply (rel_refl (inject_Z 100))]]];
      try (unfold uround; lra).
    rewrite inject_Z_mult. change (2 * 50)%Z with 100%Z. by field. }
  destruct (roundHalfUp_near _ _ _ _ Hr) as (t & -> & Ht); [unfold uround; lra.. | lia| |].
  { rewrite Zle_Qle in Hab. change (inject_Z (2 ^ 49)) with (562949953421312 # 1) in Hab.
    change (inject_Z (2 * 50)) with 100. unfold uround. lra. }
  exists t. split; [|lia]. simpl. apply fromCents_int; [done | lia].
Qed.

(** Half a unit and the largest exact product. *)
Lemma computeLineTotal_nearest_witness :
  (Z.abs (250 * 1999) <= 2 ^ 49)%Z ∧
  ∃ t, computeLineTotal (decimal_text 2 250) (decimal_text 2 1999) = decimal_text 2 t ∧
       (Z.abs (100 * t - 250 * 1999) <= 50)%Z.
Proof. split; [done|]. apply (computeLineTotal_nearest 250 1999). done. Defined.

(** A tie that goes down: [0.05 * 0.70] is [0.035], which the comment rounds to [0.04]. *)
Example computeLineTotal_tie_down : computeLineTotal "0.05" "0.70" = "0.03"%string.
Proof. vm_compute. reflexivity. Qed.

(** ** Invoice totals *)

(** Amounts of customer-visible lines, in cents. *)
Record CentLine := { cl_cents : Z; cl_taxable : bool; cl_visible : bool }.

Definition line_of (c : CentLine) : TotalsLine :=
  {| lineTotal := decimal_text 2 (cl_cents c); taxable := cl_taxable c;
     customerVisible := cl_visible c |}.

Fixpoint sum_where (P : CentLine → bool) (ls : list CentLine) : Z :=
  match ls with
  | [] => 0
  | c :: ls => (if P c then cl_cents c else 0) + sum_where P ls
  end.
Definition gross (ls : list CentLine) : Z := foldr (λ c acc, Z.abs (cl_cents c) + acc)%Z 0%Z ls.
Definition visible_cents := sum_where cl_visible.
Definition taxable_cents := sum_where (λ c, cl_visible c && cl_taxable c).

Lemma nadd_int q z w :
  q == inject_Z z → (Z.abs (z + w) <= 2 ^ 53)%Z →
  ∃ q', nadd (Some q) (nint w) = Some q' ∧ q' == inject_Z (z + w).
Proof.
  intros Hq Hb. exists (rnd (q + inject_Z w)). split; [done|].
  apply rnd_int; [|done]. rewrite Hq, inject_Z_plus. reflexivity.
Qed.

Lemma sum_where_bound P ls : (Z.abs (sum_where P ls) <= gross ls)%Z.
Proof. induction ls as [|c ls IH]; simpl; [lia|]. case_match; lia. Qed.

Lemma gross_nonneg ls : (0 <= gross ls)%Z.
Proof. pose proof (sum_where_bound (λ _, true) ls). lia. Qed.

Lemma totals_fold ls qs qt S T :
  qs == inject_Z S → qt == inject_Z T →
  (Z.abs S + gross ls <= 2 ^ 49)%Z → (Z.abs T + gross ls <= 2 ^ 49)%Z →
  ∃ qs' qt', fold_left totals_step (line_of <$> ls) (Some qs, Some qt) = (Some qs', Some qt') ∧
    qs' == inject_Z (S + visible_cents ls) ∧ qt' == inject_Z (T + taxable_cents ls).
Proof.
  unfold visible_cents, taxable_cents.
  revert qs qt S T. induction ls as [|c ls IH]; intros qs qt S T Hs Ht HS HT;
    cbn [fmap list_fmap fold_left totals_step line_of lineTotal taxable customerVisible sum_where].
  { exists qs, qt. by rewrite !Z.add_0_r. }
  simpl in HS, HT. pose proof (gross_nonneg ls).
  destruct (cl_visible c) eqn:Ev; cbn [negb andb].
  2:{ apply IH; [done..|lia|lia]. }
  rewrite toCents_text by lia.
  change (of_int (Some (cl_cents c))) with (nint (cl_cents c)).
  destruct (nadd_int qs S (cl_cents c) Hs) as (qs1 & -> & Hs1); [lia|].
  destruct (nadd_int qt T (cl_cents c) Ht) as (qt1 & Eq & Ht1); [lia|].
  destruct (cl_taxable c) eqn:Et.
  - rewrite Eq. destruct (IH _ _ _ _ Hs1 Ht1) as (a & b & ? & ? & ?); [lia..|].
    exists a, b. by rewrite !Z.add_assoc.
  - destruct (IH _ _ _ _ Hs1 Ht) as (a & b & ? & ? & ?); [lia..|].
    exists a, b. by rewrite !Z.add_assoc, Z.add_0_r.
Qed.

(** The tax on an exact basis at an exact rate of [k] thousandths, to the nearest cent. *)
Lemma tax_near qt T k :
  qt == inject_Z T → (Z.abs T <= 2 ^ 40)%Z → (0 <= k <= 1000)%Z →
  ∃ t, roundHalfUp (nmul (Some qt) (Number (decimal_text 3 k))) = Some t ∧
       (Z.abs (1000 * t - T * k) <= 500)%Z.
Proof.
  intros Hq HT Hk. destruct (Number_rel 3 k) as (r & -> & Hr); [done|].
  change (10 ^ Z.of_nat 3)%Z with 1000%Z in Hr. unfold nmul, lift2.
  assert (rel (rnd (qt * r)) (inject_Z (T * k) / inject_Z (2 * 500)) (4 * uround)) as H.
  { eapply rel_weaken; [|eapply rel_wd; [reflexivity| |
      eapply rel_nmul; [..|apply (rel_refl qt)|exact Hr]]]; try (unfold uround; lra).
    rewrite Hq, inject_Z_mult. change (2 * 500)%Z with 1000%Z. by field. }
  destruct (roundHalfUp_near _ _ _ _ H) as (t & Ht & Hb); [unfold uround; lra.. | lia| |].
  - assert (Z.abs (T * k) <= 1000 * 2 ^ 40)%Z as Hm by nia. rewrite Zle_Qle in Hm.
    change (inject_Z (1000 * 2 ^ 40)) with (1099511627776000 # 1) in Hm.
    change (inject_Z (2 * 500)) with 1000. unfold uround. lra.
  - exists t. split; [done | lia].
Qed.

(** (computeInvoiceTotals, invoiceMath.ts): for lines whose totals are two-decimal
    amounts and a tax rate of [k] thousandths, the subtotal is exactly the sum of the
    customer-visible lines, the tax is the amount nearest to rate times the visible
    taxable lines, rounded once, and the total is exactly subtotal plus tax: no
    rounding error accumulates in the JavaScript numbers. *)
Theorem computeInvoiceTotals_exact ls k :
  (gross ls <= 2 ^ 40)%Z → (0 <= k <= 1000)%Z →
  ∃ t, computeInvoiceTotals (line_of <$> ls) (Some (decimal_text 3 k)) =
       {| t_subtotal := decimal_text 2 (visible_cents ls); t_taxTotal := decimal_text 2 t;
          t_total := decimal_text 2 (visible_cents ls + t) |} ∧
       (Z.abs (1000 * t - taxable_cents ls * k) <= 500)%Z.
Proof.
  intros Hg Hk. unfold computeInvoiceTotals, finish_totals.
  destruct (totals_fold ls (inject_Z 0) (inject_Z 0) 0 0) as (qs & qt & E & Hs & Ht);
    [done | done | lia | lia|].
  unfold nint at 1 2. rewrite E. rewrite !Z.add_0_l in *.
  destruct (decimal_text 3 k) eqn:Ek; [by apply decimal_text_nonempty in Ek|]. rewrite <- Ek.
  pose proof (sum_where_bound (λ c, cl_visible c && cl_taxable c) ls).
  pose proof (sum_where_bound cl_visible ls).
  destruct (tax_near qt (taxable_cents ls) k Ht) as (t & -> & Hb);
    [unfold taxable_cents; lia | done|].
  assert (Z.abs t <= 2 ^ 40 + 1)%Z by (unfold taxable_cents in *; nia).
  exists t. split; [|done]. unfold visible_cents in *. change (of_int (Some t)) with (nint t).
  destruct (nadd_int qs _ t Hs) as (q' & -> & Hq'); [lia|].
  f_equal; apply fromCents_int; done || lia.
Qed.

(** Two visible lines, one taxable, and a hidden one, at 8.25 % stored as [0.083]. *)
Lemma computeInvoiceTotals_exact_witness :
  let ls := [ {| cl_cents := 12345; cl_taxable := true; cl_visible := true |};
              {| cl_cents := 1000; cl_taxable := false; cl_visible := true |};
              {| cl_cents := 777; cl_taxable := true; cl_visible := false |} ] in
  t_total (computeInvoiceTotals (line_of <$> ls) (Some (decimal_text 3 83))) = "143.70"%string ∧
  ∃ t, computeInvoiceTotals (line_of <$> ls) (Some (decimal_text 3 83)) =
       {| t_subtotal := decimal_text 2 (visible_cents ls); t_taxTotal := decimal_text 2 t;
          t_total := decimal_text 2 (visible_cents ls + t) |} ∧
       (Z.abs (1000 * t - taxable_cents ls * 83) <= 500)%Z.
Proof.
  split; [vm_compute; reflexivity|]. apply computeInvoiceTotals_exact; [vm_compute; done | lia].
Defined.

(** ** Quotes against invoices *)

(** The invoice line of a quote line, and the lines a quote invoices on acceptance. *)
Definition quote_invoice_line (l : QuoteLineForMath) : TotalsLine :=
  {| lineTotal := computeLineTotal (ql_quantity l) (ql_unitPrice l); taxable := ql_taxable l;
     customerVisible := ql_customerVisible l |}.
Definition one_time_lines (lines : list QuoteLineForMath) : list QuoteLineForMath :=
  filter (λ l, ql_recurrence l = one_time) lines.

Lemma quote_fold_one_time lines a :
  let a' := fold_left quote_step lines a in
  (qa_oneTime a', qa_oneTimeTaxableBasis a') =
  fold_left totals_step (quote_invoice_line <$> one_time_lines lines)
    (qa_oneTime a, qa_oneTimeTaxableBasis a).
Proof.
  revert a. induction lines as [|l lines IH]; intros a; [done|].
  cbn [fold_left]. rewrite IH. unfold one_time_lines. rewrite filter_cons.
  case_decide as E; cbn [fmap list_fmap fold_left]; f_equal;
    unfold quote_step, totals_step, quote_invoice_line; cbn [customerVisible lineTotal taxable];
    generalize (of_int (toCents (Some (computeLineTotal (ql_quantity l) (ql_unitPrice l)))));
    intros c; destruct (ql_customerVisible l), (ql_taxable l), (ql_recurrence l); done.
Qed.

(** computeQuoteTotals, quoteMath.ts: the amount a quote advertises as due on
    acceptance is the total [computeInvoiceTotals] gives for its one-time lines at the
    same rate, for every quote and rate, rounding and malformed amounts included. *)
Theorem dueOnAcceptance_is_invoiced lines taxRate :
  q_dueOnAcceptanceTotal (computeQuoteTotals lines (Number <$> taxRate)) =
  t_total (computeInvoiceTotals (quote_invoice_line <$> one_time_lines lines) taxRate).
Proof.
  unfold computeInvoiceTotals. pose proof (quote_fold_one_time lines quote_acc0) as H.
  change (fold_left quote_step lines quote_acc0) with (quote_acc lines) in H.
  change (qa_oneTime quote_acc0, qa_oneTimeTaxableBasis quote_acc0) with (nint 0, nint 0) in H.
  cbv zeta in H. rewrite <- H. unfold computeQuoteTotals, finish_totals, roundHalfUp.
  cbn [q_dueOnAcceptanceTotal t_total]. do 6 f_equal. by destruct taxRate as [[|c s]|].
Qed.

(** The first-period subtotal is the sum of its three parts. *)
Example quote_totals_example :
  let l q p t r := {| ql_quantity := q; ql_unitPrice := p; ql_taxable := t;
                      ql_customerVisible := true; ql_recurrence := r |} in
  computeQuoteTotals [l "2" "100.00" true one_time; l "3" "10.00" true monthly;
                      l "1" "500.00" false annual]%string (Some (Number "0.1")) =
  {| q_subtotal := "730.00"; q_taxTotal := "23.00"; q_total := "753.00";
     q_oneTimeTotal := "200.00"; q_monthlyRecurringTotal := "30.00";
     q_annualRecurringTotal := "500.00"; q_dueOnAcceptanceTotal := "220.00" |}%string.
Proof. vm_compute. reflexivity. Qed.

(** ** Bundles *)

Lemma elem_of_set_add {A} `{EqDecision A} (x y : A) l : x ∈ set_add y l ↔ x = y ∨ x ∈ l.
Proof. unfold set_add. case_bool_decide; set_solver. Qed.

(** What makes a component acceptable after the components [seen]. *)
Definition component_ok (bundleId bundlePartnerId : string) (meta : gmap string ComponentMeta)
    (c : string) : Prop :=
  c ≠ bundleId ∧
  ∃ m, meta !! c = Some m ∧ cm_isBundle m = false ∧ cm_partnerId m = bundlePartnerId.

Lemma bundle_step_seen b p meta acc c x :
  x ∈ (bundle_step b p meta acc c).2 ↔ x = c ∨ x ∈ acc.2.
Proof.
  unfold bundle_step. destruct acc as [ps seen]. simpl.
  destruct (meta !! c); simpl; apply elem_of_set_add.
Qed.

Lemma set_add_nonempty {A} `{EqDecision A} (x : A) l : set_add x l ≠ [].
Proof. unfold set_add. case_bool_decide as H; [intros ->; by apply elem_of_nil in H | by destruct l]. Qed.

Lemma bundle_step_problems b p meta acc c :
  (bundle_step b p meta acc c).1 = [] ↔
  acc.1 = [] ∧ (c ∉ acc.2) ∧ component_ok b p meta c.
Proof.
  unfold bundle_step, component_ok. destruct acc as [ps seen]. simpl.
  pose proof (λ x l, set_add_nonempty (A := BundleProblem) x l) as Hn.
  split.
  - intros H. destruct (meta !! c) as [m|]; simpl in H; [|by apply Hn in H].
    repeat case_bool_decide; destruct (cm_isBundle m) eqn:E; try (by apply Hn in H).
    naive_solver.
  - intros (-> & Hs & Hb & m & -> & -> & Hp). rewrite (bool_decide_eq_false_2 (c ∈ seen)),
      (bool_decide_eq_false_2 (c = b)), bool_decide_eq_true_2 by done. done.
Qed.

Lemma bundle_fold b p meta cs acc :
  (fold_left (bundle_step b p meta) cs acc).1 = [] ↔
  acc.1 = [] ∧ NoDup cs ∧ (∀ c, c ∈ cs → (c ∉ acc.2) ∧ component_ok b p meta c).
Proof.
  revert acc. induction cs as [|c cs IH]; intros acc; simpl.
  { split; [intros ->|by intros (?&?)]. split_and!; [done | constructor | set_solver]. }
  rewrite IH, bundle_step_problems, NoDup_cons. setoid_rewrite bundle_step_seen.
  setoid_rewrite elem_of_cons. naive_solver.
Qed.

(** detectBundleProblems, catalogPricing.ts: no problem is reported exactly when
    the components are distinct, none is the bundle itself, and each is a known item of
    the bundle's partner that is not a bundle. *)
Theorem detectBundleProblems_none bundleId bundlePartnerId components meta :
  detectBundleProblems bundleId bundlePartnerId components meta = [] ↔
  NoDup components ∧ Forall (component_ok bundleId bundlePartnerId meta) components.
Proof.
  unfold detectBundleProblems. rewrite bundle_fold, Forall_forall. simpl. set_solver.
Qed.

(** ** Stripe minor units *)

Lemma toFixed_int f q z :
  q == inject_Z z → toFixed f (Some q) = decimal_text f (z * 10 ^ Z.of_nat f).
Proof.
  intros Hq. apply toFixed_near.
  - assert (q * inject_Z (10 ^ Z.of_nat f) - inject_Z (z * 10 ^ Z.of_nat f) == 0) as ->; [|done].
    rewrite Hq, inject_Z_mult. ring.
  - rewrite Hq. change 0 with (inject_Z 0). rewrite <- Zle_Qle.
    pose proof (Z.pow_pos_nonneg 10 (Z.of_nat f)). nia.
Qed.

(** C5 (toMinorUnits and fromMinorUnits, stripeMoney.ts): an amount of minor units
    below [2^49] survives being written as a major-unit text and read back, in
    zero-decimal and in two-decimal currencies. *)
Theorem minorUnits_roundtrip currency z :
  (Z.abs z <= 2 ^ 49)%Z →
  ∃ s, fromMinorUnits (nint z) currency = Ok s ∧ toMinorUnits s currency = Ok (Some z).
Proof.
  intros Hz. unfold fromMinorUnits, toMinorUnits, nint.
  destruct (isZeroDecimal currency); (eexists; split; [done|]).
  - rewrite (toFixed_int 2 (inject_Z z) z) by done.
    destruct (Number_rel 2 (z * 10 ^ Z.of_nat 2)) as (q & -> & Hr); [done|].
    simpl. do 2 f_equal. apply Qfloor_near. apply (rel_near _ _ uround); [|unfold uround; lra | done].
    eapply rel_wd; [reflexivity| |exact Hr]. rewrite inject_Z_mult. by field.
  - pose proof (fromCents_int (inject_Z z) z (Qeq_refl _) Hz) as E. unfold fromCents in E.
    unfold nint in E. rewrite E. pose proof (toCents_text z Hz) as Ht. unfold toCents in Ht.
    destruct (Number_rel 2 z) as (q & Hq & _); [done|].
    destruct (decimal_text 2 z) eqn:Ed; [by apply decimal_text_nonempty in Ed|].
    rewrite Hq in Ht |- *. unfold nint in Ht. by rewrite Ht.
Qed.

(** 19.99 in a two-decimal and 1999 in a zero-decimal currency. *)
Lemma minorUnits_roundtrip_witness :
  isZeroDecimal "jpy" = true ∧ isZeroDecimal "usd" = false ∧
  (∃ s, fromMinorUnits (nint 1999) "jpy" = Ok s ∧ toMinorUnits s "jpy" = Ok (Some 1999%Z)) ∧
  (∃ s, fromMinorUnits (nint 1999) "usd" = Ok s ∧ toMinorUnits s "usd" = Ok (Some 1999%Z)).
Proof. split_and!; [done | done | by apply minorUnits_roundtrip..]. Defined.
