(* ===== verification/Calendar.v ===== *)
(** * Calendar arithmetic ([services/contractMath.ts], [services/quoteExpiry.ts]).

    Dates are ISO [YYYY-MM-DD] texts.  The [Date] operations the code uses are the
    ECMAScript ones ([MakeDay], [YearFromTime], ...) on day numbers; a number is an
    integer or NaN ([None]), since only integers occur in date texts and month counts
    far below [2^53]. *)

From S2P Require Import Prelude JsNum.

Open Scope Z_scope.

Local Ltac Zify.zify_post_hook ::= Z.div_mod_to_equations.

(** ** ECMAScript dates *)

Definition is_leap (y : Z) : bool :=
  (y mod 4 =? 0) && (negb (y mod 100 =? 0) || (y mod 400 =? 0)).
Definition leap_day (y : Z) : Z := if is_leap y then 1 else 0.

Definition DayFromYear (y : Z) : Z :=
  365 * (y - 1970) + (y - 1969) / 4 - (y - 1901) / 100 + (y - 1601) / 400.

(** Days of the year before the month [mn] (0 to 12). *)
Definition days_before (y mn : Z) : Z :=
  nth (Z.to_nat mn) [0; 31; 59; 90; 120; 151; 181; 212; 243; 273; 304; 334; 365] 0
  + (if mn <? 2 then 0 else leap_day y).

Definition MakeDay (y mon dt : Z) : Z :=
  let ym := y + mon / 12 in
  DayFromYear ym + days_before ym (mon mod 12) + dt - 1.

(** [new Date(Date.UTC(y, mon, dt))] as a day number: two-digit years mean 19xx, and
    dates more than a hundred million days from 1970 are invalid. *)
Definition DateUTC (y mon dt : Z) : option Z :=
  let yr := if (0 <=? y) && (y <=? 99) then 1900 + y else y in
  let day := MakeDay yr mon dt in
  if Z.abs day <=? 100000000 then Some day else None.

Definition getUTCFullYear (day : Z) : Z :=
  let e := 1970 + 400 * day / 146097 in
  if day <? DayFromYear e then e - 1 else if DayFromYear (e + 1) <=? day then e + 1 else e.

(** Month of a day of the year: the last one that has begun. *)
Fixpoint month_search (n : nat) (y doy : Z) : Z :=
  match n with
  | O => 0
  | S n' => if days_before y (Z.of_nat n) <=? doy then Z.of_nat n else month_search n' y doy
  end.
Definition getUTCMonth (day : Z) : Z :=
  let y := getUTCFullYear day in month_search 11 y (day - DayFromYear y).
Definition getUTCDate (day : Z) : Z :=
  let y := getUTCFullYear day in
  day - DayFromYear y - days_before y (getUTCMonth day) + 1.

(** ** contractMath.ts *)

(** [Number] on a segment of a date text. *)
Definition int_number (l : list ascii) : option Z :=
  match l with
  | [] => Some 0
  | _ => if forallb is_digit l then Some (digits_val l) else None
  end.

Definition parts (iso : string) : option Z * option Z * option Z :=
  let segments := split_chars "-" (chars iso) in
  let seg i := segments !! i ≫= int_number in
  (seg 0%nat, seg 1%nat, seg 2%nat).

Definition daysInMonth (year month1 : option Z) : option Z :=
  y ← year; m1 ← month1; getUTCDate <$> DateUTC y m1 0.

Definition number_text (n : option Z) : list ascii :=
  match n with Some z => chars (print_Z z) | None => ["N"; "a"; "N"]%char end.

Definition fmt (y m1 d : option Z) : string :=
  of_chars (number_text y ++ "-"%char :: pad 2 (number_text m1)
            ++ "-"%char :: pad 2 (number_text d)).

Definition addMonthsClamped (iso : string) (months : Z) : string :=
  let '(y, m, d) := parts iso in
  let zeroBased := (λ m, m - 1 + months) <$> m in
  let ny := y ← y; z ← zeroBased; Some (y + z / 12) in
  let nm1 := (λ z, Z.rem (Z.rem z 12 + 12) 12 + 1) <$> zeroBased in
  let clampedDay := d ← d; n ← daysInMonth ny nm1; Some (Z.min d n) in
  fmt ny nm1 clampedDay.

Record Period := { periodStart : string; periodEnd : string }.

Definition computePeriod (startDate : string) (intervalMonths periodIndex : Z) : Period :=
  {| periodStart := addMonthsClamped startDate (intervalMonths * periodIndex);
     periodEnd := addMonthsClamped startDate (intervalMonths * (periodIndex + 1)) |}.

(** The loop of [periodIndexFor]: [n] iterations are left before the runaway guard
    breaks out. *)
Fixpoint period_walk (n : nat) (startDate : string) (intervalMonths : Z) (asOf : string)
    (idx : Z) : Z :=
  if str_le (periodStart (computePeriod startDate intervalMonths (idx + 1))) asOf
  then match n with
       | O => idx + 1
       | S n' => period_walk n' startDate intervalMonths asOf (idx + 1)
       end
  else idx.

Definition periodIndexFor (startDate : string) (intervalMonths : Z) (asOf : string) : Z :=
  period_walk (Z.to_nat 100000) startDate intervalMonths asOf 0.

Inductive BillingTiming := advance | arrears.
#[export] Instance BillingTiming_eq_dec : EqDecision BillingTiming.
Proof. solve_decision. Defined.

Definition nextBillingDate (startDate : string) (intervalMonths : Z) (timing : BillingTiming)
    (periodIndex : Z) : string :=
  let p := computePeriod startDate intervalMonths periodIndex in
  match timing with advance => periodStart p | arrears => periodEnd p end.

Definition isExpired (endDate : option string) (start : string) : bool :=
  match endDate with None => false | Some e => str_le e start end.

Definition addDaysISO (iso : string) (days : Z) : string :=
  let '(y, m, d) := parts iso in
  let dt := y ← y; m ← m; d ← d; DateUTC y (m - 1) (d + days) in
  fmt (getUTCFullYear <$> dt) ((λ t, getUTCMonth t + 1) <$> dt) (getUTCDate <$> dt).

Definition duePeriodStartFor (timing : BillingTiming) (nextBillingAt : string)
    (intervalMonths : Z) : string :=
  match timing with
  | advance => nextBillingAt
  | arrears => addMonthsClamped nextBillingAt (- intervalMonths)
  end.

Definition isWithinNoticeWindow (asOf endDate : string) (noticeDays : Z) : bool :=
  let windowStart := addDaysISO endDate (- noticeDays) in
  str_le windowStart asOf && str_lt asOf endDate.

(** The loop of [extendTermPastDue]; [n] as in [period_walk]. *)
Fixpoint extend_walk (n : nat) (due : string) (termMonths : Z) (endDate : string)
    (renewed : bool) : string * bool :=
  if isExpired (Some endDate) due then
    let endDate := addMonthsClamped endDate termMonths in
    match n with
    | O => (endDate, true)
    | S n' => extend_walk n' due termMonths endDate true
    end
  else (endDate, renewed).

Definition extendTermPastDue (endDate duePeriodStart : string) (termMonths : Z)
    : string * bool :=
  extend_walk (Z.to_nat 100000) duePeriodStart termMonths endDate false.

(** ** quoteExpiry.ts *)

(** [asOf.toISOString().slice(0, 10)] for a moment given by its day number. *)
Definition utcDay (day : Z) : string :=
  of_chars (pad 4 (chars (print_Z (getUTCFullYear day))) ++ "-"%char
            :: pad 2 (chars (print_Z (getUTCMonth day + 1)))
            ++ "-"%char :: pad 2 (chars (print_Z (getUTCDate day)))).

Definition isQuoteExpired (expiryDate : option string) (asOf : Z) : bool :=
  match expiryDate with
  | None | Some EmptyString => false
  | Some e => str_lt e (utcDay asOf)
  end.

(** ** Day numbers *)

Lemma leap_day_bounds y : 0 <= leap_day y <= 1.
Proof. unfold leap_day. destruct (is_leap y); lia. Qed.

Lemma DayFromYear_succ y : DayFromYear (y + 1) = DayFromYear y + 365 + leap_day y.
Proof.
  assert (leap_day y = (y + 1 - 1969) / 4 - (y - 1969) / 4 - (y + 1 - 1901) / 100
    + (y - 1901) / 100 + (y + 1 - 1601) / 400 - (y - 1601) / 400) as ->.
  2:{ unfold DayFromYear. lia. }
  unfold leap_day, is_leap.
  destruct (Z.eqb_spec (y mod 4) 0), (Z.eqb_spec (y mod 100) 0), (Z.eqb_spec (y mod 400) 0);
    simpl; lia.
Qed.

Lemma DayFromYear_mono y z : y < z → DayFromYear y + 365 <= DayFromYear z.
Proof.
  intros Hyz. replace z with (y + 1 + Z.of_nat (Z.to_nat (z - y - 1))) by lia.
  induction (Z.to_nat (z - y - 1)) as [|n IH].
  - rewrite Z.add_0_r, DayFromYear_succ. pose proof (leap_day_bounds y). lia.
  - replace (y + 1 + Z.of_nat (S n)) with (y + 1 + Z.of_nat n + 1) by lia.
    rewrite DayFromYear_succ. pose proof (leap_day_bounds (y + 1 + Z.of_nat n)). lia.
Qed.

(** The Gregorian mean year keeps the estimate within a year of the truth. *)
Lemma DayFromYear_mean y :
  146097 * (y - 1970) - 146097 < 400 * DayFromYear y < 146097 * (y - 1970) + 146097.
Proof. unfold DayFromYear. lia. Qed.

Lemma getUTCFullYear_spec y day :
  DayFromYear y <= day < DayFromYear (y + 1) → getUTCFullYear day = y.
Proof.
  intros [Hl Hu]. unfold getUTCFullYear. set (e := 1970 + 400 * day / 146097).
  pose proof (DayFromYear_mean y). pose proof (DayFromYear_mean (y + 1)).
  assert (y - 1 <= e <= y + 1) as He by (unfold e; lia).
  assert (e = y - 1 ∨ e = y ∨ e = y + 1) as [-> | [-> | ->]] by lia.
  - replace (y - 1 + 1) with y by lia. pose proof (DayFromYear_mono (y - 1) y).
    destruct (Z.ltb_spec day (DayFromYear (y - 1))); [lia|].
    destruct (Z.leb_spec (DayFromYear y) day); lia.
  - destruct (Z.ltb_spec day (DayFromYear y)); [lia|].
    destruct (Z.leb_spec (DayFromYear (y + 1)) day); lia.
  - destruct (Z.ltb_spec day (DayFromYear (y + 1))); lia.
Qed.

Definition month_len (y m1 : Z) : Z := days_before y m1 - days_before y (m1 - 1).

Local Ltac month_cases m :=
  assert (m = 0 ∨ m = 1 ∨ m = 2 ∨ m = 3 ∨ m = 4 ∨ m = 5 ∨ m = 6 ∨ m = 7 ∨ m = 8 ∨ m = 9 ∨
          m = 10 ∨ m = 11) as Hm_cases by lia;
  destruct Hm_cases as [->|[->|[->|[->|[->|[->|[->|[->|[->|[->|[->| ->]]]]]]]]]]].

Lemma days_before_step y mn :
  0 <= mn <= 11 → 28 <= days_before y (mn + 1) - days_before y mn <= 31.
Proof.
  intros Hm. pose proof (leap_day_bounds y). unfold days_before. month_cases mn; simpl; lia.
Qed.

Lemma days_before_mono y a b : 0 <= a → a < b <= 12 → days_before y a + 28 <= days_before y b.
Proof.
  intros Ha [Hab Hb]. replace b with (a + 1 + Z.of_nat (Z.to_nat (b - a - 1))) in * by lia.
  induction (Z.to_nat (b - a - 1)) as [|n IH].
  - rewrite Z.add_0_r. pose proof (days_before_step y a). lia.
  - replace (a + 1 + Z.of_nat (S n)) with (a + 1 + Z.of_nat n + 1) in * by lia.
    pose proof (days_before_step y (a + 1 + Z.of_nat n)). lia.
Qed.

Lemma days_before_0 y : days_before y 0 = 0.
Proof. done. Qed.
Lemma days_before_12 y : days_before y 12 = 365 + leap_day y.
Proof. done. Qed.

Lemma month_search_spec n y doy mn :
  (n <= 11)%nat → 0 <= mn <= Z.of_nat n →
  days_before y mn <= doy < days_before y (mn + 1) → month_search n y doy = mn.
Proof.
  induction n as [|n IH]; intros Hn Hm Hd.
  { simpl. lia. }
  cbn [month_search]. destruct (Z.leb_spec (days_before y (Z.of_nat (S n))) doy) as [H|H].
  - destruct (decide (mn = Z.of_nat (S n))) as [->|Hne]; [done|].
    destruct (decide (mn + 1 = Z.of_nat (S n))) as [E|E]; [rewrite E in Hd; lia|].
    pose proof (days_before_mono y (mn + 1) (Z.of_nat (S n))). lia.
  - destruct (decide (mn = Z.of_nat (S n))) as [->|Hne]; [lia|]. apply IH; [lia | lia | done].
Qed.

(** ** Calendar dates *)

Record date := { dy : Z; dm : Z; dd : Z }.

Definition valid (c : date) : Prop :=
  1 <= dm c <= 12 ∧ 1 <= dd c <= month_len (dy c) (dm c).

Definition day_number (c : date) : Z := MakeDay (dy c) (dm c - 1) (dd c).

Lemma MakeDay_in_year y mn dt :
  0 <= mn <= 11 → MakeDay y mn dt = DayFromYear y + days_before y mn + dt - 1.
Proof.
  intros Hm. unfold MakeDay. rewrite Z.div_small, Z.mod_small by lia. by rewrite Z.add_0_r.
Qed.

Lemma day_number_year c :
  valid c → DayFromYear (dy c) <= day_number c < DayFromYear (dy c + 1).
Proof.
  intros [Hm Hd]. unfold day_number. rewrite MakeDay_in_year by lia.
  rewrite DayFromYear_succ. pose proof (days_before_12 (dy c)). unfold month_len in Hd.
  assert (0 <= days_before (dy c) (dm c - 1)).
  { destruct (decide (dm c = 1)) as [E|E].
    - rewrite E. done.
    - pose proof (days_before_mono (dy c) 0 (dm c - 1)). rewrite days_before_0 in *. lia. }
  assert (days_before (dy c) (dm c) <= days_before (dy c) 12).
  { destruct (decide (dm c = 12)) as [->|E]; [lia|].
    pose proof (days_before_mono (dy c) (dm c) 12). lia. }
  lia.
Qed.

(** [getUTCFullYear], [getUTCMonth] and [getUTCDate] recover a valid date. *)
Lemma getUTC_day_number c :
  valid c → getUTCFullYear (day_number c) = dy c ∧ getUTCMonth (day_number c) = dm c - 1 ∧
            getUTCDate (day_number c) = dd c.
Proof.
  intros Hv. pose proof (getUTCFullYear_spec _ _ (day_number_year c Hv)) as Hy.
  destruct Hv as [Hm Hd]. unfold month_len in Hd.
  assert (day_number c = DayFromYear (dy c) + days_before (dy c) (dm c - 1) + dd c - 1) as E
    by (apply MakeDay_in_year; lia).
  assert (getUTCMonth (day_number c) = dm c - 1) as Hmon.
  { unfold getUTCMonth. rewrite Hy. apply month_search_spec; [lia | lia|].
    rewrite E. replace (dm c - 1 + 1) with (dm c) by lia. lia. }
  split_and!; [done | done|]. unfold getUTCDate. rewrite Hmon, Hy, E. lia.
Qed.

Lemma month_len_bounds y m : 1 <= m <= 12 → 28 <= month_len y m <= 31.
Proof.
  intros Hm. unfold month_len. pose proof (days_before_step y (m - 1)) as H.
  replace (m - 1 + 1) with m in H by lia. lia.
Qed.

Lemma DayFromYear_range y : 100 <= y <= 20000 → Z.abs (DayFromYear y) <= 10000000.
Proof. unfold DayFromYear. lia. Qed.

Lemma daysInMonth_spec y m :
  100 <= y <= 19999 → 1 <= m <= 12 → daysInMonth (Some y) (Some m) = Some (month_len y m).
Proof.
  intros Hy Hm. unfold daysInMonth, DateUTC. simpl.
  destruct (Z.leb_spec 0 y), (Z.leb_spec y 99); simpl; try lia.
  set (c := {| dy := y; dm := m; dd := month_len y m |}).
  assert (valid c) as Hv by (split; simpl; [lia|]; pose proof (month_len_bounds y m); lia).
  assert (MakeDay y m 0 = day_number c) as ->.
  { unfold day_number. simpl. rewrite (MakeDay_in_year y (m - 1)) by lia. unfold month_len.
    destruct (decide (m = 12)) as [->|].
    - unfold MakeDay. change (12 / 12) with 1. change (12 mod 12) with 0.
      rewrite DayFromYear_succ, days_before_0, days_before_12. lia.
    - rewrite MakeDay_in_year by lia. lia. }
  pose proof (day_number_year c Hv) as Hd. pose proof (DayFromYear_range y).
  pose proof (DayFromYear_range (y + 1)). simpl in Hd.
  destruct (Z.leb_spec (Z.abs (day_number c)) 100000000); [|lia].
  simpl. f_equal. by apply getUTC_day_number.
Qed.

(** ** Date texts *)

Definition iso (c : date) : string := fmt (Some (dy c)) (Some (dm c)) (Some (dd c)).

(** Dates whose text has the four-digit year of a date column. *)
Definition column_date (c : date) : Prop := valid c ∧ 1000 <= dy c <= 9999.

Lemma number_text_nonneg z : 0 <= z → number_text (Some z) = print_nat z.
Proof.
  intros Hz. unfold number_text, print_Z. destruct (Z.ltb_spec z 0); [lia|].
  by rewrite String.list_ascii_of_string_of_list_ascii.
Qed.

Lemma iso_chars c :
  valid c → 0 <= dy c →
  iso c = of_chars (print_nat (dy c) ++ "-"%char :: pad 2 (print_nat (dm c))
                    ++ "-"%char :: pad 2 (print_nat (dd c))).
Proof. intros [Hm Hd] Hy. unfold iso, fmt. by rewrite !number_text_nonneg by lia. Qed.

Lemma int_number_digits l : l ≠ [] → forallb is_digit l = true → int_number l = Some (digits_val l).
Proof. intros Hl Hd. destruct l; [done|]. unfold int_number. by rewrite Hd. Qed.

Lemma print_nat_ne n : 0 <= n → print_nat n ≠ [].
Proof. intros Hn. by destruct (print_nat_nonempty n Hn) as (c & l & -> & _). Qed.

Lemma pad_ne w l : l ≠ [] → pad w l ≠ [].
Proof. unfold pad. destruct l; [done|]. intros _ H%app_eq_nil. naive_solver. Qed.

Lemma int_number_pad w n : 0 <= n → int_number (pad w (print_nat n)) = Some n.
Proof.
  intros Hn. rewrite int_number_digits, pad_val, print_nat_val; [done | done | |].
  - by apply pad_ne, print_nat_ne.
  - by apply pad_digits, print_nat_digits.
Qed.

Lemma parts_iso c :
  valid c → 0 <= dy c → parts (iso c) = (Some (dy c), Some (dm c), Some (dd c)).
Proof.
  intros Hv Hy. rewrite iso_chars by done. destruct Hv as [Hm Hd]. unfold parts.
  rewrite String.list_ascii_of_string_of_list_ascii.
  assert (∀ n, 0 <= n → "-"%char ∉ pad 2 (print_nat n)) as Hpad.
  { intros n Hn. apply digits_not_in; [by apply pad_digits, print_nat_digits | done]. }
  rewrite !split_chars_app, split_chars_none.
  - cbn [lookup list_lookup mbind option_bind]. rewrite !int_number_pad by lia.
    by rewrite int_number_digits, print_nat_val by auto using print_nat_ne, print_nat_digits.
  - apply Hpad. lia.
  - apply Hpad. lia.
  - apply digits_not_in; [by apply print_nat_digits | done].
Qed.

Lemma str_cmp_digits l1 l2 r1 r2 :
  length l1 = length l2 → forallb is_digit l1 = true → forallb is_digit l2 = true →
  str_cmp (of_chars (l1 ++ r1)) (of_chars (l2 ++ r2)) =
  if digits_val l1 <? digits_val l2 then -1
  else if digits_val l2 <? digits_val l1 then 1 else str_cmp (of_chars r1) (of_chars r2).
Proof.
  revert l2. induction l1 as [|c1 l1 IH]; intros [|c2 l2] Hlen; try done.
  cbn [forallb]. intros [Hc1 Hl1]%andb_true_iff [Hc2 Hl2]%andb_true_iff.
  injection Hlen as Hlen. specialize (IH l2 Hlen Hl1 Hl2).
  rewrite !digits_val_cons, <- Hlen. pose proof (digits_val_bound l1 Hl1) as B1.
  pose proof (digits_val_bound l2 Hl2) as B2. rewrite <- Hlen in B2.
  set (P := 10 ^ Z.of_nat (length l1)) in *.
  unfold str_cmp in *. simpl. change (Ascii.compare c1 c2) with (N.compare (N_of_ascii c1) (N_of_ascii c2)).
  assert (∀ c, digit_val c = Z.of_N (N_of_ascii c) - 48) as Hv
    by (intros c; unfold digit_val, nat_of_ascii; lia).
  rewrite !Hv. destruct (N.compare_spec (N_of_ascii c1) (N_of_ascii c2)) as [E|E|E].
  - rewrite E, IH. destruct (Z.ltb_spec (digits_val l1) (digits_val l2)),
      (Z.ltb_spec (digits_val l2) (digits_val l1)); repeat (case_match; try lia).
  - destruct (Z.ltb_spec ((Z.of_N (N_of_ascii c1) - 48) * P + digits_val l1)
                ((Z.of_N (N_of_ascii c2) - 48) * P + digits_val l2)); [done | nia].
  - destruct (Z.ltb_spec ((Z.of_N (N_of_ascii c1) - 48) * P + digits_val l1)
                ((Z.of_N (N_of_ascii c2) - 48) * P + digits_val l2)); [nia|].
    destruct (Z.ltb_spec ((Z.of_N (N_of_ascii c2) - 48) * P + digits_val l2)
                ((Z.of_N (N_of_ascii c1) - 48) * P + digits_val l1)); [done | nia].
Qed.

Lemma year_text_length y : 1000 <= y <= 9999 → length (print_nat y) = 4%nat.
Proof.
  intros Hy. pose proof (print_nat_length_le y 4) as Hle.
  pose proof (digits_val_bound (print_nat y) (print_nat_digits y ltac:(lia))) as Hb.
  rewrite print_nat_val in Hb by lia.
  destruct (length (print_nat y)) as [|[|[|[|[|n]]]]]; simpl in *; lia.
Qed.

Lemma two_digits_length n : 0 <= n < 100 → length (pad 2 (print_nat n)) = 2%nat.
Proof. intros Hn. apply pad_length, print_nat_length_le; simpl; lia. Qed.

Lemma valid_bounds c : valid c → 1 <= dm c <= 12 ∧ 1 <= dd c <= 31.
Proof. intros [Hm Hd]. pose proof (month_len_bounds (dy c) (dm c) Hm). lia. Qed.

Lemma day_number_lex a b :
  valid a → valid b →
  day_number a < day_number b ↔
  dy a < dy b ∨ (dy a = dy b ∧ (dm a < dm b ∨ (dm a = dm b ∧ dd a < dd b))).
Proof.
  assert (∀ a b, valid a → valid b → dy a < dy b → day_number a < day_number b) as Hyear.
  { intros a' b' Ha Hb H. pose proof (day_number_year _ Ha). pose proof (day_number_year _ Hb).
    destruct (decide (dy a' + 1 = dy b')) as [E|E]; [rewrite E in *; lia|].
    pose proof (DayFromYear_mono (dy a' + 1) (dy b')). lia. }
  assert (∀ a b, valid a → valid b → dy a = dy b → dm a < dm b → day_number a < day_number b) as Hmon.
  { intros a' b' [Hma Hda] [Hmb Hdb] Ey H. unfold day_number, month_len in *.
    rewrite !MakeDay_in_year by lia. rewrite Ey in *.
    assert (days_before (dy b') (dm a') <= days_before (dy b') (dm b' - 1)); [|lia].
    destruct (decide (dm a' = dm b' - 1)) as [->|]; [lia|].
    pose proof (days_before_mono (dy b') (dm a') (dm b' - 1)). lia. }
  assert (∀ a b, valid a → valid b → dy a = dy b → dm a = dm b →
            day_number a - day_number b = dd a - dd b) as Hday.
  { intros a' b' [Hma Hda] [Hmb Hdb] Ey Em. unfold day_number.
    rewrite !MakeDay_in_year by lia. rewrite Ey, Em. lia. }
  intros Ha Hb. split; [intros H|intros [H|[Ey [H|[Em H]]]]; auto].
  - destruct (Z.lt_trichotomy (dy a) (dy b)) as [?|[Ey|H']]; [auto| |].
    2:{ pose proof (Hyear b a Hb Ha H'). lia. }
    right. split; [done|]. destruct (Z.lt_trichotomy (dm a) (dm b)) as [?|[Em|H']]; [auto| |].
    + right. split; [done|]. pose proof (Hday a b Ha Hb Ey Em). lia.
    + pose proof (Hmon b a Hb Ha (eq_sym Ey) H'). lia.
  - pose proof (Hday a b Ha Hb Ey Em). lia.
Qed.

Lemma str_cmp_same_prefix c r1 r2 :
  str_cmp (of_chars (c :: r1)) (of_chars (c :: r2)) = str_cmp (of_chars r1) (of_chars r2).
Proof.
  unfold str_cmp. simpl. change (Ascii.compare c c) with (N.compare (N_of_ascii c) (N_of_ascii c)).
  by rewrite N.compare_refl.
Qed.

(** The text of a column date in its three digit groups. *)
Lemma iso_groups c :
  column_date c → ∃ ly lm ld,
    iso c = of_chars (ly ++ "-"%char :: lm ++ "-"%char :: ld ++ []) ∧
    (length ly = 4 ∧ length lm = 2 ∧ length ld = 2)%nat ∧
    (forallb is_digit ly = true ∧ forallb is_digit lm = true ∧ forallb is_digit ld = true) ∧
    digits_val ly = dy c ∧ digits_val lm = dm c ∧ digits_val ld = dd c.
Proof.
  intros [Hc Hy]. rewrite iso_chars by (done || lia). pose proof (valid_bounds c Hc).
  exists (print_nat (dy c)), (pad 2 (print_nat (dm c))), (pad 2 (print_nat (dd c))).
  rewrite app_nil_r, year_text_length, !two_digits_length, !pad_val, !print_nat_val by lia.
  split_and!; try done; try apply pad_digits; apply print_nat_digits; lia.
Qed.

(** ISO texts compare as the days they name. *)
Lemma iso_lt a b :
  column_date a → column_date b → str_lt (iso a) (iso b) = (day_number a <? day_number b).
Proof.
  intros Ha Hb. pose proof (day_number_lex a b (proj1 Ha) (proj1 Hb)) as Hlex.
  destruct (iso_groups a Ha) as (ya & ma & da & -> & (?&?&?) & (?&?&?) & Va1 & Va2 & Va3).
  destruct (iso_groups b Hb) as (yb & mb & db & -> & (?&?&?) & (?&?&?) & Vb1 & Vb2 & Vb3).
  unfold str_lt. rewrite str_cmp_digits, str_cmp_same_prefix, str_cmp_digits,
    str_cmp_same_prefix, str_cmp_digits by (done || congruence).
  rewrite Va1, Va2, Va3, Vb1, Vb2, Vb3. apply Bool.eq_iff_eq_true. rewrite !Z.ltb_lt, Hlex.
  change (str_cmp (of_chars []) (of_chars [])) with 0.
  repeat match goal with |- context [?x <? ?y] => destruct (Z.ltb_spec x y) end; lia.
Qed.

Lemma iso_le a b :
  column_date a → column_date b → str_le (iso a) (iso b) = (day_number a <=? day_number b).
Proof.
  intros Ha Hb. pose proof (iso_lt b a Hb Ha) as H. unfold str_lt, str_le in *.
  rewrite str_cmp_flip in H. apply Bool.eq_iff_eq_true. apply Bool.eq_iff_eq_true in H.
  rewrite Z.ltb_lt in H. rewrite Z.ltb_lt in H. rewrite !Z.leb_le. lia.
Qed.

(** ** Months *)

Definition month_index (c : date) : Z := 12 * dy c + (dm c - 1).

Definition add_months (c : date) (k : Z) : date :=
  let y := (month_index c + k) / 12 in
  let m := (month_index c + k) mod 12 + 1 in
  {| dy := y; dm := m; dd := Z.min (dd c) (month_len y m) |}.

Lemma add_months_index c k : month_index (add_months c k) = month_index c + k.
Proof. unfold add_months, month_index; simpl. lia. Qed.

Lemma add_months_valid c k : valid c → valid (add_months c k).
Proof.
  intros [Hm Hd]. unfold add_months. set (z := month_index c + k).
  assert (1 <= z mod 12 + 1 <= 12) as Hm' by lia.
  split; simpl; [lia|]. pose proof (month_len_bounds (z / 12) _ Hm'). lia.
Qed.

Lemma rem_mod_12 z : Z.rem (Z.rem z 12 + 12) 12 = z mod 12.
Proof.
  assert (Z.abs (Z.rem z 12) < 12) as Hr by (by apply (Z.rem_bound_abs z 12)).
  rewrite (Z.rem_mod_nonneg (Z.rem z 12 + 12)) by lia. pose proof (Z.quot_rem' z 12).
  generalize dependent (Z.rem z 12). generalize (z ÷ 12). intros q r Hr Hz. lia.
Qed.

Lemma addMonthsClamped_iso c k :
  valid c → 0 <= dy c → 100 <= dy (add_months c k) <= 19999 →
  addMonthsClamped (iso c) k = iso (add_months c k).
Proof.
  intros Hv Hy Hr. unfold addMonthsClamped. rewrite parts_iso by done.
  cbn [fmap option_fmap option_map mbind option_bind].
  rewrite rem_mod_12. unfold add_months, month_index in *. cbn [dy dm dd] in *.
  replace (dy c + (dm c - 1 + k) / 12) with ((12 * dy c + (dm c - 1) + k) / 12) by lia.
  replace ((dm c - 1 + k) mod 12) with ((12 * dy c + (dm c - 1) + k) mod 12) by lia.
  rewrite daysInMonth_spec by lia. done.
Qed.

Lemma day_number_month a b :
  valid a → valid b → month_index a < month_index b → day_number a < day_number b.
Proof.
  intros Ha Hb H. apply day_number_lex; [done | done|].
  pose proof (valid_bounds a Ha). pose proof (valid_bounds b Hb). unfold month_index in H. lia.
Qed.

Lemma day_number_month_le a b :
  valid a → valid b → day_number a <= day_number b → month_index a <= month_index b.
Proof. intros Ha Hb H. pose proof (day_number_month b a Hb Ha). lia. Qed.

Lemma month_index_year c : valid c → dy c = month_index c / 12.
Proof. intros [Hm _]. unfold month_index. lia. Qed.

Lemma column_add_months c k :
  valid c → 12000 <= month_index c + k < 120000 → column_date (add_months c k).
Proof.
  intros Hv Hk. split; [by apply add_months_valid|].
  rewrite month_index_year by (by apply add_months_valid). rewrite add_months_index. lia.
Qed.

Lemma column_index c : column_date c → 12000 <= month_index c < 120000.
Proof. intros [[Hm _] Hy]. unfold month_index. lia. Qed.

Lemma addMonthsClamped_column c k :
  column_date c → 12000 <= month_index c + k < 120000 →
  addMonthsClamped (iso c) k = iso (add_months c k).
Proof.
  intros [Hv Hy] Hk. pose proof (column_add_months c k Hv Hk) as [_ ?].
  apply addMonthsClamped_iso; [done | lia | lia].
Qed.

(** Closed inequalities and validity of closed dates. *)
Local Ltac concrete := repeat split; vm_compute; congruence.

(** ** Billing periods *)

Lemma add_months_0 c : valid c → add_months c 0 = c.
Proof.
  intros Hv. pose proof (month_index_year c Hv) as Hy. destruct c as [y m d].
  unfold add_months. rewrite Z.add_0_r, <- Hy. simpl in *.
  assert (month_index {| dy := y; dm := m; dd := d |} mod 12 + 1 = m) as ->.
  { unfold month_index; simpl. destruct Hv as [Hm _]. simpl in Hm. lia. }
  destruct Hv as [_ Hd]. simpl in Hd. f_equal. lia.
Qed.

Lemma period_start_iso c n i :
  column_date c → 12000 <= month_index c + n * i < 120000 →
  periodStart (computePeriod (iso c) n i) = iso (add_months c (n * i)).
Proof. apply addMonthsClamped_column. Qed.

Lemma period_walk_spec N c n d idx :
  column_date c → column_date d → 1 <= n <= 1200 → dy d <= 9000 → 0 <= idx →
  day_number (add_months c (n * idx)) <= day_number d →
  month_index d - month_index c - n * idx <= Z.of_nat N →
  let i := period_walk N (iso c) n (iso d) idx in
  idx <= i ∧ day_number (add_months c (n * i)) <= day_number d
           < day_number (add_months c (n * (i + 1))).
Proof.
  intros Hc Hd Hn Hyd. pose proof (column_index c Hc). pose proof (column_index d Hd).
  assert (month_index d < 12 * 9001) by (destruct Hd as [[??]?]; unfold month_index; lia).
  revert idx. induction N as [|N IH]; intros idx Hi Hle HN; cbn [period_walk].
  all: pose proof (day_number_month_le _ _ (add_months_valid c (n * idx) (proj1 Hc)) (proj1 Hd) Hle)
         as Hmi; rewrite add_months_index in Hmi.
  all: assert (0 <= n * idx) by nia.
  all: assert (12000 <= month_index c + n * (idx + 1) < 120000) as Hrange by lia.
  all: pose proof (column_add_months c _ (proj1 Hc) Hrange) as Hnext.
  all: rewrite period_start_iso, iso_le by done.
  all: destruct (Z.leb_spec (day_number (add_months c (n * (idx + 1)))) (day_number d)) as [Hs|Hs];
    [|split; [lia|]; split; [done | lia]].
  all: pose proof (day_number_month_le _ _ (add_months_valid c (n * (idx + 1)) (proj1 Hc))
         (proj1 Hd) Hs) as Hmi'; rewrite add_months_index in Hmi'.
  - lia.
  - destruct (IH (idx + 1)) as [? ?]; [lia | done | lia|]. split; [lia | done].
Qed.

(** C6 (periodIndexFor and computePeriod, contractMath.ts): for an anchor date and a
    later date, the loop ends without its runaway guard on the one period that contains
    the date: its start is not after the date, its end is, and no other index has this
    property. *)
Theorem periodIndexFor_spec c d n :
  column_date c → column_date d → 1970 <= dy c → dy d <= 9000 → 1 <= n <= 1200 →
  str_le (iso c) (iso d) = true →
  let contains i := str_le (periodStart (computePeriod (iso c) n i)) (iso d) = true ∧
                    str_lt (iso d) (periodEnd (computePeriod (iso c) n i)) = true in
  let i := periodIndexFor (iso c) n (iso d) in
  0 <= i ∧ contains i ∧
  ∀ j, 0 <= j → month_index c + n * (j + 1) < 120000 → contains j → j = i.
Proof.
  intros Hc Hd Hyc Hyd Hn Hle. rewrite iso_le in Hle by done. apply Z.leb_le in Hle.
  pose proof (column_index c Hc). pose proof (column_index d Hd).
  destruct (period_walk_spec (Z.to_nat 100000) c n d 0) as (Hk0 & Hs & He); try done.
  { by rewrite Z.mul_0_r, add_months_0 by apply Hc. }
  { destruct Hc as [[??]?], Hd as [[??]?]. unfold month_index in *. lia. }
  intros contains i. unfold i, periodIndexFor.
  set (k := period_walk (Z.to_nat 100000) (iso c) n (iso d) 0) in *.
  assert (∀ j, 0 <= j → month_index c + n * (j + 1) < 120000 →
    contains j ↔ day_number (add_months c (n * j)) <= day_number d
                 < day_number (add_months c (n * (j + 1)))) as Hcon.
  { intros j Hj Hb. assert (0 <= n * j) by nia. unfold contains, computePeriod; simpl.
    rewrite !addMonthsClamped_column, iso_le, iso_lt, Z.leb_le, Z.ltb_lt
      by (done || lia || (apply column_add_months; [apply Hc | lia])). lia. }
  assert (0 <= n * k) by nia.
  assert (month_index c + n * (k + 1) < 120000) as Hk.
  { pose proof (day_number_month_le _ _ (add_months_valid c (n * k) (proj1 Hc)) (proj1 Hd) Hs) as Hm.
    rewrite add_months_index in Hm. destruct Hd as [[??]?]. unfold month_index in *. lia. }
  split; [lia|]. split; [by apply Hcon; [lia..|]|]. intros j Hj Hjb Hcj.
  apply Hcon in Hcj; [|done..].
  assert (∀ a b, a < b → n * (a + 1) <= n * b) by nia.
  assert (∀ a b, a < b → day_number (add_months c (n * (a + 1))) <= day_number (add_months c (n * b)))
    as Hmono.
  { intros a b Hab. destruct (decide (a + 1 = b)) as [->|]; [lia|].
    pose proof (day_number_month (add_months c (n * (a + 1))) (add_months c (n * b))) as H'.
    rewrite !add_months_index in H'. pose proof (add_months_valid c (n * (a + 1)) (proj1 Hc)).
    pose proof (add_months_valid c (n * b) (proj1 Hc)). assert (n * (a + 1) < n * b) by nia. lia. }
  destruct (Z.lt_trichotomy j k) as [Hjk|[?|Hjk]]; [|done|].
  - specialize (Hmono j k Hjk). lia.
  - specialize (Hmono k j Hjk). lia.
Qed.

(** A contract anchored on the 31st, fourteen months in. *)
Lemma periodIndexFor_spec_witness :
  let c := {| dy := 2026; dm := 1; dd := 31 |} in
  let d := {| dy := 2027; dm := 3; dd := 31 |} in
  periodIndexFor (iso c) 1 (iso d) = 14 ∧
  0 <= periodIndexFor (iso c) 1 (iso d).
Proof.
  intros c d. split; [vm_compute; reflexivity|].
  apply (periodIndexFor_spec c d 1); concrete.
Defined.

(** ** Term extension *)

Lemma isExpired_days e d :
  column_date e → column_date d →
  isExpired (Some (iso e)) (iso d) = (day_number e <=? day_number d).
Proof. apply iso_le. Qed.

Lemma extend_walk_spec N e d t renewed :
  column_date e → column_date d → 1 <= t <= 1200 → dy d <= 9000 →
  month_index d - month_index e <= Z.of_nat N →
  ∃ e', column_date e' ∧
    extend_walk N (iso d) t (iso e) renewed = (iso e', renewed || isExpired (Some (iso e)) (iso d)) ∧
    day_number d < day_number e' ∧
    (day_number d < day_number e → e' = e) ∧
    (day_number e <= day_number d →
       ∃ p, column_date p ∧ e' = add_months p t ∧ day_number p <= day_number d).
Proof.
  intros He Hd Ht Hyd. revert e renewed He. induction N as [|N IH]; intros e renewed He HN;
    cbn [extend_walk]; rewrite isExpired_days by done;
    destruct (Z.leb_spec (day_number e) (day_number d)) as [Hs|Hs].
  2,4: exists e; rewrite orb_false_r; split_and!; auto with lia.
  all: pose proof (day_number_month_le _ _ (proj1 He) (proj1 Hd) Hs) as Hmi.
  all: assert (12000 <= month_index e + t < 120000) as Hr
    by (pose proof (column_index e He); destruct Hd as [[??]?]; unfold month_index in *; lia).
  all: pose proof (column_add_months e t (proj1 He) Hr) as Hnext.
  all: rewrite addMonthsClamped_column by done; rewrite orb_true_r.
  - exists (add_months e t). split_and!; [done | done | | |].
    + apply day_number_month; [apply Hd | apply Hnext|]. rewrite add_months_index. lia.
    + lia.
    + eauto.
  - destruct (IH (add_months e t) true) as (e' & He' & -> & Hlt & Hq & Hp); [done| |].
    + rewrite add_months_index. lia.
    + exists e'. split_and!; [done | done | done | lia|]. intros _.
      destruct (Z.le_gt_cases (day_number (add_months e t)) (day_number d)); [auto|].
      exists e. rewrite Hq by lia. eauto.
Qed.

(** extendTermPastDue, contractMath.ts: the renewal loop ends without its guard,
    reports a renewal exactly when the contract was expired at the due date, and the new
    end date is after the due date and at most one term past it: the end before the last
    extension was not yet past it. *)
Theorem extendTermPastDue_spec e d t :
  column_date e → column_date d → 1970 <= dy e → dy d <= 9000 → 1 <= t <= 1200 →
  let '(newEnd, renewed) := extendTermPastDue (iso e) (iso d) t in
  renewed = isExpired (Some (iso e)) (iso d) ∧
  isExpired (Some newEnd) (iso d) = false ∧
  (renewed = false → newEnd = iso e) ∧
  (renewed = true → ∃ p, column_date p ∧ newEnd = addMonthsClamped (iso p) t ∧
                         isExpired (Some (iso p)) (iso d) = true).
Proof.
  intros He Hd Hye Hyd Ht. unfold extendTermPastDue.
  destruct (extend_walk_spec (Z.to_nat 100000) e d t false) as (e' & He' & -> & Hlt & Hq & Hp);
    try done.
  { destruct He as [[??]?], Hd as [[??]?]. unfold month_index. lia. }
  rewrite orb_false_l, !isExpired_days by done.
  destruct (Z.leb_spec (day_number e') (day_number d)); [lia|].
  split_and!; [done | done | intros Hex%Z.leb_gt; by rewrite Hq|].
  intros Hex%Z.leb_le. destruct (Hp Hex) as (p & Hcp & -> & Hpd).
  exists p. rewrite isExpired_days by done. split_and!; [done| |by apply Z.leb_le].
  symmetry. apply addMonthsClamped_iso; [apply Hcp | destruct Hcp; lia | destruct He'; lia].
Qed.

(** A yearly term two years behind. *)
Lemma extendTermPastDue_spec_witness :
  let e := {| dy := 2024; dm := 2; dd := 29 |} in
  let d := {| dy := 2026; dm := 2; dd := 28 |} in
  extendTermPastDue (iso e) (iso d) 12 = ("2027-02-28"%string, true) ∧
  let '(newEnd, renewed) := extendTermPastDue (iso e) (iso d) 12 in
  renewed = isExpired (Some (iso e)) (iso d) ∧
  isExpired (Some newEnd) (iso d) = false ∧
  (renewed = false → newEnd = iso e) ∧
  (renewed = true → ∃ p, column_date p ∧ newEnd = addMonthsClamped (iso p) 12 ∧
                         isExpired (Some (iso p)) (iso d) = true).
Proof.
  intros e d. split; [vm_compute; reflexivity|].
  apply (extendTermPastDue_spec e d 12); concrete.
Defined.

(** ** Days *)

Definition date_of_day (day : Z) : date :=
  {| dy := getUTCFullYear day; dm := getUTCMonth day + 1; dd := getUTCDate day |}.

Lemma year_exists day : ∃ y, DayFromYear y <= day < DayFromYear (y + 1).
Proof.
  set (e := 1970 + 400 * day / 146097).
  pose proof (DayFromYear_mean (e - 1)). pose proof (DayFromYear_mean (e + 2)).
  assert (DayFromYear (e - 1) <= day < DayFromYear (e + 2)) as Hb by (unfold e in *; lia).
  destruct (Z.lt_ge_cases day (DayFromYear e)).
  { exists (e - 1). replace (e - 1 + 1) with e by lia. lia. }
  destruct (Z.lt_ge_cases day (DayFromYear (e + 1))); [by exists e|].
  exists (e + 1). replace (e + 1 + 1) with (e + 2) by lia. lia.
Qed.

Lemma month_exists y doy :
  0 <= doy < days_before y 12 →
  ∃ mn, 0 <= mn <= 11 ∧ days_before y mn <= doy < days_before y (mn + 1).
Proof.
  intros Hd. assert (∀ n : nat, (n <= 12)%nat → doy < days_before y (Z.of_nat n) →
    ∃ mn, 0 <= mn < Z.of_nat n ∧ days_before y mn <= doy < days_before y (mn + 1)) as H.
  { induction n as [|n IH]; intros Hn Hlt.
    - change (Z.of_nat 0) with 0 in Hlt. rewrite days_before_0 in Hlt. lia.
    - destruct (Z.lt_ge_cases doy (days_before y (Z.of_nat n))) as [Hl|Hl].
      + destruct IH as (mn & ? & ?); [lia | done|]. exists mn. split; [lia | done].
      + exists (Z.of_nat n). split; [lia|]. replace (Z.of_nat n + 1) with (Z.of_nat (S n)) by lia. lia. }
  destruct (H 12%nat) as (mn & ? & ?); [lia | apply Hd|]. exists mn. split; [lia | done].
Qed.

(** Every day has a valid date. *)
Lemma date_of_day_spec day : valid (date_of_day day) ∧ day_number (date_of_day day) = day.
Proof.
  destruct (year_exists day) as (y & Hy). pose proof (getUTCFullYear_spec y day Hy) as Ey.
  rewrite DayFromYear_succ in Hy.
  destruct (month_exists y (day - DayFromYear y)) as (mn & Hm & Hd).
  { rewrite days_before_12. lia. }
  assert (getUTCMonth day = mn) as Em.
  { unfold getUTCMonth. rewrite Ey. apply month_search_spec; [lia | simpl; lia | done]. }
  unfold date_of_day, getUTCDate. rewrite Em, Ey. unfold valid, day_number, month_len. simpl.
  replace (mn + 1 - 1) with mn by lia. rewrite MakeDay_in_year by lia. lia.
Qed.

Lemma MakeDay_shift c n : valid c → MakeDay (dy c) (dm c - 1) (dd c + n) = day_number c + n.
Proof. intros [Hm _]. unfold day_number. rewrite !MakeDay_in_year by lia. lia. Qed.

Lemma addDaysISO_spec c n :
  column_date c → 1000 <= dy (date_of_day (day_number c + n)) <= 9999 →
  addDaysISO (iso c) n = iso (date_of_day (day_number c + n)).
Proof.
  intros [Hv Hy] Hr. unfold addDaysISO. rewrite parts_iso by (done || lia).
  cbn [mbind option_bind]. unfold DateUTC.
  destruct (Z.leb_spec 0 (dy c)), (Z.leb_spec (dy c) 99); simpl; try lia.
  rewrite MakeDay_shift by done. destruct (date_of_day_spec (day_number c + n)) as [Hv' Ed].
  pose proof (day_number_year _ Hv') as Hb. rewrite Ed in Hb.
  pose proof (DayFromYear_range (dy (date_of_day (day_number c + n)))).
  pose proof (DayFromYear_range (dy (date_of_day (day_number c + n)) + 1)).
  destruct (Z.leb_spec (Z.abs (day_number c + n)) 100000000); [|lia].
  unfold iso, date_of_day. cbn [dy dm dd fmap option_fmap option_map]. reflexivity.
Qed.

(** addDaysISO and isWithinNoticeWindow, contractMath.ts: a date is in the notice
    window exactly when it lies in the [noticeDays] calendar days before the end date,
    across month and year ends and leap days. *)
Theorem isWithinNoticeWindow_days a e n :
  column_date a → column_date e → 1000 <= dy (date_of_day (day_number e - n)) <= 9999 →
  isWithinNoticeWindow (iso a) (iso e) n =
  (day_number e - n <=? day_number a) && (day_number a <? day_number e).
Proof.
  intros Ha He Hr. unfold isWithinNoticeWindow. rewrite <- Z.add_opp_r in *.
  rewrite addDaysISO_spec by done. destruct (date_of_day_spec (day_number e + - n)) as [Hv Ed].
  rewrite iso_le, iso_lt by done. by rewrite Ed.
Qed.

(** Thirty days before a first of March in a leap year. *)
Lemma isWithinNoticeWindow_days_witness :
  let e := {| dy := 2028; dm := 3; dd := 1 |} in
  let a := {| dy := 2028; dm := 1; dd := 31 |} in
  isWithinNoticeWindow (iso a) (iso e) 30 = true ∧
  isWithinNoticeWindow (iso a) (iso e) 30 =
  (day_number e - 30 <=? day_number a) && (day_number a <? day_number e).
Proof.
  intros e a. split; [vm_compute; reflexivity|].
  apply isWithinNoticeWindow_days; concrete.
Defined.

Lemma utcDay_iso day :
  1000 <= dy (date_of_day day) <= 9999 → utcDay day = iso (date_of_day day).
Proof.
  intros Hd. destruct (date_of_day_spec day) as [Hv _].
  rewrite iso_chars by (done || lia). pose proof (valid_bounds _ Hv) as [??]. unfold utcDay.
  change (chars (print_Z (getUTCFullYear day))) with (number_text (Some (dy (date_of_day day)))).
  change (chars (print_Z (getUTCMonth day + 1))) with (number_text (Some (dm (date_of_day day)))).
  change (chars (print_Z (getUTCDate day))) with (number_text (Some (dd (date_of_day day)))).
  rewrite !number_text_nonneg by lia. unfold pad at 1. by rewrite year_text_length by lia.
Qed.

Lemma iso_nonempty c : column_date c → iso c ≠ EmptyString.
Proof.
  intros Hc. destruct (iso_groups c Hc) as (ly & lm & ld & -> & (Hl & _) & _). by destruct ly.
Qed.

(** isQuoteExpired, quoteExpiry.ts: a quote is expired exactly on the days after
    its expiry date, and a quote without an expiry date never is. *)
Theorem isQuoteExpired_days (e : option date) day :
  (∀ c, e = Some c → column_date c) → 1000 <= dy (date_of_day day) <= 9999 →
  isQuoteExpired (iso <$> e) day = match e with Some c => day_number c <? day | None => false end.
Proof.
  intros Hc Hd. destruct e as [c|]; [|done]. specialize (Hc c eq_refl). simpl.
  destruct (date_of_day_spec day) as [Hv Ed]. pose proof (iso_nonempty c Hc).
  rewrite utcDay_iso by done. destruct (iso c) eqn:Ei; [done|].
  rewrite <- Ei, iso_lt by done. by rewrite Ed.
Qed.

(** A quote expiring on 4 October 2024, on that day and on the next. *)
Lemma isQuoteExpired_days_witness :
  let c := {| dy := 2024; dm := 10; dd := 4 |} in
  isQuoteExpired (iso <$> Some c) 20000 = false ∧ isQuoteExpired (iso <$> Some c) 20001 = true ∧
  isQuoteExpired (iso <$> Some c) 20001 = (day_number c <? 20001).
Proof.
  intros c. split_and!; [vm_compute; reflexivity..|].
  apply (isQuoteExpired_days (Some c)); [|concrete]. intros ? [= <-]. concrete.
Defined.
