(* ===== verification/InvoiceDb.v ===== *)
(** * The tables of invoicing ([db/schema/invoices.ts], [timeTracking.ts], the billing
    columns of organisations and partners, the catalog), and the monad the invoice
    service runs in.

    A handler of the service runs in one database transaction: a thrown error discards
    what it wrote, so it is a function from the tables to an error or to a result and
    the new tables.  Row ids come from a generator of fresh ids.  Columns that are
    always written together are grouped into one record. *)

From S2P Require Import Prelude JsNum Money Calendar.

Open Scope Z_scope.

(** ** Enumerations ([billing-enums.ts]) *)

Inductive InvoiceStatus := draft | sent | partially_paid | overdue | paid | void.
#[export] Instance InvoiceStatus_eq_dec : EqDecision InvoiceStatus.
Proof. solve_decision. Defined.

Inductive PaymentMethod := cash | check | bank_transfer | card | other.

Inductive SourceType :=
| src_time_entry | src_part | src_catalog | src_bundle | src_manual | src_contract.
#[export] Instance SourceType_eq_dec : EqDecision SourceType.
Proof. solve_decision. Defined.

Inductive BillingStatus := not_billed | billed | no_charge | contract.
#[export] Instance BillingStatus_eq_dec : EqDecision BillingStatus.
Proof. solve_decision. Defined.

(** ** Rows *)

Abbreviation id := N.
Abbreviation text := (option string).

Record Address := {
  ad_line1 : text; ad_line2 : text; ad_city : text; ad_region : text; ad_postalCode : text;
  ad_country : text }.

Record SellerSnapshot := {
  ss_name : text; ss_address : Address; ss_phone : text; ss_email : text; ss_website : text }.

(** Written when the row is inserted. *)
Record Origin := {
  or_partnerId : id; or_orgId : id; or_createdBy : option id; or_replaces : option id;
  or_createdAt : Z }.

(** The header fields a draft edit may change. *)
Record Header := {
  hd_siteId : option id; hd_notes : text; hd_dueDate : text; hd_termsAndConditions : text }.

(** What issuing freezes onto the invoice. *)
Record Snapshot := {
  sn_invoiceNumber : option string; sn_currencyCode : string; sn_issueDate : text;
  sn_billToName : text; sn_billToAddress : option Address; sn_billToTaxId : text;
  sn_billToTaxExempt : bool; sn_terms : text; sn_seller : option SellerSnapshot }.

Record Amounts := {
  am_subtotal : string; am_taxRate : option string; am_taxTotal : string; am_total : string;
  am_amountPaid : string; am_balance : string }.

Record Stamps := {
  st_firstViewedAt : option Z; st_viewedAt : option Z; st_paidAt : option Z;
  st_markedOverdueAt : option Z; st_voidedAt : option Z; st_voidReason : text;
  st_replacedBy : option id; st_updatedAt : Z }.

Record Invoice := {
  iv_origin : Origin; iv_header : Header; iv_status : InvoiceStatus; iv_snapshot : Snapshot;
  iv_amounts : Amounts; iv_stamps : Stamps }.

Definition iv_orgId (i : Invoice) : id := or_orgId (iv_origin i).
Definition iv_partnerId (i : Invoice) : id := or_partnerId (iv_origin i).
Definition iv_number (i : Invoice) : option string := sn_invoiceNumber (iv_snapshot i).
Definition iv_total (i : Invoice) : string := am_total (iv_amounts i).
Definition iv_balance (i : Invoice) : string := am_balance (iv_amounts i).
Definition iv_voidedAt (i : Invoice) : option Z := st_voidedAt (iv_stamps i).

Record Line := {
  ln_invoiceId : id; ln_orgId : id; ln_sourceType : SourceType; ln_sourceId : option id;
  ln_catalogItemId : option id; ln_parentLineId : option id; ln_ticketId : option id;
  ln_description : string; ln_quantity : string; ln_unitPrice : string; ln_costBasis : text;
  ln_revenueAllocation : text; ln_taxable : bool; ln_customerVisible : bool;
  ln_lineTotal : string; ln_isUnapprovedTime : bool; ln_sortOrder : Z }.

Record Payment := {
  py_invoiceId : id; py_orgId : id; py_amount : string; py_method : PaymentMethod;
  py_reference : text; py_receivedAt : string; py_recordedBy : option id; py_note : text }.

Record TimeEntry := {
  te_orgId : id; te_ticketId : option id; te_description : text;
  te_durationMinutes : option Z; te_hourlyRate : text; te_isApproved : bool;
  te_isBillable : bool; te_billingStatus : BillingStatus; te_endedAt : option Z }.

Record TicketPart := {
  tp_orgId : id; tp_ticketId : option id; tp_catalogItemId : option id;
  tp_description : string; tp_quantity : string; tp_unitPrice : string; tp_costBasis : text;
  tp_isBillable : bool; tp_billingStatus : BillingStatus; tp_createdAt : Z }.

Record Organization := {
  og_name : string; og_taxId : text; og_taxExempt : bool; og_taxRate : text;
  og_billing : Address }.

Record Partner := {
  pa_name : string; pa_currencyCode : string; pa_defaultTaxRate : text;
  pa_invoiceNumberPrefix : string; pa_invoiceTermsDays : Z; pa_invoiceFooter : text;
  pa_billingCompanyName : text; pa_billingEmail : text; pa_billingPhone : text;
  pa_billingWebsite : text; pa_billing : Address; pa_billingTermsAndConditions : text }.

Record CatalogRow := {
  ct_partnerId : id; ct_name : string; ct_isBundle : bool; ct_item : CatalogItem }.

Record ComponentRow := {
  co_bundleItemId : id; co_componentItemId : id; co_quantity : string;
  co_showOnInvoice : bool; co_revenueAllocation : text }.

(** ** Events ([invoiceEvents.ts]) *)

Inductive InvoiceEvent :=
| invoice_issued (i : id) | invoice_viewed (i : id) | invoice_overdue (i : id)
| invoice_paid (i : id) | invoice_voided (i : id)
| payment_recorded (i p : id) | payment_voided (i p : id) | payment_failed (i : id) (p : option id).

(** ** Tables *)

Record DB := {
  invoices : gmap id Invoice; invoiceLines : gmap id Line; invoicePayments : gmap id Payment;
  timeEntries : gmap id TimeEntry; ticketParts : gmap id TicketPart;
  tickets : gmap id id;                                  (* ticket to organisation *)
  organizations : gmap id Organization; partners : gmap id Partner;
  catalogItems : gmap id CatalogRow; catalogOrgPricing : gmap (id * id) string;
  catalogBundleComponents : list ComponentRow;
  sequences : gmap (id * Z) Z;                           (* partner_invoice_sequences *)
  stripePayments : list (id * option id * bool);         (* invoice, payment, succeeded *)
  stripeConnected : gmap id bool;                        (* partner connection status *)
  nextId : id; events : list InvoiceEvent }.

(** ** Errors and the handler monad *)

Inductive InvoiceError :=
| PARTNER_UNRESOLVABLE | ORG_DENIED | INVOICE_NOT_FOUND | NOT_A_DRAFT | NOTHING_TO_INVOICE
| NO_VISIBLE_LINES | SOURCE_ALREADY_BILLED | OVERPAYMENT | INVALID_STATE | INVALID_AMOUNT
| LINE_NOT_FOUND | PAYMENT_NOT_FOUND | NUMBER_ALLOCATION_FAILED
| ITEM_NOT_FOUND | NOT_A_BUNDLE                          (* CatalogServiceError *)
| RANGE_ERROR.                                           (* an invalid Date, as ISO text *)
#[export] Instance InvoiceError_eq_dec : EqDecision InvoiceError.
Proof. solve_decision. Defined.

Definition M (A : Type) : Type := DB → outcome InvoiceError (A * DB).

#[export] Instance M_ret : MRet M := λ A a db, Ok (a, db).
#[export] Instance M_bind : MBind M := λ A B k m db,
  match m db with Ok (a, db') => k a db' | Throw e => Throw e end.

Definition throw {A} (e : InvoiceError) : M A := λ _, Throw e.
Definition require (b : bool) (e : InvoiceError) : M unit := if b then mret tt else throw e.
Definition get_db : M DB := λ db, Ok (db, db).
Definition modify (f : DB → DB) : M unit := λ db, Ok (tt, f db).

(** ** Writes *)

Definition set_invoices (g : gmap id Invoice → gmap id Invoice) (db : DB) : DB :=
  {| invoices := g (invoices db); invoiceLines := invoiceLines db;
     invoicePayments := invoicePayments db; timeEntries := timeEntries db;
     ticketParts := ticketParts db; tickets := tickets db; organizations := organizations db;
     partners := partners db; catalogItems := catalogItems db;
     catalogOrgPricing := catalogOrgPricing db;
     catalogBundleComponents := catalogBundleComponents db; sequences := sequences db;
     stripePayments := stripePayments db; stripeConnected := stripeConnected db;
     nextId := nextId db; events := events db |}.

Definition set_lines (g : gmap id Line → gmap id Line) (db : DB) : DB :=
  {| invoices := invoices db; invoiceLines := g (invoiceLines db);
     invoicePayments := invoicePayments db; timeEntries := timeEntries db;
     ticketParts := ticketParts db; tickets := tickets db; organizations := organizations db;
     partners := partners db; catalogItems := catalogItems db;
     catalogOrgPricing := catalogOrgPricing db;
     catalogBundleComponents := catalogBundleComponents db; sequences := sequences db;
     stripePayments := stripePayments db; stripeConnected := stripeConnected db;
     nextId := nextId db; events := events db |}.

Definition set_payments (g : gmap id Payment → gmap id Payment) (db : DB) : DB :=
  {| invoices := invoices db; invoiceLines := invoiceLines db;
     invoicePayments := g (invoicePayments db); timeEntries := timeEntries db;
     ticketParts := ticketParts db; tickets := tickets db; organizations := organizations db;
     partners := partners db; catalogItems := catalogItems db;
     catalogOrgPricing := catalogOrgPricing db;
     catalogBundleComponents := catalogBundleComponents db; sequences := sequences db;
     stripePayments := stripePayments db; stripeConnected := stripeConnected db;
     nextId := nextId db; events := events db |}.

Definition set_sources (gt : gmap id TimeEntry → gmap id TimeEntry)
    (gp : gmap id TicketPart → gmap id TicketPart) (db : DB) : DB :=
  {| invoices := invoices db; invoiceLines := invoiceLines db;
     invoicePayments := invoicePayments db; timeEntries := gt (timeEntries db);
     ticketParts := gp (ticketParts db); tickets := tickets db;
     organizations := organizations db; partners := partners db;
     catalogItems := catalogItems db; catalogOrgPricing := catalogOrgPricing db;
     catalogBundleComponents := catalogBundleComponents db; sequences := sequences db;
     stripePayments := stripePayments db; stripeConnected := stripeConnected db;
     nextId := nextId db; events := events db |}.

Definition set_settings (go : gmap id Organization → gmap id Organization)
    (gp : gmap id Partner → gmap id Partner) (db : DB) : DB :=
  {| invoices := invoices db; invoiceLines := invoiceLines db;
     invoicePayments := invoicePayments db; timeEntries := timeEntries db;
     ticketParts := ticketParts db; tickets := tickets db;
     organizations := go (organizations db); partners := gp (partners db);
     catalogItems := catalogItems db; catalogOrgPricing := catalogOrgPricing db;
     catalogBundleComponents := catalogBundleComponents db; sequences := sequences db;
     stripePayments := stripePayments db; stripeConnected := stripeConnected db;
     nextId := nextId db; events := events db |}.

(** Counters, the id generator and the event bus. *)
Definition set_aux (gs : gmap (id * Z) Z → gmap (id * Z) Z) (n : id) (ev : list InvoiceEvent)
    (db : DB) : DB :=
  {| invoices := invoices db; invoiceLines := invoiceLines db;
     invoicePayments := invoicePayments db; timeEntries := timeEntries db;
     ticketParts := ticketParts db; tickets := tickets db; organizations := organizations db;
     partners := partners db; catalogItems := catalogItems db;
     catalogOrgPricing := catalogOrgPricing db;
     catalogBundleComponents := catalogBundleComponents db; sequences := gs (sequences db);
     stripePayments := stripePayments db; stripeConnected := stripeConnected db;
     nextId := n; events := ev |}.

Definition fresh : M id := λ db, Ok (nextId db, set_aux (λ s, s) (N.succ (nextId db)) (events db) db).

Definition emitInvoiceEvent (e : InvoiceEvent) : M unit :=
  modify (λ db, set_aux (λ s, s) (nextId db) (events db ++ [e]) db).

(** [INSERT ... RETURNING]: the new row's id. *)
Definition insert_invoice (inv : Invoice) : M id :=
  i ← fresh; modify (set_invoices <[i := inv]>);; mret i.
Definition insert_line (l : Line) : M id :=
  i ← fresh; modify (set_lines <[i := l]>);; mret i.
Definition insert_payment (p : Payment) : M id :=
  i ← fresh; modify (set_payments <[i := p]>);; mret i.

(** [UPDATE invoices SET ... WHERE id = i]. *)
Definition update_invoice (i : id) (f : Invoice → Invoice) : M unit :=
  modify (set_invoices (alter f i)).

(** [DELETE] with the cascades of the foreign keys: an invoice takes its lines and
    payments with it, a line its child lines. *)
Definition delete_invoice (i : id) : M unit :=
  modify (λ db, set_payments (filter (λ p, py_invoiceId p.2 ≠ i))
    (set_lines (filter (λ l, ln_invoiceId l.2 ≠ i)) (set_invoices (delete i) db))).
Definition delete_line (invoiceId lineId : id) : M unit :=
  modify (λ db,
    match invoiceLines db !! lineId with
    | Some l => if bool_decide (ln_invoiceId l = invoiceId)
                then set_lines (λ ls, filter (λ p, ln_parentLineId p.2 ≠ Some lineId)
                                        (delete lineId ls)) db
                else db
    | None => db
    end).

(** [UPDATE ... SET billing_status = s WHERE id IN ids]. *)
Definition time_with_billing (s : BillingStatus) (t : TimeEntry) : TimeEntry :=
  {| te_orgId := te_orgId t; te_ticketId := te_ticketId t;
     te_description := te_description t; te_durationMinutes := te_durationMinutes t;
     te_hourlyRate := te_hourlyRate t; te_isApproved := te_isApproved t;
     te_isBillable := te_isBillable t; te_billingStatus := s; te_endedAt := te_endedAt t |}.
Definition part_with_billing (s : BillingStatus) (p : TicketPart) : TicketPart :=
  {| tp_orgId := tp_orgId p; tp_ticketId := tp_ticketId p;
     tp_catalogItemId := tp_catalogItemId p; tp_description := tp_description p;
     tp_quantity := tp_quantity p; tp_unitPrice := tp_unitPrice p;
     tp_costBasis := tp_costBasis p; tp_isBillable := tp_isBillable p;
     tp_billingStatus := s; tp_createdAt := tp_createdAt p |}.
Definition alter_all {A} (f : A → A) (ids : list id) (m : gmap id A) : gmap id A :=
  foldr (alter f) m ids.
Definition set_billing (s : BillingStatus) (timeIds partIds : list id) : M unit :=
  modify (set_sources (alter_all (time_with_billing s) timeIds)
                      (alter_all (part_with_billing s) partIds)).

(** ** Reads *)

(** The lines of an invoice with their ids, in the order the table yields them. *)
Definition lines_of (db : DB) (i : id) : list (id * Line) :=
  filter (λ l, ln_invoiceId l.2 = i) (map_to_list (invoiceLines db)).
Definition payments_of (db : DB) (i : id) : list (id * Payment) :=
  filter (λ p, py_invoiceId p.2 = i) (map_to_list (invoicePayments db)).
