(* ===== verification/Invoices.v ===== *)
(** * The invoice service ([services/invoiceService.ts], [invoiceAssembly.ts],
    [invoiceNumbers.ts], [sellerSnapshot.ts], and the pricing reads of
    [catalogService.ts]).

    One definition per handler, in the monad of [InvoiceDb]; [now] is the clock in
    milliseconds.  Quantities and prices of a request are given as the texts
    [String(n)] of their numbers. *)

From S2P Require Import Prelude JsNum Money Calendar InvoiceDb.

Open Scope Z_scope.

(** ** Guards *)

Record InvoiceActor := {
  ac_userId : option id; ac_partnerId : option id; ac_accessibleOrgIds : option (list id) }.

Definition requirePartner (actor : InvoiceActor) : M id :=
  match ac_partnerId actor with Some p => mret p | None => throw PARTNER_UNRESOLVABLE end.

Definition org_accessible (actor : InvoiceActor) (orgId : id) : bool :=
  match ac_accessibleOrgIds actor with None => true | Some l => bool_decide (orgId ∈ l) end.

Definition requireOrgAccess (actor : InvoiceActor) (orgId : id) : M unit :=
  require (org_accessible actor orgId) ORG_DENIED.

Definition getOwnedInvoiceOr404 (i : id) : M Invoice :=
  db ← get_db;
  match invoices db !! i with Some inv => mret inv | None => throw INVOICE_NOT_FOUND end.

Definition assertDraft (inv : Invoice) : M unit :=
  require (bool_decide (iv_status inv = draft)) NOT_A_DRAFT.

(** The three guards every draft edit starts with. *)
Definition editableDraft (i : id) (actor : InvoiceActor) : M Invoice :=
  inv ← getOwnedInvoiceOr404 i; assertDraft inv;; requireOrgAccess actor (iv_orgId inv);;
  mret inv.

(** ** Field updates *)

Definition with_amounts (f : Amounts → Amounts) (now : Z) (i : Invoice) : Invoice :=
  {| iv_origin := iv_origin i; iv_header := iv_header i; iv_status := iv_status i;
     iv_snapshot := iv_snapshot i; iv_amounts := f (iv_amounts i);
     iv_stamps := {| st_firstViewedAt := st_firstViewedAt (iv_stamps i);
       st_viewedAt := st_viewedAt (iv_stamps i); st_paidAt := st_paidAt (iv_stamps i);
       st_markedOverdueAt := st_markedOverdueAt (iv_stamps i);
       st_voidedAt := st_voidedAt (iv_stamps i); st_voidReason := st_voidReason (iv_stamps i);
       st_replacedBy := st_replacedBy (iv_stamps i); st_updatedAt := now |} |}.

Definition with_header (f : Header → Header) (now : Z) (i : Invoice) : Invoice :=
  let i := with_amounts (λ a, a) now i in
  {| iv_origin := iv_origin i; iv_header := f (iv_header i); iv_status := iv_status i;
     iv_snapshot := iv_snapshot i; iv_amounts := iv_amounts i; iv_stamps := iv_stamps i |}.

Definition with_status (s : InvoiceStatus) (f : Stamps → Stamps) (i : Invoice) : Invoice :=
  {| iv_origin := iv_origin i; iv_header := iv_header i; iv_status := s;
     iv_snapshot := iv_snapshot i; iv_amounts := iv_amounts i; iv_stamps := f (iv_stamps i) |}.

(** The column defaults of a new invoice. *)
Definition new_invoice (partnerId orgId : id) (siteId : option id) (notes terms : text)
    (createdBy replaces : option id) (now : Z) : Invoice :=
  {| iv_origin := {| or_partnerId := partnerId; or_orgId := orgId; or_createdBy := createdBy;
                     or_replaces := replaces; or_createdAt := now |};
     iv_header := {| hd_siteId := siteId; hd_notes := notes; hd_dueDate := None;
                     hd_termsAndConditions := terms |};
     iv_status := draft;
     iv_snapshot := {| sn_invoiceNumber := None; sn_currencyCode := "USD"; sn_issueDate := None;
                       sn_billToName := None; sn_billToAddress := None; sn_billToTaxId := None;
                       sn_billToTaxExempt := false; sn_terms := None; sn_seller := None |};
     iv_amounts := {| am_subtotal := "0.00"; am_taxRate := None; am_taxTotal := "0.00";
                      am_total := "0.00"; am_amountPaid := "0.00"; am_balance := "0.00" |};
     iv_stamps := {| st_firstViewedAt := None; st_viewedAt := None; st_paidAt := None;
                     st_markedOverdueAt := None; st_voidedAt := None; st_voidReason := None;
                     st_replacedBy := None; st_updatedAt := now |} |}.

(** ** Drafts *)

Definition createManualInvoice (orgId : id) (siteId : option id) (notes terms : text)
    (actor : InvoiceActor) (now : Z) : M id :=
  partnerId ← requirePartner actor;
  requireOrgAccess actor orgId;;
  insert_invoice (new_invoice partnerId orgId siteId notes terms (ac_userId actor) None now).

Definition effectiveRateForOrg (db : DB) (orgId : id) : string :=
  let org := organizations db !! orgId in
  resolveEffectiveTaxRate (default false (og_taxExempt <$> org)) (org ≫= og_taxRate) None.

Definition totals_line (l : Line) : TotalsLine :=
  {| lineTotal := ln_lineTotal l; taxable := ln_taxable l;
     customerVisible := ln_customerVisible l |}.
Definition totals_lines (db : DB) (i : id) : list TotalsLine := (totals_line ∘ snd) <$> lines_of db i.

(** [taxRateOverride] is [None] when the argument is omitted. *)
Definition recomputeInvoiceTotals (i : id) (taxRateOverride : option (option string)) (now : Z)
    : M unit :=
  inv ← getOwnedInvoiceOr404 i; assertDraft inv;;
  db ← get_db;
  let taxRate := match taxRateOverride with
                 | Some r => r
                 | None => Some (effectiveRateForOrg db (iv_orgId inv))
                 end in
  let totals := computeInvoiceTotals (totals_lines db i) taxRate in
  let balance := fromCents (nsub (of_int (toCents (Some (t_total totals))))
                                 (of_int (toCents (Some (am_amountPaid (iv_amounts inv)))))) in
  update_invoice i (with_amounts (λ a,
    {| am_subtotal := t_subtotal totals; am_taxRate := taxRate;
       am_taxTotal := t_taxTotal totals; am_total := t_total totals;
       am_amountPaid := am_amountPaid a; am_balance := balance |}) now).

Definition max_sort (db : DB) (i : id) : option Z :=
  foldr (λ l m, Some (match m with Some m => Z.max (ln_sortOrder l.2) m
                                 | None => ln_sortOrder l.2 end)) None (lines_of db i).

(** [spec] is the line but for its sort order. *)
Definition insertLineAndRecompute (i : id) (spec : Z → Line) (now : Z) : M (id * Z) :=
  db ← get_db;
  let nextSort := default 0 (max_sort db i) + 1 in
  line ← insert_line (spec nextSort);
  recomputeInvoiceTotals i None now;;
  mret (line, nextSort).

(** A line of invoice [i] without parent, ticket or allocation. *)
Definition plain_line (i orgId : id) (src : SourceType) (sourceId catalogItemId : option id)
    (description quantity unitPrice : string) (costBasis : text) (taxable : bool)
    (lineTotal : string) (sortOrder : Z) : Line :=
  {| ln_invoiceId := i; ln_orgId := orgId; ln_sourceType := src; ln_sourceId := sourceId;
     ln_catalogItemId := catalogItemId; ln_parentLineId := None; ln_ticketId := None;
     ln_description := description; ln_quantity := quantity; ln_unitPrice := unitPrice;
     ln_costBasis := costBasis; ln_revenueAllocation := None; ln_taxable := taxable;
     ln_customerVisible := true; ln_lineTotal := lineTotal; ln_isUnapprovedTime := false;
     ln_sortOrder := sortOrder |}.

Definition addManualLine (i : id) (description quantity unitPrice : string) (costBasis : text)
    (taxable : bool) (actor : InvoiceActor) (now : Z) : M (id * Z) :=
  inv ← editableDraft i actor;
  insertLineAndRecompute i
    (plain_line i (iv_orgId inv) src_manual None None description quantity
       (toFixed 2 (Number unitPrice)) ((λ c, toFixed 2 (Number c)) <$> costBasis) taxable
       (computeLineTotal quantity unitPrice)) now.

(** [catalogService.ts]: the item of the actor's partner, with the organisation's price. *)
Definition getOwnedItemOr404 (itemId partnerId : id) : M CatalogRow :=
  db ← get_db;
  match catalogItems db !! itemId with
  | Some r => if bool_decide (ct_partnerId r = partnerId) then mret r else throw ITEM_NOT_FOUND
  | None => throw ITEM_NOT_FOUND
  end.

Definition resolvePrice (itemId orgId : id) (actor : InvoiceActor) : M ResolvedPrice :=
  partnerId ← requirePartner actor;
  requireOrgAccess actor orgId;;
  row ← getOwnedItemOr404 itemId partnerId;
  db ← get_db;
  mret (resolvePriceFrom (ct_item row) (catalogOrgPricing db !! (itemId, orgId))).

(** The components of a bundle joined with their items. *)
Definition bundle_components (db : DB) (bundleId : id) : list (ComponentRow * CatalogRow) :=
  omap (λ c, if bool_decide (co_bundleItemId c = bundleId)
             then pair c <$> catalogItems db !! co_componentItemId c else None)
       (catalogBundleComponents db).

Definition computeBundleEconomics (bundleId orgId : id) (actor : InvoiceActor)
    : M BundleEconomics :=
  partnerId ← requirePartner actor;
  requireOrgAccess actor orgId;;
  bundle ← getOwnedItemOr404 bundleId partnerId;
  require (ct_isBundle bundle) NOT_A_BUNDLE;;
  price ← resolvePrice bundleId orgId actor;
  db ← get_db;
  mret (computeBundleEconomicsFrom (rp_unitPrice price)
    ((λ c, {| bc_quantity := co_quantity c.1; bc_costBasis := ci_costBasis (ct_item c.2);
              bc_revenueAllocation := co_revenueAllocation c.1 |})
     <$> bundle_components db bundleId)).

Definition addCatalogLine (i itemId : id) (quantity : string) (actor : InvoiceActor) (now : Z)
    : M (id * Z) :=
  inv ← editableDraft i actor;
  resolved ← resolvePrice itemId (iv_orgId inv) actor;
  db ← get_db;
  let row := catalogItems db !! itemId in
  require (negb (default false (ct_isBundle <$> row))) INVALID_STATE;;
  insertLineAndRecompute i
    (plain_line i (iv_orgId inv) src_catalog None (Some itemId)
       (default "Catalog item"%string (ct_name <$> row)) quantity (rp_unitPrice resolved)
       (rp_costBasis resolved) (rp_taxable resolved)
       (computeLineTotal quantity (rp_unitPrice resolved))) now.

Definition component_line (i orgId parent : id) (parentSort : Z) (c : ComponentRow * CatalogRow)
    : Line :=
  {| ln_invoiceId := i; ln_orgId := orgId; ln_sourceType := src_bundle; ln_sourceId := None;
     ln_catalogItemId := Some (co_componentItemId c.1); ln_parentLineId := Some parent;
     ln_ticketId := None; ln_description := ct_name c.2; ln_quantity := co_quantity c.1;
     ln_unitPrice := "0.00"; ln_costBasis := ci_costBasis (ct_item c.2);
     ln_revenueAllocation := co_revenueAllocation c.1; ln_taxable := false;
     ln_customerVisible := co_showOnInvoice c.1; ln_lineTotal := "0.00";
     ln_isUnapprovedTime := false; ln_sortOrder := parentSort |}.

Fixpoint insert_lines (ls : list Line) : M (list id) :=
  match ls with
  | [] => mret []
  | l :: ls => i ← insert_line l; rest ← insert_lines ls; mret (i :: rest)
  end.

Definition addBundleLine (i bundleId : id) (quantity : string) (actor : InvoiceActor) (now : Z)
    : M (id * Z) :=
  inv ← editableDraft i actor;
  econ ← computeBundleEconomics bundleId (iv_orgId inv) actor;
  db ← get_db;
  parent ← insertLineAndRecompute i
    (plain_line i (iv_orgId inv) src_bundle None (Some bundleId)
       (default "Bundle"%string (ct_name <$> catalogItems db !! bundleId)) quantity
       (be_headlinePrice econ) (Some (be_totalCost econ)) true
       (computeLineTotal quantity (be_headlinePrice econ))) now;
  insert_lines (component_line i (iv_orgId inv) parent.1 parent.2 <$> bundle_components db bundleId);;
  recomputeInvoiceTotals i None now;;
  mret parent.

(** [a < b] on numbers is false when either is NaN. *)
Definition num_neg (x : num) : bool :=
  match x with Some q => negb (Qle_bool 0 q) | None => false end.

Definition addContractLine (i : id) (description quantity unitPrice : string) (taxable : bool)
    (catalogItemId sourceId : option id) (actor : InvoiceActor) (now : Z) : M (id * Z) :=
  inv ← editableDraft i actor;
  priced ← match catalogItemId with
    | Some itemId =>
        resolved ← resolvePrice itemId (iv_orgId inv) actor;
        mret (rp_unitPrice resolved, rp_taxable resolved, rp_costBasis resolved)
    | None =>
        let price := toFixed 2 (Number unitPrice) in
        require (negb (num_neg (Number quantity) || num_neg (Number price))) INVALID_AMOUNT;;
        mret (price, taxable, None)
    end;
  let '(price, tax, cost) := priced in
  insertLineAndRecompute i
    (plain_line i (iv_orgId inv) src_contract sourceId catalogItemId description quantity price
       cost tax (computeLineTotal quantity price)) now.

Record LinePatch := {
  lp_description : text; lp_quantity : text; lp_unitPrice : text; lp_taxable : option bool;
  lp_customerVisible : option bool }.

Definition patched_line (p : LinePatch) (l : Line) : Line :=
  let quantity := default (ln_quantity l) (lp_quantity p) in
  let unitPrice := match lp_unitPrice p with
                   | Some x => toFixed 2 (Number x) | None => ln_unitPrice l end in
  {| ln_invoiceId := ln_invoiceId l; ln_orgId := ln_orgId l; ln_sourceType := ln_sourceType l;
     ln_sourceId := ln_sourceId l; ln_catalogItemId := ln_catalogItemId l;
     ln_parentLineId := ln_parentLineId l; ln_ticketId := ln_ticketId l;
     ln_description := default (ln_description l) (lp_description p);
     ln_quantity := quantity; ln_unitPrice := unitPrice; ln_costBasis := ln_costBasis l;
     ln_revenueAllocation := ln_revenueAllocation l;
     ln_taxable := default (ln_taxable l) (lp_taxable p);
     ln_customerVisible := default (ln_customerVisible l) (lp_customerVisible p);
     ln_lineTotal := computeLineTotal quantity unitPrice;
     ln_isUnapprovedTime := ln_isUnapprovedTime l; ln_sortOrder := ln_sortOrder l |}.

Definition updateLine (i lineId : id) (p : LinePatch) (actor : InvoiceActor) (now : Z)
    : M Invoice :=
  editableDraft i actor;;
  db ← get_db;
  match invoiceLines db !! lineId with
  | Some l =>
      require (bool_decide (ln_invoiceId l = i)) LINE_NOT_FOUND;;
      modify (set_lines (alter (patched_line p) lineId));;
      recomputeInvoiceTotals i None now;;
      getOwnedInvoiceOr404 i
  | None => throw LINE_NOT_FOUND
  end.

Definition removeLine (i lineId : id) (actor : InvoiceActor) (now : Z) : M Invoice :=
  editableDraft i actor;;
  delete_line i lineId;;
  recomputeInvoiceTotals i None now;;
  getOwnedInvoiceOr404 i.

Definition deleteDraftInvoice (i : id) (actor : InvoiceActor) : M unit :=
  editableDraft i actor;; delete_invoice i.

(** [undefined] fields keep the column; [siteId] and the terms may be set to null. *)
Record HeaderPatch := {
  hp_notes : text; hp_siteId : option (option id); hp_dueDate : text;
  hp_termsAndConditions : option text }.

Definition updateInvoice (i : id) (p : HeaderPatch) (actor : InvoiceActor) (now : Z)
    : M Invoice :=
  editableDraft i actor;;
  update_invoice i (with_header (λ h,
    {| hd_siteId := default (hd_siteId h) (hp_siteId p);
       hd_notes := or_else (hp_notes p) (hd_notes h);
       hd_dueDate := or_else (hp_dueDate p) (hd_dueDate h);
       hd_termsAndConditions := default (hd_termsAndConditions h) (hp_termsAndConditions p) |}) now);;
  getOwnedInvoiceOr404 i.

(** ** Reads *)

(** [ORDER BY sort_order]. *)
Fixpoint insert_sorted {A} (le : A → A → bool) (x : A) (l : list A) : list A :=
  match l with
  | [] => [x]
  | y :: l' => if le x y then x :: l else y :: insert_sorted le x l'
  end.
Definition order_by {A} (le : A → A → bool) (l : list A) : list A := foldr (insert_sorted le) [] l.

Definition by_sortOrder (a b : id * Line) : bool := ln_sortOrder a.2 <=? ln_sortOrder b.2.

Record InvoiceView := {
  vw_invoice : Invoice; vw_lines : list (id * Line); vw_stripeConnected : bool }.

Definition getInvoice (i : id) (actor : InvoiceActor) : M InvoiceView :=
  inv ← getOwnedInvoiceOr404 i; requireOrgAccess actor (iv_orgId inv);;
  db ← get_db;
  mret {| vw_invoice := inv; vw_lines := order_by by_sortOrder (lines_of db i);
          vw_stripeConnected := default false (stripeConnected db !! iv_partnerId inv) |}.

Definition getCustomerInvoice (i : id) (orgId : option id) : M (Invoice * list (id * Line)) :=
  inv ← getOwnedInvoiceOr404 i;
  require (match orgId with Some o => bool_decide (iv_orgId inv = o) | None => true end)
    INVOICE_NOT_FOUND;;
  db ← get_db;
  mret (inv, order_by by_sortOrder
    (filter (λ l, ln_customerVisible l.2 = true) (lines_of db i))).

(** Descending [(createdAt, id)]. *)
Definition invoice_before (a b : id * Invoice) : bool :=
  let ca := or_createdAt (iv_origin a.2) in
  let cb := or_createdAt (iv_origin b.2) in
  (cb <? ca) || ((ca =? cb) && (b.1 <? a.1)%N).

Definition listInvoices (orgId : option id) (status : option InvoiceStatus) (limit : nat)
    (cursor : option id) (actor : InvoiceActor) : M (list (id * Invoice)) :=
  match orgId with Some o => requireOrgAccess actor o | None => mret tt end;;
  db ← get_db;
  let matches (r : id * Invoice) : bool :=
    match orgId with Some o => bool_decide (iv_orgId r.2 = o) | None => true end &&
    match status with Some s => bool_decide (iv_status r.2 = s) | None => true end &&
    match cursor ≫= λ c, pair c <$> invoices db !! c with
    | Some c => invoice_before c r
    | None => true
    end in
  mret (take limit (order_by invoice_before
    (filter (λ r, matches r = true) (map_to_list (invoices db))))).

(** ** Billing settings *)

Definition null_or {A} (patch : option (option A)) (old : option A) : option A :=
  default old patch.

Record AddressPatch := {
  ap_line1 : option text; ap_line2 : option text; ap_city : option text;
  ap_region : option text; ap_postalCode : option text; ap_country : option text }.

Definition patch_address (p : AddressPatch) (a : Address) : Address :=
  {| ad_line1 := null_or (ap_line1 p) (ad_line1 a); ad_line2 := null_or (ap_line2 p) (ad_line2 a);
     ad_city := null_or (ap_city p) (ad_city a); ad_region := null_or (ap_region p) (ad_region a);
     ad_postalCode := null_or (ap_postalCode p) (ad_postalCode a);
     ad_country := null_or (ap_country p) (ad_country a) |}.

Record PartnerPatch := {
  pp_currencyCode : string; pp_defaultTaxRate : option (option num);
  pp_invoiceNumberPrefix : string; pp_invoiceTermsDays : Z; pp_invoiceFooter : option text;
  pp_billingCompanyName : option text; pp_billingPhone : option text;
  pp_billingWebsite : option text; pp_address : AddressPatch;
  pp_billingTermsAndConditions : option text }.

(** Rates are stored with three decimals. *)
Definition rate_column (r : option (option num)) (old : text) : text :=
  match r with None => old | Some None => None | Some (Some n) => Some (toFixed 3 n) end.

Definition updatePartnerBillingSettings (p : PartnerPatch) (actor : InvoiceActor) : M Partner :=
  partnerId ← requirePartner actor;
  db ← get_db;
  match partners db !! partnerId with
  | None => throw PARTNER_UNRESOLVABLE
  | Some r =>
      let row := {| pa_name := pa_name r; pa_currencyCode := pp_currencyCode p;
        pa_defaultTaxRate := rate_column (pp_defaultTaxRate p) (pa_defaultTaxRate r);
        pa_invoiceNumberPrefix := pp_invoiceNumberPrefix p;
        pa_invoiceTermsDays := pp_invoiceTermsDays p;
        pa_invoiceFooter := null_or (pp_invoiceFooter p) (pa_invoiceFooter r);
        pa_billingCompanyName := null_or (pp_billingCompanyName p) (pa_billingCompanyName r);
        pa_billingEmail := pa_billingEmail r;
        pa_billingPhone := null_or (pp_billingPhone p) (pa_billingPhone r);
        pa_billingWebsite := null_or (pp_billingWebsite p) (pa_billingWebsite r);
        pa_billing := patch_address (pp_address p) (pa_billing r);
        pa_billingTermsAndConditions :=
          null_or (pp_billingTermsAndConditions p) (pa_billingTermsAndConditions r) |} in
      modify (set_settings (λ m, m) <[partnerId := row]>);; mret row
  end.

Record OrgPatch := {
  op_taxId : option text; op_taxExempt : option bool; op_taxRate : option (option num);
  op_address : AddressPatch }.

Definition updateOrgBillingSettings (orgId : id) (p : OrgPatch) (actor : InvoiceActor)
    : M Organization :=
  requireOrgAccess actor orgId;;
  db ← get_db;
  match organizations db !! orgId with
  | None => throw INVOICE_NOT_FOUND
  | Some r =>
      let row := {| og_name := og_name r; og_taxId := null_or (op_taxId p) (og_taxId r);
        og_taxExempt := default (og_taxExempt r) (op_taxExempt p);
        og_taxRate := rate_column (op_taxRate p) (og_taxRate r);
        og_billing := patch_address (op_address p) (og_billing r) |} in
      modify (set_settings <[orgId := row]> (λ m, m));; mret row
  end.

(** ** Assembly *)

Record DraftLineSpec := {
  sp_sourceType : SourceType; sp_sourceId : option id; sp_catalogItemId : option id;
  sp_ticketId : option id; sp_description : string; sp_quantity : string;
  sp_unitPrice : string; sp_costBasis : text; sp_taxable : bool; sp_customerVisible : bool;
  sp_lineTotal : string; sp_isUnapprovedTime : bool }.

Definition timeEntryToLineSpec (r : id * TimeEntry) : DraftLineSpec :=
  let t := r.2 in
  let hours := toFixed 2 (ndiv (nint (default 0 (te_durationMinutes t))) (nint 60)) in
  let unitPrice := match te_hourlyRate t with
                   | Some h => toFixed 2 (Number h) | None => "0.00"%string end in
  let description := trim <$> te_description t in
  {| sp_sourceType := src_time_entry; sp_sourceId := Some r.1; sp_catalogItemId := None;
     sp_ticketId := te_ticketId t;
     sp_description := if truthy description then default ""%string description else "Labor"%string;
     sp_quantity := hours; sp_unitPrice := unitPrice; sp_costBasis := None; sp_taxable := false;
     sp_customerVisible := true; sp_lineTotal := computeLineTotal hours unitPrice;
     sp_isUnapprovedTime := negb (te_isApproved t) |}.

Definition ticketPartToLineSpec (r : id * TicketPart) : DraftLineSpec :=
  let p := r.2 in
  {| sp_sourceType := src_part; sp_sourceId := Some r.1; sp_catalogItemId := tp_catalogItemId p;
     sp_ticketId := tp_ticketId p; sp_description := tp_description p;
     sp_quantity := tp_quantity p; sp_unitPrice := tp_unitPrice p; sp_costBasis := tp_costBasis p;
     sp_taxable := true; sp_customerVisible := true;
     sp_lineTotal := computeLineTotal (tp_quantity p) (tp_unitPrice p);
     sp_isUnapprovedTime := false |}.

Definition time_billable (t : TimeEntry) : bool :=
  te_isBillable t && bool_decide (te_billingStatus t = not_billed) &&
  bool_decide (te_billingStatus t ≠ contract) && bool_decide (te_billingStatus t ≠ no_charge) &&
  bool_decide (is_Some (te_endedAt t)).
Definition part_billable (p : TicketPart) : bool :=
  tp_isBillable p && bool_decide (tp_billingStatus p = not_billed) &&
  bool_decide (tp_billingStatus p ≠ contract) && bool_decide (tp_billingStatus p ≠ no_charge).

Definition ended_in (from to : Z) (t : TimeEntry) : bool :=
  match te_endedAt t with Some e => (from <=? e) && (e <=? to) | None => false end.

Definition gatherOrgTimeEntries (db : DB) (orgId : id) (from to : Z) : list DraftLineSpec :=
  timeEntryToLineSpec <$> filter (λ r, te_orgId r.2 = orgId ∧ time_billable r.2 = true ∧
    ended_in from to r.2 = true)
    (map_to_list (timeEntries db)).

Definition gatherOrgParts (db : DB) (orgId : id) (from to : Z) : list DraftLineSpec :=
  ticketPartToLineSpec <$> filter (λ r, tp_orgId r.2 = orgId ∧ part_billable r.2 = true ∧
    from <= tp_createdAt r.2 <= to) (map_to_list (ticketParts db)).

Definition gatherTicketBillables (db : DB) (ticketId : id) : list DraftLineSpec :=
  (timeEntryToLineSpec <$> filter (λ r, te_ticketId r.2 = Some ticketId ∧ time_billable r.2 = true)
    (map_to_list (timeEntries db))) ++
  (ticketPartToLineSpec <$> filter (λ r, tp_ticketId r.2 = Some ticketId ∧ part_billable r.2 = true)
    (map_to_list (ticketParts db))).

Definition spec_line (i orgId : id) (sort : nat) (s : DraftLineSpec) : Line :=
  {| ln_invoiceId := i; ln_orgId := orgId; ln_sourceType := sp_sourceType s;
     ln_sourceId := sp_sourceId s; ln_catalogItemId := sp_catalogItemId s;
     ln_parentLineId := None; ln_ticketId := sp_ticketId s; ln_description := sp_description s;
     ln_quantity := sp_quantity s; ln_unitPrice := sp_unitPrice s; ln_costBasis := sp_costBasis s;
     ln_revenueAllocation := None; ln_taxable := sp_taxable s;
     ln_customerVisible := sp_customerVisible s; ln_lineTotal := sp_lineTotal s;
     ln_isUnapprovedTime := sp_isUnapprovedTime s; ln_sortOrder := Z.of_nat sort |}.

Definition materializeLines (i orgId : id) (specs : list DraftLineSpec) : M unit :=
  insert_lines (imap (spec_line i orgId) specs);; mret tt.

(** Midnight and the last second of an ISO day, in milliseconds; an invalid day is
    [None]. *)
Definition day_ms (iso : string) (seconds : Z) : option Z :=
  let '(y, m, d) := parts iso in
  y ← y; m ← m; d ← d; day ← DateUTC y (m - 1) d; Some ((day * 86400 + seconds) * 1000).

(** The common end of both assembly handlers. *)
Definition assemble_draft (partnerId orgId : id) (siteId : option id)
    (specs : list DraftLineSpec) (actor : InvoiceActor) (now : Z) : M InvoiceView :=
  require (negb (Nat.eqb (length specs) 0)) NOTHING_TO_INVOICE;;
  i ← insert_invoice (new_invoice partnerId orgId siteId None None (ac_userId actor) None now);
  materializeLines i orgId specs;;
  recomputeInvoiceTotals i None now;;
  getInvoice i actor.

Definition assembleDraftFromOrg (orgId : id) (siteId : option id) (from to : string)
    (actor : InvoiceActor) (now : Z) : M InvoiceView :=
  partnerId ← requirePartner actor;
  requireOrgAccess actor orgId;;
  db ← get_db;
  match day_ms from 0, day_ms to 86399 with
  | Some f, Some t =>
      assemble_draft partnerId orgId siteId
        (gatherOrgTimeEntries db orgId f t ++ gatherOrgParts db orgId f t) actor now
  | _, _ => throw RANGE_ERROR
  end.

Definition assembleDraftFromTicket (ticketId : id) (actor : InvoiceActor) (now : Z)
    : M InvoiceView :=
  partnerId ← requirePartner actor;
  db ← get_db;
  match tickets db !! ticketId with
  | None => throw INVOICE_NOT_FOUND
  | Some orgId =>
      requireOrgAccess actor orgId;;
      assemble_draft partnerId orgId None (gatherTicketBillables db ticketId) actor now
  end.

(** ** Issue *)

(** [invoiceNumbers.ts]. *)
Definition formatInvoiceNumber (prefix : string) (year counter : Z) : string :=
  prefix +:+ "-" +:+ print_Z year +:+ "-" +:+ of_chars (pad 4 (chars (print_Z counter))).

(** The counter upsert, with its sanity check; used by issuing and by the standalone
    allocator. *)
Definition allocateInvoiceCounter (partnerId : id) (year : Z) : M Z :=
  db ← get_db;
  let counter := match sequences db !! (partnerId, year) with Some c => c + 1 | None => 1 end in
  modify (λ db, set_aux <[(partnerId, year) := counter]> (nextId db) (events db) db);;
  require (1 <=? counter) NUMBER_ALLOCATION_FAILED;;
  mret counter.

Definition no_address : Address :=
  {| ad_line1 := None; ad_line2 := None; ad_city := None; ad_region := None;
     ad_postalCode := None; ad_country := None |}.

Definition buildSellerSnapshot (partner : option Partner) : SellerSnapshot :=
  {| ss_name := or_else (partner ≫= pa_billingCompanyName) (pa_name <$> partner);
     ss_address := default no_address (pa_billing <$> partner);
     ss_phone := partner ≫= pa_billingPhone; ss_email := partner ≫= pa_billingEmail;
     ss_website := partner ≫= pa_billingWebsite |}.

(** The ids of the sources of one type among the lines. *)
Definition source_ids (src : SourceType) (ls : list (id * Line)) : list id :=
  omap (λ l, if bool_decide (ln_sourceType l.2 = src) then ln_sourceId l.2 else None) ls.

Definition time_billed (db : DB) (t : id) : bool :=
  match timeEntries db !! t with
  | Some e => bool_decide (te_billingStatus e ≠ not_billed) | None => false end.
Definition part_billed (db : DB) (p : id) : bool :=
  match ticketParts db !! p with
  | Some e => bool_decide (tp_billingStatus e ≠ not_billed) | None => false end.

Definition utc_date (ms : Z) : string := utcDay (ms / 86400000).

(** The row [issueInvoice] writes. *)
Definition issued_row (org : option Organization) (partner : option Partner) (taxRate : string)
    (totals : Totals) (number : string) (now : Z) (inv : Invoice) : Invoice :=
  {| iv_origin := iv_origin inv;
     iv_header := {| hd_siteId := hd_siteId (iv_header inv); hd_notes := hd_notes (iv_header inv);
       hd_dueDate := Some (utc_date (now + default 30 (pa_invoiceTermsDays <$> partner) * 86400000));
       hd_termsAndConditions := or_else (hd_termsAndConditions (iv_header inv))
                                        (partner ≫= pa_billingTermsAndConditions) |};
     iv_status := sent;
     iv_snapshot := {| sn_invoiceNumber := Some number;
       sn_currencyCode := default "USD"%string (pa_currencyCode <$> partner);
       sn_issueDate := Some (utc_date now); sn_billToName := og_name <$> org;
       sn_billToAddress := Some (default no_address (og_billing <$> org));
       sn_billToTaxId := org ≫= og_taxId;
       sn_billToTaxExempt := default false (og_taxExempt <$> org);
       sn_terms := partner ≫= pa_invoiceFooter; sn_seller := Some (buildSellerSnapshot partner) |};
     iv_amounts := {| am_subtotal := t_subtotal totals; am_taxRate := Some taxRate;
       am_taxTotal := t_taxTotal totals; am_total := t_total totals;
       am_amountPaid := am_amountPaid (iv_amounts inv); am_balance := t_total totals |};
     iv_stamps := iv_stamps (with_amounts (λ a, a) now inv) |}.

(** The PDF job at the end is queued outside the database and cannot fail the handler. *)
Definition issueInvoice (i : id) (actor : InvoiceActor) (now : Z) : M Invoice :=
  inv ← editableDraft i actor;
  db ← get_db;
  let ls := lines_of db i in
  require (existsb (λ l, ln_customerVisible l.2) ls) NO_VISIBLE_LINES;;
  let timeIds := source_ids src_time_entry ls in
  let partIds := source_ids src_part ls in
  let org := organizations db !! iv_orgId inv in
  let partner := partners db !! iv_partnerId inv in
  require (negb (existsb (time_billed db) timeIds)) SOURCE_ALREADY_BILLED;;
  require (negb (existsb (part_billed db) partIds)) SOURCE_ALREADY_BILLED;;
  let taxRate := resolveEffectiveTaxRate (default false (og_taxExempt <$> org))
                   (org ≫= og_taxRate) (partner ≫= pa_defaultTaxRate) in
  let year := getUTCFullYear (now / 86400000) in
  counter ← allocateInvoiceCounter (iv_partnerId inv) year;
  let number := formatInvoiceNumber (default "INV"%string (pa_invoiceNumberPrefix <$> partner))
                  year counter in
  let totals := computeInvoiceTotals (totals_lines db i) (Some taxRate) in
  update_invoice i (issued_row org partner taxRate totals number now);;
  set_billing billed timeIds partIds;;
  emitInvoiceEvent (invoice_issued i);;
  getOwnedInvoiceOr404 i.

(** ** Payments *)

(** [deriveInvoiceStatus] of invoiceMath.ts. *)
Definition cents (s : string) : num := of_int (toCents (Some s)).
Definition num_le0 (x : num) : bool := match x with Some q => Qle_bool q 0 | None => false end.
Definition num_gt0 (x : num) : bool := match x with Some q => negb (Qle_bool q 0) | None => false end.

Definition deriveInvoiceStatus (voided issued : bool) (total amountPaid : string)
    (dueDate : option string) (asOf : Z) : InvoiceStatus :=
  if voided then void
  else if negb issued then draft
  else
    let balanceCents := nsub (cents total) (cents amountPaid) in
    if num_le0 balanceCents then paid
    else
      let pastDue := match dueDate ≫= λ d, day_ms d 86399 with
                     | Some t => t <? asOf | None => false end in
      if pastDue then overdue
      else if num_gt0 (cents amountPaid) then partially_paid else sent.

Definition sum_amounts (ps : list (id * Payment)) : num :=
  fold_left (λ s p, nadd s (cents (py_amount p.2))) ps (nint 0).

(** The row [recomputeInvoiceStatus] writes, from the payments it read. *)
Definition status_patch (ps : list (id * Payment)) (now : Z) (inv : Invoice) : Invoice :=
  let amountPaid := fromCents (sum_amounts ps) in
  let balance := fromCents (nsub (cents (iv_total inv)) (cents amountPaid)) in
  let status := deriveInvoiceStatus (bool_decide (iv_voidedAt inv ≠ None))
                  (bool_decide (iv_number inv ≠ None)) (iv_total inv) amountPaid
                  (hd_dueDate (iv_header inv)) now in
  with_status status
    (λ s, {| st_firstViewedAt := st_firstViewedAt s; st_viewedAt := st_viewedAt s;
             st_paidAt := if bool_decide (status = paid)
                          then or_else (st_paidAt s) (Some now) else st_paidAt s;
             st_markedOverdueAt := if bool_decide (status = overdue)
                                   then or_else (st_markedOverdueAt s) (Some now)
                                   else st_markedOverdueAt s;
             st_voidedAt := st_voidedAt s; st_voidReason := st_voidReason s;
             st_replacedBy := st_replacedBy s; st_updatedAt := now |})
    (with_amounts (λ a,
       {| am_subtotal := am_subtotal a; am_taxRate := am_taxRate a; am_taxTotal := am_taxTotal a;
          am_total := am_total a; am_amountPaid := amountPaid; am_balance := balance |}) now inv).

Definition recomputeInvoiceStatus (i : id) (now : Z) : M unit :=
  inv ← getOwnedInvoiceOr404 i;
  db ← get_db;
  update_invoice i (λ _, status_patch (payments_of db i) now inv).

Record PaymentInput := {
  pi_amount : string; pi_method : PaymentMethod; pi_reference : text; pi_receivedAt : string;
  pi_note : text }.

(** [Math.round(Number(s) * 100)]. *)
Definition round_cents (s : string) : option Z := Math_round (nmul (Number s) (nint 100)).
Definition exceeds (a b : option Z) : bool :=
  match a, b with Some x, Some y => y <? x | _, _ => false end.

Definition recordPayment (i : id) (input : PaymentInput) (actor : InvoiceActor) (now : Z)
    : M (Invoice * id) :=
  inv ← getOwnedInvoiceOr404 i;
  requireOrgAccess actor (iv_orgId inv);;
  require (bool_decide (iv_status inv ≠ draft)) INVALID_STATE;;
  require (bool_decide (iv_status inv ≠ void)) INVALID_STATE;;
  require (negb (exceeds (round_cents (pi_amount input)) (round_cents (iv_balance inv)))) OVERPAYMENT;;
  payment ← insert_payment
    {| py_invoiceId := i; py_orgId := iv_orgId inv; py_amount := toFixed 2 (Number (pi_amount input));
       py_method := pi_method input; py_reference := pi_reference input;
       py_receivedAt := pi_receivedAt input; py_recordedBy := ac_userId actor;
       py_note := pi_note input |};
  recomputeInvoiceStatus i now;;
  emitInvoiceEvent (payment_recorded i payment);;
  updated ← getOwnedInvoiceOr404 i;
  (if bool_decide (iv_status updated = paid) then emitInvoiceEvent (invoice_paid i) else mret tt);;
  mret (updated, payment).

Definition voidPayment (paymentId : id) (actor : InvoiceActor) (now : Z) : M (Invoice * Payment) :=
  db ← get_db;
  match invoicePayments db !! paymentId with
  | None => throw PAYMENT_NOT_FOUND
  | Some pay =>
      requireOrgAccess actor (py_orgId pay);;
      modify (set_payments (delete paymentId));;
      recomputeInvoiceStatus (py_invoiceId pay) now;;
      inv ← getOwnedInvoiceOr404 (py_invoiceId pay);
      emitInvoiceEvent (payment_voided (py_invoiceId pay) paymentId);;
      mret (inv, pay)
  end.

(** The payments with whether each came through Stripe. *)
Definition listPayments (i : id) (actor : InvoiceActor) : M (list (id * Payment * bool)) :=
  inv ← getOwnedInvoiceOr404 i;
  requireOrgAccess actor (iv_orgId inv);;
  db ← get_db;
  let stripeIds := omap (λ r : id * option id * bool,
    if bool_decide (r.1.1 = i) && r.2 then r.1.2 else None) (stripePayments db) in
  mret ((λ p, (p, bool_decide (p.1 ∈ stripeIds)))
    <$> order_by (λ a b, str_le (py_receivedAt a.2) (py_receivedAt b.2)) (payments_of db i)).

(** ** Void and reissue *)

Definition clone_line (draftId : id) (parent : option id) (l : Line) : Line :=
  {| ln_invoiceId := draftId; ln_orgId := ln_orgId l; ln_sourceType := ln_sourceType l;
     ln_sourceId := ln_sourceId l; ln_catalogItemId := ln_catalogItemId l;
     ln_parentLineId := parent; ln_ticketId := ln_ticketId l; ln_description := ln_description l;
     ln_quantity := ln_quantity l; ln_unitPrice := ln_unitPrice l; ln_costBasis := ln_costBasis l;
     ln_revenueAllocation := ln_revenueAllocation l; ln_taxable := ln_taxable l;
     ln_customerVisible := ln_customerVisible l; ln_lineTotal := ln_lineTotal l;
     ln_isUnapprovedTime := ln_isUnapprovedTime l; ln_sortOrder := ln_sortOrder l |}.

Definition is_parent (l : id * Line) : bool := bool_decide (ln_parentLineId l.2 = None).

(** Parents first, then children with their parent remapped. *)
Definition clone_lines (draftId : id) (srcLines : list (id * Line)) : M unit :=
  let parents := filter (λ l, is_parent l = true) srcLines in
  let children := filter (λ l, is_parent l = false) srcLines in
  inserted ← insert_lines ((λ l, clone_line draftId None l.2) <$> parents);
  let oldToNew : gmap id id := list_to_map (zip (fst <$> parents) inserted) in
  insert_lines ((λ l, clone_line draftId (ln_parentLineId l.2 ≫= λ p, oldToNew !! p) l.2)
                <$> children);;
  mret tt.

Definition reissue_draft (i : id) (inv : Invoice) (actor : InvoiceActor) (now : Z) : M id :=
  draftId ← insert_invoice (new_invoice (iv_partnerId inv) (iv_orgId inv)
    (hd_siteId (iv_header inv)) (hd_notes (iv_header inv)) None (ac_userId actor) (Some i) now);
  update_invoice i (λ inv, with_status (iv_status inv)
    (λ s, {| st_firstViewedAt := st_firstViewedAt s; st_viewedAt := st_viewedAt s;
             st_paidAt := st_paidAt s; st_markedOverdueAt := st_markedOverdueAt s;
             st_voidedAt := st_voidedAt s; st_voidReason := st_voidReason s;
             st_replacedBy := Some draftId; st_updatedAt := st_updatedAt s |}) inv);;
  db ← get_db;
  clone_lines draftId (order_by by_sortOrder (lines_of db i));;
  mret draftId.

Definition voidInvoice (i : id) (reason : string) (reissue : bool) (actor : InvoiceActor)
    (now : Z) : M InvoiceView :=
  inv ← getOwnedInvoiceOr404 i;
  requireOrgAccess actor (iv_orgId inv);;
  require (bool_decide (iv_status inv ≠ draft)) INVALID_STATE;;
  require (bool_decide (iv_status inv ≠ void)) INVALID_STATE;;
  db ← get_db;
  let ls := lines_of db i in
  update_invoice i (with_status void
    (λ s, {| st_firstViewedAt := st_firstViewedAt s; st_viewedAt := st_viewedAt s;
             st_paidAt := st_paidAt s; st_markedOverdueAt := st_markedOverdueAt s;
             st_voidedAt := Some now; st_voidReason := Some reason;
             st_replacedBy := st_replacedBy s; st_updatedAt := now |}));;
  set_billing not_billed (source_ids src_time_entry ls) (source_ids src_part ls);;
  if reissue then
    draftId ← reissue_draft i inv actor now;
    emitInvoiceEvent (invoice_voided i);;
    recomputeInvoiceTotals draftId None now;;
    getInvoice draftId actor
  else
    emitInvoiceEvent (invoice_voided i);;
    getInvoice i actor.

(** ** Overdue sweep and views *)

(** [balance > 0] in SQL, on the decimal text. *)
Definition balance_positive (inv : Invoice) : bool := num_gt0 (Number (iv_balance inv)).

Definition sweep_due (today : string) (inv : Invoice) : bool :=
  (bool_decide (iv_status inv = sent) || bool_decide (iv_status inv = partially_paid)) &&
  match hd_dueDate (iv_header inv) with Some d => str_lt d today | None => false end &&
  balance_positive inv.

Definition mark_overdue (now : Z) : Invoice → Invoice :=
  with_status overdue
    (λ s, {| st_firstViewedAt := st_firstViewedAt s; st_viewedAt := st_viewedAt s;
             st_paidAt := st_paidAt s; st_markedOverdueAt := Some now;
             st_voidedAt := st_voidedAt s; st_voidReason := st_voidReason s;
             st_replacedBy := st_replacedBy s; st_updatedAt := now |}).

Fixpoint sweep_all (due : list id) (now : Z) : M unit :=
  match due with
  | [] => mret tt
  | i :: due => update_invoice i (mark_overdue now);; emitInvoiceEvent (invoice_overdue i);;
                sweep_all due now
  end.

Definition runOverdueSweep (asOf : Z) : M nat :=
  db ← get_db;
  let due := fst <$> filter (λ r, sweep_due (utc_date asOf) r.2 = true) (map_to_list (invoices db)) in
  sweep_all due asOf;; mret (length due).

Definition markViewed (i : id) (orgId : option id) (now : Z) : M unit :=
  inv ← getOwnedInvoiceOr404 i;
  require (match orgId with Some o => bool_decide (iv_orgId inv = o) | None => true end)
    INVOICE_NOT_FOUND;;
  update_invoice i (λ inv, with_status (iv_status inv)
    (λ s, {| st_firstViewedAt := or_else (st_firstViewedAt s) (Some now);
             st_viewedAt := Some now; st_paidAt := st_paidAt s;
             st_markedOverdueAt := st_markedOverdueAt s; st_voidedAt := st_voidedAt s;
             st_voidReason := st_voidReason s; st_replacedBy := st_replacedBy s;
             st_updatedAt := st_updatedAt s |}) inv);;
  if bool_decide (st_firstViewedAt (iv_stamps inv) = None)
  then emitInvoiceEvent (invoice_viewed i) else mret tt.

(** ** All operations *)

Inductive Op :=
| OpCreate (orgId : id) (siteId : option id) (notes terms : text)
| OpManualLine (i : id) (description quantity unitPrice : string) (costBasis : text) (taxable : bool)
| OpCatalogLine (i itemId : id) (quantity : string)
| OpBundleLine (i bundleId : id) (quantity : string)
| OpContractLine (i : id) (description quantity unitPrice : string) (taxable : bool)
    (catalogItemId sourceId : option id)
| OpUpdateLine (i lineId : id) (p : LinePatch)
| OpRemoveLine (i lineId : id)
| OpDeleteDraft (i : id)
| OpUpdateInvoice (i : id) (p : HeaderPatch)
| OpRecomputeTotals (i : id) (rate : option (option string))
| OpPartnerSettings (p : PartnerPatch)
| OpOrgSettings (orgId : id) (p : OrgPatch)
| OpAssembleOrg (orgId : id) (siteId : option id) (from to : string)
| OpAssembleTicket (ticketId : id)
| OpIssue (i : id)
| OpRecordPayment (i : id) (input : PaymentInput)
| OpVoidPayment (paymentId : id)
| OpVoid (i : id) (reason : string) (reissue : bool)
| OpSweep
| OpView (i : id) (orgId : option id).

Definition discard {A} (m : M A) : M unit := m;; mret tt.

Definition run_op (op : Op) (actor : InvoiceActor) (now : Z) : M unit :=
  match op with
  | OpCreate o s n t => discard (createManualInvoice o s n t actor now)
  | OpManualLine i d q u c t => discard (addManualLine i d q u c t actor now)
  | OpCatalogLine i c q => discard (addCatalogLine i c q actor now)
  | OpBundleLine i b q => discard (addBundleLine i b q actor now)
  | OpContractLine i d q u t c s => discard (addContractLine i d q u t c s actor now)
  | OpUpdateLine i l p => discard (updateLine i l p actor now)
  | OpRemoveLine i l => discard (removeLine i l actor now)
  | OpDeleteDraft i => deleteDraftInvoice i actor
  | OpUpdateInvoice i p => discard (updateInvoice i p actor now)
  | OpRecomputeTotals i r => recomputeInvoiceTotals i r now
  | OpPartnerSettings p => discard (updatePartnerBillingSettings p actor)
  | OpOrgSettings o p => discard (updateOrgBillingSettings o p actor)
  | OpAssembleOrg o s f t => discard (assembleDraftFromOrg o s f t actor now)
  | OpAssembleTicket t => discard (assembleDraftFromTicket t actor now)
  | OpIssue i => discard (issueInvoice i actor now)
  | OpRecordPayment i p => discard (recordPayment i p actor now)
  | OpVoidPayment p => discard (voidPayment p actor now)
  | OpVoid i r b => discard (voidInvoice i r b actor now)
  | OpSweep => discard (runOverdueSweep now)
  | OpView i o => markViewed i o now
  end.
