(* ===== verification/InvoiceLogic.v ===== *)
(** * Reasoning about the invoice handlers: partial-correctness triples over the handler
    monad, the structural invariant of the tables, and the relation a draft edit
    keeps between the tables before and after it. *)

From S2P Require Import Prelude JsNum Money Calendar InvoiceDb Invoices.

Open Scope Z_scope.

(** ** Triples *)

(** A run of [m] that returns from tables satisfying [P] ends in tables satisfying [Q];
    a throw leaves the tables as they were. *)
Definition triple {A} (P : DB → Prop) (m : M A) (Q : A → DB → Prop) : Prop :=
  ∀ db a db', P db → m db = Ok (a, db') → Q a db'.

Lemma triple_bind {A B} P (m : M A) Q (k : A → M B) R :
  triple P m Q → (∀ a, triple (Q a) (k a) R) → triple P (m ≫= k) R.
Proof.
  intros Hm Hk db b db' HP. unfold mbind, M_bind. destruct (m db) as [[a db1]|e] eqn:E; [|done].
  intros Hr. by eapply Hk; [eapply Hm|].
Qed.

Lemma triple_ret {A} P (a : A) Q : (∀ db, P db → Q a db) → triple P (mret a) Q.
Proof. intros H db a' db' HP [= <- <-]. auto. Qed.

Lemma triple_throw {A} P e (Q : A → DB → Prop) : triple P (throw e) Q.
Proof. intros db a db' _ [=]. Qed.

Lemma triple_require P b e : triple P (require b e) (λ _ db, P db ∧ b = true).
Proof. intros db a db' HP. unfold require. destruct b; [by intros [= <- <-] | done]. Qed.

Lemma triple_get P : triple P get_db (λ d db, d = db ∧ P db).
Proof. by intros db a db' HP [= <- <-]. Qed.

Lemma triple_modify P f (Q : DB → Prop) :
  (∀ db, P db → Q (f db)) → triple P (modify f) (λ _ db, Q db).
Proof. intros H db a db' HP [= <- <-]. auto. Qed.

Lemma triple_pre {A} (P P' : DB → Prop) (m : M A) Q :
  (∀ db, P db → P' db) → triple P' m Q → triple P m Q.
Proof. intros HP H db a db' H1 H2. eapply H; eauto. Qed.

Lemma triple_post {A} P (m : M A) (Q Q' : A → DB → Prop) :
  (∀ a db, Q a db → Q' a db) → triple P m Q → triple P m Q'.
Proof. intros HQ H db a db' H1 H2. eauto. Qed.

Lemma triple_owned P i :
  triple P (getOwnedInvoiceOr404 i) (λ inv db, P db ∧ invoices db !! i = Some inv).
Proof.
  eapply triple_bind; [apply triple_get|]. intros d. simpl.
  destruct (invoices d !! i) eqn:E; [|apply triple_throw].
  apply triple_ret. intros db [<- HP]. done.
Qed.

Lemma triple_editable P i actor :
  triple P (editableDraft i actor)
    (λ inv db, P db ∧ invoices db !! i = Some inv ∧ iv_status inv = draft ∧
               org_accessible actor (iv_orgId inv) = true).
Proof.
  eapply triple_bind; [apply triple_owned|]. intros inv. unfold assertDraft, requireOrgAccess.
  eapply triple_bind; [apply triple_require|]. intros [].
  eapply triple_bind; [apply triple_require|]. intros [].
  apply triple_ret. intros db [[[HP Hi] Hd%bool_decide_eq_true] Ho]. done.
Qed.

(** Running forwards. *)
Lemma run_bind {A B} (m : M A) (k : A → M B) db a db1 :
  m db = Ok (a, db1) → (m ≫= k) db = k a db1.
Proof. intros H. unfold mbind, M_bind. by rewrite H. Qed.

Lemma run_throw {A B} (m : M A) (k : A → M B) db e : m db = Throw e → (m ≫= k) db = Throw e.
Proof. intros H. unfold mbind, M_bind. by rewrite H. Qed.

Lemma run_owned db i inv : invoices db !! i = Some inv → getOwnedInvoiceOr404 i db = Ok (inv, db).
Proof.
  intros H. unfold getOwnedInvoiceOr404. rewrite (run_bind _ _ db db db) by done. by rewrite H.
Qed.

Lemma run_require b e db : require b e db = if b then Ok (tt, db) else Throw e.
Proof. by destruct b. Qed.

(** ** Structural invariant *)

(** The source a line refers to is a row of its table. *)
Definition source_known (db : DB) (l : Line) : Prop :=
  match ln_sourceType l, ln_sourceId l with
  | src_time_entry, Some t => is_Some (timeEntries db !! t)
  | src_part, Some p => is_Some (ticketParts db !! p)
  | _, _ => True
  end.

(** A parent line belongs to the same invoice and has no parent itself. *)
Definition parent_local (db : DB) (l : Line) : Prop :=
  ∀ p, ln_parentLineId l = Some p →
       ∃ lp, invoiceLines db !! p = Some lp ∧ ln_invoiceId lp = ln_invoiceId l ∧
             ln_parentLineId lp = None.

Record wf (db : DB) : Prop := {
  wf_invoices : ∀ i inv, invoices db !! i = Some inv → (i < nextId db)%N;
  wf_lines : ∀ k l, invoiceLines db !! k = Some l →
    (k < nextId db)%N ∧ (ln_invoiceId l < nextId db)%N ∧ source_known db l ∧ parent_local db l;
  wf_payments : ∀ k p, invoicePayments db !! k = Some p →
    (k < nextId db)%N ∧ (py_invoiceId p < nextId db)%N }.

(** ** Draft edits *)

(** What an edit of a draft keeps of the invoice row. *)
Definition same_lifecycle (a b : Invoice) : Prop :=
  iv_status b = iv_status a ∧ iv_snapshot b = iv_snapshot a ∧ iv_origin b = iv_origin a ∧
  iv_voidedAt b = iv_voidedAt a ∧ am_amountPaid (iv_amounts b) = am_amountPaid (iv_amounts a).

(** The lines of the other invoices are the same rows. *)
Definition lines_apart (i : id) (db db' : DB) : Prop :=
  ∀ k l, ln_invoiceId l ≠ i → invoiceLines db' !! k = Some l ↔ invoiceLines db !! k = Some l.

(** The tables an invoice edit does not write. *)
Definition same_rest (db db' : DB) : Prop :=
  invoicePayments db' = invoicePayments db ∧ timeEntries db' = timeEntries db ∧
  ticketParts db' = ticketParts db ∧ sequences db' = sequences db.

Record edit (i : id) (db db' : DB) : Prop := {
  ed_others : ∀ j, j ≠ i → invoices db' !! j = invoices db !! j;
  ed_row : ∀ inv, invoices db !! i = Some inv →
    ∃ inv', invoices db' !! i = Some inv' ∧ same_lifecycle inv inv';
  ed_lines : lines_apart i db db';
  ed_rest : same_rest db db';
  ed_next : (nextId db <= nextId db')%N }.

Lemma same_lifecycle_refl a : same_lifecycle a a.
Proof. done. Qed.
Lemma same_lifecycle_trans a b c : same_lifecycle a b → same_lifecycle b c → same_lifecycle a c.
Proof. unfold same_lifecycle. intuition congruence. Qed.

#[export] Instance edit_preorder i : PreOrder (edit i).
Proof.
  split.
  - intros db. constructor; [done | eauto using same_lifecycle_refl | done | done | done].
  - intros a b c [H1 H2 H3 H4 H5] [K1 K2 K3 K4 K5]. constructor.
    + intros j Hj. by rewrite K1, H1.
    + intros inv Hi. destruct (H2 inv Hi) as (inv' & Hi' & Hs).
      destruct (K2 inv' Hi') as (inv'' & Hi'' & Hs'). eauto using same_lifecycle_trans.
    + intros k l Hl. rewrite (K3 k l Hl). by apply H3.
    + unfold same_rest in *. intuition congruence.
    + lia.
Qed.

(** The state of a run that edits the draft [i] of [db0]. *)
Definition editing (db0 : DB) (i : id) (db : DB) : Prop := wf db ∧ edit i db0 db.

Lemma editing_start db i : wf db → editing db i db.
Proof. by split. Qed.

Lemma editing_step db0 i db db' : editing db0 i db → wf db' → edit i db db' → editing db0 i db'.
Proof. intros [_ H] Hw He. split; [done|]. by etransitivity. Qed.

(** ** Primitive writes as draft edits *)

Lemma source_known_mono db db' l :
  timeEntries db' = timeEntries db → ticketParts db' = ticketParts db →
  source_known db l → source_known db' l.
Proof. unfold source_known. by intros -> ->. Qed.

(** A row of the invoice table rewritten within its lifecycle. *)
Lemma update_invoice_editing db0 i f (F : gmap id Line → Prop) :
  (∀ inv, same_lifecycle inv (f inv)) →
  triple (λ db, editing db0 i db ∧ F (invoiceLines db)) (update_invoice i f)
    (λ _ db, editing db0 i db ∧ F (invoiceLines db)).
Proof.
  intros Hf. apply triple_modify. intros db [He HF]. pose proof He as [[Wi Wl Wp] _].
  split; [|done].
  apply (editing_step db0 i db); [done| |].
  - constructor; simpl; [|done | done]. intros j inv. rewrite lookup_alter_Some. naive_solver.
  - constructor; simpl; [| |done | done | done].
    + intros j Hj. by rewrite lookup_alter_ne.
    + intros inv Hi. rewrite lookup_alter, decide_True, Hi by done. simpl. eauto.
Qed.

(** A new line of [i]. *)
Lemma insert_line_editing db0 i l :
  ln_invoiceId l = i → (i < nextId db0)%N →
  triple (λ db, editing db0 i db ∧ source_known db l ∧ parent_local db l)
    (insert_line l)
    (λ k db, editing db0 i db ∧ invoiceLines db !! k = Some l).
Proof.
  intros Hl Hi0 db k db' (He & Hs & Hp) [= <- <-]. pose proof He as [[Wi Wl Wp] [_ _ _ _ Hn]].
  assert (i < nextId db)%N as Hi by lia.
  assert (invoiceLines db !! nextId db = None) as Hfresh.
  { destruct (invoiceLines db !! nextId db) eqn:E; [|done]. apply Wl in E. lia. }
  assert (∀ l', parent_local db l' → parent_local
    (set_lines <[nextId db := l]> (set_aux (λ s, s) (N.succ (nextId db)) (events db) db)) l') as Hpl.
  { intros l' H p Hpar. destruct (H p Hpar) as (lp & Hlp & E). exists lp. split; [|done].
    simpl. rewrite lookup_insert_ne; [done|]. intros <-. congruence. }
  split; [|simpl; by rewrite lookup_insert, decide_True].
  apply (editing_step db0 i db); [done| |].
  - constructor; simpl.
    + intros j inv ?%Wi. lia.
    + intros k' l'. rewrite lookup_insert_Some. intros [[<- <-]|[Hne Hk]].
      * split_and!; [lia | lia | done | auto].
      * destruct (Wl _ _ Hk) as (? & ? & ? & ?). split_and!; [lia | lia | done | auto].
    + intros k' p ?%Wp. lia.
  - constructor; simpl; [done | eauto using same_lifecycle_refl| |done | lia].
    intros k' l' Hl'. simpl. rewrite lookup_insert_Some. split; [naive_solver|].
    intros Hk. right. split; [|done]. intros <-. congruence.
Qed.

(** A line of [i] rewritten with the same identity. *)
Definition same_line (a b : Line) : Prop :=
  ln_invoiceId b = ln_invoiceId a ∧ ln_sourceType b = ln_sourceType a ∧
  ln_sourceId b = ln_sourceId a ∧ ln_parentLineId b = ln_parentLineId a.

Lemma alter_line_editing db0 i k f :
  (∀ l, same_line l (f l)) →
  triple (λ db, editing db0 i db ∧ ∀ l, invoiceLines db !! k = Some l → ln_invoiceId l = i)
    (modify (set_lines (alter f k))) (λ _, editing db0 i).
Proof.
  intros Hf. apply triple_modify. intros db [He Hk]. pose proof He as [[Wi Wl Wp] _].
  apply (editing_step db0 i db); [done| |].
  - constructor; simpl; [done | | done]. intros k' l'. rewrite lookup_alter_Some.
    assert (∀ a b, same_line a b → source_known db a → source_known db b) as Hs.
    { unfold source_known. by intros a b (_ & -> & -> & _). }
    assert (∀ l', parent_local db l' → parent_local (set_lines (alter f k) db) l') as Hp.
    { intros l1 H p Hpar. destruct (H p Hpar) as (lp & Hlp & E). simpl. rewrite lookup_alter.
      case_decide as Hd; [|eauto]. subst p. rewrite Hlp. simpl. eexists. split; [done|].
      by destruct (Hf lp) as (-> & _ & _ & ->). }
    intros [(-> & l & Hl & ->)|[Hne Hl]]; destruct (Wl _ _ Hl) as (? & ? & ? & Hpar).
    + split_and!; [done | by destruct (Hf l) as (-> & _) | by eapply Hs; eauto|].
      apply Hp. intros p. destruct (Hf l) as (-> & _ & _ & ->). apply Hpar.
    + split_and!; auto.
  - constructor; simpl; [done | eauto using same_lifecycle_refl| |done | done].
    intros k' l' Hl'. simpl. rewrite lookup_alter_Some. split.
    + intros [(-> & l & Hl & ->)|[_ ?]]; [|done]. destruct (Hf l) as (E & _).
      rewrite E in Hl'. by apply Hk in Hl.
    + intros Hl. right. split; [|done]. intros <-. by apply Hk in Hl.
Qed.

(** Removing a line of [i] with its children. *)
Lemma delete_line_editing db0 i k :
  triple (editing db0 i) (delete_line i k) (λ _, editing db0 i).
Proof.
  apply triple_modify. intros db He. pose proof He as [[Wi Wl Wp] _].
  destruct (invoiceLines db !! k) as [l|] eqn:Ek; [|done]. case_bool_decide as Hl; [|done].
  assert (∀ k' l', filter (λ p, ln_parentLineId p.2 ≠ Some k) (delete k (invoiceLines db)) !! k' = Some l' ↔
    invoiceLines db !! k' = Some l' ∧ k' ≠ k ∧ ln_parentLineId l' ≠ Some k) as Hlook.
  { intros k' l'. rewrite map_lookup_filter_Some, lookup_delete_Some. naive_solver. }
  apply (editing_step db0 i db); [done| |].
  - constructor; simpl; [done | | done]. intros k' l' (Hk' & Hne & Hpar)%Hlook.
    destruct (Wl _ _ Hk') as (? & ? & ? & Hp). split_and!; try done.
    intros p Hp'. destruct (Hp p Hp') as (lp & Hlp & E).
    exists lp. split; [|done]. simpl. apply Hlook.
    split_and!; [done | congruence | by destruct E as [_ ->]].
  - constructor; simpl; [done | eauto using same_lifecycle_refl| |done | done].
    intros k' l' Hl'. simpl. rewrite Hlook. split; [naive_solver|]. intros Hk'.
    split_and!; [done | congruence|]. intros Hp. destruct (Wl _ _ Hk') as (_ & _ & _ & Hpl).
    destruct (Hpl k Hp) as (lp & Hlp & E & _). congruence.
Qed.

(** ** Handlers as draft edits *)

Ltac tbind rule := eapply triple_bind; [apply rule|]; intros ?; simpl.

Lemma recomputeInvoiceTotals_editing db0 i r now (F : gmap id Line → Prop) :
  triple (λ db, editing db0 i db ∧ F (invoiceLines db)) (recomputeInvoiceTotals i r now)
    (λ _ db, editing db0 i db ∧ F (invoiceLines db)).
Proof.
  unfold recomputeInvoiceTotals, assertDraft.
  tbind triple_owned. tbind triple_require. tbind triple_get.
  eapply triple_pre; [|by apply (update_invoice_editing _ _ _ F)]. by intros db [_ [[? _] _]].
Qed.

Lemma recompute_editing db0 i r now :
  triple (editing db0 i) (recomputeInvoiceTotals i r now) (λ _, editing db0 i).
Proof.
  eapply triple_pre; [|eapply triple_post; [|apply (recomputeInvoiceTotals_editing db0 i r now (λ _, True))]];
    naive_solver.
Qed.

Definition plain (i : id) (l : Line) : Prop :=
  ln_invoiceId l = i ∧ ln_parentLineId l = None ∧
  ln_sourceType l ≠ src_time_entry ∧ ln_sourceType l ≠ src_part.

Lemma plain_known db i l : plain i l → source_known db l ∧ parent_local db l.
Proof.
  intros (_ & Hp & H1 & H2). split.
  - unfold source_known. by destruct (ln_sourceType l).
  - intros p. by rewrite Hp.
Qed.

(** A top-level line of [i] with the given id. *)
Definition has_top (i k : id) (ls : gmap id Line) : Prop :=
  ∃ l, ls !! k = Some l ∧ ln_invoiceId l = i ∧ ln_parentLineId l = None.

Lemma insertLineAndRecompute_editing db0 i spec now :
  (∀ s, plain i (spec s)) → (i < nextId db0)%N →
  triple (editing db0 i) (insertLineAndRecompute i spec now)
    (λ r db, editing db0 i db ∧ has_top i r.1 (invoiceLines db)).
Proof.
  intros Hs Hi. unfold insertLineAndRecompute. tbind triple_get.
  eapply triple_bind.
  { eapply triple_pre; [|apply (insert_line_editing db0 i); [apply Hs | done]].
    intros db [_ ?]. split; [done|]. apply (plain_known _ i), Hs. }
  intros k. simpl. eapply triple_bind.
  { eapply triple_pre; [|apply (recomputeInvoiceTotals_editing db0 i None now (has_top i k))].
    intros db [? Hl]. split; [done|]. eexists. split; [done|].
    destruct (Hs (default 0 (max_sort a i) + 1)) as (? & ? & _). done. }
  intros []. by apply triple_ret.
Qed.

(** Any list of new lines of [i], given what each needs of the lines before it. *)
Lemma insert_lines_editing db0 i ls (F : gmap id Line → Prop) :
  (i < nextId db0)%N →
  (∀ l db, l ∈ ls → F (invoiceLines db) → editing db0 i db →
           ln_invoiceId l = i ∧ source_known db l ∧ parent_local db l) →
  (∀ m k l, F m → m !! k = None → l ∈ ls → F (<[k := l]> m)) →
  triple (λ db, editing db0 i db ∧ F (invoiceLines db)) (insert_lines ls)
    (λ _ db, editing db0 i db ∧ F (invoiceLines db)).
Proof.
  intros Hi Hls HF. induction ls as [|l ls IH]; simpl; [by apply triple_ret|].
  eapply triple_bind with (Q := λ _ db, editing db0 i db ∧ F (invoiceLines db)).
  - intros db k db' [He Hf] Hrun.
    destruct (Hls l db) as (Hl & Hs & Hp); [set_solver | done | done|].
    split; [by eapply (insert_line_editing db0 i l Hl Hi)|]. injection Hrun as <- <-. simpl.
    apply HF; [done| |set_solver]. destruct (invoiceLines db !! nextId db) eqn:E; [|done].
    destruct He as [[_ Wl _] _]. apply Wl in E. lia.
  - intros k. eapply triple_bind; [apply IH|].
    + intros l' db Hl'. apply Hls. set_solver.
    + intros m k' l' Hm Hk Hl'. apply HF; [done | done | set_solver].
    + intros rest. by apply triple_ret.
Qed.
