(* ===== verification/InvoiceLifecycle.v ===== *)
(** * The life of an invoice: an abstract transition system, and the theorem that every
    handler of the invoice service refines it.

    The transitions say what an operation may do to the invoice rows, their lines,
    payments, the source rows and the number sequences, without the amounts and texts a
    handler computes.  The theorems on reachable tables (what is frozen, what is billed
    once, how numbers run) are proved over the transitions by rule induction. *)

From S2P Require Import Prelude JsNum Money Calendar InvoiceDb Invoices InvoiceLogic.

Open Scope Z_scope.

(** ** Transitions *)

(** An invoice that has been issued and not voided. *)
Definition live (inv : Invoice) : Prop := iv_status inv ≠ draft ∧ iv_status inv ≠ void.

(** What never changes once an invoice is issued. *)
Definition frozen (a b : Invoice) : Prop :=
  iv_origin b = iv_origin a ∧ iv_header b = iv_header a ∧ iv_snapshot b = iv_snapshot a ∧
  am_subtotal (iv_amounts b) = am_subtotal (iv_amounts a) ∧
  am_taxRate (iv_amounts b) = am_taxRate (iv_amounts a) ∧
  am_taxTotal (iv_amounts b) = am_taxTotal (iv_amounts a) ∧ iv_total b = iv_total a.

(** The row agrees with its lifecycle columns. *)
Definition row_ok (inv : Invoice) : Prop :=
  (iv_status inv = draft ↔ iv_number inv = None) ∧ (iv_status inv = void ↔ iv_voidedAt inv ≠ None).

(** The number sequence of a partner and year. *)
Definition counter_of (db : DB) (p : id) (y : Z) : Z := default 0 (sequences db !! (p, y)).

Inductive lifecycle (db db' : DB) : Prop :=
| lc_settings :
    invoices db' = invoices db → invoiceLines db' = invoiceLines db → same_rest db db' →
    lifecycle db db'
| lc_edit i inv :
    invoices db !! i = Some inv → iv_status inv = draft → edit i db db' → lifecycle db db'
| lc_create i inv :
    invoices db !! i = None → (∀ k l, invoiceLines db !! k = Some l → ln_invoiceId l ≠ i) →
    invoices db' = <[i := inv]> (invoices db) → iv_status inv = draft → row_ok inv →
    lines_apart i db db' → same_rest db db' → lifecycle db db'
| lc_delete i inv :
    invoices db !! i = Some inv → iv_status inv = draft →
    invoices db' = delete i (invoices db) → lines_apart i db db' →
    (∀ k p, py_invoiceId p ≠ i →
            invoicePayments db' !! k = Some p ↔ invoicePayments db !! k = Some p) →
    timeEntries db' = timeEntries db → ticketParts db' = ticketParts db →
    sequences db' = sequences db → lifecycle db db'
| lc_issue i inv inv' y prefix :
    invoices db !! i = Some inv → iv_status inv = draft → 0 <= y →
    (∀ t, t ∈ source_ids src_time_entry (lines_of db i) → time_billed db t = false) →
    (∀ p, p ∈ source_ids src_part (lines_of db i) → part_billed db p = false) →
    iv_status inv' = sent → iv_voidedAt inv' = iv_voidedAt inv → iv_origin inv' = iv_origin inv →
    iv_number inv' =
      Some (formatInvoiceNumber prefix y (counter_of db (iv_partnerId inv) y + 1)) →
    invoices db' = <[i := inv']> (invoices db) → invoiceLines db' = invoiceLines db →
    invoicePayments db' = invoicePayments db →
    timeEntries db' = alter_all (time_with_billing billed)
      (source_ids src_time_entry (lines_of db i)) (timeEntries db) →
    ticketParts db' = alter_all (part_with_billing billed)
      (source_ids src_part (lines_of db i)) (ticketParts db) →
    sequences db' =
      <[(iv_partnerId inv, y) := counter_of db (iv_partnerId inv) y + 1]> (sequences db) →
    lifecycle db db'
| lc_progress i inv inv' :
    invoices db !! i = Some inv → invoices db' = <[i := inv']> (invoices db) →
    frozen inv inv' → iv_voidedAt inv' = iv_voidedAt inv →
    (row_ok inv → row_ok inv') → invoiceLines db' = invoiceLines db →
    (∀ k p, py_invoiceId p ≠ i →
            invoicePayments db' !! k = Some p ↔ invoicePayments db !! k = Some p) →
    timeEntries db' = timeEntries db → ticketParts db' = ticketParts db →
    sequences db' = sequences db → lifecycle db db'
| lc_void i inv inv' :
    invoices db !! i = Some inv → live inv → iv_status inv' = void → iv_voidedAt inv' ≠ None →
    frozen inv inv' → invoices db' = <[i := inv']> (invoices db) →
    invoiceLines db' = invoiceLines db → invoicePayments db' = invoicePayments db →
    timeEntries db' = alter_all (time_with_billing not_billed)
      (source_ids src_time_entry (lines_of db i)) (timeEntries db) →
    ticketParts db' = alter_all (part_with_billing not_billed)
      (source_ids src_part (lines_of db i)) (ticketParts db) →
    sequences db' = sequences db → lifecycle db db'.

(** ** Draft handlers refine [lc_edit] *)

(** What a refined run from [db0] has reached. *)
Definition lstep (db db' : DB) : Prop := lifecycle db db' ∧ wf db'.
Definition refined (db0 db : DB) : Prop := wf db ∧ rtc lstep db0 db.

Definition at_start (db0 : DB) (db : DB) : Prop := db = db0 ∧ wf db0.

(** A handler that starts with the three draft guards and edits only that draft. *)
Lemma draft_handler {A} db0 i actor (body : Invoice → M A) :
  (∀ inv, iv_status inv = draft → (i < nextId db0)%N →
     triple (λ db, editing db0 i db ∧ invoices db !! i = Some inv) (body inv)
       (λ _, editing db0 i)) →
  triple (at_start db0) (editableDraft i actor ≫= body) (λ _, refined db0).
Proof.
  intros Hbody db a db' [-> Hwf] Hrun.
  unfold mbind, M_bind in Hrun. destruct (editableDraft i actor db0) as [[inv db1]|] eqn:E; [|done].
  pose proof E as E'. apply (triple_editable (λ d, d = db0) i actor db0) in E' as (-> & Hi & Hd & _); [|done].
  pose proof (wf_invoices _ Hwf _ _ Hi) as Hlt.
  destruct (Hbody inv Hd Hlt db0 a db') as [Hw He]; [|done|].
  - split; [by apply editing_start | done].
  - split; [done|]. apply rtc_once. split; [|done]. by eapply lc_edit.
Qed.

Lemma readonly_resolvePrice P itemId orgId actor :
  triple P (resolvePrice itemId orgId actor) (λ _, P).
Proof.
  unfold resolvePrice, requirePartner, requireOrgAccess, getOwnedItemOr404.
  intros db a db' HP. cbv [mbind M_bind mret M_ret require throw get_db].
  repeat (case_match; simplify_eq; try done); intros; simplify_eq; done.
Qed.

Lemma readonly_bundleEconomics P bundleId orgId actor :
  triple P (computeBundleEconomics bundleId orgId actor) (λ _, P).
Proof.
  unfold computeBundleEconomics, requirePartner, requireOrgAccess.
  eapply triple_bind with (Q := λ _, P); [destruct (ac_partnerId actor); [by apply triple_ret | apply triple_throw]|].
  intros partnerId. eapply triple_bind; [apply triple_require|]. intros [].
  eapply triple_bind with (Q := λ _, P).
  { intros db a db' [HP _]. unfold getOwnedItemOr404. cbv [mbind M_bind mret M_ret throw get_db].
    repeat (case_match; simplify_eq; try done); intros; simplify_eq; done. }
  intros b. eapply triple_bind; [apply triple_require|]. intros [].
  eapply triple_bind; [apply readonly_resolvePrice|]. intros price.
  eapply triple_bind; [apply triple_get|]. intros d. apply triple_ret. naive_solver.
Qed.

Lemma plain_line_plain i orgId src sourceId c d q u cb t lt s :
  src ≠ src_time_entry → src ≠ src_part → plain i (plain_line i orgId src sourceId c d q u cb t lt s).
Proof. by intros. Qed.

(** The common tail of the handlers that add one line. *)
Lemma add_line_editing db0 i (spec : Z → Line) now P :
  (∀ s, plain i (spec s)) → (i < nextId db0)%N →
  triple (λ db, editing db0 i db ∧ P db) (insertLineAndRecompute i spec now)
    (λ _, editing db0 i).
Proof.
  intros Hs Hi. eapply triple_pre; [|eapply triple_post; [|by apply insertLineAndRecompute_editing]];
    naive_solver.
Qed.

Lemma addManualLine_refines db0 i d q u c t actor now :
  triple (at_start db0) (addManualLine i d q u c t actor now) (λ _, refined db0).
Proof. apply draft_handler. intros inv Hd Hi. apply add_line_editing; [|done]. by intros. Qed.

Lemma addCatalogLine_refines db0 i c q actor now :
  triple (at_start db0) (addCatalogLine i c q actor now) (λ _, refined db0).
Proof.
  apply draft_handler. intros inv Hd Hi. eapply triple_bind; [apply readonly_resolvePrice|].
  intros r. eapply triple_bind; [apply triple_get|]. intros d. cbv zeta.
  eapply triple_bind; [apply triple_require|]. intros [].
  eapply triple_pre; [|apply (add_line_editing db0 i _ now (λ _, True)); [by intros | done]].
  naive_solver.
Qed.

Lemma addContractLine_refines db0 i d q u t c s actor now :
  triple (at_start db0) (addContractLine i d q u t c s actor now) (λ _, refined db0).
Proof.
  apply draft_handler. intros inv Hd Hi.
  eapply triple_bind with (Q := λ _, editing db0 i).
  - destruct c as [c|].
    + eapply triple_bind; [apply readonly_resolvePrice|]. intros r. apply triple_ret. naive_solver.
    + cbv zeta. eapply triple_bind; [apply triple_require|]. intros []. apply triple_ret. naive_solver.
  - intros [[price tax] cost].
    eapply triple_pre; [|apply (add_line_editing db0 i _ now (λ _, True)); [by intros | done]].
    naive_solver.
Qed.

Lemma addBundleLine_refines db0 i b q actor now :
  triple (at_start db0) (addBundleLine i b q actor now) (λ _, refined db0).
Proof.
  apply draft_handler. intros inv Hd Hi. eapply triple_bind; [apply readonly_bundleEconomics|].
  intros econ. eapply triple_bind; [apply triple_get|]. intros d.
  eapply triple_bind.
  { eapply triple_pre; [|apply (insertLineAndRecompute_editing db0 i); [by intros | done]]. naive_solver. }
  intros [parent sort]. eapply triple_bind.
  { apply (insert_lines_editing db0 i _ (has_top i parent)); [done| |].
    - intros l db (c & -> & _)%list_elem_of_fmap Htop He. split_and!; [done | done|].
      intros p [= <-]. destruct Htop as (lp & ? & ? & ?). eauto.
    - intros m k l (lp & Hlp & ? & ?) Hk _. exists lp. split; [|done].
      rewrite lookup_insert_ne; [done|]. intros <-. simpl in Hlp. congruence. }
  intros rest. eapply triple_bind.
  { eapply triple_pre; [|apply (recompute_editing db0 i)]. naive_solver. }
  intros []. by apply triple_ret.
Qed.

Lemma updateLine_refines db0 i k p actor now :
  triple (at_start db0) (updateLine i k p actor now) (λ _, refined db0).
Proof.
  apply draft_handler. intros inv Hd Hi. eapply triple_bind; [apply triple_get|]. intros d. simpl.
  destruct (invoiceLines d !! k) as [l|] eqn:E; [|apply triple_throw].
  eapply triple_bind; [apply triple_require|]. intros [].
  eapply triple_bind.
  { eapply triple_pre; [|apply (alter_line_editing db0 i); by intros].
    intros db [[<- [? _]] Hl%bool_decide_eq_true]. split; [done|]. congruence. }
  intros []. eapply triple_bind; [apply recompute_editing|]. intros [].
  eapply triple_post; [|apply triple_owned]. naive_solver.
Qed.

Lemma removeLine_refines db0 i k actor now :
  triple (at_start db0) (removeLine i k actor now) (λ _, refined db0).
Proof.
  apply draft_handler. intros inv Hd Hi. eapply triple_bind.
  { eapply triple_pre; [|apply (delete_line_editing db0 i)]. naive_solver. }
  intros []. eapply triple_bind; [apply recompute_editing|]. intros [].
  eapply triple_post; [|apply triple_owned]. naive_solver.
Qed.

Lemma updateInvoice_refines db0 i p actor now :
  triple (at_start db0) (updateInvoice i p actor now) (λ _, refined db0).
Proof.
  apply draft_handler. intros inv Hd Hi. eapply triple_bind.
  { eapply triple_pre; [|apply (update_invoice_editing db0 i _ (λ _, True)); by intros]. naive_solver. }
  intros []. eapply triple_post; [|apply triple_owned]. naive_solver.
Qed.

Lemma recomputeTotals_refines db0 i r now :
  triple (at_start db0) (recomputeInvoiceTotals i r now) (λ _, refined db0).
Proof.
  intros db a db' [-> Hwf] Hrun.
  assert (∃ inv, invoices db0 !! i = Some inv ∧ iv_status inv = draft) as (inv & Hi & Hd).
  { unfold recomputeInvoiceTotals, getOwnedInvoiceOr404, assertDraft, require in Hrun.
    cbv [mbind M_bind mret M_ret throw get_db] in Hrun.
    destruct (invoices db0 !! i) as [inv|]; [|done]. exists inv. split; [done|].
    by case_bool_decide. }
  destruct (recompute_editing db0 i r now db0 a db' (editing_start _ _ Hwf) Hrun).
  split; [done|]. apply rtc_once. split; [|done]. by eapply lc_edit.
Qed.

(** ** New drafts *)

Lemma refined_step db0 db db' : refined db0 db → wf db' → lifecycle db db' → refined db0 db'.
Proof. intros [_ Hr] Hw Hl. split; [done|]. eapply rtc_r; [done | by split]. Qed.

Lemma emit_refined db0 e (P : DB → Prop) :
  (∀ db, P db → P (set_aux (λ s, s) (nextId db) (events db ++ [e]) db)) →
  triple (λ db, refined db0 db ∧ P db) (emitInvoiceEvent e) (λ _ db, refined db0 db ∧ P db).
Proof.
  intros HP. apply triple_modify. intros db [Hr Hp]. split; [|auto].
  apply (refined_step _ db); [done| |by apply lc_settings].
  destruct Hr as [[Wi Wl Wp] _]. by constructor.
Qed.

Lemma emit_only db0 e : triple (refined db0) (emitInvoiceEvent e) (λ _, refined db0).
Proof.
  eapply triple_pre; [|eapply triple_post; [|apply (emit_refined db0 e (λ _, True))]]; naive_solver.
Qed.

(** The sources of [db] are those of [db0]. *)
Definition same_sources (db0 db : DB) : Prop :=
  timeEntries db = timeEntries db0 ∧ ticketParts db = ticketParts db0.

Lemma insert_invoice_refined db0 inv :
  iv_status inv = draft → row_ok inv →
  triple (refined db0) (insert_invoice inv)
    (λ i db, refined db0 db ∧ invoices db !! i = Some inv).
Proof.
  intros Hd Hrow db i db' Hr [= <- <-]. pose proof Hr as [[Wi Wl Wp] _].
  split; [|simpl; by rewrite lookup_insert, decide_True].
  apply (refined_step _ db); [done| |].
  - constructor; simpl.
    + intros j inv'. rewrite lookup_insert_Some. intros [[<- <-]|[_ ?%Wi]]; lia.
    + intros k l Hl. destruct (Wl _ _ Hl) as (? & ? & ? & ?). split_and!; [lia | lia | done | done].
    + intros k p Hp. destruct (Wp _ _ Hp). lia.
  - apply (lc_create _ _ (nextId db) inv); try done.
    + destruct (invoices db !! nextId db) eqn:E; [|done]. apply Wi in E. lia.
    + intros k l Hl E. apply Wl in Hl. lia.
Qed.

Lemma insert_invoice_sources db0 inv :
  triple (same_sources db0) (insert_invoice inv) (λ _, same_sources db0).
Proof. by intros db i db' Hs [= <- <-]. Qed.

Lemma triple_and {A} P1 P2 (m : M A) Q1 Q2 :
  triple P1 m Q1 → triple P2 m Q2 → triple (λ db, P1 db ∧ P2 db) m (λ a db, Q1 a db ∧ Q2 a db).
Proof. intros H1 H2 db a db' [HP1 HP2] Hrun. split; eauto. Qed.

(** A run that goes on to edit a draft it has reached. *)
Lemma edit_after {A} db0 i inv P (body : M A) :
  iv_status inv = draft →
  (∀ db1, P db1 → (i < nextId db1)%N → triple (editing db1 i) body (λ _, editing db1 i)) →
  triple (λ db, refined db0 db ∧ invoices db !! i = Some inv ∧ P db) body (λ _, refined db0).
Proof.
  intros Hd Hbody db a db' (Hr & Hi & HP) Hrun. pose proof Hr as [Hw _].
  destruct (Hbody db HP (wf_invoices _ Hw _ _ Hi) db a db' (editing_start _ _ Hw) Hrun) as [Hw' He].
  apply (refined_step _ db); [done | done|]. by eapply lc_edit.
Qed.

Lemma createManualInvoice_refines db0 o s n t actor now :
  triple (at_start db0) (createManualInvoice o s n t actor now) (λ _, refined db0).
Proof.
  unfold createManualInvoice, requirePartner, requireOrgAccess.
  apply (triple_pre _ (refined db0)); [by intros db [-> ?]; split|].
  eapply triple_bind with (Q := λ _, refined db0);
    [destruct (ac_partnerId actor); [by apply triple_ret | apply triple_throw]|].
  intros p. eapply triple_bind; [apply triple_require|]. intros [].
  eapply triple_post; [|eapply triple_pre; [|apply (insert_invoice_refined db0)]]; try done; naive_solver.
Qed.

Lemma deleteDraftInvoice_refines db0 i actor :
  triple (at_start db0) (deleteDraftInvoice i actor) (λ _, refined db0).
Proof.
  unfold deleteDraftInvoice. eapply triple_bind; [apply triple_editable|]. intros inv.
  apply triple_modify. intros db ([-> Hw] & Hi & Hd & _). pose proof Hw as [Wi Wl Wp].
  set (db' := set_payments _ _).
  assert (∀ k l, invoiceLines db' !! k = Some l ↔ invoiceLines db0 !! k = Some l ∧ ln_invoiceId l ≠ i) as Hl.
  { intros k l. simpl. by rewrite map_lookup_filter_Some. }
  assert (∀ k p, invoicePayments db' !! k = Some p ↔ invoicePayments db0 !! k = Some p ∧ py_invoiceId p ≠ i) as Hp.
  { intros k p. simpl. by rewrite map_lookup_filter_Some. }
  apply (refined_step _ db0); [by split| |].
  - constructor.
    + intros j inv'. simpl. rewrite lookup_delete_Some. intros [_ ?%Wi]. done.
    + intros k l [Hk Hne]%Hl. destruct (Wl _ _ Hk) as (? & ? & ? & Hpar). split_and!; try done.
      intros p Hpl. destruct (Hpar p Hpl) as (lp & Hlp & E & ?). exists lp. split; [|done].
      apply Hl. split; [done | congruence].
    + intros k p [Hk _]%Hp. by apply Wp in Hk.
  - apply (lc_delete _ _ i inv); try done.
    + intros k l Hne. rewrite Hl. naive_solver.
    + intros k p Hne. rewrite Hp. naive_solver.
Qed.

Lemma settings_refines db0 f g :
  triple (refined db0) (modify (set_settings f g)) (λ _, refined db0).
Proof.
  apply triple_modify. intros db Hr. apply (refined_step _ db); [done| |by apply lc_settings].
  destruct Hr as [[Wi Wl Wp] _]. by constructor.
Qed.

Lemma updatePartnerBillingSettings_refines db0 p actor :
  triple (at_start db0) (updatePartnerBillingSettings p actor) (λ _, refined db0).
Proof.
  apply (triple_pre _ (refined db0)); [by intros db [-> ?]; split|].
  unfold updatePartnerBillingSettings, requirePartner.
  eapply triple_bind with (Q := λ _, refined db0);
    [destruct (ac_partnerId actor); [by apply triple_ret | apply triple_throw]|].
  intros pid. eapply triple_bind; [apply triple_get|]. intros d. simpl.
  destruct (partners d !! pid); [|apply triple_throw]. cbv zeta.
  eapply triple_bind; [eapply triple_pre; [|apply settings_refines]; naive_solver|].
  intros []. by apply triple_ret.
Qed.

Lemma updateOrgBillingSettings_refines db0 o p actor :
  triple (at_start db0) (updateOrgBillingSettings o p actor) (λ _, refined db0).
Proof.
  apply (triple_pre _ (refined db0)); [by intros db [-> ?]; split|].
  unfold updateOrgBillingSettings, requireOrgAccess.
  eapply triple_bind; [apply triple_require|]. intros [].
  eapply triple_bind; [apply triple_get|]. intros d. simpl.
  destruct (organizations d !! o); [|apply triple_throw]. cbv zeta.
  eapply triple_bind; [eapply triple_pre; [|apply settings_refines]; naive_solver|].
  intros []. by apply triple_ret.
Qed.

(** ** Assembly *)

(** A spec refers to rows that exist. *)
Definition spec_known (db : DB) (s : DraftLineSpec) : Prop :=
  match sp_sourceType s, sp_sourceId s with
  | src_time_entry, Some t => is_Some (timeEntries db !! t)
  | src_part, Some p => is_Some (ticketParts db !! p)
  | _, _ => True
  end.

Lemma time_specs_known db (P : id * TimeEntry → Prop) `{∀ r, Decision (P r)} s :
  s ∈ timeEntryToLineSpec <$> filter P (map_to_list (timeEntries db)) → spec_known db s.
Proof.
  intros ([t e] & -> & [_ Ht]%list_elem_of_filter)%list_elem_of_fmap. apply elem_of_map_to_list in Ht.
  unfold spec_known. simpl. eauto.
Qed.

Lemma part_specs_known db (P : id * TicketPart → Prop) `{∀ r, Decision (P r)} s :
  s ∈ ticketPartToLineSpec <$> filter P (map_to_list (ticketParts db)) → spec_known db s.
Proof.
  intros ([t e] & -> & [_ Ht]%list_elem_of_filter)%list_elem_of_fmap. apply elem_of_map_to_list in Ht.
  unfold spec_known. simpl. eauto.
Qed.

Lemma readonly_getInvoice P i actor : triple P (getInvoice i actor) (λ _, P).
Proof.
  unfold getInvoice, requireOrgAccess. eapply triple_bind; [apply triple_owned|]. intros inv.
  eapply triple_bind; [apply triple_require|]. intros [].
  eapply triple_bind; [apply triple_get|]. intros d. apply triple_ret. naive_solver.
Qed.

Lemma materialize_editing db1 i orgId specs :
  (i < nextId db1)%N → (∀ s, s ∈ specs → spec_known db1 s) →
  triple (editing db1 i) (materializeLines i orgId specs) (λ _, editing db1 i).
Proof.
  intros Hi Hs. unfold materializeLines. eapply triple_bind.
  { eapply triple_pre; [|apply (insert_lines_editing db1 i _ (λ _, True)); [done| |done]]; [naive_solver|].
    intros l db (n & s & -> & Hn)%elem_of_lookup_imap _ [_ [_ _ _ (_ & Ht & Hp & _) _]].
    split_and!; [done| |by intros p [=]].
    specialize (Hs s (list_elem_of_lookup_2 _ _ _ Hn)).
    unfold source_known, spec_known in *. simpl. by rewrite Ht, Hp. }
  intros ids. apply triple_ret. naive_solver.
Qed.

Lemma assemble_draft_refines db0 p o s specs actor now :
  (∀ sp, sp ∈ specs → spec_known db0 sp) →
  triple (at_start db0) (assemble_draft p o s specs actor now) (λ _, refined db0).
Proof.
  intros Hs. unfold assemble_draft.
  eapply triple_bind; [apply triple_require|]. intros [].
  eapply triple_bind.
  { eapply triple_pre; [|apply triple_and; [apply (insert_invoice_refined db0); done |
      apply (insert_invoice_sources db0)]]. intros db [[-> Hw] _]. by split; split. }
  intros i. simpl.
  eapply triple_pre; [|apply (edit_after db0 i
    (new_invoice p o s None None (ac_userId actor) None now) (same_sources db0)); [done|]].
  { intros db [[Hr Hi] Hso]. eauto. }
  intros db1 [Ht Hp] Hi1. eapply triple_bind.
  { apply materialize_editing; [done|]. intros sp Hsp. specialize (Hs sp Hsp).
    unfold spec_known in *. by rewrite Ht, Hp. }
  intros []. eapply triple_bind; [apply recompute_editing|]. intros [].
  apply readonly_getInvoice.
Qed.

Lemma assembleDraftFromOrg_refines db0 o s f t actor now :
  triple (at_start db0) (assembleDraftFromOrg o s f t actor now) (λ _, refined db0).
Proof.
  unfold assembleDraftFromOrg, requirePartner, requireOrgAccess.
  eapply triple_bind with (Q := λ _, at_start db0);
    [destruct (ac_partnerId actor); [by apply triple_ret | apply triple_throw]|].
  intros p. eapply triple_bind; [apply triple_require|]. intros [].
  eapply triple_bind; [apply triple_get|]. intros d. simpl.
  destruct (day_ms f 0) as [fm|], (day_ms t 86399) as [tm|]; try apply triple_throw.
  intros db a db' [<- [Hst Hb]]. destruct (Hst) as [-> _]. revert Hst.
  apply assemble_draft_refines. intros sp [Hsp|Hsp]%elem_of_app.
  - eapply time_specs_known, Hsp.
  - eapply part_specs_known, Hsp.
Qed.

Lemma assembleDraftFromTicket_refines db0 tk actor now :
  triple (at_start db0) (assembleDraftFromTicket tk actor now) (λ _, refined db0).
Proof.
  unfold assembleDraftFromTicket, requirePartner, requireOrgAccess.
  eapply triple_bind with (Q := λ _, at_start db0);
    [destruct (ac_partnerId actor); [by apply triple_ret | apply triple_throw]|].
  intros p. eapply triple_bind; [apply triple_get|]. intros d. simpl.
  destruct (tickets d !! tk); [|apply triple_throw].
  eapply triple_bind; [apply triple_require|]. intros [].
  intros db a db' [[<- Hst] Hb]. destruct (Hst) as [-> _]. revert Hst.
  apply assemble_draft_refines. intros sp [Hsp|Hsp]%elem_of_app.
  - eapply time_specs_known, Hsp.
  - eapply part_specs_known, Hsp.
Qed.

(** ** Issue *)

Lemma alter_all_lookup {A} (f : A → A) ids (m : gmap id A) k :
  (∀ x, f (f x) = f x) →
  alter_all f ids m !! k = if bool_decide (k ∈ ids) then f <$> m !! k else m !! k.
Proof.
  intros Hf. unfold alter_all. induction ids as [|j ids IH]; simpl; [done|].
  rewrite lookup_alter. destruct (decide (j = k)) as [->|Hd].
  - rewrite (bool_decide_eq_true_2 (k ∈ k :: ids)) by set_solver. rewrite IH.
    case_bool_decide; [|done]. destruct (m !! k); simpl; [by rewrite Hf | done].
  - rewrite IH. case_bool_decide; case_bool_decide; done || set_solver.
Qed.

Lemma alter_all_is_Some {A} (f : A → A) ids (m : gmap id A) k :
  (∀ x, f (f x) = f x) → is_Some (m !! k) → is_Some (alter_all f ids m !! k).
Proof. intros Hf [x Hx]. rewrite alter_all_lookup, Hx by done. case_bool_decide; simpl; eauto. Qed.

(** Invoice [i] rewritten in place, sources rebilled, and the counters moved. *)
Definition rewritten db i f s ts ps gs ev : DB :=
  set_aux gs (nextId db) ev (set_sources (alter_all (time_with_billing s) ts)
    (alter_all (part_with_billing s) ps) (set_invoices (alter f i) db)).

Lemma wf_rewritten db i f s ts ps gs ev : wf db → wf (rewritten db i f s ts ps gs ev).
Proof.
  intros [Wi Wl Wp]. constructor; simpl; [|intros k l Hl|done].
  - intros j inv. rewrite lookup_alter_Some. naive_solver.
  - destruct (Wl _ _ Hl) as (? & ? & Hs & ?). split_and!; try done.
    unfold source_known in *. simpl. repeat case_match; try done; by apply alter_all_is_Some.
Qed.

Lemma alter_insert {A} (f : A → A) (m : gmap id A) i x :
  m !! i = Some x → alter f i m = <[i := f x]> m.
Proof.
  intros Hi. apply map_eq. intros j. rewrite lookup_alter, lookup_insert.
  case_decide as Hd; [|done]. subst j. by rewrite Hi.
Qed.

Lemma year_nonneg now : 0 <= now → 0 <= getUTCFullYear (now / 86400000).
Proof.
  intros Hnow. assert (0 <= now / 86400000) as Hd by (apply Z.div_pos; lia).
  destruct (year_exists (now / 86400000)) as (y & Hy). rewrite (getUTCFullYear_spec y) by done.
  destruct (Z.lt_ge_cases y 0); [|done]. pose proof (DayFromYear_mono (y + 1) 1970) as Hm.
  change (DayFromYear 1970) with 0 in Hm. lia.
Qed.

Lemma existsb_false {A} (f : A → bool) l : negb (existsb f l) = true → ∀ x, x ∈ l → f x = false.
Proof.
  intros H x Hx. apply negb_true_iff in H. destruct (f x) eqn:E; [|done].
  rewrite <- H. symmetry. apply existsb_exists. exists x. split; [|done]. by apply list_elem_of_In.
Qed.

Lemma allocate_run p y db c db' :
  allocateInvoiceCounter p y db = Ok (c, db') →
  c = counter_of db p y + 1 ∧
  db' = set_aux <[(p, y) := counter_of db p y + 1]> (nextId db) (events db) db.
Proof.
  unfold allocateInvoiceCounter, counter_of, require. cbv [mbind M_bind mret M_ret get_db modify throw].
  destruct (sequences db !! (p, y)) as [c0|]; simpl; [destruct (1 <=? c0 + 1); [|done]|];
    by intros [= <- <-].
Qed.

Lemma issue_tail_run db p y c i f ts ps e db' a :
  (update_invoice i f;; set_billing billed ts ps;; emitInvoiceEvent e;; getOwnedInvoiceOr404 i)
    (set_aux <[(p, y) := c]> (nextId db) (events db) db) = Ok (a, db') →
  db' = rewritten db i f billed ts ps <[(p, y) := c]> (events db ++ [e]).
Proof.
  cbv [update_invoice set_billing emitInvoiceEvent modify getOwnedInvoiceOr404 mbind M_bind get_db
       mret M_ret throw]. simpl.
  destruct (alter f i (invoices db) !! i); [|done]. by intros [= <- <-].
Qed.

Lemma issueInvoice_refines db0 i actor now :
  0 <= now → triple (at_start db0) (issueInvoice i actor now) (λ _, refined db0).
Proof.
  intros Hnow. unfold issueInvoice. eapply triple_bind; [apply triple_editable|]. intros inv.
  eapply triple_bind; [apply triple_get|]. intros d. cbv zeta.
  eapply triple_bind; [apply triple_require|]. intros [].
  eapply triple_bind; [apply triple_require|]. intros [].
  eapply triple_bind; [apply triple_require|]. intros [].
  intros db a db' [[[[<- [[-> Hw] (Hi & Hd & _)]] _] Htime] Hpart] Hrun.
  unfold mbind at 1, M_bind at 1 in Hrun.
  destruct (allocateInvoiceCounter _ _ db0) as [[c db1]|] eqn:Ea; [|done].
  apply allocate_run in Ea as [-> ->]. apply issue_tail_run in Hrun as ->.
  apply (refined_step _ db0); [by split | by apply wf_rewritten|].
  pose proof (existsb_false _ _ Htime) as Ht. pose proof (existsb_false _ _ Hpart) as Hp.
  eapply (lc_issue _ _ i inv _ (getUTCFullYear (now / 86400000))
    (default "INV"%string (pa_invoiceNumberPrefix <$> partners db0 !! iv_partnerId inv)));
    [done | done | by apply year_nonneg | done | done | | | | | by apply alter_insert | ..]; done.
Qed.

(** ** Payments *)

Lemma derive_phase v n total paid due now :
  let s := deriveInvoiceStatus v n total paid due now in
  (s = void ↔ v = true) ∧ (s = draft ↔ v = false ∧ n = false).
Proof.
  unfold deriveInvoiceStatus. destruct v; [naive_solver|]. destruct n; simpl; [|naive_solver].
  repeat case_match; naive_solver.
Qed.

Lemma status_patch_ok ps now inv :
  let inv' := status_patch ps now inv in
  frozen inv inv' ∧ iv_voidedAt inv' = iv_voidedAt inv ∧ (row_ok inv → row_ok inv').
Proof.
  intros inv'. split; [done|]. split; [done|]. intros [Hd Hv]. unfold row_ok.
  destruct (derive_phase (bool_decide (iv_voidedAt inv ≠ None)) (bool_decide (iv_number inv ≠ None))
    (iv_total inv) (fromCents (sum_amounts ps)) (hd_dueDate (iv_header inv)) now) as [Hsv Hsd].
  change (iv_voidedAt inv') with (iv_voidedAt inv). change (iv_number inv') with (iv_number inv).
  change (iv_status inv') with (deriveInvoiceStatus (bool_decide (iv_voidedAt inv ≠ None))
    (bool_decide (iv_number inv ≠ None)) (iv_total inv) (fromCents (sum_amounts ps))
    (hd_dueDate (iv_header inv)) now).
  rewrite Hsv, Hsd, bool_decide_eq_true, !bool_decide_eq_false. split; [|done].
  assert (iv_number inv = None → iv_voidedAt inv = None) as Hn.
  { intros Hnum%Hd. destruct (iv_voidedAt inv) eqn:E; [|done].
    assert (iv_status inv = void) by (by apply Hv). congruence. }
  destruct (iv_number inv), (iv_voidedAt inv); naive_solver.
Qed.

Lemma recomputeStatus_run i now db a db' :
  recomputeInvoiceStatus i now db = Ok (a, db') →
  ∃ inv, invoices db !! i = Some inv ∧
         db' = set_invoices <[i := status_patch (payments_of db i) now inv]> db.
Proof.
  unfold recomputeInvoiceStatus, getOwnedInvoiceOr404, update_invoice.
  cbv [mbind M_bind mret M_ret get_db modify throw].
  destruct (invoices db !! i) as [inv|] eqn:E; [|done]. intros [= <- <-].
  exists inv. split; [done|]. unfold set_invoices. f_equal.
  by apply (alter_insert (λ _, status_patch (payments_of db i) now inv) _ _ inv).
Qed.

(** The payments of [i] replaced and its status recomputed, as one transition. *)
Lemma payment_progress db0 i now g a db' :
  wf db0 → wf (set_payments g db0) →
  (∀ k p, py_invoiceId p ≠ i → g (invoicePayments db0) !! k = Some p ↔
                               invoicePayments db0 !! k = Some p) →
  recomputeInvoiceStatus i now (set_payments g db0) = Ok (a, db') → refined db0 db'.
Proof.
  intros Hw [Wi Wl Wp] Hg (inv & Hi & ->)%recomputeStatus_run. simpl in Hi.
  apply (refined_step _ db0); [by split| |].
  - constructor; simpl; [|done | done]. intros j inv'. rewrite lookup_insert_Some.
    intros [[<- _]|[_ Hj]]; [by apply (Wi _ _ Hi) | by apply (Wi _ _ Hj)].
  - destruct (status_patch_ok (payments_of (set_payments g db0) i) now inv) as (Hf & Hv & Hr).
    by eapply (lc_progress _ _ i inv).
Qed.

Lemma refined_trans a b c : refined a b → refined b c → refined a c.
Proof. intros [_ H1] [Hw H2]. split; [done|]. by etransitivity. Qed.

(** Drawing an id is a transition that changes no table. *)
Lemma refined_fresh db :
  wf db → refined db (set_aux (λ s, s) (N.succ (nextId db)) (events db) db).
Proof.
  intros Hw. apply (refined_step _ db); [by split| |by apply lc_settings].
  destruct Hw as [Wi Wl Wp]. constructor; simpl.
  - intros j inv ?%Wi. lia.
  - intros k l Hl. destruct (Wl _ _ Hl) as (? & ? & ? & ?). split_and!; try done; lia.
  - intros k p Hp. destruct (Wp _ _ Hp). lia.
Qed.

Lemma insert_payment_recompute db0 i p now k db1 a db' :
  wf db0 → is_Some (invoices db0 !! i) → py_invoiceId p = i →
  insert_payment p db0 = Ok (k, db1) → recomputeInvoiceStatus i now db1 = Ok (a, db') →
  refined db0 db'.
Proof.
  intros Hw [inv Hi] Hp [= <- <-] Hrun. pose proof (refined_fresh db0 Hw) as Hf.
  apply (refined_trans _ _ _ Hf). pose proof (proj1 Hf) as [Wi Wl Wp].
  eapply payment_progress; [apply Hf| | |exact Hrun].
  - constructor; simpl in *; [done | done|]. intros k p'. rewrite lookup_insert_Some.
    intros [[<- <-]|[_ Hk]]; [|by apply (Wp _ _ Hk)]. rewrite Hp. specialize (Wi _ _ Hi). lia.
  - intros k p' Hne. simpl. rewrite lookup_insert_Some. split; [naive_solver|].
    intros Hk. right. split; [|done]. intros <-. destruct Hw as [_ _ Wp0]. apply Wp0 in Hk. lia.
Qed.

Lemma triple_payment {A} db0 i p now (rest : id → M A) Q :
  wf db0 → is_Some (invoices db0 !! i) → py_invoiceId p = i →
  (∀ k, triple (refined db0) (rest k) Q) →
  triple (λ db, db = db0) (k ← insert_payment p; recomputeInvoiceStatus i now;; rest k) Q.
Proof.
  intros Hw Hi Hp Hrest db a db' -> Hrun. unfold mbind at 1, M_bind at 1 in Hrun.
  destruct (insert_payment p db0) as [[k db1]|] eqn:Ek; [|done].
  unfold mbind at 1, M_bind at 1 in Hrun.
  destruct (recomputeInvoiceStatus i now db1) as [[[] db2]|] eqn:Er; [|done].
  eapply Hrest; [|exact Hrun]. by eapply insert_payment_recompute.
Qed.

Lemma recordPayment_refines db0 i input actor now :
  triple (at_start db0) (recordPayment i input actor now) (λ _, refined db0).
Proof.
  unfold recordPayment, requireOrgAccess. eapply triple_bind; [apply triple_owned|]. intros inv.
  do 4 (eapply triple_bind; [apply triple_require|]; intros []).
  intros db a db' [[[[[[-> Hw] Hi] _] _] _] _] Hrun.
  refine (triple_payment db0 i _ now _ (λ _, refined db0) Hw _ _ _ db0 a db' eq_refl Hrun);
    [by eauto | done|].
  intros k. eapply triple_bind; [apply emit_only|]. intros [].
  eapply triple_bind; [apply triple_owned|]. intros upd.
  eapply triple_bind with (Q := λ _, refined db0).
  - case_bool_decide; [eapply triple_pre; [|apply emit_only] | apply triple_ret]; naive_solver.
  - intros []. by apply triple_ret.
Qed.

Lemma voidPayment_refines db0 k actor now :
  triple (at_start db0) (voidPayment k actor now) (λ _, refined db0).
Proof.
  unfold voidPayment, requireOrgAccess. eapply triple_bind; [apply triple_get|]. intros d. simpl.
  destruct (invoicePayments d !! k) as [p|] eqn:Ek; [|apply triple_throw].
  eapply triple_bind; [apply triple_require|]. intros [].
  intros db a db' [[<- [-> Hw]] _] Hrun. unfold mbind at 1, M_bind at 1, modify in Hrun.
  unfold mbind at 1, M_bind at 1 in Hrun.
  destruct (recomputeInvoiceStatus _ now _) as [[[] db2]|] eqn:Er; [|done].
  assert (refined db0 db2) as H2.
  { destruct Hw as [Wi Wl Wp]. eapply payment_progress; [done| | |exact Er].
    - constructor; simpl; [done | done|]. intros k' p' [_ Hk]%lookup_delete_Some. by apply (Wp _ _ Hk).
    - intros k' p' Hne. rewrite lookup_delete_Some. split; [naive_solver|].
      intros Hk'. split; [congruence | done]. }
  refine (triple_bind (refined db0) _ _ _ (λ _, refined db0) (triple_owned _ _) _ db2 a db' H2 Hrun).
  intros inv.
  eapply triple_bind; [eapply triple_pre; [|apply emit_only]; naive_solver|].
  intros []. by apply triple_ret.
Qed.

(** ** Overdue sweep and views *)

Lemma row_progress db0 i f :
  (∀ inv, frozen inv (f inv) ∧ iv_voidedAt (f inv) = iv_voidedAt inv) →
  triple (λ db, refined db0 db ∧ ∃ inv, invoices db !! i = Some inv ∧ (row_ok inv → row_ok (f inv)))
    (update_invoice i f) (λ _, refined db0).
Proof.
  intros Hf. apply triple_modify. intros db (Hr & inv & Hi & Hrow).
  destruct (Hf inv) as [Hfz Hv]. apply (refined_step _ db); [done| |].
  - destruct Hr as [[Wi Wl Wp] _]. constructor; simpl; [|done | done].
    intros j inv'. rewrite lookup_alter_Some. naive_solver.
  - eapply (lc_progress _ _ i inv (f inv)); try done. by apply alter_insert.
Qed.

Lemma mark_overdue_ok now inv : live inv → row_ok inv → row_ok (mark_overdue now inv).
Proof.
  intros [Hnd Hnv] [Hd Hv]. unfold row_ok. simpl.
  change (iv_number (mark_overdue now inv)) with (iv_number inv).
  change (iv_voidedAt (mark_overdue now inv)) with (iv_voidedAt inv). naive_solver.
Qed.

Lemma sweep_all_refined db0 due now :
  triple (λ db, refined db0 db ∧
                ∀ i, i ∈ due → ∃ inv, invoices db !! i = Some inv ∧ live inv)
    (sweep_all due now) (λ _, refined db0).
Proof.
  induction due as [|i due IH]; simpl; [apply triple_ret; naive_solver|].
  set (rest_live := λ db, ∀ j, j ∈ due → ∃ inv, invoices db !! j = Some inv ∧ live inv).
  eapply triple_bind with (Q := λ _ db, refined db0 db ∧ rest_live db).
  - intros db a db' [Hr Hlive] Hrun. split.
    + eapply (row_progress db0 i (mark_overdue now)); [by intros | | exact Hrun]. split; [done|].
      destruct (Hlive i) as (inv & Hi & Hl); [set_solver|]. exists inv.
      split; [done | by apply mark_overdue_ok].
    + injection Hrun as <- <-. intros j Hj. destruct (Hlive j) as (inv & Hi & Hl); [set_solver|].
      simpl. rewrite lookup_alter, Hi. destruct (decide (i = j)) as [->|]; [|eauto].
      rewrite Hi. simpl. eexists. split; [done|]. by split.
  - intros []. eapply triple_bind; [apply (emit_refined db0 _ rest_live); by intros|].
    intros []. apply IH.
Qed.

Lemma runOverdueSweep_refines db0 now :
  triple (at_start db0) (runOverdueSweep now) (λ _, refined db0).
Proof.
  unfold runOverdueSweep. eapply triple_bind; [apply triple_get|]. intros d. cbv zeta.
  eapply triple_bind with (Q := λ _, refined db0); [|intros []; by apply triple_ret].
  eapply triple_pre; [|apply sweep_all_refined].
  intros db [<- [-> Hw]]. split; [by split|].
  intros i ([j inv] & -> & [Hs Hj]%list_elem_of_filter)%list_elem_of_fmap.
  apply elem_of_map_to_list in Hj. exists inv. split; [done|]. simpl in Hs. unfold sweep_due in Hs.
  unfold live. by destruct (iv_status inv).
Qed.

Lemma markViewed_refines db0 i o now :
  triple (at_start db0) (markViewed i o now) (λ _, refined db0).
Proof.
  unfold markViewed. eapply triple_bind; [apply triple_owned|]. intros inv.
  eapply triple_bind; [apply triple_require|]. intros [].
  eapply triple_bind with (Q := λ _, refined db0).
  { eapply triple_pre; [|apply row_progress; by intros]. intros db [[[-> Hw] Hi] _].
    split; [by split|]. by eauto. }
  intros []. case_bool_decide; [apply emit_only | by apply triple_ret].
Qed.

(** ** Void and reissue *)

(** The ids [insert_lines] returns name lines of the list. *)
Lemma insert_lines_ids ls db ks db' :
  insert_lines ls db = Ok (ks, db') →
  (∀ k l, invoiceLines db !! k = Some l → (k < nextId db)%N) →
  (nextId db <= nextId db')%N ∧
  (∀ k l, invoiceLines db !! k = Some l → invoiceLines db' !! k = Some l) ∧
  ∀ k, k ∈ ks → ∃ l, l ∈ ls ∧ invoiceLines db' !! k = Some l.
Proof.
  revert db ks. induction ls as [|l ls IH]; intros db ks; simpl.
  { intros [= <- <-] _. split_and!; [done | done | set_solver]. }
  unfold mbind at 1, M_bind at 1. cbv [insert_line fresh modify mbind M_bind mret M_ret].
  set (db1 := set_lines _ _). destruct (insert_lines ls db1) as [[ks' db2]|] eqn:E; [|done].
  intros [= <- <-] Hlt. destruct (IH _ _ E) as (Hn & Hkeep & Hks).
  { intros k l' Hk. simpl in *. apply lookup_insert_Some in Hk as [[<- _]|[_ Hk%Hlt]]; lia. }
  simpl in Hn. split_and!; [lia| |].
  - intros k l' Hk. apply Hkeep. simpl. rewrite lookup_insert_ne; [done|]. intros <-.
    apply Hlt in Hk. lia.
  - intros k [->|Hk]%elem_of_cons; [|destruct (Hks k Hk) as (l' & ? & ?); set_solver].
    exists l. split; [set_solver|]. apply Hkeep. simpl. by rewrite lookup_insert, decide_True.
Qed.

(** A clone has the source of a line that is there. *)
Lemma clone_known db0 db d par l :
  same_rest db0 db → source_known db0 l → source_known db (clone_line d par l).
Proof. unfold source_known. simpl. intros (_ & -> & -> & _). done. Qed.

Lemma clone_lines_editing db1 d src :
  (d < nextId db1)%N → (∀ l, l ∈ src → source_known db1 l.2) →
  triple (editing db1 d) (clone_lines d src) (λ _, editing db1 d).
Proof.
  intros Hd Hsrc. unfold clone_lines. cbv zeta. set (parents := filter _ src).
  assert (∀ l, l ∈ parents → source_known db1 l.2) as Hpar.
  { intros l [_ Hl]%list_elem_of_filter. auto. }
  eapply triple_bind with (Q := λ ks db, editing db1 d db ∧ ∀ k, k ∈ ks → has_top d k (invoiceLines db)).
  { intros db ks db' He Hrun. split.
    - eapply (insert_lines_editing db1 d _ (λ _, True)); [done| |done| |exact Hrun]; [|done].
      intros l dbx (l0 & -> & Hl)%list_elem_of_fmap _ [_ [_ _ _ Hrest _]].
      split_and!; [done | by eapply clone_known, Hpar | by intros p [=]].
    - destruct (insert_lines_ids _ _ _ _ Hrun) as (_ & _ & Hks).
      { intros k l Hk. destruct He as [[_ Wl _] _]. by apply Wl in Hk as [? _]. }
      intros k Hk. destruct (Hks k Hk) as (l & (l0 & -> & _)%list_elem_of_fmap & Hl). by eexists. }
  intros ks. eapply triple_bind with
    (Q := λ _ db, editing db1 d db ∧ ∀ k, k ∈ ks → has_top d k (invoiceLines db));
    [|intros ids; apply triple_ret; by intros db [H _]].
  apply (insert_lines_editing db1 d _ (λ m, ∀ k, k ∈ ks → has_top d k m)); [done| |].
  - intros l dbx (l0 & -> & [_ Hl]%list_elem_of_filter)%list_elem_of_fmap Htop [_ [_ _ _ Hrest _]].
    split_and!; [done | by eapply clone_known, Hsrc|].
    intros p Hp. simpl in Hp. apply bind_Some in Hp as (old & _ & Hmap).
    apply elem_of_list_to_map_2 in Hmap. apply elem_of_zip_r in Hmap.
    destruct (Htop p Hmap) as (lp & ? & ? & ?). eauto.
  - intros m k l Hm Hk _ k' Hk'. destruct (Hm k' Hk') as (lp & Hlp & ? & ?). exists lp.
    split; [|done]. rewrite lookup_insert_ne; [done|]. intros <-. congruence.
Qed.

Lemma order_by_perm {A} (le : A → A → bool) l : order_by le l ≡ₚ l.
Proof.
  assert (∀ x l, insert_sorted le x l ≡ₚ x :: l) as Hins.
  { intros x l'. induction l' as [|y l' IH]; simpl; [done|]. case_match; [done|].
    rewrite IH. apply Permutation_swap. }
  unfold order_by. induction l as [|x l IH]; simpl; [done|]. by rewrite Hins, IH.
Qed.

Lemma lines_of_elem db i k l : (k, l) ∈ lines_of db i ↔ invoiceLines db !! k = Some l ∧ ln_invoiceId l = i.
Proof. unfold lines_of. rewrite list_elem_of_filter, elem_of_map_to_list. naive_solver. Qed.

(** A draft that a run has reached, and an edit of it. *)
Definition draft_at (d : id) (db : DB) : Prop :=
  ∃ inv, invoices db !! d = Some inv ∧ iv_status inv = draft.

Lemma edit_draft {A} db0 d P (body : M A) :
  (∀ db1, P db1 → wf db1 → (d < nextId db1)%N → triple (editing db1 d) body (λ _, editing db1 d)) →
  triple (λ db, refined db0 db ∧ draft_at d db ∧ P db) body (λ _ db, refined db0 db ∧ draft_at d db).
Proof.
  intros Hbody db a db' (Hr & (inv & Hi & Hd) & HP) Hrun. pose proof Hr as [Hw _].
  destruct (Hbody db HP Hw (wf_invoices _ Hw _ _ Hi) db a db' (editing_start _ _ Hw) Hrun) as [Hw' He].
  split.
  - apply (refined_step _ db); [done | done|]. by eapply lc_edit.
  - destruct He as [_ Hrow _ _ _]. destruct (Hrow inv Hi) as (inv' & Hi' & (Hs & _)).
    exists inv'. split; [done | congruence].
Qed.

Lemma reissue_insert db0 i inv :
  iv_status inv = draft → row_ok inv →
  triple (λ db, refined db0 db ∧ is_Some (invoices db !! i)) (insert_invoice inv)
    (λ d db, refined db0 db ∧ draft_at d db ∧ is_Some (invoices db !! i) ∧ d ≠ i).
Proof.
  intros Hd Hrow db d db' [Hr [ivi Hi]] Hrun.
  destruct (insert_invoice_refined db0 inv Hd Hrow db d db' Hr Hrun) as [Hr' Hdl].
  injection Hrun as <- <-. assert (nextId db ≠ i) as Hne.
  { intros <-. destruct Hr as [[Wi _ _] _]. apply Wi in Hi. lia. }
  split_and!; [done | by eexists | | done]. simpl. by rewrite lookup_insert_ne, Hi by done.
Qed.

Lemma reissue_draft_refined db0 i inv actor now :
  triple (λ db, refined db0 db ∧ is_Some (invoices db !! i)) (reissue_draft i inv actor now)
    (λ d db, refined db0 db ∧ draft_at d db).
Proof.
  unfold reissue_draft. eapply triple_bind; [by apply reissue_insert|]. intros d. simpl.
  eapply triple_bind with (Q := λ _ db, refined db0 db ∧ draft_at d db).
  { intros db a db' (Hr & (ivd & Hd & Hds) & [ivi Hi] & Hne) Hrun. split.
    - eapply row_progress; [|split; [exact Hr|]|exact Hrun]; [by intros|]. by eauto.
    - injection Hrun as <- <-. exists ivd. simpl. by rewrite lookup_alter_ne. }
  intros []. eapply triple_bind; [apply triple_get|]. intros dbx. simpl.
  eapply triple_bind with (Q := λ _ db, refined db0 db ∧ draft_at d db).
  2:{ intros []. by apply triple_ret. }
  eapply triple_pre; [|apply (edit_draft db0 d (λ db, db = dbx))].
  { intros db [<- [? ?]]. done. }
  intros db1 -> Hw Hlt. apply clone_lines_editing; [done|].
  intros [k l] Hl. rewrite order_by_perm in Hl. apply lines_of_elem in Hl as [Hl _].
  by apply (wf_lines _ Hw) in Hl as (_ & _ & ? & _).
Qed.

Lemma voidInvoice_refines db0 i reason reissue actor now :
  triple (at_start db0) (voidInvoice i reason reissue actor now) (λ _, refined db0).
Proof.
  unfold voidInvoice, requireOrgAccess. eapply triple_bind; [apply triple_owned|]. intros inv.
  do 3 (eapply triple_bind; [apply triple_require|]; intros []).
  eapply triple_bind; [apply triple_get|]. intros d. cbv zeta.
  eapply triple_bind with (Q := λ _ db, d = db0 ∧ wf db0 ∧ invoices db0 !! i = Some inv ∧ live inv ∧
    ∃ f, iv_status (f inv) = void ∧ iv_voidedAt (f inv) ≠ None ∧ frozen inv (f inv) ∧
         db = set_invoices (alter f i) db0).
  { apply triple_modify. intros db (<- & [[[[[-> Hw] Hi] _] Hnd%bool_decide_eq_true] Hnv%bool_decide_eq_true]).
    split_and!; [done | done | done | by split|]. eexists. split_and!; [| | |reflexivity]; done. }
  intros []. eapply triple_bind with (Q := λ _ db, refined db0 db ∧ is_Some (invoices db !! i)).
  { apply triple_modify. intros db (-> & Hw & Hi & Hl & f & Hf1 & Hf2 & Hf3 & ->). split.
    - apply (refined_step _ db0); [by split| |].
      + apply (wf_rewritten db0 i f _ _ _ (λ s, s) (events db0) Hw).
      + eapply (lc_void _ _ i inv (f inv)); try done. by apply alter_insert.
    - simpl. rewrite lookup_alter, decide_True, Hi by done. simpl. by eexists. }
  intros []. destruct reissue.
  - eapply triple_bind; [apply reissue_draft_refined|]. intros dr. simpl.
    eapply triple_bind; [apply (emit_refined db0 _ (draft_at dr)); by intros|]. intros [].
    eapply triple_bind with (Q := λ _ db, refined db0 db ∧ draft_at dr db).
    + eapply triple_pre; [|apply (edit_draft db0 dr (λ _, True))]; [naive_solver|].
      intros db1 _ _ _. apply recompute_editing.
    + intros []. eapply triple_post; [|apply readonly_getInvoice]. naive_solver.
  - eapply triple_bind; [eapply triple_pre; [|apply emit_only]; naive_solver|]. intros [].
    apply readonly_getInvoice.
Qed.

(** ** Refinement *)

Lemma discard_refines {A} db0 (m : M A) :
  triple (at_start db0) m (λ _, refined db0) → triple (at_start db0) (discard m) (λ _, refined db0).
Proof. intros H. eapply triple_bind; [exact H|]. intros a. by apply triple_ret. Qed.

Lemma run_op_refined op actor now db0 :
  0 <= now → triple (at_start db0) (run_op op actor now) (λ _, refined db0).
Proof.
  intros Hnow. destruct op; simpl; try apply discard_refines;
    eauto using createManualInvoice_refines, addManualLine_refines, addCatalogLine_refines,
      addBundleLine_refines, addContractLine_refines, updateLine_refines, removeLine_refines,
      deleteDraftInvoice_refines, updateInvoice_refines, recomputeTotals_refines,
      updatePartnerBillingSettings_refines, updateOrgBillingSettings_refines,
      assembleDraftFromOrg_refines, assembleDraftFromTicket_refines, issueInvoice_refines,
      recordPayment_refines, voidPayment_refines, voidInvoice_refines, runOverdueSweep_refines,
      markViewed_refines.
Qed.
