(* ===== verification/InvoiceSafety.v ===== *)
(** * What holds of every reachable state of invoicing: issued invoices are frozen,
    no work is billed twice, numbers are unique and without gaps. *)

From S2P Require Import Prelude JsNum Money Calendar InvoiceDb Invoices InvoiceLogic InvoiceLifecycle.

Open Scope Z_scope.

(** ** Reachable states *)

(** Tables before the first invoice. *)
Definition no_invoices (db : DB) : Prop :=
  invoices db = ∅ ∧ invoiceLines db = ∅ ∧ invoicePayments db = ∅ ∧ sequences db = ∅.

(** What the rest of the system may do between two invoice operations: anything to
    tickets, catalog, organisations and partners, and to the time entries and parts
    except deleting a row or taking a billed row out of [billed]. *)
Definition environment (db db' : DB) : Prop :=
  invoices db' = invoices db ∧ invoiceLines db' = invoiceLines db ∧
  invoicePayments db' = invoicePayments db ∧ sequences db' = sequences db ∧
  nextId db' = nextId db ∧
  (∀ t e, timeEntries db !! t = Some e → ∃ e', timeEntries db' !! t = Some e' ∧
          (te_billingStatus e = billed → te_billingStatus e' = billed)) ∧
  (∀ p e, ticketParts db !! p = Some e → ∃ e', ticketParts db' !! p = Some e' ∧
          (tp_billingStatus e = billed → tp_billingStatus e' = billed)).

Inductive reachable : DB → Prop :=
| reach_init db : no_invoices db → reachable db
| reach_op db op actor now db' :
    reachable db → 0 <= now → run_op op actor now db = Ok (tt, db') → reachable db'
| reach_env db db' : reachable db → environment db db' → reachable db'.

(** ** Invariants *)

(** The source a line bills, if any. *)
Inductive Source := STime (t : id) | SPart (p : id).
#[export] Instance Source_eq_dec : EqDecision Source.
Proof. solve_decision. Defined.

Definition line_source (l : Line) : option Source :=
  match ln_sourceType l with
  | src_time_entry => STime <$> ln_sourceId l
  | src_part => SPart <$> ln_sourceId l
  | _ => None
  end.

Definition source_billed (db : DB) (s : Source) : Prop :=
  match s with
  | STime t => ∃ e, timeEntries db !! t = Some e ∧ te_billingStatus e = billed
  | SPart p => ∃ e, ticketParts db !! p = Some e ∧ tp_billingStatus e = billed
  end.

(** [s] is billed by a line of the live invoice [i]. *)
Definition bills (db : DB) (i : id) (s : Source) : Prop :=
  ∃ inv k l, invoices db !! i = Some inv ∧ live inv ∧ invoiceLines db !! k = Some l ∧
             ln_invoiceId l = i ∧ line_source l = Some s.

Record billing_ok (db : DB) : Prop := {
  bo_wf : wf db;
  bo_rows : ∀ i inv, invoices db !! i = Some inv → row_ok inv;
  bo_billed : ∀ i s, bills db i s → source_billed db s;
  bo_once : ∀ i j s, bills db i s → bills db j s → i = j }.

(** ** Preservation *)

Lemma bills_same db db' i s :
  (∀ inv, invoices db' !! i = Some inv → live inv → ∃ inv0, invoices db !! i = Some inv0 ∧ live inv0) →
  (∀ k l, ln_invoiceId l = i → invoiceLines db' !! k = Some l → invoiceLines db !! k = Some l) →
  bills db' i s → bills db i s.
Proof.
  intros Hinv Hline (inv & k & l & Hi & Hl & Hk & Hli & Hs).
  destruct (Hinv inv Hi Hl) as (inv0 & Hi0 & Hl0). exists inv0, k, l. auto.
Qed.

(** Every source billed after the transition was billed before it by the same invoice. *)
Lemma billing_shrinks db db' :
  billing_ok db → (∀ i inv, invoices db' !! i = Some inv → row_ok inv) → wf db' →
  (∀ i s, bills db' i s → bills db i s) →
  (∀ i s, bills db' i s → source_billed db s → source_billed db' s) → billing_ok db'.
Proof.
  intros [Hw Hr Hb Ho] Hrow Hwf Hsub Hkeep. constructor; [done | done | |].
  - intros i s H. apply (Hkeep i s H). eapply Hb, Hsub, H.
  - intros i j s H1 H2. by apply (Ho i j s); apply Hsub.
Qed.

Lemma source_billed_same db db' s :
  timeEntries db' = timeEntries db → ticketParts db' = ticketParts db →
  source_billed db s → source_billed db' s.
Proof. unfold source_billed. by intros -> ->. Qed.

Lemma source_ids_elem src ls s :
  s ∈ source_ids src ls ↔ ∃ k l, (k, l) ∈ ls ∧ ln_sourceType l = src ∧ ln_sourceId l = Some s.
Proof.
  unfold source_ids. rewrite list_elem_of_omap. split.
  - intros ([k l] & Hl & Hs). simpl in Hs. case_bool_decide; [|done]. eauto 10.
  - intros (k & l & Hl & Ht & Hs). exists (k, l). simpl. by rewrite bool_decide_eq_true_2.
Qed.

(** The sources of the lines of [i], as ids. *)
Lemma line_source_ids db i k l s :
  invoiceLines db !! k = Some l → ln_invoiceId l = i → line_source l = Some s →
  match s with
  | STime t => t ∈ source_ids src_time_entry (lines_of db i)
  | SPart p => p ∈ source_ids src_part (lines_of db i)
  end.
Proof.
  intros Hk Hi Hs. unfold line_source in Hs.
  destruct (ln_sourceType l) eqn:Et; destruct (ln_sourceId l) eqn:Es; simplify_eq/=;
    apply source_ids_elem; exists k, l; (split; [by apply lines_of_elem | done]).
Qed.

Lemma time_billing_idem s x : time_with_billing s (time_with_billing s x) = time_with_billing s x.
Proof. done. Qed.
Lemma part_billing_idem s x : part_with_billing s (part_with_billing s x) = part_with_billing s x.
Proof. done. Qed.

Lemma live_row_progress inv inv' :
  row_ok inv → row_ok inv' → iv_number inv' = iv_number inv → iv_voidedAt inv' = iv_voidedAt inv →
  live inv' → live inv.
Proof.
  unfold live. intros [Hd Hv] [Hd' Hv'] En Ev [H1 H2]. rewrite Hd, Hv. rewrite Hd', Hv', En, Ev in *.
  done.
Qed.

Lemma bills_other db db' j i s :
  i ≠ j → (∀ k, k ≠ j → invoices db' !! k = invoices db !! k) → lines_apart j db db' →
  bills db' i s → bills db i s.
Proof.
  intros Hne Hinv Hl. apply bills_same; [intros inv; rewrite Hinv by done; eauto|].
  intros k l Hli. apply Hl. congruence.
Qed.

Lemma bills_live db i s : bills db i s → ∃ inv, invoices db !! i = Some inv ∧ live inv.
Proof. intros (inv & k & l & ? & ? & _). eauto. Qed.

(** A row written to a draft or a new invoice bills nothing. *)
Lemma draft_bills db db' j s :
  (∀ inv, invoices db' !! j = Some inv → ¬ live inv) →
  (∀ k, k ≠ j → invoices db' !! k = invoices db !! k) → lines_apart j db db' →
  ∀ i, bills db' i s → bills db i s.
Proof.
  intros Hj Hinv Hl i H. destruct (decide (i = j)) as [->|Hne].
  - apply bills_live in H as (inv & Hi & Hlive). by apply Hj in Hi.
  - by apply (bills_other db db' j).
Qed.

Lemma lstep_edit_ok db db' i inv :
  billing_ok db → wf db' → invoices db !! i = Some inv → iv_status inv = draft →
  edit i db db' → billing_ok db'.
Proof.
  intros Hok Hw Hi Hd [He Hrow Hl (Hp & Ht & Hpt & Hs) _].
  destruct (Hrow inv Hi) as (inv' & Hi' & (Hst & Hsn & _ & Hv & _)).
  apply (billing_shrinks db); [done | | done | |].
  - intros j ivj Hj. destruct (decide (j = i)) as [->|Hne].
    + rewrite Hi' in Hj. injection Hj as <-. destruct (bo_rows _ Hok _ _ Hi) as [H1 H2].
      unfold row_ok, iv_number. rewrite Hst, Hsn, Hv. done.
    + rewrite He in Hj by done. by apply (bo_rows _ Hok _ _ Hj).
  - intros j s. apply (draft_bills db db' i); [|done | done].
    intros ivj. rewrite Hi'. intros [= <-] [Hl1 _]. congruence.
  - intros j s _. by apply source_billed_same.
Qed.

Lemma lstep_create_ok db db' i inv :
  billing_ok db → wf db' → invoices db' = <[i := inv]> (invoices db) →
  iv_status inv = draft → row_ok inv → lines_apart i db db' → same_rest db db' → billing_ok db'.
Proof.
  intros Hok Hw Hi Hd Hr Hl (_ & Ht & Hpt & _). apply (billing_shrinks db); [done | | done | |].
  - intros j ivj. rewrite Hi, lookup_insert_Some. intros [[_ <-]|[_ Hj]]; [done|].
    by apply (bo_rows _ Hok _ _ Hj).
  - intros j s. apply (draft_bills db db' i); [| |done].
    + intros ivj. rewrite Hi, lookup_insert, decide_True by done. by intros [= <-] [? _].
    + intros k Hk. by rewrite Hi, lookup_insert_ne.
  - intros j s _. by apply source_billed_same.
Qed.

Lemma lstep_delete_ok db db' i :
  billing_ok db → wf db' → invoices db' = delete i (invoices db) → lines_apart i db db' →
  timeEntries db' = timeEntries db → ticketParts db' = ticketParts db → billing_ok db'.
Proof.
  intros Hok Hw Hi Hl Ht Hpt. apply (billing_shrinks db); [done | | done | |].
  - intros j ivj. rewrite Hi, lookup_delete_Some. intros [_ Hj]. by apply (bo_rows _ Hok _ _ Hj).
  - intros j s. apply (draft_bills db db' i); [| |done].
    + intros ivj. by rewrite Hi, lookup_delete, decide_True.
    + intros k Hk. by rewrite Hi, lookup_delete_ne.
  - intros j s _. by apply source_billed_same.
Qed.

Lemma lstep_progress_ok db db' i inv inv' :
  billing_ok db → wf db' → invoices db !! i = Some inv →
  invoices db' = <[i := inv']> (invoices db) → iv_number inv' = iv_number inv →
  iv_voidedAt inv' = iv_voidedAt inv → row_ok inv' → invoiceLines db' = invoiceLines db →
  timeEntries db' = timeEntries db → ticketParts db' = ticketParts db → billing_ok db'.
Proof.
  intros Hok Hw Hi Hi' Hn Hv Hr Hl Ht Hpt. apply (billing_shrinks db); [done | | done | |].
  - intros j ivj. rewrite Hi', lookup_insert_Some. intros [[_ <-]|[_ Hj]]; [done|].
    by apply (bo_rows _ Hok _ _ Hj).
  - intros j s. apply bills_same; [|by rewrite Hl].
    intros ivj. rewrite Hi', lookup_insert_Some. intros [[<- <-]|[_ Hj]] Hlive; [|by eauto].
    exists inv. split; [done|]. eapply live_row_progress; eauto. by apply (bo_rows _ Hok _ _ Hi).
  - intros j s _. by apply source_billed_same.
Qed.

(** Rebilling keeps a source billed unless it is released. *)
Lemma rebill_billed db db' b ts ps s :
  timeEntries db' = alter_all (time_with_billing b) ts (timeEntries db) →
  ticketParts db' = alter_all (part_with_billing b) ps (ticketParts db) →
  b = billed ∨ match s with STime t => t ∉ ts | SPart p => p ∉ ps end →
  source_billed db s → source_billed db' s.
Proof.
  intros Ht Hp Hb. destruct s as [t|p]; simpl; intros (e & He & Hbe).
  - rewrite Ht, alter_all_lookup, He by done. case_bool_decide; [|by eauto].
    destruct Hb as [->|]; [|done]. simpl. by eauto.
  - rewrite Hp, alter_all_lookup, He by done. case_bool_decide; [|by eauto].
    destruct Hb as [->|]; [|done]. simpl. by eauto.
Qed.

Lemma source_exists db l s :
  source_known db l → line_source l = Some s →
  match s with STime t => is_Some (timeEntries db !! t) | SPart p => is_Some (ticketParts db !! p) end.
Proof.
  unfold source_known, line_source. intros Hk Hs.
  destruct (ln_sourceType l), (ln_sourceId l); by simplify_eq/=.
Qed.

Lemma issue_bills db db' i inv :
  invoices db' = <[i := inv]> (invoices db) → invoiceLines db' = invoiceLines db →
  ∀ j s, bills db' j s →
    (j ≠ i ∧ bills db j s) ∨
    (j = i ∧ ∃ k l, invoiceLines db !! k = Some l ∧ ln_invoiceId l = i ∧ line_source l = Some s).
Proof.
  intros Hi Hl j s H. destruct (decide (j = i)) as [->|Hne].
  - right. split; [done|]. destruct H as (iv & k & l & _ & _ & Hk & ? & ?). rewrite Hl in Hk. eauto.
  - left. split; [done|]. revert H. apply (bills_other db db' i); [done| |].
    + intros k Hk. by rewrite Hi, lookup_insert_ne.
    + intros k l _. by rewrite Hl.
Qed.

Lemma lstep_issue_ok db db' i inv inv' :
  billing_ok db → wf db' → invoices db !! i = Some inv → iv_status inv = draft →
  (∀ t, t ∈ source_ids src_time_entry (lines_of db i) → time_billed db t = false) →
  (∀ p, p ∈ source_ids src_part (lines_of db i) → part_billed db p = false) →
  row_ok inv' → invoices db' = <[i := inv']> (invoices db) → invoiceLines db' = invoiceLines db →
  timeEntries db' = alter_all (time_with_billing billed)
    (source_ids src_time_entry (lines_of db i)) (timeEntries db) →
  ticketParts db' = alter_all (part_with_billing billed)
    (source_ids src_part (lines_of db i)) (ticketParts db) →
  billing_ok db'.
Proof.
  intros Hok Hw Hi Hd Hgt Hgp Hr Hi' Hl Ht Hp. pose proof (issue_bills db db' i inv' Hi' Hl) as Hcase.
  assert (∀ s, (∃ k l, invoiceLines db !! k = Some l ∧ ln_invoiceId l = i ∧ line_source l = Some s) →
            ¬ source_billed db s) as Hunbilled.
  { intros s (k & l & Hk & Hli & Hs) Hb. pose proof (line_source_ids db i k l s Hk Hli Hs) as Hin.
    destruct s as [t|p]; destruct Hb as (e & He & Hbe); [apply Hgt in Hin | apply Hgp in Hin];
      unfold time_billed, part_billed in Hin; rewrite He, Hbe in Hin; done. }
  constructor; [done | | |].
  - intros j ivj. rewrite Hi', lookup_insert_Some. intros [[_ <-]|[_ Hj]]; [done|].
    by apply (bo_rows _ Hok _ _ Hj).
  - intros j s [[_ Hb]|[-> (k & l & Hk & Hli & Hs)]]%Hcase.
    + apply (rebill_billed db db' billed _ _ s Ht Hp); [by left|]. by apply (bo_billed _ Hok j).
    + pose proof (line_source_ids db i k l s Hk Hli Hs) as Hin.
      destruct (wf_lines _ (bo_wf _ Hok) _ _ Hk) as (_ & _ & Hkn & _).
      pose proof (source_exists db l s Hkn Hs) as Hex.
      destruct s as [t|p]; destruct Hex as [e He]; simpl;
        [rewrite Ht, alter_all_lookup by done | rewrite Hp, alter_all_lookup by done];
        rewrite bool_decide_eq_true_2, He by done; simpl; by eauto.
  - intros j1 j2 s [[Hn1 H1]|[-> H1]]%Hcase [[Hn2 H2]|[-> H2]]%Hcase.
    + by apply (bo_once _ Hok j1 j2 s).
    + by destruct (Hunbilled s H2 (bo_billed _ Hok _ _ H1)).
    + by destruct (Hunbilled s H1 (bo_billed _ Hok _ _ H2)).
    + done.
Qed.

Lemma lstep_void_ok db db' i inv inv' :
  billing_ok db → wf db' → invoices db !! i = Some inv → live inv →
  ¬ live inv' → row_ok inv' → invoices db' = <[i := inv']> (invoices db) →
  invoiceLines db' = invoiceLines db →
  timeEntries db' = alter_all (time_with_billing not_billed)
    (source_ids src_time_entry (lines_of db i)) (timeEntries db) →
  ticketParts db' = alter_all (part_with_billing not_billed)
    (source_ids src_part (lines_of db i)) (ticketParts db) →
  billing_ok db'.
Proof.
  intros Hok Hw Hi Hlive Hnl Hr Hi' Hl Ht Hp.
  assert (∀ j s, bills db' j s → j ≠ i ∧ bills db j s) as Hcase.
  { intros j s H. destruct (issue_bills db db' i inv' Hi' Hl j s H) as [?|[-> _]]; [done|].
    apply bills_live in H as (iv & Hiv & Hlv). rewrite Hi', lookup_insert, decide_True in Hiv by done.
    by injection Hiv as <-. }
  apply (billing_shrinks db); [done | | done | by intros j s [_ ?]%Hcase|].
  - intros j ivj. rewrite Hi', lookup_insert_Some. intros [[_ <-]|[_ Hj]]; [done|].
    by apply (bo_rows _ Hok _ _ Hj).
  - intros j s [Hne Hb]%Hcase Hbs. apply (rebill_billed db db' not_billed _ _ s Ht Hp); [|done]. right.
    assert (∀ k l, invoiceLines db !! k = Some l → ln_invoiceId l = i → line_source l = Some s → False) as Hno.
    { intros k l Hk Hli Hs. apply Hne. apply (bo_once _ Hok j i s); [done|]. exists inv, k, l. done. }
    destruct s as [t|p]; intros (k & l & [Hk Hli]%lines_of_elem & Hty & Hid)%source_ids_elem;
      apply (Hno k l Hk Hli); unfold line_source; by rewrite Hty, Hid.
Qed.

Lemma frozen_number a b : frozen a b → iv_number b = iv_number a.
Proof. intros (_ & _ & H & _). unfold iv_number. by rewrite H. Qed.

Lemma draft_row_void inv : row_ok inv → iv_status inv = draft → iv_voidedAt inv = None.
Proof.
  intros [_ Hv] Hd. destruct (iv_voidedAt inv) eqn:E; [|done].
  assert (iv_status inv = void) by (by apply Hv). congruence.
Qed.

Lemma lstep_ok db db' : billing_ok db → lstep db db' → billing_ok db'.
Proof.
  intros Hok [Hl Hw]. destruct Hl as
    [Hi Hln (Hp & Ht & Hpt & Hs) | i inv Hi Hd He | i inv Hn Hnl Hi Hd Hr Hln Hs
    | i inv Hi Hd Hi' Hln Hp Ht Hpt Hs
    | i inv inv' y prefix Hi Hd Hy Hgt Hgp Hs Hv Ho Hn Hi' Hln Hp Ht Hpt Hsq
    | i inv inv' Hi Hi' Hf Hv Hr Hln Hp Ht Hpt Hs
    | i inv inv' Hi Hlv Hs Hv Hf Hi' Hln Hp Ht Hpt Hsq].
  - apply (billing_shrinks db); [done | | done | |].
    + rewrite Hi. apply Hok.
    + intros i s. apply bills_same; [rewrite Hi; eauto | by rewrite Hln].
    + intros i s _. by apply source_billed_same.
  - by eapply lstep_edit_ok.
  - by eapply lstep_create_ok.
  - by eapply lstep_delete_ok.
  - eapply (lstep_issue_ok db db' i inv inv'); try done. unfold row_ok.
    rewrite Hs, Hn, Hv, (draft_row_void inv); [done | | done]. by apply (bo_rows _ Hok _ _ Hi).
  - eapply lstep_progress_ok; eauto using frozen_number. by apply Hr, (bo_rows _ Hok _ _ Hi).
  - eapply (lstep_void_ok db db' i inv inv'); try done; [by intros [_ ?]|].
    destruct (bo_rows _ Hok _ _ Hi) as [Hrd _]. destruct Hlv as [Hnd _]. unfold row_ok.
    rewrite Hs, (frozen_number _ _ Hf), <- Hrd. done.
Qed.

Lemma rtc_lstep_ok db db' : billing_ok db → rtc lstep db db' → billing_ok db'.
Proof. intros Hok Hr. induction Hr; eauto using lstep_ok. Qed.

Lemma no_invoices_ok db : no_invoices db → billing_ok db.
Proof.
  intros (Hi & Hl & Hp & Hs). constructor.
  - constructor; rewrite ?Hi, ?Hl, ?Hp; set_solver.
  - rewrite Hi. set_solver.
  - intros i s (inv & k & l & H & _). by rewrite Hi in H.
  - intros i j s (inv & k & l & H & _). by rewrite Hi in H.
Qed.

Lemma environment_ok db db' : billing_ok db → environment db db' → billing_ok db'.
Proof.
  intros Hok (Hi & Hl & Hp & Hs & Hn & Ht & Hpt).
  apply (billing_shrinks db); [done | rewrite Hi; apply Hok | | |].
  - destruct (bo_wf _ Hok) as [Wi Wl Wp]. constructor; rewrite ?Hi, ?Hl, ?Hp, ?Hn; [done | | done].
    intros k l Hk. destruct (Wl _ _ Hk) as (? & ? & Hkn & Hpar). split_and!; [done | done| |].
    + unfold source_known in *. repeat case_match; try done; destruct Hkn as [e He];
        [apply Ht in He | apply Hpt in He]; destruct He as (e' & He' & _); eauto.
    + intros p Hpp. rewrite Hl. auto.
  - intros i s. apply bills_same; [rewrite Hi; eauto | by rewrite Hl].
  - intros i s _. destruct s; intros (e & He & Hb); simpl;
      [destruct (Ht _ _ He) as (e' & ? & ?) | destruct (Hpt _ _ He) as (e' & ? & ?)]; eauto.
Qed.

Lemma run_op_rtc op actor now db db' :
  wf db → 0 <= now → run_op op actor now db = Ok (tt, db') → rtc lstep db db'.
Proof. intros Hw Hnow Hrun. by apply (run_op_refined op actor now db Hnow db tt db'). Qed.

Lemma reachable_ok db : reachable db → billing_ok db.
Proof.
  induction 1 as [db H | db op actor now db' _ IH Hnow Hrun | db db' _ IH He].
  - by apply no_invoices_ok.
  - eapply rtc_lstep_ok; [exact IH|]. eapply run_op_rtc; eauto. apply IH.
  - by eapply environment_ok.
Qed.

(** ** Numbers *)

(** The partner and number of an issued invoice. *)
Definition number_view (db : DB) (i : id) : option (id * string) :=
  inv ← invoices db !! i; n ← iv_number inv; Some (iv_partnerId inv, n).

Lemma formatInvoiceNumber_inj p y c p' y' c' :
  0 <= y → 0 <= y' → 0 <= c → 0 <= c' →
  formatInvoiceNumber p y c = formatInvoiceNumber p' y' c' → y = y' ∧ c = c'.
Proof. apply numbered_inj. Qed.

(** [i] carries the number [c] of the partner [p] in the year [y]. *)
Definition numbered (db : DB) (p : id) (y c : Z) (i : id) : Prop :=
  ∃ prefix, number_view db i = Some (p, formatInvoiceNumber prefix y c).

Record numbers_ok (db : DB) : Prop := {
  no_form : ∀ i p n, number_view db i = Some (p, n) →
    ∃ y c, 0 <= y ∧ 1 <= c ∧ numbered db p y c i;
  no_range : ∀ p y c i, 0 <= y → 1 <= c → numbered db p y c i → c <= counter_of db p y;
  no_gap : ∀ p y c, 0 <= y → 1 <= c <= counter_of db p y → ∃ i, numbered db p y c i;
  no_dup : ∀ p y c i j, 0 <= y → 1 <= c → numbered db p y c i → numbered db p y c j → i = j;
  no_neg : ∀ p y, 0 <= counter_of db p y }.

Lemma numbers_same db db' :
  numbers_ok db → (∀ i, number_view db' i = number_view db i) → sequences db' = sequences db →
  numbers_ok db'.
Proof.
  intros [N1 N2 N3 N4 N5] Hv Hs.
  assert (∀ p y c i, numbered db' p y c i ↔ numbered db p y c i) as Hn.
  { intros p y c i. unfold numbered. by rewrite Hv. }
  assert (∀ p y, counter_of db' p y = counter_of db p y) as Hc.
  { intros p y. unfold counter_of. by rewrite Hs. }
  constructor; intros *; rewrite ?Hc, ?Hn; try setoid_rewrite Hn; rewrite ?Hv; eauto.
Qed.

Lemma numbers_issue db db' i p y prefix :
  numbers_ok db → 0 <= y → number_view db i = None →
  number_view db' i = Some (p, formatInvoiceNumber prefix y (counter_of db p y + 1)) →
  (∀ j, j ≠ i → number_view db' j = number_view db j) →
  sequences db' = <[(p, y) := counter_of db p y + 1]> (sequences db) → numbers_ok db'.
Proof.
  intros [N1 N2 N3 N4 N5] Hy Hnone Hsome Hv Hs. set (c0 := counter_of db p y + 1) in *.
  assert (1 <= c0) as Hc0 by (pose proof (N5 p y); lia).
  assert (∀ q z, counter_of db' q z = if decide (q = p ∧ z = y) then c0 else counter_of db q z) as Hc.
  { intros q z. unfold counter_of. rewrite Hs, lookup_insert. case_decide; case_decide; naive_solver. }
  assert (∀ q z c j, 0 <= z → 1 <= c →
    numbered db' q z c j ↔ (j = i ∧ q = p ∧ z = y ∧ c = c0) ∨ (j ≠ i ∧ numbered db q z c j)) as Hn.
  { intros q z c j Hz Hcc. unfold numbered. destruct (decide (j = i)) as [->|Hne].
    - rewrite Hsome. split; [|naive_solver]. intros (pr & [= <- E]).
      apply formatInvoiceNumber_inj in E; [naive_solver | lia..].
    - rewrite Hv by done. naive_solver. }
  constructor.
  - intros j q n Hj. destruct (decide (j = i)) as [->|Hne].
    + rewrite Hsome in Hj. injection Hj as <- <-. exists y, c0. split_and!; [done | done|]. by eexists.
    + rewrite Hv in Hj by done. destruct (N1 _ _ _ Hj) as (z & c & ? & ? & ?). exists z, c.
      split_and!; [done | done|]. apply Hn; auto.
  - intros q z c j Hz Hcc. rewrite Hn, Hc by done. intros [(-> & -> & -> & ->)|[Hne Hnum]].
    + by rewrite decide_True.
    + specialize (N2 _ _ _ _ Hz Hcc Hnum). case_decide as Hd; [|done].
      destruct Hd as [-> ->]. unfold c0. lia.
  - intros q z c Hz Hcc. rewrite Hc in Hcc. destruct (decide (q = p ∧ z = y ∧ c = c0)) as [Hd|Hd].
    + exists i. apply Hn; [lia | lia|]. naive_solver.
    + destruct (N3 q z c) as (j & Hj); [done| |].
      * case_decide as Hd'; [|done]. destruct Hd' as [-> ->].
        assert (c ≠ c0) by naive_solver. unfold c0 in *. lia.
      * exists j. apply Hn; [done | lia|]. right. split; [|done]. intros ->.
        destruct Hj as (pr & Hj). congruence.
  - intros q z c j1 j2 Hz Hcc. rewrite !Hn by done.
    intros [(-> & -> & -> & ->)|[Hn1 H1]] [(-> & E1 & E2 & E3)|[Hn2 H2]]; try done.
    + specialize (N2 _ _ _ _ Hz Hcc H2). unfold c0 in N2. lia.
    + subst. specialize (N2 _ _ _ _ Hz Hcc H1). unfold c0 in N2. lia.
    + eauto.
  - intros q z. rewrite Hc. case_decide; [lia | done].
Qed.

Lemma number_view_draft inv : row_ok inv → iv_status inv = draft → iv_number inv = None.
Proof. intros [H _] Hd. by apply H. Qed.

(** Writing a row with the same partner and number changes no view. *)
Lemma number_view_insert db db' i inv :
  invoices db' = <[i := inv]> (invoices db) →
  (n ← iv_number inv; Some (iv_partnerId inv, n)) = number_view db i →
  ∀ j, number_view db' j = number_view db j.
Proof.
  intros Hi Hn j. unfold number_view at 1. rewrite Hi, lookup_insert.
  case_decide as Hd; [|done]. subst. done.
Qed.

Lemma lifecycle_numbers db db' :
  billing_ok db → numbers_ok db → lifecycle db db' → numbers_ok db'.
Proof.
  intros Hok Hno Hl. destruct Hl as
    [Hi Hln (Hp & Ht & Hpt & Hs) | i inv Hi Hd [He Hrow _ (_ & _ & _ & Hs) _]
    | i inv Hn Hnl Hi Hd Hr Hln (_ & _ & _ & Hs)
    | i inv Hi Hd Hi' Hln Hp Ht Hpt Hs
    | i inv inv' y prefix Hi Hd Hy Hgt Hgp Hs Hv Ho Hn Hi' Hln Hp Ht Hpt Hsq
    | i inv inv' Hi Hi' Hf Hv Hr Hln Hp Ht Hpt Hs
    | i inv inv' Hi Hlv Hs Hv Hf Hi' Hln Hp Ht Hpt Hsq].
  - apply (numbers_same db); [done| |done]. intros i. unfold number_view. by rewrite Hi.
  - apply (numbers_same db); [done| |done]. intros j. unfold number_view.
    destruct (decide (j = i)) as [->|Hne]; [|by rewrite He].
    destruct (Hrow inv Hi) as (inv' & Hi' & (_ & Hsn & Ho & _)). rewrite Hi, Hi'. simpl.
    unfold iv_number, iv_partnerId. by rewrite Hsn, Ho.
  - apply (numbers_same db); [done| |done]. apply (number_view_insert db db' i inv Hi).
    rewrite (number_view_draft inv Hr Hd). unfold number_view. by rewrite Hn.
  - apply (numbers_same db); [done| |done]. intros j. unfold number_view.
    rewrite Hi', lookup_delete. case_decide as Hj; [|done]. subst j. rewrite Hi. simpl.
    by rewrite (number_view_draft inv (bo_rows _ Hok _ _ Hi) Hd).
  - apply (numbers_issue db db' i (iv_partnerId inv) y prefix); try done.
    + unfold number_view. rewrite Hi. simpl.
      by rewrite (number_view_draft inv (bo_rows _ Hok _ _ Hi) Hd).
    + unfold number_view. rewrite Hi', lookup_insert, decide_True by done. simpl. rewrite Hn. simpl.
      unfold iv_partnerId. by rewrite Ho.
    + intros j Hj. unfold number_view. by rewrite Hi', lookup_insert_ne.
  - apply (numbers_same db); [done| |done]. apply (number_view_insert db db' i inv' Hi').
    unfold number_view. rewrite Hi. simpl. rewrite (frozen_number _ _ Hf).
    destruct Hf as (Ho & _). unfold iv_partnerId. by rewrite Ho.
  - apply (numbers_same db); [done| |done]. apply (number_view_insert db db' i inv' Hi').
    unfold number_view. rewrite Hi. simpl. rewrite (frozen_number _ _ Hf).
    destruct Hf as (Ho & _). unfold iv_partnerId. by rewrite Ho.
Qed.

Lemma rtc_numbers db db' : billing_ok db → numbers_ok db → rtc lstep db db' → numbers_ok db'.
Proof.
  intros Hok Hno Hr. induction Hr as [|a b c Hs _ IH]; [done|].
  apply IH; [by eapply lstep_ok|]. destruct Hs. by eapply lifecycle_numbers.
Qed.

Lemma reachable_numbers db : reachable db → numbers_ok db.
Proof.
  induction 1 as [db (Hi & _ & _ & Hs) | db op actor now db' Hr IH Hnow Hrun | db db' Hr IH He].
  - assert (∀ i, number_view db i = None) as Hv by (intros i; unfold number_view; by rewrite Hi).
    assert (∀ p y, counter_of db p y = 0) as Hc by (intros p y; unfold counter_of; by rewrite Hs).
    assert (∀ p y c i, ¬ numbered db p y c i) as Hn.
    { intros p y c i (pr & H). by rewrite Hv in H. }
    constructor; intros *; rewrite ?Hc, ?Hv; intros; try done; try lia; exfalso; by eapply Hn.
  - pose proof (reachable_ok _ Hr) as Hok. eapply rtc_numbers; [done | done|].
    eapply run_op_rtc; eauto. apply Hok.
  - destruct He as (Hi & _ & _ & Hs & _). apply (numbers_same db); [done| |done].
    intros i. unfold number_view. by rewrite Hi.
Qed.

(** ** Frozen invoices *)

(** Issued invoice [i] is kept: its frozen part, its number and its lines. *)
Definition kept (i : id) (db db' : DB) : Prop :=
  ∀ inv, invoices db !! i = Some inv → iv_number inv ≠ None →
  ∃ inv', invoices db' !! i = Some inv' ∧ frozen inv inv' ∧
          ∀ k l, ln_invoiceId l = i →
                 invoiceLines db' !! k = Some l ↔ invoiceLines db !! k = Some l.

Lemma frozen_refl a : frozen a a.
Proof. done. Qed.
Lemma frozen_trans a b c : frozen a b → frozen b c → frozen a c.
Proof. unfold frozen. intuition congruence. Qed.

Lemma kept_lines_other i j inv db db' :
  invoices db !! i = Some inv → i ≠ j → invoices db' !! i = invoices db !! i → lines_apart j db db' →
  ∃ inv', invoices db' !! i = Some inv' ∧ frozen inv inv' ∧
          ∀ k l, ln_invoiceId l = i →
                 invoiceLines db' !! k = Some l ↔ invoiceLines db !! k = Some l.
Proof.
  intros Hi Hne Hsame Hl. exists inv. rewrite Hsame. split_and!; [done | apply frozen_refl|].
  intros k l Hli. apply Hl. congruence.
Qed.

Lemma kept_row i j invj invj' inv db db' :
  invoices db !! i = Some inv → invoices db !! j = Some invj →
  invoices db' = <[j := invj']> (invoices db) → (i = j → frozen invj invj') →
  invoiceLines db' = invoiceLines db →
  ∃ inv', invoices db' !! i = Some inv' ∧ frozen inv inv' ∧
          ∀ k l, ln_invoiceId l = i →
                 invoiceLines db' !! k = Some l ↔ invoiceLines db !! k = Some l.
Proof.
  intros Hi Hj Hj' Hf Hl. rewrite Hj', Hl, lookup_insert. destruct (decide (j = i)) as [->|Hne].
  - exists invj'. split_and!; [done | | done]. rewrite Hi in Hj. injection Hj as ->. by apply Hf.
  - rewrite Hi. eauto using frozen_refl.
Qed.

Lemma lifecycle_kept i db db' : billing_ok db → lifecycle db db' → kept i db db'.
Proof.
  intros Hok Hl inv0 Hi0 Hnum. destruct Hl as
    [Hi Hln _ | j inv Hi Hd [He _ Hln _ _] | j inv Hn Hnl Hi Hd Hr Hln _
    | j inv Hi Hd Hi' Hln _ _ _ _
    | j inv inv' y prefix Hi Hd Hy Hgt Hgp Hs Hv Ho Hn Hi' Hln _ _ _ _
    | j inv inv' Hi Hi' Hf Hv Hr Hln _ _ _ _
    | j inv inv' Hi Hlv Hs Hv Hf Hi' Hln _ _ _ _].
  1: exists inv0; rewrite Hi, Hln; eauto using frozen_refl.
  1,3,4: assert (i ≠ j) as Hne by (intros ->; rewrite Hi in Hi0; injection Hi0 as ->;
    by destruct (bo_rows _ Hok _ _ Hi) as [[Hrd _] _]; specialize (Hrd Hd)).
  - apply (kept_lines_other i j); auto.
  - apply (kept_lines_other i j); [done | done | by rewrite Hi', lookup_delete_ne | done].
  - eapply (kept_row i j); eauto. done.
  - assert (i ≠ j) by congruence.
    apply (kept_lines_other i j); [done | done | by rewrite Hi, lookup_insert_ne | done].
  - eapply (kept_row i j); eauto.
  - eapply (kept_row i j); eauto.
Qed.

Lemma rtc_kept i db db' : billing_ok db → rtc lstep db db' → kept i db db'.
Proof.
  intros Hok Hr. induction Hr as [db|a b c Hs _ IH].
  - intros inv Hi _. eauto using frozen_refl.
  - intros inv Hi Hn. pose proof (lstep_ok _ _ Hok Hs) as Hok'. destruct Hs as [Hl _].
    destruct (lifecycle_kept i a b Hok Hl inv Hi Hn) as (inv1 & Hi1 & Hf1 & Hl1).
    destruct (IH Hok' inv1 Hi1) as (inv2 & Hi2 & Hf2 & Hl2).
    { by rewrite (frozen_number _ _ Hf1). }
    exists inv2. split_and!; [done | by eapply frozen_trans|].
    intros k l Hli. by rewrite Hl2, Hl1.
Qed.

(** ** A concrete run *)

Definition demo_actor : InvoiceActor :=
  {| ac_userId := Some 9%N; ac_partnerId := Some 2%N; ac_accessibleOrgIds := None |}.

(** One ticket of organisation 1 with ninety minutes of billable work. *)
Definition demo_db : DB :=
  {| invoices := ∅; invoiceLines := ∅; invoicePayments := ∅;
     timeEntries := {[ 7%N := {| te_orgId := 1%N; te_ticketId := Some 5%N;
       te_description := Some "Onsite visit"%string; te_durationMinutes := Some 90;
       te_hourlyRate := Some "100.00"%string; te_isApproved := true; te_isBillable := true;
       te_billingStatus := not_billed; te_endedAt := Some 1699990000000 |} ]};
     ticketParts := ∅; tickets := {[ 5%N := 1%N ]};
     organizations := {[ 1%N := {| og_name := "Acme"; og_taxId := None; og_taxExempt := false;
       og_taxRate := Some "0.080"%string; og_billing := no_address |} ]};
     partners := {[ 2%N := {| pa_name := "Remuda"; pa_currencyCode := "USD";
       pa_defaultTaxRate := None; pa_invoiceNumberPrefix := "INV"; pa_invoiceTermsDays := 30;
       pa_invoiceFooter := None; pa_billingCompanyName := None; pa_billingEmail := None;
       pa_billingPhone := None; pa_billingWebsite := None; pa_billing := no_address;
       pa_billingTermsAndConditions := None |} ]};
     catalogItems := ∅; catalogOrgPricing := ∅; catalogBundleComponents := [];
     sequences := ∅; stripePayments := []; stripeConnected := ∅; nextId := 100%N; events := [] |}.

Definition demo_now : Z := 1700000000000.

(** The tables after an operation, or as they were if it throws. *)
Definition after (op : Op) (db : DB) : DB :=
  match run_op op demo_actor demo_now db with Ok (_, db') => db' | Throw _ => db end.
Definition succeeds (op : Op) (db : DB) : bool :=
  match run_op op demo_actor demo_now db with Ok _ => true | Throw _ => false end.

Lemma after_run op db :
  succeeds op db = true → run_op op demo_actor demo_now db = Ok (tt, after op db).
Proof. unfold succeeds, after. by destruct (run_op op demo_actor demo_now db) as [[[] db']|]. Qed.

Definition demo_draft : DB := after (OpAssembleTicket 5) demo_db.
Definition demo_issued : DB := after (OpIssue 100) demo_draft.

Lemma demo_draft_reachable : reachable demo_draft.
Proof.
  eapply (reach_op demo_db (OpAssembleTicket 5) demo_actor demo_now);
    [by apply reach_init | done | apply after_run; vm_compute; reflexivity].
Defined.

Lemma demo_issued_reachable : reachable demo_issued.
Proof.
  eapply (reach_op demo_draft (OpIssue 100) demo_actor demo_now);
    [apply demo_draft_reachable | done | apply after_run; vm_compute; reflexivity].
Defined.

(** The issued invoice of the run. *)
Example demo_issued_invoice :
  (λ inv, (iv_status inv, iv_number inv, iv_total inv, iv_balance inv)) <$> invoices demo_issued !! 100%N =
  Some (sent, Some "INV-2023-0001", "150.00", "150.00")%string.
Proof. vm_compute. reflexivity. Qed.

(** ** Claims *)

(** C7 (every handler of invoiceService.ts): a successful operation on a reachable
    state is a sequence of lifecycle transitions, so it changes invoices, lines,
    payments, source rows and number sequences in no other way. *)
Theorem run_op_refines_lifecycle db op actor now db' :
  reachable db → 0 <= now → run_op op actor now db = Ok (tt, db') → rtc lifecycle db db'.
Proof.
  intros Hr Hnow Hrun. apply reachable_ok in Hr. eapply rtc_subrel; [|by eapply run_op_rtc; [apply Hr|..]].
  by intros a b [? _].
Qed.

Lemma run_op_refines_lifecycle_witness :
  reachable demo_draft ∧ rtc lifecycle demo_draft demo_issued.
Proof.
  split; [apply demo_draft_reachable|].
  apply (run_op_refines_lifecycle demo_draft (OpIssue 100) demo_actor demo_now);
    [apply demo_draft_reachable | done | apply after_run; vm_compute; reflexivity].
Defined.

(** The invoice of the run bills the ninety minutes. *)
Lemma demo_bills : bills demo_issued 100 (STime 7).
Proof.
  do 2 eexists. exists (default (spec_line 0 0 0 (timeEntryToLineSpec (0%N,
    {| te_orgId := 0; te_ticketId := None; te_description := None; te_durationMinutes := None;
       te_hourlyRate := None; te_isApproved := true; te_isBillable := true;
       te_billingStatus := billed; te_endedAt := None |}))) (invoiceLines demo_issued !! 101%N)).
  split_and!; [vm_compute; reflexivity | vm_compute; intuition congruence | ..];
    try (vm_compute; reflexivity). instantiate (1 := 101%N). vm_compute. reflexivity.
Qed.



(** C9 (all handlers): once an invoice has a number, no operation changes its header,
    snapshot, amounts other than what was paid, or lines; only its payment state, status
    and stamps move on, and it is never deleted. *)
Theorem issued_invoice_frozen db op actor now db' i inv :
  reachable db → 0 <= now → run_op op actor now db = Ok (tt, db') →
  invoices db !! i = Some inv → iv_number inv ≠ None →
  ∃ inv', invoices db' !! i = Some inv' ∧ frozen inv inv' ∧
          ∀ k l, ln_invoiceId l = i →
                 invoiceLines db' !! k = Some l ↔ invoiceLines db !! k = Some l.
Proof.
  intros Hr Hnow Hrun Hi Hn. apply reachable_ok in Hr.
  eapply (rtc_kept i db db' Hr); [|done | done]. eapply run_op_rtc; eauto. apply Hr.
Qed.

(** Voiding with reissue leaves the voided invoice's content in place. *)
Lemma issued_invoice_frozen_witness :
  ∃ inv inv', invoices demo_issued !! 100%N = Some inv ∧
    invoices (after (OpVoid 100 "wrong rate" true) demo_issued) !! 100%N = Some inv' ∧
    frozen inv inv'.
Proof.
  destruct (invoices demo_issued !! 100%N) as [inv|] eqn:E; [|vm_compute in E; discriminate E].
  assert (iv_number inv ≠ None) as Hn.
  { assert (iv_number <$> invoices demo_issued !! 100%N = Some (Some "INV-2023-0001"%string)) as H
      by (vm_compute; reflexivity). rewrite E in H. injection H as H. by rewrite H. }
  destruct (issued_invoice_frozen demo_issued (OpVoid 100 "wrong rate" true) demo_actor demo_now
    (after (OpVoid 100 "wrong rate" true) demo_issued) 100 inv) as (inv' & Hi' & Hf & _);
    [apply demo_issued_reachable | done | apply after_run; vm_compute; reflexivity | exact E | exact Hn|].
  exists inv, inv'. split; [reflexivity|]. split; [exact Hi' | exact Hf].
Defined.


