(* ===== verification/Ledger.v ===== *)
(** * The ledger of an invoice: recording and voiding payments keeps balance = total -
    payments to the cent, refuses overpayment, and marks the invoice paid exactly when
    the balance is nil ([recordPayment], [voidPayment], [recomputeInvoiceStatus] and
    [deriveInvoiceStatus] of [invoiceService.ts] and [invoiceMath.ts]). *)

From S2P Require Import Prelude JsNum Money Calendar InvoiceDb Invoices InvoiceLogic InvoiceLifecycle.

Open Scope Z_scope.

(** ** Exact cents *)

(** [toFixed 2] of the number of a non-negative two-decimal text is that text. *)
Lemma toFixed_Number a :
  0 <= a <= 2 ^ 49 → toFixed 2 (Number (decimal_text 2 a)) = decimal_text 2 a.
Proof.
  intros Ha. destruct (Number_decimal_text 2 a) as (q & -> & Hq); [done|].
  change (10 ^ Z.of_nat 2) with 100 in Hq. apply toFixed_near.
  - apply (rel_near _ _ uround); [|unfold uround; lra | lia].
    apply (rel_wd (rnd q * inject_Z 100) _ (q * inject_Z 100) _);
      [reflexivity | rewrite Hq; by field|].
    apply (rel_weaken _ _ (uround + 0 + uround * 0)); [unfold uround; lra|].
    apply rel_mul; [unfold uround; lra | lra | apply rel_rnd | apply rel_refl].
  - split; [lia|]. intros _. apply rnd_nonneg. rewrite Hq.
    assert (0 <= inject_Z a)%Q as H by (change 0%Q with (inject_Z 0); rewrite <- Zle_Qle; lia).
    unfold Qdiv. change (/ inject_Z 100)%Q with (1 # 100). lra.
Qed.

Lemma cents_text z : Z.abs z <= 2 ^ 49 → cents (decimal_text 2 z) = nint z.
Proof. intros Hz. unfold cents. by rewrite toCents_text. Qed.

Lemma round_cents_text z : Z.abs z <= 2 ^ 49 → round_cents (decimal_text 2 z) = Some z.
Proof.
  intros Hz. pose proof (toCents_text z Hz) as H. unfold toCents in H.
  destruct (decimal_text 2 z) eqn:E; [by apply decimal_text_nonempty in E | done].
Qed.

Lemma nsub_int z w :
  Z.abs (z - w) <= 2 ^ 53 → ∃ q, nsub (nint z) (nint w) = Some q ∧ q == inject_Z (z - w).
Proof.
  intros Hb. exists (rnd (inject_Z z - inject_Z w)). split; [done|].
  apply rnd_int; [|done]. unfold Zminus, Qminus. by rewrite inject_Z_plus, inject_Z_opp.
Qed.

(** ** The sum of the payments *)

Definition pcents (p : Payment) : Z := default 0 (toCents (Some (py_amount p))).
Definition payment_ok (p : Payment) : Prop :=
  py_amount p = decimal_text 2 (pcents p) ∧ 0 <= pcents p.
Definition paid_cents (ps : list (id * Payment)) : Z := foldr (λ p s, pcents p.2 + s) 0 ps.

#[export] Instance paid_cents_perm : Proper (Permutation ==> eq) paid_cents.
Proof. intros l1 l2 H. unfold paid_cents. induction H; simpl; lia. Qed.

Lemma sum_amounts_acc ps q s :
  Forall (λ p, payment_ok p.2) ps → q == inject_Z s → 0 <= s → s + paid_cents ps <= 2 ^ 49 →
  ∃ q', fold_left (λ s p, nadd s (cents (py_amount p.2))) ps (Some q) = Some q' ∧
        q' == inject_Z (s + paid_cents ps).
Proof.
  intros Hps. revert q s. induction Hps as [|p ps [Hp Hpos] Hps IH]; intros q s Hq Hs Hb.
  { exists q. by rewrite Z.add_0_r. }
  change (paid_cents (p :: ps)) with (pcents p.2 + paid_cents ps) in *. cbn [fold_left]. assert (0 <= paid_cents ps) as H0.
  { clear -Hps. induction Hps as [|x l [_ ?] _ IH]; simpl; lia. }
  rewrite Hp, cents_text by lia. destruct (nadd_int q s (pcents p.2) Hq) as (q1 & -> & Hq1); [lia|].
  destruct (IH q1 (s + pcents p.2) Hq1) as (q' & ? & ?); [lia | lia|].
  exists q'. by rewrite Z.add_assoc.
Qed.

Lemma sum_amounts_exact ps :
  Forall (λ p, payment_ok p.2) ps → paid_cents ps <= 2 ^ 49 →
  ∃ q, sum_amounts ps = Some q ∧ q == inject_Z (paid_cents ps).
Proof. intros Hps Hb. apply (sum_amounts_acc ps (inject_Z 0) 0); done. Qed.

Lemma paid_cents_nonneg ps : Forall (λ p, payment_ok p.2) ps → 0 <= paid_cents ps.
Proof. induction 1 as [|x l [_ ?] _ IH]; simpl; lia. Qed.

(** ** The ledger *)

(** Total [T] and payments summing to [S], with the columns in agreement. *)
Record ledger (db : DB) (i : id) (inv : Invoice) (T S : Z) : Prop := {
  lg_row : invoices db !! i = Some inv;
  lg_total : iv_total inv = decimal_text 2 T;
  lg_payments : Forall (λ p, payment_ok p.2) (payments_of db i);
  lg_paid : paid_cents (payments_of db i) = S;
  lg_balance : iv_balance inv = decimal_text 2 (T - S);
  lg_range : S <= T <= 2 ^ 40 }.

(** The row written from payments summing to [S]. *)
Lemma status_patch_ledger ps now inv T :
  iv_total inv = decimal_text 2 T → Forall (λ p, payment_ok p.2) ps →
  paid_cents ps <= T <= 2 ^ 40 → iv_voidedAt inv = None → iv_number inv ≠ None →
  let inv' := status_patch ps now inv in
  iv_balance inv' = decimal_text 2 (T - paid_cents ps) ∧
  am_amountPaid (iv_amounts inv') = decimal_text 2 (paid_cents ps) ∧
  (iv_status inv' = paid ↔ paid_cents ps = T).
Proof.
  intros HT Hps Hr Hv Hn. pose proof (paid_cents_nonneg ps Hps) as H0.
  destruct (sum_amounts_exact ps Hps) as (q & Eq & Hq); [lia|].
  assert (fromCents (sum_amounts ps) = decimal_text 2 (paid_cents ps)) as Ep
    by (rewrite Eq; apply fromCents_int; [done | lia]).
  destruct (nsub_int T (paid_cents ps)) as (b & Eb & Hb); [lia|].
  unfold status_patch. cbv zeta. rewrite Ep. split_and!; [|done|].
  - unfold iv_balance. simpl. rewrite HT, !cents_text, Eb by lia. apply fromCents_int; [done | lia].
  - unfold with_status. cbn [iv_status]. unfold deriveInvoiceStatus.
    rewrite bool_decide_eq_false_2, bool_decide_eq_true_2 by (done || congruence). cbn [negb].
    rewrite HT, !cents_text, Eb by lia. unfold num_le0.
    assert (Qle_bool b 0 = true ↔ paid_cents ps = T) as Hle.
    { rewrite Qle_bool_iff, Hb. change 0%Q with (inject_Z 0). rewrite <- Zle_Qle. lia. }
    destruct (Qle_bool b 0); [naive_solver|]. repeat case_match; naive_solver.
Qed.

Lemma payments_of_insert db i k p :
  invoicePayments db !! k = None → py_invoiceId p = i →
  payments_of (set_payments <[k := p]> db) i ≡ₚ (k, p) :: payments_of db i.
Proof.
  intros Hk Hp. unfold payments_of. simpl. rewrite map_to_list_insert by done.
  rewrite filter_cons. by rewrite decide_True.
Qed.

Lemma payments_of_delete db i k p :
  invoicePayments db !! k = Some p → py_invoiceId p = i →
  payments_of db i ≡ₚ (k, p) :: payments_of (set_payments (delete k) db) i.
Proof.
  intros Hk Hp. unfold payments_of. simpl. rewrite <- (map_to_list_delete _ _ _ Hk).
  rewrite filter_cons. by rewrite decide_True.
Qed.

(** ** Recording *)

(** An issued invoice that has not been voided. *)
Definition payable (inv : Invoice) : Prop :=
  live inv ∧ iv_voidedAt inv = None ∧ iv_number inv ≠ None.

Lemma status_patch_total ps now inv : iv_total (status_patch ps now inv) = iv_total inv.
Proof. done. Qed.

(** The state after a payment of [a] cents. *)
Lemma recompute_ledger db i inv T now db' :
  invoices db !! i = Some inv → payable inv → iv_total inv = decimal_text 2 T →
  Forall (λ p, payment_ok p.2) (payments_of db i) → paid_cents (payments_of db i) <= T <= 2 ^ 40 →
  recomputeInvoiceStatus i now db = Ok (tt, db') →
  let inv' := status_patch (payments_of db i) now inv in
  ledger db' i inv' T (paid_cents (payments_of db i)) ∧
  (iv_status inv' = paid ↔ paid_cents (payments_of db i) = T).
Proof.
  intros Hi (_ & Hv & Hn) HT Hps Hr (inv0 & Hi0 & ->)%recomputeStatus_run.
  rewrite Hi in Hi0. injection Hi0 as <-.
  destruct (status_patch_ledger (payments_of db i) now inv T HT Hps Hr Hv Hn) as (Hb & _ & Hs).
  split; [|done]. constructor; try done. simpl. by rewrite lookup_insert, decide_True.
Qed.

Lemma recompute_runs db i inv now :
  invoices db !! i = Some inv → ∃ db', recomputeInvoiceStatus i now db = Ok (tt, db').
Proof.
  intros Hi. unfold recomputeInvoiceStatus, getOwnedInvoiceOr404.
  cbv [mbind M_bind get_db mret M_ret update_invoice modify]. rewrite Hi. by eexists.
Qed.

Lemma payment_text_ok p a :
  0 <= a <= 2 ^ 49 → py_amount p = decimal_text 2 a → payment_ok p ∧ pcents p = a.
Proof.
  intros Ha Hp. assert (pcents p = a) as E by (unfold pcents; rewrite Hp, toCents_text; [done | lia]).
  unfold payment_ok. rewrite E. by split; [split; [|lia]|].
Qed.

(** The ledger survives events and unrelated writes. *)
Lemma ledger_events db i inv T S n ev :
  ledger db i inv T S → ledger (set_aux (λ s, s) n ev db) i inv T S.
Proof. by intros []. Qed.

Definition payment_row (i : id) (inv : Invoice) (input : PaymentInput) (actor : InvoiceActor)
    : Payment :=
  {| py_invoiceId := i; py_orgId := iv_orgId inv; py_amount := toFixed 2 (Number (pi_amount input));
     py_method := pi_method input; py_reference := pi_reference input;
     py_receivedAt := pi_receivedAt input; py_recordedBy := ac_userId actor;
     py_note := pi_note input |}.

(** The guards of [recordPayment] pass and its body runs on. *)
Lemma recordPayment_body db i inv input actor now :
  invoices db !! i = Some inv → payable inv → org_accessible actor (iv_orgId inv) = true →
  recordPayment i input actor now db =
  (if exceeds (round_cents (pi_amount input)) (round_cents (iv_balance inv)) then Throw OVERPAYMENT
   else (payment ← insert_payment (payment_row i inv input actor);
         recomputeInvoiceStatus i now;;
         emitInvoiceEvent (payment_recorded i payment);;
         updated ← getOwnedInvoiceOr404 i;
         (if bool_decide (iv_status updated = paid) then emitInvoiceEvent (invoice_paid i)
          else mret tt);;
         mret (updated, payment)) db).
Proof.
  intros Hi ([Hnd Hnv] & _ & _) Ho.
  unfold recordPayment. rewrite (run_bind _ _ db inv db) by (by apply run_owned).
  unfold requireOrgAccess. rewrite (run_bind _ _ db tt db) by (by rewrite run_require, Ho).
  rewrite (run_bind _ _ db tt db) by (by rewrite run_require, bool_decide_eq_true_2).
  rewrite (run_bind _ _ db tt db) by (by rewrite run_require, bool_decide_eq_true_2).
  destruct (exceeds _ _); [by apply run_throw|]. by rewrite (run_bind _ _ db tt db).
Qed.

Lemma fresh_payment db : wf db → invoicePayments db !! nextId db = None.
Proof.
  intros Hw. destruct (invoicePayments db !! nextId db) eqn:E; [|done]. apply (wf_payments _ Hw) in E. lia.
Qed.

(** Deriving the status again keeps an invoice payable and its currency. *)
Lemma payable_patch ps now inv :
  payable inv → payable (status_patch ps now inv) ∧ iv_snapshot (status_patch ps now inv) = iv_snapshot inv.
Proof.
  intros (_ & Hv & Hn). split; [|done]. split; [|done]. unfold live, status_patch. cbv zeta.
  cbn [with_status iv_status]. unfold deriveInvoiceStatus.
  rewrite bool_decide_eq_false_2, bool_decide_eq_true_2 by (done || congruence). cbn [negb].
  repeat case_match; done.
Qed.

(** Posting a payment of [a] cents: the row inserted and the status derived again. *)
Lemma post_payment db i inv T S p a now :
  invoicePayments db !! nextId db = None → ledger db i inv T S → payable inv →
  py_invoiceId p = i → py_amount p = decimal_text 2 a → 0 < a → S + a <= T → 0 <= S →
  let db1 := set_payments <[nextId db := p]> (set_aux (λ s, s) (N.succ (nextId db)) (events db) db) in
  ∃ inv' db2, insert_payment p db = Ok (nextId db, db1) ∧ recomputeInvoiceStatus i now db1 = Ok (tt, db2) ∧
    ledger db2 i inv' T (S + a) ∧ (iv_status inv' = paid ↔ S + a = T) ∧
    inv' = status_patch (payments_of db1 i) now inv.
Proof.
  intros Hw [Hi HT Hps HS Hb Hr] Hpay Hpi Ha Har Hle HS0 db1.
  destruct (payment_text_ok p a) as [Hpok Hpc]; [lia | done|].
  set (db0 := set_aux (λ s, s) (N.succ (nextId db)) (events db) db) in *.
  assert (payments_of db1 i ≡ₚ (nextId db, p) :: payments_of db i) as Hperm.
  { by apply (payments_of_insert db0 i (nextId db) p). }
  assert (paid_cents (payments_of db1 i) = S + a) as Hsum by (rewrite Hperm; simpl; lia).
  destruct (recompute_runs db1 i inv now Hi) as (db2 & Erun).
  destruct (recompute_ledger db1 i inv T now db2) as [Hl Hst]; try done.
  { rewrite Hperm. by constructor. }
  { lia. }
  rewrite Hsum in *. by exists (status_patch (payments_of db1 i) now inv), db2.
Qed.

(** (recordPayment): on an issued invoice whose columns agree with its payments, a
    payment above the balance is refused with OVERPAYMENT and nothing is written; any
    other payment of whole cents is recorded, the balance becomes total minus payments
    to the cent, and the invoice is paid exactly when nothing is left. *)
Theorem recordPayment_ledger db i inv T S input a actor now :
  wf db → ledger db i inv T S → payable inv → org_accessible actor (iv_orgId inv) = true →
  pi_amount input = decimal_text 2 a → 0 < a <= 2 ^ 40 → 0 <= S →
  if T - S <? a then recordPayment i input actor now db = Throw OVERPAYMENT
  else ∃ inv' k db', recordPayment i input actor now db = Ok ((inv', k), db') ∧
         ledger db' i inv' T (S + a) ∧ (iv_status inv' = paid ↔ S + a = T).
Proof.
  intros Hw HL Hpay Ho Ha Har HS0. pose proof HL as [Hi HT Hps HS Hb Hr].
  rewrite (recordPayment_body db i inv) by done.
  rewrite Ha, Hb, !round_cents_text by lia. cbn [exceeds].
  destruct (Z.ltb_spec (T - S) a) as [Hlt|Hge]; [done|].
  set (p := payment_row i inv input actor).
  assert (py_amount p = decimal_text 2 a) as Hp2
    by (unfold p, payment_row; simpl; rewrite Ha; apply toFixed_Number; lia).
  destruct (post_payment db i inv T S p a now) as (inv' & db2 & E1 & E2 & Hl & Hst & _);
    [by apply fresh_payment | done.. | lia | lia | done|].
  rewrite (run_bind _ _ db _ _ E1), (run_bind _ _ _ _ _ E2).
  set (db3 := set_aux (λ s, s) (nextId db2) (events db2 ++ [payment_recorded i (nextId db)]) db2).
  rewrite (run_bind _ _ db2 tt db3) by done.
  rewrite (run_bind _ _ db3 inv' db3) by (apply run_owned, (lg_row _ _ _ _ _ Hl)).
  exists inv', (nextId db). case_bool_decide as Hp.
  - eexists. split; [done|]. split; [by do 2 apply ledger_events | done].
  - exists db3. split; [done|]. split; [by apply ledger_events | done].
Qed.

(** The tables of a small run: an issued invoice of 150.00 without payments. *)
Definition ledger_invoice : Invoice :=
  issued_row None None "0.000"
    {| t_subtotal := "150.00"; t_taxTotal := "0.00"; t_total := "150.00" |} "INV-2026-0001" 0
    (new_invoice 2 1 None None None None None 0).
Definition ledger_db : DB :=
  {| invoices := {[ 100%N := ledger_invoice ]}; invoiceLines := ∅; invoicePayments := ∅;
     timeEntries := ∅; ticketParts := ∅; tickets := ∅; organizations := ∅; partners := ∅;
     catalogItems := ∅; catalogOrgPricing := ∅; catalogBundleComponents := []; sequences := ∅;
     stripePayments := []; stripeConnected := ∅; nextId := 101%N; events := [] |}.
Definition ledger_actor : InvoiceActor :=
  {| ac_userId := None; ac_partnerId := None; ac_accessibleOrgIds := Some [1%N] |}.

Lemma ledger_db_wf : wf ledger_db.
Proof.
  constructor; intros *; unfold ledger_db; simpl; rewrite ?lookup_singleton_Some, ?lookup_empty; try done.
  intros [<- _]. done.
Qed.

Lemma ledger_db_ledger : ledger ledger_db 100 ledger_invoice 15000 0.
Proof.
  constructor; [vm_compute; reflexivity | vm_compute; reflexivity | | vm_compute; reflexivity |
    vm_compute; reflexivity | lia].
  assert (payments_of ledger_db 100 = []) as -> by (vm_compute; reflexivity). constructor.
Qed.

(** Paying 150.00 settles the invoice; one cent more is refused. *)
Lemma recordPayment_ledger_witness :
  let input := {| pi_amount := decimal_text 2 15000; pi_method := card; pi_reference := None;
                  pi_receivedAt := "2026-01-02"; pi_note := None |} in
  let more := {| pi_amount := decimal_text 2 15001; pi_method := card; pi_reference := None;
                 pi_receivedAt := "2026-01-02"; pi_note := None |} in
  (∃ inv' k db', recordPayment 100 input ledger_actor 0 ledger_db = Ok ((inv', k), db') ∧
     ledger db' 100 inv' 15000 15000 ∧ (iv_status inv' = paid ↔ 0 + 15000 = 15000)) ∧
  recordPayment 100 more ledger_actor 0 ledger_db = Throw OVERPAYMENT.
Proof.
  assert (payable ledger_invoice) as Hp by (by repeat split).
  intros input more. split.
  - apply (recordPayment_ledger ledger_db 100 ledger_invoice 15000 0 input 15000 ledger_actor 0);
      [apply ledger_db_wf | apply ledger_db_ledger | exact Hp | reflexivity | reflexivity | lia | lia].
  - apply (recordPayment_ledger ledger_db 100 ledger_invoice 15000 0 more 15001 ledger_actor 0);
      [apply ledger_db_wf | apply ledger_db_ledger | exact Hp | reflexivity | reflexivity | lia | lia].
Defined.

(** ** Voiding a payment *)

(** Taking a payment out again. *)
Lemma unpost_payment db i inv T S k p now :
  ledger db i inv T S → payable inv → invoicePayments db !! k = Some p → py_invoiceId p = i →
  let db1 := set_payments (delete k) db in
  ∃ inv' db2, recomputeInvoiceStatus i now db1 = Ok (tt, db2) ∧ ledger db2 i inv' T (S - pcents p) ∧
    (iv_status inv' = paid ↔ S - pcents p = T) ∧ invoicePayments db2 = delete k (invoicePayments db) ∧
    inv' = status_patch (payments_of db1 i) now inv.
Proof.
  intros [Hi HT Hps HS Hb Hr] Hpay Hk Hpi db1.
  pose proof (payments_of_delete db i k p Hk Hpi) as Hperm. fold db1 in Hperm.
  rewrite Hperm in Hps, HS. apply Forall_cons in Hps as [[_ Hpos] Hps]. simpl in HS.
  fold (paid_cents (payments_of db1 i)) in HS.
  destruct (recompute_runs db1 i inv now Hi) as (db2 & Erun).
  destruct (recompute_ledger db1 i inv T now db2) as [Hl Hst]; try done.
  { simpl in Hpos. lia. }
  replace (paid_cents (payments_of db1 i)) with (S - pcents p) in * by lia.
  eexists _, db2. split_and!; [done..| |done].
  by apply recomputeStatus_run in Erun as (inv0 & _ & ->).
Qed.

(** Replacing the amount of a payment. *)
Lemma replace_payment db i inv T S k p p' now :
  ledger db i inv T S → payable inv → invoicePayments db !! k = Some p → py_invoiceId p = i →
  py_invoiceId p' = i → payment_ok p' → S - pcents p + pcents p' <= T →
  let db1 := set_payments <[k := p']> db in
  ∃ inv' db2, recomputeInvoiceStatus i now db1 = Ok (tt, db2) ∧
    ledger db2 i inv' T (S - pcents p + pcents p') ∧ (iv_status inv' = paid ↔ S - pcents p + pcents p' = T) ∧
    inv' = status_patch (payments_of db1 i) now inv.
Proof.
  intros [Hi HT Hps HS Hb Hr] Hpay Hk Hpi Hpi' Hok Hle db1.
  pose proof (payments_of_delete db i k p Hk Hpi) as Hperm. set (db0 := set_payments (delete k) db) in Hperm.
  assert (payments_of db1 i ≡ₚ (k, p') :: payments_of db0 i) as Hperm1.
  { rewrite <- (payments_of_insert db0 i k p') by (done || apply lookup_delete_eq).
    unfold payments_of. simpl. by rewrite insert_delete_eq. }
  rewrite Hperm in Hps, HS. apply Forall_cons in Hps as [[_ Hpos] Hps]. simpl in HS.
  fold (paid_cents (payments_of db0 i)) in HS.
  assert (paid_cents (payments_of db1 i) = S - pcents p + pcents p') as Hsum.
  { rewrite Hperm1. simpl. fold (paid_cents (payments_of db0 i)). lia. }
  destruct (recompute_runs db1 i inv now Hi) as (db2 & Erun).
  destruct (recompute_ledger db1 i inv T now db2) as [Hl Hst]; try done.
  { rewrite Hperm1. by constructor. }
  { lia. }
  rewrite Hsum in *. by eexists _, db2.
Qed.

(** voidPayment: voiding a recorded payment of an issued invoice removes it and
    gives its amount back to the balance, to the cent; the invoice is then paid only if
    the remaining payments still cover it. *)
Theorem voidPayment_ledger db i inv T S k p actor now :
  ledger db i inv T S → payable inv → invoicePayments db !! k = Some p → py_invoiceId p = i →
  org_accessible actor (py_orgId p) = true →
  ∃ inv' db', voidPayment k actor now db = Ok ((inv', p), db') ∧
    ledger db' i inv' T (S - pcents p) ∧ (iv_status inv' = paid ↔ S - pcents p = T) ∧
    invoicePayments db' = delete k (invoicePayments db).
Proof.
  intros HL Hpay Hk Hpi Ho.
  destruct (unpost_payment db i inv T S k p now HL Hpay Hk Hpi) as (inv' & db2 & Erun & Hl & Hst & Ep & _).
  set (db1 := set_payments (delete k) db) in *.
  unfold voidPayment. rewrite (run_bind _ _ db db db), Hk by done.
  unfold requireOrgAccess. rewrite (run_bind _ _ db tt db) by (by rewrite run_require, Ho).
  rewrite (run_bind _ _ db tt db1) by done. rewrite Hpi, (run_bind _ _ db1 tt db2) by done.
  rewrite (run_bind _ _ db2 _ db2) by (apply run_owned, (lg_row _ _ _ _ _ Hl)).
  do 2 eexists. split; [done|]. split; [by apply ledger_events | done].
Qed.

(** Voiding the only payment of 40.00 reopens the full balance. *)
Lemma voidPayment_ledger_witness :
  let p := {| py_invoiceId := 100%N; py_orgId := 1%N; py_amount := decimal_text 2 4000;
              py_method := check; py_reference := None; py_receivedAt := "2026-01-02";
              py_recordedBy := None; py_note := None |} in
  let db := set_payments <[ 7%N := p ]> (set_invoices <[ 100%N :=
    status_patch [(7%N, p)] 0 ledger_invoice ]> ledger_db) in
  ∃ inv' db', voidPayment 7 ledger_actor 0 db = Ok ((inv', p), db') ∧
    ledger db' 100 inv' 15000 (4000 - 4000) ∧ (iv_status inv' = paid ↔ 4000 - 4000 = 15000) ∧
    invoicePayments db' = delete 7%N (invoicePayments db).
Proof.
  intros p db.
  apply (voidPayment_ledger db 100 (status_patch [(7%N, p)] 0 ledger_invoice) 15000 4000 7 p);
    [|by repeat split; vm_compute; congruence | reflexivity | reflexivity | reflexivity].
  constructor; [vm_compute; reflexivity | vm_compute; reflexivity | | vm_compute; reflexivity |
    vm_compute; reflexivity | lia].
  assert (payments_of db 100 = [(7%N, p)]) as -> by (vm_compute; reflexivity).
  constructor; [|constructor]. split; vm_compute; congruence.
Defined.
