(* ===== verification/AsyncQueue.v ===== *)
(** * The single-consumer queue between producers and async iterators
    ([utils/asyncQueue.ts]).

    A call to [next] that finds nothing leaves a pending promise; [push] or [close]
    resolves it.  [results] collects what the promises of [next] resolved to, in the order
    of the calls: there is at most one pending promise, so this is also the order of
    resolution. *)

From S2P Require Import Prelude.

Section queue.
Context {T : Type}.

(** [IteratorResult]: a value, or done. *)
Inductive IteratorResult := Value (v : T) | Done.

Record AsyncEventQueue := {
  buffer : list T; waiting : bool; closed : bool; results : list IteratorResult }.

Definition empty_queue : AsyncEventQueue :=
  {| buffer := []; waiting := false; closed := false; results := [] |}.

(** Resolve the pending promise. *)
Definition resolve (r : IteratorResult) (q : AsyncEventQueue) : AsyncEventQueue :=
  {| buffer := buffer q; waiting := false; closed := closed q; results := results q ++ [r] |}.

Definition push (item : T) (q : AsyncEventQueue) : bool * AsyncEventQueue :=
  if closed q then (false, q)
  else if waiting q then (true, resolve (Value item) q)
  else (true, {| buffer := buffer q ++ [item]; waiting := waiting q; closed := closed q;
                 results := results q |}).

Definition close (q : AsyncEventQueue) : AsyncEventQueue :=
  let q := {| buffer := buffer q; waiting := waiting q; closed := true; results := results q |} in
  if waiting q then resolve Done q else q.

Definition isClosed (q : AsyncEventQueue) : bool := closed q.

Inductive QueueError := OnlyOneConsumer.

(** [next] of the iterator: the promise is resolved at once or left pending. *)
Definition next (q : AsyncEventQueue) : outcome QueueError AsyncEventQueue :=
  match buffer q with
  | v :: rest => Ok {| buffer := rest; waiting := waiting q; closed := closed q;
                       results := results q ++ [Value v] |}
  | [] =>
      if closed q then Ok {| buffer := []; waiting := waiting q; closed := true;
                             results := results q ++ [Done] |}
      else if waiting q then Throw OnlyOneConsumer
      else Ok {| buffer := []; waiting := true; closed := false; results := results q |}
  end.

(** ** Runs *)

(** The state of a run: the queue, the items [push] accepted, the calls of [next] that
    returned a promise. *)
Record Run := { queue : AsyncEventQueue; accepted : list T; calls : nat }.

Inductive queue_step : Run → Run → Prop :=
| step_push r v b q :
    push v (queue r) = (b, q) →
    queue_step r {| queue := q; accepted := accepted r ++ (if b then [v] else []);
                    calls := calls r |}
| step_close r :
    queue_step r {| queue := close (queue r); accepted := accepted r; calls := calls r |}
| step_next r q :
    next (queue r) = Ok q →
    queue_step r {| queue := q; accepted := accepted r; calls := S (calls r) |}
| step_next_refused r e : next (queue r) = Throw e → queue_step r r.

Definition start : Run := {| queue := empty_queue; accepted := []; calls := 0 |}.

Definition values (rs : list IteratorResult) : list T :=
  omap (λ r, match r with Value v => Some v | Done => None end) rs.

(** ** Invariant *)

Record queue_ok (r : Run) : Prop := {
  qo_fifo : values (results (queue r)) ++ buffer (queue r) = accepted r;
  qo_waiting : waiting (queue r) = true → buffer (queue r) = [] ∧ closed (queue r) = false;
  qo_calls : calls r = length (results (queue r)) + (if waiting (queue r) then 1 else 0);
  qo_done : Done ∈ results (queue r) → closed (queue r) = true ∧ buffer (queue r) = [] }.

Lemma values_app a b : values (a ++ b) = values a ++ values b.
Proof. apply omap_app. Qed.

Lemma queue_step_ok r r' : queue_ok r → queue_step r r' → queue_ok r'.
Proof.
  intros [Hf Hw Hc Hd] Hs. destruct Hs as [r v b q H|r|r q H|r e H]; [| | |done].
  - unfold push in H. destruct (queue r) as [buf w cl rs]. simpl in *.
    destruct cl; [injection H as <- <-; rewrite app_nil_r; by constructor|].
    destruct w; injection H as <- <-.
    + destruct (Hw eq_refl) as [-> _]. constructor; simpl; [|done| |].
      * rewrite values_app. simpl. rewrite !app_nil_r in *. by rewrite Hf.
      * rewrite length_app. simpl. lia.
      * intros [H|H]%elem_of_app; [by apply Hd in H as [? _] | set_solver].
    + constructor; simpl; [by rewrite app_assoc, Hf | done | done|].
      intros H. by apply Hd in H as [? _].
  - unfold close. destruct (queue r) as [buf w cl rs]. simpl in *.
    destruct w; constructor; simpl in *; try done.
    + rewrite values_app. simpl. destruct (Hw eq_refl) as [-> _]. by rewrite !app_nil_r in *.
    + rewrite length_app. simpl. lia.
    + destruct (Hw eq_refl) as [-> _]. done.
    + intros H. by apply Hd in H as [_ ?].
  - unfold next in H. destruct (queue r) as [buf w cl rs]. simpl in *. destruct buf as [|v rest].
    + destruct cl; [|destruct w; [done|]]; injection H as <-; constructor; simpl; try done.
      * rewrite values_app. simpl. by rewrite app_nil_r.
      * rewrite length_app. simpl. destruct w; lia.
      * lia.
    + injection H as <-. constructor; simpl.
      * rewrite values_app, <- app_assoc. done.
      * intros ->. by destruct (Hw eq_refl).
      * rewrite length_app. simpl. destruct w; lia.
      * intros [H|H]%elem_of_app; [by apply Hd in H as [_ ?] | set_solver].
Qed.

Lemma queue_run_ok r : rtc queue_step start r → queue_ok r.
Proof.
  intros H. assert (queue_ok start) as H0 by (constructor; simpl; done || set_solver).
  revert H0. induction H; eauto using queue_step_ok.
Qed.

(** ** Claims *)

(** (AsyncEventQueue): after any interleaving of pushes, closes and calls of next,
    what the consumer received followed by what is buffered is exactly the sequence of
    accepted items: nothing is lost, duplicated or reordered; every call of next but a
    pending last one has been answered; and done is answered only by a closed, drained
    queue. *)
Theorem queue_fifo r :
  rtc queue_step start r →
  values (results (queue r)) ++ buffer (queue r) = accepted r ∧
  calls r = length (results (queue r)) + (if waiting (queue r) then 1 else 0) ∧
  (waiting (queue r) = true → buffer (queue r) = []) ∧
  (Done ∈ results (queue r) → closed (queue r) = true ∧ buffer (queue r) = []).
Proof. intros [Hf Hw Hc Hd]%queue_run_ok. split_and!; naive_solver. Qed.

(** [n] calls of next in a row. *)
Fixpoint next_n (n : nat) (q : AsyncEventQueue) : outcome QueueError AsyncEventQueue :=
  match n with O => Ok q | S n => q' ← next q; next_n n q' end.

(** close and next: once the queue is closed every push is refused and the
    consumer drains it: with [n] items buffered, the next [n] calls yield them in order
    and every later call yields done. *)
Theorem queue_drains q k :
  closed q = true →
  (∀ v, push v q = (false, q)) ∧
  ∃ q', next_n (length (buffer q) + k) q = Ok q' ∧ buffer q' = [] ∧
        results q' = results q ++ (Value <$> buffer q) ++ replicate k Done.
Proof.
  intros Hc. split; [intros v; unfold push; by rewrite Hc|].
  destruct q as [buf w cl rs]. simpl in *. subst cl. revert rs.
  induction buf as [|v buf IH]; intros rs; simpl.
  - revert rs. induction k as [|k IH]; intros rs; simpl.
    + eexists. split; [done|]. by rewrite app_nil_r.
    + destruct (IH (rs ++ [Done])) as (q' & Hrun & Hb & Hr). exists q'. split_and!; [done | done|].
      rewrite Hr, <- app_assoc. done.
  - destruct (IH (rs ++ [Value v])) as (q' & Hrun & Hb & Hr). exists q'. split_and!; [done | done|].
    rewrite Hr, <- app_assoc. done.
Qed.
End queue.

Arguments AsyncEventQueue : clear implicits.
Arguments Run : clear implicits.
Arguments IteratorResult : clear implicits.

(** A consumer that waits, is served, and reads on. *)
Lemma queue_fifo_witness :
  ∃ r : Run nat, rtc queue_step start r ∧ accepted r = [1; 2] ∧
    values (results (queue r)) ++ buffer (queue r) = accepted r.
Proof.
  eexists. split_and!; [| |eapply (queue_fifo (T := nat))].
  1: eapply rtc_l; [by apply step_next|]; eapply rtc_l; [by apply (step_push _ 1)|];
     eapply rtc_l; [by apply (step_push _ 2)|]; apply rtc_refl.
  1: reflexivity.
  eapply rtc_l; [by apply step_next|]; eapply rtc_l; [by apply (step_push _ 1)|];
     eapply rtc_l; [by apply (step_push _ 2)|]; apply rtc_refl.
Defined.

(** Two buffered items and a closed queue. *)
Lemma queue_drains_witness :
  let q := {| buffer := [1; 2]; waiting := false; closed := true; results := [] |} in
  ∃ q', next_n (2 + 1) q = Ok q' ∧ buffer q' = [] ∧
        results q' = [] ++ (Value <$> [1; 2]) ++ replicate 1 Done.
Proof. intros q. apply (queue_drains q 1). reflexivity. Defined.
