(* ===== verification/IpMatch.v ===== *)
(** * IP allowlist matching ([services/ipMatch.ts]): single addresses and CIDR ranges,
    IPv4 and IPv6, on unbounded integers (BigInt). *)

From S2P Require Import Prelude JsNum.

Open Scope Z_scope.

(** ** Text helpers *)

(** [s.indexOf(c)] as a split: the part before the first [c] and, if there is one, the
    part after it. *)
Fixpoint cut (c : ascii) (l : list ascii) : list ascii * option (list ascii) :=
  match l with
  | [] => ([], None)
  | x :: l' => if Ascii.eqb x c then ([], Some l')
               else let '(a, b) := cut c l' in (x :: a, b)
  end.

(** [s.split('::')]. *)
Fixpoint split_colons (l : list ascii) : list (list ascii) :=
  match l with
  | [] => [[]]
  | x :: l1 =>
      match l1 with
      | y :: l2 =>
          if Ascii.eqb x ":" && Ascii.eqb y ":" then [] :: split_colons l2
          else match split_colons l1 with
               | s :: rest => (x :: s) :: rest
               | [] => [[x]]
               end
      | [] => [[x]]
      end
  end.

Definition is_hex (c : ascii) : bool :=
  let n := nat_of_ascii c in
  is_digit c || ((97 <=? n)%nat && (n <=? 102)%nat) || ((65 <=? n)%nat && (n <=? 70)%nat).
Definition hex_val (c : ascii) : Z :=
  let n := Z.of_nat (nat_of_ascii c) in
  if n <=? 57 then n - 48 else if n <=? 70 then n - 55 else n - 87.
Definition hex_char (d : Z) : ascii := ascii_of_nat (Z.to_nat (if d <? 10 then 48 + d else 87 + d)).

(** [parseInt(g, 16)] of a hexadecimal text, and [toString(16)] of a 16-bit number. *)
Definition parse_hex (l : list ascii) : Z := fold_left (λ acc c, 16 * acc + hex_val c) l 0.
Definition print_hex (n : Z) : list ascii :=
  if n <? 16 then [hex_char n]
  else if n <? 256 then [hex_char (n / 16); hex_char (n mod 16)]
  else if n <? 4096 then [hex_char (n / 256); hex_char (n / 16 mod 16); hex_char (n mod 16)]
  else [hex_char (n / 4096); hex_char (n / 256 mod 16); hex_char (n / 16 mod 16);
        hex_char (n mod 16)].

Definition length_in (lo hi : nat) {A} (l : list A) : bool :=
  (lo <=? length l)%nat && (length l <=? hi)%nat.

(** ** Addresses *)

(** The loop of [ipv4ToInt]. *)
Fixpoint ipv4_parts (parts : list (list ascii)) (result : Z) : option Z :=
  match parts with
  | [] => Some result
  | part :: parts =>
      if negb (length_in 1 3 part && forallb is_digit part) then None
      else let n := digits_val part in
           if 255 <? n then None
           else ipv4_parts parts (Z.lor (Z.shiftl result 8) n)
  end.

Definition ipv4ToInt (ip : list ascii) : option Z :=
  let parts := split_chars "." ip in
  if negb (Nat.eqb (length parts) 4) then None else ipv4_parts parts 0.

(** [expand]: the groups of one half, an embedded IPv4 address as two of them. *)
Fixpoint expand_parts (ps : list (list ascii)) : option (list (list ascii)) :=
  match ps with
  | [] => Some []
  | p :: ps =>
      gs ← (if existsb (Ascii.eqb ".") p
            then v4 ← ipv4ToInt p;
                 Some [print_hex (Z.land (Z.shiftr v4 16) 65535); print_hex (Z.land v4 65535)]
            else Some [p]);
      rest ← expand_parts ps; Some (gs ++ rest)
  end.
Definition expand (segment : list ascii) : option (list (list ascii)) :=
  match segment with [] => Some [] | _ => expand_parts (split_chars ":" segment) end.

Fixpoint ipv6_groups (groups : list (list ascii)) (result : Z) : option Z :=
  match groups with
  | [] => Some result
  | g :: groups =>
      if negb (length_in 1 4 g && forallb is_hex g) then None
      else ipv6_groups groups (Z.lor (Z.shiftl result 16) (parse_hex g))
  end.

Definition ipv6ToInt (ip : list ascii) : option Z :=
  let s := (cut "%" ip).1 in
  match split_colons s with
  | [h] =>
      groups ← expand h;
      if Nat.eqb (length groups) 8 then ipv6_groups groups 0 else None
  | [h; t] =>
      head ← expand h; tail ← expand t;
      if (8 <? length head + length tail)%nat then None
      else
        let groups := head ++ replicate (8 - (length head + length tail)) ["0"%char] ++ tail in
        if Nat.eqb (length groups) 8 then ipv6_groups groups 0 else None
  | _ => None
  end.

Definition isV6 (s : list ascii) : bool := existsb (Ascii.eqb ":") s.

(** ** Entries *)

Definition toInt (v6 : bool) : list ascii → option Z := if v6 then ipv6ToInt else ipv4ToInt.
Definition totalBits (v6 : bool) : Z := if v6 then 128 else 32.

(** The prefix length: digits denoting at most [totalBits]. *)
Definition prefix_bits (v6 : bool) (bitsRaw : list ascii) : option Z :=
  if negb (all_digits bitsRaw) then None
  else let bits := digits_val bitsRaw in
       if (bits <? 0) || (totalBits v6 <? bits) then None else Some bits.

Definition cidr_mask (v6 : bool) (bits : Z) : Z :=
  if bits =? 0 then 0 else Z.shiftl (Z.shiftl 1 bits - 1) (totalBits v6 - bits).

Definition matchOne (ip entry : list ascii) : bool :=
  let '(network, slash) := cut "/" entry in
  let entryIsV6 := isV6 network in
  if negb (eqb entryIsV6 (isV6 ip)) then false
  else
    match toInt entryIsV6 ip, toInt entryIsV6 network with
    | Some ipNum, Some netNum =>
        match slash with
        | None => ipNum =? netNum
        | Some bitsRaw =>
            match prefix_bits entryIsV6 bitsRaw with
            | None => false
            | Some bits =>
                let mask := cidr_mask entryIsV6 bits in
                Z.land ipNum mask =? Z.land netNum mask
            end
        end
    | _, _ => false
    end.

Fixpoint ipMatchesAny (ip : list ascii) (entries : list string) : bool :=
  match entries with
  | [] => false
  | raw :: entries =>
      match chars (trim raw) with
      | [] => ipMatchesAny ip entries
      | entry => if matchOne ip entry then true else ipMatchesAny ip entries
      end
  end.

Definition isValidIpOrCidr (entry : string) : bool :=
  match chars (trim entry) with
  | [] => false
  | trimmed =>
      let '(network, slash) := cut "/" trimmed in
      let v6 := isV6 network in
      match toInt v6 network with
      | None => false
      | Some _ => match slash with
                  | None => true
                  | Some bitsRaw => bool_decide (is_Some (prefix_bits v6 bitsRaw))
                  end
      end
  end.

Example ip_examples :
  ipMatchesAny (chars "10.1.2.3") ["192.168.0.0/16"; " 10.0.0.0/8 "]%string = true ∧
  ipMatchesAny (chars "11.1.2.3") ["10.0.0.0/8"]%string = false ∧
  ipMatchesAny (chars "2001:db8::1%eth0") ["2001:db8::/32"]%string = true ∧
  ipMatchesAny (chars "::ffff:1.2.3.4") ["::ffff:102:304"]%string = true ∧
  isValidIpOrCidr "10.0.0.0/33" = false ∧ isValidIpOrCidr "1:2:3:4:5:6:7::8:9" = false.
Proof. vm_compute. repeat split. Qed.

(** ** Ranges of the parsed numbers *)

Lemma lor_shift a b n : 0 <= n → 0 <= b < 2 ^ n → Z.lor (Z.shiftl a n) b = a * 2 ^ n + b.
Proof.
  intros Hn Hb. assert (Z.land (Z.shiftl a n) b = 0) as H0.
  { apply Z.bits_inj'. intros k Hk. rewrite Z.land_spec, Z.bits_0.
    destruct (Z.lt_ge_cases k n) as [H|H]; [by rewrite Z.shiftl_spec_low|].
    rewrite <- (Z.mod_small b (2 ^ n)), Z.mod_pow2_bits_high, andb_false_r by lia. done. }
  rewrite <- Z.lxor_lor, <- Z.add_nocarry_lxor by done. by rewrite Z.shiftl_mul_pow2.
Qed.

Lemma shift_in_range a b k n :
  0 <= k → 0 <= n → 0 <= a < 2 ^ k → 0 <= b < 2 ^ n → 0 <= Z.lor (Z.shiftl a n) b < 2 ^ (k + n).
Proof. intros Hk Hn Ha Hb. rewrite lor_shift, Z.pow_add_r by done. nia. Qed.

Lemma ipv4_parts_range parts r n k :
  0 <= k → 0 <= r < 2 ^ k → ipv4_parts parts r = Some n →
  0 <= n < 2 ^ (k + 8 * Z.of_nat (length parts)).
Proof.
  revert r k. induction parts as [|p parts IH]; intros r k Hk Hr; cbn [ipv4_parts length].
  { intros [= <-]. by rewrite Z.add_0_r. }
  destruct (length_in 1 3 p && forallb is_digit p) eqn:Ed; [|done]. cbn [negb].
  apply andb_true_iff in Ed as [_ Hd]. pose proof (digits_val_bound p Hd) as [Hp _].
  destruct (Z.ltb_spec 255 (digits_val p)); [done|]. intros Hn.
  apply (IH _ (k + 8)) in Hn; [|lia | apply shift_in_range; lia].
  by replace (k + 8 * Z.of_nat (S (length parts))) with (k + 8 + 8 * Z.of_nat (length parts)) by lia.
Qed.

Lemma ipv4ToInt_range ip n : ipv4ToInt ip = Some n → 0 <= n < 2 ^ 32.
Proof.
  unfold ipv4ToInt. destruct (Nat.eqb_spec (length (split_chars "." ip)) 4) as [E|]; [|done].
  intros H. apply (ipv4_parts_range _ 0 n 0) in H; [|done..]. by rewrite E in H.
Qed.

Lemma hex_val_range c : is_hex c = true → 0 <= hex_val c < 16.
Proof.
  unfold is_hex, hex_val, is_digit. intros H.
  rewrite !orb_true_iff, !andb_true_iff, !Nat.leb_le in H.
  destruct (Z.leb_spec (Z.of_nat (nat_of_ascii c)) 57), (Z.leb_spec (Z.of_nat (nat_of_ascii c)) 70); lia.
Qed.

Lemma parse_hex_range l :
  forallb is_hex l = true → 0 <= parse_hex l < 16 ^ Z.of_nat (length l).
Proof.
  assert (∀ a k, 0 <= k → 0 <= a < 16 ^ k → forallb is_hex l = true →
    0 <= fold_left (λ acc c, 16 * acc + hex_val c) l a < 16 ^ (k + Z.of_nat (length l))) as H.
  { induction l as [|c l IH]; intros a k Hk Ha Hl; cbn [fold_left length].
    { by rewrite Z.add_0_r. }
    cbn [forallb] in Hl. apply andb_true_iff in Hl as [Hc Hl]. pose proof (hex_val_range c Hc).
    replace (k + Z.of_nat (S (length l))) with (k + 1 + Z.of_nat (length l)) by lia.
    apply IH; [lia| |done]. rewrite Z.pow_add_r by lia. lia. }
  intros Hl. apply (H 0 0); done.
Qed.

Lemma ipv6_groups_range gs r n k :
  0 <= k → 0 <= r < 2 ^ k → ipv6_groups gs r = Some n →
  0 <= n < 2 ^ (k + 16 * Z.of_nat (length gs)).
Proof.
  revert r k. induction gs as [|g gs IH]; intros r k Hk Hr; cbn [ipv6_groups length].
  { intros [= <-]. by rewrite Z.add_0_r. }
  destruct (length_in 1 4 g && forallb is_hex g) eqn:Eg; [|done]. cbn [negb].
  apply andb_true_iff in Eg as [Hlen Hh]. unfold length_in in Hlen.
  apply andb_true_iff in Hlen as [_ Hlen%Nat.leb_le].
  pose proof (parse_hex_range g Hh) as Hg.
  assert (16 ^ Z.of_nat (length g) <= 2 ^ 16) as Hmax.
  { change (2 ^ 16) with (16 ^ 4). apply Z.pow_le_mono_r; lia. }
  intros Hn. apply (IH _ (k + 16)) in Hn; [|lia | apply shift_in_range; lia].
  by replace (k + 16 * Z.of_nat (S (length gs))) with (k + 16 + 16 * Z.of_nat (length gs)) by lia.
Qed.

Lemma ipv6ToInt_range ip n : ipv6ToInt ip = Some n → 0 <= n < 2 ^ 128.
Proof.
  unfold ipv6ToInt. assert (∀ gs, (if Nat.eqb (length gs) 8 then ipv6_groups gs 0 else None) = Some n →
    0 <= n < 2 ^ 128) as Hgs.
  { intros gs. destruct (Nat.eqb_spec (length gs) 8) as [E|]; [|done]. intros H.
    apply (ipv6_groups_range _ 0 n 0) in H; [|done..]. by rewrite E in H. }
  destruct (split_colons _) as [|h [|t [|]]]; try done; intros H.
  - apply bind_Some in H as (gs & _ & H). eauto.
  - apply bind_Some in H as (hd & _ & H). apply bind_Some in H as (tl & _ & H).
    destruct (8 <? length hd + length tl)%nat; [done|]. cbv zeta in H. eauto.
Qed.

Lemma toInt_range v6 ip n : toInt v6 ip = Some n → 0 <= n < 2 ^ totalBits v6.
Proof. destruct v6; [apply ipv6ToInt_range | apply ipv4ToInt_range]. Qed.

(** ** Masks and prefixes *)

Lemma land_mask x m b :
  0 <= m → 0 <= b → 0 <= x < 2 ^ (m + b) →
  Z.land x (Z.shiftl (Z.shiftl 1 b - 1) m) = Z.shiftl (Z.shiftr x m) m.
Proof.
  intros Hm Hb Hx. replace (Z.shiftl 1 b - 1) with (Z.ones b) by (unfold Z.ones; lia).
  assert (Z.land (Z.shiftr x m) (Z.ones b) = Z.shiftr x m) as Hlow.
  { rewrite Z.land_ones by done. apply Z.mod_small. rewrite Z.shiftr_div_pow2 by done.
    rewrite Z.pow_add_r in Hx by done. split; [apply Z.div_pos; lia|].
    apply Z.div_lt_upper_bound; lia. }
  apply Z.bits_inj'. intros k Hk. rewrite Z.land_spec. destruct (Z.lt_ge_cases k m) as [H|H].
  - by rewrite !Z.shiftl_spec_low, andb_false_r by done.
  - rewrite !Z.shiftl_spec by lia. apply (f_equal (λ z, Z.testbit z (k - m))) in Hlow.
    rewrite Z.land_spec, Z.shiftr_spec in Hlow by lia. replace (k - m + m) with k in Hlow by lia.
    rewrite Z.shiftr_spec by lia. by replace (k - m + m) with k by lia.
Qed.

(** Two addresses agree under the mask exactly when they agree on the leading bits. *)
Lemma cidr_mask_prefix v6 bits x y :
  0 <= bits <= totalBits v6 → 0 <= x < 2 ^ totalBits v6 → 0 <= y < 2 ^ totalBits v6 →
  Z.land x (cidr_mask v6 bits) = Z.land y (cidr_mask v6 bits) ↔
  x / 2 ^ (totalBits v6 - bits) = y / 2 ^ (totalBits v6 - bits).
Proof.
  intros Hb Hx Hy. unfold cidr_mask. destruct (Z.eqb_spec bits 0) as [->|Hnz].
  - rewrite !Z.land_0_r, Z.sub_0_r, !Z.div_small by done. done.
  - set (m := totalBits v6 - bits) in *. assert (totalBits v6 = m + bits) as E by lia.
    rewrite E in Hx, Hy. rewrite !land_mask by lia. rewrite !Z.shiftr_div_pow2 by lia.
    rewrite !Z.shiftl_mul_pow2 by lia. split; [|by intros ->]. intros H.
    apply Z.mul_reg_r in H; [done|]. pose proof (Z.pow_pos_nonneg 2 m). lia.
Qed.

Lemma prefix_bits_range v6 raw bits : prefix_bits v6 raw = Some bits → 0 <= bits <= totalBits v6.
Proof.
  unfold prefix_bits. destruct (all_digits raw); [|done]. cbn [negb].
  destruct (Z.ltb_spec (digits_val raw) 0), (Z.ltb_spec (totalBits v6) (digits_val raw)); try done.
  intros [= <-]. lia.
Qed.

(** ** Claims *)

(** What an entry admits: addresses of its family that equal its network on the leading
    bits of its prefix, all bits when it has none. *)
Definition admits (entry ip : list ascii) : Prop :=
  let '(network, slash) := cut "/" entry in
  let v6 := isV6 network in
  isV6 ip = v6 ∧
  ∃ x y bits, toInt v6 ip = Some x ∧ toInt v6 network = Some y ∧
    match slash with None => bits = totalBits v6 | Some raw => prefix_bits v6 raw = Some bits end ∧
    x / 2 ^ (totalBits v6 - bits) = y / 2 ^ (totalBits v6 - bits).

Lemma matchOne_admits ip entry : matchOne ip entry = true ↔ admits entry ip.
Proof.
  unfold matchOne, admits. destruct (cut "/" entry) as [network slash]. set (v6 := isV6 network).
  destruct (eqb v6 (isV6 ip)) eqn:Ef; cbn [negb].
  2:{ apply eqb_false_iff in Ef. naive_solver. }
  apply eqb_prop in Ef. destruct (toInt v6 ip) as [x|] eqn:Ex; [|naive_solver].
  destruct (toInt v6 network) as [y|] eqn:Ey; [|naive_solver].
  pose proof (toInt_range _ _ _ Ex) as Hx. pose proof (toInt_range _ _ _ Ey) as Hy.
  destruct slash as [raw|].
  - destruct (prefix_bits v6 raw) as [bits|] eqn:Eb; [|naive_solver].
    rewrite Z.eqb_eq, cidr_mask_prefix by (done || by eapply prefix_bits_range). naive_solver.
  - rewrite Z.eqb_eq. split.
    + intros ->. split; [done|]. by exists y, y, (totalBits v6).
    + intros [_ (x' & y' & bits & [= <-] & [= <-] & -> & H)].
      by rewrite Z.sub_diag, !Z.div_1_r in H.
Qed.

(** (ipMatchesAny and matchOne, ipMatch.ts): an address passes the allowlist exactly
    when some non-blank entry of its own family names its leading bits: the bit masks
    compute CIDR membership, for both families and every prefix length. *)
Theorem ipMatchesAny_spec ip entries :
  ipMatchesAny ip entries = true ↔
  ∃ raw, raw ∈ entries ∧ chars (trim raw) ≠ [] ∧ admits (chars (trim raw)) ip.
Proof.
  induction entries as [|raw entries IH]; cbn [ipMatchesAny]; [set_solver|].
  setoid_rewrite elem_of_cons. destruct (chars (trim raw)) as [|c l] eqn:E.
  - rewrite IH. naive_solver.
  - destruct (matchOne ip (c :: l)) eqn:Em.
    + split; [|done]. intros _. exists raw. rewrite E. apply matchOne_admits in Em. auto.
    + rewrite IH. split; [naive_solver|]. intros (r & [->|Hr] & Hne & Ha); [|eauto].
      rewrite E in Ha. apply matchOne_admits in Ha. congruence.
Qed.

(** The part of an entry before the slash. *)
Definition network_of (entry : string) : list ascii := (cut "/" (chars (trim entry))).1.

(** isValidIpOrCidr against ipMatchesAny: the validator accepts exactly the entries
    that take effect: a valid entry admits its own network address, and an entry the
    validator refuses admits no address at all. *)
Theorem isValidIpOrCidr_effective entry :
  (isValidIpOrCidr entry = true → ipMatchesAny (network_of entry) [entry] = true) ∧
  (isValidIpOrCidr entry = false → ∀ ip, ipMatchesAny ip [entry] = false).
Proof.
  unfold isValidIpOrCidr, network_of. cbn [ipMatchesAny].
  destruct (chars (trim entry)) as [|c l] eqn:E; [done|].
  assert (∀ ip, (if matchOne ip (c :: l) then true else false) = matchOne ip (c :: l)) as Hif
    by (intros ip; by destruct (matchOne ip (c :: l))).
  split; [|intros Hv ip]; rewrite Hif; unfold matchOne in *; clear Hif.
  - destruct (cut "/" (c :: l)) as [network slash]. simpl. rewrite eqb_reflx. cbn [negb].
    destruct (toInt (isV6 network) network) as [y|]; [|done].
    destruct slash as [raw|]; [|intros _; apply Z.eqb_refl].
    intros [bits Hb]%bool_decide_eq_true. rewrite Hb. apply Z.eqb_refl.
  - destruct (cut "/" (c :: l)) as [network slash]. destruct (negb _); [done|].
    destruct (toInt (isV6 network) ip), (toInt (isV6 network) network); try done.
    destruct slash as [raw|]; [|done]. apply bool_decide_eq_false in Hv.
    destruct (prefix_bits (isV6 network) raw) as [bits|]; [|done]. by destruct Hv.
Qed.

(** A valid range and a range with a prefix that is too long. *)
Lemma isValidIpOrCidr_effective_witness :
  ipMatchesAny (network_of " 10.20.0.0/16") [" 10.20.0.0/16"%string] = true ∧
  ipMatchesAny (chars "10.0.0.1") ["10.0.0.0/33"%string] = false.
Proof.
  split; [apply (isValidIpOrCidr_effective " 10.20.0.0/16") |
          apply (isValidIpOrCidr_effective "10.0.0.0/33")]; vm_compute; reflexivity.
Defined.
