(* ===== verification/Versions.v ===== *)
(** * Build and version comparison for the vulnerability matcher
    ([services/versionCompare.ts]). *)

From S2P Require Import Prelude.

Open Scope Z_scope.

(** [parseInt(s, 10)]: leading blanks and a sign are skipped, then the longest run of
    digits counts; no digit is NaN.  Segments stay below [2^53]. *)
Fixpoint digit_prefix (l : list ascii) : list ascii :=
  match l with c :: l' => if is_digit c then c :: digit_prefix l' else [] | [] => [] end.
Definition parse_unsigned_int (l : list ascii) : option Z :=
  match digit_prefix l with [] => None | ds => Some (digits_val ds) end.
Definition parseInt (s : string) : option Z :=
  match drop_spaces (chars s) with
  | c :: l => if Ascii.eqb c "-" then Z.opp <$> parse_unsigned_int l
              else if Ascii.eqb c "+" then parse_unsigned_int l else parse_unsigned_int (c :: l)
  | [] => None
  end.

Definition segments (v : string) : list Z := (λ s, default 0 (parseInt s)) <$> split "." v.

(** The loop over [max(sa.length, sb.length)] positions, missing ones being 0. *)
Fixpoint compare_loop (n : nat) (sa sb : list Z) : Z :=
  match n with
  | O => 0
  | S n => let x := default 0 (head sa) in
           let y := default 0 (head sb) in
           if x <? y then -1 else if y <? x then 1 else compare_loop n (tail sa) (tail sb)
  end.

Definition compareBuilds (a b : string) : Z :=
  let sa := segments a in
  let sb := segments b in
  compare_loop (Nat.max (length sa) (length sb)) sa sb.

Definition isVulnerable (installed fixedBuild : string) : bool := compareBuilds installed fixedBuild <? 0.

Record VersionRange := {
  startIncluding : option string; startExcluding : option string;
  endIncluding : option string; endExcluding : option string }.

(** [bound && test(bound)]: an absent or empty bound does not apply. *)
Definition bound_fails (bound : option string) (test : string → bool) : bool :=
  match bound with Some (String _ _ as b) => test b | _ => false end.

Definition isVersionInRange (version : string) (r : VersionRange) : bool :=
  if bound_fails (startIncluding r) (λ b, compareBuilds version b <? 0) then false
  else if bound_fails (startExcluding r) (λ b, compareBuilds version b <=? 0) then false
  else if bound_fails (endIncluding r) (λ b, 0 <? compareBuilds version b) then false
  else if bound_fails (endExcluding r) (λ b, 0 <=? compareBuilds version b) then false
  else true.

Example version_examples :
  compareBuilds "10.0.19045.3570" "10.0.19045" = 1 ∧ compareBuilds "1.2" "1.2.0.0" = 0 ∧
  compareBuilds "1.9" "1.10" = -1 ∧ isVulnerable "120.0.6099.71" "120.0.6099.109" = true.
Proof. vm_compute. repeat split. Qed.

(** ** The order *)

(** The loop may run on past the ends without changing its result. *)
Lemma compare_loop_past n sa sb :
  (length sa <= n)%nat → (length sb <= n)%nat → ∀ k, compare_loop (n + k) sa sb = compare_loop n sa sb.
Proof.
  revert sa sb. induction n as [|n IH]; intros sa sb Ha Hb k; simpl.
  - destruct sa, sb; simpl in *; try lia. by induction k.
  - rewrite IH; [done | destruct sa; simpl in *; lia | destruct sb; simpl in *; lia].
Qed.

Lemma compareBuilds_loop a b n :
  (length (segments a) <= n)%nat → (length (segments b) <= n)%nat →
  compareBuilds a b = compare_loop n (segments a) (segments b).
Proof.
  intros Ha Hb. unfold compareBuilds. set (m := Nat.max _ _).
  replace n with (m + (n - m))%nat by lia. by rewrite compare_loop_past by lia.
Qed.

Lemma compare_loop_flip n sa sb : compare_loop n sa sb = - compare_loop n sb sa.
Proof.
  revert sa sb. induction n as [|n IH]; intros sa sb; simpl; [done|].
  destruct (Z.ltb_spec (default 0 (head sa)) (default 0 (head sb))),
    (Z.ltb_spec (default 0 (head sb)) (default 0 (head sa))); try lia. apply IH.
Qed.

Lemma compare_loop_trans n sa sb sc :
  compare_loop n sa sb <= 0 → compare_loop n sb sc <= 0 →
  compare_loop n sa sc <= 0 ∧ (compare_loop n sa sc = 0 → compare_loop n sa sb = 0 ∧ compare_loop n sb sc = 0).
Proof.
  revert sa sb sc. induction n as [|n IH]; intros sa sb sc; simpl; [done|].
  destruct (Z.ltb_spec (default 0 (head sa)) (default 0 (head sb))),
    (Z.ltb_spec (default 0 (head sb)) (default 0 (head sa))),
    (Z.ltb_spec (default 0 (head sb)) (default 0 (head sc))),
    (Z.ltb_spec (default 0 (head sc)) (default 0 (head sb))),
    (Z.ltb_spec (default 0 (head sa)) (default 0 (head sc))),
    (Z.ltb_spec (default 0 (head sc)) (default 0 (head sa))); try lia. apply IH.
Qed.

Lemma compareBuilds_flip a b : compareBuilds a b = - compareBuilds b a.
Proof.
  rewrite (compareBuilds_loop a b (length (segments a) + length (segments b))) by lia.
  rewrite (compareBuilds_loop b a (length (segments a) + length (segments b))) by lia.
  apply compare_loop_flip.
Qed.

Lemma compareBuilds_trans a b c :
  compareBuilds a b <= 0 → compareBuilds b c <= 0 →
  compareBuilds a c <= 0 ∧ (compareBuilds a c = 0 → compareBuilds a b = 0 ∧ compareBuilds b c = 0).
Proof.
  set (n := (length (segments a) + length (segments b) + length (segments c))%nat).
  rewrite !(compareBuilds_loop _ _ n) by lia. apply compare_loop_trans.
Qed.

Lemma in_range_iff v r :
  isVersionInRange v r = true ↔
  bound_fails (startIncluding r) (λ b, compareBuilds v b <? 0) = false ∧
  bound_fails (startExcluding r) (λ b, compareBuilds v b <=? 0) = false ∧
  bound_fails (endIncluding r) (λ b, 0 <? compareBuilds v b) = false ∧
  bound_fails (endExcluding r) (λ b, 0 <=? compareBuilds v b) = false.
Proof. unfold isVersionInRange. repeat case_match; naive_solver. Qed.

(** compareBuilds and isVersionInRange, versionCompare.ts: the comparison is a
    total preorder on version texts, and a vulnerable range is an interval of it: a
    version between two versions of the range is in the range. *)
Theorem isVersionInRange_convex lo v hi r :
  compareBuilds lo v <= 0 → compareBuilds v hi <= 0 →
  isVersionInRange lo r = true → isVersionInRange hi r = true → isVersionInRange v r = true.
Proof.
  intros Hlo Hhi.
  assert (∀ b, compareBuilds v b < 0 → compareBuilds lo b < 0) as H1.
  { intros b Hb. destruct (compareBuilds_trans lo v b) as [? ?]; lia. }
  assert (∀ b, compareBuilds v b <= 0 → compareBuilds lo b <= 0) as H2.
  { intros b Hb. by destruct (compareBuilds_trans lo v b). }
  assert (∀ b, 0 < compareBuilds v b → 0 < compareBuilds hi b) as H3.
  { intros b Hb. pose proof (compareBuilds_flip v b). pose proof (compareBuilds_flip hi b).
    destruct (compareBuilds_trans b v hi) as [? ?]; lia. }
  assert (∀ b, 0 <= compareBuilds v b → 0 <= compareBuilds hi b) as H4.
  { intros b Hb. pose proof (compareBuilds_flip v b). pose proof (compareBuilds_flip hi b).
    destruct (compareBuilds_trans b v hi) as [? ?]; lia. }
  assert (∀ o (f g : string → bool), (∀ b, f b = true → g b = true) →
    bound_fails o g = false → bound_fails o f = false) as Hmono.
  { intros o f g Hfg. unfold bound_fails. destruct o as [[|c s]|]; try done. intros Hg.
    destruct (f (String c s)) eqn:E; [|done]. apply Hfg in E. congruence. }
  rewrite !in_range_iff. intros (L1 & L2 & L3 & L4) (U1 & U2 & U3 & U4). split_and!.
  - eapply Hmono, L1. intros b. rewrite !Z.ltb_lt. auto.
  - eapply Hmono, L2. intros b. rewrite !Z.leb_le. auto.
  - eapply Hmono, U3. intros b. rewrite !Z.ltb_lt. auto.
  - eapply Hmono, U4. intros b. rewrite !Z.leb_le. auto.
Qed.

Lemma isVersionInRange_convex_witness :
  let r := {| startIncluding := Some "1.0"; startExcluding := None; endIncluding := None;
              endExcluding := Some "2.4.1" |}%string in
  compareBuilds "1.2" "1.10" <= 0 ∧ compareBuilds "1.10" "2.4" <= 0 ∧
  isVersionInRange "1.10" r = true.
Proof.
  intros r. split; [by vm_compute|]. split; [by vm_compute|].
  apply (isVersionInRange_convex "1.2" "1.10" "2.4"); by vm_compute.
Defined.
