(* ===== verification/Json.v ===== *)
(** * JSON values

    What the handlers read from [jsonb] columns and from untyped configuration: the
    value itself, member access, and the type tests the sources write.  An absent value
    ([undefined]) is [None] of [option json]. *)

From S2P Require Import Prelude JsNum.

Open Scope Z_scope.

Inductive json :=
| JNull
| JBool (b : bool)
| JNum (q : Q)
| JStr (s : string)
| JArr (l : list json)
| JObj (fields : list (string * json)).

(** [v[k]] of an object; any other value has no own member of that name. *)
Fixpoint assoc (k : string) (l : list (string * json)) : option json :=
  match l with
  | [] => None
  | (k', v) :: l' => if String.eqb k k' then Some v else assoc k l'
  end.
Definition field (k : string) (v : json) : option json :=
  match v with JObj l => assoc k l | _ => None end.

(** [typeof v === 'string'] and [typeof v === 'number']. *)
Definition as_string (v : option json) : option string :=
  match v with Some (JStr s) => Some s | _ => None end.
Definition as_number (v : option json) : option Q :=
  match v with Some (JNum q) => Some q | _ => None end.
Definition as_array (v : option json) : option (list json) :=
  match v with Some (JArr l) => Some l | _ => None end.

(** [v === b] for a boolean. *)
Definition is_bool (b : bool) (v : option json) : bool :=
  match v with Some (JBool b') => Bool.eqb b b' | _ => false end.

(** Conversion to boolean. *)
Definition json_truthy (v : option json) : bool :=
  match v with
  | None | Some JNull => false
  | Some (JBool b) => b
  | Some (JNum q) => negb (Qeq_bool q 0)
  | Some (JStr s) => truthy (Some s)
  | Some (JArr _) | Some (JObj _) => true
  end.

(** [v ?? d]. *)
Definition nullish (v : option json) (d : json) : json :=
  match v with None | Some JNull => d | Some x => x end.

(** [v || d]. *)
Definition or_default (v : option json) (d : json) : json :=
  match v with Some x => if json_truthy v then x else d | None => d end.

(** [a === b]: two arrays or objects that were read separately are different objects. *)
Definition strict_eq (a b : option json) : bool :=
  match a, b with
  | None, None | Some JNull, Some JNull => true
  | Some (JBool x), Some (JBool y) => Bool.eqb x y
  | Some (JNum x), Some (JNum y) => Qeq_bool x y
  | Some (JStr x), Some (JStr y) => String.eqb x y
  | _, _ => false
  end.

(** Conversion to number.  The text of an array joins its elements with commas, [null] as
    the empty text; only an array of at most one element can read as a number. *)
Fixpoint to_number (v : json) : num :=
  match v with
  | JNull => nint 0
  | JBool b => nint (if b then 1 else 0)
  | JNum q => Some q
  | JStr s => Number s
  | JArr [] => nint 0
  | JArr [JBool _] => None
  | JArr [x] => to_number x
  | JArr _ | JObj _ => None
  end.
Definition number_of (v : option json) : num := v ≫= to_number.

(** The value of a key of an object literal, given to [f]; [d] without that key. *)
Definition on_key {A} (k : string) (f : json → A) (d : A) : list (string * json) → A :=
  fix go l := match l with [] => d | (k', v) :: l' => if String.eqb k k' then f v else go l' end.

Lemma on_key_assoc {A} k (f : json → A) d l :
  on_key k f d l = match assoc k l with Some v => f v | None => d end.
Proof. induction l as [|[k' v] l IH]; simpl; [done|]. by destruct (String.eqb k k'). Qed.

#[global] Arguments on_key : simpl never.

Lemma assoc_elem k l v : assoc k l = Some v → (k, v) ∈ l.
Proof.
  induction l as [|[k' v'] l IH]; simpl; [done|].
  destruct (String.eqb_spec k k') as [->|]; [|intros ?; right; by apply IH].
  intros [= ->]. left.
Qed.

(** Induction over a value, with the hypothesis for the members of arrays and objects. *)
Section induction.
Context (P : json → Prop)
  (HNull : P JNull) (HBool : ∀ b, P (JBool b)) (HNum : ∀ q, P (JNum q)) (HStr : ∀ s, P (JStr s))
  (HArr : ∀ l, Forall P l → P (JArr l)) (HObj : ∀ l, Forall (λ kv, P kv.2) l → P (JObj l)).

Fixpoint json_induction (v : json) : P v :=
  match v with
  | JNull => HNull
  | JBool b => HBool b
  | JNum q => HNum q
  | JStr s => HStr s
  | JArr l =>
      HArr l ((fix all l : Forall P l :=
                 match l with [] => Forall_nil_2 _ | x :: l' => Forall_cons_2 _ _ _ (json_induction x) (all l') end) l)
  | JObj l =>
      HObj l ((fix all l : Forall (λ kv, P kv.2) l :=
                 match l with [] => Forall_nil_2 _ | x :: l' => Forall_cons_2 _ _ _ (json_induction x.2) (all l') end) l)
  end.
End induction.

(** [Number.isInteger]. *)
Definition isInteger (q : Q) : bool := Pos.eqb (Qden (Qred q)) 1.

(** The strings of an array, in order. *)
Definition strings_of (l : list json) : list string :=
  omap (λ v, as_string (Some v)) l.

Lemma elem_of_strings_of s l : s ∈ strings_of l ↔ JStr s ∈ l.
Proof.
  unfold strings_of. rewrite list_elem_of_omap. split.
  - intros (v & Hv & Hs). by destruct v; simplify_eq/=.
  - intros Hs. by exists (JStr s).
Qed.

Lemma isInteger_inject z : isInteger (inject_Z z) = true.
Proof.
  unfold isInteger, Qred, inject_Z. simpl.
  pose proof (Z.ggcd_correct_divisors z 1) as H. pose proof (Z.ggcd_gcd z 1) as Hg.
  destruct (Z.ggcd z 1) as [g [a b]]. simpl in *. destruct H as [_ H].
  rewrite Z.gcd_1_r in Hg. subst. rewrite Z.mul_1_l in H. by rewrite <- H.
Qed.

(** Products of integers are exact below [2^53]. *)
Lemma nmul_int q a b : q == inject_Z a → Z.abs (a * b) <= 2 ^ 53 →
  ∃ r, nmul (Some q) (nint b) = Some r ∧ r == inject_Z (a * b).
Proof.
  intros E Hb. eexists. split; [done|]. apply rnd_int; [|done]. by rewrite E, inject_Z_mult.
Qed.
