(* ===== verification/PatchApproval.v ===== *)
(** * Patch approval ([services/patchApprovalEvaluator.ts])

    The gate every patch job passes through: which of the outstanding patches of a
    device a job may install.  The tables the evaluator reads are the record [PatchDb];
    instants are milliseconds since 1970. *)

From S2P Require Import Prelude JsNum Calendar Versions Json.

Open Scope Z_scope.

(** ** Types *)

Record CategoryRule := {
  category : string; autoApprove : bool; severityFilter : option (list string);
  deferralDaysOverride : option Z }.

Record PolicyAutoApproveConfig := {
  policy_enabled : bool; policy_severities : list string; policy_deferralDays : Z }.

Inductive AppAction := block | pin (pinnedVersion : string).
Record PolicyAppRule := { rule_source : string; rule_packageId : string; rule_action : AppAction }.

Inductive AppRuleVerdict := allowed | blocked | held.
#[export] Instance AppRuleVerdict_eq_dec : EqDecision AppRuleVerdict.
Proof. solve_decision. Defined.

Record ApprovalEvaluationConfig := {
  cfg_ringId : option string; cfg_ringPartnerId : option string;
  cfg_categoryRules : list CategoryRule; cfg_autoApprove : option json; cfg_deferralDays : Z;
  cfg_sources : option (list string); cfg_policyAutoApprove : option PolicyAutoApproveConfig;
  cfg_apps : option (list PolicyAppRule) }.

Inductive ApprovalReason :=
  manual | category_rule | ring_auto_approve | legacy_auto_approve | policy_auto_approve.

Record ApprovedPatch := {
  ap_patchId : string; ap_devicePatchId : string; ap_externalId : string; ap_title : string;
  ap_category : option string; ap_severity : option string; ap_requiresReboot : bool;
  ap_approvalReason : ApprovalReason }.

(** ** Policy sources *)

Definition OS_PATCH_SOURCES : list string := ["microsoft"; "apple"; "linux"]%string.
Definition THIRD_PARTY_PATCH_SOURCES : list string := ["third_party"; "custom"]%string.

Definition expand_source (source : string) : list string :=
  (if bool_decide (source = "os") then OS_PATCH_SOURCES
   else if bool_decide (source = "third_party") then THIRD_PARTY_PATCH_SOURCES
   else if bool_decide (source ∈ ["microsoft"; "apple"; "linux"; "custom"]) then [source]
   else [])%string.

Definition buildAllowedPatchSources (sources : option (list string)) : option (gset string) :=
  match sources with
  | None | Some [] => None
  | Some l => Some (fold_left (λ out source, out ∪ list_to_set (expand_source source)) l ∅)
  end.

Definition isThirdPartyPatchSource (source : option string) : bool :=
  bool_decide (default ""%string source ∈ THIRD_PARTY_PATCH_SOURCES).

(** ** Versions *)

(** [s.split(/[.\-+_]/)]. *)
Definition is_sep (c : ascii) : bool := bool_decide (c ∈ ["."; "-"; "+"; "_"]%char).
Fixpoint split_seps (l : list ascii) : list (list ascii) :=
  match l with
  | [] => [[]]
  | c :: l' =>
      if is_sep c then [] :: split_seps l'
      else match split_seps l' with w :: ws => (c :: w) :: ws | [] => [[c]] end
  end.

(** [/^\d+$/.test(s)]. *)
Definition digits_only (s : list ascii) : bool :=
  negb (Nat.eqb (length s) 0) && forallb is_digit s.

(** [parseInt(x, 10)] of a text of digits, a double. *)
Definition segment_number (s : list ascii) : Q := rnd (inject_Z (digits_val s)).

(** One turn of the loop; [None] is [continue]. *)
Definition compare_segment (x y : list ascii) : option Z :=
  if digits_only x && digits_only y then
    let diff := rnd (segment_number x - segment_number y) in
    match Qcompare diff 0 with Eq => None | Lt => Some (-1) | Gt => Some 1 end
  else if bool_decide (x = y) then None
  else Some (if str_lt (of_chars x) (of_chars y) then -1 else 1).

Fixpoint compare_segments (n : nat) (xs ys : list (list ascii)) : Z :=
  match n with
  | O => 0
  | S n =>
      match compare_segment (default ["0"%char] (head xs)) (default ["0"%char] (head ys)) with
      | Some r => r
      | None => compare_segments n (tail xs) (tail ys)
      end
  end.

Definition comparePatchVersions (a b : option string) : option Z :=
  let av := trim (default ""%string a) in
  let bv := trim (default ""%string b) in
  if bool_decide (av = ""%string) || bool_decide (bv = ""%string) then None
  else
    let xs := split_seps (chars av) in
    let ys := split_seps (chars bv) in
    Some (compare_segments (Nat.max (length xs) (length ys)) xs ys).

(** ** Per-app rules *)

Definition appRuleKey (source packageId : string) : string :=
  (if isThirdPartyPatchSource (Some source) then "third_party"%string else source)
    +:+ "|" +:+ toLowerCase packageId.

Definition AppRuleMap : Type := gmap string PolicyAppRule.

Definition buildAppRuleMap (apps : option (list PolicyAppRule)) : AppRuleMap :=
  fold_left (λ map rule, <[appRuleKey (rule_source rule) (rule_packageId rule) := rule]> map)
    (default [] apps) ∅.

Definition evaluateAppRule (source : string) (packageId version : option string)
    (rules : AppRuleMap) : AppRuleVerdict :=
  if bool_decide (rules = ∅) || negb (truthy packageId) then allowed
  else match rules !! appRuleKey source (default ""%string packageId) with
       | None => allowed
       | Some rule =>
           match rule_action rule with
           | block => blocked
           | pin pinnedVersion =>
               match comparePatchVersions version (Some pinnedVersion) with
               | None => held
               | Some cmp => if 0 <? cmp then held else allowed
               end
           end
       end.

(** ** The evaluator *)

(** Rows of [patches], [device_patches], [patch_approvals] and [organizations]. *)
Record patchRow := {
  p_id : string; p_source : string; p_externalId : string; p_packageId : option string;
  p_version : option string; p_title : string; p_severity : option string;
  p_category : option string; p_releaseDate : option string; p_requiresReboot : bool }.
Record devicePatchRow := { dp_id : string; dp_deviceId : string; dp_patchId : string; dp_status : string }.
Record approvalRow := {
  pa_partnerId : string; pa_patchId : string; pa_ringId : option string; pa_status : string }.
Record PatchDb := {
  organizations : list (string * option string); patches : list patchRow;
  devicePatches : list devicePatchRow; patchApprovals : list approvalRow }.

Definition OUTSTANDING_DEVICE_PATCH_STATUSES : list string := ["pending"]%string.

(** The row of the join. *)
Record PatchCandidate := { pc_devicePatchId : string; pc_patch : patchRow }.

Record RingAutoApproveConfig := { enabled : bool; severities : list string; deferralDays : Z }.

Definition parseRingAutoApprove (autoApprove : option json) : RingAutoApproveConfig :=
  if is_bool true autoApprove then {| enabled := true; severities := []; deferralDays := 0 |}
  else match autoApprove with
       | Some (JObj _ as config) =>
           if is_bool true (field "enabled" config) then
             {| enabled := true;
                severities := match as_array (field "severities" config) with
                              | Some l => strings_of l | None => [] end;
                deferralDays := match as_number (field "deferralDays" config) with
                                | Some q => if isInteger q && negb (Qle_bool q 0) then Qfloor q else 0
                                | None => 0
                                end |}
           else {| enabled := false; severities := []; deferralDays := 0 |}
       | _ => {| enabled := false; severities := []; deferralDays := 0 |}
       end.

Definition msPerDay : Z := 24 * 60 * 60 * 1000.

(** An instant outside the range of [Date] is an invalid date. *)
Definition TimeClip (t : Z) : option Z :=
  if Z.abs t <=? 8640000000000000 then Some t else None.

(** [new Date(text)] for the text of a [date] column: midnight UTC. *)
Definition date_instant (iso : string) : option Z :=
  let '(y, m, d) := parts iso in
  y ← y; m ← m; d ← d; TimeClip (MakeDay y (m - 1) d * msPerDay).

Definition isHeldByDeferral (releaseDate : option string) (days now : Z) : bool :=
  if days <=? 0 then false
  else if negb (truthy releaseDate) then true
  else
    let release := date_instant (default ""%string releaseDate) in
    let deferralEnd := release ≫= λ t, TimeClip (t + days * msPerDay) in
    match deferralEnd with Some e => now <? e | None => false end.

(** A severity filter: [patch.severity] is set and in the list. *)
Definition severity_in (severity : option string) (l : list string) : bool :=
  match severity with Some (String _ _ as s) => bool_decide (s ∈ l) | _ => false end.

Definition find_category_rule (patch : patchRow) (map : gmap string CategoryRule)
    : option CategoryRule :=
  or_else
    (match p_category patch with Some (String _ _ as c) => map !! toLowerCase c | _ => None end)
    (if isThirdPartyPatchSource (Some (p_source patch)) then map !! "third_party_app"%string
     else None).

(** Priority 2: a category rule that approves automatically decides. *)
Definition category_level_reason (patch : patchRow) (ringConfig : ApprovalEvaluationConfig)
    (rule : CategoryRule) (now : Z) : option ApprovalReason :=
  let filter := default [] (severityFilter rule) in
  if negb (Nat.eqb (length filter) 0) && negb (severity_in (p_severity patch) filter) then None
  else if isHeldByDeferral (p_releaseDate patch)
            (default (cfg_deferralDays ringConfig) (deferralDaysOverride rule)) now then None
  else Some category_rule.

(** Priority 3: the ring's own automatic approval. *)
Definition ring_level_reason (patch : patchRow) (ringAutoApprove : RingAutoApproveConfig) (now : Z)
    : option ApprovalReason :=
  if enabled ringAutoApprove then
    if Nat.eqb (length (severities ringAutoApprove)) 0 then None
    else if negb (severity_in (p_severity patch) (severities ringAutoApprove)) then None
    else if isHeldByDeferral (p_releaseDate patch) (deferralDays ringAutoApprove) now then None
    else Some ring_auto_approve
  else None.

Definition evaluatePatchApproval (patch : patchRow) (ringConfig : ApprovalEvaluationConfig)
    (manualApprovalSet : gset string) (categoryRuleMap : gmap string CategoryRule)
    (ringAutoApprove : RingAutoApproveConfig) (now : Z) : option ApprovalReason :=
  if bool_decide (p_id patch ∈ manualApprovalSet) then Some manual
  else if negb (truthy (cfg_ringId ringConfig)) then None
  else match find_category_rule patch categoryRuleMap with
       | Some rule =>
           if autoApprove rule then category_level_reason patch ringConfig rule now
           else ring_level_reason patch ringAutoApprove now
       | None => ring_level_reason patch ringAutoApprove now
       end.

Definition buildCategoryRuleMap (rules : list CategoryRule) : gmap string CategoryRule :=
  fold_left (λ map rule, if truthy (Some (category rule))
                         then <[toLowerCase (category rule) := rule]> map else map) rules ∅.

(** The query of the outstanding patches of a device. *)
Definition pending_patches (db : PatchDb) (deviceId : string) : list PatchCandidate :=
  dp ← filter (λ dp, dp_deviceId dp = deviceId ∧ dp_status dp ∈ OUTSTANDING_DEVICE_PATCH_STATUSES)
         (devicePatches db);
  p ← filter (λ p, p_id p = dp_patchId dp) (patches db);
  [{| pc_devicePatchId := dp_id dp; pc_patch := p |}].

Definition source_allowed (sources : option (list string)) (p : patchRow) : bool :=
  match buildAllowedPatchSources sources with
  | None => true
  | Some allowedSources => bool_decide (p_source p ∈ allowedSources)
  end.

Definition passes_app_rules (rules : AppRuleMap) (p : patchRow) : bool :=
  if bool_decide (rules = ∅) then true
  else if negb (truthy (p_packageId p)) && isThirdPartyPatchSource (Some (p_source p)) then true
  else bool_decide (evaluateAppRule (p_source p) (p_packageId p) (p_version p) rules = allowed).

(** The ids approved by hand for the partner that the ring of the job may use. *)
Definition manual_approvals (db : PatchDb) (partnerId : string) (ringId : option string)
    (patchIds : list string) : gset string :=
  let rows := filter (λ a, pa_partnerId a = partnerId ∧ pa_patchId a ∈ patchIds ∧
                           pa_status a = "approved"%string) (patchApprovals db) in
  fold_left (λ s a, if bool_decide (pa_ringId a = ringId) || bool_decide (pa_ringId a = None)
                    then {[ pa_patchId a ]} ∪ s else s) rows ∅.

Definition set_ring (c : ApprovalEvaluationConfig) (r : option string) : ApprovalEvaluationConfig :=
  {| cfg_ringId := r; cfg_ringPartnerId := cfg_ringPartnerId c;
     cfg_categoryRules := cfg_categoryRules c; cfg_autoApprove := cfg_autoApprove c;
     cfg_deferralDays := cfg_deferralDays c; cfg_sources := cfg_sources c;
     cfg_policyAutoApprove := cfg_policyAutoApprove c; cfg_apps := cfg_apps c |}.

Definition guard_ring (partnerId : string) (c : ApprovalEvaluationConfig) : ApprovalEvaluationConfig :=
  if truthy (cfg_ringId c) && truthy (cfg_ringPartnerId c)
     && negb (bool_decide (cfg_ringPartnerId c = Some partnerId))
  then set_ring c None else c.

Definition approve (dp : PatchCandidate) (reason : ApprovalReason) : ApprovedPatch :=
  let p := pc_patch dp in
  {| ap_patchId := p_id p; ap_devicePatchId := pc_devicePatchId dp; ap_externalId := p_externalId p;
     ap_title := p_title p; ap_category := p_category p; ap_severity := p_severity p;
     ap_requiresReboot := p_requiresReboot p; ap_approvalReason := reason |}.

Definition org_partner (db : PatchDb) (orgId : string) : option string :=
  head (filter (λ o, o.1 = orgId) (organizations db)) ≫= snd.

(** The early returns on an empty list of candidates are the empty result of the
    remaining steps. *)
Definition resolveApprovedPatchesForDevice (db : PatchDb) (deviceId orgId : string)
    (ringConfig : ApprovalEvaluationConfig) (now : Z) : list ApprovedPatch :=
  match org_partner db orgId with
  | Some (String _ _ as partnerId) =>
      let ringConfig := guard_ring partnerId ringConfig in
      let pendingPatches := pending_patches db deviceId in
      let candidatePatches :=
        filter (λ c, source_allowed (cfg_sources ringConfig) (pc_patch c)) pendingPatches in
      let appRuleMap := buildAppRuleMap (cfg_apps ringConfig) in
      let finalCandidates :=
        filter (λ c, passes_app_rules appRuleMap (pc_patch c)) candidatePatches in
      let manualApprovalSet := manual_approvals db partnerId (cfg_ringId ringConfig)
                                 ((λ c, p_id (pc_patch c)) <$> finalCandidates) in
      let categoryRuleMap := buildCategoryRuleMap (cfg_categoryRules ringConfig) in
      let ringAutoApprove := parseRingAutoApprove (cfg_autoApprove ringConfig) in
      omap (λ c, approve c <$> evaluatePatchApproval (pc_patch c) ringConfig manualApprovalSet
                                 categoryRuleMap ringAutoApprove now) finalCandidates
  | _ => []
  end.

(** ** What an approval means *)

(** The device still needs the patch. *)
Definition outstanding (db : PatchDb) (deviceId : string) (c : PatchCandidate) : Prop :=
  ∃ dp, dp ∈ devicePatches db ∧ pc_patch c ∈ patches db ∧ dp_deviceId dp = deviceId ∧
    dp_status dp = "pending"%string ∧ dp_patchId dp = p_id (pc_patch c) ∧ dp_id dp = pc_devicePatchId c.

Definition source_selected (cfg : ApprovalEvaluationConfig) (p : patchRow) : Prop :=
  match cfg_sources cfg with
  | None | Some [] => True
  | Some l => ∃ sel, sel ∈ l ∧ p_source p ∈ expand_source sel
  end.

(** The rule on the patch's application, if there is one, is a pin at or above it. *)
Definition app_rule_respected (cfg : ApprovalEvaluationConfig) (p : patchRow) : Prop :=
  ∀ pkg rule, p_packageId p = Some pkg → pkg ≠ ""%string →
    last_with (λ r, appRuleKey (rule_source r) (rule_packageId r)) (appRuleKey (p_source p) pkg)
      (default [] (cfg_apps cfg)) = Some rule →
    ∃ v cmp, rule_action rule = pin v ∧ comparePatchVersions (p_version p) (Some v) = Some cmp ∧ cmp <= 0.

(** The ring the job may use: not one of another partner. *)
Definition usable_ring (partnerId : string) (cfg : ApprovalEvaluationConfig) : option string :=
  cfg_ringId (guard_ring partnerId cfg).

Definition manually_approved (db : PatchDb) (partnerId : string) (ring : option string)
    (p : patchRow) : Prop :=
  ∃ a, a ∈ patchApprovals db ∧ pa_partnerId a = partnerId ∧ pa_patchId a = p_id p ∧
    pa_status a = "approved"%string ∧ (pa_ringId a = ring ∨ pa_ringId a = None).

(** The release lies at least so many days back. *)
Definition aged (releaseDate : option string) (days now : Z) : Prop :=
  days <= 0 ∨ ∃ c, column_date c ∧ releaseDate = Some (iso c) ∧
    (day_number c + days) * msPerDay <= now.

Definition severity_listed (severity : option string) (l : list string) : Prop :=
  ∃ s, severity = Some s ∧ s ≠ ""%string ∧ s ∈ l.

(** The category rule in force for a patch: the last one on its category, else the last
    one on the virtual category of third-party applications. *)
Definition rule_in_force (cfg : ApprovalEvaluationConfig) (p : patchRow) : option CategoryRule :=
  let rules := filter (λ r, truthy (Some (category r))) (cfg_categoryRules cfg) in
  let on k := last_with (λ r, toLowerCase (category r)) k rules in
  or_else (match p_category p with Some (String _ _ as c) => on (toLowerCase c) | _ => None end)
          (if isThirdPartyPatchSource (Some (p_source p)) then on "third_party_app"%string else None).

Inductive justified (db : PatchDb) (partnerId : string) (cfg : ApprovalEvaluationConfig) (now : Z)
    (p : patchRow) : ApprovalReason → Prop :=
| justified_manual :
    manually_approved db partnerId (usable_ring partnerId cfg) p →
    justified db partnerId cfg now p manual
| justified_category rule :
    ¬ manually_approved db partnerId (usable_ring partnerId cfg) p →
    truthy (usable_ring partnerId cfg) = true →
    rule_in_force cfg p = Some rule → autoApprove rule = true →
    (default [] (severityFilter rule) = [] ∨
     severity_listed (p_severity p) (default [] (severityFilter rule))) →
    aged (p_releaseDate p) (default (cfg_deferralDays cfg) (deferralDaysOverride rule)) now →
    justified db partnerId cfg now p category_rule
| justified_ring :
    ¬ manually_approved db partnerId (usable_ring partnerId cfg) p →
    truthy (usable_ring partnerId cfg) = true →
    (∀ rule, rule_in_force cfg p = Some rule → autoApprove rule = false) →
    enabled (parseRingAutoApprove (cfg_autoApprove cfg)) = true →
    severity_listed (p_severity p) (severities (parseRingAutoApprove (cfg_autoApprove cfg))) →
    aged (p_releaseDate p) (deferralDays (parseRingAutoApprove (cfg_autoApprove cfg))) now →
    justified db partnerId cfg now p ring_auto_approve.

(** Release dates come from a [date] column, deferrals are at most ten thousand years. *)
Record inputs_ok (db : PatchDb) (cfg : ApprovalEvaluationConfig) : Prop := {
  ok_dates p : p ∈ patches db →
    p_releaseDate p = None ∨ ∃ c, column_date c ∧ p_releaseDate p = Some (iso c);
  ok_deferral : cfg_deferralDays cfg <= 3650000;
  ok_overrides r : r ∈ cfg_categoryRules cfg → default 0 (deferralDaysOverride r) <= 3650000;
  ok_ring : deferralDays (parseRingAutoApprove (cfg_autoApprove cfg)) <= 3650000 }.

(** ** Lemmas *)

Lemma buildAppRuleMap_lookup apps k :
  buildAppRuleMap apps !! k =
  last_with (λ r, appRuleKey (rule_source r) (rule_packageId r)) k (default [] apps).
Proof.
  unfold buildAppRuleMap.
  rewrite (fold_insert_last (λ r, appRuleKey (rule_source r) (rule_packageId r))).
  by destruct (last_with _ _ _).
Qed.

Lemma find_category_rule_spec cfg p :
  find_category_rule p (buildCategoryRuleMap (cfg_categoryRules cfg)) = rule_in_force cfg p.
Proof.
  unfold find_category_rule, rule_in_force, buildCategoryRuleMap.
  set (rules := filter _ _).
  assert (∀ k, fold_left (λ map rule, if truthy (Some (category rule))
                         then <[toLowerCase (category rule) := rule]> map else map)
                 (cfg_categoryRules cfg) (∅ : gmap string CategoryRule) !! k
               = last_with (λ r, toLowerCase (category r)) k rules) as Hk.
  { intros k. rewrite (fold_left_filter (λ map rule, <[toLowerCase (category rule) := rule]> map)
                         (λ r, truthy (Some (category r)))).
    rewrite (fold_insert_last (λ r, toLowerCase (category r))). by destruct (last_with _ _ _). }
  rewrite Hk. repeat case_match; by rewrite ?Hk.
Qed.

Lemma source_allowed_spec cfg p : source_allowed (cfg_sources cfg) p = true ↔ source_selected cfg p.
Proof.
  unfold source_allowed, source_selected, buildAllowedPatchSources.
  destruct (cfg_sources cfg) as [[|s l]|]; [done| |done].
  rewrite bool_decide_eq_true. generalize (s :: l). clear s l. intros l.
  assert (∀ X, p_source p ∈ fold_left (λ out source, out ∪ list_to_set (expand_source source)) l X ↔
    p_source p ∈ (X : gset string) ∨ ∃ sel, sel ∈ l ∧ p_source p ∈ expand_source sel) as ->; [|set_solver].
  induction l as [|s l IH]; intros X; simpl; [set_solver|].
  rewrite IH. set_solver.
Qed.

Lemma passes_app_rules_spec cfg p :
  passes_app_rules (buildAppRuleMap (cfg_apps cfg)) p = true ↔ app_rule_respected cfg p.
Proof.
  unfold passes_app_rules, app_rule_respected, evaluateAppRule.
  setoid_rewrite <- buildAppRuleMap_lookup.
  set (m := buildAppRuleMap _). clearbody m. case_bool_decide as Hm.
  { subst. split; [|done]. intros _ pkg rule _ _ Hr. by apply lookup_empty_Some in Hr. }
  destruct (p_packageId p) as [[|ch pkg]|]; simpl; [|  | ].
  - split; [naive_solver|]. intros _. by destruct (isThirdPartyPatchSource _).
  - destruct (m !! _) as [rule|] eqn:Er; [|split; [naive_solver congruence|done]].
    rewrite bool_decide_eq_true. split.
    + intros H pkg' rule' [= <-] _ Hr. rewrite Er in Hr. injection Hr as <-.
      repeat case_match; try done. bool_prop. eauto.
    + intros H. destruct (H _ rule eq_refl ltac:(done) Er) as (v & cmp & -> & -> & Hc).
      by rewrite (proj2 (Z.ltb_ge _ _)) by lia.
  - split; [naive_solver|]. intros _. by destruct (isThirdPartyPatchSource _).
Qed.

Lemma column_day_bound c : column_date c → Z.abs (day_number c) <= 10000400.
Proof.
  intros [Hv Hy]. pose proof (day_number_year c Hv) as Hd.
  pose proof (DayFromYear_range (dy c)). pose proof (DayFromYear_succ (dy c)).
  pose proof (leap_day_bounds (dy c)). lia.
Qed.

Lemma date_instant_iso c : column_date c → date_instant (iso c) = Some (day_number c * msPerDay).
Proof.
  intros Hc. pose proof (column_day_bound c Hc) as Hb. unfold date_instant.
  rewrite parts_iso by (destruct Hc; done || lia). simpl. unfold TimeClip, msPerDay.
  change (MakeDay (dy c) (dm c - 1) (dd c)) with (day_number c).
  by rewrite (proj2 (Z.leb_le _ _)) by lia.
Qed.

Lemma isHeldByDeferral_spec rel days now :
  rel = None ∨ (∃ c, column_date c ∧ rel = Some (iso c)) → days <= 3650000 →
  isHeldByDeferral rel days now = false ↔ aged rel days now.
Proof.
  intros Hrel Hdays. unfold isHeldByDeferral, aged. case_match eqn:E; bool_prop.
  { split; [by left | done]. }
  destruct Hrel as [->|(c & Hc & ->)]; simpl.
  { split; [done|]. intros [?|(c & _ & [=] & _)]. lia. }
  destruct (iso c) as [|ch s] eqn:Ei; [by apply iso_nonempty in Ei|].
  simpl. rewrite <- Ei, date_instant_iso by done. simpl. unfold TimeClip.
  pose proof (column_day_bound c Hc). unfold msPerDay.
  rewrite (proj2 (Z.leb_le _ _)) by lia. rewrite Z.ltb_ge. split.
  - intros Hle. right. exists c. split_and!; [done|done|lia].
  - intros [?|(c' & Hc' & [= Heq] & Hle)]; [lia|].
    apply (f_equal date_instant) in Heq. rewrite !date_instant_iso in Heq by done.
    injection Heq as Heq. unfold msPerDay in *. lia.
Qed.

Lemma severity_in_spec sev l : severity_in sev l = true ↔ severity_listed sev l.
Proof.
  unfold severity_in, severity_listed. destruct sev as [[|c s]|].
  - naive_solver.
  - rewrite bool_decide_eq_true. naive_solver.
  - naive_solver.
Qed.

Lemma manual_approvals_spec db partnerId ring ids p :
  p_id p ∈ ids → p_id p ∈ manual_approvals db partnerId ring ids ↔ manually_approved db partnerId ring p.
Proof.
  intros Hp. unfold manual_approvals, manually_approved.
  set (rows := filter _ _).
  assert (∀ (X : gset string), p_id p ∈ fold_left (λ s a,
    if bool_decide (pa_ringId a = ring) || bool_decide (pa_ringId a = None)
    then {[ pa_patchId a ]} ∪ s else s) rows X ↔
    p_id p ∈ X ∨ ∃ a, a ∈ rows ∧ pa_patchId a = p_id p ∧ (pa_ringId a = ring ∨ pa_ringId a = None)) as ->.
  { induction rows as [|a rows IH]; intros X; simpl; [set_solver|].
    rewrite IH. destruct (bool_decide_reflect (pa_ringId a = ring)),
      (bool_decide_reflect (pa_ringId a = None)); simpl; set_solver. }
  unfold rows. setoid_rewrite list_elem_of_filter. split.
  - intros [?|(a & ((? & ? & ?) & ?) & ? & ?)]; [set_solver|]. eauto 10.
  - intros (a & ? & ? & Ha & ? & ?). right. exists a. rewrite Ha. auto 10.
Qed.

Lemma pending_patches_spec db deviceId c : c ∈ pending_patches db deviceId ↔ outstanding db deviceId c.
Proof.
  unfold pending_patches, outstanding. setoid_rewrite list_elem_of_bind. split.
  - intros (dp & (p & Hc & Hp)%list_elem_of_bind & Hdp).
    apply list_elem_of_filter in Hdp as [[? Hs] ?]. apply list_elem_of_filter in Hp as [Hid ?].
    apply list_elem_of_singleton in Hc as ->. apply list_elem_of_singleton in Hs.
    exists dp. by split_and!.
  - intros (dp & ? & ? & ? & Hs & ? & ?). exists dp. split.
    + apply list_elem_of_bind. exists (pc_patch c). rewrite list_elem_of_filter.
      split; [|done]. apply list_elem_of_singleton. by destruct c; simplify_eq/=.
    + rewrite list_elem_of_filter. split; [|done]. by rewrite Hs; split; [|left].
Qed.

Lemma guard_ring_fields partnerId cfg :
  let g := guard_ring partnerId cfg in
  cfg_categoryRules g = cfg_categoryRules cfg ∧ cfg_autoApprove g = cfg_autoApprove cfg ∧
  cfg_deferralDays g = cfg_deferralDays cfg ∧ cfg_sources g = cfg_sources cfg ∧
  cfg_apps g = cfg_apps cfg.
Proof. unfold guard_ring. by case_match. Qed.

Lemma rule_in_force_elem cfg p rule : rule_in_force cfg p = Some rule → rule ∈ cfg_categoryRules cfg.
Proof.
  assert (∀ k, last_with (λ r, toLowerCase (category r)) k
                 (filter (λ r, truthy (Some (category r))) (cfg_categoryRules cfg)) = Some rule →
    rule ∈ cfg_categoryRules cfg) as Hl.
  { unfold last_with. intros k (l & Hl)%last_Some.
    assert (rule ∈ l ++ [rule]) as He by set_solver. rewrite <- Hl in He.
    by apply list_elem_of_filter in He as [_ [_ ?]%list_elem_of_filter]. }
  unfold rule_in_force, or_else. intros H. repeat case_match; simplify_eq; eauto.
Qed.

Section evaluation.
Context (db : PatchDb) (partnerId : string) (cfg : ApprovalEvaluationConfig) (now : Z) (p : patchRow).
Context (Hp : p ∈ patches db) (Hok : inputs_ok db cfg).

Lemma not_held_rule rule :
  rule_in_force cfg p = Some rule →
  isHeldByDeferral (p_releaseDate p) (default (cfg_deferralDays cfg) (deferralDaysOverride rule)) now
    = false ↔
  aged (p_releaseDate p) (default (cfg_deferralDays cfg) (deferralDaysOverride rule)) now.
Proof using Hp Hok.
  intros Hr. apply isHeldByDeferral_spec; [by apply (ok_dates db cfg)|].
  apply rule_in_force_elem in Hr. pose proof (ok_overrides _ _ Hok _ Hr).
  destruct (deferralDaysOverride rule); simpl in *; [done | by apply (ok_deferral db)].
Qed.

Lemma category_level_reason_spec rule reason :
  rule_in_force cfg p = Some rule →
  category_level_reason p (guard_ring partnerId cfg) rule now = Some reason ↔
  reason = category_rule ∧
  (default [] (severityFilter rule) = [] ∨
   severity_listed (p_severity p) (default [] (severityFilter rule))) ∧
  aged (p_releaseDate p) (default (cfg_deferralDays cfg) (deferralDaysOverride rule)) now.
Proof using Hp Hok.
  intros Hr. rewrite <- (not_held_rule rule Hr), <- severity_in_spec. unfold category_level_reason.
  destruct (guard_ring_fields partnerId cfg) as (_ & _ & -> & _ & _).
  destruct (isHeldByDeferral _ _ _), (default [] (severityFilter rule)) as [|s l]; simpl;
    try destruct (severity_in _ _); naive_solver.
Qed.

Lemma ring_level_reason_spec reason :
  let auto := parseRingAutoApprove (cfg_autoApprove cfg) in
  ring_level_reason p auto now = Some reason ↔
  reason = ring_auto_approve ∧ enabled auto = true ∧
  severity_listed (p_severity p) (severities auto) ∧ aged (p_releaseDate p) (deferralDays auto) now.
Proof using Hp Hok.
  intros auto. unfold ring_level_reason.
  rewrite <- (isHeldByDeferral_spec (p_releaseDate p) (deferralDays auto) now
    (ok_dates _ _ Hok p Hp) (ok_ring _ _ Hok)), <- severity_in_spec.
  destruct (enabled auto), (isHeldByDeferral _ _ _), (severities auto) as [|s l]; simpl;
    try naive_solver.
  - destruct (severity_in _ _); naive_solver.
  - rewrite severity_in_spec. split; [done|]. intros (_ & _ & (? & _ & _ & ?) & _). set_solver.
  - destruct (severity_in _ _); naive_solver.
Qed.

Lemma evaluatePatchApproval_justified (S : gset string) reason :
  p_id p ∈ S ↔ manually_approved db partnerId (usable_ring partnerId cfg) p →
  evaluatePatchApproval p (guard_ring partnerId cfg) S
    (buildCategoryRuleMap (cfg_categoryRules cfg)) (parseRingAutoApprove (cfg_autoApprove cfg)) now
    = Some reason ↔
  justified db partnerId cfg now p reason.
Proof using Hp Hok.
  intros HS. unfold evaluatePatchApproval. rewrite find_category_rule_spec.
  fold (usable_ring partnerId cfg). case_bool_decide as Hman.
  { apply HS in Hman. split; [intros [= <-]; by constructor | intros Hj; inversion Hj; naive_solver]. }
  rewrite HS in Hman. destruct (truthy (usable_ring _ _)) eqn:Ht; simpl.
  2: { split; [done | intros Hj; inversion Hj; naive_solver congruence]. }
  destruct (rule_in_force cfg p) as [rule|] eqn:Er; [destruct (autoApprove rule) eqn:Ea|].
  - rewrite category_level_reason_spec by done. split.
    + intros (-> & ? & ?). by apply justified_category with rule.
    + intros Hj. inversion Hj; naive_solver congruence.
  - rewrite ring_level_reason_spec. split.
    + intros (-> & ? & ? & ?). apply justified_ring; naive_solver.
    + intros Hj. inversion Hj; naive_solver congruence.
  - rewrite ring_level_reason_spec. split.
    + intros (-> & ? & ? & ?). apply justified_ring; naive_solver.
    + intros Hj. inversion Hj; naive_solver congruence.
Qed.
End evaluation.

(** The candidates that reach the evaluation, and the result as their evaluation. *)
Definition candidates (db : PatchDb) (deviceId : string) (cfg : ApprovalEvaluationConfig)
    : list PatchCandidate :=
  filter (λ c, passes_app_rules (buildAppRuleMap (cfg_apps cfg)) (pc_patch c))
    (filter (λ c, source_allowed (cfg_sources cfg) (pc_patch c)) (pending_patches db deviceId)).

Lemma candidates_spec db deviceId cfg c :
  c ∈ candidates db deviceId cfg ↔
  outstanding db deviceId c ∧ source_selected cfg (pc_patch c) ∧ app_rule_respected cfg (pc_patch c).
Proof.
  unfold candidates. rewrite !list_elem_of_filter, pending_patches_spec, !Is_true_true.
  rewrite source_allowed_spec, passes_app_rules_spec. tauto.
Qed.

Lemma resolve_elem db deviceId orgId cfg now ap :
  ap ∈ resolveApprovedPatchesForDevice db deviceId orgId cfg now ↔
  ∃ partnerId c reason (S : gset string),
    org_partner db orgId = Some partnerId ∧ partnerId ≠ ""%string ∧ c ∈ candidates db deviceId cfg ∧
    (p_id (pc_patch c) ∈ S ↔ manually_approved db partnerId (usable_ring partnerId cfg) (pc_patch c)) ∧
    evaluatePatchApproval (pc_patch c) (guard_ring partnerId cfg) S
      (buildCategoryRuleMap (cfg_categoryRules cfg)) (parseRingAutoApprove (cfg_autoApprove cfg)) now
      = Some reason ∧ ap = approve c reason.
Proof.
  unfold resolveApprovedPatchesForDevice.
  destruct (org_partner db orgId) as [partnerId|]; [|set_solver].
  destruct partnerId as [|ch s] eqn:Epartner; [set_solver|]. rewrite <- Epartner.
  destruct (guard_ring_fields partnerId cfg) as (-> & -> & _ & -> & ->).
  fold (usable_ring partnerId cfg) (candidates db deviceId cfg). rewrite list_elem_of_omap. split.
  - intros (c & Hin & (reason & Hr & ->)%fmap_Some). eexists _, c, reason, _.
    split_and!; [done | by subst | done | | exact Hr | done].
    apply manual_approvals_spec, list_elem_of_fmap. eauto.
  - intros (partner' & c & reason & S & [= <-] & _ & Hin & HS & Hr & ->). exists c. split; [done|].
    apply fmap_Some. exists reason. split; [|done]. rewrite <- Hr. unfold evaluatePatchApproval.
    rewrite <- (manual_approvals_spec _ _ _ ((λ c, p_id (pc_patch c)) <$> candidates db deviceId cfg)) in HS
      by (apply list_elem_of_fmap; eauto).
    by rewrite (bool_decide_ext _ _ HS).
Qed.

(** C19 (resolveApprovedPatchesForDevice, patchApprovalEvaluator.ts): a patch job gets
    exactly the patches that are outstanding on the device, come from a source the
    policy selects, respect the policy's rule on their application (not blocked, and
    provably not above a pin), and are justified: approved by hand by the device's own
    partner, partner-wide or for the job's ring; or, with a usable ring, by the category
    rule in force or by the ring's automatic approval, both only for a listed severity
    and a release that is at least as old as the deferral. The reason recorded is the
    justification, manual approval first. *)
Theorem resolveApprovedPatches_spec db deviceId orgId cfg now ap :
  inputs_ok db cfg →
  ap ∈ resolveApprovedPatchesForDevice db deviceId orgId cfg now ↔
  ∃ partnerId c reason,
    org_partner db orgId = Some partnerId ∧ partnerId ≠ ""%string ∧
    outstanding db deviceId c ∧ source_selected cfg (pc_patch c) ∧
    app_rule_respected cfg (pc_patch c) ∧
    justified db partnerId cfg now (pc_patch c) reason ∧ ap = approve c reason.
Proof.
  intros Hok. rewrite resolve_elem. split.
  - intros (partnerId & c & reason & S & ? & ? & Hc & HS & Hr & ->).
    apply candidates_spec in Hc as (Hout & ? & ?). exists partnerId, c, reason.
    apply (evaluatePatchApproval_justified db) in Hr; [done| |done|done].
    by destruct Hout as (? & _ & ? & _).
  - intros (partnerId & c & reason & ? & ? & Hout & ? & ? & Hj & ->).
    set (S := if decide (p_id (pc_patch c) ∈
                manual_approvals db partnerId (usable_ring partnerId cfg) [p_id (pc_patch c)])
              then {[ p_id (pc_patch c) ]} else ∅ : gset string).
    exists partnerId, c, reason, S.
    assert (p_id (pc_patch c) ∈ S ↔
            manually_approved db partnerId (usable_ring partnerId cfg) (pc_patch c)) as HS.
    { rewrite <- (manual_approvals_spec _ _ _ [p_id (pc_patch c)]) by set_solver.
      unfold S. case_decide; set_solver. }
    split_and!; try done; [by apply candidates_spec|].
    apply (evaluatePatchApproval_justified db); try done. by destruct Hout as (? & _ & ? & _).
Qed.

(** (the cross-partner guard of resolveApprovedPatchesForDevice): a policy linked to a
    ring of another partner never makes a job install anything by that ring's rules: all
    it approves was approved by hand, partner-wide, by the device's own partner. *)
Theorem foreign_ring_inert db deviceId orgId cfg now ap partnerId other :
  org_partner db orgId = Some partnerId → truthy (cfg_ringId cfg) = true →
  cfg_ringPartnerId cfg = Some other → other ≠ ""%string → other ≠ partnerId →
  ap ∈ resolveApprovedPatchesForDevice db deviceId orgId cfg now →
  ap_approvalReason ap = manual ∧
  ∃ a, a ∈ patchApprovals db ∧ pa_partnerId a = partnerId ∧ pa_patchId a = ap_patchId ap ∧
    pa_status a = "approved"%string ∧ pa_ringId a = None.
Proof.
  intros Hpartner Ht Hother Hne Hdiff (partner' & c & reason & S & Horg & _ & _ & HS & Hr & ->)%resolve_elem.
  rewrite Hpartner in Horg. injection Horg as <-.
  assert (usable_ring partnerId cfg = None) as Hring.
  { unfold usable_ring, guard_ring. rewrite Ht, Hother, bool_decide_false by congruence.
    by destruct other. }
  unfold evaluatePatchApproval in Hr. fold (usable_ring partnerId cfg) in Hr. rewrite Hring in *.
  case_bool_decide as Hman; simplify_eq/=. split; [done|].
  apply HS in Hman as (a & ? & ? & ? & ? & ?). exists a. naive_solver.
Qed.

(** ** Version order *)

Lemma rnd_sign q : Qcompare (rnd q) 0 = Qcompare q 0.
Proof.
  destruct (Qcompare q 0) eqn:E.
  - unfold rnd. by rewrite E.
  - apply Qlt_alt in E. apply (proj1 (Qlt_alt _ _)), rnd_neg, E.
  - apply Qgt_alt in E. apply (proj1 (Qgt_alt _ _)).
    pose proof (rnd_error q) as He. rewrite (Qabs_pos q) in He by lra.
    apply Qabs_Qle_condition in He as [He _].
    assert (q * (1 # 2 ^ 53) <= q * (1 # 2))%Q by (apply Qmult_le_l; [done|by vm_compute]). lra.
Qed.

Lemma Qcompare_sub_flip x y : Qcompare (x - y) 0 = CompOpp (Qcompare (y - x) 0).
Proof.
  destruct (Qcompare (y - x) 0) eqn:E; simpl.
  - apply Qeq_alt in E. apply (proj1 (Qeq_alt _ _)). lra.
  - apply Qlt_alt in E. apply (proj1 (Qgt_alt _ _)). lra.
  - apply Qgt_alt in E. apply (proj1 (Qlt_alt _ _)). lra.
Qed.

Lemma compare_segment_flip x y : compare_segment y x = Z.opp <$> compare_segment x y.
Proof.
  unfold compare_segment. rewrite (andb_comm (digits_only y)).
  destruct (digits_only x && digits_only y).
  - rewrite !rnd_sign, Qcompare_sub_flip. by destruct (Qcompare _ _).
  - rewrite (bool_decide_ext (y = x) (x = y)) by done. case_bool_decide as Hne; [done|].
    unfold str_lt. rewrite (str_cmp_flip (of_chars y)).
    assert (str_cmp (of_chars x) (of_chars y) ≠ 0) as H0.
    { rewrite str_cmp_zero. intros H%(f_equal chars).
      by rewrite !String.list_ascii_of_string_of_list_ascii in H. }
    destruct (Z.ltb_spec (str_cmp (of_chars x) (of_chars y)) 0),
      (Z.ltb_spec (- str_cmp (of_chars x) (of_chars y)) 0); done || lia.
Qed.

Lemma compare_segments_flip n xs ys : compare_segments n ys xs = - compare_segments n xs ys.
Proof.
  revert xs ys. induction n as [|n IH]; intros xs ys; [done|]. simpl.
  rewrite (compare_segment_flip (default _ (head xs))). destruct (compare_segment _ _); simpl; [done|].
  apply IH.
Qed.

Lemma comparePatchVersions_flip a b : comparePatchVersions b a = Z.opp <$> comparePatchVersions a b.
Proof.
  unfold comparePatchVersions. rewrite orb_comm. case_match; [done|]. simpl.
  by rewrite Nat.max_comm, compare_segments_flip.
Qed.

(** Dotted numbers, each at most [2^53]. *)
Definition small_number (w : list ascii) : bool := digits_only w && (digits_val w <=? 2 ^ 53).
Definition numeric_version (v : string) : bool := forallb small_number (split_chars "." (chars v)).

Lemma small_number_spec w : small_number w = true →
  w ≠ [] ∧ forallb is_digit w = true ∧ 0 <= digits_val w <= 2 ^ 53 ∧ digits_only w = true.
Proof.
  unfold small_number. intros [Hd Hv]%andb_true_iff. bool_prop.
  unfold digits_only in Hd. apply andb_true_iff in Hd as Hd'. destruct Hd' as [Hl Hw].
  split_and!; try done; [by destruct w|].
  by apply digits_val_bound.
Qed.

Lemma compare_segment_small x y :
  small_number x = true → small_number y = true →
  compare_segment x y =
  (if digits_val x <? digits_val y then Some (-1) else if digits_val y <? digits_val x then Some 1 else None).
Proof.
  intros (_ & _ & Hx & Dx)%small_number_spec (_ & _ & Hy & Dy)%small_number_spec.
  unfold compare_segment. rewrite Dx, Dy. simpl. rewrite rnd_sign. unfold segment_number.
  assert (∀ z, 0 <= z <= 2 ^ 53 → (rnd (inject_Z z) == inject_Z z)%Q) as Hr.
  { intros z Hz. apply rnd_int; [done|lia]. }
  rewrite (Hr _ Hx), (Hr _ Hy).
  destruct (Z.ltb_spec (digits_val x) (digits_val y)), (Z.ltb_spec (digits_val y) (digits_val x));
    unfold Qcompare, inject_Z, Qminus, Qplus, Qopp; simpl; case Z.compare_spec; done || lia.
Qed.

Lemma parseInt_digits w : small_number w = true → parseInt (of_chars w) = Some (digits_val w).
Proof.
  intros (Hne & Hd & _ & _)%small_number_spec. unfold parseInt.
  rewrite String.list_ascii_of_string_of_list_ascii, drop_spaces_id by by apply digits_no_space.
  assert (digit_prefix w = w) as Hp.
  { clear Hne. induction w as [|c w IH]; [done|]. simpl in *. apply andb_true_iff in Hd as [-> ?].
    by rewrite IH. }
  destruct w as [|c w]; [done|].
  assert (is_digit c = true) as Hc by (by apply andb_true_iff in Hd as [? _]).
  destruct (Ascii.eqb_spec c "-"); [by subst|]. destruct (Ascii.eqb_spec c "+"); [by subst|].
  unfold parse_unsigned_int. by rewrite Hp.
Qed.

Lemma compare_segments_small n xs ys :
  forallb small_number xs = true → forallb small_number ys = true →
  compare_segments n xs ys = compare_loop n (digits_val <$> xs) (digits_val <$> ys).
Proof.
  assert (∀ zs, forallb small_number zs = true →
    small_number (default ["0"%char] (head zs)) = true ∧
    digits_val (default ["0"%char] (head zs)) = default 0 (head (digits_val <$> zs)) ∧
    forallb small_number (tail zs) = true ∧ digits_val <$> tail zs = tail (digits_val <$> zs)) as Hd.
  { intros [|z zs]; [by vm_compute|]. simpl. intros [-> ->]%andb_true_iff. done. }
  revert xs ys. induction n as [|n IH]; intros xs ys Hx Hy; [done|]. simpl.
  destruct (Hd _ Hx) as (Sx & <- & Tx & <-), (Hd _ Hy) as (Sy & <- & Ty & <-).
  rewrite compare_segment_small by done.
  destruct (_ <? _); [done|]. destruct (_ <? _); [done|]. by apply IH.
Qed.

Lemma segments_numeric v : numeric_version v = true → segments v = digits_val <$> split_chars "." (chars v).
Proof.
  unfold numeric_version, segments, Prelude.split. intros H. rewrite <- list_fmap_compose.
  apply list_fmap_ext. intros i w Hw. simpl.
  rewrite parseInt_digits; [done|]. rewrite forallb_forall in H. apply H.
  by eapply list_elem_of_In, list_elem_of_lookup_2.
Qed.

(** The characters of a text whose segments are digits. *)
Lemma split_chars_forall sep (P : ascii → bool) l :
  forallb (forallb P) (split_chars sep l) = forallb (λ c, Ascii.eqb c sep || P c) l.
Proof.
  induction l as [|c l IH]; [done|]. simpl. rewrite <- IH. destruct (Ascii.eqb c sep); [done|].
  destruct (split_chars sep l); simpl; by rewrite ?andb_true_r, ?andb_assoc.
Qed.

Lemma split_seps_dots l :
  forallb (λ c, Ascii.eqb c "." || is_digit c) l = true → split_seps l = split_chars "." l.
Proof.
  induction l as [|c l IH]; [done|]. simpl. intros [Hc Hl]%andb_true_iff. rewrite IH by done.
  unfold is_sep. destruct (Ascii.eqb_spec c ".") as [->|Hne]; [done|]. simpl in Hc.
  rewrite bool_decide_false; [done|].
  rewrite !elem_of_cons, elem_of_nil. intros [?|[->|[->|[->|[]]]]]; done.
Qed.

Lemma numeric_version_chars v : numeric_version v = true →
  forallb (λ c, Ascii.eqb c "." || is_digit c) (chars v) = true ∧ v ≠ ""%string.
Proof.
  unfold numeric_version. intros H. split.
  - rewrite <- split_chars_forall. rewrite forallb_forall in H |- *. intros w Hw.
    by destruct (small_number_spec w (H w Hw)) as (_ & ? & _).
  - by intros ->.
Qed.

Lemma numeric_version_trim v : numeric_version v = true → trim v = v.
Proof.
  intros [H _]%numeric_version_chars. rewrite <- (String.string_of_list_ascii_of_string v) at 2.
  rewrite <- (String.string_of_list_ascii_of_string v) at 1. apply trim_id.
  rewrite forallb_forall in H |- *. intros c Hc. specialize (H c Hc).
  apply orb_true_iff in H as [H|H]; [apply Ascii.eqb_eq in H as ->; done|].
  by rewrite digit_not_space.
Qed.

(** (comparePatchVersions, patchApprovalEvaluator.ts, against compareBuilds,
    versionCompare.ts): exchanging the versions negates the result of every comparison,
    blank sides included; and on dotted numbers the comparison that enforces pins agrees
    with the comparison of the vulnerability matcher. *)
Theorem comparePatchVersions_builds a b :
  comparePatchVersions b a = Z.opp <$> comparePatchVersions a b ∧
  ∀ v w, a = Some v → b = Some w → numeric_version v = true → numeric_version w = true →
    comparePatchVersions a b = Some (compareBuilds v w).
Proof.
  split; [apply comparePatchVersions_flip|]. intros v w -> -> Hv Hw.
  unfold comparePatchVersions, compareBuilds. simpl.
  rewrite !numeric_version_trim, !segments_numeric by done.
  apply numeric_version_chars in Hv as Hv'. apply numeric_version_chars in Hw as Hw'.
  destruct Hv' as [Cv Nv], Hw' as [Cw Nw]. rewrite !bool_decide_false by done. simpl.
  rewrite !split_seps_dots, !length_fmap by done. by rewrite compare_segments_small.
Qed.

Lemma comparePatchVersions_builds_witness :
  numeric_version "124.0.6367.91" = true ∧ numeric_version "124.0.6367.201" = true ∧
  comparePatchVersions (Some "124.0.6367.91"%string) (Some "124.0.6367.201"%string) = Some (-1).
Proof.
  split; [by vm_compute|]. split; [by vm_compute|].
  destruct (comparePatchVersions_builds (Some "124.0.6367.91"%string) (Some "124.0.6367.201"%string))
    as [_ H].
  rewrite (H _ _ eq_refl eq_refl ltac:(by vm_compute) ltac:(by vm_compute)). by vm_compute.
Defined.

(** A device with a Windows update, a pinned browser above its pin, and an archiver. *)
Module Example1.
Open Scope string_scope.
Definition row (i src : string) (pkg ver sev rel : option string) : patchRow :=
  {| p_id := i; p_source := src; p_externalId := "ext-" +:+ i; p_packageId := pkg; p_version := ver;
     p_title := i; p_severity := sev; p_category := None; p_releaseDate := rel; p_requiresReboot := false |}.
Definition kb := row "kb" "microsoft" None None (Some "critical") (Some "2024-05-14").
Definition browser := row "br" "third_party" (Some "Acme.Browser") (Some "125.1") (Some "critical") (Some "2024-05-01").
Definition zip := row "zip" "custom" (Some "Acme.Zip") (Some "9") None None.
Definition db : PatchDb :=
  {| organizations := [("org", Some "msp")]; patches := [kb; browser; zip];
     devicePatches := (λ p, {| dp_id := "d-" +:+ p; dp_deviceId := "dev"; dp_patchId := p;
                               dp_status := "pending" |}) <$> ["kb"; "br"; "zip"];
     patchApprovals := [{| pa_partnerId := "msp"; pa_patchId := "zip"; pa_ringId := None;
                           pa_status := "approved" |};
                        {| pa_partnerId := "msp"; pa_patchId := "br"; pa_ringId := Some "ring";
                           pa_status := "approved" |}] |}.
Definition cfg (ringPartner : string) : ApprovalEvaluationConfig :=
  {| cfg_ringId := Some "ring"; cfg_ringPartnerId := Some ringPartner; cfg_categoryRules := [];
     cfg_autoApprove := Some (JObj [("enabled", JBool true); ("severities", JArr [JStr "critical"]);
                                    ("deferralDays", JNum 7)]);
     cfg_deferralDays := 0; cfg_sources := Some ["os"; "third_party"]; cfg_policyAutoApprove := None;
     cfg_apps := Some [{| rule_source := "third_party"; rule_packageId := "acme.browser";
                          rule_action := pin "124.9" |}] |}.
(** Noon of the 21st of May 2024, a week after the update. *)
Definition now : Z := 1716292800000.
End Example1.

Example resolve_example :
  (λ a, (ap_patchId a, ap_approvalReason a)) <$>
    resolveApprovedPatchesForDevice Example1.db "dev" "org" (Example1.cfg "msp") Example1.now
  = [("kb", ring_auto_approve); ("zip", manual)]%string ∧
  (λ a, (ap_patchId a, ap_approvalReason a)) <$>
    resolveApprovedPatchesForDevice Example1.db "dev" "org" (Example1.cfg "rival") Example1.now
  = [("zip", manual)]%string.
Proof. vm_compute. split; reflexivity. Qed.

Lemma example_inputs_ok rp : inputs_ok Example1.db (Example1.cfg rp).
Proof.
  assert (∀ y m d, 1000 <= y <= 9999 → 1 <= m <= 12 → 1 <= d <= 28 →
    column_date {| dy := y; dm := m; dd := d |}) as Hd.
  { intros y m d ? ? ?. pose proof (month_len_bounds y m). unfold column_date, valid. simpl. lia. }
  split; [|done|set_solver|by vm_compute].
  intros p Hp. simpl in Hp. repeat (apply elem_of_cons in Hp as [->|Hp]).
  - right. exists {| dy := 2024; dm := 5; dd := 14 |}. split; [apply Hd; lia | by vm_compute].
  - right. exists {| dy := 2024; dm := 5; dd := 1 |}. split; [apply Hd; lia | by vm_compute].
  - by left.
  - by apply elem_of_nil in Hp.
Qed.

Lemma resolveApprovedPatches_spec_witness :
  let ap := approve {| pc_devicePatchId := "d-kb"; pc_patch := Example1.kb |} ring_auto_approve in
  ∃ partnerId c reason,
    org_partner Example1.db "org" = Some partnerId ∧ partnerId ≠ ""%string ∧
    outstanding Example1.db "dev" c ∧ source_selected (Example1.cfg "msp") (pc_patch c) ∧
    app_rule_respected (Example1.cfg "msp") (pc_patch c) ∧
    justified Example1.db partnerId (Example1.cfg "msp") Example1.now (pc_patch c) reason ∧
    ap = approve c reason.
Proof.
  intros ap.
  apply (proj1 (resolveApprovedPatches_spec Example1.db "dev" "org" (Example1.cfg "msp") Example1.now ap
    (example_inputs_ok "msp"))).
  vm_compute. left.
Defined.

Lemma foreign_ring_inert_witness :
  let ap := approve {| pc_devicePatchId := "d-zip"; pc_patch := Example1.zip |} manual in
  ap_approvalReason ap = manual ∧
  ∃ a, a ∈ patchApprovals Example1.db ∧ pa_partnerId a = "msp"%string ∧ pa_patchId a = ap_patchId ap ∧
    pa_status a = "approved"%string ∧ pa_ringId a = None.
Proof.
  intros ap. apply (foreign_ring_inert Example1.db "dev" "org" (Example1.cfg "rival") Example1.now ap
    "msp" "rival"); try done.
  vm_compute. left.
Defined.
