(* ===== verification/ConfigPolicy.v ===== *)
(** * Configuration policies: which settings apply to a device
    ([services/featureConfigResolver.ts], [packages/shared/src/utils/timezone.ts])

    Policies carry feature links with settings and are assigned to partners,
    organisations, sites, groups and devices; for each feature the closest assignment
    wins.  The tables are the record [ConfigDb]; a join keeps the order of the tables and
    [ORDER BY] is a stable sort.  Instants are milliseconds. *)

From S2P Require Import Prelude JsNum Calendar Json.
From Stdlib Require Import Sorted.

Open Scope Z_scope.

(** ** Tables *)

Inductive ConfigAssignmentLevel := partner | organization | site | device_group | device.
#[export] Instance ConfigAssignmentLevel_eq_dec : EqDecision ConfigAssignmentLevel.
Proof. solve_decision. Defined.

Record deviceRow := {
  dev_id : string; dev_orgId : string; dev_siteId : string; dev_hostname : string;
  dev_displayName : option string; dev_role : string; dev_osType : string; dev_osVersion : string;
  dev_status : string; dev_lastSeenAt : option Z; dev_mtlsCertExpiresAt : option Z;
  dev_tags : list string }.
Record orgRow := { org_id : string; org_partnerId : option string; org_settings : option json }.
(** The time zone columns are NOT NULL. *)
Record partnerRow := { pt_id : string; pt_timezone : string; pt_settings : option json }.
Record siteRow := { site_id : string; site_timezone : string }.
Record membershipRow := { mb_deviceId : string; mb_groupId : string }.

Record assignmentRow := {
  as_id : string; as_configPolicyId : string; as_level : ConfigAssignmentLevel; as_targetId : string;
  as_priority : Z; as_roleFilter : option (list string); as_osFilter : option (list string);
  as_createdAt : Z }.
#[export] Instance assignmentRow_eq_dec : EqDecision assignmentRow.
Proof. solve_decision. Defined.
Record policyRow := {
  cp_id : string; cp_orgId : option string; cp_partnerId : option string; cp_name : string;
  cp_status : string }.
Record linkRow := {
  fl_id : string; fl_configPolicyId : string; fl_featureType : string;
  fl_featurePolicyId : option string; fl_inlineSettings : option json }.

Record alertRuleRow := {
  ar_id : string; ar_featureLinkId : string; ar_name : string; ar_severity : string;
  ar_conditions : json; ar_cooldownMinutes : Z; ar_autoResolve : bool;
  ar_autoResolveConditions : option json; ar_titleTemplate : string; ar_messageTemplate : string;
  ar_sortOrder : Z }.
Record automationRow := {
  au_id : string; au_featureLinkId : string; au_name : string; au_enabled : bool;
  au_triggerType : string; au_actions : json; au_sortOrder : Z }.
Record complianceRuleRow := {
  cr_id : string; cr_featureLinkId : string; cr_name : string; cr_rules : json;
  cr_enforcementLevel : string; cr_checkIntervalMinutes : Z; cr_remediationScriptId : option string;
  cr_sortOrder : Z }.
Record patchSettingsRow := {
  ps_featureLinkId : string; ps_sources : list string; ps_autoApprove : bool;
  ps_autoApproveSeverities : option (list string); ps_scheduleFrequency : string;
  ps_scheduleTime : string; ps_rebootPolicy : string }.
Record backupSettingsRow := {
  bs_featureLinkId : string; bs_schedule : json; bs_retention : json; bs_paths : json;
  bs_backupMode : string; bs_targets : json }.
Record maintenanceSettingsRow := {
  ms_featureLinkId : string; recurrence : string; durationHours : Z; ms_timezone : string;
  windowStart : option string; ms_suppressAlerts : bool; ms_suppressPatching : bool;
  ms_suppressAutomations : bool; ms_suppressScripts : bool }.

Record ConfigDb := {
  devices : list deviceRow; organizations : list orgRow; partners : list partnerRow;
  sites : list siteRow; memberships : list membershipRow; assignments : list assignmentRow;
  policies : list policyRow; links : list linkRow; alertRules : list alertRuleRow;
  automations : list automationRow; complianceRules : list complianceRuleRow;
  patchSettings : list patchSettingsRow; backupSettings : list backupSettingsRow;
  maintenanceSettings : list maintenanceSettingsRow }.

(** ** Hierarchy and conditions *)

Definition LEVEL_PRIORITY (l : ConfigAssignmentLevel) : Z :=
  match l with device => 5 | device_group => 4 | site => 3 | organization => 2 | partner => 1 end.

Record DeviceHierarchy := {
  h_deviceId : string; h_orgId : string; h_siteId : string; h_partnerId : option string;
  h_groupIds : list string; h_deviceRole : string; h_osType : string }.

Definition find_device (db : ConfigDb) (deviceId : string) : option deviceRow :=
  head (filter (λ d, dev_id d = deviceId) (devices db)).
Definition find_org (db : ConfigDb) (orgId : string) : option orgRow :=
  head (filter (λ o, org_id o = orgId) (organizations db)).

Definition loadDeviceHierarchy (db : ConfigDb) (deviceId : string) : option DeviceHierarchy :=
  d ← find_device db deviceId;
  Some {| h_deviceId := dev_id d; h_orgId := dev_orgId d; h_siteId := dev_siteId d;
          h_partnerId := find_org db (dev_orgId d) ≫= org_partnerId;
          h_groupIds := mb_groupId <$> filter (λ m, mb_deviceId m = deviceId) (memberships db);
          h_deviceRole := dev_role d; h_osType := dev_osType d |}.

Definition filter_matches (f : option (list string)) (v : string) : bool :=
  match f with None => true | Some l => bool_decide (v ∈ l) end.
Definition roleOsFilterConditions (h : DeviceHierarchy) (a : assignmentRow) : bool :=
  filter_matches (as_roleFilter a) (h_deviceRole h) && filter_matches (as_osFilter a) (h_osType h).

Definition policyOwnershipCondition (h : DeviceHierarchy) (p : policyRow) : bool :=
  if truthy (h_partnerId h) then
    bool_decide (cp_orgId p = Some (h_orgId h)) ||
    (bool_decide (cp_orgId p = None) && bool_decide (cp_partnerId p = h_partnerId h))
  else bool_decide (cp_orgId p = Some (h_orgId h)).

Definition targetConditions (h : DeviceHierarchy) (a : assignmentRow) : bool :=
  match as_level a with
  | device => bool_decide (as_targetId a = h_deviceId h)
  | device_group => bool_decide (as_targetId a ∈ h_groupIds h)
  | site => bool_decide (as_targetId a = h_siteId h)
  | organization => bool_decide (as_targetId a = h_orgId h)
  | partner => truthy (h_partnerId h) && bool_decide (Some (as_targetId a) = h_partnerId h)
  end.

(** ** Sorting *)

Section sorting.
Context {A : Type} (cmp : A → A → Z).

Fixpoint insert_by (x : A) (l : list A) : list A :=
  match l with
  | [] => [x]
  | y :: l' => if cmp x y <=? 0 then x :: l else y :: insert_by x l'
  end.
Definition sort_by (l : list A) : list A := foldr insert_by [] l.
End sorting.

(** A row of the join: the assignment, its policy, the feature link, the settings. *)
Record joined (A : Type) := Joined {
  j_assignment : assignmentRow; j_policy : policyRow; j_link : linkRow; j_item : A }.
Arguments Joined {A}.
Arguments j_assignment {A}.
Arguments j_policy {A}.
Arguments j_link {A}.
Arguments j_item {A}.

Definition hierarchy_cmp {A} (a b : joined A) : Z :=
  let x := j_assignment a in
  let y := j_assignment b in
  let levelDiff := LEVEL_PRIORITY (as_level y) - LEVEL_PRIORITY (as_level x) in
  if negb (levelDiff =? 0) then levelDiff
  else let priDiff := as_priority x - as_priority y in
       if negb (priDiff =? 0) then priDiff else as_createdAt x - as_createdAt y.
Definition sortByHierarchy {A} (rows : list (joined A)) : list (joined A) := sort_by hierarchy_cmp rows.

(** [ORDER BY level, priority, created_at, sort_order]; an enumeration is ordered as
    declared. *)
Definition query_cmp {A} (sortOrder : A → Z) (a b : joined A) : Z :=
  let x := j_assignment a in
  let y := j_assignment b in
  let d1 := LEVEL_PRIORITY (as_level x) - LEVEL_PRIORITY (as_level y) in
  let d2 := as_priority x - as_priority y in
  let d3 := as_createdAt x - as_createdAt y in
  if negb (d1 =? 0) then d1 else if negb (d2 =? 0) then d2 else if negb (d3 =? 0) then d3
  else sortOrder (j_item a) - sortOrder (j_item b).

(** ** The query shared by the resolvers *)

Section resolver.
Context {A : Type} (featureTypes : list string) (items : linkRow → list A) (sortOrder : A → Z).

Definition applies (h : DeviceHierarchy) (a : assignmentRow) (p : policyRow) : bool :=
  bool_decide (as_configPolicyId a = cp_id p) && bool_decide (cp_status p = "active"%string)
  && policyOwnershipCondition h p && targetConditions h a && roleOsFilterConditions h a.

Definition feature_query (db : ConfigDb) (h : DeviceHierarchy) : list (joined A) :=
  sort_by (query_cmp sortOrder)
    (a ← assignments db;
     p ← filter (λ p, applies h a p) (policies db);
     l ← filter (λ l, fl_configPolicyId l = cp_id p ∧ fl_featureType l ∈ featureTypes) (links db);
     (λ i, Joined a p l i) <$> items l).

(** Every item of the winning assignment. *)
Definition resolve_all (db : ConfigDb) (deviceId : string) : list A :=
  match loadDeviceHierarchy db deviceId with
  | None => []
  | Some h =>
      let sorted := sortByHierarchy (feature_query db h) in
      match sorted with
      | [] => []
      | w :: _ => j_item <$> filter (λ r, as_id (j_assignment r) = as_id (j_assignment w)) sorted
      end
  end.

(** The first row. *)
Definition resolve_one (db : ConfigDb) (deviceId : string) : option (joined A) :=
  h ← loadDeviceHierarchy db deviceId; head (sortByHierarchy (feature_query db h)).
End resolver.

(** [INNER JOIN] and [LEFT JOIN] with a settings table. *)
Definition inner {A} (key : A → string) (table : list A) (l : linkRow) : list A :=
  filter (λ r, key r = fl_id l) table.
Definition left_join {A} (key : A → string) (table : list A) (l : linkRow) : list (option A) :=
  match inner key table l with [] => [None] | rows => Some <$> rows end.

(** ** Time zones *)

Definition UTC_TIMEZONE : string := "UTC".

Definition upper_ascii (c : ascii) : ascii :=
  let n := nat_of_ascii c in if ((97 <=? n) && (n <=? 122))%nat then ascii_of_nat (n - 32) else c.
Definition toUpperCase (s : string) : string := of_chars (upper_ascii <$> chars s).

Record EffectiveTimezoneInput := {
  explicit : option string; siteTz : option string; orgTz : option string; partnerTz : option string }.

Section timezones.
(** Whether [Intl.DateTimeFormat] accepts a zone. *)
Context (intl_zone : string → bool).

Definition isValidIanaTimezone (tz : option string) : bool :=
  match tz with Some (String _ _ as z) => intl_zone z | _ => false end.

Definition normalizeTimezone (tz : option string) (fallback : string) : string :=
  if isValidIanaTimezone tz then default UTC_TIMEZONE tz
  else if isValidIanaTimezone (Some fallback) then fallback else UTC_TIMEZONE.

Definition canonicalizeTimezone (tz : option string) : option string :=
  if negb (isValidIanaTimezone tz) then None
  else if bool_decide (toUpperCase <$> tz = Some UTC_TIMEZONE) then Some UTC_TIMEZONE else tz.

Definition resolveEffectiveTimezone (i : EffectiveTimezoneInput) : string :=
  let pick c rest := if isValidIanaTimezone c then default UTC_TIMEZONE c else rest in
  pick (explicit i) (pick (siteTz i) (pick (orgTz i) (pick (partnerTz i) UTC_TIMEZONE))).

Definition partnerTimezoneFrom (column : option string) (settings : option json) : option string :=
  let canonicalColumn := canonicalizeTimezone column in
  match canonicalColumn with
  | Some z => if negb (bool_decide (z = "UTC"%string)) then Some z
              else match as_string (settings ≫= field "timezone") with
                   | Some (String _ _ as s) => Some s
                   | _ => Some z end
  | None => match as_string (settings ≫= field "timezone") with
            | Some (String _ _ as s) => Some s
            | _ => None end
  end.

(** The device joined with its organisation, and with partner and site where they are
    visible. *)
Definition resolveDeviceTimezone (db : ConfigDb) (deviceId : string) : string :=
  let row := d ← find_device db deviceId; o ← find_org db (dev_orgId d); Some (d, o) in
  let site_row := r ← row; head (filter (λ s, site_id s = dev_siteId r.1) (sites db)) in
  let partner_row := r ← row; pid ← org_partnerId r.2;
                     head (filter (λ p, pt_id p = pid) (partners db)) in
  let orgTimezone := r ← row; s ← org_settings r.2; field "timezone" s in
  resolveEffectiveTimezone
    {| explicit := None; siteTz := site_timezone <$> site_row; orgTz := as_string orgTimezone;
       partnerTz := partnerTimezoneFrom (pt_timezone <$> partner_row) (partner_row ≫= pt_settings) |}.

(** ** The resolvers *)

Definition resolveAlertRulesForDevice (db : ConfigDb) : string → list alertRuleRow :=
  resolve_all ["alert_rule"; "monitoring"]%string (inner ar_featureLinkId (alertRules db)) ar_sortOrder db.

Definition resolveAutomationsForDevice (db : ConfigDb) : string → list automationRow :=
  resolve_all ["automation"]%string (inner au_featureLinkId (automations db)) au_sortOrder db.

Definition resolveComplianceRulesForDevice (db : ConfigDb) : string → list complianceRuleRow :=
  resolve_all ["compliance"]%string (inner cr_featureLinkId (complianceRules db)) cr_sortOrder db.

Record ResolvedPatchConfigDetails := {
  settings : patchSettingsRow; featureLinkId : string; configPolicyId : string;
  configPolicyName : string; featurePolicyId : option string;
  assignmentLevel : ConfigAssignmentLevel; assignmentTargetId : string; assignmentPriority : Z;
  resolvedTimezone : string }.

Definition resolvePatchConfigDetailsForDevice (db : ConfigDb) (deviceId : string)
    : option ResolvedPatchConfigDetails :=
  winner ← resolve_one ["patch"]%string (inner ps_featureLinkId (patchSettings db)) (λ _, 0) db deviceId;
  Some {| settings := j_item winner; featureLinkId := fl_id (j_link winner);
          configPolicyId := cp_id (j_policy winner); configPolicyName := cp_name (j_policy winner);
          featurePolicyId := fl_featurePolicyId (j_link winner);
          assignmentLevel := as_level (j_assignment winner);
          assignmentTargetId := as_targetId (j_assignment winner);
          assignmentPriority := as_priority (j_assignment winner);
          resolvedTimezone := resolveDeviceTimezone db deviceId |}.
Definition resolvePatchConfigForDevice (db : ConfigDb) (deviceId : string) : option patchSettingsRow :=
  settings <$> resolvePatchConfigDetailsForDevice db deviceId.

Record ResolvedBackupConfig := {
  rb_settings : option backupSettingsRow; rb_featureLinkId : string; rb_configId : option string;
  rb_inlineSettings : option json; rb_resolvedTimezone : string }.

Definition backup_rows (db : ConfigDb) := left_join bs_featureLinkId (backupSettings db).

Definition resolveBackupConfigForDevice (db : ConfigDb) (deviceId : string)
    : option ResolvedBackupConfig :=
  winner ← resolve_one ["backup"]%string (backup_rows db) (λ _, 0) db deviceId;
  Some {| rb_settings := j_item winner; rb_featureLinkId := fl_id (j_link winner);
          rb_configId := fl_featurePolicyId (j_link winner);
          rb_inlineSettings := fl_inlineSettings (j_link winner);
          rb_resolvedTimezone := resolveDeviceTimezone db deviceId |}.

Definition resolveMaintenanceConfigForDevice (db : ConfigDb) (deviceId : string)
    : option maintenanceSettingsRow :=
  j_item <$> resolve_one ["maintenance"]%string (inner ms_featureLinkId (maintenanceSettings db))
               (λ _, 0) db deviceId.

Definition resolveSoftwarePolicyForDevice (db : ConfigDb) (deviceId : string) : option string :=
  winner ← resolve_one ["software_policy"]%string (λ _, [tt]) (λ _, 0) db deviceId;
  fl_featurePolicyId (j_link winner).

(** ** Batch resolvers *)

(** The devices an assignment is about. *)
Definition resolveDevicesForAssignmentTarget (db : ConfigDb) (level : ConfigAssignmentLevel)
    (targetId : string) : list string :=
  match level with
  | device => [targetId]
  | device_group => mb_deviceId <$> filter (λ m, mb_groupId m = targetId) (memberships db)
  | site => dev_id <$> filter (λ d, dev_siteId d = targetId) (devices db)
  | organization => dev_id <$> filter (λ d, dev_orgId d = targetId) (devices db)
  | partner =>
      let orgIds := org_id <$> filter (λ o, org_partnerId o = Some targetId) (organizations db) in
      dev_id <$> filter (λ d, dev_orgId d ∈ orgIds) (devices db)
  end.

(** Adding to a JavaScript set keeps the first position. *)
Definition add_id (s : list string) (x : string) : list string :=
  if bool_decide (x ∈ s) then s else s ++ [x].

Definition resolveDeviceIdsForSoftwarePolicy (db : ConfigDb) (softwarePolicyId : string) : list string :=
  let configPolicyIds :=
    l ← filter (λ l, fl_featureType l = "software_policy"%string ∧
                     fl_featurePolicyId l = Some softwarePolicyId) (links db);
    p ← filter (λ p, cp_id p = fl_configPolicyId l ∧ cp_status p = "active"%string) (policies db);
    [fl_configPolicyId l] in
  let found := filter (λ a, as_configPolicyId a ∈ configPolicyIds) (assignments db) in
  let candidateDeviceIds :=
    fold_left (λ s a, fold_left add_id (resolveDevicesForAssignmentTarget db (as_level a) (as_targetId a)) s)
      found [] in
  filter (λ d, resolveSoftwarePolicyForDevice db d = Some softwarePolicyId) candidateDeviceIds.

Record ComplianceRuleWithTarget := {
  cw_complianceRule : complianceRuleRow; cw_assignmentLevel : ConfigAssignmentLevel;
  cw_assignmentTargetId : string; cw_policyId : string; cw_policyName : string }.
Record ScheduledAutomationWithTarget := {
  sw_automation : automationRow; sw_assignmentLevel : ConfigAssignmentLevel;
  sw_assignmentTargetId : string; sw_policyId : string; sw_policyName : string }.

(** [ORDER BY level, target_id, sort_order]. *)
Definition scan_cmp {A} (level : A → ConfigAssignmentLevel) (target : A → string) (sortOrder : A → Z)
    (a b : A) : Z :=
  let d1 := LEVEL_PRIORITY (level a) - LEVEL_PRIORITY (level b) in
  let d2 := str_cmp (target a) (target b) in
  if negb (d1 =? 0) then d1 else if negb (d2 =? 0) then d2 else sortOrder a - sortOrder b.

Definition scanScheduledAutomations (db : ConfigDb) : list ScheduledAutomationWithTarget :=
  sort_by (scan_cmp sw_assignmentLevel sw_assignmentTargetId (λ r, au_sortOrder (sw_automation r)))
    (au ← filter (λ au, au_triggerType au = "schedule"%string ∧ au_enabled au = true) (automations db);
     l ← filter (λ l, au_featureLinkId au = fl_id l) (links db);
     p ← filter (λ p, fl_configPolicyId l = cp_id p ∧ cp_status p = "active"%string) (policies db);
     a ← filter (λ a, as_configPolicyId a = cp_id p) (assignments db);
     [{| sw_automation := au; sw_assignmentLevel := as_level a; sw_assignmentTargetId := as_targetId a;
         sw_policyId := cp_id p; sw_policyName := cp_name p |}]).

Definition scanDueComplianceChecks (db : ConfigDb) : list ComplianceRuleWithTarget :=
  sort_by (scan_cmp cw_assignmentLevel cw_assignmentTargetId (λ r, cr_sortOrder (cw_complianceRule r)))
    (cr ← complianceRules db;
     l ← filter (λ l, cr_featureLinkId cr = fl_id l) (links db);
     p ← filter (λ p, fl_configPolicyId l = cp_id p ∧ cp_status p = "active"%string) (policies db);
     a ← filter (λ a, as_configPolicyId a = cp_id p) (assignments db);
     [{| cw_complianceRule := cr; cw_assignmentLevel := as_level a; cw_assignmentTargetId := as_targetId a;
         cw_policyId := cp_id p; cw_policyName := cp_name p |}]).

(** ** Backup *)

Record BackupAssignedDevice := {
  ba_deviceId : string; ba_featureLinkId : string; ba_configId : option string;
  ba_settings : option backupSettingsRow; ba_resolvedTimezone : string }.

(** The devices of one row, limited to the organisation where the source does. *)
Definition backup_target_devices (db : ConfigDb) (orgId : string) (a : assignmentRow) : list string :=
  match as_level a with
  | device => [as_targetId a]
  | device_group => mb_deviceId <$> filter (λ m, mb_groupId m = as_targetId a) (memberships db)
  | site => dev_id <$> filter (λ d, dev_siteId d = as_targetId a ∧ dev_orgId d = orgId) (devices db)
  | organization => dev_id <$> filter (λ d, dev_orgId d = as_targetId a) (devices db)
  | partner =>
      d ← filter (λ d, dev_orgId d = orgId) (devices db);
      (λ _, dev_id d) <$> filter (λ o, org_id o = dev_orgId d ∧ org_partnerId o = Some (as_targetId a))
                            (organizations db)
  end.

Definition see_device (r : joined (option backupSettingsRow)) (seen : list BackupAssignedDevice)
    (deviceId : string) : list BackupAssignedDevice :=
  if bool_decide (deviceId ∈ ba_deviceId <$> seen) then seen
  else seen ++ [{| ba_deviceId := deviceId; ba_featureLinkId := fl_id (j_link r);
                   ba_configId := fl_featurePolicyId (j_link r); ba_settings := j_item r;
                   ba_resolvedTimezone := "UTC" |}].

Definition resolveAllBackupAssignedDevices (db : ConfigDb) (orgId : string) : list BackupAssignedDevice :=
  let rows :=
    l ← filter (λ l, fl_featureType l = "backup"%string) (links db);
    p ← filter (λ p, fl_configPolicyId l = cp_id p ∧ cp_status p = "active"%string ∧
                     cp_orgId p = Some orgId) (policies db);
    a ← filter (λ a, as_configPolicyId a = cp_id p) (assignments db);
    (λ i, Joined a p l i) <$> backup_rows db l in
  let seen := fold_left (λ seen r, fold_left (see_device r) (backup_target_devices db orgId (j_assignment r)) seen)
                (sortByHierarchy rows) [] in
  (λ e, {| ba_deviceId := ba_deviceId e; ba_featureLinkId := ba_featureLinkId e;
           ba_configId := ba_configId e; ba_settings := ba_settings e;
           ba_resolvedTimezone := resolveDeviceTimezone db (ba_deviceId e) |}) <$> seen.
End timezones.

Inductive ImmutabilityMode := application | provider.
#[export] Instance ImmutabilityMode_eq_dec : EqDecision ImmutabilityMode.
Proof. solve_decision. Defined.

Record ResolvedBackupProtection := {
  legalHold : bool; legalHoldReason : option string; immutabilityMode : option ImmutabilityMode;
  immutableDays : option Q; sourceFeatureLinkIds : list string }.

Definition parseBackupRetentionObject (value : option json) : option json :=
  match value with Some (JObj l) => Some (JObj l) | _ => None end.

Definition getRetentionLegalHoldReason (retention : option json) : option string :=
  match as_string (retention ≫= field "legalHoldReason") with
  | Some reason => if bool_decide (trim reason = ""%string) then None else Some (trim reason)
  | None => None
  end.

Definition getRetentionImmutabilityMode (retention : option json) : option ImmutabilityMode :=
  match as_string (retention ≫= field "immutabilityMode") with
  | Some m => if bool_decide (m = "application"%string) then Some application
              else if bool_decide (m = "provider"%string) then Some provider else None
  | None => None
  end.

Definition getRetentionImmutableDays (retention : option json) : option Q :=
  match as_number (retention ≫= field "immutableDays") with
  | Some v => if negb (Qle_bool v 0) then Some v else None
  | None => None
  end.

Definition row_retention (r : joined (option backupSettingsRow)) : option json :=
  parseBackupRetentionObject (bs_retention <$> j_item r).

Record immutability_row := { im_link : string; im_mode : ImmutabilityMode; im_days : Q }.
Definition immutability_of (r : joined (option backupSettingsRow)) : option immutability_row :=
  mode ← getRetentionImmutabilityMode (row_retention r);
  days ← getRetentionImmutableDays (row_retention r);
  Some {| im_link := fl_id (j_link r); im_mode := mode; im_days := days |}.

Definition max_days (rows : list immutability_row) : option Q :=
  fold_left (λ current row, match current with
                            | None => Some (im_days row)
                            | Some c => Some (if Qle_bool c (im_days row) then im_days row else c)
                            end) rows None.

Definition resolveBackupProtectionForDevice (db : ConfigDb) (deviceId : string)
    : option ResolvedBackupProtection :=
  h ← loadDeviceHierarchy db deviceId;
  let sorted := sortByHierarchy (feature_query ["backup"]%string (backup_rows db) (λ _, 0) db h) in
  match sorted with
  | [] => None
  | _ =>
      let legalHoldRows := filter (λ r, is_bool true (row_retention r ≫= field "legalHold")) sorted in
      let immutabilityRows := omap immutability_of sorted in
      let maxImmutableDays := max_days immutabilityRows in
      let maxDurationRows :=
        match maxImmutableDays with
        | None => []
        | Some m => filter (λ r, Qeq_bool (im_days r) m) immutabilityRows
        end in
      Some {| legalHold := negb (Nat.eqb (length legalHoldRows) 0);
              legalHoldReason := head (omap (λ r, getRetentionLegalHoldReason (row_retention r)) legalHoldRows);
              immutabilityMode :=
                if existsb (λ r, bool_decide (im_mode r = provider)) maxDurationRows then Some provider
                else if existsb (λ r, bool_decide (im_mode r = application)) maxDurationRows
                then Some application else None;
              immutableDays := maxImmutableDays;
              sourceFeatureLinkIds :=
                fold_left add_id (((λ r, fl_id (j_link r)) <$> legalHoldRows) ++ (im_link <$> maxDurationRows)) [] |}
  end.

(** ** Maintenance windows *)

Record MaintenanceWindowStatus := {
  active : bool; suppressAlerts : bool; suppressPatching : bool; suppressAutomations : bool;
  suppressScripts : bool }.

Definition inactive : MaintenanceWindowStatus :=
  {| active := false; suppressAlerts := false; suppressPatching := false;
     suppressAutomations := false; suppressScripts := false |}.

Definition msPerDay : Z := 24 * 60 * 60 * 1000.

Section windows.
(** [wall tz t] is the wall clock of the zone at an instant, in milliseconds to the
    second, [None] when the zone is unknown; [parse] is [new Date] on a stored text.  The
    server's own zone is UTC, so that wall clocks are read back as they are written. *)
Context (wall : string → Z → option Z) (parse : string → option Z).

(** Midnight of the day of a wall clock, of its last Sunday, of the first of its month. *)
Definition midnight (t : Z) : Z := t / msPerDay * msPerDay.
Definition last_sunday (t : Z) : Z :=
  let day := t / msPerDay in (day - (day + 4) mod 7) * msPerDay.
Definition first_of_month (t : Z) : Z :=
  let day := t / msPerDay in (day - (getUTCDate day - 1)) * msPerDay.

Definition isInMaintenanceWindow (s : maintenanceSettingsRow) (now : Z) : MaintenanceWindowStatus :=
  let tz := if bool_decide (ms_timezone s = ""%string) then UTC_TIMEZONE else ms_timezone s in
  let localNow := default now (wall tz now) in
  let durationMs := durationHours s * 60 * 60 * 1000 in
  let start :=
    (if bool_decide (recurrence s = "once") then
       match windowStart s with Some (String _ _ as w) => parse w | _ => None end
     else if bool_decide (recurrence s = "daily") then Some (midnight localNow)
     else if bool_decide (recurrence s = "weekly") then Some (last_sunday localNow)
     else if bool_decide (recurrence s = "monthly") then Some (first_of_month localNow)
     else None)%string in
  match start with
  | None => inactive
  | Some w =>
      if (w <=? localNow) && (localNow <? w + durationMs) then
        {| active := true; suppressAlerts := ms_suppressAlerts s;
           suppressPatching := ms_suppressPatching s; suppressAutomations := ms_suppressAutomations s;
           suppressScripts := ms_suppressScripts s |}
      else inactive
  end.

Definition checkDeviceMaintenanceWindow (db : ConfigDb) (deviceId : string) (now : Z)
    : MaintenanceWindowStatus :=
  match resolveMaintenanceConfigForDevice db deviceId with
  | None => inactive
  | Some s => isInMaintenanceWindow s now
  end.
End windows.
