(* ===== verification/ConfigResolution.v ===== *)
(** * What the configuration resolvers guarantee

    The closest assignment wins, deterministically and in the stored order; the batch
    resolver of software policies agrees with the per-device one; the strictest backup
    protection applies; and where the backup scheduler and the per-device resolver part. *)

From S2P Require Import Prelude JsNum Calendar Json ConfigPolicy.
From Stdlib Require Import Sorted.

Open Scope Z_scope.

(** ** Stable sorting *)

Class PreorderCmp {A} (cmp : A → A → Z) : Prop := {
  cmp_total a b : cmp a b <= 0 ∨ cmp b a <= 0;
  cmp_trans a b c : cmp a b <= 0 → cmp b c <= 0 → cmp a c <= 0 }.

Section sort_facts.
Context {A : Type} (cmp : A → A → Z) `{!PreorderCmp cmp}.

Lemma insert_by_perm x l : insert_by cmp x l ≡ₚ x :: l.
Proof.
  induction l as [|y l IH]; simpl; [done|]. case_match; [done|]. rewrite IH. by apply Permutation_swap.
Qed.
Lemma sort_by_perm l : sort_by cmp l ≡ₚ l.
Proof. induction l as [|x l IH]; simpl; [done|]. by rewrite insert_by_perm, IH. Qed.

Lemma elem_of_sort_by x l : x ∈ sort_by cmp l ↔ x ∈ l.
Proof. by rewrite sort_by_perm. Qed.

Lemma insert_by_sorted x l :
  StronglySorted (λ a b, cmp a b <= 0) l → StronglySorted (λ a b, cmp a b <= 0) (insert_by cmp x l).
Proof using PreorderCmp0.
  induction 1 as [|y l Hl IH Hy]; simpl; [by repeat constructor|].
  destruct (Z.leb_spec (cmp x y) 0) as [Hxy|Hxy].
  - constructor; [by constructor|]. constructor; [done|].
    eapply Forall_impl; [exact Hy|]. intros z Hz. simpl in Hz. by eapply cmp_trans.
  - constructor; [done|]. rewrite insert_by_perm. constructor; [|done].
    destruct (cmp_total x y); [lia|done].
Qed.
Lemma sort_by_sorted l : StronglySorted (λ a b, cmp a b <= 0) (sort_by cmp l).
Proof using PreorderCmp0. induction l; simpl; [constructor | by apply insert_by_sorted]. Qed.

(** The first element is least. *)
Lemma sort_by_head w l : head (sort_by cmp l) = Some w → w ∈ l ∧ ∀ x, x ∈ l → cmp w x <= 0.
Proof using PreorderCmp0.
  intros Hw. pose proof (sort_by_sorted l) as Hs. destruct (sort_by cmp l) as [|w' s] eqn:E; [done|].
  simplify_eq/=. assert (∀ x, x ∈ l ↔ x ∈ w :: s) as Hin by (intros x; by rewrite <- elem_of_sort_by, E).
  apply StronglySorted_inv in Hs as [_ Hall]. rewrite Forall_forall in Hall. split; [apply Hin; left|].
  intros x [->|Hx]%Hin%elem_of_cons; [by destruct (cmp_total w w) | by apply Hall].
Qed.

Lemma sort_by_nil l : sort_by cmp l = [] ↔ l = [].
Proof.
  split; [|by intros ->]. intros H. pose proof (sort_by_perm l) as Hp. rewrite H in Hp.
  by apply Permutation_nil in Hp.
Qed.

(** Elements the order does not separate keep their relative order. *)
Lemma sort_by_stable (P : A → Prop) `{!∀ x, Decision (P x)} l :
  (∀ x y, x ∈ l → y ∈ l → P x → P y → cmp x y <= 0) → filter P (sort_by cmp l) = filter P l.
Proof.
  induction l as [|x l IH]; intros HP; [done|]. simpl.
  rewrite (filter_cons P x l). rewrite <- IH by (intros; apply HP; (done || by right)). clear IH. set (s := sort_by cmp l).
  assert (∀ y, y ∈ s → P x → P y → cmp x y <= 0) as Hs.
  { intros y Hy ? ?. apply HP; [left | right; by apply elem_of_sort_by | done..]. }
  clearbody s. clear HP. induction s as [|y s IH]; simpl.
  - rewrite filter_cons, filter_nil. done.
  - destruct (Z.leb_spec (cmp x y) 0) as [Hxy|Hxy]; [by rewrite filter_cons|].
    rewrite !filter_cons, IH by (intros; apply Hs; (done || by right)).
    case_decide as Hx; [|done]. case_decide as Hy; [|done]. specialize (Hs y ltac:(left) Hx Hy). lia.
Qed.
End sort_facts.

Ltac cmp_cases := repeat match goal with |- context [?a =? ?b] => destruct (Z.eqb_spec a b); simpl | H : context [?a =? ?b] |- _ => destruct (Z.eqb_spec a b); simpl in H end.

#[export] Instance hierarchy_preorder {A} : PreorderCmp (@hierarchy_cmp A).
Proof.
  split; unfold hierarchy_cmp; intros; cmp_cases; lia.
Qed.
#[export] Instance query_preorder {A} (f : A → Z) : PreorderCmp (query_cmp f).
Proof.
  split; unfold query_cmp; intros; cmp_cases; lia.
Qed.

(** ** The rows in force *)

Definition owned_by (h : DeviceHierarchy) (p : policyRow) : Prop :=
  cp_orgId p = Some (h_orgId h) ∨
  (cp_orgId p = None ∧ ∃ pid, pid ≠ ""%string ∧ h_partnerId h = Some pid ∧ cp_partnerId p = Some pid).

Definition targets_device (h : DeviceHierarchy) (a : assignmentRow) : Prop :=
  match as_level a with
  | device => as_targetId a = h_deviceId h
  | device_group => as_targetId a ∈ h_groupIds h
  | site => as_targetId a = h_siteId h
  | organization => as_targetId a = h_orgId h
  | partner => as_targetId a ≠ ""%string ∧ h_partnerId h = Some (as_targetId a)
  end.

Definition filter_admits (f : option (list string)) (v : string) : Prop :=
  match f with None => True | Some l => v ∈ l end.

Record in_force {A} (types : list string) (items : linkRow → list A) (db : ConfigDb) (h : DeviceHierarchy)
    (r : joined A) : Prop := {
  if_assignment : j_assignment r ∈ assignments db;
  if_policy : j_policy r ∈ policies db ∧ cp_id (j_policy r) = as_configPolicyId (j_assignment r);
  if_active : cp_status (j_policy r) = "active"%string;
  if_owner : owned_by h (j_policy r);
  if_target : targets_device h (j_assignment r);
  if_role : filter_admits (as_roleFilter (j_assignment r)) (h_deviceRole h);
  if_os : filter_admits (as_osFilter (j_assignment r)) (h_osType h);
  if_link : j_link r ∈ links db ∧ fl_configPolicyId (j_link r) = cp_id (j_policy r) ∧
            fl_featureType (j_link r) ∈ types;
  if_item : j_item r ∈ items (j_link r) }.

(** Closer to the device, then by priority, then older. *)
Definition outranks (x y : assignmentRow) : Prop :=
  LEVEL_PRIORITY (as_level y) < LEVEL_PRIORITY (as_level x) ∨
  (as_level x = as_level y ∧
   (as_priority x < as_priority y ∨
    (as_priority x = as_priority y ∧ as_createdAt x <= as_createdAt y))).

Lemma owned_spec h p : policyOwnershipCondition h p = true ↔ owned_by h p.
Proof.
  unfold policyOwnershipCondition, owned_by. destruct (h_partnerId h) as [[|c s]|]; simpl;
    rewrite ?orb_true_iff, ?andb_true_iff, !bool_decide_eq_true.
  - split; [by left|]. by intros [?|(_ & pid & Hne & [= <-] & _)].
  - split.
    + intros [?|[? ?]]; [by left | right; split; [done|]; by exists (String c s)].
    + intros [?|(? & pid & _ & [= <-] & ?)]; [by left | by right].
  - split; [by left|]. by intros [?|(_ & pid & _ & ? & _)].
Qed.

Lemma targets_spec h a : targetConditions h a = true ↔ targets_device h a.
Proof.
  unfold targetConditions, targets_device. destruct (as_level a); rewrite ?bool_decide_eq_true; try done.
  rewrite andb_true_iff, bool_decide_eq_true. destruct (h_partnerId h) as [[|c s]|]; simpl.
  - split; [by intros []|]. intros [Hne He]. congruence.
  - split; [intros [_ He] | intros [_ He]]; (split; congruence).
  - split; [by intros [] | by intros []].
Qed.

Lemma filter_admits_spec f v : filter_matches f v = true ↔ filter_admits f v.
Proof. unfold filter_matches, filter_admits. destruct f; [apply bool_decide_eq_true | done]. Qed.

Lemma applies_spec h a p :
  applies h a p = true ↔
  as_configPolicyId a = cp_id p ∧ cp_status p = "active"%string ∧ owned_by h p ∧ targets_device h a ∧
  filter_admits (as_roleFilter a) (h_deviceRole h) ∧ filter_admits (as_osFilter a) (h_osType h).
Proof.
  unfold applies, roleOsFilterConditions. rewrite !andb_true_iff, !bool_decide_eq_true, owned_spec,
    targets_spec, !filter_admits_spec. tauto.
Qed.

Lemma hierarchy_cmp_outranks {A} (x y : joined A) :
  hierarchy_cmp x y <= 0 ↔ outranks (j_assignment x) (j_assignment y).
Proof.
  unfold hierarchy_cmp, outranks.
  assert (∀ l l', LEVEL_PRIORITY l = LEVEL_PRIORITY l' ↔ l = l') as Hl by (by intros [] []).
  rewrite <- Hl. cmp_cases; lia.
Qed.

Section feature_query_facts.
Context {A : Type} (types : list string) (items : linkRow → list A) (sortOrder : A → Z).

Lemma elem_of_feature_query db h r : r ∈ feature_query types items sortOrder db h ↔ in_force types items db h r.
Proof.
  unfold feature_query. rewrite elem_of_sort_by. setoid_rewrite list_elem_of_bind. split.
  - intros (a & (p & (l & Hi & Hl)%list_elem_of_bind & Hp)%list_elem_of_bind & Ha).
    apply list_elem_of_fmap in Hi as (i & -> & Hi).
    apply list_elem_of_filter in Hl as [[? ?] ?]. apply list_elem_of_filter in Hp as [Happ ?].
    apply Is_true_true, applies_spec in Happ as (? & ? & ? & ? & ? & ?). by split.
  - intros [Ha [Hp Hpa] Hact Hown Htgt Hrole Hos (Hl & Hlp & Hty) Hi].
    exists (j_assignment r). split; [|done]. apply list_elem_of_bind. exists (j_policy r). split.
    + apply list_elem_of_bind. exists (j_link r). split.
      * apply list_elem_of_fmap. exists (j_item r). split; [by destruct r | done].
      * by apply list_elem_of_filter.
    + apply list_elem_of_filter. split; [|done]. by apply Is_true_true, applies_spec.
Qed.

Lemma resolve_one_spec db deviceId w :
  resolve_one types items sortOrder db deviceId = Some w →
  ∃ h, loadDeviceHierarchy db deviceId = Some h ∧ in_force types items db h w ∧
    ∀ r, in_force types items db h r → outranks (j_assignment w) (j_assignment r).
Proof.
  unfold resolve_one. destruct (loadDeviceHierarchy db deviceId) as [h|]; [|done]. simpl.
  intros [Hw Hmin]%(sort_by_head hierarchy_cmp). exists h. split; [done|].
  split; [by apply elem_of_feature_query in Hw|]. intros r Hr. apply hierarchy_cmp_outranks, Hmin.
  by apply elem_of_feature_query.
Qed.

Lemma resolve_one_none db deviceId h :
  resolve_one types items sortOrder db deviceId = None → loadDeviceHierarchy db deviceId = Some h →
  ∀ r, ¬ in_force types items db h r.
Proof.
  unfold resolve_one. intros Hn Hh r Hr. rewrite Hh in Hn. simpl in Hn.
  apply (elem_of_feature_query db h r) in Hr. unfold sortByHierarchy in Hn.
  destruct (sort_by _ _) as [|? ?] eqn:E; [|done]. apply sort_by_nil in E. rewrite E in Hr.
  by apply elem_of_nil in Hr.
Qed.

(** Rows of one assignment come in the stored order. *)
Lemma query_order db h (a : assignmentRow) :
  StronglySorted (λ i j, sortOrder i <= sortOrder j)
    (j_item <$> filter (λ r, j_assignment r = a) (feature_query types items sortOrder db h)).
Proof.
  unfold feature_query. set (rows := mbind _ _).
  pose proof (sort_by_sorted (query_cmp sortOrder) rows) as Hs.
  induction Hs as [|r l Hs IH Hall]; [constructor|]. rewrite filter_cons. case_decide as Hr; [|done].
  simpl. constructor; [done|]. apply Forall_forall. intros i Hi.
  apply list_elem_of_fmap in Hi as (r' & -> & [Hr' Hin]%list_elem_of_filter).
  rewrite Forall_forall in Hall. specialize (Hall r' Hin). unfold query_cmp in Hall. rewrite Hr, Hr' in Hall.
  rewrite !Z.sub_diag in Hall. simpl in Hall. lia.
Qed.
End feature_query_facts.

(** Primary keys. *)
Definition assignment_ids_unique (db : ConfigDb) : Prop :=
  ∀ a b, a ∈ assignments db → b ∈ assignments db → as_id a = as_id b → a = b.

(** C20 (the resolvers of featureConfigResolver.ts that return all items of a feature): the
    items returned are those of one assignment, in their stored order; that assignment is
    active, owned by the device's organisation or partner, targets the device, passes the
    role and OS filters, and outranks every other such assignment of the feature: it is
    closer to the device, or at the same level of lower priority number, or older. With
    no such assignment nothing is returned. *)
Theorem closest_assignment_wins {A} types (items : linkRow → list A) sortOrder db deviceId :
  assignment_ids_unique db →
  let result := resolve_all types items sortOrder db deviceId in
  let applicable r := ∃ h, loadDeviceHierarchy db deviceId = Some h ∧ in_force types items db h r in
  (result = [] ∧ ∀ r, ¬ applicable r) ∨
  ∃ w, applicable w ∧ (∀ r, applicable r → outranks (j_assignment w) (j_assignment r)) ∧
    (∀ i, i ∈ result ↔ ∃ r, applicable r ∧ j_assignment r = j_assignment w ∧ j_item r = i) ∧
    StronglySorted (λ i j, sortOrder i <= sortOrder j) result.
Proof.
  intros Hpk result applicable. unfold result, resolve_all.
  destruct (loadDeviceHierarchy db deviceId) as [h|] eqn:Eh.
  2: { left. split; [done|]. intros r (h & ? & _). congruence. }
  set (q := feature_query types items sortOrder db h).
  assert (∀ r, applicable r ↔ r ∈ q) as Happ.
  { intros r. unfold applicable, q. rewrite elem_of_feature_query. naive_solver. }
  destruct (sortByHierarchy q) as [|w s] eqn:Es.
  { left. split; [done|]. intros r Hr%Happ. apply sort_by_nil in Es. rewrite Es in Hr.
    by apply elem_of_nil in Hr. }
  right. exists w. assert (head (sort_by hierarchy_cmp q) = Some w) as Hw by (by unfold sortByHierarchy in Es; rewrite Es).
  apply (sort_by_head hierarchy_cmp) in Hw as [Hw Hmin]. rewrite <- Es.
  assert (∀ r, r ∈ q → as_id (j_assignment r) = as_id (j_assignment w) ↔ j_assignment r = j_assignment w) as Hid.
  { intros r [Hr _]%elem_of_feature_query. apply elem_of_feature_query in Hw as Hw'. destruct Hw' as [Hw' _].
    split; [by apply Hpk | by intros ->]. }
  assert (filter (λ r, as_id (j_assignment r) = as_id (j_assignment w)) (sortByHierarchy q)
          = filter (λ r, j_assignment r = j_assignment w) q) as ->.
  { unfold sortByHierarchy. rewrite (sort_by_stable hierarchy_cmp).
    - apply filter_ext_in, Hid.
    - intros x y Hx Hy Px Py. apply hierarchy_cmp_outranks. apply Hid in Px as ->; [|done].
      apply Hid in Py as ->; [|done]. unfold outranks. right. split; [done|]. right. split; [done|lia]. }
  split_and!; [by apply Happ | | | apply query_order].
  - intros r Hr%Happ. by apply hierarchy_cmp_outranks, Hmin.
  - intros i. rewrite list_elem_of_fmap. setoid_rewrite list_elem_of_filter. setoid_rewrite Happ. naive_solver.
Qed.

(** ** The batch resolver of software policies *)

Lemma elem_of_add_id_fold x l s : x ∈ fold_left add_id l s ↔ x ∈ s ∨ x ∈ l.
Proof.
  revert s. induction l as [|y l IH]; intros s; simpl; [set_solver|]. rewrite IH. unfold add_id.
  case_bool_decide; set_solver.
Qed.
Lemma add_id_fold_NoDup l s : NoDup s → NoDup (fold_left add_id l s).
Proof.
  revert s. induction l as [|y l IH]; intros s Hs; simpl; [done|]. apply IH. unfold add_id.
  case_bool_decide; [done|]. apply NoDup_app. split_and!; [done | set_solver | apply NoDup_singleton].
Qed.

Lemma elem_of_candidates (f : assignmentRow → list string) x l s :
  x ∈ fold_left (λ s a, fold_left add_id (f a) s) l s ↔ x ∈ s ∨ ∃ a, a ∈ l ∧ x ∈ f a.
Proof.
  revert s. induction l as [|a l IH]; intros s; simpl; [set_solver|].
  rewrite IH, elem_of_add_id_fold. set_solver.
Qed.
Lemma candidates_NoDup (f : assignmentRow → list string) l s :
  NoDup s → NoDup (fold_left (λ s a, fold_left add_id (f a) s) l s).
Proof. revert s. induction l as [|a l IH]; intros s Hs; simpl; [done|]. by apply IH, add_id_fold_NoDup. Qed.

(** An assignment that targets a device expands to it. *)
Lemma target_expands db deviceId h a :
  loadDeviceHierarchy db deviceId = Some h → targets_device h a →
  deviceId ∈ resolveDevicesForAssignmentTarget db (as_level a) (as_targetId a).
Proof.
  unfold loadDeviceHierarchy. intros (d & Hd & Hh)%bind_Some. simplify_eq/=.
  apply head_filter_Some in Hd as [<- Hd].
  unfold targets_device, resolveDevicesForAssignmentTarget. destruct (as_level a); simpl.
  - intros [_ Ho]. apply bind_Some in Ho as (o & [Ho ?]%head_filter_Some & Hp).
    apply list_elem_of_fmap. exists d. split; [done|]. apply list_elem_of_filter. split; [|done].
    apply list_elem_of_fmap. exists o. split; [done|]. by apply list_elem_of_filter.
  - intros ->. apply list_elem_of_fmap. exists d. split; [done|]. by apply list_elem_of_filter.
  - intros ->. apply list_elem_of_fmap. exists d. split; [done|]. by apply list_elem_of_filter.
  - intros (m & -> & [? ?]%list_elem_of_filter)%list_elem_of_fmap.
    apply list_elem_of_fmap. exists m. split; [done|]. by apply list_elem_of_filter.
  - intros ->. by apply list_elem_of_singleton.
Qed.

(** (resolveDeviceIdsForSoftwarePolicy against resolveSoftwarePolicyForDevice): the
    batch resolver that the compliance worker uses lists, each once, exactly the devices
    whose own closest assignment leads to the software policy; no device is missed by the
    expansion of the assignments. *)
Theorem softwarePolicy_devices db softwarePolicyId :
  NoDup (resolveDeviceIdsForSoftwarePolicy db softwarePolicyId) ∧
  ∀ deviceId, deviceId ∈ resolveDeviceIdsForSoftwarePolicy db softwarePolicyId ↔
    resolveSoftwarePolicyForDevice db deviceId = Some softwarePolicyId.
Proof.
  unfold resolveDeviceIdsForSoftwarePolicy. split.
  { apply NoDup_filter, (candidates_NoDup (λ a, resolveDevicesForAssignmentTarget db (as_level a) (as_targetId a))).
    constructor. }
  intros deviceId. rewrite list_elem_of_filter. split; [by intros [? _]|]. intros Hr. split; [done|].
  unfold resolveSoftwarePolicyForDevice in Hr. apply bind_Some in Hr as (w & Hw & Hid).
  apply resolve_one_spec in Hw as (h & Hh & Hw & _).
  rewrite (elem_of_candidates (λ a, resolveDevicesForAssignmentTarget db (as_level a) (as_targetId a))).
  right. destruct Hw as [Ha [Hp Hpa] Hact _ Htgt _ _ (Hl & Hlp & Hty) _].
  exists (j_assignment w). split; [|by eapply target_expands]. apply list_elem_of_filter. split; [|done].
  apply list_elem_of_bind. exists (j_link w). split.
  - apply list_elem_of_bind. exists (j_policy w). split; [by rewrite <- Hpa, <- Hlp; left|].
    apply list_elem_of_filter. split; [split; [congruence|done]|done].
  - apply list_elem_of_filter. apply list_elem_of_singleton in Hty. done.
Qed.

(** ** Backup protection *)

Lemma max_days_acc rows acc :
  match fold_left (λ current row, match current with
                  | None => Some (im_days row)
                  | Some c => Some (if Qle_bool c (im_days row) then im_days row else c)
                  end) rows acc with
  | None => acc = None ∧ rows = []
  | Some m => (acc = Some m ∨ ∃ r, r ∈ rows ∧ im_days r = m) ∧
              (∀ c, acc = Some c → (c <= m)%Q) ∧ (∀ r, r ∈ rows → (im_days r <= m)%Q)
  end.
Proof.
  revert acc. induction rows as [|r rows IH]; intros acc; simpl.
  { destruct acc as [c|]; [|done]. split_and!; [by left | intros ? [= <-]; apply Qle_refl | set_solver]. }
  set (acc' := match acc with None => _ | Some c => _ end). specialize (IH acc').
  assert (∃ m', acc' = Some m' ∧ (im_days r <= m')%Q ∧ (∀ c, acc = Some c → (c <= m')%Q) ∧
          (acc = Some m' ∨ im_days r = m')) as (m' & Hm' & Hr & Hc & Hor).
  { unfold acc'. destruct acc as [c|]; [|eexists; split_and!; [done | apply Qle_refl | done | by right]].
    destruct (Qle_bool c (im_days r)) eqn:E; eexists; (split; [done|]).
    - apply Qle_bool_iff in E. split_and!; [apply Qle_refl | intros ? [= <-]; done | by right].
    - split_and!; [|intros ? [= <-]; apply Qle_refl|by left].
      apply Qlt_le_weak, Qnot_le_lt. intros Hle%Qle_bool_iff. congruence. }
  destruct (fold_left _ rows acc') as [m|]; [|naive_solver congruence].
  destruct IH as (Hex & Hacc & Hall). specialize (Hacc m' Hm'). split_and!.
  - destruct Hex as [He|(r' & ? & ?)]; [|right; exists r'; set_solver].
    rewrite Hm' in He. injection He as ->. destruct Hor as [?|?]; [by left | right; exists r; set_solver].
  - intros c Hac. eapply Qle_trans; [by apply Hc | done].
  - intros r' [->|Hr']%elem_of_cons; [by eapply Qle_trans | by apply Hall].
Qed.

Lemma max_days_spec rows :
  match max_days rows with
  | None => rows = []
  | Some m => (∃ r, r ∈ rows ∧ im_days r = m) ∧ ∀ r, r ∈ rows → (im_days r <= m)%Q
  end.
Proof.
  pose proof (max_days_acc rows None) as H. unfold max_days.
  destruct (fold_left _ _ _); [|by destruct H]. destruct H as ([?|?] & _ & ?); done.
Qed.

(** (resolveBackupProtectionForDevice): protection is not a matter of the closest
    assignment: a legal hold of any assignment in force holds; the immutability period is
    the longest one any of them demands, never shorter than one and always one of them;
    and provider-side immutability is chosen as soon as one of the longest demands it. *)
Theorem backup_protection_strictest db deviceId prot :
  resolveBackupProtectionForDevice db deviceId = Some prot →
  ∃ h, loadDeviceHierarchy db deviceId = Some h ∧
  let active r := in_force ["backup"]%string (backup_rows db) db h r in
  (legalHold prot = true ↔
   ∃ r, active r ∧ is_bool true (row_retention r ≫= field "legalHold") = true) ∧
  (∀ r i, active r → immutability_of r = Some i → ∃ m, immutableDays prot = Some m ∧ (im_days i <= m)%Q) ∧
  (∀ m, immutableDays prot = Some m → ∃ r i, active r ∧ immutability_of r = Some i ∧ im_days i = m) ∧
  (immutabilityMode prot = Some provider ↔
   ∃ r i m, active r ∧ immutability_of r = Some i ∧ immutableDays prot = Some m ∧
     (im_days i == m)%Q ∧ im_mode i = provider).
Proof.
  unfold resolveBackupProtectionForDevice. intros (h & Hh & Hp)%bind_Some. exists h. split; [done|].
  set (rows := sortByHierarchy _) in Hp.
  set (act := λ r, in_force ["backup"]%string (backup_rows db) db h r). cbv zeta beta.
  assert (∀ r, act r ↔ r ∈ rows) as Hact.
  { intros r. unfold act, rows, sortByHierarchy. by rewrite elem_of_sort_by, elem_of_feature_query. }
  clearbody rows. destruct rows as [|r0 rows0]; [done|]. remember (r0 :: rows0) as rows.
  injection Hp as <-. simpl. pose proof (max_days_spec (omap immutability_of rows)) as Hm.
  split_and!.
  - rewrite negb_true_iff, Nat.eqb_neq. setoid_rewrite Hact. split.
    + intros Hne. destruct (filter _ rows) as [|r l] eqn:E; [done|].
      assert (r ∈ filter (λ r, is_bool true (row_retention r ≫= field "legalHold")) rows)
        as [?%Is_true_true ?]%list_elem_of_filter by (rewrite E; left). eauto.
    + intros (r & Hr & Hb) Hz. apply length_zero_iff_nil in Hz.
      assert (r ∈ filter (λ r, is_bool true (row_retention r ≫= field "legalHold")) rows) as Hin
        by (apply list_elem_of_filter; by rewrite Hb). rewrite Hz in Hin. by apply elem_of_nil in Hin.
  - intros r i Hr%Hact Hi. assert (i ∈ omap immutability_of rows) as Hin by (apply list_elem_of_omap; eauto).
    destruct (max_days _) as [m|]; [|rewrite Hm in Hin; by apply elem_of_nil in Hin].
    exists m. split; [done|]. by apply Hm.
  - intros m Hmd. rewrite Hmd in Hm. destruct Hm as [(i & (r & Hr & Hi)%list_elem_of_omap & Hd) _].
    exists r, i. by rewrite Hact.
  - set (longest := match max_days _ with None => [] | Some _ => _ end).
    assert (∀ i, i ∈ longest ↔ ∃ r m, act r ∧ immutability_of r = Some i ∧
              max_days (omap immutability_of rows) = Some m ∧ (im_days i == m)%Q) as Hl.
    { intros i. unfold longest. setoid_rewrite Hact. destruct (max_days _) as [m|].
      - rewrite list_elem_of_filter, Is_true_true, Qeq_bool_iff, list_elem_of_omap. naive_solver.
      - split; [by intros ?%elem_of_nil | naive_solver]. }
    destruct (existsb (λ r, bool_decide (im_mode r = provider)) longest) eqn:E.
    + split; [intros _|done]. apply existsb_exists in E as (i & Hi%list_elem_of_In & Hp). bool_prop.
      apply Hl in Hi as (r & m & ? & ? & ? & ?). by exists r, i, m.
    + split; [by destruct (existsb (λ r, bool_decide (im_mode r = application)) longest)|].
      intros (r & i & m & ? & ? & ? & ? & Hp). exfalso.
      assert (i ∈ longest) as Hi%list_elem_of_In by (apply Hl; by exists r, m).
      rewrite (proj2 (existsb_exists (λ r, bool_decide (im_mode r = provider)) longest)) in E; [done|].
      exists i. split; [done|]. by rewrite bool_decide_true.
Qed.

(** ** The backup scheduler *)

Lemma see_device_elem r l seen e :
  e ∈ fold_left (see_device r) l seen → e ∈ seen ∨ ba_featureLinkId e = fl_id (j_link r).
Proof.
  revert seen. induction l as [|d l IH]; intros seen; simpl; [by left|]. intros [He|He]%IH; [|by right].
  unfold see_device in He. case_bool_decide; [by left|].
  apply elem_of_app in He as [?| ->%list_elem_of_singleton]; [by left | by right].
Qed.

Lemma seen_links db orgId (rows : list (joined (option backupSettingsRow))) seen e :
  e ∈ fold_left (λ seen r, fold_left (see_device r) (backup_target_devices db orgId (j_assignment r)) seen)
        rows seen →
  e ∈ seen ∨ ∃ r, r ∈ rows ∧ ba_featureLinkId e = fl_id (j_link r).
Proof.
  revert seen. induction rows as [|r rows IH]; intros seen; simpl; [by left|].
  intros [[?|?]%see_device_elem|(r' & ? & ?)]%IH; [by left | right; exists r; set_solver|].
  right. exists r'. set_solver.
Qed.

(** Every scheduled device is there through a policy the organisation itself owns. *)
Lemma scheduled_policy_owned zone db orgId e :
  e ∈ resolveAllBackupAssignedDevices zone db orgId →
  ∃ l p, l ∈ links db ∧ p ∈ policies db ∧ ba_featureLinkId e = fl_id l ∧
    fl_configPolicyId l = cp_id p ∧ cp_orgId p = Some orgId.
Proof.
  unfold resolveAllBackupAssignedDevices. intros (e' & -> & He)%list_elem_of_fmap. simpl.
  apply seen_links in He as [?%elem_of_nil|(r & Hr & Hl)]; [done|]. rewrite Hl.
  unfold sortByHierarchy in Hr. rewrite elem_of_sort_by in Hr.
  apply list_elem_of_bind in Hr as (l & Hr & [_ Hlinks]%list_elem_of_filter).
  apply list_elem_of_bind in Hr as (p & Hr & [(? & ? & ?) ?]%list_elem_of_filter).
  apply list_elem_of_bind in Hr as (a & (i & -> & _)%list_elem_of_fmap & _).
  exists l, p. done.
Qed.

Record config_keys_unique (db : ConfigDb) : Prop := {
  link_ids l m : l ∈ links db → m ∈ links db → fl_id l = fl_id m → l = m;
  policy_ids p q : p ∈ policies db → q ∈ policies db → cp_id p = cp_id q → p = q }.

(** (resolveAllBackupAssignedDevices against resolveBackupConfigForDevice): a device
    whose backup settings come from a partner-wide policy is never scheduled with them:
    the per-device resolver finds the policy, but the list the scheduler, the SLA worker
    and the dashboards read only considers policies owned by the organisation. *)
Theorem partner_backup_never_scheduled zone db deviceId w :
  config_keys_unique db →
  resolve_one ["backup"]%string (backup_rows db) (λ _, 0) db deviceId = Some w →
  cp_orgId (j_policy w) = None →
  ∃ c, resolveBackupConfigForDevice zone db deviceId = Some c ∧ rb_featureLinkId c = fl_id (j_link w) ∧
    ∀ orgId e, e ∈ resolveAllBackupAssignedDevices zone db orgId → ba_featureLinkId e ≠ rb_featureLinkId c.
Proof.
  intros [Hl Hpu] Hw Hnone. unfold resolveBackupConfigForDevice. rewrite Hw. simpl. eexists. split; [done|].
  split; [done|]. simpl. intros orgId e (l & q & Hl' & Hq & Hid & Hlq & Hown)%scheduled_policy_owned Heq.
  apply resolve_one_spec in Hw as (h & _ & [_ [Hp _] _ _ _ _ _ (Hlw & Hlp & _) _] & _).
  assert (l = j_link w) as -> by (apply Hl; congruence).
  assert (q = j_policy w) as -> by (apply Hpu; congruence). congruence.
Qed.

(** A partner-wide backup policy assigned to the partner, a device of one of its customers. *)
Module Example1.
Open Scope string_scope.
Definition db : ConfigDb :=
  {| devices := [{| dev_id := "pc"; dev_orgId := "org"; dev_siteId := "hq"; dev_hostname := "pc";
                    dev_role := "workstation"; dev_osType := "windows"; dev_osVersion := "10";
                    dev_displayName := None; dev_status := "online"; dev_lastSeenAt := None;
                    dev_mtlsCertExpiresAt := None; dev_tags := [] |}];
     organizations := [{| org_id := "org"; org_partnerId := Some "msp"; org_settings := None |}];
     partners := [{| pt_id := "msp"; pt_timezone := "America/Denver"; pt_settings := None |}];
     sites := [{| site_id := "hq"; site_timezone := "UTC" |}]; memberships := [];
     assignments := [{| as_id := "a"; as_configPolicyId := "p"; as_level := partner; as_targetId := "msp";
                        as_priority := 0; as_roleFilter := None; as_osFilter := None; as_createdAt := 1 |};
                     {| as_id := "b"; as_configPolicyId := "q"; as_level := organization;
                        as_targetId := "org"; as_priority := 0; as_roleFilter := Some ["server"];
                        as_osFilter := None; as_createdAt := 2 |}];
     policies := [{| cp_id := "p"; cp_orgId := None; cp_partnerId := Some "msp"; cp_name := "All customers";
                     cp_status := "active" |};
                  {| cp_id := "q"; cp_orgId := Some "org"; cp_partnerId := None; cp_name := "Servers";
                     cp_status := "active" |}];
     links := [{| fl_id := "l"; fl_configPolicyId := "p"; fl_featureType := "backup";
                  fl_featurePolicyId := None; fl_inlineSettings := None |};
               {| fl_id := "m"; fl_configPolicyId := "q"; fl_featureType := "backup";
                  fl_featurePolicyId := None; fl_inlineSettings := None |}];
     alertRules := []; automations := []; complianceRules := []; patchSettings := [];
     backupSettings := [{| bs_featureLinkId := "l"; bs_schedule := JNull;
                           bs_retention := JObj [("legalHold", JBool true); ("immutableDays", JNum 30);
                                                 ("immutabilityMode", JStr "provider")];
                           bs_paths := JNull; bs_backupMode := "file"; bs_targets := JNull |}];
     maintenanceSettings := [] |}.
End Example1.

(** The device's settings are the partner's; the scheduler instead backs the workstation
    up with the policy for servers, whose role filter excludes it. *)
Example backup_divergence :
  (rb_featureLinkId <$> resolveBackupConfigForDevice (λ _, true) Example1.db "pc") = Some "l"%string ∧
  (λ e, (ba_deviceId e, ba_featureLinkId e)) <$> resolveAllBackupAssignedDevices (λ _, true) Example1.db "org"
    = [("pc", "m")]%string.
Proof. vm_compute. split; reflexivity. Qed.

Lemma example_keys_unique : config_keys_unique Example1.db.
Proof.
  split; intros x y Hx Hy; simpl in Hx, Hy; rewrite !elem_of_cons, elem_of_nil in Hx, Hy;
    destruct Hx as [->|[->|[]]], Hy as [->|[->|[]]]; done.
Qed.

Lemma partner_backup_never_scheduled_witness :
  ∃ c, resolveBackupConfigForDevice (λ _, true) Example1.db "pc" = Some c ∧
    rb_featureLinkId c = "l"%string ∧
    ∀ orgId e, e ∈ resolveAllBackupAssignedDevices (λ _, true) Example1.db orgId →
      ba_featureLinkId e ≠ rb_featureLinkId c.
Proof.
  assert (∃ w, resolve_one ["backup"]%string (backup_rows Example1.db) (λ _, 0) Example1.db "pc" = Some w ∧
    cp_orgId (j_policy w) = None ∧ fl_id (j_link w) = "l"%string) as (w & Hw & Ho & Hl)
    by (eexists; by vm_compute).
  destruct (partner_backup_never_scheduled (λ _, true) Example1.db "pc" w example_keys_unique Hw Ho)
    as (c & ? & Hc & ?). exists c. rewrite <- Hl. done.
Defined.

Lemma backup_protection_strictest_witness :
  ∃ prot h, resolveBackupProtectionForDevice Example1.db "pc" = Some prot ∧
    loadDeviceHierarchy Example1.db "pc" = Some h ∧ legalHold prot = true ∧
    ∃ r, in_force ["backup"]%string (backup_rows Example1.db) Example1.db h r ∧
         is_bool true (row_retention r ≫= field "legalHold") = true.
Proof.
  assert (∃ prot, resolveBackupProtectionForDevice Example1.db "pc" = Some prot ∧ legalHold prot = true)
    as (prot & Hp & Hl) by (eexists; by vm_compute).
  destruct (backup_protection_strictest Example1.db "pc" prot Hp) as (h & Hh & Hhold & _).
  exists prot, h. split; [done|]. split; [done|]. split; [done|]. by apply Hhold.
Defined.

(** ** Time zones *)

(** (resolveDeviceTimezone): the zone of the device's site decides whenever the site
    has a valid one. The column is NOT NULL with the default UTC and every device has a
    site, so the organisation's and the partner's zone, documented as the base default
    for devices without a zone of their own, are not consulted. *)
Theorem site_timezone_shadows zone db deviceId d s :
  find_device db deviceId = Some d → is_Some (find_org db (dev_orgId d)) →
  head (filter (λ s, site_id s = dev_siteId d) (sites db)) = Some s →
  zone (site_timezone s) = true → site_timezone s ≠ ""%string →
  resolveDeviceTimezone zone db deviceId = site_timezone s.
Proof.
  intros Hd [o Ho] Hs Hz Hne. unfold resolveDeviceTimezone. rewrite Hd. simpl. rewrite Ho. simpl.
  rewrite Hs. unfold resolveEffectiveTimezone. simpl. unfold isValidIanaTimezone.
  destruct (site_timezone s) as [|c z] eqn:E; [done|]. by rewrite Hz.
Qed.

Lemma site_timezone_shadows_witness :
  resolveDeviceTimezone (λ _, true) Example1.db "pc" = "UTC"%string.
Proof.
  apply (site_timezone_shadows (λ _, true) Example1.db "pc"
    {| dev_id := "pc"; dev_orgId := "org"; dev_siteId := "hq"; dev_hostname := "pc";
       dev_role := "workstation"; dev_osType := "windows"; dev_osVersion := "10"; dev_displayName := None; dev_status := "online"; dev_lastSeenAt := None;
       dev_mtlsCertExpiresAt := None; dev_tags := [] |}
    {| site_id := "hq"; site_timezone := "UTC" |}); done.
Defined.

(** ** Maintenance windows *)

Local Ltac Zify.zify_post_hook ::= Z.div_mod_to_equations.

Lemma msPerDay_val : msPerDay = 86400000.
Proof. done. Qed.

(** The starts are midnights, of a Sunday and of the first of a month, and the latest
    ones that are not in the future. *)
Lemma midnight_spec t : midnight t <= t < midnight t + msPerDay ∧ midnight t mod msPerDay = 0.
Proof. unfold midnight. rewrite Z.mod_mul by done. rewrite msPerDay_val. lia. Qed.

Lemma last_sunday_spec t :
  last_sunday t <= t < last_sunday t + 7 * msPerDay ∧
  last_sunday t mod msPerDay = 0 ∧ (last_sunday t / msPerDay + 4) mod 7 = 0.
Proof. unfold last_sunday. rewrite Z.mod_mul, Z.div_mul by done. rewrite msPerDay_val. lia. Qed.

(** The first of the month of a day. *)
Definition month_start (day : Z) : Z :=
  let c := date_of_day day in day_number {| dy := dy c; dm := dm c; dd := 1 |}.

Lemma first_of_month_spec t : first_of_month t = month_start (t / msPerDay) * msPerDay.
Proof.
  unfold first_of_month, month_start. destruct (date_of_day_spec (t / msPerDay)) as [Hv Hd].
  set (c := date_of_day _) in *. destruct (getUTC_day_number c Hv) as (_ & _ & Hdd). rewrite Hd in Hdd.
  rewrite Hdd. f_equal. rewrite <- Hd. unfold day_number, MakeDay. simpl. lia.
Qed.

(** When the window that matters at a wall clock opens. *)
Inductive opens (parse : string → option Z) (s : maintenanceSettingsRow) (clock m : Z) : Prop :=
| opens_once w : recurrence s = "once"%string → windowStart s = Some w → w ≠ ""%string →
    parse w = Some m → opens parse s clock m
| opens_daily : recurrence s = "daily"%string → m mod msPerDay = 0 →
    m <= clock < m + msPerDay → opens parse s clock m
| opens_weekly : recurrence s = "weekly"%string → m mod msPerDay = 0 → (m / msPerDay + 4) mod 7 = 0 →
    m <= clock < m + 7 * msPerDay → opens parse s clock m
| opens_monthly : recurrence s = "monthly"%string → m = month_start (clock / msPerDay) * msPerDay →
    opens parse s clock m.

(** (isInMaintenanceWindow): a window is active exactly while the wall clock of its
    zone lies within its duration after the opening: the stored instant, the day's
    midnight, the last Sunday's, or the first of the month's; its settings are then
    returned, and otherwise (unknown recurrences, missing or unreadable instants
    included) nothing is suppressed. An unknown zone falls back to UTC. *)
Theorem maintenance_window_spec wall parse s now :
  let tz := if bool_decide (ms_timezone s = ""%string) then UTC_TIMEZONE else ms_timezone s in
  let clock := default now (wall tz now) in
  let status := isInMaintenanceWindow wall parse s now in
  (active status = true ↔
   ∃ m, opens parse s clock m ∧ m <= clock < m + durationHours s * 3600000) ∧
  (active status = false → status = inactive) ∧
  (active status = true →
   suppressAlerts status = ms_suppressAlerts s ∧ suppressPatching status = ms_suppressPatching s ∧
   suppressAutomations status = ms_suppressAutomations s ∧ suppressScripts status = ms_suppressScripts s).
Proof.
  intros tz clock status. unfold status, isInMaintenanceWindow. fold tz clock.
  set (start := if bool_decide (recurrence s = "once"%string) then _ else _).
  assert (∀ m, start = Some m ↔ opens parse s clock m) as Hs.
  { intros m. unfold start. split.
    - repeat case_bool_decide; intros Heq; try done.
      + destruct (windowStart s) as [[|c w]|] eqn:Ew; try done. by apply opens_once with (String c w).
      + injection Heq as <-. apply opens_daily; [done|apply midnight_spec..].
      + injection Heq as <-. destruct (last_sunday_spec clock) as (? & ? & ?). by apply opens_weekly.
      + injection Heq as <-. apply opens_monthly; [done|apply first_of_month_spec].
    - intros [w Hr Hw Hne Hp|Hr Hm Hb|Hr Hm Hd Hb|Hr ->]; rewrite Hr; simpl.
      + rewrite Hw. by destruct w.
      + f_equal. unfold midnight. rewrite msPerDay_val in *. lia.
      + f_equal. unfold last_sunday. rewrite msPerDay_val in *. lia.
      + f_equal. apply first_of_month_spec. }
  replace (durationHours s * 60 * 60 * 1000) with (durationHours s * 3600000) by lia.
  destruct start as [w|].
  - destruct ((w <=? clock) && (clock <? w + durationHours s * 3600000)) eqn:E; simpl.
    + apply andb_true_iff in E as [E1 E2]. bool_prop. split_and!; try done. split; [intros _|done].
      exists w. split; [by apply Hs | done].
    + split_and!; try done. split; [done|]. intros (m & Ho & Hb). apply Hs in Ho as [= ->].
      apply andb_false_iff in E as [E|E]; bool_prop; lia.
  - simpl. split_and!; try done. split; [done|]. intros (m & Ho & _). by apply Hs in Ho.
Qed.

Lemma closest_assignment_wins_witness :
  assignment_ids_unique Example1.db ∧
  ∃ w, (∃ h, loadDeviceHierarchy Example1.db "pc" = Some h ∧
             in_force ["backup"]%string (λ l, [fl_id l]) Example1.db h w) ∧
    ∀ i, i ∈ resolve_all ["backup"]%string (λ l, [fl_id l]) (λ _, 0) Example1.db "pc" →
      ∃ r, j_assignment r = j_assignment w ∧ j_item r = i.
Proof.
  assert (assignment_ids_unique Example1.db) as Hu.
  { intros x y Hx Hy. simpl in Hx, Hy. rewrite !elem_of_cons, elem_of_nil in Hx, Hy.
    destruct Hx as [->|[->|[]]], Hy as [->|[->|[]]]; done. }
  split; [done|].
  destruct (closest_assignment_wins ["backup"]%string (λ l, [fl_id l]) (λ _, 0) Example1.db "pc" Hu)
    as [[He _]|(w & Hw & _ & Hi & _)]; [by vm_compute in He|].
  exists w. split; [done|]. intros i Hin. apply Hi in Hin as (r & _ & ? & ?). by exists r.
Defined.
