(* ===== verification/PolicyRules.v ===== *)
(** * Compliance rules of policies ([services/policyEvaluationService.ts], the rule
    evaluators)

    A policy holds an untyped JSON array of rules; each is evaluated against what the
    device reported.  The message of a result is a constructor of [RuleMessage], one for
    each text the source builds, with the values it interpolates and attaches as data. *)

From S2P Require Import Prelude JsNum Versions Json.

Open Scope Z_scope.

(** ** Data *)

Inductive EvaluationStatus := compliant | non_compliant | error.
#[export] Instance EvaluationStatus_eq_dec : EqDecision EvaluationStatus.
Proof. solve_decision. Defined.

Record TargetDevice := { td_id : string; td_hostname : string; td_osType : string; td_osVersion : string }.

Record TargetConfig := {
  targetType : option string; targetIds : option (list string); deviceIds : option (list string);
  siteIds : option (list string); groupIds : option (list string); tags : option (list string) }.

Record ParsedRule := { pr_type : string; pr_raw : json }.
Record ParsedRulesResult := {
  rules : list ParsedRule; inputHadArray : bool; inputLength : nat; invalidCount : nat }.

Record InstalledSoftwareRecord := { sw_name : string; sw_version : option string }.
Record DiskRecord := { mountPoint : string; dk_device : option string; freeGb : Q }.
Record RegistryStateRecord := {
  registryPath : string; valueName : string; valueData : option string; valueType : option string }.
Record ConfigStateRecord := { filePath : string; configKey : string; configValue : option string }.

Record DeviceEvaluationContext := {
  device : TargetDevice; software : list InstalledSoftwareRecord; disks : list DiskRecord;
  registryState : list RegistryStateRecord; configState : list ConfigStateRecord }.

Inductive VersionOperator := any | exactly | minimum | maximum.
#[export] Instance VersionOperator_eq_dec : EqDecision VersionOperator.
Proof. solve_decision. Defined.

Inductive RuleMessage :=
| MissingSoftwareName
| SoftwareNotInstalled (softwareName : string)
| OperatorNeedsVersion (op : VersionOperator) (softwareName : string)
| VersionsDoNotSatisfy (softwareName : string) (op : VersionOperator) (requiredVersion : option string)
    (installedVersions : list string)
| SoftwareInstalled (softwareName : string)
| MissingProhibitedName
| ProhibitedNotInstalled (softwareName : string)
| ProhibitedInstalled (softwareName : string) (installedVersions : list string)
| MissingMinGb
| NoDiskForPath (diskPath : string)
| NoDisks
| DisksBelow (minimumFreeGb : Q) (failing : list (string * Q))
| DisksMeet (minimumFreeGb : Q)
| OsTypeMismatch (current required : string)
| OsVersionBelow (current required : string)
| OsVersionSatisfied
| RegistryRuleIncomplete
| RegistryNotApplicable
| RegistryNotFound (path value : string)
| RegistryMismatch (path value expected actual : string) (valueType : option string)
| RegistryMatches (path value : string)
| ConfigRuleIncomplete
| ConfigKeyNotFound (path key : string)
| ConfigMismatch (path key expected actual : string)
| ConfigMatches (path key : string)
| UnsupportedRuleType (type : string)
| RulesNotAnArray
| NoRules
| InvalidRules (invalid total : nat)
| EvaluationError (name : string).

Record RuleEvaluationDetail := { ruleType : string; passed : bool; message : RuleMessage }.
Record DeviceRuleEvaluation := { ev_passed : bool; ev_details : list RuleEvaluationDetail }.

Definition detail (rule : ParsedRule) (ok : bool) (m : RuleMessage) : RuleEvaluationDetail :=
  {| ruleType := pr_type rule; passed := ok; message := m |}.

(** ** Reading the JSON *)

Definition sanitizeUuidList (value : option json) : list string :=
  match as_array value with
  | None => []
  | Some l => filter (λ s, s ≠ ""%string) (strings_of l)
  end.

Definition normalizeTargetConfig (targets : option json) : TargetConfig :=
  match targets with
  | Some (JObj _ as raw) | Some (JArr _ as raw) =>
      let ty := as_string (field "targetType" raw) in
      let ids := sanitizeUuidList (field "targetIds" raw) in
      let choose key kind :=
        match sanitizeUuidList (field key raw) with
        | [] => if bool_decide (ty = Some kind) then ids else []
        | l => l
        end in
      {| targetType := ty; targetIds := Some ids;
         deviceIds := Some (choose "deviceIds" "devices")%string;
         siteIds := Some (choose "siteIds" "sites")%string;
         groupIds := Some (choose "groupIds" "groups")%string;
         tags := Some (choose "tags" "tags")%string |}
  | _ => {| targetType := None; targetIds := None; deviceIds := None; siteIds := None;
            groupIds := None; tags := None |}
  end.

(** The type of one rule of the array; [None] counts as invalid. *)
Definition rule_type (rule : json) : option string :=
  match rule with
  | JObj _ =>
      match as_string (field "type" rule), as_string (field "name" rule) with
      | Some t, _ | None, Some t => if bool_decide (trim t = ""%string) then None else Some (trim t)
      | None, None => None
      end
  | _ => None
  end.

Definition parse_rule (acc : list ParsedRule * nat) (rule : json) : list ParsedRule * nat :=
  match rule_type rule with
  | Some t => (acc.1 ++ [{| pr_type := t; pr_raw := rule |}], acc.2)
  | None => (acc.1, S acc.2)
  end.

Definition parsePolicyRules (rs : option json) : ParsedRulesResult :=
  match as_array rs with
  | None => {| rules := []; inputHadArray := false; inputLength := 0; invalidCount := 0 |}
  | Some l =>
      let '(parsed, invalid) := fold_left parse_rule l ([], 0%nat) in
      {| rules := parsed; inputHadArray := true; inputLength := length l; invalidCount := invalid |}
  end.

Definition readString (value : option json) : option string :=
  match as_string value with
  | None => None
  | Some s => if bool_decide (trim s = ""%string) then None else Some (trim s)
  end.

(** [Number.parseFloat]: the longest decimal literal the text starts with, after blanks. *)
Definition exponent (l : list ascii) : Z :=
  match l with
  | c :: l' =>
      if bool_decide (c = "e" ∨ c = "E")%char then
        match l' with
        | s :: l'' =>
            if Ascii.eqb s "-" then - digits_val (digit_prefix l'')
            else if Ascii.eqb s "+" then digits_val (digit_prefix l'') else digits_val (digit_prefix l')
        | [] => 0
        end
      else 0
  | [] => 0
  end.

Definition parse_float_unsigned (l : list ascii) : option Q :=
  let int := digit_prefix l in
  let rest := drop (length int) l in
  let frac := match rest with c :: r => if Ascii.eqb c "." then digit_prefix r else [] | [] => [] end in
  let rest := match rest with
              | c :: r => if Ascii.eqb c "." then drop (length frac) r else rest
              | [] => [] end in
  if Nat.eqb (length int + length frac) 0 then None
  else Some (decimal_value int frac * Qpower 10 (exponent rest))%Q.

Definition parseFloat (s : string) : option Q :=
  let q := match drop_spaces (chars s) with
           | c :: l => if Ascii.eqb c "-" then Qopp <$> parse_float_unsigned l
                       else if Ascii.eqb c "+" then parse_float_unsigned l
                       else parse_float_unsigned (c :: l)
           | [] => None
           end in
  (** Numbers of magnitude at least [2^1024] are infinite. *)
  q ≫= λ q, if Qle_bool (inject_Z (2 ^ 1024)) (Qabs q) then None else Some (rnd q).

Definition readNumber (value : option json) : option Q :=
  match value with
  | Some (JNum q) => Some q
  | Some (JStr s) => parseFloat s
  | _ => None
  end.

(** [a ?? b]. *)
Definition coalesce (a b : option json) : option json :=
  match a with None | Some JNull => b | _ => a end.

(** ** Comparable texts *)

Definition normalizeComparable (value : string) : string := toLowerCase (trim value).

(** [replace(/run+/g, by)]: every maximal run of characters of a class becomes one. *)
Fixpoint collapse (cls : ascii → bool) (by_ : ascii) (in_run : bool) (l : list ascii) : list ascii :=
  match l with
  | [] => []
  | c :: l' =>
      if cls c then if in_run then collapse cls by_ true l' else by_ :: collapse cls by_ true l'
      else c :: collapse cls by_ false l'
  end.

Definition normalizeRegistryPath (path : string) : string :=
  toLowerCase (of_chars (collapse (λ c, Ascii.eqb c "\" || Ascii.eqb c "/") "\" false (chars (trim path)))).

Definition normalizeConfigPath (path : string) : string :=
  toLowerCase (of_chars (collapse (Ascii.eqb "/") "/" false (chars (trim path)))).

Definition softwareNameMatches (installedName expectedName : string) : bool :=
  let installed := normalizeComparable installedName in
  let expected := normalizeComparable expectedName in
  bool_decide (installed = expected) || includes expected installed || includes installed expected.

(** ** Versions *)

Definition is_alpha (c : ascii) : bool :=
  let n := nat_of_ascii c in
  ((65 <=? n) && (n <=? 90))%nat || ((97 <=? n) && (n <=? 122))%nat.
Definition is_alnum (c : ascii) : bool := is_digit c || is_alpha c.

(** [v.split(/[^0-9a-zA-Z]+/).filter((token) => token.length > 0)]. *)
Fixpoint alnum_tokens (word : list ascii) (l : list ascii) : list (list ascii) :=
  match l with
  | [] => match word with [] => [] | _ => [word] end
  | c :: l' =>
      if is_alnum c then alnum_tokens (word ++ [c]) l'
      else match word with [] => alnum_tokens [] l' | _ => word :: alnum_tokens [] l' end
  end.

(** [localeCompare] with [numeric] and base sensitivity, on letters and digits: a run of
    digits is one element, ordered by its value and before every letter; the case of
    letters does not count. *)
Definition flush (run : option Z) : list (Z * Z) := match run with Some n => [(0, n)] | None => [] end.
Fixpoint collation (run : option Z) (l : list ascii) : list (Z * Z) :=
  match l with
  | [] => flush run
  | c :: l' =>
      if is_digit c then collation (Some (10 * default 0 run + digit_val c)) l'
      else flush run ++ (1, Z.of_nat (nat_of_ascii (lower_ascii c))) :: collation None l'
  end.

Definition element_compare (a b : Z * Z) : comparison :=
  match Z.compare a.1 b.1 with Eq => Z.compare a.2 b.2 | c => c end.
Fixpoint elements_compare (a b : list (Z * Z)) : comparison :=
  match a, b with
  | [], [] => Eq
  | [], _ :: _ => Lt
  | _ :: _, [] => Gt
  | x :: a', y :: b' => match element_compare x y with Eq => elements_compare a' b' | c => c end
  end.
Definition localeCompare (left right : list ascii) : comparison :=
  elements_compare (collation None left) (collation None right).

(** The sign of [compareVersionTokens]. *)
Definition compareVersionTokens (left right : list ascii) : comparison :=
  if forallb is_digit left && forallb is_digit right
     && negb (Nat.eqb (length left) 0) && negb (Nat.eqb (length right) 0)
  then Qcompare (rnd (inject_Z (digits_val left))) (rnd (inject_Z (digits_val right)))
  else localeCompare left right.

Fixpoint compare_tokens (n : nat) (ls rs : list (list ascii)) : Z :=
  match n with
  | O => 0
  | S n =>
      match compareVersionTokens (default ["0"%char] (head ls)) (default ["0"%char] (head rs)) with
      | Gt => 1
      | Lt => -1
      | Eq => compare_tokens n (tail ls) (tail rs)
      end
  end.

Definition compareVersions (leftVersion rightVersion : string) : Z :=
  let leftTokens := alnum_tokens [] (chars leftVersion) in
  let rightTokens := alnum_tokens [] (chars rightVersion) in
  compare_tokens (Nat.max (length leftTokens) (length rightTokens)) leftTokens rightTokens.

Definition matchesVersionRequirement (installedVersion requiredVersion : option string)
    (operator : VersionOperator) : bool :=
  match operator with
  | any => true
  | _ =>
      if negb (truthy requiredVersion) || negb (truthy installedVersion) then false
      else
        let comparison := compareVersions (default ""%string installedVersion)
                            (default ""%string requiredVersion) in
        match operator with
        | exactly => comparison =? 0
        | minimum => 0 <=? comparison
        | maximum => comparison <=? 0
        | any => false
        end
  end.

(** ** The evaluators *)

Definition version_operator (operatorValue : option string) : VersionOperator :=
  (match operatorValue with
   | Some o => if bool_decide (o = "exact") || bool_decide (o = "eq") then exactly
               else if bool_decide (o = "minimum") || bool_decide (o = "gte") || bool_decide (o = "gt")
               then minimum
               else if bool_decide (o = "maximum") || bool_decide (o = "lte") then maximum
               else any
   | None => any
   end)%string.

Definition evaluateRequiredSoftwareRule (rule : ParsedRule) (context : DeviceEvaluationContext)
    : RuleEvaluationDetail :=
  match readString (field "softwareName" (pr_raw rule)) with
  | None => detail rule false MissingSoftwareName
  | Some softwareName =>
      let matchingSoftware := filter (λ e, softwareNameMatches (sw_name e) softwareName) (software context) in
      if Nat.eqb (length matchingSoftware) 0 then detail rule false (SoftwareNotInstalled softwareName)
      else
        let operatorValue := toLowerCase <$> readString (field "versionOperator" (pr_raw rule)) in
        let versionOperator := version_operator operatorValue in
        let requiredVersion := readString (field "softwareVersion" (pr_raw rule)) in
        if negb (bool_decide (versionOperator = any)) && negb (truthy requiredVersion) then
          detail rule false (OperatorNeedsVersion versionOperator softwareName)
        else
          let matchingByVersion :=
            filter (λ e, matchesVersionRequirement (sw_version e) requiredVersion versionOperator)
              matchingSoftware in
          if Nat.eqb (length matchingByVersion) 0 then
            detail rule false (VersionsDoNotSatisfy softwareName versionOperator requiredVersion
              ((λ e, default "unknown"%string (sw_version e)) <$> matchingSoftware))
          else detail rule true (SoftwareInstalled softwareName)
  end.

Definition evaluateProhibitedSoftwareRule (rule : ParsedRule) (context : DeviceEvaluationContext)
    : RuleEvaluationDetail :=
  match readString (coalesce (field "prohibitedName" (pr_raw rule)) (field "softwareName" (pr_raw rule))) with
  | None => detail rule false MissingProhibitedName
  | Some softwareName =>
      let matchingSoftware := filter (λ e, softwareNameMatches (sw_name e) softwareName) (software context) in
      if Nat.eqb (length matchingSoftware) 0 then detail rule true (ProhibitedNotInstalled softwareName)
      else detail rule false (ProhibitedInstalled softwareName
             ((λ e, default "unknown"%string (sw_version e)) <$> matchingSoftware))
  end.

Definition diskMatchesPath (disk : DiskRecord) (path : string) : bool :=
  let normalizedPath := normalizeComparable path in
  let mount := normalizeComparable (mountPoint disk) in
  let devicePath := match dk_device disk with
                    | Some (String _ _ as d) => normalizeComparable d
                    | _ => ""%string end in
  bool_decide (mount = normalizedPath) || includes normalizedPath mount || includes mount normalizedPath
  || (negb (bool_decide (devicePath = ""%string)) &&
      (bool_decide (devicePath = normalizedPath) || includes normalizedPath devicePath
       || includes devicePath normalizedPath)).

Definition evaluateDiskSpaceRule (rule : ParsedRule) (context : DeviceEvaluationContext)
    : RuleEvaluationDetail :=
  match readNumber (coalesce (field "minGb" (pr_raw rule)) (field "diskSpaceGB" (pr_raw rule))) with
  | None => detail rule false MissingMinGb
  | Some minimumFreeGb =>
      let diskPath := readString (field "diskPath" (pr_raw rule)) in
      let candidateDisks := match diskPath with
                            | Some path => filter (λ d, diskMatchesPath d path) (disks context)
                            | None => disks context end in
      if Nat.eqb (length candidateDisks) 0 then
        detail rule false (match diskPath with Some path => NoDiskForPath path | None => NoDisks end)
      else
        let failingDisks := filter (λ d, negb (Qle_bool minimumFreeGb (freeGb d))) candidateDisks in
        if negb (Nat.eqb (length failingDisks) 0) then
          detail rule false (DisksBelow minimumFreeGb ((λ d, (mountPoint d, freeGb d)) <$> failingDisks))
        else detail rule true (DisksMeet minimumFreeGb)
  end.

Definition evaluateOsVersionRule (rule : ParsedRule) (context : DeviceEvaluationContext)
    : RuleEvaluationDetail :=
  let requiredOsType := default "any"%string (toLowerCase <$> readString (field "osType" (pr_raw rule))) in
  let requiredMinVersion :=
    readString (coalesce (field "minOsVersion" (pr_raw rule)) (field "osMinVersion" (pr_raw rule))) in
  let currentOsType := toLowerCase (td_osType (device context)) in
  if negb (bool_decide (requiredOsType = "any"%string)) && negb (bool_decide (currentOsType = requiredOsType))
  then detail rule false (OsTypeMismatch (td_osType (device context)) requiredOsType)
  else match requiredMinVersion with
       | Some v => if compareVersions (td_osVersion (device context)) v <? 0
                   then detail rule false (OsVersionBelow (td_osVersion (device context)) v)
                   else detail rule true OsVersionSatisfied
       | None => detail rule true OsVersionSatisfied
       end.

Definition registry_matches (path value : string) (entry : RegistryStateRecord) : bool :=
  bool_decide (normalizeRegistryPath (registryPath entry) = normalizeRegistryPath path) &&
  bool_decide (normalizeComparable (valueName entry) = normalizeComparable value).

Definition evaluateRegistryCheckRule (rule : ParsedRule) (context : DeviceEvaluationContext)
    : RuleEvaluationDetail :=
  let expectedValue := readString (field "registryExpectedValue" (pr_raw rule)) in
  match readString (field "registryPath" (pr_raw rule)), readString (field "registryValueName" (pr_raw rule)) with
  | Some path, Some value =>
      if negb (bool_decide (toLowerCase (td_osType (device context)) = "windows"%string))
      then detail rule true RegistryNotApplicable
      else match head (filter (registry_matches path value) (registryState context)) with
           | None => detail rule false (RegistryNotFound path value)
           | Some matched =>
               let actualValue := default ""%string (valueData matched) in
               match expectedValue with
               | Some expected =>
                   if bool_decide (normalizeComparable actualValue = normalizeComparable expected)
                   then detail rule true (RegistryMatches path value)
                   else detail rule false
                          (RegistryMismatch path value expected actualValue (valueType matched))
               | None => detail rule true (RegistryMatches path value)
               end
           end
  | _, _ => detail rule false RegistryRuleIncomplete
  end.

Definition config_matches (path key : string) (entry : ConfigStateRecord) : bool :=
  bool_decide (normalizeConfigPath (filePath entry) = normalizeConfigPath path) &&
  bool_decide (normalizeComparable (configKey entry) = normalizeComparable key).

Definition evaluateConfigCheckRule (rule : ParsedRule) (context : DeviceEvaluationContext)
    : RuleEvaluationDetail :=
  let expectedValue := readString (field "configExpectedValue" (pr_raw rule)) in
  match readString (field "configFilePath" (pr_raw rule)), readString (field "configKey" (pr_raw rule)) with
  | Some path, Some key =>
      match head (filter (config_matches path key) (configState context)) with
      | None => detail rule false (ConfigKeyNotFound path key)
      | Some matched =>
          let actualValue := default ""%string (configValue matched) in
          match expectedValue with
          | Some expected =>
              if bool_decide (normalizeComparable actualValue = normalizeComparable expected)
              then detail rule true (ConfigMatches path key)
              else detail rule false (ConfigMismatch path key expected actualValue)
          | None => detail rule true (ConfigMatches path key)
          end
      end
  | _, _ => detail rule false ConfigRuleIncomplete
  end.

Definition evaluateUnsupportedRule (rule : ParsedRule) : RuleEvaluationDetail :=
  detail rule false (UnsupportedRuleType (pr_type rule)).

Definition evaluateRule (rule : ParsedRule) (context : DeviceEvaluationContext) : RuleEvaluationDetail :=
  (if bool_decide (pr_type rule = "required_software") then evaluateRequiredSoftwareRule rule context
   else if bool_decide (pr_type rule = "prohibited_software") then evaluateProhibitedSoftwareRule rule context
   else if bool_decide (pr_type rule = "disk_space_minimum") then evaluateDiskSpaceRule rule context
   else if bool_decide (pr_type rule = "os_version") then evaluateOsVersionRule rule context
   else if bool_decide (pr_type rule = "registry_check") then evaluateRegistryCheckRule rule context
   else if bool_decide (pr_type rule = "config_check") then evaluateConfigCheckRule rule context
   else evaluateUnsupportedRule rule)%string.

Definition policy_failure (m : RuleMessage) : RuleEvaluationDetail :=
  {| ruleType := "policy_rules"; passed := false; message := m |}.

Definition evaluateDeviceRules (parsedRules : ParsedRulesResult) (context : DeviceEvaluationContext)
    : DeviceRuleEvaluation :=
  if negb (inputHadArray parsedRules) then
    {| ev_passed := false; ev_details := [policy_failure RulesNotAnArray] |}
  else if Nat.eqb (inputLength parsedRules) 0 then
    {| ev_passed := false; ev_details := [policy_failure NoRules] |}
  else
    let details := (λ rule, evaluateRule rule context) <$> rules parsedRules in
    let details := if (0 <? invalidCount parsedRules)%nat
                   then details ++ [policy_failure (InvalidRules (invalidCount parsedRules) (inputLength parsedRules))]
                   else details in
    {| ev_passed := Nat.eqb (invalidCount parsedRules) 0 && (0 <? length (rules parsedRules))%nat
                    && forallb passed details;
       ev_details := details |}.

(** ** What a rule requires *)

(** The disks a rule is about. *)
Definition disk_selected (raw : json) (d : DiskRecord) : Prop :=
  match readString (field "diskPath" raw) with Some path => diskMatchesPath d path = true | None => True end.

(** The value found is the one expected, if one is. *)
Definition value_expected (expected actual : option string) : Prop :=
  ∀ v, expected = Some v → normalizeComparable (default ""%string actual) = normalizeComparable v.

Inductive rule_holds (ctx : DeviceEvaluationContext) (raw : json) : string → Prop :=
| holds_required name e :
    readString (field "softwareName" raw) = Some name →
    e ∈ software ctx → softwareNameMatches (sw_name e) name = true →
    matchesVersionRequirement (sw_version e) (readString (field "softwareVersion" raw))
      (version_operator (toLowerCase <$> readString (field "versionOperator" raw))) = true →
    rule_holds ctx raw "required_software"
| holds_prohibited name :
    readString (coalesce (field "prohibitedName" raw) (field "softwareName" raw)) = Some name →
    (∀ e, e ∈ software ctx → softwareNameMatches (sw_name e) name = false) →
    rule_holds ctx raw "prohibited_software"
| holds_disk minGb d :
    readNumber (coalesce (field "minGb" raw) (field "diskSpaceGB" raw)) = Some minGb →
    d ∈ disks ctx → disk_selected raw d →
    (∀ d, d ∈ disks ctx → disk_selected raw d → (minGb <= freeGb d)%Q) →
    rule_holds ctx raw "disk_space_minimum"
| holds_os :
    (∀ os, readString (field "osType" raw) = Some os →
       toLowerCase os = "any"%string ∨ toLowerCase (td_osType (device ctx)) = toLowerCase os) →
    (∀ v, readString (coalesce (field "minOsVersion" raw) (field "osMinVersion" raw)) = Some v →
       0 <= compareVersions (td_osVersion (device ctx)) v) →
    rule_holds ctx raw "os_version"
| holds_registry_elsewhere path value :
    readString (field "registryPath" raw) = Some path →
    readString (field "registryValueName" raw) = Some value →
    toLowerCase (td_osType (device ctx)) ≠ "windows"%string →
    rule_holds ctx raw "registry_check"
| holds_registry path value e :
    readString (field "registryPath" raw) = Some path →
    readString (field "registryValueName" raw) = Some value →
    head (filter (registry_matches path value) (registryState ctx)) = Some e →
    value_expected (readString (field "registryExpectedValue" raw)) (valueData e) →
    rule_holds ctx raw "registry_check"
| holds_config path key e :
    readString (field "configFilePath" raw) = Some path →
    readString (field "configKey" raw) = Some key →
    head (filter (config_matches path key) (configState ctx)) = Some e →
    value_expected (readString (field "configExpectedValue" raw)) (configValue e) →
    rule_holds ctx raw "config_check".

(** ** Lemmas *)

Section rule_specs.
Context (rule : ParsedRule) (ctx : DeviceEvaluationContext).
Local Abbreviation raw := (pr_raw rule).

Lemma required_spec :
  passed (evaluateRequiredSoftwareRule rule ctx) = true ↔ rule_holds ctx raw "required_software".
Proof.
  unfold evaluateRequiredSoftwareRule.
  destruct (readString (field "softwareName" raw)) as [name|] eqn:En.
  2: { split; [done|]. intros H. inversion H. congruence. }
  set (op := version_operator _). set (req := readString (field "softwareVersion" raw)).
  assert (∀ e, matchesVersionRequirement (sw_version e) req op = true →
    negb (bool_decide (op = any)) && negb (truthy req) = false) as Hreq.
  { intros e. unfold matchesVersionRequirement. case_bool_decide; [done|].
    by destruct op, (truthy req). }
  destruct (Nat.eqb (length (filter _ (software ctx))) 0) eqn:Em.
  { split; [done|]. intros H. rewrite filter_empty in Em. inversion H; simplify_eq/=.
    rewrite Em in *; congruence. }
  split.
  - destruct (_ && _); [done|].
    destruct (Nat.eqb (length (filter _ (filter _ _))) 0) eqn:Ev; [done|]. intros _.
    apply filter_nonempty in Ev as (e & [Hn He]%list_elem_of_filter & Hv).
    eapply holds_required; eauto. by apply Is_true_true.
  - intros H. inversion H as [name' e Hn He Hm Hv| | | | | |]; simplify_eq/=.
    rewrite (Hreq e Hv).
    destruct (Nat.eqb (length (filter _ (filter _ _))) 0) eqn:Ev; [|done].
    rewrite filter_empty in Ev. rewrite Ev in Hv; [done|].
    apply list_elem_of_filter. by rewrite Hm.
Qed.

Lemma prohibited_spec :
  passed (evaluateProhibitedSoftwareRule rule ctx) = true ↔ rule_holds ctx raw "prohibited_software".
Proof.
  unfold evaluateProhibitedSoftwareRule. destruct (readString _) as [name|] eqn:En.
  2: { split; [done|]. intros H. inversion H. congruence. }
  destruct (Nat.eqb _ 0) eqn:Em.
  - split; [intros _|done]. rewrite filter_empty in Em. by apply holds_prohibited with name.
  - split; [done|]. intros H. apply filter_nonempty in Em as (e & He & Hm).
    inversion H as [|name' Hn Hall| | | | |]; simplify_eq/=. by rewrite Hall in Hm.
Qed.

Lemma disk_spec :
  passed (evaluateDiskSpaceRule rule ctx) = true ↔ rule_holds ctx raw "disk_space_minimum".
Proof.
  unfold evaluateDiskSpaceRule. destruct (readNumber _) as [minGb|] eqn:En.
  2: { split; [done|]. intros H. inversion H. congruence. }
  set (cands := match readString _ with Some _ => _ | None => _ end).
  assert (∀ d, d ∈ cands ↔ d ∈ disks ctx ∧ disk_selected raw d) as Hc.
  { intros d. unfold cands, disk_selected. destruct (readString _); [|tauto].
    rewrite list_elem_of_filter, Is_true_true. tauto. }
  clearbody cands. destruct cands as [|d0 cands']; simpl.
  - split; [done|]. intros H. inversion H as [| |m d Hm Hd Hs Hall| | | |]; simplify_eq/=.
    exfalso. by apply (not_elem_of_nil d), Hc.
  - destruct (Nat.eqb (length (filter _ _)) 0) eqn:Ef; simpl.
    + split; [intros _|done]. rewrite filter_empty in Ef.
      assert (d0 ∈ d0 :: cands') as [? ?]%Hc by left. eapply holds_disk; eauto.
      intros d Hd Hs. apply Qle_bool_iff, negb_false_iff, Ef. by apply Hc.
    + split; [done|]. intros H. inversion H as [| |m d Hm Hd Hs Hall| | | |]; simplify_eq/=.
      apply filter_nonempty in Ef as (d' & [? ?]%Hc & Hlt). apply negb_true_iff in Hlt.
      assert (minGb <= freeGb d')%Q as Hle%Qle_bool_iff by auto. congruence.
Qed.

Lemma os_spec : passed (evaluateOsVersionRule rule ctx) = true ↔ rule_holds ctx raw "os_version".
Proof.
  unfold evaluateOsVersionRule. split.
  - intros H. destruct (_ && _) eqn:Eo; [done|]. apply andb_false_iff in Eo. apply holds_os.
    + intros os Hos. rewrite Hos in Eo. simpl in Eo. repeat case_bool_decide; naive_solver.
    + intros v Hv. rewrite Hv in H. destruct (Z.ltb_spec (compareVersions (td_osVersion (device ctx)) v) 0); done.
  - intros H. inversion H as [| | |Hos Hv| | |]; simplify_eq/=.
    destruct (_ && _) eqn:Eo.
    + exfalso. apply andb_true_iff in Eo as [E1 E2].
      destruct (readString (field "osType" raw)) as [os|] eqn:Er; [|done]. simpl in *.
      destruct (Hos os eq_refl) as [Hany|Heq]; repeat case_bool_decide; done.
    + destruct (readString (coalesce _ _)) as [v|] eqn:Er; [|done].
      specialize (Hv v eq_refl). destruct (Z.ltb_spec (compareVersions (td_osVersion (device ctx)) v) 0); [lia|done].
Qed.

Lemma value_expected_spec expected actual :
  match expected with
  | Some v => bool_decide (normalizeComparable (default ""%string actual) = normalizeComparable v) = true
  | None => True
  end ↔ value_expected expected actual.
Proof.
  unfold value_expected. destruct expected; [rewrite bool_decide_eq_true|]; naive_solver.
Qed.

Lemma registry_spec :
  passed (evaluateRegistryCheckRule rule ctx) = true ↔ rule_holds ctx raw "registry_check".
Proof.
  unfold evaluateRegistryCheckRule.
  destruct (readString (field "registryPath" raw)) as [path|] eqn:Ep.
  2: { split; [done|]. intros H. by inversion H; simplify_eq. }
  destruct (readString (field "registryValueName" raw)) as [value|] eqn:Ev.
  2: { split; [done|]. intros H. by inversion H; simplify_eq. }
  case_bool_decide as Hw; simpl.
  2: { split; [|done]. intros _. by apply holds_registry_elsewhere with path value. }
  destruct (head _) as [e|] eqn:Eh.
  2: { split; [done|]. intros H. by inversion H; simplify_eq. }
  assert (passed match readString (field "registryExpectedValue" raw) with
    | Some expected => if bool_decide (normalizeComparable (default ""%string (valueData e)) = normalizeComparable expected)
                       then detail rule true (RegistryMatches path value)
                       else detail rule false (RegistryMismatch path value expected
                              (default ""%string (valueData e)) (valueType e))
    | None => detail rule true (RegistryMatches path value) end = true ↔
    value_expected (readString (field "registryExpectedValue" raw)) (valueData e)) as ->.
  { rewrite <- value_expected_spec. destruct (readString (field "registryExpectedValue" raw)); [|done].
    by case_bool_decide. }
  split; [intros Hx; by apply holds_registry with path value e|].
  intros H. by inversion H; simplify_eq.
Qed.

Lemma config_spec :
  passed (evaluateConfigCheckRule rule ctx) = true ↔ rule_holds ctx raw "config_check".
Proof.
  unfold evaluateConfigCheckRule.
  destruct (readString (field "configFilePath" raw)) as [path|] eqn:Ep.
  2: { split; [done|]. intros H. by inversion H; simplify_eq. }
  destruct (readString (field "configKey" raw)) as [key|] eqn:Ev.
  2: { split; [done|]. intros H. by inversion H; simplify_eq. }
  destruct (head _) as [e|] eqn:Eh.
  2: { split; [done|]. intros H. by inversion H; simplify_eq. }
  assert (passed match readString (field "configExpectedValue" raw) with
    | Some expected => if bool_decide (normalizeComparable (default ""%string (configValue e)) = normalizeComparable expected)
                       then detail rule true (ConfigMatches path key)
                       else detail rule false (ConfigMismatch path key expected
                              (default ""%string (configValue e)))
    | None => detail rule true (ConfigMatches path key) end = true ↔
    value_expected (readString (field "configExpectedValue" raw)) (configValue e)) as ->.
  { rewrite <- value_expected_spec. destruct (readString (field "configExpectedValue" raw)); [|done].
    by case_bool_decide. }
  split; [intros Hx; by apply holds_config with path key e|].
  intros H. by inversion H; simplify_eq.
Qed.

Lemma evaluateRule_spec : passed (evaluateRule rule ctx) = true ↔ rule_holds ctx raw (pr_type rule).
Proof.
  unfold evaluateRule.
  case_bool_decide as H1; [rewrite H1; apply required_spec|].
  case_bool_decide as H2; [rewrite H2; apply prohibited_spec|].
  case_bool_decide as H3; [rewrite H3; apply disk_spec|].
  case_bool_decide as H4; [rewrite H4; apply os_spec|].
  case_bool_decide as H5; [rewrite H5; apply registry_spec|].
  case_bool_decide as H6; [rewrite H6; apply config_spec|].
  split; [done|]. intros Hh. inversion Hh; congruence.
Qed.
End rule_specs.

(** ** The array of rules *)

Lemma parse_fold l acc n :
  fold_left parse_rule l (acc, n) =
  (acc ++ omap (λ r, (λ t, {| pr_type := t; pr_raw := r |}) <$> rule_type r) l,
   (n + length (filter (λ r, rule_type r = None) l))%nat).
Proof.
  revert acc n. induction l as [|r l IH]; intros acc n; simpl.
  { by rewrite app_nil_r, Nat.add_0_r. }
  unfold parse_rule at 2. simpl. destruct (rule_type r) as [t|] eqn:E; rewrite IH; simpl.
  - rewrite filter_cons_False by (by rewrite E). by rewrite <- app_assoc.
  - rewrite filter_cons_True by done. simpl. by rewrite Nat.add_succ_r.
Qed.

Lemma parse_rules_array l :
  parsePolicyRules (Some (JArr l)) =
  {| rules := omap (λ r, (λ t, {| pr_type := t; pr_raw := r |}) <$> rule_type r) l;
     inputHadArray := true; inputLength := length l;
     invalidCount := length (filter (λ r, rule_type r = None) l) |}.
Proof. unfold parsePolicyRules. simpl. by rewrite parse_fold. Qed.

Lemma evaluateRule_type rule ctx : ruleType (evaluateRule rule ctx) = pr_type rule.
Proof.
  unfold evaluateRule, evaluateRequiredSoftwareRule, evaluateProhibitedSoftwareRule,
    evaluateDiskSpaceRule, evaluateOsVersionRule, evaluateRegistryCheckRule, evaluateConfigCheckRule.
  by repeat case_match.
Qed.

(** No entry of the array is invalid. *)
Lemma no_invalid l :
  length (filter (λ r, rule_type r = None) l) = 0%nat ↔ Forall (λ r, is_Some (rule_type r)) l.
Proof.
  rewrite length_zero_iff_nil, Forall_forall. split.
  - intros Hn r Hr. destruct (rule_type r) eqn:E; [done|].
    assert (r ∈ filter (λ r, rule_type r = None) l) as Hf by (by apply list_elem_of_filter).
    rewrite Hn in Hf. by apply elem_of_nil in Hf.
  - intros Hall. destruct (filter _ l) as [|r l'] eqn:E; [done|].
    assert (r ∈ filter (λ r, rule_type r = None) l) as [Hn Hr]%list_elem_of_filter by (rewrite E; left).
    destruct (Hall r Hr) as [? ?]. congruence.
Qed.

(** The parsed rules are the entries that have a type. *)
Definition parsed (l : list json) : list ParsedRule :=
  omap (λ r, (λ t, {| pr_type := t; pr_raw := r |}) <$> rule_type r) l.

Lemma elem_of_parsed pr l : pr ∈ parsed l ↔ pr_raw pr ∈ l ∧ rule_type (pr_raw pr) = Some (pr_type pr).
Proof.
  unfold parsed. rewrite list_elem_of_omap. split.
  - intros (r & Hr & (t & Ht & ->)%fmap_Some). done.
  - intros [Hr Ht]. exists (pr_raw pr). rewrite Ht. by destruct pr.
Qed.

Lemma parsed_pass l ctx :
  forallb passed ((λ rule, evaluateRule rule ctx) <$> parsed l) = true ↔
  ∀ r t, r ∈ l → rule_type r = Some t → rule_holds ctx r t.
Proof.
  rewrite forallb_forall. split.
  - intros H r t Hr Ht. apply (evaluateRule_spec {| pr_type := t; pr_raw := r |}), H.
    apply list_elem_of_In, list_elem_of_fmap. eexists. split; [done|]. by apply elem_of_parsed.
  - intros H d Hd. apply list_elem_of_In, list_elem_of_fmap in Hd as (pr & -> & [Hr Ht]%elem_of_parsed).
    apply evaluateRule_spec. by apply H.
Qed.

(** C21 (evaluateDeviceRules with parsePolicyRules and the rule evaluators): a device is
    found compliant exactly when the policy's rules are a non-empty array, every entry is
    an object with a type, and every rule holds for what the device reported; a rule of
    an unknown type never holds. *)
Theorem device_compliant_iff rs ctx :
  ev_passed (evaluateDeviceRules (parsePolicyRules rs) ctx) = true ↔
  ∃ l, rs = Some (JArr l) ∧ l ≠ [] ∧
    Forall (λ r, ∃ t, rule_type r = Some t ∧ rule_holds ctx r t) l.
Proof.
  destruct (as_array rs) as [l|] eqn:Ea.
  2: { unfold parsePolicyRules. rewrite Ea. split; [done|]. intros (l & -> & _). done. }
  assert (rs = Some (JArr l)) as -> by (destruct rs as [[]|]; simplify_eq/=; done).
  rewrite parse_rules_array. fold (parsed l). unfold evaluateDeviceRules. simpl.
  destruct (Nat.eqb_spec (length l) 0) as [H0|H0].
  { split; [done|]. intros (l' & [= <-] & Hne & _). by apply length_zero_iff_nil in H0. }
  simpl. rewrite !andb_true_iff, Nat.eqb_eq, no_invalid. split.
  - intros [[Hall _] Hp]. pose proof (proj2 (no_invalid l) Hall) as Hz. rewrite Hz in Hp. simpl in Hp.
    rewrite parsed_pass in Hp. exists l. split; [done|]. split; [by intros ->|].
    rewrite Forall_forall in Hall |- *. intros r Hr. destruct (Hall r Hr) as [t Ht]. eauto.
  - intros (l' & [= <-] & Hne & Hall). rewrite Forall_forall in Hall.
    assert (Forall (λ r, is_Some (rule_type r)) l) as Hs.
    { apply Forall_forall. intros r Hr. destruct (Hall r Hr) as (t & -> & _). done. }
    pose proof (proj2 (no_invalid l) Hs) as Hz. rewrite Hz. simpl. split_and!; [done| |].
    + destruct l as [|r l]; [done|]. unfold parsed. simpl.
      destruct (Hall r) as (t & -> & _); [left|done].
    + rewrite parsed_pass. intros r t Hr Ht. destruct (Hall r Hr) as (t' & ? & ?). congruence.
Qed.

(** The messages that report success. *)
Definition success_message (m : RuleMessage) : bool :=
  match m with
  | SoftwareInstalled _ | ProhibitedNotInstalled _ | DisksMeet _ | OsVersionSatisfied
  | RegistryNotApplicable | RegistryMatches _ _ | ConfigMatches _ _ => true
  | _ => false
  end.

Record well_formed_detail (d : RuleEvaluationDetail) : Prop := {
  wf_type : ruleType d ≠ ""%string ∧ trim (ruleType d) = ruleType d;
  wf_message : passed d = success_message (message d) }.

Lemma evaluateRule_message rule ctx :
  passed (evaluateRule rule ctx) = success_message (message (evaluateRule rule ctx)).
Proof.
  unfold evaluateRule, evaluateRequiredSoftwareRule, evaluateProhibitedSoftwareRule,
    evaluateDiskSpaceRule, evaluateOsVersionRule, evaluateRegistryCheckRule, evaluateConfigCheckRule.
  by repeat case_match.
Qed.

Lemma drop_spaces_idem l : drop_spaces (drop_spaces l) = drop_spaces l.
Proof. induction l as [|c l IH]; [done|]. simpl. case_match eqn:E; [done|]. simpl. by rewrite E. Qed.

(** Dropping blanks at the end keeps the head. *)
Lemma drop_spaces_snoc l c : is_space c = false → ∃ l', drop_spaces (l ++ [c]) = l' ++ [c].
Proof.
  intros Hc. induction l as [|a l IH]; simpl; [rewrite Hc; by exists []|].
  case_match; [done | by exists (a :: l)].
Qed.

Lemma trim_idem s : trim (trim s) = trim s.
Proof.
  unfold trim. rewrite String.list_ascii_of_string_of_list_ascii.
  set (r := drop_spaces (reverse (drop_spaces (chars s)))).
  assert (drop_spaces (reverse r) = reverse r) as ->.
  { unfold r. pose proof (drop_spaces_idem (chars s)) as Hl.
    destruct (drop_spaces (chars s)) as [|c l] eqn:E; [done|]. simpl in Hl.
    destruct (is_space c) eqn:Ec.
    { exfalso. apply (f_equal length) in Hl. simpl in Hl.
      assert (length (drop_spaces l) ≤ length l)%nat; [|lia].
      clear. induction l as [|a l IH]; simpl; [lia|]. case_match; simpl; lia. }
    rewrite reverse_cons. destruct (drop_spaces_snoc (reverse l) c Ec) as [l' ->].
    rewrite reverse_snoc. simpl. by rewrite Ec. }
  rewrite reverse_involutive. unfold r at 1. by rewrite drop_spaces_idem.
Qed.

Lemma rule_type_trimmed r t : rule_type r = Some t → t ≠ ""%string ∧ trim t = t.
Proof.
  unfold rule_type. intros H. repeat case_match; simplify_eq; bool_prop; by rewrite trim_idem.
Qed.

Lemma parsed_details_wf l ctx :
  Forall well_formed_detail ((λ rule, evaluateRule rule ctx) <$> parsed l).
Proof.
  apply Forall_forall. intros d (pr & -> & [_ Ht]%elem_of_parsed)%list_elem_of_fmap. split.
  - rewrite evaluateRule_type. by eapply rule_type_trimmed.
  - apply evaluateRule_message.
Qed.

(** (the result of evaluateDeviceRules): whatever JSON the policy holds, the
    evaluation is well formed: there is at least one detail; every detail names a
    non-blank rule type without surrounding blanks and its verdict agrees with its
    message; and the overall verdict is the conjunction of the details' verdicts. *)
Theorem evaluation_well_formed rs ctx :
  let ev := evaluateDeviceRules (parsePolicyRules rs) ctx in
  ev_details ev ≠ [] ∧ Forall well_formed_detail (ev_details ev) ∧
  ev_passed ev = forallb passed (ev_details ev).
Proof.
  assert (∀ m, success_message m = false → well_formed_detail (policy_failure m)) as Hf.
  { intros m Hm. split; [by vm_compute|by symmetry]. }
  destruct (as_array rs) as [l|] eqn:Ea; simpl.
  2: { unfold parsePolicyRules. rewrite Ea. split; [done|]. split; [|done]. by repeat constructor; apply Hf. }
  assert (rs = Some (JArr l)) as -> by (destruct rs as [[]|]; simplify_eq/=; done).
  rewrite parse_rules_array. fold (parsed l). unfold evaluateDeviceRules. simpl.
  destruct (Nat.eqb_spec (length l) 0) as [H0|H0]; simpl.
  { split; [done|]. split; [|done]. by repeat constructor; apply Hf. }
  assert (length (filter (λ r, rule_type r = None) l) = 0%nat → parsed l ≠ []) as Hne.
  { intros Hn%no_invalid. destruct l as [|r l]; [done|]. apply Forall_cons in Hn as [[t Ht] _].
    unfold parsed. simpl. by rewrite Ht. }
  destruct (length (filter _ l)) as [|k]; simpl.
  - specialize (Hne eq_refl). split_and!; [|apply parsed_details_wf|]; by destruct (parsed l).
  - split_and!; [by destruct (_ <$> _)| |].
    + apply Forall_app. split; [apply parsed_details_wf|]. by repeat constructor; apply Hf.
    + rewrite forallb_app. simpl. by rewrite andb_false_r.
Qed.

(** ** The order of versions *)

Lemma element_compare_flip a b : element_compare b a = CompOpp (element_compare a b).
Proof.
  unfold element_compare. rewrite (Z.compare_antisym b.1 a.1), (Z.compare_antisym b.2 a.2).
  destruct (b.1 ?= a.1); simpl; [by rewrite CompOpp_involutive | done | done].
Qed.

Lemma element_compare_trans a b c :
  element_compare a b ≠ Gt → element_compare b c ≠ Gt →
  element_compare a c ≠ Gt ∧ (element_compare a c = Eq → element_compare a b = Eq ∧ element_compare b c = Eq).
Proof.
  unfold element_compare. repeat case_match; rewrite ?Z.compare_eq_iff, ?Z.compare_lt_iff,
    ?Z.compare_gt_iff, ?Z.compare_nle_iff in *; try done; naive_solver lia.
Qed.

Lemma elements_compare_flip a b : elements_compare b a = CompOpp (elements_compare a b).
Proof.
  revert b. induction a as [|x a IH]; intros [|y b]; [done..|]. simpl.
  rewrite (element_compare_flip x y). destruct (element_compare x y); [apply IH | done | done].
Qed.

Lemma elements_compare_trans a b c :
  elements_compare a b ≠ Gt → elements_compare b c ≠ Gt →
  elements_compare a c ≠ Gt ∧ (elements_compare a c = Eq → elements_compare a b = Eq ∧ elements_compare b c = Eq).
Proof.
  revert b c. induction a as [|x a IH]; intros [|y b] [|z c]; try done. simpl.
  pose proof (element_compare_trans x y z) as Ht.
  destruct (element_compare x y) eqn:E1, (element_compare y z) eqn:E2; try done; intros H1 H2;
    destruct (Ht ltac:(done) ltac:(done)) as [H3 H4]; destruct (element_compare x z) eqn:E3; try done;
    try (by destruct (H4 eq_refl)); by apply IH.
Qed.

(** Numbers in a token stay exact as doubles. *)
Definition small_token (t : list ascii) : Prop :=
  t ≠ [] ∧ (forallb is_digit t = true → digits_val t <= 2 ^ 53).
Definition small_version (v : string) : Prop := Forall small_token (alnum_tokens [] (chars v)).

Lemma collation_digits n l :
  forallb is_digit l = true → collation (Some n) l = [(0, n * 10 ^ Z.of_nat (length l) + digits_val l)].
Proof.
  rewrite <- digits_val_fold. revert n. induction l as [|c l IH]; intros n; [done|]. simpl.
  intros [-> Hl]%andb_true_iff. by apply IH.
Qed.

Lemma collation_number l :
  l ≠ [] → forallb is_digit l = true → collation None l = [(0, digits_val l)].
Proof.
  destruct l as [|c l]; [done|]. intros _. simpl. intros [-> Hl]%andb_true_iff.
  rewrite collation_digits by done. simpl. by rewrite digits_val_cons.
Qed.

(** On exact numbers the two ways of comparing tokens agree. *)
Lemma compareVersionTokens_collation l r :
  small_token l → small_token r →
  compareVersionTokens l r = elements_compare (collation None l) (collation None r).
Proof.
  intros [Hl Sl] [Hr Sr]. unfold compareVersionTokens.
  destruct (forallb is_digit l) eqn:El; [|done]. destruct (forallb is_digit r) eqn:Er; [|done].
  destruct l as [|a l]; [done|]. destruct r as [|b r]; [done|]. simpl length. cbn [Nat.eqb negb andb].
  rewrite !collation_number by done. simpl. unfold element_compare. simpl.
  pose proof (digits_val_bound _ El). pose proof (digits_val_bound _ Er).
  assert (∀ z, 0 <= z <= 2 ^ 53 → (rnd (inject_Z z) == inject_Z z)%Q) as Hz.
  { intros z Hz. apply rnd_int; [done|lia]. }
  rewrite (Hz (digits_val (a :: l))), (Hz (digits_val (b :: r))) by (split; [lia | by auto]).
  unfold Qcompare, inject_Z. simpl. rewrite !Z.mul_1_r. by destruct (_ ?= _).
Qed.

Definition token_at (ls : list (list ascii)) : list (Z * Z) := collation None (default ["0"%char] (head ls)).

Lemma small_head ls : Forall small_token ls → small_token (default ["0"%char] (head ls)) ∧ Forall small_token (tail ls).
Proof. intros H. destruct H; [|done]. split; [split; [done|by vm_compute]|done]. Qed.

Lemma compare_tokens_step n ls rs :
  Forall small_token ls → Forall small_token rs →
  compare_tokens (S n) ls rs =
  match elements_compare (token_at ls) (token_at rs) with
  | Gt => 1 | Lt => -1 | Eq => compare_tokens n (tail ls) (tail rs) end.
Proof.
  intros [Hl _]%small_head [Hr _]%small_head. simpl. by rewrite compareVersionTokens_collation.
Qed.

Lemma compare_tokens_flip n ls rs :
  Forall small_token ls → Forall small_token rs → compare_tokens n rs ls = - compare_tokens n ls rs.
Proof.
  revert ls rs. induction n as [|n IH]; intros ls rs Hl Hr; [done|].
  rewrite !compare_tokens_step, (elements_compare_flip (token_at ls)) by done.
  apply small_head in Hl as [_ Hl], Hr as [_ Hr].
  destruct (elements_compare _ _); simpl; [by apply IH | done | done].
Qed.

Lemma compare_tokens_trans n ls ms rs :
  Forall small_token ls → Forall small_token ms → Forall small_token rs →
  compare_tokens n ls ms <= 0 → compare_tokens n ms rs <= 0 →
  compare_tokens n ls rs <= 0.
Proof.
  revert ls ms rs. induction n as [|n IH]; intros ls ms rs Hl Hm Hr; [done|].
  rewrite !compare_tokens_step by done.
  apply small_head in Hl as [_ Hl], Hm as [_ Hm], Hr as [_ Hr].
  pose proof (elements_compare_trans (token_at ls) (token_at ms) (token_at rs)) as Ht.
  destruct (elements_compare (token_at ls) (token_at ms)), (elements_compare (token_at ms) (token_at rs));
    try lia; destruct (Ht ltac:(done) ltac:(done)) as [H1 H2];
    destruct (elements_compare (token_at ls) (token_at rs)); try (lia || done);
    try (by destruct (H2 eq_refl)); by apply IH.
Qed.

(** Positions past both ends compare equal. *)
Lemma compare_tokens_past n ls rs :
  (length ls <= n)%nat → (length rs <= n)%nat → ∀ k, compare_tokens (n + k) ls rs = compare_tokens n ls rs.
Proof.
  revert ls rs. induction n as [|n IH]; intros ls rs Hl Hr k; simpl.
  - destruct ls, rs; simpl in *; try lia. by induction k.
  - rewrite IH; [done | destruct ls; simpl in *; lia | destruct rs; simpl in *; lia].
Qed.

Lemma compareVersions_at n v w :
  (length (alnum_tokens [] (chars v)) <= n)%nat → (length (alnum_tokens [] (chars w)) <= n)%nat →
  compareVersions v w = compare_tokens n (alnum_tokens [] (chars v)) (alnum_tokens [] (chars w)).
Proof.
  intros Hv Hw. unfold compareVersions. set (m := Nat.max _ _).
  replace n with (m + (n - m))%nat by lia. by rewrite compare_tokens_past by lia.
Qed.

Lemma compareVersionTokens_refl t : compareVersionTokens t t = Eq.
Proof.
  unfold compareVersionTokens, localeCompare. case_match; [by apply Qeq_alt|].
  induction (collation None t) as [|x l IH]; [done|]. simpl.
  unfold element_compare. by rewrite !Z.compare_refl.
Qed.

Lemma compareVersions_refl v : compareVersions v v = 0.
Proof.
  unfold compareVersions. generalize (alnum_tokens [] (chars v)) at 3 4. intros l.
  induction (Nat.max _ _) as [|n IH] in l |- *; [done|]. simpl. by rewrite compareVersionTokens_refl.
Qed.

Lemma compareVersions_flip v w :
  small_version v → small_version w → compareVersions w v = - compareVersions v w.
Proof.
  intros Hv Hw. unfold compareVersions. rewrite Nat.max_comm. by apply compare_tokens_flip.
Qed.

Lemma compareVersions_trans u v w :
  small_version u → small_version v → small_version w →
  compareVersions u v <= 0 → compareVersions v w <= 0 → compareVersions u w <= 0.
Proof.
  intros Hu Hv Hw.
  set (n := (length (alnum_tokens [] (chars u)) + length (alnum_tokens [] (chars v))
             + length (alnum_tokens [] (chars w)))%nat).
  rewrite !(compareVersions_at n) by lia. by apply compare_tokens_trans.
Qed.

(** (compareVersions and matchesVersionRequirement): versions, letters and digits
    mixed, are ordered consistently, so requirements behave like bounds: an upgrade never
    breaks a minimum, a downgrade never breaks a maximum, and [exact] is both at once. *)
Theorem version_requirements_are_bounds lo hi req :
  small_version lo → small_version hi → small_version req → compareVersions lo hi <= 0 →
  (matchesVersionRequirement (Some lo) (Some req) minimum = true → hi ≠ ""%string →
   matchesVersionRequirement (Some hi) (Some req) minimum = true) ∧
  (matchesVersionRequirement (Some hi) (Some req) maximum = true → lo ≠ ""%string →
   matchesVersionRequirement (Some lo) (Some req) maximum = true) ∧
  matchesVersionRequirement (Some lo) (Some req) exactly =
  matchesVersionRequirement (Some lo) (Some req) minimum &&
  matchesVersionRequirement (Some lo) (Some req) maximum.
Proof.
  intros Hl Hh Hr Hle. unfold matchesVersionRequirement.
  pose proof (compareVersions_flip lo req Hl Hr) as F1. pose proof (compareVersions_flip hi req Hh Hr) as F2.
  destruct (truthy (Some req)); [|done]. cbn [negb orb default].
  assert (∀ v, v ≠ ""%string → truthy (Some v) = true) as Ht by by intros [].
  split_and!.
  - intros H Hne. rewrite Ht by done. simpl. apply Z.leb_le. destruct (negb _); [done|]. simpl in H.
    apply Z.leb_le in H. pose proof (compareVersions_trans req lo hi Hr Hl Hh ltac:(lia) Hle). lia.
  - intros H Hne. rewrite Ht by done. simpl. apply Z.leb_le. destruct (negb _); [done|]. simpl in H.
    apply Z.leb_le in H. by apply (compareVersions_trans lo hi req).
  - destruct (negb _); [done|]. simpl. destruct (Z.leb_spec 0 (compareVersions lo req)),
      (Z.leb_spec (compareVersions lo req) 0), (Z.eqb_spec (compareVersions lo req) 0); done || lia.
Qed.

Lemma version_requirements_are_bounds_witness :
  compareVersions "10.0.9" "10.0.22H2" <= 0 ∧
  matchesVersionRequirement (Some "10.0.22H2"%string) (Some "10.0.9"%string) minimum = true.
Proof.
  split; [by vm_compute|].
  assert (∀ v, forallb (λ t, negb (Nat.eqb (length t) 0) && (digits_val t <=? 2 ^ 53))
                 (alnum_tokens [] (chars v)) = true → small_version v) as Hs.
  { intros v Hv. apply Forall_forall. intros t Ht%list_elem_of_In. rewrite forallb_forall in Hv.
    specialize (Hv t Ht). apply andb_true_iff in Hv as [Hne Hle]. split; [by destruct t|].
    intros _. by apply Z.leb_le. }
  apply (version_requirements_are_bounds "10.0.9" "10.0.22H2" "10.0.9"); try (apply Hs; by vm_compute);
    by vm_compute.
Defined.

(** A device without the required browser version. *)
Module Example1.
Open Scope string_scope.
Definition ctx (v : string) : DeviceEvaluationContext :=
  {| device := {| td_id := "d"; td_hostname := "pc"; td_osType := "Windows"; td_osVersion := "10.0.19045" |};
     software := [{| sw_name := "Acme Browser (x64)"; sw_version := Some v |}];
     disks := [{| mountPoint := "C:\"; dk_device := None; freeGb := 12 |}];
     registryState := []; configState := [] |}.
Definition browser_rule (op : string) : json :=
  JObj [("type", JStr "required_software"); ("softwareName", JStr "acme browser");
        ("softwareVersion", JStr "125.0"); ("versionOperator", JStr op)].
Definition disk_rule : json := JObj [("type", JStr "disk_space_minimum"); ("minGb", JStr "10GB")].
Definition passes (l : list json) (v : string) : bool :=
  ev_passed (evaluateDeviceRules (parsePolicyRules (Some (JArr l))) (ctx v)).
End Example1.

Example evaluation_examples :
  Example1.passes [Example1.browser_rule "gte"; Example1.disk_rule] "125.1.3" = true ∧
  Example1.passes [Example1.browser_rule "gte"; Example1.disk_rule] "124.9" = false ∧
  Example1.passes [Example1.browser_rule "gte"; JNull] "125.1.3" = false ∧
  Example1.passes [] "125.1.3" = false.
Proof. vm_compute. repeat split. Qed.

(** (the version operators of evaluateRequiredSoftwareRule): the operator [gt], which
    the console labels "> (above)", is evaluated as a minimum: whenever the installed
    version is the required one, a rule that asks for a higher version passes. *)
Theorem gt_accepts_equal_version raw name v ctx e :
  readString (field "softwareName" raw) = Some name →
  readString (field "softwareVersion" raw) = Some v →
  readString (field "versionOperator" raw) = Some "gt"%string →
  e ∈ software ctx → softwareNameMatches (sw_name e) name = true → sw_version e = Some v →
  passed (evaluateRule {| pr_type := "required_software"; pr_raw := raw |} ctx) = true.
Proof.
  intros Hn Hv Hop He Hm Hs. apply evaluateRule_spec. simpl. apply holds_required with name e; try done.
  rewrite Hop, Hv, Hs. unfold matchesVersionRequirement. simpl.
  assert (v ≠ ""%string) as Hne.
  { unfold readString in Hv. repeat case_match; simplify_eq. by bool_prop. }
  destruct v as [|c v']; [done|]. cbn [truthy negb orb default]. by rewrite compareVersions_refl.
Qed.

Lemma gt_accepts_equal_version_witness :
  passed (evaluateRule {| pr_type := "required_software"; pr_raw := Example1.browser_rule "gt" |}
            (Example1.ctx "125.0")) = true.
Proof.
  apply (gt_accepts_equal_version (Example1.browser_rule "gt") "acme browser" "125.0" (Example1.ctx "125.0")
    {| sw_name := "Acme Browser (x64)"; sw_version := Some "125.0"%string |}); try (vm_compute; reflexivity).
  vm_compute. left.
Defined.
