(* ===== verification/PolicyEvaluation.v ===== *)
(** * Policy evaluation ([services/policyEvaluationService.ts], the service)

    Evaluating a policy on its target devices: what is read, the compliance rows that are
    written, the remediation runs that are started and the events that are published.
    Tables are lists; generated ids come from a counter; an event is lost when the next
    entry of [outages] says so.  A run started here is marked completed by a timer. *)

From S2P Require Import Prelude JsNum Json ConfigPolicy PolicyRules.

Open Scope Z_scope.

(** ** State *)

Inductive RowStatus := Pending | Evaluated (s : EvaluationStatus).

Record EvaluationDetails := {
  ed_evaluatedAt : Z; ed_rules : list string; ed_passed : bool;
  ed_ruleResults : list RuleEvaluationDetail; ed_source : string; ed_enforcementLevel : option string }.

Record complianceRow := {
  pc_id : Z; pc_policyId : option string; pc_configPolicyId : option string;
  pc_configItemName : option string; pc_deviceId : string; pc_status : RowStatus;
  pc_details : option EvaluationDetails; pc_lastCheckedAt : option Z }.

Record autoRow := {
  at_id : string; at_orgId : string; at_enabled : bool; at_actions : json; at_runCount : Z;
  at_lastRunAt : option Z }.

Inductive RunStatus := Running | Completed.
Record runRow := {
  rn_id : Z; rn_automationId : string; rn_configPolicyId : option string;
  rn_configItemName : option string; rn_triggeredBy : string; rn_status : RunStatus;
  rn_deviceId : string; rn_devicesSucceeded : Z }.

Record automationPolicyRow := {
  po_id : string; po_orgId : string; po_name : string; po_targets : json; po_rules : json;
  po_enforcement : string; po_remediationScriptId : option string }.

Record event := {
  evt_type : string; evt_orgId : string; evt_deviceId : string; evt_status : EvaluationStatus;
  evt_source : string }.

Record softwareRow := { so_deviceId : string; so_name : string; so_version : option string }.
Record diskRow := { di_deviceId : string; di_mountPoint : string; di_device : option string; di_freeGb : Q }.
Record registryRow := {
  rg_deviceId : string; rg_registryPath : string; rg_valueName : string;
  rg_valueData : option string; rg_valueType : option string }.
Record configRow := {
  co_deviceId : string; co_filePath : string; co_configKey : string; co_configValue : option string }.

(** What the evaluation only reads. *)
Record Telemetry := {
  config : ConfigDb; deviceDisks : list diskRow; deviceSoftware : list softwareRow;
  softwareInventory : list softwareRow; deviceRegistryState : list registryRow;
  deviceConfigState : list configRow }.

Record World := {
  data : Telemetry; compliance : list complianceRow; autos : list autoRow; runs : list runRow;
  lastEvaluated : list (string * Z); events : list event; timers : list Z; outages : list bool;
  nextId : Z; clock : Z }.

Definition set_compliance (rows : list complianceRow) (next : Z) (w : World) : World :=
  {| data := data w; compliance := rows; autos := autos w; runs := runs w;
     lastEvaluated := lastEvaluated w; events := events w; timers := timers w;
     outages := outages w; nextId := next; clock := clock w |}.

(** Starting a run: the row, the automation's counters, the timer. *)
Definition start_run (mk : Z → runRow) (automationId : string) (w : World) : World :=
  {| data := data w; compliance := compliance w;
     autos := (λ a, if bool_decide (at_id a = automationId)
                    then {| at_id := at_id a; at_orgId := at_orgId a; at_enabled := at_enabled a;
                            at_actions := at_actions a; at_runCount := at_runCount a + 1;
                            at_lastRunAt := Some (clock w) |}
                    else a) <$> autos w;
     runs := runs w ++ [mk (nextId w)]; lastEvaluated := lastEvaluated w; events := events w;
     timers := timers w ++ [nextId w]; outages := outages w; nextId := nextId w + 1; clock := clock w |}.

(** The timer of a run. *)
Definition complete_run (runId : Z) (w : World) : World :=
  {| data := data w; compliance := compliance w; autos := autos w;
     runs := (λ r, if bool_decide (rn_id r = runId)
                   then {| rn_id := rn_id r; rn_automationId := rn_automationId r;
                           rn_configPolicyId := rn_configPolicyId r;
                           rn_configItemName := rn_configItemName r;
                           rn_triggeredBy := rn_triggeredBy r; rn_status := Completed;
                           rn_deviceId := rn_deviceId r; rn_devicesSucceeded := 1 |}
                   else r) <$> runs w;
     lastEvaluated := lastEvaluated w; events := events w;
     timers := filter (λ i, i ≠ runId) (timers w); outages := outages w; nextId := nextId w;
     clock := clock w |}.

(** [publishEvent]: whether it succeeded, and the state after it. *)
Definition publishEvent (e : event) (w : World) : bool * World :=
  let ok := negb (default false (head (outages w))) in
  (ok,
   {| data := data w; compliance := compliance w; autos := autos w; runs := runs w;
      lastEvaluated := lastEvaluated w; events := if ok then events w ++ [e] else events w;
      timers := timers w; outages := tail (outages w); nextId := nextId w; clock := clock w |}).

Definition mark_evaluated (policyId : string) (w : World) : World :=
  {| data := data w; compliance := compliance w; autos := autos w; runs := runs w;
     lastEvaluated := (policyId, clock w) :: lastEvaluated w; events := events w;
     timers := timers w; outages := outages w; nextId := nextId w; clock := clock w |}.

(** ** What the evaluation reads *)

Definition target_device (d : deviceRow) : TargetDevice :=
  {| td_id := dev_id d; td_hostname := dev_hostname d; td_osType := dev_osType d;
     td_osVersion := dev_osVersion d |}.

(** Last value, first position, like a [Map] keyed by id. *)
Fixpoint device_set (l : list TargetDevice) (row : TargetDevice) : list TargetDevice :=
  match l with
  | [] => [row]
  | d :: l' => if bool_decide (td_id d = td_id row) then row :: l' else d :: device_set l' row
  end.
Definition dedupeTargetDevices (rows : list TargetDevice) : list TargetDevice := fold_left device_set rows [].

Definition nonempty_ids (l : option (list string)) : option (list string) :=
  match l with Some (x :: l') => Some (x :: l') | _ => None end.

Definition resolveTargetDevices (t : Telemetry) (policy : automationPolicyRow) : list TargetDevice :=
  let targets := normalizeTargetConfig (Some (po_targets policy)) in
  let org := filter (λ d, dev_orgId d = po_orgId policy) (devices (config t)) in
  match nonempty_ids (deviceIds targets), nonempty_ids (siteIds targets),
        nonempty_ids (groupIds targets), nonempty_ids (tags targets) with
  | Some ids, _, _, _ => target_device <$> filter (λ d, dev_id d ∈ ids) org
  | None, Some ids, _, _ => target_device <$> filter (λ d, dev_siteId d ∈ ids) org
  | None, None, Some ids, _ =>
      d ← org;
      (λ _, target_device d) <$>
        filter (λ m, mb_deviceId m = dev_id d ∧ mb_groupId m ∈ ids) (memberships (config t))
  | None, None, None, Some ts => target_device <$> filter (λ d, existsb (λ tag, bool_decide (tag ∈ ts)) (dev_tags d)) org
  | None, None, None, None => target_device <$> org
  end.

(** The builders of the maps from device to records: rows in order, one list per device. *)
Definition group_rows {R B} (key : R → string) (f : R → B) (rows : list R) : gmap string (list B) :=
  fold_left (λ m r, <[key r := default [] (m !! key r) ++ [f r]]> m) rows ∅.

Definition buildDiskMap (rows : list diskRow) : gmap string (list DiskRecord) :=
  group_rows di_deviceId (λ r, {| mountPoint := di_mountPoint r; dk_device := di_device r; freeGb := di_freeGb r |}) rows.
Definition buildRegistryStateMap (rows : list registryRow) : gmap string (list RegistryStateRecord) :=
  group_rows rg_deviceId (λ r, {| registryPath := rg_registryPath r; valueName := rg_valueName r;
                                  valueData := rg_valueData r; valueType := rg_valueType r |}) rows.
Definition buildConfigStateMap (rows : list configRow) : gmap string (list ConfigStateRecord) :=
  group_rows co_deviceId (λ r, {| filePath := co_filePath r; configKey := co_configKey r;
                                  configValue := co_configValue r |}) rows.

(** [readString] of a column. *)
Definition read_text (s : option string) : option string := readString (JStr <$> s).

Definition software_key (name : string) (version : option string) : string :=
  normalizeComparable name +:+ ":" +:+ normalizeComparable (default "unknown"%string version).

(** The map and, for each device, the keys already seen. *)
Definition add_software (m : gmap string (list InstalledSoftwareRecord * list string)) (row : softwareRow)
    : gmap string (list InstalledSoftwareRecord * list string) :=
  match read_text (Some (so_name row)) with
  | None => m
  | Some name =>
      let version := read_text (so_version row) in
      let dedupeKey := software_key name version in
      let '(software, existingKeys) := default ([], []) (m !! so_deviceId row) in
      if bool_decide (dedupeKey ∈ existingKeys) then m
      else <[so_deviceId row := (software ++ [{| sw_name := name; sw_version := version |}],
                                 dedupeKey :: existingKeys)]> m
  end.
Definition buildSoftwareMap (rows : list softwareRow) : gmap string (list InstalledSoftwareRecord) :=
  fst <$> fold_left add_software rows ∅.

Definition extractRemediationAutomationId (rs : json) : option string :=
  match rs with
  | JArr l =>
      head (omap (λ rule,
        match rule with
        | JObj _ => or_else (as_string (field "remediationAutomationId" rule))
                            (as_string (field "remediation" rule ≫= field "automationId"))
        | _ => None
        end) l)
  | _ => None
  end.

Definition extractScriptIdFromAction (action : json) : option string :=
  let nonblank v := match as_string v with Some (String _ _ as s) => Some s | _ => None end in
  or_else (nonblank (field "scriptId" action)) (nonblank (field "script_id" action)).

Definition resolvePolicyRemediationAutomationId (w : World) (policy : automationPolicyRow) : option string :=
  match extractRemediationAutomationId (po_rules policy), po_remediationScriptId policy with
  | Some (String _ _ as a), _ => Some a
  | _, Some (String _ _ as script) =>
      head (omap (λ a,
        match at_actions a with
        | JArr actions => if existsb (λ x, bool_decide (extractScriptIdFromAction x = Some script)) actions
                          then Some (at_id a) else None
        | _ => None
        end) (filter (λ a, at_orgId a = po_orgId policy ∧ at_enabled a = true) (autos w)))
  | _, _ => None
  end.

(** ** evaluatePolicy *)

Definition triggerRemediationAutomation (policy : automationPolicyRow) (d : TargetDevice) (status : EvaluationStatus)
    (remediationAutomationId : option string) (w : World) : option Z * World :=
  match status, remediationAutomationId with
  | non_compliant, Some (String _ _ as automationId) =>
      match head (filter (λ a, at_id a = automationId ∧ at_orgId a = po_orgId policy) (autos w)) with
      | Some a =>
          if at_enabled a then
            (Some (nextId w),
             start_run (λ i, {| rn_id := i; rn_automationId := at_id a; rn_configPolicyId := None;
                                rn_configItemName := None; rn_triggeredBy := "policy:" +:+ po_id policy;
                                rn_status := Running; rn_deviceId := td_id d; rn_devicesSucceeded := 0 |})
               (at_id a) w)
          else (None, w)
      | None => (None, w)
      end
  | _, _ => (None, w)
  end.

Definition publishSafely (policy : automationPolicyRow) (d : TargetDevice) (status : EvaluationStatus)
    (source ty : string) (w : World) : World :=
  (publishEvent {| evt_type := ty; evt_orgId := po_orgId policy; evt_deviceId := td_id d;
                   evt_status := status; evt_source := source |} w).2.

Definition publishPolicyEvents (policy : automationPolicyRow) (d : TargetDevice) (status : EvaluationStatus)
    (remediationRunId : option Z) (source : string) (w : World) : World :=
  let publish := publishSafely policy d status source in
  let w := publish "policy.evaluated"%string w in
  match status with
  | non_compliant =>
      let w := publish "policy.violation"%string w in
      match remediationRunId with Some _ => publish "policy.remediation.triggered"%string w | None => w end
  | _ => publish "policy.compliant"%string w
  end.

Record PolicyEvaluationResult := {
  re_deviceId : string; re_hostname : string; re_status : EvaluationStatus;
  re_previousStatus : option RowStatus; re_remediationRunId : option Z }.
Record PolicyEvaluationResponse := {
  rp_policyId : string; rp_devicesEvaluated : nat; rp_results : list PolicyEvaluationResult;
  rp_compliant : nat; rp_non_compliant : nat }.
Record EvaluatePolicyOptions := { opt_source : option string; opt_requestRemediation : option bool }.

(** The context of one device out of the maps. *)
Record ContextMaps := {
  cm_software : gmap string (list InstalledSoftwareRecord); cm_disks : gmap string (list DiskRecord);
  cm_registry : gmap string (list RegistryStateRecord); cm_config : gmap string (list ConfigStateRecord) }.
Definition device_context (m : ContextMaps) (d : TargetDevice) : DeviceEvaluationContext :=
  {| device := d; software := default [] (cm_software m !! td_id d);
     disks := default [] (cm_disks m !! td_id d); registryState := default [] (cm_registry m !! td_id d);
     configState := default [] (cm_config m !! td_id d) |}.

Definition load_context (t : Telemetry) (ids : list string) : ContextMaps :=
  {| cm_software := buildSoftwareMap (filter (λ r, so_deviceId r ∈ ids) (deviceSoftware t)
                      ++ filter (λ r, so_deviceId r ∈ ids) (softwareInventory t));
     cm_disks := buildDiskMap (filter (λ r, di_deviceId r ∈ ids) (deviceDisks t));
     cm_registry := buildRegistryStateMap (filter (λ r, rg_deviceId r ∈ ids) (deviceRegistryState t));
     cm_config := buildConfigStateMap (filter (λ r, co_deviceId r ∈ ids) (deviceConfigState t)) |}.

(** [UPDATE ... SET status, details, last_checked_at WHERE id = i]. *)
Definition update_compliance (i : Z) (status : EvaluationStatus) (details : EvaluationDetails) (w : World)
    : World :=
  set_compliance ((λ r, if bool_decide (pc_id r = i)
                        then {| pc_id := pc_id r; pc_policyId := pc_policyId r;
                                pc_configPolicyId := pc_configPolicyId r;
                                pc_configItemName := pc_configItemName r; pc_deviceId := pc_deviceId r;
                                pc_status := Evaluated status; pc_details := Some details;
                                pc_lastCheckedAt := Some (clock w) |}
                        else r) <$> compliance w) (nextId w) w.
Definition insert_compliance (mk : Z → complianceRow) (w : World) : World :=
  set_compliance (compliance w ++ [mk (nextId w)]) (nextId w + 1) w.

(** One device of the loop. *)
Definition evaluate_device (policy : automationPolicyRow) (parsedRules : ParsedRulesResult) (maps : ContextMaps)
    (existingByDeviceId : gmap string complianceRow) (requestRemediation : bool)
    (remediationAutomationId : option string) (source : string)
    (acc : World * list PolicyEvaluationResult) (d : TargetDevice) : World * list PolicyEvaluationResult :=
  let '(w, results) := acc in
  let existing := existingByDeviceId !! td_id d in
  let evaluation := evaluateDeviceRules parsedRules (device_context maps d) in
  let status := if ev_passed evaluation then compliant else non_compliant in
  let details := {| ed_evaluatedAt := clock w; ed_rules := pr_type <$> rules parsedRules;
                    ed_passed := ev_passed evaluation; ed_ruleResults := ev_details evaluation;
                    ed_source := source; ed_enforcementLevel := None |} in
  let w := match existing with
           | Some row => update_compliance (pc_id row) status details w
           | None => insert_compliance (λ i, {| pc_id := i; pc_policyId := Some (po_id policy);
                       pc_configPolicyId := None; pc_configItemName := None; pc_deviceId := td_id d;
                       pc_status := Evaluated status; pc_details := Some details;
                       pc_lastCheckedAt := Some (clock w) |}) w
           end in
  let '(remediationRunId, w) :=
    if requestRemediation then triggerRemediationAutomation policy d status remediationAutomationId w
    else (None, w) in
  let results := results ++ [{| re_deviceId := td_id d; re_hostname := td_hostname d; re_status := status;
                                re_previousStatus := pc_status <$> existing;
                                re_remediationRunId := remediationRunId |}] in
  (publishPolicyEvents policy d status remediationRunId source w, results).

Definition count_status (s : EvaluationStatus) (results : list PolicyEvaluationResult) : nat :=
  length (filter (λ r, re_status r = s) results).

Definition evaluatePolicy (policy : automationPolicyRow) (options : EvaluatePolicyOptions) (w : World)
    : World * PolicyEvaluationResponse :=
  let source := default "policy-evaluation-service"%string (opt_source options) in
  let requestRemediation := default true (opt_requestRemediation options) in
  let remediationAutomationId :=
    if requestRemediation && bool_decide (po_enforcement policy = "enforce"%string)
    then resolvePolicyRemediationAutomationId w policy else None in
  let targetDevices := dedupeTargetDevices (resolveTargetDevices (data w) policy) in
  let targetDeviceIds := td_id <$> targetDevices in
  let parsedRules := parsePolicyRules (Some (po_rules policy)) in
  let existingByDeviceId : gmap string complianceRow :=
    fold_left (λ m row, <[pc_deviceId row := row]> m)
      (filter (λ r, pc_policyId r = Some (po_id policy) ∧ pc_deviceId r ∈ targetDeviceIds) (compliance w)) ∅ in
  let maps := load_context (data w) targetDeviceIds in
  let '(w, results) :=
    fold_left (evaluate_device policy parsedRules maps existingByDeviceId requestRemediation
                 remediationAutomationId source) targetDevices (w, []) in
  (mark_evaluated (po_id policy) w,
   {| rp_policyId := po_id policy; rp_devicesEvaluated := length targetDevices; rp_results := results;
      rp_compliant := count_status compliant results; rp_non_compliant := count_status non_compliant results |}).

(** ** Configuration policies *)

Record ConfigPolicyEvaluationResult := {
  ce_deviceId : string; ce_complianceRuleId : string; ce_complianceRuleName : string;
  ce_status : EvaluationStatus; ce_enforcementLevel : string; ce_remediationTriggered : bool }.

(** [lastCheckedAt] is a timestamp column, never an invalid date; the interval is an
    integer column. *)
Definition isComplianceCheckDue (lastCheckedAt : option Z) (checkIntervalMinutes nowMs : Z) : bool :=
  match lastCheckedAt with
  | None => true
  | Some last => Z.max 1 checkIntervalMinutes * 60 * 1000 <=? nowMs - last
  end.

Definition evaluateConfigPolicyComplianceRule (complianceRule : complianceRuleRow)
    (context : DeviceEvaluationContext) : EvaluationStatus * list RuleEvaluationDetail :=
  let parsedRules := parsePolicyRules (Some (cr_rules complianceRule)) in
  let evaluation := evaluateDeviceRules parsedRules context in
  (if ev_passed evaluation then compliant else non_compliant, ev_details evaluation).

(** The script an action refers to, here without a test for blank ids. *)
Definition action_script (action : json) : option string :=
  or_else (as_string (field "scriptId" action)) (as_string (field "script_id" action)).

Definition triggerConfigPolicyRemediation (complianceRule : complianceRuleRow) (scriptId : option string)
    (d : TargetDevice) (w : World) : bool * World :=
  match scriptId, find_device (config (data w)) (td_id d) with
  | Some (String _ _ as script), Some row =>
      let candidates := filter (λ a, at_orgId a = dev_orgId row ∧ at_enabled a = true) (autos w) in
      match head (omap (λ a,
              match at_actions a with
              | JArr actions => if existsb (λ x, bool_decide (action_script x = Some script)) actions
                                then Some (at_id a) else None
              | _ => None
              end) candidates) with
      | Some (String _ _ as automationId) =>
          match head (filter (λ a, at_id a = automationId ∧ at_orgId a = dev_orgId row) (autos w)) with
          | Some a =>
              if at_enabled a then
                (true,
                 start_run (λ i, {| rn_id := i; rn_automationId := at_id a;
                                    rn_configPolicyId := Some (cr_featureLinkId complianceRule);
                                    rn_configItemName := Some (cr_name complianceRule);
                                    rn_triggeredBy := "config-policy-compliance:" +:+ cr_id complianceRule;
                                    rn_status := Running; rn_deviceId := td_id d; rn_devicesSucceeded := 0 |})
                   (at_id a) w)
              else (false, w)
          | None => (false, w)
          end
      | _ => (false, w)
      end
  | _, _ => (false, w)
  end.

(** The loop over the raw rules: [details] holds the results that are left, which only
    valid rules consume. *)
Fixpoint remediate_rules (complianceRule : complianceRuleRow) (d : TargetDevice) (rs : list json)
    (details : list RuleEvaluationDetail) (triggered : bool) (w : World) : bool * World :=
  match rs with
  | [] => (triggered, w)
  | r :: rs' =>
      match rule_type r with
      | None => remediate_rules complianceRule d rs' details triggered w
      | Some _ =>
          let det := head details in
          let '(triggered, w) :=
            match field "remediation" r, det with
            | Some (JObj _ as rem), Some det =>
                if passed det then (triggered, w)
                else match as_string (field "scriptId" rem) with
                     | Some scriptId =>
                         if bool_decide (as_string (field "type" rem) = Some "script"%string) then
                           let '(t, w) := triggerConfigPolicyRemediation complianceRule (Some scriptId) d w in
                           (triggered || t, w)
                         else (triggered, w)
                     | None => (triggered, w)
                     end
            | _, _ => (triggered, w)
            end in
          remediate_rules complianceRule d rs' (tail details) triggered w
      end
  end.

(** The events of one rule: the first failure ends the publishing. *)
Definition publish_config_events (orgId deviceId : string) (status : EvaluationStatus) (w : World) : World :=
  let e ty := {| evt_type := ty; evt_orgId := orgId; evt_deviceId := deviceId; evt_status := status;
                 evt_source := "config-policy-compliance" |} in
  let '(ok, w) := publishEvent (e "policy.evaluated"%string) w in
  if ok then
    match status with
    | non_compliant => (publishEvent (e "policy.violation"%string) w).2
    | _ => (publishEvent (e "policy.compliant"%string) w).2
    end
  else w.

(** One compliance rule of the loop. *)
Definition evaluate_config_rule (d : TargetDevice) (orgId : string) (context : DeviceEvaluationContext)
    (acc : World * list ConfigPolicyEvaluationResult) (complianceRule : complianceRuleRow)
    : World * list ConfigPolicyEvaluationResult :=
  let '(w, results) := acc in
  let '(status, ruleDetails) := evaluateConfigPolicyComplianceRule complianceRule context in
  let details := {| ed_evaluatedAt := clock w;
                    ed_rules := pr_type <$> rules (parsePolicyRules (Some (cr_rules complianceRule)));
                    ed_passed := bool_decide (status = compliant); ed_ruleResults := ruleDetails;
                    ed_source := "config-policy-compliance";
                    ed_enforcementLevel := Some (cr_enforcementLevel complianceRule) |} in
  let existing := head (filter (λ r, pc_configPolicyId r = Some (cr_featureLinkId complianceRule) ∧
                                     pc_configItemName r = Some (cr_name complianceRule) ∧
                                     pc_deviceId r = td_id d) (compliance w)) in
  let w := match existing with
           | Some row => update_compliance (pc_id row) status details w
           | None => insert_compliance (λ i, {| pc_id := i; pc_policyId := None;
                       pc_configPolicyId := Some (cr_featureLinkId complianceRule);
                       pc_configItemName := Some (cr_name complianceRule); pc_deviceId := td_id d;
                       pc_status := Evaluated status; pc_details := Some details;
                       pc_lastCheckedAt := Some (clock w) |}) w
           end in
  let '(remediationTriggered, w) :=
    if bool_decide (status = non_compliant) && bool_decide (cr_enforcementLevel complianceRule = "enforce"%string)
    then
      let rulesArray := match cr_rules complianceRule with JArr l => l | _ => [] end in
      let '(triggered, w) := remediate_rules complianceRule d rulesArray ruleDetails false w in
      if negb triggered && truthy (cr_remediationScriptId complianceRule)
      then triggerConfigPolicyRemediation complianceRule (cr_remediationScriptId complianceRule) d w
      else (triggered, w)
    else (false, w) in
  let results := results ++ [{| ce_deviceId := td_id d; ce_complianceRuleId := cr_id complianceRule;
                                ce_complianceRuleName := cr_name complianceRule; ce_status := status;
                                ce_enforcementLevel := cr_enforcementLevel complianceRule;
                                ce_remediationTriggered := remediationTriggered |}] in
  (publish_config_events orgId (td_id d) status w, results).

Definition evaluateDeviceComplianceFromConfigPolicy (deviceId : string) (ruleIds : list string) (w : World)
    : World * list ConfigPolicyEvaluationResult :=
  let resolvedRules := resolveComplianceRulesForDevice (config (data w)) deviceId in
  let selected := match ruleIds with
                  | [] => resolvedRules
                  | _ => filter (λ r, cr_id r ∈ ruleIds) resolvedRules end in
  match selected, find_device (config (data w)) deviceId with
  | _ :: _, Some row =>
      let d := target_device row in
      let context := device_context (load_context (data w) [deviceId]) d in
      fold_left (evaluate_config_rule d (dev_orgId row) context) selected (w, [])
  | _, _ => (w, [])
  end.

(** The due rules of every device, devices and rules in the order they were found. *)
Definition add_due (deviceId ruleId : string) (m : list (string * list string)) : list (string * list string) :=
  if bool_decide (deviceId ∈ m.*1)
  then (λ e, if bool_decide (e.1 = deviceId) then (e.1, add_id e.2 ruleId) else e) <$> m
  else m ++ [(deviceId, [ruleId])].

(** The last row found for the device decides when it was last checked. *)
Definition last_checked (rows : list complianceRow) (check : ComplianceRuleWithTarget) (deviceId : string)
    : option Z :=
  last (filter (λ r, pc_policyId r = None ∧
                     pc_configPolicyId r = Some (cr_featureLinkId (cw_complianceRule check)) ∧
                     pc_configItemName r = Some (cr_name (cw_complianceRule check)) ∧
                     pc_deviceId r = deviceId) rows) ≫= pc_lastCheckedAt.

Definition collect_due (w : World) : list (string * list string) :=
  fold_left (λ m check,
    fold_left (λ m deviceId,
      if isComplianceCheckDue (last_checked (compliance w) check deviceId)
           (cr_checkIntervalMinutes (cw_complianceRule check)) (clock w)
      then add_due deviceId (cr_id (cw_complianceRule check)) m else m)
      (resolveDevicesForAssignmentTarget (config (data w)) (cw_assignmentLevel check)
         (cw_assignmentTargetId check)) m)
    (scanDueComplianceChecks (config (data w))) [].

Record ScanResult := {
  sc_rulesScanned : nat; sc_devicesEvaluated : nat; sc_results : list ConfigPolicyEvaluationResult }.

(** No evaluation of a device throws in this model. *)
Definition scanAndEvaluateConfigPolicyCompliance (w : World) : World * ScanResult :=
  let dueChecks := scanDueComplianceChecks (config (data w)) in
  let due := collect_due w in
  let '(w, results) :=
    fold_left (λ acc e, let '(w, all) := acc in
                        let '(w, rs) := evaluateDeviceComplianceFromConfigPolicy e.1 e.2 w in
                        (w, all ++ rs)) due (w, []) in
  (w, {| sc_rulesScanned := length dueChecks; sc_devicesEvaluated := length due; sc_results := results |}).
