(* ===== verification/PolicySafety.v ===== *)
(** * What policy evaluation guarantees

    One compliance row for each target device with the verdict of the rules, other rows
    untouched; remediation only where the policy enforces, on the devices that failed and
    with an enabled automation of the same organisation; remediation scripts of
    configuration policies matched with the rules that failed. *)

From S2P Require Import Prelude JsNum Json ConfigPolicy PolicyRules PolicyEvaluation.

Open Scope Z_scope.

(** ** Compliance rows *)

Definition key (pid did : string) (r : complianceRow) : Prop :=
  pc_policyId r = Some pid ∧ pc_deviceId r = did.
#[export] Instance key_dec pid did r : Decision (key pid did r).
Proof. unfold key. apply _. Defined.

Definition key_in (pid : string) (dids : list string) (r : complianceRow) : Prop :=
  pc_policyId r = Some pid ∧ pc_deviceId r ∈ dids.
#[export] Instance key_in_dec pid dids r : Decision (key_in pid dids r).
Proof. unfold key_in. apply _. Defined.

Definition rows_of (rows : list complianceRow) (pid did : string) : list complianceRow :=
  filter (key pid did) rows.

(** Ids are a primary key and the next ones are new. *)
Definition ids_ok (rows : list complianceRow) (next : Z) : Prop :=
  NoDup (pc_id <$> rows) ∧ Forall (λ r, pc_id r < next) rows.

Definition set_row (i : Z) (f : complianceRow → complianceRow) (r : complianceRow) : complianceRow :=
  if bool_decide (pc_id r = i) then f r else r.

Section updates.
Context (f : complianceRow → complianceRow) (pid did : string).
Context (f_id : ∀ r, pc_id (f r) = pc_id r).
Context (f_key : ∀ p d r, key p d (f r) ↔ key p d r).

Lemma set_row_id i r : pc_id (set_row i f r) = pc_id r.
Proof using f_id. unfold set_row. by case_bool_decide. Qed.
Lemma set_row_key i p d r : key p d (set_row i f r) ↔ key p d r.
Proof using f_key. unfold set_row. by case_bool_decide. Qed.

Lemma ids_ok_update i rows n : ids_ok rows n → ids_ok (set_row i f <$> rows) n.
Proof using f_id.
  intros [Hn Hb]. split.
  - rewrite <- list_fmap_compose. erewrite list_fmap_ext; [exact Hn|]. intros j r _. apply set_row_id.
  - apply Forall_fmap. eapply Forall_impl; [exact Hb|]. intros r Hr. simpl. by rewrite set_row_id.
Qed.

Lemma rows_of_update i rows p d : rows_of (set_row i f <$> rows) p d = set_row i f <$> rows_of rows p d.
Proof using f_key.
  unfold rows_of. induction rows as [|r rows IH]; [done|]. rewrite fmap_cons, !filter_cons, IH.
  pose proof (set_row_key i p d r).
  destruct (decide (key p d (set_row i f r))), (decide (key p d r)); (done || tauto).
Qed.

(** Rows with another key keep their content. *)
Lemma update_frame rows n row :
  ids_ok rows n → row ∈ rows → key pid did row →
  filter (λ r, ¬ key pid did r) (set_row (pc_id row) f <$> rows) = filter (λ r, ¬ key pid did r) rows.
Proof using f_key.
  intros [Hn _] Hrow Hk.
  assert (∀ r, r ∈ rows → pc_id r = pc_id row → r = row) as Hinj.
  { intros r Hr Hid. apply list_elem_of_lookup_1 in Hr as [i Hi], Hrow as [j Hj].
    assert (i = j) as ->; [|congruence].
    eapply (NoDup_lookup (pc_id <$> rows)); [exact Hn | rewrite list_lookup_fmap, Hi; done |].
    rewrite list_lookup_fmap, Hj. simpl. by rewrite Hid. }
  clear Hn Hrow. induction rows as [|r rows IH]; [done|]. rewrite fmap_cons, !filter_cons.
  rewrite IH by (intros; apply Hinj; [by right|done]).
  pose proof (set_row_key (pc_id row) pid did r) as Hkr.
  destruct (decide (¬ key pid did (set_row (pc_id row) f r))) as [H1|H1],
    (decide (¬ key pid did r)) as [H2|H2].
  2: { exfalso. apply H2. intros Hk'. by apply H1, Hkr. }
  2: { exfalso. apply H1. intros Hk'. by apply H2, Hkr. }
  2: done.
  f_equal. unfold set_row. case_bool_decide as Hid; [|done].
  apply Hinj in Hid as ->; [by destruct H2 | left].
Qed.
End updates.

Lemma ids_ok_insert rows n r : ids_ok rows n → pc_id r = n → ids_ok (rows ++ [r]) (n + 1).
Proof.
  intros [Hn Hb] Hid. split.
  - rewrite fmap_app. simpl. apply NoDup_app. split_and!; [done| |apply NoDup_singleton].
    intros x Hx Hx'. apply list_elem_of_singleton in Hx' as ->. rewrite Hid in Hx.
    apply list_elem_of_fmap in Hx as (r' & Hr' & Hin). rewrite Forall_forall in Hb. specialize (Hb r' Hin). lia.
  - apply Forall_app. split; [|by constructor; [lia|]].
    eapply Forall_impl; [exact Hb|]. intros x Hx. simpl in Hx. lia.
Qed.

(** ** Steps that leave the tables alone *)

Record same_tables (w w' : World) : Prop := {
  st_data : data w' = data w; st_compliance : compliance w' = compliance w;
  st_autos : autos w' = autos w; st_runs : runs w' = runs w; st_next : nextId w' = nextId w;
  st_clock : clock w' = clock w }.

Lemma same_tables_refl w : same_tables w w.
Proof. done. Qed.
Lemma same_tables_trans w1 w2 w3 : same_tables w1 w2 → same_tables w2 w3 → same_tables w1 w3.
Proof. intros [] []. split; congruence. Qed.

Lemma publishEvent_same e w : same_tables w (publishEvent e w).2.
Proof. done. Qed.

Lemma publishPolicyEvents_same policy d status run source w :
  same_tables w (publishPolicyEvents policy d status run source w).
Proof. unfold publishPolicyEvents. by destruct status, run. Qed.

(** What a run may use of an automation does not change. *)
Definition auto_static (a : autoRow) : string * string * bool := (at_id a, at_orgId a, at_enabled a).

Lemma start_run_static mk i w : auto_static <$> autos (start_run mk i w) = auto_static <$> autos w.
Proof.
  simpl. rewrite <- list_fmap_compose. apply list_fmap_ext. intros j a _. simpl. by case_bool_decide.
Qed.

Definition legitimate_run (policy : automationPolicyRow) (statics : list (string * string * bool)) (did : string)
    (r : runRow) : Prop :=
  rn_deviceId r = did ∧ rn_status r = Running ∧ (rn_automationId r, po_orgId policy, true) ∈ statics ∧
  rn_triggeredBy r = "policy:" +:+ po_id policy.

(** What starting a remediation, or not, leaves behind. *)
Definition triggered_ok (policy : automationPolicyRow) (d : TargetDevice) (status : EvaluationStatus)
    (aid : option string) (w w' : World) : Prop :=
  data w' = data w ∧ compliance w' = compliance w ∧ clock w' = clock w ∧ nextId w <= nextId w' ∧
  auto_static <$> autos w' = auto_static <$> autos w ∧
  (runs w' = runs w ∨
   (status = non_compliant ∧ is_Some aid ∧ ∃ r, runs w' = runs w ++ [r] ∧
    legitimate_run policy (auto_static <$> autos w) (td_id d) r)).

Lemma triggered_ok_skip policy d status aid w : triggered_ok policy d status aid w w.
Proof. repeat split; try done. by left. Qed.

Lemma trigger_spec policy d status aid w :
  triggered_ok policy d status aid w (triggerRemediationAutomation policy d status aid w).2.
Proof.
  unfold triggerRemediationAutomation. pose proof (triggered_ok_skip policy d status aid w) as Hskip.
  destruct status; try done. destruct aid as [[|ch s]|]; try done.
  destruct (head _) as [a|] eqn:Ea; [|done]. destruct (at_enabled a) eqn:En; [|done].
  apply head_filter_Some in Ea as [[Hid Horg] Hin]. simpl.
  split_and!; try done; [simpl; lia | apply start_run_static |]. right. split; [done|]. split; [done|].
  eexists. split; [done|]. repeat split; try done. simpl. apply list_elem_of_fmap. exists a.
  split; [|done]. unfold auto_static. congruence.
Qed.

(** ** One device *)

Section policy.
Context (policy : automationPolicyRow) (parsed : ParsedRulesResult) (maps : ContextMaps)
  (existing : gmap string complianceRow) (req : bool) (aid : option string) (source : string).

Local Abbreviation pid := (po_id policy).
Local Abbreviation step := (evaluate_device policy parsed maps existing req aid source).

Definition evaluation (d : TargetDevice) : DeviceRuleEvaluation :=
  evaluateDeviceRules parsed (device_context maps d).
Definition verdict (d : TargetDevice) : EvaluationStatus :=
  if ev_passed (evaluation d) then compliant else non_compliant.

(** The rows read before the loop are those of the table. *)
Definition agrees (rows : list complianceRow) (d : TargetDevice) : Prop :=
  rows_of rows pid (td_id d) = match existing !! td_id d with Some row => [row] | None => [] end.

(** The table holds one row with the verdict and the details of the device. *)
Definition recorded (rows : list complianceRow) (d : TargetDevice) : Prop :=
  ∃ r det, rows_of rows pid (td_id d) = [r] ∧ pc_status r = Evaluated (verdict d) ∧
    pc_details r = Some det ∧ ed_ruleResults det = ev_details (evaluation d).

Record step_ok (d : TargetDevice) (w w' : World) (results results' : list PolicyEvaluationResult) : Prop := {
  so_ids : ids_ok (compliance w') (nextId w');
  so_frame : filter (λ r, ¬ key pid (td_id d) r) (compliance w')
             = filter (λ r, ¬ key pid (td_id d) r) (compliance w);
  so_recorded : recorded (compliance w') d;
  so_static : auto_static <$> autos w' = auto_static <$> autos w;
  so_runs : runs w' = runs w ∨
    (req = true ∧ verdict d = non_compliant ∧ is_Some aid ∧ ∃ r, runs w' = runs w ++ [r] ∧
     legitimate_run policy (auto_static <$> autos w) (td_id d) r);
  so_results : ∃ res, results' = results ++ [res] ∧ re_deviceId res = td_id d ∧ re_status res = verdict d }.

(** The upsert. *)
Lemma upsert_ok d w det :
  ids_ok (compliance w) (nextId w) → agrees (compliance w) d →
  ed_ruleResults det = ev_details (evaluation d) →
  let w' := match existing !! td_id d with
            | Some row => update_compliance (pc_id row) (verdict d) det w
            | None => insert_compliance (λ i, {| pc_id := i; pc_policyId := Some pid;
                       pc_configPolicyId := None; pc_configItemName := None; pc_deviceId := td_id d;
                       pc_status := Evaluated (verdict d); pc_details := Some det;
                       pc_lastCheckedAt := Some (clock w) |}) w
            end in
  ids_ok (compliance w') (nextId w') ∧
  filter (λ r, ¬ key pid (td_id d) r) (compliance w') = filter (λ r, ¬ key pid (td_id d) r) (compliance w) ∧
  recorded (compliance w') d ∧ autos w' = autos w ∧ runs w' = runs w ∧ clock w' = clock w.
Proof.
  intros Hids Hag Hdet. unfold agrees in Hag. destruct (existing !! td_id d) as [row|]; simpl.
  - assert (row ∈ compliance w ∧ key pid (td_id d) row) as [Hin Hk].
    { assert (row ∈ rows_of (compliance w) pid (td_id d)) as [? ?]%list_elem_of_filter
        by (rewrite Hag; left). done. }
    set (f := λ r, {| pc_id := pc_id r; pc_policyId := pc_policyId r;
      pc_configPolicyId := pc_configPolicyId r; pc_configItemName := pc_configItemName r;
      pc_deviceId := pc_deviceId r; pc_status := Evaluated (verdict d); pc_details := Some det;
      pc_lastCheckedAt := Some (clock w) |}).
    change (λ r, if bool_decide (pc_id r = pc_id row) then _ else r) with (set_row (pc_id row) f).
    split_and!; try done.
    + by apply ids_ok_update.
    + by eapply update_frame.
    + exists (f row), det. split_and!; try done. rewrite rows_of_update by done.
      rewrite Hag. simpl. unfold set_row. by rewrite bool_decide_true.
  - split_and!; try done.
    + by apply ids_ok_insert.
    + rewrite filter_app, filter_cons_False, filter_nil, app_nil_r by (intros Hn; by apply Hn). done.
    + eexists _, det. unfold rows_of in *. rewrite filter_app, Hag, filter_cons_True by done.
      split; [reflexivity|]. by split_and!.
Qed.

Lemma evaluate_device_ok d w results :
  ids_ok (compliance w) (nextId w) → agrees (compliance w) d →
  step_ok d w (step (w, results) d).1 results (step (w, results) d).2.
Proof.
  intros Hids Hag. unfold evaluate_device. fold (evaluation d). fold (verdict d).
  set (det := {| ed_evaluatedAt := _ |}).
  destruct (upsert_ok d w det Hids Hag eq_refl) as (H1 & H2 & H3 & H4 & H5 & H6).
  set (w1 := match existing !! td_id d with Some _ => _ | None => _ end) in *.
  assert (triggered_ok policy d (verdict d) (if req then aid else None) w1
    (if req then triggerRemediationAutomation policy d (verdict d) aid w1 else (None, w1)).2) as Ht.
  { destruct req; [apply trigger_spec | apply triggered_ok_skip]. }
  destruct (if req then triggerRemediationAutomation policy d (verdict d) aid w1 else (None, w1))
    as [run w2]. simpl in Ht.
  destruct Ht as (T1 & T2 & T3 & T4 & T5 & T6). simpl.
  destruct (publishPolicyEvents_same policy d (verdict d) run source w2) as [P1 P2 P3 P4 P5 P6].
  split; rewrite ?P2, ?P3, ?P4, ?P5, ?T2, ?T5, ?H4; try done.
  - destruct H1 as [Hn Hb]. split; [done|]. eapply Forall_impl; [exact Hb|]. intros r Hr. simpl in Hr. lia.
  - rewrite <- H5. destruct T6 as [T6|(Hs & Ha & r & Hr & Hl)]; [by left|]. right.
    destruct req; [|by destruct Ha]. rewrite H4 in Hl. split_and!; try done. by exists r.
  - by eexists.
Qed.
(** ** The loop *)

Record loop_ok (ds : list TargetDevice) (w w' : World) (results results' : list PolicyEvaluationResult)
    : Prop := {
  lo_ids : ids_ok (compliance w') (nextId w');
  lo_frame : filter (λ r, ¬ key_in pid (td_id <$> ds) r) (compliance w')
             = filter (λ r, ¬ key_in pid (td_id <$> ds) r) (compliance w);
  lo_recorded : ∀ d, d ∈ ds → recorded (compliance w') d;
  lo_static : auto_static <$> autos w' = auto_static <$> autos w;
  lo_runs : ∃ new, runs w' = runs w ++ new ∧ (length new ≤ length ds)%nat ∧
    Forall (λ r, req = true ∧ is_Some aid ∧ ∃ d, d ∈ ds ∧ verdict d = non_compliant ∧
                 legitimate_run policy (auto_static <$> autos w) (td_id d) r) new;
  lo_results : (λ r, (re_deviceId r, re_status r)) <$> results'
               = ((λ r, (re_deviceId r, re_status r)) <$> results) ++ ((λ d, (td_id d, verdict d)) <$> ds) }.

(** A frame for some rows is one for fewer. *)
Lemma frame_weaken (P Q : complianceRow → Prop) `{!∀ r, Decision (P r)} `{!∀ r, Decision (Q r)}
    (rows rows' : list complianceRow) :
  (∀ r, P r → Q r) → filter Q rows' = filter Q rows → filter P rows' = filter P rows.
Proof.
  intros HPQ HQ.
  assert (∀ l : list complianceRow, filter P l = filter P (filter Q l)) as Hf.
  { intros l. rewrite list_filter_filter. apply list_filter_iff. intros r. naive_solver. }
  by rewrite (Hf rows'), HQ, <- Hf.
Qed.

Lemma step_keeps_rows d w w' results results' did :
  step_ok d w w' results results' → did ≠ td_id d →
  rows_of (compliance w') pid did = rows_of (compliance w) pid did.
Proof.
  intros Hs Hne. unfold rows_of. eapply frame_weaken, (so_frame _ _ _ _ _ Hs).
  intros r [Hp Hd] [_ Hd']. congruence.
Qed.

Lemma loop_spec ds w results :
  NoDup (td_id <$> ds) → ids_ok (compliance w) (nextId w) → (∀ d, d ∈ ds → agrees (compliance w) d) →
  loop_ok ds w (fold_left step ds (w, results)).1 results (fold_left step ds (w, results)).2.
Proof.
  revert w results. induction ds as [|d ds IH]; intros w results Hnd Hids Hag.
  { split; simpl; try done; [set_solver | exists []; by rewrite app_nil_r | by rewrite app_nil_r]. }
  rewrite fmap_cons in Hnd. apply NoDup_cons in Hnd as [Hd Hnd].
  change (fold_left step (d :: ds) (w, results)) with (fold_left step ds (step (w, results) d)).
  pose proof (evaluate_device_ok d w results Hids (Hag d ltac:(left))) as Hs.
  destruct (step (w, results) d) as [w1 results1]. simpl in Hs.
  assert (∀ d', d' ∈ ds → td_id d' ≠ td_id d) as Hne.
  { intros d' Hd' Heq. apply Hd. rewrite <- Heq. apply list_elem_of_fmap. eauto. }
  destruct (IH w1 results1 Hnd (so_ids _ _ _ _ _ Hs)) as [L1 L2 L3 L4 (new & L5 & L6 & L7) L8].
  { intros d' Hd'. unfold agrees. rewrite (step_keeps_rows _ _ _ _ _ _ Hs) by auto. apply Hag. by right. }
  set (w2 := (fold_left step ds (w1, results1)).1) in *.
  assert (rows_of (compliance w2) pid (td_id d) = rows_of (compliance w1) pid (td_id d)) as Hkeep.
  { unfold rows_of. eapply frame_weaken, L2. intros r [_ Hr] [_ Hin]. rewrite Hr in Hin. done. }
  destruct (so_results _ _ _ _ _ Hs) as (res & -> & R1 & R2).
  split.
  - exact L1.
  - etrans; [eapply frame_weaken, L2 | eapply frame_weaken, (so_frame _ _ _ _ _ Hs)];
      intros r Hr [Hp Hin]; apply Hr; split; try done; simpl; [by right | rewrite Hin; left].
  - intros d' [->|Hd']%elem_of_cons; [|by apply L3].
    destruct (so_recorded _ _ _ _ _ Hs) as (r & det & Hr & ?). exists r, det. by rewrite Hkeep, Hr.
  - by rewrite L4, (so_static _ _ _ _ _ Hs).
  - rewrite L5. rewrite (so_static _ _ _ _ _ Hs) in L7.
    destruct (so_runs _ _ _ _ _ Hs) as [->|(Hq & Hv & Ha & r & -> & Hl)].
    + exists new. split_and!; [done | simpl; lia |]. eapply Forall_impl; [exact L7|]. simpl.
      intros r (? & ? & d' & ? & ?). split_and!; try done. exists d'. split; [by right|done].
    + exists (r :: new). split_and!; [by rewrite <- app_assoc | simpl; lia |]. constructor.
      * split_and!; try done. exists d. split; [left|done].
      * eapply Forall_impl; [exact L7|]. simpl. intros r' (? & ? & d' & ? & ?). split_and!; try done.
        exists d'. split; [by right|done].
  - rewrite L8, fmap_app. simpl. rewrite R1, R2, <- app_assoc. done.
Qed.
End policy.

(** ** evaluatePolicy *)

Lemma device_set_ids l row :
  td_id <$> device_set l row = if bool_decide (td_id row ∈ td_id <$> l) then td_id <$> l else (td_id <$> l) ++ [td_id row].
Proof.
  induction l as [|d l IH]; [done|]. cbn [device_set]. rewrite fmap_cons.
  destruct (decide (td_id d = td_id row)) as [Hd|Hd].
  - rewrite (bool_decide_true (td_id d = _)) by done. rewrite bool_decide_true by (rewrite Hd; left).
    by rewrite fmap_cons, Hd.
  - rewrite (bool_decide_false (td_id d = _)) by done. rewrite fmap_cons, IH.
    case_bool_decide as H1; case_bool_decide as H2; try done; exfalso; set_solver.
Qed.

Lemma dedupe_ids rows acc :
  NoDup (td_id <$> acc) → NoDup (td_id <$> fold_left device_set rows acc).
Proof.
  revert acc. induction rows as [|r rows IH]; intros acc Ha; [done|]. simpl. apply IH.
  rewrite device_set_ids. case_bool_decide; [done|]. apply NoDup_app.
  split_and!; [done | set_solver | apply NoDup_singleton].
Qed.

Definition policy_targets (w : World) (policy : automationPolicyRow) : list TargetDevice :=
  dedupeTargetDevices (resolveTargetDevices (data w) policy).

Lemma policy_targets_NoDup w policy : NoDup (td_id <$> policy_targets w policy).
Proof. unfold policy_targets, dedupeTargetDevices. apply dedupe_ids. constructor. Qed.

(** At most one row for a policy and a device. *)
Definition one_row_each (policyId : string) (rows : list complianceRow) : Prop :=
  ∀ did, (length (rows_of rows policyId did) ≤ 1)%nat.

Lemma existing_agrees policyId rows ids did :
  one_row_each policyId rows → did ∈ ids →
  rows_of rows policyId did =
  match (fold_left (λ m row, <[pc_deviceId row := row]> m)
           (filter (λ r, pc_policyId r = Some policyId ∧ pc_deviceId r ∈ ids) rows)
           (∅ : gmap string complianceRow)) !! did with
  | Some row => [row] | None => [] end.
Proof.
  intros H1 Hin. rewrite (fold_insert_last pc_deviceId). unfold last_with.
  rewrite list_filter_filter. rewrite (list_filter_iff _ (key policyId did)).
  2: { unfold key. intros r. split; [naive_solver|]. intros [-> <-]. done. }
  specialize (H1 did). fold (rows_of rows policyId did).
  destruct (rows_of rows policyId did) as [|r [|r' l]]; simpl in *; try done. lia.
Qed.

Record policy_evaluated (policy : automationPolicyRow) (opts : EvaluatePolicyOptions) (w w' : World)
    (resp : PolicyEvaluationResponse) : Prop := {
  pe_loop : loop_ok policy (parsePolicyRules (Some (po_rules policy)))
              (load_context (data w) (td_id <$> policy_targets w policy))
              (default true (opt_requestRemediation opts))
              (if default true (opt_requestRemediation opts) && bool_decide (po_enforcement policy = "enforce"%string)
               then resolvePolicyRemediationAutomationId w policy else None)
              (policy_targets w policy) w w' [] (rp_results resp);
  pe_count : rp_devicesEvaluated resp = length (policy_targets w policy);
  pe_compliant : rp_compliant resp = count_status compliant (rp_results resp);
  pe_non_compliant : rp_non_compliant resp = count_status non_compliant (rp_results resp) }.

Lemma evaluatePolicy_ok policy opts w :
  ids_ok (compliance w) (nextId w) → one_row_each (po_id policy) (compliance w) →
  policy_evaluated policy opts w (evaluatePolicy policy opts w).1 (evaluatePolicy policy opts w).2.
Proof.
  intros Hids H1. unfold evaluatePolicy. fold (policy_targets w policy).
  match goal with |- context [fold_left (evaluate_device ?p ?a ?b ?c ?d ?e ?f) ?l ?i] =>
    pose proof (loop_spec p a b c d e f (policy_targets w policy) w [] (policy_targets_NoDup w policy) Hids)
      as Hl end.
  match goal with |- context [fold_left ?g ?l (w, [])] => destruct (fold_left g l (w, [])) as [w2 results] end.
  simpl in Hl. split; try done. simpl. destruct Hl as [L1 L2 L3 L4 L5 L6]; [|by split].
  intros d Hd. unfold agrees. apply existing_agrees; [done|]. apply list_elem_of_fmap. eauto.
Qed.

(** (evaluatePolicy): after an evaluation every target device has exactly one
    compliance row of the policy, with the verdict and the details of its rules on what
    the device reported; the rows of other policies, of configuration policies and of
    devices that are not targeted are as before; and the response lists each target once
    with its verdict, its two counts adding up to the number of devices. *)
Theorem evaluatePolicy_records policy opts w :
  ids_ok (compliance w) (nextId w) → one_row_each (po_id policy) (compliance w) →
  let w' := (evaluatePolicy policy opts w).1 in
  let resp := (evaluatePolicy policy opts w).2 in
  let targets := policy_targets w policy in
  let parsed := parsePolicyRules (Some (po_rules policy)) in
  let maps := load_context (data w) (td_id <$> targets) in
  (∀ d, d ∈ targets → recorded policy parsed maps (compliance w') d) ∧
  filter (λ r, ¬ key_in (po_id policy) (td_id <$> targets) r) (compliance w')
    = filter (λ r, ¬ key_in (po_id policy) (td_id <$> targets) r) (compliance w) ∧
  (λ r, (re_deviceId r, re_status r)) <$> rp_results resp = (λ d, (td_id d, verdict parsed maps d)) <$> targets ∧
  (rp_compliant resp + rp_non_compliant resp)%nat = rp_devicesEvaluated resp.
Proof.
  intros Hids H1. destruct (evaluatePolicy_ok policy opts w Hids H1) as [[L1 L2 L3 L4 L5 L6] P1 P2 P3].
  split_and!; [done | done | done |]. rewrite P1, P2, P3. clear -L6. simpl in L6.
  assert (length (rp_results (evaluatePolicy policy opts w).2) = length (policy_targets w policy)) as <-.
  { apply (f_equal length) in L6. by rewrite !length_fmap in L6. }
  assert (Forall (λ r, re_status r = compliant ∨ re_status r = non_compliant) (rp_results (evaluatePolicy policy opts w).2)) as Hall.
  { apply Forall_forall. intros r Hr.
    assert ((re_deviceId r, re_status r) ∈ (λ r, (re_deviceId r, re_status r)) <$> rp_results (evaluatePolicy policy opts w).2)
      as Hin by (apply list_elem_of_fmap; eauto).
    rewrite L6 in Hin. apply list_elem_of_fmap in Hin as (d & [= _ ->] & _). unfold verdict.
    destruct (ev_passed _); auto. }
  clear L6. induction Hall as [|r l Hr Hl IH]; [done|]. unfold count_status in *. rewrite !filter_cons.
  destruct Hr as [Hr|Hr]; rewrite Hr; simpl; lia.
Qed.

(** (triggerRemediationAutomation in evaluatePolicy): an evaluation starts a
    remediation run only when the policy enforces and remediation is requested, at most
    one for each target device, only for devices found non-compliant, and only with an
    enabled automation of the policy's own organisation; existing runs are kept. *)
Theorem evaluatePolicy_remediation policy opts w :
  ids_ok (compliance w) (nextId w) → one_row_each (po_id policy) (compliance w) →
  let w' := (evaluatePolicy policy opts w).1 in
  let targets := policy_targets w policy in
  let parsed := parsePolicyRules (Some (po_rules policy)) in
  let maps := load_context (data w) (td_id <$> targets) in
  ∃ new, runs w' = runs w ++ new ∧ (length new ≤ length targets)%nat ∧
    Forall (λ r, po_enforcement policy = "enforce"%string ∧ opt_requestRemediation opts ≠ Some false ∧
      (∃ d, d ∈ targets ∧ rn_deviceId r = td_id d ∧ verdict parsed maps d = non_compliant) ∧
      (∃ a, a ∈ autos w ∧ at_id a = rn_automationId r ∧ at_orgId a = po_orgId policy ∧ at_enabled a = true)) new.
Proof.
  intros Hids H1. destruct (evaluatePolicy_ok policy opts w Hids H1) as [[_ _ _ _ (new & L5 & L6 & L7) _] _ _ _].
  exists new. split_and!; [done|done|]. eapply Forall_impl; [exact L7|]. simpl.
  intros r (Hq & Ha & d & Hd & Hv & (Hdev & _ & Hin & _)). split_and!.
  - rewrite Hq in Ha. simpl in Ha. by case_bool_decide; [|destruct Ha].
  - intros Hf. by rewrite Hf in Hq.
  - eauto.
  - apply list_elem_of_fmap in Hin as (a & Heq & Hin). unfold auto_static in Heq. simplify_eq. eauto.
Qed.

(** ** Remediation of configuration policies *)

(** The script a rule asks to run when it fails. *)
Definition script_remediation (r : json) : option string :=
  match field "remediation" r with
  | Some (JObj _ as rem) =>
      if bool_decide (as_string (field "type" rem) = Some "script"%string)
      then as_string (field "scriptId" rem) else None
  | _ => None
  end.

(** The scripts of the rules that fail, in order. *)
Definition failed_scripts (ctx : DeviceEvaluationContext) (l : list json) : list string :=
  omap (λ r, t ← rule_type r;
             if passed (evaluateRule {| pr_type := t; pr_raw := r |} ctx) then None
             else script_remediation r) l.

Definition run_scripts (cr : complianceRuleRow) (d : TargetDevice) (scripts : list string)
    (acc : bool * World) : bool * World :=
  fold_left (λ acc s, let '(t, w) := triggerConfigPolicyRemediation cr (Some s) d acc.2 in (acc.1 || t, w))
    scripts acc.

#[local] Arguments triggerConfigPolicyRemediation : simpl never.

Lemma remediate_rules_run cr d ctx l extra t w :
  remediate_rules cr d l (((λ rule, evaluateRule rule ctx) <$> PolicyRules.parsed l) ++ extra) t w
  = run_scripts cr d (failed_scripts ctx l) (t, w).
Proof.
  revert t w. induction l as [|r l IH]; intros t w; [done|].
  cbn [remediate_rules]. unfold PolicyRules.parsed, failed_scripts. cbn [omap list_omap].
  destruct (rule_type r) as [ty|]; [|apply IH]. simpl. fold (PolicyRules.parsed l). fold (failed_scripts ctx l).
  unfold script_remediation.
  destruct (field "remediation" r) as [[]|]; try (destruct (passed _); apply IH).
  destruct (passed _); [apply IH|]. destruct (as_string (field "scriptId" _)) as [sid|];
    case_bool_decide; try apply IH. simpl.
  destruct (triggerConfigPolicyRemediation _ _ _ _) as [t' w']. apply IH.
Qed.

(** (the remediation loop of evaluateDeviceComplianceFromConfigPolicy): although it
    walks the raw rules and the results with separate indices, the loop runs exactly the
    scripts of the rules that failed, in order; invalid entries do not shift the results. *)
Theorem remediation_matches_failures cr d ctx l w :
  remediate_rules cr d l
    (evaluateConfigPolicyComplianceRule
       {| cr_id := cr_id cr; cr_featureLinkId := cr_featureLinkId cr; cr_name := cr_name cr;
          cr_rules := JArr l; cr_enforcementLevel := cr_enforcementLevel cr;
          cr_checkIntervalMinutes := cr_checkIntervalMinutes cr;
          cr_remediationScriptId := cr_remediationScriptId cr; cr_sortOrder := cr_sortOrder cr |} ctx).2
    false w
  = run_scripts cr d (failed_scripts ctx l) (false, w).
Proof.
  destruct l as [|r l]; [done|]. unfold evaluateConfigPolicyComplianceRule. cbn [cr_rules snd].
  rewrite parse_rules_array. fold (PolicyRules.parsed (r :: l)). unfold evaluateDeviceRules.
  cbn [inputHadArray inputLength length Nat.eqb negb ev_details invalidCount rules].
  case_match; [apply remediate_rules_run|].
  rewrite <- (remediate_rules_run cr d ctx (r :: l) []). by rewrite app_nil_r.
Qed.

(** ** A concrete run *)

Module Example1.
Open Scope string_scope.
Definition dev (i org : string) : deviceRow :=
  {| dev_id := i; dev_orgId := org; dev_siteId := "hq"; dev_hostname := i; dev_role := "workstation";
     dev_osType := "windows"; dev_osVersion := "10.0"; dev_displayName := None; dev_status := "online"; dev_lastSeenAt := None;
       dev_mtlsCertExpiresAt := None; dev_tags := [] |}.
Definition cfg : ConfigDb :=
  {| devices := [dev "pc1" "org"; dev "pc2" "org"; dev "other" "org2"]; organizations := [];
     partners := []; sites := []; memberships := []; assignments := []; policies := []; links := [];
     alertRules := []; automations := []; complianceRules := []; patchSettings := [];
     backupSettings := []; maintenanceSettings := [] |}.
Definition w : World :=
  {| data := {| config := cfg; deviceDisks := [];
                deviceSoftware := [{| so_deviceId := "pc1"; so_name := "Acme Agent"; so_version := Some "2.1" |}];
                softwareInventory := []; deviceRegistryState := []; deviceConfigState := [] |};
     compliance := [{| pc_id := 1; pc_policyId := Some "pol"; pc_configPolicyId := None;
                       pc_configItemName := None; pc_deviceId := "pc1"; pc_status := Pending;
                       pc_details := None; pc_lastCheckedAt := None |}];
     autos := [{| at_id := "auto"; at_orgId := "org"; at_enabled := true;
                  at_actions := JArr [JObj [("scriptId", JStr "fix")]]; at_runCount := 0; at_lastRunAt := None |}];
     runs := []; lastEvaluated := []; events := []; timers := []; outages := [false; true]; nextId := 2;
     clock := 1000 |}.
Definition policy : automationPolicyRow :=
  {| po_id := "pol"; po_orgId := "org"; po_name := "Agents"; po_targets := JObj [];
     po_rules := JArr [JObj [("type", JStr "required_software"); ("softwareName", JStr "acme agent")]];
     po_enforcement := "enforce"; po_remediationScriptId := Some "fix" |}.
Definition opts : EvaluatePolicyOptions := {| opt_source := None; opt_requestRemediation := None |}.
End Example1.

Example evaluation_run :
  let '(w', resp) := evaluatePolicy Example1.policy Example1.opts Example1.w in
  (λ r, (re_deviceId r, re_status r, re_remediationRunId r)) <$> rp_results resp
    = [("pc1", compliant, None); ("pc2", non_compliant, Some 3)]%string ∧
  (λ r, (pc_id r, pc_deviceId r, pc_status r)) <$> compliance w'
    = [(1, "pc1", Evaluated compliant); (2, "pc2", Evaluated non_compliant)]%string ∧
  at_runCount <$> autos w' = [1] ∧
  evt_type <$> events w' = ["policy.evaluated"; "policy.evaluated"; "policy.violation"; "policy.remediation.triggered"]%string.
Proof. vm_compute. repeat split. Qed.

Lemma example_ids_ok : ids_ok (compliance Example1.w) (nextId Example1.w).
Proof. split; [apply NoDup_singleton | by repeat constructor]. Qed.
Lemma example_one_row : one_row_each (po_id Example1.policy) (compliance Example1.w).
Proof.
  intros did. unfold rows_of. simpl. rewrite filter_cons, filter_nil. case_decide; simpl; lia.
Qed.

Lemma evaluatePolicy_records_witness :
  (rp_compliant (evaluatePolicy Example1.policy Example1.opts Example1.w).2
   + rp_non_compliant (evaluatePolicy Example1.policy Example1.opts Example1.w).2)%nat = 2%nat.
Proof.
  destruct (evaluatePolicy_records Example1.policy Example1.opts Example1.w example_ids_ok example_one_row)
    as (_ & _ & _ & H).
  etrans; [exact H|]. vm_compute. reflexivity.
Defined.

Lemma evaluatePolicy_remediation_witness :
  ∃ new, runs (evaluatePolicy Example1.policy Example1.opts Example1.w).1 = runs Example1.w ++ new ∧
    (length new ≤ 2)%nat ∧ Forall (λ r, ∃ a, a ∈ autos Example1.w ∧ at_id a = rn_automationId r) new.
Proof.
  destruct (evaluatePolicy_remediation Example1.policy Example1.opts Example1.w example_ids_ok example_one_row)
    as (new & Hr & Hl & Hf).
  exists new. split; [exact Hr|]. split; [exact Hl|]. eapply Forall_impl; [exact Hf|].
  intros r (_ & _ & _ & a & Ha & Hi & _). exists a. split; assumption.
Defined.
