(* ===== verification/AlertConditions.v ===== *)
(** * Alert conditions ([services/alertConditions])

    A rule's conditions are an untyped [jsonb] value: a condition, an array of conditions,
    or nested groups.  Handlers for twelve kinds of condition are registered under their
    type and aliases; evaluation walks the groups and asks the handlers, validation walks
    the same value and lists what is wrong with it.

    Handlers read members of the value without checking them, so the model keeps the
    conversions of JavaScript and the errors they lead to: a window that is not a date, a
    member of [null], a value the query layer refuses ([SqlParams]).  A description is the
    template literal before its values are printed ([text]).  Inside a group the handlers run
    concurrently; their descriptions are listed in the order of the group. *)

From S2P Require Import Prelude JsNum Json ConfigPolicy.

Open Scope Z_scope.

(** ** Texts *)

Inductive part :=
| T (s : string)              (* literal text *)
| V (v : option json)         (* a value, printed by [String()] *)
| At (t : Z).                 (* an instant, printed by [toISOString()] *)
Abbreviation text := (list part).

(** ** Tables *)

Record metricRow := {
  mt_deviceId : string; mt_timestamp : Z; mt_cpuPercent : Q; mt_ramPercent : Q; mt_diskPercent : Q;
  mt_processCount : option Z; mt_diskReadBps : option Z; mt_diskWriteBps : option Z;
  mt_bandwidthInBps : option Z; mt_bandwidthOutBps : option Z; mt_interfaceStats : option json }.
Record eventLogRow := {
  el_deviceId : string; el_timestamp : Z; el_level : string; el_category : string;
  el_source : string; el_message : string }.
Record checkResultRow := {
  ck_deviceId : string; ck_watchType : string; ck_name : string; ck_status : string;
  ck_cpuPercent : option Q; ck_memoryMb : option Q; ck_timestamp : Z }.
Record postureRow := {
  po_deviceId : string; po_capturedAt : Z; po_patchComplianceScore : Z }.
Record MonitorDb := {
  m_config : ConfigDb; deviceMetrics : list metricRow; deviceEventLogs : list eventLogRow;
  serviceProcessCheckResults : list checkResultRow;
  securityPostureSnapshots : list postureRow }.

(** [ORDER BY t DESC]. *)
Definition latest_first {A} (t : A → Z) (l : list A) : list A := sort_by (λ a b, t b - t a) l.

(** What evaluating a condition can throw. *)
Inductive EvalError :=
| TypeError          (* [in], a member or a method of a value that has none *)
| RangeError         (* [toISOString()] of an invalid date *)
| ParamError         (* a parameter the query layer refuses to send *)
| QueryError.        (* a statement the database refuses *)

(** Values given to a query: compared with a text column or an enum column, or used as
    [LIMIT] ([None]: no limit).  What happens to other types of value than the column's is
    up to the query layer. *)
Class SqlParams := {
  text_param : option json → outcome EvalError string;
  enum_param : list string → option json → outcome EvalError string;
  limit_param : json → outcome EvalError (option nat) }.
Class SqlParamsLaws `{SqlParams} := {
  text_param_string s : text_param (Some (JStr s)) = Ok s;
  enum_param_value s l : s ∈ l → enum_param l (Some (JStr s)) = Ok s;
  enum_param_other s l : s ∉ l → enum_param l (Some (JStr s)) = Throw QueryError;
  limit_param_nat q n : q == inject_Z (Z.of_nat n) → limit_param (JNum q) = Ok (Some n) }.

Definition limit {A} (n : option nat) (l : list A) : list A :=
  match n with Some n => take n l | None => l end.

(** ** Utilities ([utils.ts]) *)

Inductive MetricName := cpuPercent | ramPercent | diskPercent | processCount.
#[export] Instance MetricName_eq_dec : EqDecision MetricName.
Proof. solve_decision. Defined.

Definition METRIC_NAME_MAP : list (string * MetricName) :=
  [("cpu", cpuPercent); ("cpuPercent", cpuPercent); ("ram", ramPercent); ("ramPercent", ramPercent);
   ("memory", ramPercent); ("disk", diskPercent); ("diskPercent", diskPercent);
   ("processCount", processCount); ("processes", processCount)]%string.
Definition metric_column (m : MetricName) : string :=
  match m with
  | cpuPercent => "cpuPercent" | ramPercent => "ramPercent"
  | diskPercent => "diskPercent" | processCount => "processCount"
  end.

(** A value as the key of a property; a number is no key of the map above. *)
Fixpoint property_key (v : json) : option string :=
  match v with
  | JStr s => Some s
  | JArr [x] => property_key x
  | _ => None
  end.
Definition normalizeMetricName (metric : option json) : option MetricName :=
  key ← (metric ≫= property_key : option string); snd <$> head (filter (λ e, e.1 = key) METRIC_NAME_MAP).

Definition num_rel (f : Q → Q → bool) (a b : num) : bool :=
  match a, b with Some x, Some y => f x y | _, _ => false end.
Definition Qlt_bool (a b : Q) : bool := negb (Qle_bool b a).

(** The value of a metric as the code compares it: a number against anything. *)
Definition compareValue (actual : num) (operator threshold : option json) : bool :=
  let t := number_of threshold in
  match operator with
  | Some (JStr "gt") => num_rel Qlt_bool t actual
  | Some (JStr "gte") => num_rel Qle_bool t actual
  | Some (JStr "lt") => num_rel Qlt_bool actual t
  | Some (JStr "lte") => num_rel Qle_bool actual t
  | Some (JStr "eq") => match threshold with Some (JNum q) => num_rel Qeq_bool actual (Some q) | _ => false end
  | Some (JStr "neq") => match threshold with Some (JNum q) => negb (num_rel Qeq_bool actual (Some q)) | _ => true end
  | _ => false
  end%string.

Definition getOperatorDisplay (operator : option json) : part :=
  match operator with
  | Some (JStr "gt") => T ">" | Some (JStr "gte") => T ">=" | Some (JStr "lt") => T "<"
  | Some (JStr "lte") => T "<=" | Some (JStr "eq") => T "=" | Some (JStr "neq") => T "!="
  | o => V o
  end%string.

(** [new Date(x)]: the integral part, invalid outside the range of dates. *)
Definition time_clip (x : num) : option Z :=
  q ← x; let t := Z.quot (Qnum q) (Zpos (Qden q)) in
  if Z.abs t <=? 8640000000000000 then Some t else None.
Definition minutes_ago (now : Z) (minutes : num) : option Z :=
  time_clip (nsub (nint now) (nmul (nmul minutes (nint 60)) (nint 1000))).

(** A date given to a query. *)
Definition date_param (t : option Z) : outcome EvalError Z :=
  match t with Some t => Ok t | None => Throw RangeError end.

Definition getRecentMetrics (db : MonitorDb) (now : Z) (deviceId : string) (durationMinutes : num)
    : outcome EvalError (list metricRow) :=
  windowStart ← date_param (minutes_ago now durationMinutes);
  Ok (latest_first mt_timestamp
        (filter (λ m, mt_deviceId m = deviceId ∧ windowStart <= mt_timestamp m) (deviceMetrics db))).

Definition getLatestMetric (db : MonitorDb) (deviceId : string) : option metricRow :=
  head (latest_first mt_timestamp (filter (λ m, mt_deviceId m = deviceId) (deviceMetrics db))).

Definition getDevice (db : MonitorDb) (deviceId : string) : option deviceRow :=
  head (filter (λ d, dev_id d = deviceId) (devices (m_config db))).

(** [row[metric]]; only the process count is nullable. *)
Definition metric_value (m : metricRow) (metric : MetricName) : num :=
  match metric with
  | cpuPercent => Some (mt_cpuPercent m) | ramPercent => Some (mt_ramPercent m)
  | diskPercent => Some (mt_diskPercent m) | processCount => inject_Z <$> mt_processCount m
  end.

(** ** Handlers *)

Record ConditionResult := { passed : bool; description : text; actualValue : option Q }.

Definition failed (description : text) : outcome EvalError ConditionResult :=
  Ok {| passed := false; description := description; actualValue := None |}.

Record ConditionHandler := {
  h_type : string; h_aliases : list string;
  h_evaluate : MonitorDb → Z → json → string → outcome EvalError ConditionResult;
  h_validate : json → string → list text }.

(** [if (c) errors.push(`${path}${m}`)]. *)
Definition check (bad : bool) (path m : string) : list text := if bad then [[T (path +:+ m)]] else [].

Definition OPERATORS : list string := ["gt"; "gte"; "lt"; "lte"; "eq"; "neq"]%string.
Definition one_of (l : list string) (v : option json) : bool :=
  match v with Some (JStr s) => bool_decide (s ∈ l) | _ => false end.
Definition is_number (v : option json) : bool := match as_number v with Some _ => true | None => false end.
Definition below (v : option json) (n : Z) : bool :=
  match as_number v with Some q => Qlt_bool q (inject_Z n) | None => false end.
Definition nonempty_string (v : option json) : bool :=
  match v with Some (JStr s) => truthy (Some s) | _ => false end.

(** The numbers of the metrics a comparison ranges over. *)
Definition bps (v : option Z) : num := match v with Some z => Some (rnd (inject_Z z)) | None => nint 0 end.
Definition directed (direction : option json) (a b : string) (x y : option Z) : num :=
  if strict_eq direction (Some (JStr a)) then bps x
  else if strict_eq direction (Some (JStr b)) then bps y
  else nadd (bps x) (bps y).
Definition in_units (value : option json) : option json :=
  JNum <$> nmul (number_of value) (nint 1000000).

Local Open Scope string_scope.

Module Threshold.
Definition evaluateThreshold (db : MonitorDb) (now : Z) (cond : json) (deviceId : string)
    : outcome EvalError ConditionResult :=
  let durationMinutes := or_default (field "durationMinutes" cond) (JNum 1) in
  let metric := field "metric" cond in
  match normalizeMetricName metric with
  | None => failed [T "Unknown metric: "; V metric]
  | Some metricName =>
      metrics ← getRecentMetrics db now deviceId (to_number durationMinutes);
      match metrics with
      | [] => failed [T "No metrics available for "; V metric]
      | latest :: _ =>
          Ok {| passed :=
                  forallb (λ m, match metric_value m metricName with
                                | None => false
                                | Some v => compareValue (Some v) (field "operator" cond) (field "value" cond)
                                end) metrics;
                description := [V metric; T " "; getOperatorDisplay (field "operator" cond); T " ";
                                V (field "value" cond); T " for "; V (Some durationMinutes); T "min"];
                actualValue := metric_value latest metricName |}
      end
  end.

Definition validMetrics : list string := METRIC_NAME_MAP.*1 ++ (metric_column <$> METRIC_NAME_MAP.*2).
Definition validateThreshold (c : json) (path : string) : list text :=
  check (negb (one_of validMetrics (field "metric" c))) path ".metric: Invalid metric name" ++
  check (negb (one_of OPERATORS (field "operator" c))) path ".operator: Invalid operator" ++
  check (negb (is_number (field "value" c))) path ".value: Must be a number" ++
  check (negb (bool_decide (field "durationMinutes" c = None)) && negb (is_number (field "durationMinutes" c)))
    path ".durationMinutes: Must be a number".
End Threshold.

Module Offline.
Definition resolveDurationMinutes (c : json) : Q :=
  match or_else (as_number (field "durationMinutes" c)) (as_number (field "duration" c)) with
  | Some q => if Qlt_bool 0 q then q else 5
  | None => 5
  end%Q.

Definition evaluateOffline (db : MonitorDb) (now : Z) (cond : json) (deviceId : string)
    : outcome EvalError ConditionResult :=
  match getDevice db deviceId with
  | None => failed [T "Device not found"]
  | Some row =>
      let durationMinutes := resolveDurationMinutes cond in
      let isOffline :=
        bool_decide (dev_status row = "offline") ||
        match dev_lastSeenAt row, minutes_ago now (Some durationMinutes) with
        | Some seen, Some offlineThreshold => (seen <? offlineThreshold)%Z
        | _, _ => false
        end in
      Ok {| passed := isOffline;
            description := [T "Device offline for "; V (Some (JNum durationMinutes)); T "min"];
            actualValue := None |}
  end.

Definition validateOffline (c : json) (path : string) : list text :=
  check (negb (bool_decide (field "durationMinutes" c = None)) && negb (is_number (field "durationMinutes" c)))
    path ".durationMinutes: Must be a number" ++
  check (negb (bool_decide (field "duration" c = None)) && negb (is_number (field "duration" c)))
    path ".duration: Must be a number".
End Offline.

Module EventLog.
Definition escape_char : ascii := ascii_of_nat 92.
Definition special (c : ascii) : bool := Ascii.eqb c "%" || Ascii.eqb c "_" || Ascii.eqb c escape_char.
Definition escape_chars (l : list ascii) : list ascii :=
  l ≫= λ c, if special c then [escape_char; c] else [c].
Definition escapeLikePattern (pattern : string) : string := of_chars (escape_chars (chars pattern)).

(** [LIKE]: a percent sign stands for any text, an underscore for any character, and a
    backslash takes the next character literally. *)
Fixpoint like_chars (p s : list ascii) {struct p} : bool :=
  match p with
  | [] => match s with [] => true | _ => false end
  | c :: p' =>
      if Ascii.eqb c "%" then
        (fix any s := like_chars p' s || match s with [] => false | _ :: s' => any s' end) s
      else if Ascii.eqb c "_" then match s with [] => false | _ :: s' => like_chars p' s' end
      else if Ascii.eqb c escape_char then
        match p', s with
        | d :: p'', x :: s' => Ascii.eqb d x && like_chars p'' s'
        | _, _ => false
        end
      else match s with x :: s' => Ascii.eqb c x && like_chars p' s' | [] => false end
  end.
Definition ilike (s pattern : string) : bool := like_chars (chars (toLowerCase pattern)) (chars (toLowerCase s)).

Definition categories : list string := ["security"; "hardware"; "application"; "system"].
Definition levelOrder : list string := ["info"; "warning"; "error"; "critical"].

(** The levels a minimum level stands for; any level when it is not one of them. *)
Definition matches_level (level : option json) (row : string) : bool :=
  match level with
  | Some (JStr l) =>
      match list_find (λ x, x = l) levelOrder with
      | Some (i, _) => bool_decide (row ∈ drop i levelOrder)
      | None => true
      end
  | _ => true
  end.

(** The optional text search of a column: [None] when the condition has no pattern. *)
Definition pattern_of (v : option json) : outcome EvalError (option string) :=
  if json_truthy v then
    match v with
    | Some (JStr s) => Ok (Some ("%" +:+ escapeLikePattern s +:+ "%"))
    | _ => Throw TypeError
    end
  else Ok None.
Definition matches_pattern (p : option string) (column : string) : bool :=
  match p with Some p => ilike column p | None => true end.

Section sql.
Context `{SqlParams}.

Definition evaluateEventLog (db : MonitorDb) (now : Z) (cond : json) (deviceId : string)
    : outcome EvalError ConditionResult :=
  source ← pattern_of (field "sourcePattern" cond);
  message ← pattern_of (field "messagePattern" cond);
  category ← enum_param categories (field "category" cond);
  windowStart ← date_param (minutes_ago now (number_of (field "windowMinutes" cond)));
  let rows := filter (λ e, el_deviceId e = deviceId ∧ el_category e = category ∧
                           (windowStart <= el_timestamp e)%Z ∧
                           matches_level (field "level" cond) (el_level e) = true ∧
                           matches_pattern source (el_source e) = true ∧
                           matches_pattern message (el_message e) = true) (deviceEventLogs db) in
  let matchCount := inject_Z (Z.of_nat (length rows)) in
  Ok {| passed := num_rel Qle_bool (number_of (field "countThreshold" cond)) (Some matchCount);
        description := [V (field "category" cond); T "/"; V (field "level" cond); T " events >= ";
                        V (field "countThreshold" cond); T " in "; V (field "windowMinutes" cond);
                        T "min (found "; V (Some (JNum matchCount)); T ")"];
        actualValue := Some matchCount |}.
End sql.

Definition validateEventLog (c : json) (path : string) : list text :=
  check (negb (one_of categories (field "category" c))) path ".category: Invalid category" ++
  check (negb (one_of ["warning"; "error"; "critical"] (field "level" c))) path ".level: Invalid level" ++
  check (negb (is_number (field "countThreshold" c)) || below (field "countThreshold" c) 1)
    path ".countThreshold: Must be a positive number" ++
  check (negb (is_number (field "windowMinutes" c)) || below (field "windowMinutes" c) 1)
    path ".windowMinutes: Must be a positive number".
End EventLog.

(** Check results of one watched service or process, latest first. *)
Definition checks_of (db : MonitorDb) (deviceId watchType name : string) : list checkResultRow :=
  latest_first ck_timestamp
    (filter (λ r, ck_deviceId r = deviceId ∧ ck_watchType r = watchType ∧ ck_name r = name)
       (serviceProcessCheckResults db)).

Definition stopped_count (l : list checkResultRow) : Q :=
  inject_Z (Z.of_nat (length (filter (λ r, ck_status r ≠ "running") l))).

Definition validate_watch (name : string) (c : json) (path : string) : list text :=
  check (negb (nonempty_string (field name c))) path ("." +:+ name +:+ ": Must be a non-empty string") ++
  check (negb (bool_decide (field "consecutiveFailures" c = None)) &&
         (negb (is_number (field "consecutiveFailures" c)) || below (field "consecutiveFailures" c) 1))
    path ".consecutiveFailures: Must be a positive number".

Module Service.
Section sql.
Context `{SqlParams}.

Definition evaluateService (db : MonitorDb) (now : Z) (cond : json) (deviceId : string)
    : outcome EvalError ConditionResult :=
  let threshold := nullish (field "consecutiveFailures" cond) (JNum 2) in
  name ← text_param (field "serviceName" cond);
  match checks_of db deviceId "service" name with
  | [] => failed [T "No check results for service "; V (field "serviceName" cond)]
  | latest :: _ =>
      if bool_decide (ck_status latest = "running") then
        failed [T "Service "; V (field "serviceName" cond); T " is running"]
      else
        n ← limit_param threshold;
        let consecutiveFailures := stopped_count (limit n (checks_of db deviceId "service" name)) in
        Ok {| passed := num_rel Qle_bool (to_number threshold) (Some consecutiveFailures);
              description := [T "Service "; V (field "serviceName" cond); T " stopped (";
                              V (Some (JNum consecutiveFailures)); T " consecutive failures, threshold: ";
                              V (Some threshold); T ")"];
              actualValue := Some consecutiveFailures |}
  end.
End sql.

Definition validateService : json → string → list text := validate_watch "serviceName".
End Service.

Module Process.
Section sql.
Context `{SqlParams}.

Definition evaluateProcess (db : MonitorDb) (now : Z) (cond : json) (deviceId : string)
    : outcome EvalError ConditionResult :=
  let threshold := nullish (field "consecutiveFailures" cond) (JNum 2) in
  name ← text_param (field "processName" cond);
  n ← limit_param threshold;
  match limit n (checks_of db deviceId "process" name) with
  | [] => failed [T "No check results for process "; V (field "processName" cond)]
  | recentResults =>
      let consecutiveFailures := stopped_count recentResults in
      Ok {| passed := num_rel Qle_bool (to_number threshold) (Some consecutiveFailures);
            description := [T "Process "; V (field "processName" cond); T " stopped (";
                            V (Some (JNum consecutiveFailures)); T " consecutive failures, threshold: ";
                            V (Some threshold); T ")"];
            actualValue := Some consecutiveFailures |}
  end.
End sql.

Definition validateProcess : json → string → list text := validate_watch "processName".
End Process.

Module ProcessResource.
Section sql.
Context `{SqlParams}.

Definition evaluateProcessResource (db : MonitorDb) (now : Z) (cond : json) (deviceId : string)
    : outcome EvalError ConditionResult :=
  let durationMinutes := or_default (field "durationMinutes" cond) (JNum 5) in
  let cpu := strict_eq (field "type" cond) (Some (JStr "process_cpu_high")) in
  name ← text_param (field "processName" cond);
  windowStart ← date_param (minutes_ago now (to_number durationMinutes));
  let values := (λ r, if cpu then ck_cpuPercent r else ck_memoryMb r) <$>
                filter (λ r, (windowStart <= ck_timestamp r)%Z) (checks_of db deviceId "process" name) in
  match values with
  | [] => failed [T "No recent results for process "; V (field "processName" cond)]
  | latestValue :: _ =>
      Ok {| passed :=
              forallb (λ v : option Q, match v with
                            | None => false
                            | Some q => compareValue (Some q) (field "operator" cond) (field "value" cond)
                            end) values;
            description := [T "Process "; V (field "processName" cond); T " ";
                            T (if cpu then "CPU%" else "Memory MB"); T " ";
                            getOperatorDisplay (field "operator" cond); T " "; V (field "value" cond);
                            T " for "; V (Some durationMinutes); T "min"];
            actualValue := latestValue |}
  end.
End sql.

Definition validateProcessResource (c : json) (path : string) : list text :=
  check (negb (nonempty_string (field "processName" c))) path ".processName: Must be a non-empty string" ++
  check (negb (one_of OPERATORS (field "operator" c))) path ".operator: Invalid operator" ++
  check (negb (is_number (field "value" c))) path ".value: Must be a number".
End ProcessResource.

(** The checks that bandwidth and disk conditions share. *)
Definition validate_rate (directions : list string) (directionError : string) (c : json) (path : string)
    : list text :=
  check (negb (one_of directions (field "direction" c))) path directionError ++
  check (negb (one_of OPERATORS (field "operator" c))) path ".operator: Invalid operator" ++
  check (negb (is_number (field "value" c))) path ".value: Must be a number" ++
  check (negb (bool_decide (field "durationMinutes" c = None)) && negb (is_number (field "durationMinutes" c)))
    path ".durationMinutes: Must be a number".

(** Every sample of the window, in one direction or both together. *)
Definition evaluate_rate (label noData unit : string) (value : option json → metricRow → num)
    (db : MonitorDb) (now : Z) (cond : json) (deviceId : string) : outcome EvalError ConditionResult :=
  let durationMinutes := or_default (field "durationMinutes" cond) (JNum 1) in
  metrics ← getRecentMetrics db now deviceId (to_number durationMinutes);
  match metrics with
  | [] => failed [T noData]
  | latest :: _ =>
      Ok {| passed :=
              forallb (λ m, compareValue (value (field "direction" cond) m) (field "operator" cond)
                              (in_units (field "value" cond))) metrics;
            description := [T label; V (field "direction" cond); T " ";
                            getOperatorDisplay (field "operator" cond); T " "; V (field "value" cond);
                            T unit; V (Some durationMinutes); T "min"];
            actualValue := value (field "direction" cond) latest |}
  end.

Module BandwidthHigh.
Definition bandwidth_bps (direction : option json) (m : metricRow) : num :=
  directed direction "in" "out" (mt_bandwidthInBps m) (mt_bandwidthOutBps m).
Definition evaluateBandwidthHigh : MonitorDb → Z → json → string → outcome EvalError ConditionResult :=
  evaluate_rate "Bandwidth " "No metrics available for bandwidth" " Mbps for " bandwidth_bps.
Definition validateBandwidthHigh : json → string → list text :=
  validate_rate ["in"; "out"; "total"] ".direction: Must be 'in', 'out', or 'total'".
End BandwidthHigh.

Module DiskIoHigh.
Definition disk_bps (direction : option json) (m : metricRow) : num :=
  directed direction "read" "write" (mt_diskReadBps m) (mt_diskWriteBps m).
Definition evaluateDiskIoHigh : MonitorDb → Z → json → string → outcome EvalError ConditionResult :=
  evaluate_rate "Disk I/O " "No metrics available for disk I/O" " MB/s for " disk_bps.
Definition validateDiskIoHigh : json → string → list text :=
  validate_rate ["read"; "write"; "total"] ".direction: Must be 'read', 'write', or 'total'".
End DiskIoHigh.

Module NetworkErrors.
Definition count_of (v : option json) : num :=
  match as_number v with Some q => Some q | None => nint 0 end.

(** One interface of one sample; [null] has no members. *)
Definition add_interface (cond : json) (totalErrors : num) (iface : json) : outcome EvalError num :=
  match iface with
  | JNull => Throw TypeError
  | _ =>
      if json_truthy (field "interfaceName" cond) &&
         negb (strict_eq (field "name" iface) (field "interfaceName" cond)) then Ok totalErrors
      else
        let inErr := count_of (field "inErrors" iface) in
        let outErr := count_of (field "outErrors" iface) in
        Ok (if strict_eq (field "errorType" cond) (Some (JStr "in")) then nadd totalErrors inErr
            else if strict_eq (field "errorType" cond) (Some (JStr "out")) then nadd totalErrors outErr
            else nadd totalErrors (nadd inErr outErr))
  end.
Fixpoint add_all {A} (f : num → A → outcome EvalError num) (total : num) (l : list A)
    : outcome EvalError num :=
  match l with [] => Ok total | x :: l' => t ← f total x; add_all f t l' end.
Definition add_metric (cond : json) (totalErrors : num) (m : metricRow) : outcome EvalError num :=
  match mt_interfaceStats m with
  | Some (JArr ifStats) => add_all (add_interface cond) totalErrors ifStats
  | _ => Ok totalErrors
  end.

Definition evaluateNetworkErrors (db : MonitorDb) (now : Z) (cond : json) (deviceId : string)
    : outcome EvalError ConditionResult :=
  let windowMinutes := or_default (field "windowMinutes" cond) (JNum 5) in
  metrics ← getRecentMetrics db now deviceId (to_number windowMinutes);
  match metrics with
  | [] => failed [T "No metrics available for network errors"]
  | _ =>
      totalErrors ← add_all (add_metric cond) (nint 0) metrics;
      Ok {| passed := compareValue totalErrors (field "operator" cond) (field "value" cond);
            description := [T "Network "; V (field "errorType" cond); T " errors ";
                            getOperatorDisplay (field "operator" cond); T " "; V (field "value" cond);
                            T " in "; V (Some windowMinutes); T "min (found "; V (JNum <$> totalErrors); T ")"];
            actualValue := totalErrors |}
  end.

Definition validateNetworkErrors (c : json) (path : string) : list text :=
  check (negb (one_of ["in"; "out"; "total"] (field "errorType" c)))
    path ".errorType: Must be 'in', 'out', or 'total'" ++
  check (negb (one_of OPERATORS (field "operator" c))) path ".operator: Invalid operator" ++
  check (negb (is_number (field "value" c))) path ".value: Must be a number" ++
  check (negb (bool_decide (field "windowMinutes" c = None)) && negb (is_number (field "windowMinutes" c)))
    path ".windowMinutes: Must be a number".
End NetworkErrors.

Module PatchCompliance.
Definition evaluatePatchCompliance (db : MonitorDb) (now : Z) (cond : json) (deviceId : string)
    : outcome EvalError ConditionResult :=
  match head (latest_first po_capturedAt
                (filter (λ s, po_deviceId s = deviceId) (securityPostureSnapshots db))) with
  | None => failed [T "No patch compliance data available"]
  | Some latest =>
      let score := inject_Z (po_patchComplianceScore latest) in
      Ok {| passed := compareValue (Some score) (field "operator" cond) (field "value" cond);
            description := [T "Patch compliance score "; getOperatorDisplay (field "operator" cond); T " ";
                            V (field "value" cond); T "% (actual: "; V (Some (JNum score)); T "%)"];
            actualValue := Some score |}
  end.

Definition validatePatchCompliance (c : json) (path : string) : list text :=
  check (negb (one_of OPERATORS (field "operator" c))) path ".operator: Invalid operator" ++
  check (match as_number (field "value" c) with
         | Some q => Qlt_bool q 0 || Qlt_bool 100 q
         | None => true
         end) path ".value: Must be a number between 0 and 100".
End PatchCompliance.

Module CertExpiry.
Definition ms_per_day : Z := 24 * 60 * 60 * 1000.
Definition days_ahead (now : Z) (days : num) : option Z :=
  time_clip (nadd (nint now) (nmul (nmul (nmul (nmul days (nint 24)) (nint 60)) (nint 60)) (nint 1000))).

Definition evaluateCertExpiry (db : MonitorDb) (now : Z) (cond : json) (deviceId : string)
    : outcome EvalError ConditionResult :=
  match getDevice db deviceId with
  | None => failed [T "Device not found"]
  | Some row =>
      match dev_mtlsCertExpiresAt row with
      | None => failed [T "No mTLS certificate configured"]
      | Some expiresAt =>
          let days := ndiv (nint (expiresAt - now)) (nint ms_per_day) in
          let daysUntilExpiry := (λ q, inject_Z (Qceiling q)) <$> days in
          Ok {| passed := match days_ahead now (number_of (field "withinDays" cond)) with
                          | Some thresholdDate => (expiresAt <=? thresholdDate)%Z
                          | None => false
                          end;
                description := [T "Certificate expires within "; V (field "withinDays" cond); T " days (";
                                V (JNum <$> daysUntilExpiry); T " days remaining)"];
                actualValue := daysUntilExpiry |}
      end
  end.

Definition validateCertExpiry (c : json) (path : string) : list text :=
  check (negb (is_number (field "withinDays" c)) || below (field "withinDays" c) 1)
    path ".withinDays: Must be a positive number".
End CertExpiry.

(** ** Registry ([registry.ts], the registrations of [index.ts]) *)

Section conditions.
Context `{SqlParams}.

Definition thresholdHandler : ConditionHandler :=
  {| h_type := "threshold"; h_aliases := ["metric"];
     h_evaluate := Threshold.evaluateThreshold; h_validate := Threshold.validateThreshold |}.
Definition offlineHandler : ConditionHandler :=
  {| h_type := "offline"; h_aliases := ["status"];
     h_evaluate := Offline.evaluateOffline; h_validate := Offline.validateOffline |}.
Definition eventLogHandler : ConditionHandler :=
  {| h_type := "event_log"; h_aliases := [];
     h_evaluate := EventLog.evaluateEventLog; h_validate := EventLog.validateEventLog |}.
Definition serviceHandler : ConditionHandler :=
  {| h_type := "service_stopped"; h_aliases := [];
     h_evaluate := Service.evaluateService; h_validate := Service.validateService |}.
Definition processHandler : ConditionHandler :=
  {| h_type := "process_stopped"; h_aliases := [];
     h_evaluate := Process.evaluateProcess; h_validate := Process.validateProcess |}.
Definition createProcessResourceHandler (handlerType : string) : ConditionHandler :=
  {| h_type := handlerType; h_aliases := [];
     h_evaluate := ProcessResource.evaluateProcessResource; h_validate := ProcessResource.validateProcessResource |}.
Definition bandwidthHighHandler : ConditionHandler :=
  {| h_type := "bandwidth_high"; h_aliases := [];
     h_evaluate := BandwidthHigh.evaluateBandwidthHigh; h_validate := BandwidthHigh.validateBandwidthHigh |}.
Definition diskIoHighHandler : ConditionHandler :=
  {| h_type := "disk_io_high"; h_aliases := [];
     h_evaluate := DiskIoHigh.evaluateDiskIoHigh; h_validate := DiskIoHigh.validateDiskIoHigh |}.
Definition networkErrorsHandler : ConditionHandler :=
  {| h_type := "network_errors"; h_aliases := [];
     h_evaluate := NetworkErrors.evaluateNetworkErrors; h_validate := NetworkErrors.validateNetworkErrors |}.
Definition patchComplianceHandler : ConditionHandler :=
  {| h_type := "patch_compliance"; h_aliases := [];
     h_evaluate := PatchCompliance.evaluatePatchCompliance; h_validate := PatchCompliance.validatePatchCompliance |}.
Definition certExpiryHandler : ConditionHandler :=
  {| h_type := "cert_expiry"; h_aliases := [];
     h_evaluate := CertExpiry.evaluateCertExpiry; h_validate := CertExpiry.validateCertExpiry |}.

Definition register (handlers : gmap string ConditionHandler) (h : ConditionHandler)
    : gmap string ConditionHandler :=
  foldl (λ hs alias, <[alias := h]> hs) (<[h_type h := h]> handlers) (h_aliases h).

Definition conditionRegistry : gmap string ConditionHandler :=
  foldl register ∅
    [thresholdHandler; offlineHandler; eventLogHandler; serviceHandler; processHandler;
     createProcessResourceHandler "process_cpu_high"; createProcessResourceHandler "process_memory_high";
     bandwidthHighHandler; diskIoHighHandler; networkErrorsHandler; patchComplianceHandler;
     certExpiryHandler].

(** [handlers.get(cond.type)]. *)
Definition get_handler (condition : json) : option ConditionHandler :=
  type ← as_string (field "type" condition); conditionRegistry !! type.

Definition registry_evaluate (db : MonitorDb) (now : Z) (condition : json) (deviceId : string)
    : outcome EvalError ConditionResult :=
  match get_handler condition with
  | None => failed [T "Unknown condition type: "; V (field "type" condition)]
  | Some handler => h_evaluate handler db now condition deviceId
  end.

Definition registry_validate (condition : json) (path : string) : list text :=
  match get_handler condition with
  | None => [[T (path +:+ ".type: Unknown condition type '"); V (field "type" condition); T "'"]]
  | Some handler => h_validate handler condition path
  end.

(** ** Evaluation ([index.ts]) *)

Record results := { met : list text; notMet : list text }.

(** [Promise.all(conditions.map(f))]. *)
Definition evaluate_all (f : json → results → outcome EvalError (bool * results))
    : list json → results → outcome EvalError (list bool * results) :=
  fix go l acc :=
    match l with
    | [] => Ok ([], acc)
    | c :: l' =>
        match f c acc with
        | Throw e => Throw e
        | Ok (b, acc') =>
            match go l' acc' with Throw e => Throw e | Ok (bs, acc'') => Ok (b :: bs, acc'') end
        end
    end.

Definition evaluate_leaf (db : MonitorDb) (now : Z) (deviceId : string) (condition : json) (acc : results)
    : outcome EvalError (bool * results) :=
  result ← registry_evaluate db now condition deviceId;
  Ok (passed result,
      if passed result then {| met := met acc ++ [description result]; notMet := notMet acc |}
      else {| met := met acc; notMet := notMet acc ++ [description result] |}).

Definition is_and (logic : json) : bool := strict_eq (Some logic) (Some (JStr "and")).

(** [isConditionGroup] is the case of an object with both keys. *)
Fixpoint evaluateConditionRecursive (db : MonitorDb) (now : Z) (deviceId : string)
    (condition : json) (acc : results) {struct condition} : outcome EvalError (bool * results) :=
  match condition with
  | JObj fields =>
      match assoc "logic" fields with
      | Some logic =>
          on_key "conditions"
            (λ v, match v with
                  | JArr conditions =>
                      match evaluate_all (evaluateConditionRecursive db now deviceId) conditions acc with
                      | Throw e => Throw e
                      | Ok (evaluations, acc') =>
                          Ok (if is_and logic then forallb id evaluations else existsb id evaluations, acc')
                      end
                  | _ => Throw TypeError
                  end)
            (evaluate_leaf db now deviceId condition acc) fields
      | None => evaluate_leaf db now deviceId condition acc
      end
  | JArr _ => evaluate_leaf db now deviceId condition acc
  | _ => Throw TypeError
  end.

(** The first condition of type [threshold], groups in order. *)
Definition first_some {A B} (f : A → option B) : list A → option B :=
  fix go l := match l with [] => None | x :: l' => match f x with Some y => Some y | None => go l' end end.
Definition threshold_leaf (condition : json) : option json :=
  if strict_eq (field "type" condition) (Some (JStr "threshold")) then Some condition else None.
Fixpoint findFirstThreshold (condition : json) : option json :=
  match condition with
  | JObj fields =>
      match assoc "logic" fields with
      | Some _ =>
          on_key "conditions"
            (λ v, match v with JArr conditions => first_some findFirstThreshold conditions | _ => None end)
            (threshold_leaf condition) fields
      | None => threshold_leaf condition
      end
  | _ => None
  end.

Record context := {
  cx_metric : option json; cx_actualValue : option Q; cx_threshold : option json;
  cx_operator : option part; cx_durationMinutes : option json; cx_deviceId : string;
  cx_evaluatedAt : Z }.

Record EvaluationResult := {
  triggered : bool; conditionsMet : list text; conditionsNotMet : list text; ev_context : context }.

Definition no_metric (deviceId : string) (now : Z) : context :=
  {| cx_metric := None; cx_actualValue := None; cx_threshold := None; cx_operator := None;
     cx_durationMinutes := None; cx_deviceId := deviceId; cx_evaluatedAt := now |}.

Definition metric_context (db : MonitorDb) (now : Z) (deviceId : string) (root : json) : context :=
  match findFirstThreshold root, getLatestMetric db deviceId with
  | Some primary, Some latestMetric =>
      {| cx_metric := field "metric" primary;
         cx_actualValue := normalizeMetricName (field "metric" primary) ≫= metric_value latestMetric;
         cx_threshold := field "value" primary;
         cx_operator := Some (getOperatorDisplay (field "operator" primary));
         cx_durationMinutes := field "durationMinutes" primary;
         cx_deviceId := deviceId; cx_evaluatedAt := now |}
  | _, _ => no_metric deviceId now
  end.

Definition not_triggered (why : string) (deviceId : string) (now : Z) : EvaluationResult :=
  {| triggered := false; conditionsMet := []; conditionsNotMet := [[T why]];
     ev_context := no_metric deviceId now |}.

Definition evaluate_root (db : MonitorDb) (now : Z) (deviceId : string) (root : json)
    : outcome EvalError EvaluationResult :=
  '(b, acc) ← evaluateConditionRecursive db now deviceId root {| met := []; notMet := [] |};
  Ok {| triggered := b; conditionsMet := met acc; conditionsNotMet := notMet acc;
        ev_context := metric_context db now deviceId root |}.

Definition evaluateConditions (db : MonitorDb) (now : Z) (conditions : option json) (deviceId : string)
    : outcome EvalError EvaluationResult :=
  match conditions with
  | Some (JArr l) =>
      evaluate_root db now deviceId (JObj [("logic", JStr "and"); ("conditions", JArr l)])
  | Some (JObj l) => evaluate_root db now deviceId (JObj l)
  | _ => Ok (if json_truthy conditions then not_triggered "Invalid conditions format" deviceId now
             else not_triggered "No conditions defined" deviceId now)
  end.

(** [texts.join(', ')]. *)
Fixpoint join_texts (l : list text) : text :=
  match l with [] => [] | [x] => x | x :: l' => x ++ T ", " :: join_texts l' end.

Definition evaluateAutoResolveConditions (db : MonitorDb) (now : Z) (conditions : option json)
    (deviceId : string) : outcome EvalError (bool * text) :=
  if json_truthy conditions then
    result ← evaluateConditions db now conditions deviceId;
    Ok (if triggered result
        then (true, T "Conditions cleared: " :: join_texts (conditionsMet result))
        else (false, T "Conditions still active: " :: join_texts (conditionsNotMet result)))
  else Ok (false, [T "No auto-resolve conditions defined"]).

(** ** Validation *)

(** [forEach] with the index in the path. *)
Definition validate_each (f : json → string → list text) (path : string)
    : nat → list json → list text :=
  fix go i l := match l with
                | [] => []
                | c :: l' => (f c (path +:+ "[" +:+ print_Z (Z.of_nat i) +:+ "]") ++ go (S i) l')%list
                end.

Fixpoint validateSingle (cond : json) (path : string) {struct cond} : list text :=
  match cond with
  | JObj fields =>
      match assoc "logic" fields with
      | Some logic =>
          check (negb (one_of ["and"; "or"] (Some logic))) path ".logic: Must be 'and' or 'or'" ++
          on_key "conditions"
            (λ v, match v with
                  | JArr l => validate_each validateSingle (path +:+ ".conditions") 0 l
                  | _ => [[T (path +:+ ".conditions: Must be an array")]]
                  end)
            [[T (path +:+ ".conditions: Must be an array")]] fields
      | None =>
          match assoc "type" fields with
          | Some _ => registry_validate cond path
          | None => [[T (path +:+ ": Missing 'type' or 'logic' property")]]
          end
      end
  | JArr _ => [[T (path +:+ ": Missing 'type' or 'logic' property")]]
  | _ => [[T (path +:+ ": Must be an object")]]
  end.

Definition validateConditions (conditions : option json) : list text :=
  match conditions with
  | Some (JArr l) => validate_each validateSingle "conditions" 0 l
  | Some c => if json_truthy conditions then validateSingle c "conditions"
              else [[T "Conditions cannot be empty"]]
  | None => [[T "Conditions cannot be empty"]]
  end.
End conditions.

(** ** Templates *)

Definition is_word (c : ascii) : bool :=
  let n := nat_of_ascii c in
  ((48 <=? n) && (n <=? 57) || (65 <=? n) && (n <=? 90) || (97 <=? n) && (n <=? 122) || (n =? 95))%nat.

Fixpoint word_prefix (l : list ascii) : list ascii * list ascii :=
  match l with
  | c :: l' => if is_word c then let '(w, r) := word_prefix l' in (c :: w, r) else ([], l)
  | [] => ([], [])
  end.

(** [{{name}}] at the front, and the rest. *)
Definition variable_at (l : list ascii) : option (string * list ascii) :=
  match l with
  | "{" :: "{" :: l' =>
      match word_prefix l' with
      | (c :: w, "}" :: "}" :: r) => Some (of_chars (c :: w), r)
      | _ => None
      end
  | _ => None
  end%char.

(** One pass from left to right; each step takes at least one character. *)
Fixpoint interpolate (fuel : nat) (context : string → option part) (l : list ascii) : text :=
  match fuel, l with
  | S fuel', c :: l' =>
      match variable_at l with
      | Some (key, r) =>
          default (T ("{{" +:+ key +:+ "}}")) (context key) :: interpolate fuel' context r
      | None => T (String c "") :: interpolate fuel' context l'
      end
  | _, _ => []
  end.
Definition interpolateTemplate (template : string) (context : string → option part) : text :=
  interpolate (String.length template) context (chars template).

(** The variables of an evaluation; absent and null ones are left as they are written. *)
Definition present (v : option json) : option part :=
  match v with None | Some JNull => None | Some x => Some (V (Some x)) end.
Definition context_var (c : context) (key : string) : option part :=
  if bool_decide (key = "metric") then present (cx_metric c)
  else if bool_decide (key = "actualValue") then present (JNum <$> cx_actualValue c)
  else if bool_decide (key = "threshold") then present (cx_threshold c)
  else if bool_decide (key = "operator") then
    match cx_operator c with Some (V v) => present v | o => o end
  else if bool_decide (key = "durationMinutes") then present (cx_durationMinutes c)
  else if bool_decide (key = "deviceId") then Some (T (cx_deviceId c))
  else if bool_decide (key = "evaluatedAt") then Some (At (cx_evaluatedAt c))
  else None.
