(* ===== verification/AlertMeaning.v ===== *)
(** * What alert conditions mean ([services/alertConditions/types.ts])

    The condition types the sources declare, a meaning for them over the monitoring tables,
    and the theorem that evaluating a validated value computes that meaning. *)

From S2P Require Import Prelude JsNum Json ConfigPolicy ConfigResolution AlertConditions.

Open Scope Z_scope.

(** ** Conditions *)

Inductive ComparisonOperator := op_gt | op_gte | op_lt | op_lte | op_eq | op_neq.

(** Durations are whole minutes, days or failures, defaults filled in. *)
Inductive AlertCondition :=
| ThresholdCondition (metric : MetricName) (operator : ComparisonOperator) (value : Q) (durationMinutes : Z)
| OfflineCondition (durationMinutes : Z)
| EventLogCondition (category level : string) (sourcePattern messagePattern : option string)
    (countThreshold windowMinutes : Z)
| ServiceCondition (serviceName : string) (consecutiveFailures : Z)
| ProcessCondition (processName : string) (consecutiveFailures : Z)
| ProcessResourceCondition (cpu : bool) (processName : string) (operator : ComparisonOperator)
    (value : Q) (durationMinutes : Z)
| BandwidthHighCondition (direction : string) (operator : ComparisonOperator) (value : Q) (durationMinutes : Z)
| DiskIoHighCondition (direction : string) (operator : ComparisonOperator) (value : Q) (durationMinutes : Z)
| NetworkErrorsCondition (interfaceName : option string) (errorType : string)
    (operator : ComparisonOperator) (value : Q) (windowMinutes : Z)
| PatchComplianceCondition (operator : ComparisonOperator) (value : Q)
| CertExpiryCondition (withinDays : Z).

Inductive RootCondition :=
| Single (c : AlertCondition)
| ConditionGroup (all : bool) (conditions : list RootCondition).

(** ** Meaning *)

Definition compares (op : ComparisonOperator) (a t : Q) : Prop :=
  match op with
  | op_gt => t < a | op_gte => t <= a | op_lt => a < t | op_lte => a <= t
  | op_eq => a == t | op_neq => ¬ a == t
  end%Q.

(** Samples of a device in the last minutes. *)
Definition sample (db : MonitorDb) (now : Z) (deviceId : string) (minutes : Z) (m : metricRow) : Prop :=
  m ∈ deviceMetrics db ∧ mt_deviceId m = deviceId ∧ now - minutes * 60000 <= mt_timestamp m.

(** There are samples, and every one of them compares. *)
Definition all_samples {A} (rows : A → Prop) (value : A → option Q) (op : ComparisonOperator) (t : Q) : Prop :=
  (∃ m, rows m) ∧ ∀ m, rows m → ∃ v, value m = Some v ∧ compares op v t.

(** The last [n] checks exist and none of them found the watched name running. *)
Definition failing (db : MonitorDb) (deviceId watchType name : string) (n : Z) : Prop :=
  ∃ recent older, checks_of db deviceId watchType name = recent ++ older ∧
    Z.of_nat (length recent) = n ∧ ∀ r, r ∈ recent → ck_status r ≠ "running"%string.

Definition severity (level : string) : option nat :=
  fst <$> list_find (λ x, x = level) EventLog.levelOrder.
Definition level_at_least (level row : string) : Prop :=
  match severity level, severity row with Some i, Some j => (i <= j)%nat | _, _ => False end.
#[export] Instance level_at_least_dec level row : Decision (level_at_least level row).
Proof. unfold level_at_least. destruct (severity level), (severity row); apply _. Defined.

(** Case-insensitive search. *)
Definition mentions (pattern : option string) (column : string) : Prop :=
  match pattern with
  | None => True
  | Some p => ∃ a b, chars (toLowerCase column) = a ++ chars (toLowerCase p) ++ b
  end.

Lemma startsWith_spec p s : startsWith p s = true ↔ ∃ b, chars s = chars p ++ b.
Proof.
  revert s. induction p as [|c p IH]; intros s; simpl; [naive_solver|].
  destruct s as [|d s]; simpl; [naive_solver|]. rewrite andb_true_iff, Ascii.eqb_eq, IH.
  split; [intros [-> [b ->]]; by exists b | intros [b [= -> Hb]]; split; [done | by exists b]].
Qed.
Lemma includes_spec p s : includes p s = true ↔ ∃ a b, chars s = a ++ chars p ++ b.
Proof.
  induction s as [|c s IH]; simpl; rewrite orb_true_iff, startsWith_spec; simpl.
  - split; [intros [[b Hb]|]; [by exists [], b|done] | intros (a & b & Hb)].
    left. exists b. by destruct a.
  - rewrite IH. split.
    + intros [[b Hb]|(a & b & Hb)]; [by exists [], b | exists (c :: a), b; by rewrite Hb].
    + intros (a & b & Hb). destruct a as [|x a]; simplify_eq/=; [left; by exists b | right; by exists a, b].
Qed.
#[export] Instance mentions_dec pattern column : Decision (mentions pattern column).
Proof.
  destruct pattern as [p|]; simpl; [|apply _].
  refine (cast_if (decide (includes (toLowerCase p) (toLowerCase column) = true))); by rewrite <- includes_spec.
Defined.

(** An entry of the event log that a condition counts. *)
Definition counted (now : Z) (deviceId category level : string) (sourcePattern messagePattern : option string)
    (windowMinutes : Z) (e : eventLogRow) : Prop :=
  el_deviceId e = deviceId ∧ el_category e = category ∧ now - windowMinutes * 60000 <= el_timestamp e ∧
  level_at_least level (el_level e) ∧ mentions sourcePattern (el_source e) ∧
  mentions messagePattern (el_message e).
#[export] Instance counted_dec now d c l s m w e : Decision (counted now d c l s m w e).
Proof. unfold counted. apply _. Defined.

(** The interfaces in the samples of a window, and the errors of one of them. *)
Definition window_interfaces (db : MonitorDb) (now : Z) (deviceId : string) (minutes : Z) : list json :=
  latest_first mt_timestamp
    (filter (λ m, mt_deviceId m = deviceId ∧ now - minutes * 60000 <= mt_timestamp m) (deviceMetrics db))
  ≫= λ m, match mt_interfaceStats m with Some (JArr l) => l | _ => [] end.
Definition named (interfaceName : option string) (iface : json) : Prop :=
  truthy interfaceName = true → as_string (field "name" iface) = interfaceName.
#[export] Instance named_dec n i : Decision (named n i).
Proof. unfold named. apply _. Defined.
Definition interface_errors (errorType : string) (iface : json) : num :=
  let inErr := NetworkErrors.count_of (field "inErrors" iface) in
  let outErr := NetworkErrors.count_of (field "outErrors" iface) in
  if bool_decide (errorType = "in"%string) then inErr
  else if bool_decide (errorType = "out"%string) then outErr else nadd inErr outErr.

Definition holds_condition (db : MonitorDb) (now : Z) (deviceId : string) (c : AlertCondition) : Prop :=
  match c with
  | ThresholdCondition metric op value minutes =>
      all_samples (sample db now deviceId minutes) (λ m, metric_value m metric) op value
  | OfflineCondition minutes =>
      ∃ d, getDevice db deviceId = Some d ∧
        (dev_status d = "offline"%string ∨ ∃ seen, dev_lastSeenAt d = Some seen ∧ seen < now - minutes * 60000)
  | EventLogCondition category level source message count minutes =>
      count <= Z.of_nat (length (filter (counted now deviceId category level source message minutes)
                                   (deviceEventLogs db)))
  | ServiceCondition name n => failing db deviceId "service" name n
  | ProcessCondition name n => failing db deviceId "process" name n
  | ProcessResourceCondition cpu name op value minutes =>
      all_samples (λ r, r ∈ checks_of db deviceId "process" name ∧ now - minutes * 60000 <= ck_timestamp r)
        (λ r, if cpu then ck_cpuPercent r else ck_memoryMb r) op value
  | BandwidthHighCondition direction op value minutes =>
      all_samples (sample db now deviceId minutes) (BandwidthHigh.bandwidth_bps (Some (JStr direction)))
        op (rnd (value * 1000000))
  | DiskIoHighCondition direction op value minutes =>
      all_samples (sample db now deviceId minutes) (DiskIoHigh.disk_bps (Some (JStr direction)))
        op (rnd (value * 1000000))
  | NetworkErrorsCondition interfaceName errorType op value minutes =>
      (∃ m, sample db now deviceId minutes m) ∧
      ∃ total, foldl nadd (nint 0) (interface_errors errorType <$>
                 filter (named interfaceName) (window_interfaces db now deviceId minutes)) = Some total ∧
        compares op total value
  | PatchComplianceCondition op value =>
      ∃ s, head (latest_first po_capturedAt
                   (filter (λ s, po_deviceId s = deviceId) (securityPostureSnapshots db))) = Some s ∧
           compares op (inject_Z (po_patchComplianceScore s)) value
  | CertExpiryCondition days =>
      ∃ d expiresAt, getDevice db deviceId = Some d ∧ dev_mtlsCertExpiresAt d = Some expiresAt ∧
        expiresAt <= now + days * 86400000
  end.

Fixpoint holds (db : MonitorDb) (now : Z) (deviceId : string) (c : RootCondition) : Prop :=
  match c with
  | Single a => holds_condition db now deviceId a
  | ConditionGroup true l => foldr (λ c P, holds db now deviceId c ∧ P) True l
  | ConditionGroup false l => foldr (λ c P, holds db now deviceId c ∨ P) False l
  end.

(** ** Reading a value as a condition *)

Definition operator_of (v : option json) : option ComparisonOperator :=
  match v with
  | Some (JStr "gt") => Some op_gt | Some (JStr "gte") => Some op_gte | Some (JStr "lt") => Some op_lt
  | Some (JStr "lte") => Some op_lte | Some (JStr "eq") => Some op_eq | Some (JStr "neq") => Some op_neq
  | _ => None
  end%string.

(** A whole number of a member, or its default. *)
Definition whole (k : string) (d : Z) (c : json) : Z :=
  match as_number (field k c) with Some q => Z.quot (Qnum q) (Zpos (Qden q)) | None => d end.

Definition as_condition (c : json) : option AlertCondition :=
  let op := operator_of (field "operator" c) in
  let value := as_number (field "value" c) in
  match field "type" c with
  | Some (JStr "threshold") | Some (JStr "metric") =>
      m ← normalizeMetricName (field "metric" c); o ← op; v ← value;
      Some (ThresholdCondition m o v (whole "durationMinutes" 1 c))
  | Some (JStr "offline") | Some (JStr "status") =>
      Some (OfflineCondition (whole "durationMinutes" (whole "duration" 5 c) c))
  | Some (JStr "event_log") =>
      category ← as_string (field "category" c); level ← as_string (field "level" c);
      Some (EventLogCondition category level
              (as_string (field "sourcePattern" c)) (as_string (field "messagePattern" c))
              (whole "countThreshold" 0 c) (whole "windowMinutes" 0 c))
  | Some (JStr "service_stopped") =>
      n ← as_string (field "serviceName" c); Some (ServiceCondition n (whole "consecutiveFailures" 2 c))
  | Some (JStr "process_stopped") =>
      n ← as_string (field "processName" c); Some (ProcessCondition n (whole "consecutiveFailures" 2 c))
  | Some (JStr "process_cpu_high") =>
      n ← as_string (field "processName" c); o ← op; v ← value;
      Some (ProcessResourceCondition true n o v (whole "durationMinutes" 5 c))
  | Some (JStr "process_memory_high") =>
      n ← as_string (field "processName" c); o ← op; v ← value;
      Some (ProcessResourceCondition false n o v (whole "durationMinutes" 5 c))
  | Some (JStr "bandwidth_high") =>
      d ← as_string (field "direction" c); o ← op; v ← value;
      Some (BandwidthHighCondition d o v (whole "durationMinutes" 1 c))
  | Some (JStr "disk_io_high") =>
      d ← as_string (field "direction" c); o ← op; v ← value;
      Some (DiskIoHighCondition d o v (whole "durationMinutes" 1 c))
  | Some (JStr "network_errors") =>
      t ← as_string (field "errorType" c); o ← op; v ← value;
      Some (NetworkErrorsCondition (as_string (field "interfaceName" c)) t o v (whole "windowMinutes" 5 c))
  | Some (JStr "patch_compliance") => o ← op; v ← value; Some (PatchComplianceCondition o v)
  | Some (JStr "cert_expiry") => Some (CertExpiryCondition (whole "withinDays" 0 c))
  | _ => None
  end%string.

Fixpoint as_root (c : json) : option RootCondition :=
  match c with
  | JObj fields =>
      match assoc "logic" fields with
      | Some logic =>
          on_key "conditions"
            (λ v, match v with
                  | JArr l => ConditionGroup (is_and logic) <$> mapM as_root l
                  | _ => None
                  end) None fields
      | None => Single <$> as_condition c
      end
  | _ => None
  end.

(** What validation leaves open: durations are whole and below a million, texts are texts. *)
Definition small_whole (v : option json) : bool :=
  match v with
  | None => true
  | Some (JNum q) => isInteger q && Qle_bool 1 q && Qle_bool q 1000000
  | _ => false
  end.
Definition textual (v : option json) : bool :=
  match v with None | Some (JStr _) => true | _ => false end.
Definition plain_leaf (c : json) : bool :=
  forallb (λ k, small_whole (field k c))
    ["durationMinutes"; "duration"; "windowMinutes"; "countThreshold"; "consecutiveFailures"; "withinDays"] &&
  forallb (λ k, textual (field k c)) ["sourcePattern"; "messagePattern"; "interfaceName"].
Fixpoint plain (c : json) : bool :=
  match c with
  | JObj fields =>
      match assoc "logic" fields with
      | Some _ =>
          on_key "conditions" (λ v, match v with JArr l => forallb plain l | _ => true end) true fields
      | None => plain_leaf c
      end
  | _ => true
  end.

(** ** Text search *)

Lemma special_lower c : EventLog.special (lower_ascii c) = EventLog.special c.
Proof. by destruct c as [[] [] [] [] [] [] [] []]. Qed.
Lemma special_fixed c : EventLog.special c = true → lower_ascii c = c.
Proof. by destruct c as [[] [] [] [] [] [] [] []]. Qed.

Lemma chars_lower s : chars (toLowerCase s) = lower_ascii <$> chars s.
Proof. induction s as [|c s IH]; simpl; [done|]. by rewrite IH. Qed.
Lemma chars_of_chars l : chars (of_chars l) = l.
Proof. apply String.list_ascii_of_string_of_list_ascii. Qed.

Lemma lower_escape l :
  lower_ascii <$> EventLog.escape_chars l = EventLog.escape_chars (lower_ascii <$> l).
Proof.
  unfold EventLog.escape_chars. induction l as [|c l IH]; [done|]. rewrite fmap_cons, !bind_cons, fmap_app, IH.
  f_equal. rewrite special_lower. destruct (EventLog.special c) eqn:E; [|done]. simpl. by rewrite (special_fixed c E).
Qed.

Lemma like_any p s :
  EventLog.like_chars ("%"%char :: p) s = true ↔ ∃ a b, s = a ++ b ∧ EventLog.like_chars p b = true.
Proof.
  simpl. induction s as [|x s IH]; rewrite orb_true_iff.
  - split; [intros [H|]; [by exists [], []|done] | intros (a & b & Hab & H)].
    symmetry in Hab. apply app_nil in Hab as [-> ->]. by left.
  - rewrite IH. split.
    + intros [H|(a & b & -> & H)]; [by exists [], (x :: s) | by exists (x :: a), b].
    + intros (a & b & Hab & H). destruct a as [|y a]; simplify_eq/=; [by left | right; by exists a, b].
Qed.

Lemma like_escaped l p s :
  EventLog.like_chars (EventLog.escape_chars l ++ p) s = true ↔
  ∃ b, s = l ++ b ∧ EventLog.like_chars p b = true.
Proof.
  revert s. induction l as [|c l IH]; intros s; [simpl; naive_solver|].
  unfold EventLog.escape_chars in *. rewrite bind_cons. destruct (EventLog.special c) eqn:E.
  - assert (EventLog.like_chars ((EventLog.escape_char :: c :: (l ≫= λ c, if EventLog.special c then
      [EventLog.escape_char; c] else [c])) ++ p) s =
      match s with x :: s' => Ascii.eqb c x && EventLog.like_chars ((l ≫= λ c, if EventLog.special c then
      [EventLog.escape_char; c] else [c]) ++ p) s' | [] => false end) as Hs by done.
    simpl app in *. rewrite Hs. destruct s as [|x s]; [naive_solver|].
    rewrite andb_true_iff, Ascii.eqb_eq, IH. naive_solver.
  - unfold EventLog.special in E. rewrite !orb_false_iff in E. destruct E as [[E1 E2] E3].
    simpl. rewrite E1, E2, E3. destruct s as [|x s]; [naive_solver|].
    rewrite andb_true_iff, Ascii.eqb_eq, IH. naive_solver.
Qed.

(** Searching for an escaped pattern between percent signs is searching for the text. *)
Lemma ilike_escaped s pattern :
  EventLog.ilike s ("%" +:+ EventLog.escapeLikePattern pattern +:+ "%") = true ↔ mentions (Some pattern) s.
Proof.
  unfold EventLog.ilike, EventLog.escapeLikePattern, mentions.
  rewrite !chars_lower, !chars_app, chars_of_chars, !fmap_app, lower_escape.
  change (lower_ascii <$> chars "%") with ["%"%char]. simpl app. rewrite like_any.
  setoid_rewrite like_escaped. split.
  - intros (a & b & -> & b' & -> & _). by exists a, b'.
  - intros (a & b & ->). exists a, ((lower_ascii <$> chars pattern) ++ b). split; [done|].
    exists b. split; [done|]. rewrite like_any. exists b, []. by rewrite app_nil_r.
Qed.

(** ** Numbers *)

Lemma Qlt_bool_iff a b : Qlt_bool a b = true ↔ (a < b)%Q.
Proof. unfold Qlt_bool. rewrite negb_true_iff, <- not_true_iff_false, Qle_bool_iff. split; [apply Qnot_le_lt | apply Qlt_not_le]. Qed.

Lemma compareValue_spec a o t op v :
  operator_of o = Some op → t = Some (JNum v) → compareValue (Some a) o t = true ↔ compares op a v.
Proof.
  intros Ho ->. unfold operator_of in Ho. unfold compareValue, number_of.
  repeat case_match; simplify_eq/=;
    rewrite ?negb_true_iff, <- ?not_true_iff_false, ?Qlt_bool_iff, ?Qle_bool_iff, ?Qeq_bool_iff; done.
Qed.

Lemma time_clip_int q t :
  q == inject_Z t → Z.abs t <= 8640000000000000 → time_clip (Some q) = Some t.
Proof.
  intros E Ht. unfold time_clip. simpl. unfold Qeq in E. simpl in E. rewrite Z.mul_1_r in E.
  rewrite E, Z.quot_mul by done. by rewrite (proj2 (Z.leb_le _ _) Ht).
Qed.

Definition whole_between (q : Q) (n lo hi : Z) : Prop := q == inject_Z n ∧ lo <= n <= hi.

Lemma minutes_ago_whole now q n :
  0 <= now <= 8000000000000000 → whole_between q n 1 1000000 → minutes_ago now (Some q) = Some (now - n * 60000).
Proof.
  intros Hnow [E Hn]. unfold minutes_ago.
  destruct (nmul_int q n 60) as (r & -> & Er); [done | lia |].
  destruct (nmul_int r (n * 60) 1000) as (r' & -> & Er'); [done | lia |].
  apply time_clip_int; [|lia]. apply rnd_int; [|lia].
  rewrite Er'. change (inject_Z now - inject_Z (n * 60 * 1000) == inject_Z (now - n * 60000))%Q.
  unfold Z.sub, Qminus. rewrite inject_Z_plus, inject_Z_opp. do 2 f_equiv. by replace (n * 60 * 1000) with (n * 60000) by lia.
Qed.

Lemma days_ahead_whole now q n :
  0 <= now <= 8000000000000000 → whole_between q n 1 1000000 →
  CertExpiry.days_ahead now (Some q) = Some (now + n * 86400000).
Proof.
  intros Hnow [E Hn]. unfold CertExpiry.days_ahead.
  destruct (nmul_int q n 24) as (r1 & -> & E1); [done | lia |].
  destruct (nmul_int r1 (n * 24) 60) as (r2 & -> & E2); [done | lia |].
  destruct (nmul_int r2 (n * 24 * 60) 60) as (r3 & -> & E3); [done | lia |].
  destruct (nmul_int r3 (n * 24 * 60 * 60) 1000) as (r4 & -> & E4); [done | lia |].
  apply time_clip_int; [|lia]. apply rnd_int; [|lia].
  rewrite E4, <- inject_Z_plus. by replace (now + n * 24 * 60 * 60 * 1000) with (now + n * 86400000) by lia.
Qed.

Lemma isInteger_quot q : isInteger q = true → q == inject_Z (Z.quot (Qnum q) (Zpos (Qden q))).
Proof.
  unfold isInteger. intros H%Pos.eqb_eq. pose proof (Qred_correct q) as E.
  destruct (Qred q) as [n d]. simpl in H. subst d. unfold Qeq in *. simpl in *.
  rewrite !Z.mul_1_r in *. rewrite <- E. by rewrite Z.quot_mul.
Qed.

Lemma small_whole_spec k c d :
  small_whole (field k c) = true → 1 <= d <= 1000000 → 1 <= whole k d c <= 1000000.
Proof.
  unfold small_whole, whole. intros H Hd. destruct (field k c) as [[]|]; simplify_eq/=; [|done].
  rewrite !andb_true_iff in H. destruct H as [[Hi H1] H2]. apply isInteger_quot in Hi.
  apply Qle_bool_iff in H1. apply Qle_bool_iff in H2.
  remember (Z.quot (Qnum q) (Zpos (Qden q))) as n eqn:En. clear En. rewrite Hi in H1, H2.
  change 1%Q with (inject_Z 1) in H1. change 1000000%Q with (inject_Z 1000000) in H2.
  rewrite <- Zle_Qle in H1, H2. done.
Qed.

(** Reading a member that may be absent, with the default of the code. *)
Lemma whole_number k c : small_whole (field k c) = true →
  match field k c with
  | None => True
  | Some v => ∃ q, v = JNum q ∧ Qlt_bool 0 q = true ∧ ∀ d, whole_between q (whole k d c) 1 1000000
  end.
Proof.
  intros H. pose proof (small_whole_spec k c 1 H ltac:(lia)) as Hb.
  unfold whole_between, whole, small_whole in *. destruct (field k c) as [[]|]; simplify_eq/=; [|done].
  rewrite !andb_true_iff in H. destruct H as [[Hi%isInteger_quot _] _].
  exists q. split; [done|]. split; [|done]. rewrite Qlt_bool_iff.
  remember (Z.quot (Qnum q) (Zpos (Qden q))) as n eqn:En. clear En. rewrite Hi.
  change 0%Q with (inject_Z 0). rewrite <- Zlt_Qlt. lia.
Qed.

Lemma required_whole k c q : field k c = Some (JNum q) → small_whole (field k c) = true →
  ∀ d, whole_between q (whole k d c) 1 1000000.
Proof. intros E H. apply whole_number in H. rewrite E in H. by destruct H as (? & [= <-] & _ & ?). Qed.

Lemma whole_default k c (d : positive) : small_whole (field k c) = true → Zpos d <= 1000000 →
  ∃ q, or_default (field k c) (JNum (Zpos d # 1)) = JNum q ∧ whole_between q (whole k (Zpos d) c) 1 1000000.
Proof.
  intros H Hd. pose proof (whole_number k c H) as Hw. unfold or_default.
  destruct (field k c) as [v|] eqn:E.
  - destruct Hw as (q & -> & Hp & Hq). exists q. split; [|done]. simpl.
    destruct (Qeq_bool q 0) eqn:E0; [|done]. apply Qeq_bool_iff in E0. by rewrite Qlt_bool_iff, E0 in Hp.
  - exists (Zpos d # 1). split; [done|]. unfold whole, whole_between. rewrite E. simpl. split; [done|]. lia.
Qed.

Lemma whole_nullish k c (d : positive) : small_whole (field k c) = true → Zpos d <= 1000000 →
  ∃ q, nullish (field k c) (JNum (Zpos d # 1)) = JNum q ∧ whole_between q (whole k (Zpos d) c) 1 1000000.
Proof.
  intros H Hd. pose proof (whole_number k c H) as Hw. destruct (field k c) as [v|] eqn:E.
  - destruct Hw as (q & -> & _ & Hq). by exists q.
  - exists (Zpos d # 1). split; [done|]. unfold whole, whole_between. rewrite E. simpl. split; [done|]. lia.
Qed.

(** ** Handlers *)

Lemma forallb_fmap {A B} (f : B → bool) (g : A → B) l : forallb f (g <$> l) = forallb (λ x, f (g x)) l.
Proof. induction l as [|x l IH]; simpl; [done|]. by rewrite <- IH. Qed.

(** A handler returns, and its verdict is the meaning. *)
Definition decides (r : outcome EvalError ConditionResult) (P : Prop) : Prop :=
  ∃ res, r = Ok res ∧ (passed res = true ↔ P).

#[export] Instance decides_proper r : Proper (iff ==> iff) (decides r).
Proof. intros P Q HPQ. unfold decides. by setoid_rewrite HPQ. Qed.

Lemma decides_failed t (P : Prop) : ¬ P → decides (failed t) P.
Proof. intros HP. eexists. split; [done|]. simpl. split; [done | intros ?; by destruct HP]. Qed.

Lemma check_nil bad path m : check bad path m = [] ↔ bad = false.
Proof. unfold check. by destruct bad. Qed.

Lemma one_of_Some l v : negb (one_of l v) = false → ∃ s, v = Some (JStr s) ∧ s ∈ l.
Proof. unfold one_of. rewrite negb_false_iff. intros Hv. destruct v as [[]|]; try done. bool_prop. by exists s. Qed.
Lemma operator_valid v : negb (one_of OPERATORS v) = false → ∃ op, operator_of v = Some op.
Proof.
  intros (s & -> & Hs)%one_of_Some. unfold OPERATORS in Hs.
  repeat (apply elem_of_cons in Hs as [->|Hs]; [eexists; reflexivity|]). by apply not_elem_of_nil in Hs.
Qed.
Lemma metric_valid v :
  negb (one_of Threshold.validMetrics v) = false → ∃ m, normalizeMetricName v = Some m.
Proof.
  intros (s & -> & Hs)%one_of_Some.
  repeat (apply elem_of_cons in Hs as [->|Hs]; [eexists; vm_compute; reflexivity|]). by apply not_elem_of_nil in Hs.
Qed.
Lemma is_number_Some v : negb (is_number v) = false → ∃ q, v = Some (JNum q).
Proof. unfold is_number. destruct v as [[]|]; try done. eauto. Qed.
Lemma nonempty_string_Some v : negb (nonempty_string v) = false → ∃ s, v = Some (JStr s).
Proof. unfold nonempty_string. destruct v as [[]|]; try done. eauto. Qed.

(** What a passed validation says, one fact per check. *)
Ltac validated H :=
  repeat (rewrite app_nil in H; let H1 := fresh "Hc" in destruct H as [H1 H]; apply check_nil in H1);
  try apply check_nil in H;
  repeat match goal with
  | H : negb (one_of OPERATORS _) = false |- _ => apply operator_valid in H as (?op & ?)
  | H : negb (one_of Threshold.validMetrics _) = false |- _ => apply metric_valid in H as (?m & ?)
  | H : negb (one_of _ _) = false |- _ => apply one_of_Some in H as (?s & ?E & ?)
  | H : negb (is_number _) || _ = false |- _ => apply orb_false_iff in H as [H _]
  | H : negb (is_number _) = false |- _ => apply is_number_Some in H as (?v & ?E)
  | H : negb (nonempty_string _) = false |- _ => apply nonempty_string_Some in H as (?s & ?E)
  end.

Section handlers.
Context `{SqlParamsLaws} (db : MonitorDb) (now : Z) (deviceId : string).
Context (Hnow : 0 <= now <= 8000000000000000).

Lemma recent_metrics q n : whole_between q n 1 1000000 →
  ∃ l, getRecentMetrics db now deviceId (Some q) = Ok l ∧
    l = latest_first mt_timestamp (filter (λ m, mt_deviceId m = deviceId ∧ now - n * 60000 <= mt_timestamp m)
          (deviceMetrics db)) ∧
    ∀ m, m ∈ l ↔ sample db now deviceId n m.
Proof using Hnow.
  intros Hq. eexists. unfold getRecentMetrics. rewrite (minutes_ago_whole now q n) by done.
  split; [done|]. split; [done|]. intros m. unfold latest_first, sample.
  rewrite elem_of_sort_by, list_elem_of_filter. tauto.
Qed.

Lemma all_samples_spec {A} (l : list A) rows value o t op v :
  (∀ m, m ∈ l ↔ rows m) → operator_of o = Some op → t = Some (JNum v) → l ≠ [] →
  forallb (λ m, match value m with Some x => compareValue (Some x) o t | None => false end) l = true ↔
  all_samples rows value op v.
Proof.
  intros Hl Ho Ht Hne. rewrite forallb_forall. unfold all_samples. split.
  - intros Hall. split; [destruct l as [|m l]; [done|]; exists m; apply Hl; left|].
    intros m Hm%Hl%list_elem_of_In. specialize (Hall m Hm). destruct (value m) as [x|]; [|done].
    exists x. split; [done|]. by rewrite <- compareValue_spec.
  - intros [_ Hall] m Hm%list_elem_of_In%Hl. destruct (Hall m Hm) as (x & -> & Hx). by rewrite compareValue_spec.
Qed.

Lemma no_samples {A} (l : list A) rows value op v :
  (∀ m, m ∈ l ↔ rows m) → l = [] → ¬ all_samples rows value op v.
Proof. intros Hl -> [[m Hm%Hl] _]. by apply not_elem_of_nil in Hm. Qed.

Lemma threshold_decides c path :
  Threshold.validateThreshold c path = [] → small_whole (field "durationMinutes" c) = true →
  ∃ m o v, normalizeMetricName (field "metric" c) = Some m ∧ operator_of (field "operator" c) = Some o ∧
    field "value" c = Some (JNum v) ∧
    decides (Threshold.evaluateThreshold db now c deviceId)
      (all_samples (sample db now deviceId (whole "durationMinutes" 1 c)) (λ r, metric_value r m) o v).
Proof using Hnow.
  unfold Threshold.validateThreshold. intros Hv Hd. validated Hv.
  eexists _, _, _. do 3 (split; [eassumption|]). unfold Threshold.evaluateThreshold.
  erewrite (ltac:(eassumption) : normalizeMetricName _ = _).
  destruct (whole_default "durationMinutes" c 1 Hd ltac:(lia)) as (q & -> & Hq).
  change (to_number (JNum q)) with (Some q). destruct (recent_metrics q _ Hq) as (l & -> & _ & Hl). simpl mbind. destruct l as [|r l].
  - apply decides_failed. by eapply no_samples.
  - eexists. split; [done|]. cbn [passed]. by eapply all_samples_spec.
Qed.
(** The same for values that are never missing. *)
Lemma all_samples_total {A} (l : list A) rows (value : A → num) o t op v :
  (∀ m, ∃ x, value m = Some x) →
  (∀ m, m ∈ l ↔ rows m) → operator_of o = Some op → t = Some (JNum v) → l ≠ [] →
  forallb (λ m, compareValue (value m) o t) l = true ↔ all_samples rows value op v.
Proof.
  intros Hval Hl Ho Ht Hne. rewrite <- (all_samples_spec l rows value o t op v) by done.
  rewrite !forallb_forall. apply forall_proper. intros m. by destruct (Hval m) as [x ->].
Qed.

Lemma directed_Some d a b x y : ∃ z, directed d a b x y = Some z.
Proof. unfold directed, bps. repeat case_match; eauto. Qed.

Lemma rate_decides label noData unit value dirs err c path :
  validate_rate dirs err c path = [] → small_whole (field "durationMinutes" c) = true →
  (∀ d m, ∃ x, value d m = Some x) →
  ∃ d o v, field "direction" c = Some (JStr d) ∧ operator_of (field "operator" c) = Some o ∧
    field "value" c = Some (JNum v) ∧
    decides (evaluate_rate label noData unit value db now c deviceId)
      (all_samples (sample db now deviceId (whole "durationMinutes" 1 c)) (value (Some (JStr d)))
         o (rnd (v * 1000000))).
Proof using Hnow.
  unfold validate_rate. intros Hv Hd Hval. validated Hv.
  eexists _, _, _. do 3 (split; [eassumption|]). unfold evaluate_rate.
  destruct (whole_default "durationMinutes" c 1 Hd ltac:(lia)) as (q & -> & Hq).
  change (to_number (JNum q)) with (Some q). destruct (recent_metrics q _ Hq) as (l & -> & _ & Hl).
  simpl mbind. destruct l as [|r l].
  - apply decides_failed. by eapply no_samples.
  - eexists. split; [done|]. cbn [passed].
    repeat match goal with E : field _ c = Some _ |- _ => rewrite E; clear E end.
    by apply all_samples_total.
Qed.

Lemma offline_decides c :
  small_whole (field "durationMinutes" c) = true → small_whole (field "duration" c) = true →
  decides (Offline.evaluateOffline db now c deviceId)
    (holds_condition db now deviceId (OfflineCondition (whole "durationMinutes" (whole "duration" 5 c) c))).
Proof using Hnow.
  intros H1 H2. unfold Offline.evaluateOffline. simpl.
  destruct (getDevice db deviceId) as [d|]; [|apply decides_failed; naive_solver].
  eexists. split; [done|]. simpl. set (n := whole _ _ _).
  assert (minutes_ago now (Some (Offline.resolveDurationMinutes c)) = Some (now - n * 60000)) as ->.
  { apply minutes_ago_whole; [done|]. unfold Offline.resolveDurationMinutes, n.
    apply whole_number in H1. apply whole_number in H2. unfold whole.
    destruct (field "durationMinutes" c) as [v|] eqn:E1; [destruct H1 as (q & -> & Hp & Hq)|clear H1].
    - specialize (Hq 1). unfold whole in Hq. rewrite E1 in Hq. simpl in *. by rewrite Hp.
    - destruct (field "duration" c) as [v|] eqn:E2; [destruct H2 as (q & -> & Hp & Hq)|by split].
      specialize (Hq 1). unfold whole in Hq. rewrite E2 in Hq. simpl in *. by rewrite Hp. }
  rewrite orb_true_iff, bool_decide_eq_true. split.
  - intros [?|Hs]; exists d; (split; [done|]); [by left|]. right.
    destruct (dev_lastSeenAt d); [|done]. bool_prop. eauto.
  - intros (? & [= <-] & [?|(t & -> & Ht)]); [by left|]. right. by apply Z.ltb_lt.
Qed.
(** ** Watched services and processes *)

Lemma failing_take watchType name n (l := checks_of db deviceId watchType name) :
  1 <= n → n <= Z.of_nat (length (filter (λ r, ck_status r ≠ "running"%string) (take (Z.to_nat n) l))) ↔
  failing db deviceId watchType name n.
Proof.
  intros Hn. unfold failing. fold l. split.
  - intros Hl. exists (take (Z.to_nat n) l), (drop (Z.to_nat n) l). rewrite take_drop. split; [done|].
    pose proof (length_filter (λ r, ck_status r ≠ "running"%string) (take (Z.to_nat n) l)) as Hf.
    assert (length (take (Z.to_nat n) l) <= Z.to_nat n)%nat by (rewrite length_take; lia).
    split; [lia|]. intros r Hr Hrun.
    pose proof (length_filter_lt (λ r, ck_status r ≠ "running"%string) _ r Hr ltac:(by intros [])). lia.
  - intros (recent & older & -> & Hlen & Hall). rewrite take_app_le, take_ge by lia.
    assert (filter (λ r, ck_status r ≠ "running"%string) recent = recent) as ->; [|lia].
    clear Hlen. induction recent as [|r l' IH]; [done|]. rewrite filter_cons_True by (apply Hall; left).
    by rewrite IH by (intros; apply Hall; by right).
Qed.

Lemma stopped_decides (q : Q) (n : Z) l d a :
  whole_between q n 1 1000000 →
  decides (Ok {| passed := num_rel Qle_bool (to_number (JNum q)) (Some (stopped_count l)); description := d;
                 actualValue := a |})
    (n <= Z.of_nat (length (filter (λ r, ck_status r ≠ "running"%string) l))).
Proof.
  intros [Hq _]. eexists. split; [done|]. cbn [passed]. unfold stopped_count, num_rel. simpl.
  rewrite Qle_bool_iff, Hq. by rewrite <- Zle_Qle.
Qed.

Lemma watch_valid name c path :
  validate_watch name c path = [] → small_whole (field "consecutiveFailures" c) = true →
  ∃ s q, field name c = Some (JStr s) ∧ nullish (field "consecutiveFailures" c) (JNum 2) = JNum q ∧
    whole_between q (whole "consecutiveFailures" 2 c) 1 1000000 ∧
    limit_param (JNum q) = Ok (Some (Z.to_nat (whole "consecutiveFailures" 2 c))).
Proof using H0.
  unfold validate_watch. intros Hv Hd. validated Hv.
  destruct (whole_nullish "consecutiveFailures" c 2 Hd ltac:(lia)) as (q & Hq & Hw).
  eexists _, q. split; [eassumption|]. split; [done|]. split; [done|]. apply limit_param_nat.
  destruct Hw as [-> Hb]. by rewrite Z2Nat.id by lia.
Qed.

Lemma process_decides c path :
  Process.validateProcess c path = [] → small_whole (field "consecutiveFailures" c) = true →
  ∃ s, field "processName" c = Some (JStr s) ∧
    decides (Process.evaluateProcess db now c deviceId)
      (failing db deviceId "process" s (whole "consecutiveFailures" 2 c)).
Proof using H0.
  intros Hv Hd. destruct (watch_valid _ _ _ Hv Hd) as (s & q & Hs & Hq & Hw & Hl). exists s. split; [done|].
  unfold Process.evaluateProcess. rewrite Hq, Hs, text_param_string. simpl mbind. rewrite Hl. simpl mbind.
  rewrite <- failing_take by apply Hw. simpl limit.
  destruct (take _ (checks_of db deviceId "process" s)) as [|r l].
  - apply decides_failed. destruct Hw as [_ Hw]. simpl. lia.
  - by apply stopped_decides.
Qed.

Lemma service_decides c path :
  Service.validateService c path = [] → small_whole (field "consecutiveFailures" c) = true →
  ∃ s, field "serviceName" c = Some (JStr s) ∧
    decides (Service.evaluateService db now c deviceId)
      (failing db deviceId "service" s (whole "consecutiveFailures" 2 c)).
Proof using H0.
  intros Hv Hd. destruct (watch_valid _ _ _ Hv Hd) as (s & q & Hs & Hq & Hw & Hl). exists s. split; [done|].
  unfold Service.evaluateService. rewrite Hq, Hs, text_param_string. simpl mbind. rewrite Hl.
  destruct (checks_of db deviceId "service" s) as [|r l] eqn:Ec.
  - apply decides_failed. intros (recent & older & Hr & Hlen & _). rewrite Ec in Hr. symmetry in Hr.
    apply app_nil in Hr as [-> _]. destruct Hw as [_ Hw]. simpl in Hlen. lia.
  - case_bool_decide as Hrun.
    + apply decides_failed. intros (recent & older & Hr & Hlen & Hall). rewrite Ec in Hr.
      destruct recent as [|r' recent]; [destruct Hw as [_ Hw]; simpl in Hlen; lia|].
      simplify_eq/=. by apply (Hall r'); [left|].
    + simpl mbind. rewrite <- failing_take by apply Hw. rewrite Ec. by apply stopped_decides.
Qed.

Lemma processResource_decides c path :
  ProcessResource.validateProcessResource c path = [] → small_whole (field "durationMinutes" c) = true →
  ∃ s o v, field "processName" c = Some (JStr s) ∧ operator_of (field "operator" c) = Some o ∧
    field "value" c = Some (JNum v) ∧
    decides (ProcessResource.evaluateProcessResource db now c deviceId)
      (holds_condition db now deviceId
         (ProcessResourceCondition (strict_eq (field "type" c) (Some (JStr "process_cpu_high"))) s o v
            (whole "durationMinutes" 5 c))).
Proof using Hnow H0.
  unfold ProcessResource.validateProcessResource. intros Hv Hd. validated Hv.
  eexists _, _, _. do 3 (split; [eassumption|]). unfold ProcessResource.evaluateProcessResource.
  destruct (whole_default "durationMinutes" c 5 Hd ltac:(lia)) as (q & -> & Hq).
  match goal with E : field "processName" c = _ |- _ => rewrite E end. rewrite text_param_string. simpl mbind.
  rewrite (minutes_ago_whole now q _ Hnow Hq). simpl mbind. set (cpu := strict_eq _ _).
  unfold holds_condition. set (n := whole _ _ _).
  set (col := λ r : checkResultRow, if cpu then ck_cpuPercent r else ck_memoryMb r).
  set (l := filter _ _).
  assert (∀ r, r ∈ l ↔ r ∈ checks_of db deviceId "process" s ∧ now - n * 60000 <= ck_timestamp r) as Hl.
  { intros r. unfold l. rewrite list_elem_of_filter. tauto. }
  clearbody l. destruct l as [|r l].
  - apply decides_failed. by eapply (no_samples []).
  - simpl fmap. eexists. split; [done|]. cbn [passed].
    rewrite <- (all_samples_spec (r :: l) _ col) by done. 
    by rewrite <- (forallb_fmap (λ v : num, match v with
      Some x => compareValue (Some x) (field "operator" c) (field "value" c) | None => false end) col).
Qed.
(** ** Event log *)

Lemma pattern_valid v : textual v = true →
  ∃ p, EventLog.pattern_of v = Ok p ∧
    ∀ column, EventLog.matches_pattern p column = true ↔ mentions (as_string v) column.
Proof.
  unfold textual, EventLog.pattern_of. destruct v as [[| | |s| |]|]; try done; intros _; [|by exists None].
  destruct s as [|x s]; simpl.
  - exists None. split; [done|]. intros column. split; [|done]. intros _. by exists [], (chars (toLowerCase column)).
  - eexists. split; [done|]. intros column. apply ilike_escaped.
Qed.

Lemma severity_lookup i row : severity row = Some i ↔ EventLog.levelOrder !! i = Some row.
Proof.
  unfold severity. rewrite fmap_Some. split.
  - intros ([k x] & (Hk & -> & _)%list_find_Some & ->). done.
  - intros Hi. exists (i, row). split; [|done].
    do 4 (destruct i as [|i]; [by simplify_eq/=|]). done.
Qed.

Lemma matches_level_spec level row :
  is_Some (severity level) →
  EventLog.matches_level (Some (JStr level)) row = true ↔ level_at_least level row.
Proof.
  intros [i Hi]. unfold EventLog.matches_level, level_at_least. rewrite Hi. unfold severity in Hi.
  apply fmap_Some in Hi as ([i' x] & -> & ->). rewrite bool_decide_eq_true, list_elem_of_lookup.
  setoid_rewrite lookup_drop. setoid_rewrite <- severity_lookup. split.
  - intros [k ->]. simpl. lia.
  - destruct (severity row) as [j|]; [|done]. intros Hij. exists (j - i')%nat. f_equal. simpl in Hij. lia.
Qed.

#[local] Arguments EventLog.matches_level : simpl never.
#[local] Arguments EventLog.matches_pattern : simpl never.

Lemma eventLog_decides c path :
  EventLog.validateEventLog c path = [] → small_whole (field "windowMinutes" c) = true →
  small_whole (field "countThreshold" c) = true → textual (field "sourcePattern" c) = true →
  textual (field "messagePattern" c) = true →
  ∃ category level, field "category" c = Some (JStr category) ∧ field "level" c = Some (JStr level) ∧
    decides (EventLog.evaluateEventLog db now c deviceId)
      (holds_condition db now deviceId
         (EventLogCondition category level (as_string (field "sourcePattern" c))
            (as_string (field "messagePattern" c)) (whole "countThreshold" 0 c) (whole "windowMinutes" 0 c))).
Proof using Hnow H0.
  unfold EventLog.validateEventLog. intros Hv Hw Hn Hs Hm. validated Hv.
  eexists _, _. do 2 (split; [eassumption|]). unfold EventLog.evaluateEventLog.
  destruct (pattern_valid _ Hs) as (ps & -> & Hps). destruct (pattern_valid _ Hm) as (pm & -> & Hpm).
  match goal with E : field "windowMinutes" c = Some _ |- _ =>
    pose proof (required_whole _ _ _ E Hw 0) as Hqw; rewrite E end.
  match goal with E : field "countThreshold" c = Some _ |- _ =>
    destruct (required_whole _ _ _ E Hn 0) as [Hqn _]; rewrite E end.
  repeat match goal with E : field _ c = Some (JStr _) |- _ => rewrite E end.
  simpl mbind. rewrite enum_param_value by done. simpl mbind.
  rewrite (minutes_ago_whole now _ _ Hnow Hqw). simpl mbind. eexists. split; [done|]. cbn [passed].
  unfold number_of, num_rel. simpl. rewrite Qle_bool_iff, Hqn, <- Zle_Qle.
  erewrite filter_ext_in; [done|]. intros e _. unfold counted.
  rewrite Hps, Hpm, matches_level_spec; [done|].
  repeat match goal with Hin : ?l ∈ ["warning"; _; _] |- _ =>
    repeat (apply elem_of_cons in Hin as [->|Hin]; [by eexists|]); by apply not_elem_of_nil in Hin end.
Qed.
(** ** Network errors, patches, certificates *)

Context (Hstats : ∀ m l, m ∈ deviceMetrics db → mt_interfaceStats m = Some (JArr l) → JNull ∉ l).

Lemma strict_eq_string v s : strict_eq v (Some (JStr s)) = bool_decide (as_string v = Some s).
Proof.
  destruct v as [[]|]; try done. simpl. destruct (String.eqb_spec s0 s) as [->|Hne]; [by rewrite bool_decide_true|].
  rewrite bool_decide_false; [done|congruence].
Qed.

Lemma bool_decide_Some (a b : string) : bool_decide (Some a = Some b) = bool_decide (a = b).
Proof. apply bool_decide_ext. split; [by intros [= ->] | by intros ->]. Qed.

Lemma add_interface_spec c et total iface :
  field "errorType" c = Some (JStr et) → textual (field "interfaceName" c) = true → iface ≠ JNull →
  NetworkErrors.add_interface c total iface =
  Ok (if decide (named (as_string (field "interfaceName" c)) iface)
      then nadd total (interface_errors et iface) else total).
Proof.
  intros Het Hn Hi. unfold NetworkErrors.add_interface, interface_errors, named. rewrite Het, !strict_eq_string.
  simpl as_string. rewrite !bool_decide_Some.
  destruct iface; try done;
    destruct (field "interfaceName" c) as [[| | |[|x n]| |]|]; try done; simpl;
    rewrite ?decide_True by done; try (by repeat case_bool_decide);
    rewrite strict_eq_string; case_decide; case_bool_decide; simpl; try done; try naive_solver;
    by repeat case_bool_decide.
Qed.

Lemma add_interfaces_spec c et total l :
  field "errorType" c = Some (JStr et) → textual (field "interfaceName" c) = true → JNull ∉ l →
  NetworkErrors.add_all (NetworkErrors.add_interface c) total l =
  Ok (foldl nadd total (interface_errors et <$> filter (named (as_string (field "interfaceName" c))) l)).
Proof.
  intros Het Hn. revert total. induction l as [|i l IH]; intros total Hl; [done|].
  apply not_elem_of_cons in Hl as [Hi Hl]. simpl. rewrite (add_interface_spec c et) by done. simpl.
  rewrite IH by done. rewrite filter_cons. by case_decide.
Qed.

Lemma add_metrics_spec c et total ms :
  field "errorType" c = Some (JStr et) → textual (field "interfaceName" c) = true →
  (∀ m, m ∈ ms → m ∈ deviceMetrics db) →
  NetworkErrors.add_all (NetworkErrors.add_metric c) total ms =
  Ok (foldl nadd total (interface_errors et <$> filter (named (as_string (field "interfaceName" c)))
        (ms ≫= λ m, match mt_interfaceStats m with Some (JArr l) => l | _ => [] end))).
Proof using Hnow Hstats.
  intros Het Hn. revert total. induction ms as [|m ms IH]; intros total Hms; [done|].
  rewrite bind_cons, filter_app, fmap_app, foldl_app. simpl.
  assert (NetworkErrors.add_metric c total m = Ok (foldl nadd total (interface_errors et <$>
    filter (named (as_string (field "interfaceName" c)))
      match mt_interfaceStats m with Some (JArr l) => l | _ => [] end))) as ->.
  { unfold NetworkErrors.add_metric. pose proof (Hstats m) as Hm.
    destruct (mt_interfaceStats m) as [[]|]; try done.
    apply (add_interfaces_spec c et); [done | done | apply Hm; [apply Hms; left | done]]. }
  simpl. apply IH. intros; apply Hms; by right.
Qed.

Lemma sum_Some total l : is_Some total → Forall is_Some l → is_Some (foldl nadd total l).
Proof.
  intros Ht Hl. revert total Ht. induction Hl as [|x l [q ->] _ IH]; intros total [t ->]; simpl; [by eexists|].
  apply IH. by eexists.
Qed.
Lemma interface_errors_Some et i : is_Some (interface_errors et i).
Proof. unfold interface_errors, NetworkErrors.count_of. repeat case_match; by eexists. Qed.

Lemma networkErrors_decides c path :
  NetworkErrors.validateNetworkErrors c path = [] → small_whole (field "windowMinutes" c) = true →
  textual (field "interfaceName" c) = true →
  ∃ et o v, field "errorType" c = Some (JStr et) ∧ operator_of (field "operator" c) = Some o ∧
    field "value" c = Some (JNum v) ∧
    decides (NetworkErrors.evaluateNetworkErrors db now c deviceId)
      (holds_condition db now deviceId
         (NetworkErrorsCondition (as_string (field "interfaceName" c)) et o v (whole "windowMinutes" 5 c))).
Proof using Hnow Hstats.
  unfold NetworkErrors.validateNetworkErrors. intros Hv Hd Hn. validated Hv.
  eexists _, _, _. do 3 (split; [eassumption|]). unfold NetworkErrors.evaluateNetworkErrors.
  destruct (whole_default "windowMinutes" c 5 Hd ltac:(lia)) as (q & -> & Hq).
  change (to_number (JNum q)) with (Some q). destruct (recent_metrics q _ Hq) as (l & -> & Hl & Hin).
  unfold holds_condition, window_interfaces. rewrite <- Hl. clear Hl. simpl mbind at 1.
  destruct l as [|m ms] eqn:El; rewrite <- El in *.
  - apply decides_failed. intros [[m Hm%Hin] _]. rewrite El in Hm. by apply not_elem_of_nil in Hm.
  - erewrite add_metrics_spec; [| eassumption | done | intros m' Hm'; by apply Hin in Hm' as [? _]].
    simpl mbind at 1. match goal with |- context [foldl nadd (nint 0) ?x] => set (es := x) end.
    destruct (sum_Some (nint 0) es) as [total Ht]; [by eexists | |].
    { unfold es. apply Forall_fmap, Forall_true. intros; apply interface_errors_Some. }
    rewrite Ht. eexists. split; [done|]. cbn [passed]. erewrite compareValue_spec by eassumption. split.
    + intros Hc. split; [exists m; apply Hin; rewrite El; left | by exists total].
    + by intros (_ & ? & [= <-] & ?).
Qed.

Lemma patchCompliance_decides c path :
  PatchCompliance.validatePatchCompliance c path = [] →
  ∃ o v, operator_of (field "operator" c) = Some o ∧ field "value" c = Some (JNum v) ∧
    decides (PatchCompliance.evaluatePatchCompliance db now c deviceId)
      (holds_condition db now deviceId (PatchComplianceCondition o v)).
Proof.
  unfold PatchCompliance.validatePatchCompliance. intros Hv. validated Hv.
  destruct (field "value" c) as [[| |v| | |]|] eqn:E; try done.
  eexists _, v. split; [eassumption|]. split; [done|]. unfold PatchCompliance.evaluatePatchCompliance. simpl.
  destruct (head _) as [r|]; [|apply decides_failed; naive_solver].
  eexists. split; [done|]. cbn [passed]. erewrite compareValue_spec by eassumption. naive_solver.
Qed.

Lemma certExpiry_decides c path :
  CertExpiry.validateCertExpiry c path = [] → small_whole (field "withinDays" c) = true →
  decides (CertExpiry.evaluateCertExpiry db now c deviceId)
    (holds_condition db now deviceId (CertExpiryCondition (whole "withinDays" 0 c))).
Proof using Hnow.
  unfold CertExpiry.validateCertExpiry. intros Hv Hd. validated Hv.
  unfold CertExpiry.evaluateCertExpiry, holds_condition.
  destruct (getDevice db deviceId) as [d|]; [|apply decides_failed; naive_solver].
  destruct (dev_mtlsCertExpiresAt d) as [t|] eqn:Et; [|apply decides_failed; naive_solver].
  eexists. split; [done|]. cbn [passed].
  match goal with E : field "withinDays" c = Some _ |- _ =>
    pose proof (required_whole _ _ _ E Hd 0) as Hq; rewrite E end.
  simpl number_of. rewrite (days_ahead_whole now _ _ Hnow Hq), Z.leb_le. naive_solver.
Qed.
(** ** Conditions and groups *)

Lemma registry_lookup t h : conditionRegistry !! t = Some h →
  (t, h) ∈ [("threshold", thresholdHandler); ("metric", thresholdHandler); ("offline", offlineHandler);
            ("status", offlineHandler); ("event_log", eventLogHandler); ("service_stopped", serviceHandler);
            ("process_stopped", processHandler);
            ("process_cpu_high", createProcessResourceHandler "process_cpu_high");
            ("process_memory_high", createProcessResourceHandler "process_memory_high");
            ("bandwidth_high", bandwidthHighHandler); ("disk_io_high", diskIoHighHandler);
            ("network_errors", networkErrorsHandler); ("patch_compliance", patchComplianceHandler);
            ("cert_expiry", certExpiryHandler)]%string.
Proof.
  unfold conditionRegistry. cbn [foldl register h_type h_aliases thresholdHandler offlineHandler eventLogHandler
    serviceHandler processHandler createProcessResourceHandler bandwidthHighHandler diskIoHighHandler
    networkErrorsHandler patchComplianceHandler certExpiryHandler]. intros Hl. rewrite list_elem_of_In.
  repeat (apply lookup_insert_Some in Hl as [[<- <-]|[_ Hl]]; [simpl; tauto|]). by rewrite lookup_empty in Hl.
Qed.

(** The facts of [plain_leaf]. *)
Lemma plain_leaf_spec c : plain_leaf c = true →
  (small_whole (field "durationMinutes" c) = true ∧ small_whole (field "duration" c) = true ∧
   small_whole (field "windowMinutes" c) = true ∧ small_whole (field "countThreshold" c) = true ∧
   small_whole (field "consecutiveFailures" c) = true ∧ small_whole (field "withinDays" c) = true) ∧
  textual (field "sourcePattern" c) = true ∧ textual (field "messagePattern" c) = true ∧
  textual (field "interfaceName" c) = true.
Proof. unfold plain_leaf. simpl. rewrite !andb_true_iff. tauto. Qed.

Lemma leaf_decides c path : registry_validate c path = [] → plain_leaf c = true →
  ∃ a, as_condition c = Some a ∧ decides (registry_evaluate db now c deviceId) (holds_condition db now deviceId a).
Proof using Hnow Hstats H0.
  unfold registry_validate, registry_evaluate. intros Hv Hp.
  destruct (get_handler c) as [h|] eqn:Eh; [|done]. unfold get_handler in Eh.
  destruct (field "type" c) as [[| | |t| |]|] eqn:Et; try done. simpl in Eh.
  apply plain_leaf_spec in Hp as ((Hdm & Hdu & Hwm & Hct & Hcf & Hwd) & Hsp & Hmp & Hif).
  apply registry_lookup in Eh. unfold as_condition. rewrite Et.
  repeat (apply elem_of_cons in Eh as [[= -> ->]|Eh]); [..|by apply not_elem_of_nil in Eh]; simpl in Hv |- *.
  - destruct (threshold_decides c path Hv Hdm) as (m & o & v & -> & -> & -> & Hd). eauto.
  - destruct (threshold_decides c path Hv Hdm) as (m & o & v & -> & -> & -> & Hd). eauto.
  - eexists. split; [done|]. by apply offline_decides.
  - eexists. split; [done|]. by apply offline_decides.
  - destruct (eventLog_decides c path Hv Hwm Hct Hsp Hmp) as (k & l & -> & -> & Hd). eauto.
  - destruct (service_decides c path Hv Hcf) as (n & -> & Hd). eauto.
  - destruct (process_decides c path Hv Hcf) as (n & -> & Hd). eauto.
  - destruct (processResource_decides c path Hv Hdm) as (n & o & v & -> & -> & -> & Hd). rewrite Et in Hd. eauto.
  - destruct (processResource_decides c path Hv Hdm) as (n & o & v & -> & -> & -> & Hd). rewrite Et in Hd. eauto.
  - destruct (rate_decides "Bandwidth " "No metrics available for bandwidth" " Mbps for " BandwidthHigh.bandwidth_bps
      _ _ c path Hv Hdm) as (d & o & v & -> & -> & -> & Hd); [intros; apply directed_Some | eauto].
  - destruct (rate_decides "Disk I/O " "No metrics available for disk I/O" " MB/s for " DiskIoHigh.disk_bps
      _ _ c path Hv Hdm) as (d & o & v & -> & -> & -> & Hd); [intros; apply directed_Some | eauto].
  - destruct (networkErrors_decides c path Hv Hwm Hif) as (et & o & v & -> & -> & -> & Hd). eauto.
  - destruct (patchCompliance_decides c path Hv) as (o & v & -> & -> & Hd). eauto.
  - eexists. split; [done|]. by apply (certExpiry_decides c path).
Qed.
(** A validated value is a condition, and evaluating it returns the verdict of its meaning. *)
Definition sound (c : json) : Prop :=
  ∀ path, validateSingle c path = [] → plain c = true →
  ∃ r, as_root c = Some r ∧
    ∀ acc, ∃ b acc', evaluateConditionRecursive db now deviceId c acc = Ok (b, acc') ∧
      (b = true ↔ holds db now deviceId r).

Lemma sound_list l : Forall sound l → ∀ path i,
  validate_each validateSingle path i l = [] → forallb plain l = true →
  ∃ rs, mapM as_root l = Some rs ∧
    ∀ acc, ∃ bs acc', evaluate_all (evaluateConditionRecursive db now deviceId) l acc = Ok (bs, acc') ∧
      Forall2 (λ b r, b = true ↔ holds db now deviceId r) bs rs.
Proof.
  induction 1 as [|c l Hc _ IH]; intros path i Hv Hp; [exists []; split; [done|]; intros acc; by exists [], acc|].
  simpl in Hv, Hp. apply app_nil in Hv as [Hv1 Hv2]. apply andb_true_iff in Hp as [Hp1 Hp2].
  destruct (Hc _ Hv1 Hp1) as (r & Hr & He). destruct (IH _ _ Hv2 Hp2) as (rs & Hrs & Hes).
  exists (r :: rs). split; [simpl; by rewrite Hr; simpl; rewrite Hrs|]. intros acc.
  destruct (He acc) as (b & acc1 & E1 & Hb). destruct (Hes acc1) as (bs & acc2 & E2 & Hbs).
  exists (b :: bs), acc2. simpl. rewrite E1, E2. split; [done|]. by constructor.
Qed.

Lemma group_verdict all bs rs : Forall2 (λ b r, b = true ↔ holds db now deviceId r) bs rs →
  (if all : bool then forallb id bs else existsb id bs) = true ↔ holds db now deviceId (ConditionGroup all rs).
Proof.
  induction 1 as [|b r bs rs Hb _ IH]; destruct all; simpl in *; [done..| |].
  - rewrite andb_true_iff, IH. unfold id. by rewrite Hb.
  - rewrite orb_true_iff, IH. unfold id. by rewrite Hb.
Qed.

Lemma sound_leaf fields : assoc "logic" fields = None → sound (JObj fields).
Proof using Hnow Hstats H0.
  intros El path Hv Hp. simpl in Hv, Hp. rewrite El in Hv, Hp.
  destruct (assoc "type" fields); [|done].
  destruct (leaf_decides _ _ Hv Hp) as (a & Ha & res & Hres & Hpass).
  exists (Single a). simpl. rewrite El, Ha. split; [done|]. intros acc. unfold evaluate_leaf. rewrite Hres. simpl.
  by eexists _, _.
Qed.

Lemma sound_group fields logic l :
  assoc "logic" fields = Some logic → assoc "conditions" fields = Some (JArr l) → Forall sound l →
  sound (JObj fields).
Proof.
  intros El Ec Hl path Hv Hp. simpl in Hv, Hp. rewrite El, on_key_assoc, Ec in Hv. rewrite El, on_key_assoc, Ec in Hp.
  apply app_nil in Hv as [_ Hv]. destruct (sound_list l Hl _ _ Hv Hp) as (rs & Hrs & He).
  exists (ConditionGroup (is_and logic) rs). simpl. rewrite El, !on_key_assoc, Ec, Hrs. split; [done|].
  intros acc. setoid_rewrite on_key_assoc. rewrite Ec. destruct (He acc) as (bs & acc' & -> & Hbs).
  eexists _, _. split; [done|]. by apply group_verdict.
Qed.

Lemma all_sound c : sound c.
Proof using Hnow Hstats H0.
  enough (sound c ∧ match c with JArr l => Forall sound l | _ => True end) by tauto.
  induction c as [| | | |l IH|fields IH] using json_induction; try by (split; [intros path Hv|]).
  - split; [by intros path Hv|]. eapply Forall_impl; [exact IH|]. by intros ? [? _].
  - split; [|done]. destruct (assoc "logic" fields) as [logic|] eqn:El; [|by apply sound_leaf].
    destruct (assoc "conditions" fields) as [v|] eqn:Ec.
    + pose proof (assoc_elem _ _ _ Ec) as Hin. rewrite Forall_forall in IH. destruct (IH _ Hin) as [_ Hm].
      simpl in Hm. destruct v as [| | | |l|]; [..|by eapply sound_group|].
      all: intros path Hv; simpl in Hv; rewrite El, on_key_assoc, Ec in Hv; by apply app_nil in Hv as [_ Hv].
    + intros path Hv; simpl in Hv; rewrite El, on_key_assoc, Ec in Hv; by apply app_nil in Hv as [_ Hv].
Qed.
End handlers.

(** The condition an evaluation walks: an array stands for the group of all its members. *)
Definition root_of (c : json) : json :=
  match c with JArr l => JObj [("logic", JStr "and"); ("conditions", JArr l)]%string | _ => c end.

(** C22 (conditions mean what they say): evaluating conditions that pass validation never
    fails and triggers exactly when their meaning holds of the device: every sample of the
    window compares, the last checks all failed, enough log entries match, groups are
    conjunctions and disjunctions.  Beyond validation, durations are whole numbers below a
    million, patterns are texts, and no stored interface is [null]. *)
Theorem conditions_decide_meaning `{SqlParamsLaws} db now deviceId c :
  0 <= now <= 8000000000000000 →
  (∀ m l, m ∈ deviceMetrics db → mt_interfaceStats m = Some (JArr l) → JNull ∉ l) →
  validateConditions (Some c) = [] → plain (root_of c) = true →
  ∃ r res, as_root (root_of c) = Some r ∧ evaluateConditions db now (Some c) deviceId = Ok res ∧
    (triggered res = true ↔ holds db now deviceId r).
Proof.
  intros Hnow Hstats Hv Hp.
  assert (∃ r, as_root (root_of c) = Some r ∧ ∀ acc, ∃ b acc',
    evaluateConditionRecursive db now deviceId (root_of c) acc = Ok (b, acc') ∧
    (b = true ↔ holds db now deviceId r)) as (r & Hr & He).
  { destruct c as [|[]|q|s|l|l]; try done; simpl in Hv.
    - by destruct (Qeq_bool q 0).
    - by destruct s.
    - eapply (sound_list db now deviceId l) in Hv as (rs & Hrs & He); [| |done].
      2: { apply Forall_true. intros; by apply all_sound. }
      exists (ConditionGroup true rs). split; [simpl; rewrite on_key_assoc; simpl; by rewrite Hrs|].
      intros acc. simpl. rewrite on_key_assoc. simpl. destruct (He acc) as (bs & acc' & -> & Hbs).
      eexists _, _. split; [done|]. by apply (group_verdict db now deviceId true).
    - exact (all_sound db now deviceId Hnow Hstats (JObj l) "conditions" Hv Hp). }
  destruct (He {| met := []; notMet := [] |}) as (b & acc & Hev & Hb). exists r.
  assert (evaluateConditions db now (Some c) deviceId = evaluate_root db now deviceId (root_of c)) as ->.
  { destruct c as [|[]|q|s|l|l]; try done. }
  unfold evaluate_root. rewrite Hev. eexists. split; [done|]. by split.
Qed.

(** ** Examples *)

Module AlertExample.
Open Scope string_scope.

(** A query layer that refuses every value of another type than the column's. *)
#[export] Instance strict_params : SqlParams := {|
  text_param v := match v with Some (JStr s) => Ok s | _ => Throw ParamError end;
  enum_param l v := match v with
                    | Some (JStr s) => if bool_decide (s ∈ l) then Ok s else Throw QueryError
                    | _ => Throw ParamError
                    end;
  limit_param v := match v with
                   | JNum q => if isInteger q && Qle_bool 0 q then Ok (Some (Z.to_nat (Qfloor q)))
                               else Throw QueryError
                   | _ => Throw ParamError
                   end |}.

#[export] Instance strict_params_laws : SqlParamsLaws.
Proof.
  split; [done | intros s l Hs; simpl; by rewrite bool_decide_true |
          intros s l Hs; simpl; by rewrite bool_decide_false |].
  intros q n Hq. simpl. assert (isInteger q = true) as ->.
  { unfold isInteger. rewrite (Qred_complete _ _ Hq). apply isInteger_inject. }
  assert (Qle_bool 0 q = true) as ->.
  { apply Qle_bool_iff. rewrite Hq. change 0%Q with (inject_Z 0). rewrite <- Zle_Qle. lia. }
  simpl. rewrite Hq, Qfloor_Z. by rewrite Nat2Z.id.
Qed.

Definition no_config : ConfigDb :=
  {| devices := []; organizations := []; partners := []; sites := []; memberships := []; assignments := [];
     policies := []; links := []; alertRules := []; automations := []; complianceRules := [];
     patchSettings := []; backupSettings := []; maintenanceSettings := [] |}.
Definition at_minute (t : Z) (cpu : Q) : metricRow :=
  {| mt_deviceId := "pc"; mt_timestamp := t * 60000; mt_cpuPercent := cpu; mt_ramPercent := 40; mt_diskPercent := 70;
     mt_processCount := None; mt_diskReadBps := None; mt_diskWriteBps := None; mt_bandwidthInBps := None;
     mt_bandwidthOutBps := None; mt_interfaceStats := Some (JArr [JObj [("name", JStr "eth0")]]) |}.
Definition check_at (t : Z) (status : string) : checkResultRow :=
  {| ck_deviceId := "pc"; ck_watchType := "service"; ck_name := "spooler"; ck_status := status;
     ck_cpuPercent := None; ck_memoryMb := None; ck_timestamp := t * 60000 |}.
Definition monitoring : MonitorDb :=
  {| m_config := no_config; deviceMetrics := [at_minute 96 99; at_minute 98 95; at_minute 99 97];
     deviceEventLogs := []; securityPostureSnapshots := [];
     serviceProcessCheckResults := [check_at 97 "running"; check_at 98 "stopped"; check_at 99 "stopped"] |}.

(** The processor above 90% for three minutes, and the spooler stopped or the device offline. *)
Definition busy_without_spooler : json :=
  JArr [JObj [("type", JStr "threshold"); ("metric", JStr "cpu"); ("operator", JStr "gt"); ("value", JNum 90);
              ("durationMinutes", JNum 3)];
        JObj [("logic", JStr "or");
              ("conditions", JArr [JObj [("type", JStr "status"); ("duration", JNum 10)];
                                   JObj [("type", JStr "service_stopped"); ("serviceName", JStr "spooler")]])]].

Lemma conditions_decide_meaning_witness :
  ∃ r res, as_root (root_of busy_without_spooler) = Some r ∧
    evaluateConditions monitoring 6000000 (Some busy_without_spooler) "pc" = Ok res ∧
    (triggered res = true ↔ holds monitoring 6000000 "pc" r).
Proof.
  apply conditions_decide_meaning.
  - split; discriminate.
  - intros m l Hm. simpl in Hm.
    repeat (apply elem_of_cons in Hm as [->|Hm]; [intros [= <-]; by rewrite list_elem_of_singleton|]).
    by apply not_elem_of_nil in Hm.
  - vm_compute. reflexivity.
  - vm_compute. reflexivity.
Defined.

Example busy_without_spooler_triggers :
  triggered <$> evaluateConditions monitoring 6000000 (Some busy_without_spooler) "pc" = Ok true.
Proof. vm_compute. reflexivity. Qed.

(** An empty list passes validation and triggers on every device. *)
Lemma empty_conditions_trigger db now deviceId :
  validateConditions (Some (JArr [])) = [] ∧
  triggered <$> evaluateConditions db now (Some (JArr [])) deviceId = Ok true.
Proof. done. Qed.

(** A pattern that is not a text passes validation and fails at evaluation. *)
Example number_as_pattern_throws :
  let c := JObj [("type", JStr "event_log"); ("category", JStr "system"); ("level", JStr "error");
                 ("countThreshold", JNum 1); ("windowMinutes", JNum 5); ("sourcePattern", JNum 7)] in
  validateConditions (Some c) = [] ∧ evaluateConditions monitoring 6000000 (Some c) "pc" = Throw TypeError.
Proof. vm_compute. done. Qed.
End AlertExample.

(** ** Templates *)

(** The text of parts that are all literal. *)
Definition literal (t : text) : option (list ascii) :=
  foldr (λ p acc, match p, acc with T s, Some l => Some (chars s ++ l) | _, _ => None end) (Some []) t.

Lemma word_prefix_app l w r : word_prefix l = (w, r) → l = w ++ r.
Proof.
  revert w r. induction l as [|c l IH]; simpl; intros w r Hw; [by simplify_eq|].
  destruct (is_word c); [|by simplify_eq]. destruct (word_prefix l) as [w' r'] eqn:E. simplify_eq/=.
  f_equal. by apply IH.
Qed.

Lemma variable_at_spec l key r : variable_at l = Some (key, r) →
  l = chars ("{{" +:+ key +:+ "}}") ++ r.
Proof.
  rewrite !chars_app, <- !app_assoc. unfold variable_at. intros H.
  repeat case_match; try discriminate; injection H as <- <-.
  match goal with E : word_prefix _ = _ |- _ => apply word_prefix_app in E; rewrite E end.
  simpl. by rewrite chars_of_chars.
Qed.

#[local] Arguments variable_at : simpl never.

Lemma literal_cons s t l : literal t = Some l → literal (T s :: t) = Some (chars s ++ l).
Proof. unfold literal. simpl. by intros ->. Qed.

(** Variables without a value leave the template as it is written, whatever its length. *)
Lemma interpolateTemplate_unknown template :
  literal (interpolateTemplate template (λ _, None)) = Some (chars template).
Proof.
  unfold interpolateTemplate.
  assert (length (chars template) = String.length template) as Hn by (induction template; simpl; congruence).
  assert (length (chars template) <= String.length template)%nat as Hle by lia. clear Hn. revert Hle.
  generalize (String.length template). generalize (chars template). clear template.
  intros l n. revert l. induction n as [|n IH]; intros [|c l] Hl; simpl in Hl; try done; [lia|]. simpl.
  destruct (variable_at (c :: l)) as [[key r]|] eqn:E.
  - apply variable_at_spec in E. rewrite E. simpl default. apply literal_cons, IH.
    apply (f_equal length) in E. rewrite length_app in E. simpl in E. lia.
  - change (c :: l) with (chars (String c "") ++ l). apply literal_cons, IH. lia.
Qed.
