(* ===== verification/AlertCooldown.v ===== *)
(** * Alert cooldowns and flapping ([services/alertCooldown.ts])

    After an alert fires, its rule rests on that device for a while: a Redis key with an
    expiry, or an entry in the memory of the process while Redis is away.  A rule that fires
    again within the hour rests longer, and a rule whose alerts come and go is held back.

    Redis is a service: the class [RedisKeys] has the commands the code uses and
    [RedisKeysLaws] what their documentation says of them, for one key.  Values are written
    and read as JSON, so the model keeps the value. *)

From S2P Require Import Prelude JsNum Json.

Open Scope Z_scope.

(** ** State and errors *)

(** What a request can throw: an error of Redis, or one of evaluating conditions. *)
Inductive AlertError (E : Type) := RedisError | ConditionError (e : E).
Arguments RedisError {E}.
Arguments ConditionError {E} e.

(** Requests are not transactions: what was written before an error stays. *)
Definition AM (S E A : Type) : Type := S → outcome (AlertError E) A * S.
#[export] Instance AM_ret {S E} : MRet (AM S E) := λ A a s, (Ok a, s).
#[export] Instance AM_bind {S E} : MBind (AM S E) := λ A B f m s,
  match m s with (Ok a, s') => f a s' | (Throw e, s') => (Throw e, s') end.

(** ** Redis *)

Class RedisKeys (R : Type) := {
  r_get : Z → R → string → option json;           (* a string key, at a time *)
  r_list : Z → R → string → list json;            (* a list key, at a time *)
  r_ttl : Z → R → string → Z;                     (* seconds left; negative without *)
  r_setex : Z → string → num → json → R → option R;   (* [None]: invalid expire time *)
  r_expire : Z → string → num → R → option R;
  r_del : list string → R → R;
  r_rpush : Z → string → json → R → R;
  r_ltrim : Z → string → nat → R → R;             (* keep the last entries *)
  r_scan : Z → R → string → list (list string) }. (* the pages of a full [SCAN MATCH] *)

(** A key that never holds a string; commands on lists refuse the others. *)
Definition no_string {R} `{RedisKeys R} (r : R) (k : string) : Prop := ∀ t, r_get t r k = None.

Class RedisKeysLaws (R : Type) `{RedisKeys R} := {
  setex_ok now k q n v r : q == inject_Z n → 0 < n →
    ∃ r', r_setex now k (Some q) v r = Some r' ∧
      (∀ t, now <= t → r_get t r' k = if t <? now + n * 1000 then Some v else None) ∧
      (∀ t k', k' ≠ k → r_get t r' k' = r_get t r k');
  setex_invalid now k q v r : (q <= 0)%Q → r_setex now k (Some q) v r = None;
  rpush_list now k v r : no_string r k →
    r_list now (r_rpush now k v r) k = r_list now r k ++ [v] ∧ no_string (r_rpush now k v r) k;
  ltrim_list now k n r : no_string r k →
    r_list now (r_ltrim now k n r) k = drop (length (r_list now r k) - n) (r_list now r k) ∧
    no_string (r_ltrim now k n r) k;
  expire_list now k q n r : q == inject_Z n → 0 < n → no_string r k →
    ∃ r', r_expire now k (Some q) r = Some r' ∧ no_string r' k ∧
      ∀ t, now <= t → r_list t r' k = if t <? now + n * 1000 then r_list now r k else [];
  rpush_other now k v r t k' : k' ≠ k → r_get t (r_rpush now k v r) k' = r_get t r k';
  ltrim_other now k n r t k' : k' ≠ k → r_get t (r_ltrim now k n r) k' = r_get t r k';
  expire_other now k q r r' t k' : r_expire now k q r = Some r' → k' ≠ k → r_get t r' k' = r_get t r k' }.

Record Cooldowns (R : Type) := { cd_redis : R; cd_memory : gmap string num }.
Arguments cd_redis {R}.
Arguments cd_memory {R}.

Definition COOLDOWN_PREFIX : string := "breeze:alerts:cooldown".
Definition CONFIG_POLICY_COOLDOWN_PREFIX : string := COOLDOWN_PREFIX +:+ ":cpar".
Definition FLAP_PREFIX : string := "breeze:alerts:flap".

Definition buildCooldownKey (ruleId deviceId : string) : string :=
  COOLDOWN_PREFIX +:+ ":" +:+ ruleId +:+ ":" +:+ deviceId.
Definition buildConfigPolicyCooldownKey (ruleId deviceId : string) : string :=
  CONFIG_POLICY_COOLDOWN_PREFIX +:+ ":" +:+ ruleId +:+ ":" +:+ deviceId.
Definition adaptive_key (ruleId deviceId : string) : string :=
  COOLDOWN_PREFIX +:+ ":adaptive:" +:+ ruleId +:+ ":" +:+ deviceId.
Definition flap_key (ruleId deviceId : string) : string :=
  FLAP_PREFIX +:+ ":" +:+ ruleId +:+ ":" +:+ deviceId.
Definition memory_key (ruleId deviceId : string) : string := ruleId +:+ ":" +:+ deviceId.
Definition config_memory_key (ruleId deviceId : string) : string := "cpar:" +:+ ruleId +:+ ":" +:+ deviceId.

Section cooldown.
Context {R : Type} `{RedisKeys R} {E : Type}.
(** [up]: [isRedisAvailable()] and a client that is not null. *)
Context (up : bool) (now : Z).

Abbreviation CM := (AM (Cooldowns R) E).

Definition get_redis : CM R := λ s, (Ok (cd_redis s), s).
Definition set_redis (r : R) : CM unit := λ s, (Ok tt, {| cd_redis := r; cd_memory := cd_memory s |}).
Definition set_memory (m : gmap string num) : CM unit :=
  λ s, (Ok tt, {| cd_redis := cd_redis s; cd_memory := m |}).

(** A command that Redis may refuse. *)
Definition command (f : R → option R) : CM unit :=
  λ s, match f (cd_redis s) with
       | Some r => (Ok tt, {| cd_redis := r; cd_memory := cd_memory s |})
       | None => (Throw RedisError, s)
       end.

(** ** Memory *)

Definition memoryHasCooldown (key : string) : CM bool :=
  λ s, match cd_memory s !! key with
       | None => (Ok false, s)
       | Some expiry =>
           if match expiry with Some e => Qle_bool e (inject_Z now) | None => false end
           then (Ok false, {| cd_redis := cd_redis s; cd_memory := delete key (cd_memory s) |})
           else (Ok true, s)
       end.

Definition memorySetCooldown (key : string) (cooldownMinutes : json) : CM unit :=
  λ s, let expiryMs := nadd (nint now) (nmul (nmul (to_number cooldownMinutes) (nint 60)) (nint 1000)) in
       (Ok tt, {| cd_redis := cd_redis s; cd_memory := <[key := expiryMs]> (cd_memory s) |}).

(** ** Cooldowns *)

Definition isCooldownActive (ruleId deviceId : string) : CM bool :=
  if negb up then memoryHasCooldown (memory_key ruleId deviceId)
  else
    redis ← get_redis;
    mret (bool_decide (is_Some (r_get now redis (buildCooldownKey ruleId deviceId)))).

(** The multiplier of a rule that was set within the last hour doubles, up to 4. *)
Definition next_multiplier (existing : option json) : num :=
  match existing with
  | None => nint 1
  | Some parsed =>
      let recent := match nsub (nint now) (number_of (field "setAt" parsed)) with
                    | Some age => negb (Qle_bool 3600000 age)
                    | None => false
                    end in
      if json_truthy (field "multiplier" parsed) && recent then
        match nmul (number_of (field "multiplier" parsed)) (nint 2) with
        | Some q => Some (if Qle_bool q 4 then q else 4%Q)
        | None => None
        end
      else nint 1
  end.

Definition cooldown_value (multiplier : num) : json :=
  JObj [("setAt", JNum (inject_Z now));
        ("multiplier", match multiplier with Some q => JNum q | None => JNull end)]%string.

Definition setCooldown (ruleId deviceId : string) (cooldownMinutes : json) : CM unit :=
  if negb up then memorySetCooldown (memory_key ruleId deviceId) cooldownMinutes
  else
    redis ← get_redis;
    let multiplier := next_multiplier (r_get now redis (adaptive_key ruleId deviceId)) in
    let effectiveMinutes := nmul (to_number cooldownMinutes) multiplier in
    let ttlSeconds := nmul effectiveMinutes (nint 60) in
    command (r_setex now (buildCooldownKey ruleId deviceId) ttlSeconds (cooldown_value multiplier)) ;;
    command (r_setex now (adaptive_key ruleId deviceId) (nint 3600) (cooldown_value multiplier)).

Definition clearCooldown (ruleId deviceId : string) : CM unit :=
  if negb up then mret tt
  else redis ← get_redis; set_redis (r_del [buildCooldownKey ruleId deviceId] redis).

Definition getCooldownRemaining (ruleId deviceId : string) : CM Z :=
  if negb up then mret (-1)
  else redis ← get_redis; mret (r_ttl now redis (buildCooldownKey ruleId deviceId)).

(** The pages of a scan, deleted one after the other. *)
Fixpoint delete_pages (pages : list (list string)) (deletedCount : nat) (r : R) : nat * R :=
  match pages with
  | [] => (deletedCount, r)
  | keys :: pages' =>
      match keys with
      | [] => delete_pages pages' deletedCount r
      | _ => delete_pages pages' (deletedCount + length keys) (r_del keys r)
      end
  end.
Definition clear_matching (pattern : string) : CM nat :=
  if negb up then mret 0%nat
  else
    redis ← get_redis;
    let '(deletedCount, redis') := delete_pages (r_scan now redis pattern) 0 redis in
    set_redis redis' ;; mret deletedCount.

Definition clearRuleCooldowns (ruleId : string) : CM nat :=
  clear_matching (COOLDOWN_PREFIX +:+ ":" +:+ ruleId +:+ ":*").
Definition clearDeviceCooldowns (deviceId : string) : CM nat :=
  clear_matching (COOLDOWN_PREFIX +:+ ":*:" +:+ deviceId).

Definition extendCooldown (ruleId deviceId : string) (additionalMinutes : json) : CM unit :=
  if negb up then mret tt
  else
    redis ← get_redis;
    let currentTtl := r_ttl now redis (buildCooldownKey ruleId deviceId) in
    if 0 <? currentTtl then
      let newTtl := nadd (nint currentTtl) (nmul (to_number additionalMinutes) (nint 60)) in
      command (r_expire now (buildCooldownKey ruleId deviceId) newTtl)
    else setCooldown ruleId deviceId additionalMinutes.

(** ** Rules of configuration policies *)

Definition isConfigPolicyRuleCooling (ruleId deviceId : string) : CM bool :=
  if negb up then memoryHasCooldown (config_memory_key ruleId deviceId)
  else
    redis ← get_redis;
    mret (bool_decide (is_Some (r_get now redis (buildConfigPolicyCooldownKey ruleId deviceId)))).

Definition markConfigPolicyRuleCooldown (ruleId deviceId : string) (cooldownMinutes : json) : CM unit :=
  if negb up then memorySetCooldown (config_memory_key ruleId deviceId) cooldownMinutes
  else
    let ttlSeconds := nmul (to_number cooldownMinutes) (nint 60) in
    command (r_setex now (buildConfigPolicyCooldownKey ruleId deviceId) ttlSeconds (JNum (inject_Z now))).

(** ** Flapping *)

Inductive transition := triggered_state | resolved_state.
Definition transition_entry (state : transition) : json :=
  JObj [("state", JStr match state with triggered_state => "triggered" | resolved_state => "resolved" end);
        ("timestamp", JNum (inject_Z now))]%string.

Definition recordStateTransition (ruleId deviceId : string) (state : transition) : CM unit :=
  if negb up then mret tt
  else
    let key := flap_key ruleId deviceId in
    redis ← get_redis;
    set_redis (r_rpush now key (transition_entry state) redis) ;;
    redis ← get_redis;
    set_redis (r_ltrim now key 20 redis) ;;
    command (r_expire now key (nint 1800)).

Definition recent_entry (windowStart : Z) (entry : json) : bool :=
  match number_of (field "timestamp" entry) with
  | Some q => Qle_bool (inject_Z windowStart) q
  | None => false
  end.

Definition isFlapping (ruleId deviceId : string) (windowMinutes threshold : Z) : CM bool :=
  if negb up then mret false
  else
    redis ← get_redis;
    let entries := r_list now redis (flap_key ruleId deviceId) in
    if Z.of_nat (length entries) <? threshold then mret false
    else
      let windowStart := now - windowMinutes * 60 * 1000 in
      mret (threshold <=? Z.of_nat (length (List.filter (recent_entry windowStart) entries))).

(** ** Listing *)

Definition listed_key (redis : R) (key : string) : list (string * string * Z) :=
  if negb (includes ":adaptive:" key) && negb (includes ":cpar:" key) then
    match Prelude.split ":" key with
    | _ :: _ :: _ :: ruleId :: rest =>
        let ttl := r_ttl now redis key in
        match head rest with
        | Some deviceId =>
            if (0 <? ttl) && truthy (Some ruleId) && truthy (Some deviceId)
            then [(ruleId, deviceId, ttl)] else []
        | None => []
        end
    | _ => []
    end
  else [].
Definition listActiveCooldowns : CM (list (string * string * Z)) :=
  if negb up then mret []
  else
    redis ← get_redis;
    mret (r_scan now redis (COOLDOWN_PREFIX +:+ ":*:*") ≫= λ keys, keys ≫= listed_key redis).
End cooldown.

(** ** What a cooldown does *)

Section cooldown_facts.
Context {R : Type} `{RedisKeysLaws R} {E : Type}.

(** The multiplier of the code, as a function of the cooldown set before. *)
Definition multiplier_after (now : Z) (previous : option (Z * Z)) : Z :=
  match previous with
  | Some (setAt, m) => if now - setAt <? 3600000 then Z.min (2 * m) 4 else 1
  | None => 1
  end.

Lemma next_multiplier_value now s m :
  m ∈ [1; 2; 4] → 0 <= s <= now → now <= 2 ^ 52 →
  next_multiplier now (Some (cooldown_value s (nint m))) = nint (multiplier_after now (Some (s, m))).
Proof.
  intros Hm Hs Hn. unfold next_multiplier, multiplier_after, cooldown_value. simpl field.
  cbn [number_of mbind option_bind to_number nsub lift2 nint].
  assert (rnd (inject_Z now - inject_Z s) == inject_Z (now - s)) as Hr.
  { apply rnd_int; [|lia]. unfold Z.sub, Qminus. by rewrite inject_Z_plus, inject_Z_opp. }
  assert (negb (Qle_bool 3600000 (rnd (inject_Z now - inject_Z s))) = (now - s <? 3600000)) as ->.
  { apply eq_true_iff_eq. rewrite negb_true_iff, <- not_true_iff_false, Qle_bool_iff, Hr, Z.ltb_lt.
    change 3600000%Q with (inject_Z 3600000). rewrite <- Zle_Qle. lia. }
  destruct (now - s <? 3600000).
  - repeat (apply elem_of_cons in Hm as [->|Hm]; [vm_compute; reflexivity|]). by apply not_elem_of_nil in Hm.
  - by rewrite andb_false_r.
Qed.

Lemma multiplier_after_range now p : (∀ s m, p = Some (s, m) → m ∈ [1; 2; 4]) → multiplier_after now p ∈ [1; 2; 4].
Proof.
  intros Hp. unfold multiplier_after. destruct p as [[s m]|]; [|by left].
  destruct (now - s <? 3600000); [|by left]. specialize (Hp s m eq_refl).
  repeat (apply elem_of_cons in Hp as [->|Hp]; [vm_compute; set_solver|]). by apply not_elem_of_nil in Hp.
Qed.

Lemma string_app_length a b : String.length (a +:+ b) = (String.length a + String.length b)%nat.
Proof. induction a as [|c a IH]; [done|]. simpl. by rewrite IH. Qed.
Lemma string_app_inj_l p a b : p +:+ a = p +:+ b → a = b.
Proof. induction p as [|c p IH]; simpl; [done|]. intros [= ?]. by apply IH. Qed.

Lemma adaptive_key_own ruleId deviceId : buildCooldownKey ruleId deviceId ≠ adaptive_key ruleId deviceId.
Proof. intros Hk%(f_equal String.length). unfold buildCooldownKey, adaptive_key in Hk. rewrite !string_app_length in Hk. simpl in Hk. lia. Qed.

Lemma string_sep_inj_l x (a b c d : string) :
  has_no x a → has_no x c →
  a +:+ String x EmptyString +:+ b = c +:+ String x EmptyString +:+ d → a = c ∧ b = d.
Proof.
  intros Ha Hc Hk. apply (f_equal chars) in Hk. rewrite !chars_app in Hk. simpl in Hk.
  apply app_sep_inj_l in Hk as [H1 H2]; [|done..]. split; by apply chars_inj.
Qed.

Lemma cooldown_key_inj r d r' d' :
  has_no ":" r → has_no ":" r' → buildCooldownKey r d = buildCooldownKey r' d' → r = r' ∧ d = d'.
Proof.
  unfold buildCooldownKey. intros Hr Hr' Hk%string_app_inj_l%string_app_inj_l. by apply string_sep_inj_l in Hk.
Qed.

Lemma adaptive_key_other r d r' d' :
  has_no ":" r' → has_no ":" d' → buildCooldownKey r' d' ≠ adaptive_key r d.
Proof.
  unfold buildCooldownKey, adaptive_key. intros Hr Hd Hk%string_app_inj_l.
  change (":adaptive:" +:+ r +:+ ":" +:+ d)%string with (":" +:+ "adaptive" +:+ ":" +:+ (r +:+ ":" +:+ d))%string in Hk.
  apply string_app_inj_l in Hk. apply string_sep_inj_l in Hk as [_ ->]; [|done|].
  - apply Hd. rewrite !chars_app. set_solver.
  - apply (bool_decide_unpack _). vm_compute. done.
Qed.

Lemma setCooldown_up now ruleId deviceId c (st : Cooldowns R) :
  setCooldown (E := E) true now ruleId deviceId c st =
  (let m := next_multiplier now (r_get now (cd_redis st) (adaptive_key ruleId deviceId)) in
   command (r_setex now (buildCooldownKey ruleId deviceId) (nmul (nmul (to_number c) m) (nint 60))
              (cooldown_value now m)) ;;
   command (r_setex now (adaptive_key ruleId deviceId) (nint 3600) (cooldown_value now m))) st.
Proof. done. Qed.

(** The cooldown a rule and device had before, as Redis remembers it for an hour. *)
Definition had_cooldown (now : Z) (st : Cooldowns R) (ruleId deviceId : string) (previous : option (Z * Z)) : Prop :=
  r_get now (cd_redis st) (adaptive_key ruleId deviceId) =
    (λ p, cooldown_value p.1 (nint p.2)) <$> previous ∧
  ∀ s m, previous = Some (s, m) → m ∈ [1; 2; 4] ∧ 0 <= s <= now.

(** The two keys a cooldown sets, and nothing else. *)
Lemma setCooldown_keys st now ruleId deviceId n previous (m := multiplier_after now previous) :
  1 <= n <= 10080 → 0 <= now <= 2 ^ 52 → had_cooldown now st ruleId deviceId previous →
  ∃ st', setCooldown (E := E) true now ruleId deviceId (JNum (inject_Z n)) st = (Ok tt, st') ∧
    (∀ t, now <= t → r_get t (cd_redis st') (buildCooldownKey ruleId deviceId) =
       if t <? now + n * m * 60000 then Some (cooldown_value now (nint m)) else None) ∧
    (∀ t, now <= t → r_get t (cd_redis st') (adaptive_key ruleId deviceId) =
       if t <? now + 3600000 then Some (cooldown_value now (nint m)) else None) ∧
    (∀ t k, k ≠ buildCooldownKey ruleId deviceId → k ≠ adaptive_key ruleId deviceId →
       r_get t (cd_redis st') k = r_get t (cd_redis st) k).
Proof.
  intros Hn Hnow [Hprev Hok].
  assert (m ∈ [1; 2; 4]) as Hm by (apply multiplier_after_range; intros s k Hk; by apply (Hok s k)).
  rewrite setCooldown_up, Hprev. cbv zeta.
  assert (next_multiplier now ((λ p, cooldown_value p.1 (nint p.2)) <$> previous) = nint m) as ->.
  { unfold m. destruct previous as [[s k]|]; [|done]. destruct (Hok s k eq_refl).
    simpl fmap. apply next_multiplier_value; [done | done | lia]. }
  assert (1 <= m <= 4) as Hmb by (set_unfold; lia).
  destruct (nmul_int (inject_Z n) n m) as (q & Hq & Eq); [done | nia |].
  destruct (nmul_int q (n * m) 60) as (q' & Hq' & Eq'); [done | nia |].
  change (to_number (JNum (inject_Z n))) with (Some (inject_Z n)). rewrite Hq, Hq'.
  destruct (setex_ok now (buildCooldownKey ruleId deviceId) q' (n * m * 60) (cooldown_value now (nint m))
    (cd_redis st) Eq' ltac:(nia)) as (r1 & E1 & G1 & O1).
  destruct (setex_ok now (adaptive_key ruleId deviceId) (inject_Z 3600) 3600 (cooldown_value now (nint m)) r1
    ltac:(done) ltac:(lia)) as (r2 & E2 & G2 & O2).
  exists {| cd_redis := r2; cd_memory := cd_memory st |}. split; [|split; [|split]]; cbn [cd_redis].
  - unfold mbind, AM_bind, command. rewrite E1. cbn [cd_redis cd_memory].
    change (nint 3600) with (Some (inject_Z 3600)). by rewrite E2.
  - intros t Ht. rewrite O2 by apply adaptive_key_own. rewrite G1 by done.
    by replace (n * m * 60 * 1000) with (n * m * 60000) by lia.
  - intros t Ht. by rewrite G2.
  - intros t k H1 H2. by rewrite O2, O1.
Qed.

(** (cooldowns): with Redis up, setting a cooldown of [n] minutes makes the rule rest on
    the device for exactly [n] times the multiplier minutes; the multiplier is 1, doubles up
    to 4 for a rule set again within the hour, and starts over after an hour; rules and
    devices with other ids are not affected. *)
Theorem setCooldown_window st now ruleId deviceId n previous :
  1 <= n <= 10080 → 0 <= now <= 2 ^ 52 → had_cooldown now st ruleId deviceId previous →
  let m := multiplier_after now previous in
  ∃ st', setCooldown (E := E) true now ruleId deviceId (JNum (inject_Z n)) st = (Ok tt, st') ∧
    m ∈ [1; 2; 4] ∧
    (∀ t, now <= t → (isCooldownActive (E := E) true t ruleId deviceId st').1 = Ok (t <? now + n * m * 60000)) ∧
    (∀ t, now <= t → had_cooldown t st' ruleId deviceId (if t <? now + 3600000 then Some (now, m) else None)) ∧
    (∀ t rule' device', has_no ":" ruleId → has_no ":" rule' → has_no ":" device' →
       (rule', device') ≠ (ruleId, deviceId) →
       (isCooldownActive (E := E) true t rule' device' st').1 = (isCooldownActive (E := E) true t rule' device' st).1).
Proof.
  intros Hn Hnow Hhad m. destruct (setCooldown_keys st now ruleId deviceId n previous Hn Hnow Hhad)
    as (st' & Hs & G1 & G2 & O). exists st'. fold m in G1, G2.
  assert (m ∈ [1; 2; 4]) as Hm.
  { apply multiplier_after_range. intros s k Hk. by apply (proj2 Hhad s k). }
  split; [done|]. split; [done|]. split; [|split].
  - intros t Ht. unfold isCooldownActive. simpl. rewrite G1 by done. by destruct (t <? _).
  - intros t Ht. unfold had_cooldown. rewrite G2 by done. destruct (t <? _); (split; [done|]); [|done].
    intros s k [= <- <-]. split; [done | lia].
  - intros t r d Hr1 Hr Hd Hne. unfold isCooldownActive. simpl.
    rewrite O; [done | intros [-> ->]%cooldown_key_inj; done | by apply adaptive_key_other].
Qed.

(** ** What flapping counts *)

(** The transitions of one rule and device, recorded in order. *)
Definition record_all (ruleId deviceId : string) (ts : list (Z * transition)) (st : Cooldowns R) : Cooldowns R :=
  foldl (λ st e, (recordStateTransition (E := E) true e.1 ruleId deviceId e.2 st).2) st ts.

Definition entry_of (e : Z * transition) : json := transition_entry e.1 e.2.
Definition since (start : Z) (ts : list (Z * transition)) : nat := length (filter (λ e, start <= e.1) ts).

Definition ordered (ts : list (Z * transition)) : Prop :=
  ∀ i j a b, ts !! i = Some a → ts !! j = Some b → (i <= j)%nat → a.1 <= b.1.

(** What the list holds at a time: a suffix of the history.  What was dropped is either out
    of a window of half an hour or has twenty later entries. *)
Definition kept (ts : list (Z * transition)) (t : Z) (l : list json) : Prop :=
  ∃ k, (k <= length ts)%nat ∧ l = entry_of <$> drop k ts ∧
    (k = 0%nat ∨ (20 <= length ts - k)%nat ∨ ∀ a, a ∈ take k ts → a.1 <= t - 1800000).

Lemma kept_snoc ts e t l (l' := l ++ [entry_of e]) :
  kept ts t l → kept (ts ++ [e]) t (drop (length l' - 20) l').
Proof.
  intros (k & Hk & -> & Hc). set (j := (length l' - 20)%nat).
  assert (l' = entry_of <$> drop k (ts ++ [e])) as Hl'.
  { unfold l'. by rewrite drop_app_le, fmap_app by done. }
  assert (length l' = length ts - k + 1)%nat as Hlen.
  { unfold l'. rewrite length_app, length_fmap, length_drop. simpl. lia. }
  exists (k + j)%nat. rewrite length_app. simpl. split; [lia|].
  split; [by rewrite Hl', <- fmap_drop, drop_drop|].
  destruct (decide (j = 0%nat)) as [Hj|Hj]; [|right; left; lia].
  rewrite Hj, Nat.add_0_r. rewrite take_app_le by done. destruct Hc as [->|[?|?]]; [by left | lia | auto].
Qed.

Lemma recordStateTransition_runs now ruleId deviceId s st (key := flap_key ruleId deviceId) :
  no_string (cd_redis st) key →
  ∃ st', recordStateTransition (E := E) true now ruleId deviceId s st = (Ok tt, st') ∧
    no_string (cd_redis st') key ∧
    (∀ t k, k ≠ key → r_get t (cd_redis st') k = r_get t (cd_redis st) k) ∧
    ∀ t, now <= t → r_list t (cd_redis st') key =
      if t <? now + 1800000 then
        let l := r_list now (cd_redis st) key ++ [entry_of (now, s)] in drop (length l - 20) l
      else [].
Proof.
  intros Hns.
  destruct (rpush_list now key (transition_entry now s) (cd_redis st) Hns) as [L1 N1].
  set (r1 := r_rpush now key (transition_entry now s) (cd_redis st)) in *.
  destruct (ltrim_list now key 20 r1 N1) as [L2 N2]. set (r2 := r_ltrim now key 20 r1) in *.
  destruct (expire_list now key (inject_Z 1800) 1800 r2 ltac:(done) ltac:(lia) N2) as (r3 & E3 & N3 & L3).
  exists {| cd_redis := r3; cd_memory := cd_memory st |}. split.
  { assert (recordStateTransition (E := E) true now ruleId deviceId s st =
      command (r_expire now key (Some (inject_Z 1800))) {| cd_redis := r2; cd_memory := cd_memory st |}) as -> by done.
    unfold command. cbn [cd_redis cd_memory]. by rewrite E3. }
  split; [done|]. split; cbn [cd_redis].
  - intros t k Hk. rewrite (expire_other _ _ _ _ _ _ _ E3 Hk). unfold r2, r1. by rewrite ltrim_other, rpush_other.
  - intros t Ht. by rewrite L3, L2, L1.
Qed.

Lemma recordStateTransition_kept now ruleId deviceId s ts st (key := flap_key ruleId deviceId) :
  (∀ a, a ∈ ts → a.1 <= now) → no_string (cd_redis st) key → kept ts now (r_list now (cd_redis st) key) →
  ∃ st', recordStateTransition (E := E) true now ruleId deviceId s st = (Ok tt, st') ∧
    no_string (cd_redis st') key ∧
    ∀ t, now <= t → kept (ts ++ [(now, s)]) t (r_list t (cd_redis st') key).
Proof.
  intros Hts Hns Hkept. destruct (recordStateTransition_runs now ruleId deviceId s st Hns) as (st' & Hr & N & _ & L).
  exists st'. split; [done|]. split; [done|]. fold key in L.
  intros t Ht. rewrite L by done. destruct (Z.ltb_spec t (now + 1800000)).
  - destruct (kept_snoc ts (now, s) now _ Hkept) as (k & Hk & Hl & Hc).
    exists k. split; [done|]. split; [done|]. destruct Hc as [|[|Hc]]; [tauto | tauto |].
    do 2 right. intros a Ha. specialize (Hc a Ha). lia.
  - exists (length (ts ++ [(now, s)])). split; [done|]. split; [by rewrite drop_all|].
    do 2 right. rewrite take_ge by done. intros a [Ha| ->%list_elem_of_singleton]%elem_of_app; [|simpl; lia].
    specialize (Hts a Ha). lia.
Qed.

Lemma record_all_kept ruleId deviceId ts st (key := flap_key ruleId deviceId) :
  no_string (cd_redis st) key → (∀ t, r_list t (cd_redis st) key = []) → ordered ts →
  let st' := record_all ruleId deviceId ts st in
  no_string (cd_redis st') key ∧ ∀ t, (∀ a, a ∈ ts → a.1 <= t) → kept ts t (r_list t (cd_redis st') key).
Proof.
  intros Hns Hempty. induction ts as [|[now s] ts IH] using rev_ind; intros Hord st'.
  { split; [done|]. intros t Ht. exists 0%nat. split; [done|]. split; [apply Hempty | by left]. }
  assert (∀ a, a ∈ ts → a.1 <= now) as Hts.
  { intros a [i Hi]%list_elem_of_lookup. pose proof (lookup_lt_Some _ _ _ Hi).
    apply (Hord i (length ts) a (now, s)); [by apply lookup_app_l_Some | by rewrite list_lookup_middle | lia]. }
  destruct IH as [N IH]; [intros i j a b Hi Hj; apply Hord; by apply lookup_app_l_Some|].
  unfold st', record_all. rewrite foldl_app. simpl. fold (record_all ruleId deviceId ts st).
  destruct (recordStateTransition_kept now ruleId deviceId s ts (record_all ruleId deviceId ts st))
    as (st1 & -> & N1 & Hk); [done | done | by apply IH |].
  split; [done|]. intros t Ht. apply Hk. apply (Ht (now, s)). set_solver.
Qed.

Lemma recent_entry_of start e : recent_entry start (entry_of e) = (start <=? e.1).
Proof.
  unfold recent_entry, entry_of, transition_entry. simpl. apply eq_true_iff_eq.
  by rewrite Qle_bool_iff, <- Zle_Qle, Z.leb_le.
Qed.

Lemma since_entries start ts : length (List.filter (recent_entry start) (entry_of <$> ts)) = since start ts.
Proof.
  unfold since. induction ts as [|e ts IH]; [done|]. rewrite fmap_cons, filter_cons. cbn [List.filter].
  rewrite recent_entry_of. destruct (Z.leb_spec start e.1); [rewrite decide_True by done | by rewrite decide_False by lia].
  cbn [length]. by rewrite IH.
Qed.

Lemma since_app start l l' : since start (l ++ l') = (since start l + since start l')%nat.
Proof. unfold since. by rewrite filter_app, length_app. Qed.
Lemma since_none start l : (∀ a, a ∈ l → a.1 < start) → since start l = 0%nat.
Proof.
  intros Hl. unfold since. induction l as [|a l IH]; [done|].
  rewrite filter_cons_False by (pose proof (Hl a ltac:(left)); lia). apply IH. intros b Hb. apply Hl. by right.
Qed.
Lemma since_all start l : (∀ a, a ∈ l → start <= a.1) → since start l = length l.
Proof.
  intros Hl. unfold since. induction l as [|a l IH]; [done|].
  rewrite filter_cons_True by (apply Hl; left). simpl. f_equal. apply IH. intros b Hb. apply Hl. by right.
Qed.

(** The suffix decides the threshold as the whole history does. *)
Lemma since_kept ts now l :
  ordered ts → kept ts now l →
  (4 <= length (List.filter (recent_entry (now - 600000)) l))%nat ↔ (4 <= since (now - 600000) ts)%nat.
Proof.
  intros Hord (k & Hk & -> & Hc). rewrite since_entries. rewrite <- (take_drop k ts) at 2. rewrite since_app.
  destruct Hc as [->|[Hlen|Hold]]; [done | |].
  - destruct (decide (Exists (λ a, now - 600000 <= a.1) (take k ts))) as [Hex|Hno].
    + apply Exists_exists in Hex as (a & [i Hi]%list_elem_of_lookup & Ha).
      rewrite (since_all _ (drop k ts)), length_drop; [lia|]. intros b [j Hj]%list_elem_of_lookup.
      pose proof (lookup_lt_Some _ _ _ Hi) as Hlt. rewrite length_take in Hlt. rewrite lookup_drop in Hj.
      apply lookup_take_Some in Hi as [Hi _]. specialize (Hord i (k + j)%nat a b Hi Hj ltac:(lia)). lia.
    + rewrite (since_none _ (take k ts)); [lia|]. intros a Ha. destruct (decide (a.1 < now - 600000)); [done|].
      destruct Hno. apply Exists_exists. exists a. split; [done | lia].
  - rewrite (since_none _ (take k ts)); [lia|]. intros a Ha. specialize (Hold a Ha). lia.
Qed.

Lemma isFlapping_up now ruleId deviceId (st : Cooldowns R) :
  (isFlapping (E := E) true now ruleId deviceId 10 4 st).1 =
  Ok (let l := r_list now (cd_redis st) (flap_key ruleId deviceId) in
      if Z.of_nat (length l) <? 4 then false
      else 4 <=? Z.of_nat (length (List.filter (recent_entry (now - 10 * 60 * 1000)) l))).
Proof. cbv [isFlapping mbind AM_bind get_redis mret AM_ret negb]. by destruct (Z.of_nat (length _) <? 4). Qed.

(** (flapping): a rule and device count as flapping exactly when at least four of all the
    transitions recorded for them lie in the last ten minutes.  The list that Redis keeps,
    the last twenty for half an hour after the latest, never loses one that matters. *)
Theorem isFlapping_counts ruleId deviceId ts st now :
  no_string (cd_redis st) (flap_key ruleId deviceId) →
  (∀ t, r_list t (cd_redis st) (flap_key ruleId deviceId) = []) →
  ordered ts → (∀ a, a ∈ ts → a.1 <= now) →
  (isFlapping (E := E) true now ruleId deviceId 10 4 (record_all ruleId deviceId ts st)).1 =
  Ok (bool_decide (4 <= length (filter (λ e, (now - 600000 <= e.1)%Z) ts))%nat).
Proof.
  intros Hns Hempty Hord Hts. destruct (record_all_kept ruleId deviceId ts st Hns Hempty Hord) as [_ Hk].
  specialize (Hk now Hts). apply since_kept in Hk; [|done]. rewrite isFlapping_up. cbv zeta.
  set (l := r_list now _ _) in *. replace (now - 600000) with (now - 10 * 60 * 1000) in * by lia.
  rewrite <- (bool_decide_ext _ _ Hk). f_equal. destruct (Z.ltb_spec (Z.of_nat (length l)) 4).
  - rewrite bool_decide_false; [done|]. pose proof (List.filter_length_le (recent_entry (now - 10 * 60 * 1000)) l). lia.
  - apply eq_true_iff_eq. rewrite Z.leb_le, bool_decide_eq_true. lia.
Qed.
End cooldown_facts.

(** ** A store *)

(** A Redis with one keyspace: strings and lists with an optional time of expiry. *)
Module RedisMap.
Inductive content := Str (v : json) | Lst (l : list json).
Abbreviation store := (gmap string (content * option Z)).

Definition live (t : Z) (r : store) (k : string) : option (content * option Z) :=
  match r !! k with
  | Some (c, Some d) => if t <? d then Some (c, Some d) else None
  | x => x
  end.
Definition whole_seconds (q : num) : option Z :=
  match q with Some q => if isInteger q then Some (Qfloor q) else None | None => None end.

#[export] Instance keys : RedisKeys store := {|
  r_get t r k := match live t r k with Some (Str v, _) => Some v | _ => None end;
  r_list t r k := match live t r k with Some (Lst l, _) => l | _ => [] end;
  r_ttl t r k := match live t r k with Some (_, Some d) => (d - t + 500) / 1000 | Some _ => -1 | None => -2 end;
  r_setex now k q v r := match whole_seconds q with
                         | Some n => if 0 <? n then Some (<[k := (Str v, Some (now + n * 1000))]> r) else None
                         | None => None
                         end;
  r_expire now k q r := match whole_seconds q with
                        | Some n => Some match live now r k with
                                         | Some (c, _) => if 0 <? n then <[k := (c, Some (now + n * 1000))]> r
                                                          else delete k r
                                         | None => delete k r
                                         end
                        | None => None
                        end;
  r_del ks r := foldr delete r ks;
  r_rpush now k v r := match live now r k with
                       | Some (Lst l, d) => <[k := (Lst (l ++ [v]), d)]> r
                       | Some (Str _, _) => r
                       | None => <[k := (Lst [v], None)]> r
                       end;
  r_ltrim now k n r := match live now r k with
                       | Some (Lst l, d) => <[k := (Lst (drop (length l - n) l), d)]> r
                       | _ => r
                       end;
  r_scan now r pattern := [elements (dom r)] |}.   (* every key; no law of scans is used *)

Lemma whole_seconds_int q n : q == inject_Z n → whole_seconds (Some q) = Some n.
Proof.
  intros Hq. simpl. assert (isInteger q = true) as ->; [|by rewrite Hq, Qfloor_Z].
  unfold isInteger. rewrite (Qred_complete _ _ Hq). apply isInteger_inject.
Qed.

Lemma live_insert t k x r : live t (<[k := x]> r) k =
  match x with (c, Some d) => if t <? d then Some x else None | _ => Some x end.
Proof. unfold live. rewrite lookup_insert_eq. by destruct x as [c [d|]]. Qed.
Lemma live_insert_ne t k k' x r : k' ≠ k → live t (<[k := x]> r) k' = live t r k'.
Proof. intros Hk. unfold live. by rewrite lookup_insert_ne by done. Qed.
Lemma live_delete t k r : live t (delete k r) k = None.
Proof. unfold live. by rewrite lookup_delete_eq. Qed.

Lemma live_delete_ne t k k' r : k' ≠ k → live t (delete k r) k' = live t r k'.
Proof. intros Hk. unfold live. by rewrite lookup_delete_ne by done. Qed.

(** A live key without a string holds a list, now and for as long as it lives. *)
Lemma no_string_live r k now c d : no_string r k → live now r k = Some (c, d) →
  ∃ l, c = Lst l ∧ r !! k = Some (Lst l, d) ∧ ∀ e, d = Some e → now < e.
Proof.
  intros Hn Hl. pose proof (Hn now) as Hnow. simpl in Hnow. rewrite Hl in Hnow. destruct c as [|l]; [done|].
  exists l. split; [done|]. unfold live in Hl. destruct (r !! k) as [[c' [e|]]|]; [|by simplify_eq/=|done].
  destruct (Z.ltb_spec now e); simplify_eq/=. split; [done|]. intros ? [= <-]. done.
Qed.

Lemma no_string_insert r k l d : no_string (<[k := (Lst l, d)]> r : store) k.
Proof. intros t. simpl. rewrite live_insert. destruct d as [d|]; [by destruct (t <? d)|done]. Qed.

#[export] Instance laws : RedisKeysLaws store.
Proof.
  split.
  - intros now k q n v r Hq Hn. eexists. cbn [r_setex keys]. rewrite (whole_seconds_int q n Hq).
    rewrite (proj2 (Z.ltb_lt 0 n) Hn). split; [done|]. split.
    + intros t _. simpl. rewrite live_insert. by destruct (t <? _).
    + intros t k' Hk. simpl. by rewrite live_insert_ne.
  - intros now k q v r Hq. cbn [r_setex keys whole_seconds]. destruct (isInteger q) eqn:E; [|done].
    destruct (Z.ltb_spec 0 (Qfloor q)) as [H|]; [|done]. exfalso.
    pose proof (Qfloor_le q) as Hf. rewrite Zlt_Qlt in H. change (inject_Z 0) with 0%Q in H. lra.
  - intros now k v r Hn. cbn [r_rpush keys]. destruct (live now r k) as [[c d]|] eqn:El.
    + destruct (no_string_live _ _ _ _ _ Hn El) as (l & -> & Hk & Hd). split; [|apply no_string_insert].
      simpl. rewrite live_insert, El. destruct d as [d|]; [|done].
      by rewrite (proj2 (Z.ltb_lt now d)) by auto.
    + split; [|apply no_string_insert]. simpl. by rewrite live_insert, El.
  - intros now k n r Hn. cbn [r_ltrim keys]. destruct (live now r k) as [[c d]|] eqn:El.
    + destruct (no_string_live _ _ _ _ _ Hn El) as (l & -> & Hk & Hd). split; [|apply no_string_insert].
      simpl. rewrite live_insert, El. destruct d as [d|]; [|done].
      by rewrite (proj2 (Z.ltb_lt now d)) by auto.
    + split; [|done]. simpl. by rewrite El.
  - intros now k q n r Hq Hpos Hn. eexists. cbn [r_expire keys]. rewrite (whole_seconds_int q n Hq).
    split; [done|]. destruct (live now r k) as [[c d]|] eqn:El.
    + destruct (no_string_live _ _ _ _ _ Hn El) as (l & -> & Hk & Hd).
      rewrite (proj2 (Z.ltb_lt 0 n) Hpos). split; [apply no_string_insert|]. intros t _. simpl.
      rewrite live_insert, El. by destruct (t <? _).
    + split; [intros t; simpl; by rewrite live_delete|]. intros t _. simpl. rewrite live_delete, El. by destruct (t <? _).
  - intros now k v r t k' Hk. simpl. destruct (live now r k) as [[[] d]|]; by rewrite ?live_insert_ne.
  - intros now k n r t k' Hk. simpl. destruct (live now r k) as [[[] d]|]; by rewrite ?live_insert_ne.
  - intros now k q r r' t k' He Hk. simpl in *. destruct (whole_seconds q) as [n|]; [|done]. injection He as <-.
    destruct (live now r k) as [[c d]|]; [destruct (0 <? n)|];
      by rewrite ?live_insert_ne, ?live_delete_ne.
Qed.
End RedisMap.

Module CooldownExample.
Import RedisMap.
Open Scope string_scope.
Definition fresh : Cooldowns store := {| cd_redis := ∅; cd_memory := ∅ |}.
Definition once : Cooldowns store := (setCooldown (E := unit) true 1000 "rule" "pc" (JNum 5) fresh).2.

(** A second cooldown of five minutes within the hour lasts ten. *)
Lemma setCooldown_window_witness :
  ∃ st', setCooldown (E := unit) true 2000000 "rule" "pc" (JNum 5) once = (Ok tt, st') ∧
    (isCooldownActive (E := unit) true 2599999 "rule" "pc" st').1 = Ok true ∧
    (isCooldownActive (E := unit) true 2600000 "rule" "pc" st').1 = Ok false.
Proof.
  destruct (setCooldown_window (E := unit) once 2000000 "rule" "pc" 5 (Some (1000, 1)))
    as (st' & Hs & _ & Hw & _).
  - lia.
  - lia.
  - split; [vm_compute; reflexivity|]. intros s m [= <- <-]. split; [left | lia].
  - exists st'. split; [exact Hs|]. split; [rewrite Hw by lia; vm_compute; reflexivity | rewrite Hw by lia; vm_compute; reflexivity].
Defined.

Lemma isFlapping_counts_witness :
  (isFlapping (E := unit) true 700000 "rule" "pc" 10 4
     (record_all (E := unit) "rule" "pc"
        [(0, triggered_state); (200000, resolved_state); (300000, triggered_state); (500000, resolved_state);
         (600000, triggered_state)]%Z fresh)).1 = Ok true.
Proof.
  rewrite isFlapping_counts.
  - vm_compute. reflexivity.
  - intros t. reflexivity.
  - intros t. reflexivity.
  - intros i j a b Hi Hj Hij.
    do 5 (destruct i as [|i]; [do 5 (destruct j as [|j]; [simplify_eq/=; lia|]); done|]). done.
  - intros a Ha. repeat (apply elem_of_cons in Ha as [->|Ha]; [simpl; lia|]). by apply not_elem_of_nil in Ha.
Defined.
End CooldownExample.
