(* ===== verification/AlertService.v ===== *)
(** * Alerts ([services/alertService.ts], [services/deviceSiteResolver.ts], [jobs/alertWorker.ts])

    Rules are evaluated against devices and open alerts; alerts whose conditions cleared are
    resolved.  A job or request runs in one database transaction ([withDbAccessContext]):
    after a statement that the database refuses, every later statement of the transaction
    fails and nothing it wrote is kept ([run_job]), while what went to Redis, to the event
    bus and to the queue stays.

    Titles and messages are [text]; the length limit of the title column is not modelled. *)

From S2P Require Import Prelude JsNum Json ConfigPolicy AlertConditions AlertCooldown.

Open Scope Z_scope.

(** ** Tables *)

Inductive AlertStatus := alert_active | alert_acknowledged | alert_resolved | alert_suppressed.
#[export] Instance AlertStatus_eq_dec : EqDecision AlertStatus.
Proof. solve_decision. Defined.

Definition SEVERITIES : list string := ["critical"; "high"; "medium"; "low"; "info"]%string.

Record templateRow := {
  tp_id : string; tp_conditions : json; tp_severity : string; tp_titleTemplate : string;
  tp_messageTemplate : string; tp_autoResolve : bool; tp_autoResolveConditions : option json;
  tp_cooldownMinutes : Z }.
Record ruleRow := {
  ru_id : string; ru_orgId : string; ru_templateId : string; ru_name : string; ru_targetType : string;
  ru_targetId : string; ru_overrideSettings : option json; ru_isActive : bool }.

(** The context column: of an evaluation, with what the rule adds. *)
Record alertContext := {
  ac_evaluation : context; ac_conditionsMet : list text; ac_conditionsNotMet : list text;
  ac_templateId : option string; ac_cooldownMinutes : json; ac_source : option string }.

Record alertRow := {
  al_ruleId : option string; al_deviceId : string; al_orgId : string; al_configPolicyId : option string;
  al_configItemName : option string; al_status : AlertStatus; al_severity : json; al_title : text;
  al_message : text; al_context : option alertContext; al_triggeredAt : Z;
  al_acknowledgedAt : option Z; al_acknowledgedBy : option string; al_resolvedAt : option Z;
  al_resolvedBy : option string; al_resolutionNote : option text; al_suppressedUntil : option Z }.

Inductive event :=
| AlertTriggered (orgId : string) (alertId : nat) (ruleId configPolicyAlertRuleId : option string)
    (deviceId : string) (siteId : option string)
| AlertResolved (orgId : string) (alertId : nat) (ruleId : option string) (deviceId : string)
    (siteId : option string)
| AlertAcknowledged (orgId : string) (alertId : nat) (ruleId : option string) (deviceId : string)
| AlertSuppressed (orgId : string) (alertId : nat) (ruleId : option string) (deviceId : string).

Record World (R : Type) := {
  w_db : MonitorDb; w_templates : list templateRow; w_rules : list ruleRow;
  w_alerts : gmap nat alertRow; w_next : nat;
  w_aborted : bool;                                     (* the transaction has failed *)
  w_cooldowns : Cooldowns R; w_events : list event;
  w_correlation : list (string * string);               (* jobs queued, organisation and device *)
  w_siteCache : list (string * (option string * Z)) }.  (* oldest first *)
Arguments w_db {R}. Arguments w_templates {R}. Arguments w_rules {R}. Arguments w_alerts {R}.
Arguments w_next {R}. Arguments w_aborted {R}. Arguments w_cooldowns {R}. Arguments w_events {R}.
Arguments w_correlation {R}. Arguments w_siteCache {R}.

Section service.
Context {R : Type} `{RedisKeys R} `{SqlParams}.
(** Redis and the event bus within reach, the clock; wall clocks and [new Date] on texts. *)
Context (up bus : bool) (now : Z) (wall : string → Z → option Z) (parse : string → option Z).

Abbreviation SM := (AM (World R) EvalError).

(** ** Statements *)

Definition with_alerts (w : World R) (a : gmap nat alertRow) (n : nat) : World R :=
  {| w_db := w_db w; w_templates := w_templates w; w_rules := w_rules w; w_alerts := a; w_next := n;
     w_aborted := w_aborted w; w_cooldowns := w_cooldowns w; w_events := w_events w;
     w_correlation := w_correlation w; w_siteCache := w_siteCache w |}.
Definition with_aborted (w : World R) (b : bool) : World R :=
  {| w_db := w_db w; w_templates := w_templates w; w_rules := w_rules w; w_alerts := w_alerts w;
     w_next := w_next w; w_aborted := b; w_cooldowns := w_cooldowns w; w_events := w_events w;
     w_correlation := w_correlation w; w_siteCache := w_siteCache w |}.
Definition with_cooldowns (w : World R) (c : Cooldowns R) : World R :=
  {| w_db := w_db w; w_templates := w_templates w; w_rules := w_rules w; w_alerts := w_alerts w;
     w_next := w_next w; w_aborted := w_aborted w; w_cooldowns := c; w_events := w_events w;
     w_correlation := w_correlation w; w_siteCache := w_siteCache w |}.
Definition with_outbox (w : World R) (es : list event) (q : list (string * string)) : World R :=
  {| w_db := w_db w; w_templates := w_templates w; w_rules := w_rules w; w_alerts := w_alerts w;
     w_next := w_next w; w_aborted := w_aborted w; w_cooldowns := w_cooldowns w; w_events := es;
     w_correlation := q; w_siteCache := w_siteCache w |}.
Definition with_siteCache (w : World R) (c : list (string * (option string * Z))) : World R :=
  {| w_db := w_db w; w_templates := w_templates w; w_rules := w_rules w; w_alerts := w_alerts w;
     w_next := w_next w; w_aborted := w_aborted w; w_cooldowns := w_cooldowns w; w_events := w_events w;
     w_correlation := w_correlation w; w_siteCache := c |}.

(** A read; in a failed transaction the database refuses it. *)
Definition query {A} (f : World R → A) : SM A :=
  λ w, if w_aborted w then (Throw (ConditionError QueryError), w) else (Ok (f w), w).

(** A write. *)
Definition write (f : World R → World R) : SM unit :=
  λ w, if w_aborted w then (Throw (ConditionError QueryError), w) else (Ok tt, f w).

(** Redis, through the cooldown service. *)
Definition cooldowns {A} (m : AM (Cooldowns R) EvalError A) : SM A :=
  λ w, let '(r, c) := m (w_cooldowns w) in (r, with_cooldowns w c).

(** [try { m } catch { h }]. *)
Definition try_catch {A} (m : SM A) (h : SM A) : SM A :=
  λ w, match m w with (Ok a, w') => (Ok a, w') | (Throw _, w') => h w' end.

(** An evaluation reads tables, except of a value that is no condition at all. *)
Definition evaluating {A} (conditions : option json) (r : World R → outcome EvalError A) : SM A :=
  λ w, let reads := match conditions with Some (JArr _) | Some (JObj _) => true | _ => false end in
       if reads && w_aborted w then (Throw (ConditionError QueryError), w)
       else match r w with
            | Ok a => (Ok a, w)
            | Throw QueryError => (Throw (ConditionError QueryError), with_aborted w true)
            | Throw e => (Throw (ConditionError e), w)
            end.
Definition evaluate_conditions (conditions : option json) (deviceId : string) : SM EvaluationResult :=
  evaluating conditions (λ w, evaluateConditions (w_db w) now conditions deviceId).
Definition evaluate_auto_resolve (conditions : option json) (deviceId : string) : SM (bool * text) :=
  evaluating conditions (λ w, evaluateAutoResolveConditions (w_db w) now conditions deviceId).

Definition find_rule (ruleId : string) (w : World R) : option ruleRow :=
  head (filter (λ r, ru_id r = ruleId) (w_rules w)).
Definition find_template (templateId : string) (w : World R) : option templateRow :=
  head (filter (λ t, tp_id t = templateId) (w_templates w)).
Definition find_config_rule (id : string) (w : World R) : option alertRuleRow :=
  head (filter (λ r, ar_id r = id) (alertRules (m_config (w_db w)))).

(** [(overrides?.k) ?? d]. *)
Definition override (rule : ruleRow) (k : string) (d : option json) : option json :=
  match ru_overrideSettings rule ≫= field k with None | Some JNull => d | v => v end.

(** Alerts a user has not settled. *)
Definition is_open (a : alertRow) : Prop := al_status a ∈ [alert_active; alert_acknowledged; alert_suppressed].
#[export] Instance is_open_dec a : Decision (is_open a).
Proof. unfold is_open. apply _. Defined.
Definition open_alert (P : alertRow → Prop) `{!∀ a, Decision (P a)} (w : World R) : bool :=
  existsb (λ e, bool_decide (P e.2 ∧ is_open e.2)) (map_to_list (w_alerts w)).

(** Insert a row; the database refuses a severity that is none of the enum. *)
Definition insert_alert (a : alertRow) : SM nat :=
  λ w, if w_aborted w || negb (one_of SEVERITIES (Some (al_severity a)))
       then (Throw (ConditionError QueryError), with_aborted w true)
       else (Ok (w_next w), with_alerts w (<[w_next w := a]> (w_alerts w)) (S (w_next w))).

(** [publishEvent] and the correlation queue. *)
Definition publish (e : event) : SM unit :=
  λ w, if bus then (Ok tt, with_outbox w (w_events w ++ [e]) (w_correlation w)) else (Throw RedisError, w).
Definition enqueueAlertCorrelationForDevice (orgId deviceId : string) : SM unit :=
  λ w, (Ok tt, with_outbox w (w_events w) (w_correlation w ++ [(orgId, deviceId)])).

(** ** The site of a device *)

Definition CACHE_TTL_MS : Z := 60 * 1000.
Definition MAX_CACHE_ENTRIES : Z := 50000.

Definition getCached (deviceId : string) : SM (option (option string)) :=
  λ w, match head (filter (λ e, e.1 = deviceId) (w_siteCache w)) with
       | None => (Ok None, w)
       | Some (_, (siteId, expiresAt)) =>
           if expiresAt <=? now
           then (Ok None, with_siteCache w (filter (λ e, e.1 ≠ deviceId) (w_siteCache w)))
           else (Ok (Some siteId), w)
       end.

(** [Map.set]: an entry that is there keeps its place. *)
Definition map_set {A} (k : string) (v : A) (l : list (string * A)) : list (string * A) :=
  if bool_decide (k ∈ l.*1) then (λ e, if bool_decide (e.1 = k) then (k, v) else e) <$> l else l ++ [(k, v)].
Definition setCached (deviceId : string) (siteId : option string) : SM unit :=
  λ w, let cache := if MAX_CACHE_ENTRIES <=? Z.of_nat (length (w_siteCache w)) then tail (w_siteCache w)
                    else w_siteCache w in
       (Ok tt, with_siteCache w (map_set deviceId (siteId, now + CACHE_TTL_MS) cache)).

Definition resolveDeviceSiteId (deviceId : string) : SM (option string) :=
  if bool_decide (deviceId = ""%string) then mret None
  else
    cached ← getCached deviceId;
    match cached with
    | Some siteId => mret siteId
    | None =>
        try_catch
          (siteId ← query (λ w, dev_siteId <$> find_device (m_config (w_db w)) deviceId);
           setCached deviceId siteId ;; mret siteId)
          (mret None)
    end.

(** ** Creating an alert *)

Record CreateAlertParams := {
  p_ruleId : string; p_deviceId : string; p_orgId : string; p_severity : json; p_title : text;
  p_message : text; p_context : option alertContext }.

Definition of_rule (ruleId deviceId : string) (a : alertRow) : Prop :=
  al_ruleId a = Some ruleId ∧ al_deviceId a = deviceId.
#[export] Instance of_rule_dec ruleId deviceId a : Decision (of_rule ruleId deviceId a).
Proof. unfold of_rule. apply _. Defined.
Definition of_config_rule (ruleId deviceId : string) (a : alertRow) : Prop :=
  al_configPolicyId a = Some ruleId ∧ al_deviceId a = deviceId.
#[export] Instance of_config_rule_dec ruleId deviceId a : Decision (of_config_rule ruleId deviceId a).
Proof. unfold of_config_rule. apply _. Defined.

(** [(overrides?.cooldownMinutes) ?? template?.cooldownMinutes ?? d]. *)
Definition rule_cooldown (rule : ruleRow) (template : option templateRow) (d : Z) : json :=
  nullish (override rule "cooldownMinutes" None)
    (JNum (inject_Z match template with Some t => tp_cooldownMinutes t | None => d end)).

Definition new_alert (p : CreateAlertParams) : alertRow :=
  {| al_ruleId := Some (p_ruleId p); al_deviceId := p_deviceId p; al_orgId := p_orgId p;
     al_configPolicyId := None; al_configItemName := None; al_status := alert_active;
     al_severity := p_severity p; al_title := p_title p; al_message := p_message p;
     al_context := p_context p; al_triggeredAt := now; al_acknowledgedAt := None;
     al_acknowledgedBy := None; al_resolvedAt := None; al_resolvedBy := None; al_resolutionNote := None;
     al_suppressedUntil := None |}.

Definition createAlert (p : CreateAlertParams) : SM (option nat) :=
  rule ← query (find_rule (p_ruleId p));
  match rule with
  | None => mret None
  | Some rule =>
      template ← query (find_template (ru_templateId rule));
      let cooldownMinutes := rule_cooldown rule template 5 in
      cooldownActive ← cooldowns (isCooldownActive up now (p_ruleId p) (p_deviceId p));
      if cooldownActive : bool then mret None
      else
        existingAlert ← query (open_alert (of_rule (p_ruleId p) (p_deviceId p)));
        if existingAlert : bool then mret None
        else
          flapping ← cooldowns (isFlapping up now (p_ruleId p) (p_deviceId p) 10 4);
          if flapping : bool then
            cooldowns (setCooldown up now (p_ruleId p) (p_deviceId p) cooldownMinutes) ;; mret None
          else
            cooldowns (recordStateTransition up now (p_ruleId p) (p_deviceId p) triggered_state) ;;
            newAlert ← insert_alert (new_alert p);
            cooldowns (setCooldown up now (p_ruleId p) (p_deviceId p) cooldownMinutes) ;;
            enqueueAlertCorrelationForDevice (p_orgId p) (p_deviceId p) ;;
            siteId ← resolveDeviceSiteId (p_deviceId p);
            publish (AlertTriggered (p_orgId p) newAlert (Some (p_ruleId p)) None (p_deviceId p) siteId) ;;
            mret (Some newAlert)
  end.
(** ** Resolving *)

Definition resolved (resolutionNote : option text) (resolvedBy : option string) (a : alertRow) : alertRow :=
  {| al_ruleId := al_ruleId a; al_deviceId := al_deviceId a; al_orgId := al_orgId a;
     al_configPolicyId := al_configPolicyId a; al_configItemName := al_configItemName a;
     al_status := alert_resolved; al_severity := al_severity a; al_title := al_title a;
     al_message := al_message a; al_context := al_context a; al_triggeredAt := al_triggeredAt a;
     al_acknowledgedAt := al_acknowledgedAt a; al_acknowledgedBy := al_acknowledgedBy a;
     al_resolvedAt := Some now; al_resolvedBy := resolvedBy; al_resolutionNote := resolutionNote;
     al_suppressedUntil := al_suppressedUntil a |}.

Definition update_alert (alertId : nat) (f : alertRow → alertRow) : SM unit :=
  write (λ w, with_alerts w (alter f alertId (w_alerts w)) (w_next w)).

(** [if (alert.ruleId)], ids being texts. *)
Definition id_of (v : option string) : option string := if truthy v then v else None.

Definition resolveAlert (alertId : nat) (resolutionNote : option text) (resolvedBy : option string) : SM unit :=
  alert ← query (λ w, w_alerts w !! alertId);
  match alert with
  | None => mret tt
  | Some a =>
      update_alert alertId (resolved resolutionNote resolvedBy) ;;
      try_catch
        match id_of (al_ruleId a), id_of (al_configPolicyId a) with
        | Some r, _ => cooldowns (recordStateTransition up now r (al_deviceId a) resolved_state)
        | None, Some c => cooldowns (recordStateTransition up now c (al_deviceId a) resolved_state)
        | None, None => mret tt
        end (mret tt) ;;
      match id_of (al_configPolicyId a), id_of (al_ruleId a) with
      | Some c, _ =>
          cpRule ← query (find_config_rule c);
          match cpRule with
          | Some cp => cooldowns (markConfigPolicyRuleCooldown up now (ar_id cp) (al_deviceId a)
                                    (JNum (inject_Z (ar_cooldownMinutes cp))))
          | None => mret tt
          end
      | None, Some r =>
          rule ← query (find_rule r);
          match rule with
          | Some rule =>
              template ← query (find_template (ru_templateId rule));
              cooldowns (setCooldown up now r (al_deviceId a) (rule_cooldown rule template 15))
          | None => mret tt
          end
      | None, None => mret tt
      end ;;
      siteId ← resolveDeviceSiteId (al_deviceId a);
      publish (AlertResolved (al_orgId a) alertId (al_ruleId a) (al_deviceId a) siteId)
  end.

Definition cleared : text := [T "Auto-resolved: conditions cleared"].

(** Resolve when the resolving conditions hold, or, without any, when those that trigger
    the alert no longer do. *)
Definition auto_resolve (alertId : nat) (deviceId : string) (autoResolveConditions triggerConditions : option json)
    : SM bool :=
  if json_truthy autoResolveConditions then
    '(shouldResolve, reason) ← evaluate_auto_resolve autoResolveConditions deviceId;
    if shouldResolve : bool then
      resolveAlert alertId (Some (T "Auto-resolved: " :: reason)) None ;; mret true
    else mret false
  else
    result ← evaluate_conditions triggerConditions deviceId;
    if triggered result then mret false
    else resolveAlert alertId (Some cleared) None ;; mret true.

Definition checkAutoResolve (alertId : nat) : SM bool :=
  alert ← query (λ w, w_alerts w !! alertId);
  match alert with
  | None => mret false
  | Some a =>
      if negb (bool_decide (al_status a = alert_active)) then mret false
      else
        match id_of (al_ruleId a) with
        | None => mret false
        | Some r =>
            rule ← query (find_rule r);
            match rule with
            | None => mret false
            | Some rule =>
                template ← query (find_template (ru_templateId rule));
                match template with
                | None => mret false
                | Some t =>
                    if json_truthy (override rule "autoResolve" (Some (JBool (tp_autoResolve t)))) then
                      auto_resolve alertId (al_deviceId a)
                        (override rule "autoResolveConditions" (tp_autoResolveConditions t))
                        (override rule "conditions" (Some (tp_conditions t)))
                    else mret false
                end
            end
        end
  end.

(** A loop that goes on after an error, counting the steps that say so. *)
Fixpoint count_each {A} (f : A → SM bool) (l : list A) (n : nat) : SM nat :=
  match l with
  | [] => mret n
  | x :: l' => b ← try_catch (f x) (mret false); count_each f l' (if b : bool then S n else n)
  end.

Definition checkAllAutoResolve (orgId : option string) : SM nat :=
  activeAlerts ← query (λ w, (filter (λ e, al_status e.2 = alert_active ∧
                     (truthy orgId = true → Some (al_orgId e.2) = orgId)) (map_to_list (w_alerts w))).*1);
  count_each checkAutoResolve activeAlerts 0.

(** An alert of a configuration policy rule. *)
Definition check_config_alert (rules : list alertRuleRow) (e : nat * alertRow) : SM bool :=
  match head (filter (λ r, Some (ar_id r) = al_configPolicyId e.2) rules) with
  | None => mret false
  | Some rule =>
      if negb (ar_autoResolve rule) then mret false
      else
        b ← auto_resolve e.1 (al_deviceId e.2) (ar_autoResolveConditions rule) (Some (ar_conditions rule));
        if b : bool then
          cooldowns (markConfigPolicyRuleCooldown up now (ar_id rule) (al_deviceId e.2)
                       (JNum (inject_Z (ar_cooldownMinutes rule)))) ;; mret true
        else mret false
  end.
Definition checkAutoResolveFromConfigPolicy (deviceId : string) : SM nat :=
  activeAlerts ← query (λ w, filter (λ e, al_deviceId e.2 = deviceId ∧ al_status e.2 = alert_active ∧
                     al_configPolicyId e.2 ≠ None) (map_to_list (w_alerts w)));
  match activeAlerts with
  | [] => mret 0%nat
  | _ =>
      rules ← query (λ w, filter (λ r, Some (ar_id r) ∈ al_configPolicyId <$> activeAlerts.*2)
                            (alertRules (m_config (w_db w))));
      count_each (check_config_alert rules) activeAlerts 0
  end.
(** ** Evaluating rules *)

Record RuleWithTemplate := {
  rt_rule : ruleRow; rt_template : templateRow; effectiveConditions : option json;
  effectiveSeverity : json; effectiveCooldownMinutes : json }.

Definition targets_device (d : deviceRow) (groupIds : list string) (r : ruleRow) : Prop :=
  ru_targetType r = "all" ∨
  (ru_targetType r = "org" ∧ ru_targetId r = dev_orgId d) ∨
  (ru_targetType r = "site" ∧ ru_targetId r = dev_siteId d) ∨
  (ru_targetType r = "device" ∧ ru_targetId r = dev_id d) ∨
  (ru_targetType r = "group" ∧ ru_targetId r ∈ groupIds).
#[export] Instance targets_device_dec d g r : Decision (targets_device d g r).
Proof. unfold targets_device. apply _. Defined.

Definition with_template (rule : ruleRow) (t : templateRow) : RuleWithTemplate :=
  {| rt_rule := rule; rt_template := t;
     effectiveConditions := override rule "conditions" (Some (tp_conditions t));
     effectiveSeverity := nullish (override rule "severity" None) (JStr (tp_severity t));
     effectiveCooldownMinutes := nullish (override rule "cooldownMinutes" None)
                                   (JNum (inject_Z (tp_cooldownMinutes t))) |}.

Definition getApplicableRules (deviceId : string) : SM (list RuleWithTemplate) :=
  dev ← query (λ w, find_device (m_config (w_db w)) deviceId);
  match dev with
  | None => mret []
  | Some d =>
      groupIds ← query (λ w, mb_groupId <$> filter (λ m, mb_deviceId m = deviceId) (memberships (m_config (w_db w))));
      rules ← query (λ w, filter (λ r, ru_orgId r = dev_orgId d ∧ ru_isActive r = true ∧
                            targets_device d groupIds r) (w_rules w));
      match rules with
      | [] => mret []
      | _ =>
          templates ← query (λ w, filter (λ t, tp_id t ∈ ru_templateId <$> rules) (w_templates w));
          mret (omap (λ rule, with_template rule <$> last_with tp_id (ru_templateId rule) templates) rules)
      end
  end.

(** The variables of a title or message: those of the device and the rule, then those of the
    evaluation, which win. *)
Definition template_var (d : deviceRow) (ruleName : string) (severity : json) (c : context) (key : string)
    : option part :=
  or_else (context_var c key)
    (if bool_decide (key = "deviceName") then
       Some (T (match dev_displayName d with Some (String _ _ as n) => n | _ => dev_hostname d end))
     else if bool_decide (key = "hostname") then Some (T (dev_hostname d))
     else if bool_decide (key = "osType") then Some (T (dev_osType d))
     else if bool_decide (key = "osVersion") then Some (T (dev_osVersion d))
     else if bool_decide (key = "ruleName") then Some (T ruleName)
     else if bool_decide (key = "severity") then present (Some severity)
     else None)%string.

Definition evaluation_context (result : EvaluationResult) (templateId source : option string) (cooldown : json)
    : alertContext :=
  {| ac_evaluation := ev_context result; ac_conditionsMet := conditionsMet result;
     ac_conditionsNotMet := conditionsNotMet result; ac_templateId := templateId;
     ac_cooldownMinutes := cooldown; ac_source := source |}.

(** A loop that goes on after an error, collecting what its steps created. *)
Fixpoint collect_each {A} (f : A → SM (option nat)) (l : list A) (created : list nat) : SM (list nat) :=
  match l with
  | [] => mret created
  | x :: l' =>
      r ← try_catch (f x) (mret None);
      collect_each f l' (match r with Some id => created ++ [id] | None => created end)
  end.

Definition evaluate_rule (d : deviceRow) (deviceId : string) (rt : RuleWithTemplate) : SM (option nat) :=
  result ← evaluate_conditions (effectiveConditions rt) deviceId;
  if triggered result then
    let var := template_var d (ru_name (rt_rule rt)) (effectiveSeverity rt) (ev_context result) in
    createAlert
      {| p_ruleId := ru_id (rt_rule rt); p_deviceId := deviceId; p_orgId := ru_orgId (rt_rule rt);
         p_severity := effectiveSeverity rt;
         p_title := interpolateTemplate (tp_titleTemplate (rt_template rt)) var;
         p_message := interpolateTemplate (tp_messageTemplate (rt_template rt)) var;
         p_context := Some (evaluation_context result (Some (tp_id (rt_template rt))) None
                              (effectiveCooldownMinutes rt)) |}
  else mret None.

Definition evaluateDeviceAlerts (deviceId : string) : SM (list nat) :=
  applicableRules ← getApplicableRules deviceId;
  match applicableRules with
  | [] => mret []
  | _ =>
      dev ← query (λ w, find_device (m_config (w_db w)) deviceId);
      match dev with
      | None => mret []
      | Some d => collect_each (evaluate_rule d deviceId) applicableRules []
      end
  end.

Definition config_alert (d : deviceRow) (deviceId : string) (rule : alertRuleRow) (result : EvaluationResult)
    : alertRow :=
  let var := template_var d (ar_name rule) (JStr (ar_severity rule)) (ev_context result) in
  {| al_ruleId := None; al_deviceId := deviceId; al_orgId := dev_orgId d; al_configPolicyId := Some (ar_id rule);
     al_configItemName := Some (ar_name rule); al_status := alert_active; al_severity := JStr (ar_severity rule);
     al_title := interpolateTemplate (ar_titleTemplate rule) var;
     al_message := interpolateTemplate (ar_messageTemplate rule) var;
     al_context := Some (evaluation_context result None (Some "config_policy"%string)
                           (JNum (inject_Z (ar_cooldownMinutes rule))));
     al_triggeredAt := now; al_acknowledgedAt := None; al_acknowledgedBy := None; al_resolvedAt := None;
     al_resolvedBy := None; al_resolutionNote := None; al_suppressedUntil := None |}.

Definition evaluate_config_rule (d : deviceRow) (deviceId : string) (rule : alertRuleRow) : SM (option nat) :=
  cooling ← cooldowns (isConfigPolicyRuleCooling up now (ar_id rule) deviceId);
  if cooling : bool then mret None
  else
    existingAlert ← query (open_alert (of_config_rule (ar_id rule) deviceId));
    if existingAlert : bool then mret None
    else
      result ← evaluate_conditions (Some (ar_conditions rule)) deviceId;
      if negb (triggered result) then mret None
      else
        let cooldown := JNum (inject_Z (ar_cooldownMinutes rule)) in
        flapping ← cooldowns (isFlapping up now (ar_id rule) deviceId 10 4);
        if flapping : bool then
          cooldowns (markConfigPolicyRuleCooldown up now (ar_id rule) deviceId cooldown) ;; mret None
        else
          cooldowns (recordStateTransition up now (ar_id rule) deviceId triggered_state) ;;
          newAlert ← insert_alert (config_alert d deviceId rule result);
          cooldowns (markConfigPolicyRuleCooldown up now (ar_id rule) deviceId cooldown) ;;
          enqueueAlertCorrelationForDevice (dev_orgId d) deviceId ;;
          publish (AlertTriggered (dev_orgId d) newAlert None (Some (ar_id rule)) deviceId (Some (dev_siteId d))) ;;
          mret (Some newAlert).

(** [resolveMaintenanceConfigForDevice], [getApplicableRulesFromPolicy] and the device. *)
Definition suppressed_now (deviceId : string) (w : World R) : bool :=
  match resolveMaintenanceConfigForDevice (m_config (w_db w)) deviceId with
  | Some settings =>
      let status := isInMaintenanceWindow wall parse settings now in active status && suppressAlerts status
  | None => false
  end.
Definition getApplicableRulesFromPolicy (deviceId : string) : SM (list alertRuleRow) :=
  query (λ w, resolveAlertRulesForDevice (m_config (w_db w)) deviceId).

Definition evaluateDeviceAlertsFromPolicy (deviceId : string) : SM (list nat) :=
  suppressed ← query (suppressed_now deviceId);
  if suppressed : bool then mret []
  else
    policyRules ← getApplicableRulesFromPolicy deviceId;
    match policyRules with
    | [] => mret []
    | _ =>
        dev ← query (λ w, find_device (m_config (w_db w)) deviceId);
        match dev with
        | None => mret []
        | Some d => collect_each (evaluate_config_rule d deviceId) policyRules []
        end
    end.

(** ** Statistics *)

Record AlertStats := { st_active : nat; st_acknowledged : nat; st_resolved : nat; st_suppressed : nat;
                       st_bySeverity : list (string * nat) }.
Definition status_count (s : AlertStatus) (l : list alertRow) : nat := length (filter (λ a, al_status a = s) l).
Definition severity_counts (l : list alertRow) : list (string * nat) :=
  foldl (λ counts a,
    if bool_decide (al_status a = alert_active ∨ al_status a = alert_acknowledged) then
      match al_severity a with
      | JStr s => map_set s (S (default 0%nat (snd <$> head (filter (λ e, e.1 = s) counts)))) counts
      | _ => counts
      end
    else counts) [] l.
Definition getAlertStats (orgId : string) : SM AlertStats :=
  allAlerts ← query (λ w, filter (λ a, al_orgId a = orgId) (map_to_list (w_alerts w)).*2);
  mret {| st_active := status_count alert_active allAlerts;
          st_acknowledged := status_count alert_acknowledged allAlerts;
          st_resolved := status_count alert_resolved allAlerts;
          st_suppressed := status_count alert_suppressed allAlerts;
          st_bySeverity := severity_counts allAlerts |}.

(** ** Jobs ([jobs/alertWorker.ts]) *)

Definition processEvaluateDevice (deviceId : string) : SM nat :=
  legacyAlertIds ← evaluateDeviceAlerts deviceId;
  configPolicyAlertIds ← evaluateDeviceAlertsFromPolicy deviceId;
  mret (length (legacyAlertIds ++ configPolicyAlertIds)).

Fixpoint sum_each {A} (f : A → SM nat) (l : list A) (n : nat) : SM nat :=
  match l with
  | [] => mret n
  | x :: l' => k ← try_catch (f x) (mret 0%nat); sum_each f l' (n + k)
  end.
(** [[...new Set(l)]]: first occurrences. *)
Definition unique (l : list string) : list string := reverse (remove_dups (reverse l)).
Definition processAutoResolve (orgId : option string) : SM nat :=
  legacyResolvedCount ← checkAllAutoResolve orgId;
  configPolicyResolvedCount ←
    try_catch
      (deviceIds ← query (λ w, unique (al_deviceId <$>
           filter (λ a, al_status a = alert_active ∧ al_configPolicyId a ≠ None ∧
                        (truthy orgId = true → Some (al_orgId a) = orgId)) (map_to_list (w_alerts w)).*2));
       sum_each checkAutoResolveFromConfigPolicy deviceIds 0)
      (mret 0%nat);
  mret (legacyResolvedCount + configPolicyResolvedCount)%nat.

(** A job is one transaction: it is rolled back when it throws, and when a statement of it
    failed, whatever the job returns. *)
Definition run_job {A} (m : SM A) : SM A :=
  λ w, let '(r, w') := m (with_aborted w false) in
       let keep := match r with Ok _ => negb (w_aborted w') | Throw _ => false end in
       (r, with_aborted (if keep then w' else with_alerts w' (w_alerts w) (w_next w)) false).
(** ** Actions of users ([routes/alerts/alerts.ts]) and of the assistant
    ([services/aiToolsAlerts.ts])

    [visible] is the access check of the handler ([getAlertWithOrgCheck],
    [findAlertWithAccess]). *)

Inductive answer := answered | not_found | bad_request.

Definition set_status (s : AlertStatus) (ackAt : option Z) (ackBy : option string) (until : option Z)
    (note : option text) (a : alertRow) : alertRow :=
  {| al_ruleId := al_ruleId a; al_deviceId := al_deviceId a; al_orgId := al_orgId a;
     al_configPolicyId := al_configPolicyId a; al_configItemName := al_configItemName a;
     al_status := s; al_severity := al_severity a; al_title := al_title a; al_message := al_message a;
     al_context := al_context a; al_triggeredAt := al_triggeredAt a;
     al_acknowledgedAt := ackAt; al_acknowledgedBy := ackBy; al_resolvedAt := al_resolvedAt a;
     al_resolvedBy := al_resolvedBy a; al_resolutionNote := note; al_suppressedUntil := until |}.
Definition acknowledged (user : string) (a : alertRow) : alertRow :=
  set_status alert_acknowledged (Some now) (Some user) (al_suppressedUntil a) (al_resolutionNote a) a.

Context (visible : alertRow → bool).
Definition load_visible (alertId : nat) : SM (option alertRow) :=
  query (λ w, match w_alerts w !! alertId with
              | Some a => if visible a then Some a else None
              | None => None
              end).

Definition acknowledgeAlert (alertId : nat) (user : string) : SM answer :=
  alert ← load_visible alertId;
  match alert with
  | None => mret not_found
  | Some a =>
      if negb (bool_decide (al_status a = alert_active)) then mret bad_request
      else
        update_alert alertId (acknowledged user) ;;
        try_catch (publish (AlertAcknowledged (al_orgId a) alertId (al_ruleId a) (al_deviceId a))) (mret tt) ;;
        mret answered
  end.

(** The cooldown after a manual resolution; that of a policy rule comes from the alert. *)
Definition context_cooldown (a : alertRow) : json :=
  match ac_cooldownMinutes <$> al_context a with Some (JNum q) => JNum q | _ => JNum 5 end.
Definition resolveAlertRoute (alertId : nat) (user : string) (note : option text) : SM answer :=
  alert ← load_visible alertId;
  match alert with
  | None => mret not_found
  | Some a =>
      if bool_decide (al_status a = alert_resolved) then mret bad_request
      else
        update_alert alertId (λ a, resolved (or_else note (al_resolutionNote a)) (Some user) a) ;;
        match id_of (al_ruleId a), id_of (al_configPolicyId a) with
        | Some r, _ =>
            rule ← query (find_rule r);
            match rule with
            | Some rule =>
                template ← query (find_template (ru_templateId rule));
                cooldowns (setCooldown up now r (al_deviceId a) (rule_cooldown rule template 15))
            | None => mret tt
            end
        | None, Some c =>
            cooldowns (markConfigPolicyRuleCooldown up now c (al_deviceId a) (context_cooldown a))
        | None, None => mret tt
        end ;;
        try_catch (publish (AlertResolved (al_orgId a) alertId (al_ruleId a) (al_deviceId a) None)) (mret tt) ;;
        mret answered
  end.

(** [until]: the date of the request, [None] when it is invalid. *)
Definition suppressAlert (alertId : nat) (until : option Z) : SM answer :=
  alert ← load_visible alertId;
  match alert with
  | None => mret not_found
  | Some a =>
      if bool_decide (al_status a = alert_resolved) then mret bad_request
      else
        match until with
        | Some t =>
            if t <=? now then mret bad_request
            else
              update_alert alertId (λ a, set_status alert_suppressed (al_acknowledgedAt a) (al_acknowledgedBy a)
                                           (Some t) (al_resolutionNote a) a) ;;
              mret answered
        | None => λ w, (Throw (ConditionError RangeError), w)
        end
  end.

Definition ai_acknowledge (alertId : nat) (user : string) : SM answer :=
  alert ← load_visible alertId;
  match alert with
  | None => mret not_found
  | Some a =>
      update_alert alertId (acknowledged user) ;;
      try_catch (publish (AlertAcknowledged (al_orgId a) alertId (al_ruleId a) (al_deviceId a))) (mret tt) ;;
      mret answered
  end.

Definition ai_resolve (alertId : nat) (user : string) (resolutionNote : option text) : SM answer :=
  alert ← load_visible alertId;
  match alert with
  | None => mret not_found
  | Some a =>
      update_alert alertId
        (resolved (Some (default [T "Resolved via AI assistant"] resolutionNote)) (Some user)) ;;
      try_catch (publish (AlertResolved (al_orgId a) alertId (al_ruleId a) (al_deviceId a) None)) (mret tt) ;;
      mret answered
  end.

(** [Math.min(Math.max(1, Number(x) || 24), 720)]. *)
Definition suppress_hours (v : option json) : Q :=
  let h := match number_of v with Some q => if Qeq_bool q 0 then 24%Q else q | None => 24%Q end in
  let h := if Qle_bool h 1 then 1%Q else h in if Qle_bool 720 h then 720%Q else h.
Definition ai_suppress (alertId : nat) (suppressDuration : option json) (resolutionNote : option text) : SM answer :=
  alert ← load_visible alertId;
  match alert with
  | None => mret not_found
  | Some a =>
      let hours := suppress_hours suppressDuration in
      let until := time_clip (nadd (nint now) (nmul (nmul (nmul (Some hours) (nint 60)) (nint 60)) (nint 1000))) in
      let note := default [T "Suppressed for "; V (Some (JNum hours)); T "h via AI assistant"] resolutionNote in
      update_alert alertId (λ a, set_status alert_suppressed (al_acknowledgedAt a) (al_acknowledgedBy a)
                                   until (Some note) a) ;;
      try_catch (publish (AlertSuppressed (al_orgId a) alertId (al_ruleId a) (al_deviceId a))) (mret tt) ;;
      mret answered
  end.
End service.

(** ** Queuing evaluations ([processEvaluateAll]) *)

Section evaluate_all.
(** The devices, the ids of the active organisations, the clock, and the two limits:
    devices per run (0 for none) and per page. *)
Context (rows : list deviceRow) (orgIds : list string) (now : Z) (cap chunkSize : nat).

Definition eligible (d : deviceRow) : Prop :=
  dev_orgId d ∈ orgIds ∧ dev_status d = "online"%string ∧
  match dev_lastSeenAt d with Some t => now - 5 * 60 * 1000 <= t | None => False end.
#[export] Instance eligible_dec d : Decision (eligible d).
Proof. unfold eligible. destruct (dev_lastSeenAt d); apply _. Defined.

Definition after_cursor (cursor : option string) (id : string) : bool :=
  match cursor with Some c => str_lt c id | None => true end.

(** [ORDER BY id LIMIT limit], after the cursor. *)
Definition chunk_after (cursor : option string) (limit : nat) : list deviceRow :=
  take limit (sort_by (λ a b, str_cmp (dev_id a) (dev_id b))
    (filter (λ d, eligible d ∧ after_cursor cursor (dev_id d) = true) rows)).

(** Each page that is not the last one queues at least one device: [fuel] is a bound on the
    number of pages. *)
Fixpoint queue_pages (fuel totalQueued : nat) (cursor : option string) : list (string * string) :=
  match fuel with
  | O => []
  | S fuel' =>
      let remaining := if (0 <? cap)%nat then (cap - totalQueued)%nat else chunkSize in
      if ((0 <? cap) && (remaining =? 0))%nat then []
      else
        let limit := Nat.min chunkSize (if (remaining =? 0)%nat then chunkSize else remaining) in
        let chunk := chunk_after cursor limit in
        match last chunk with
        | None => []
        | Some d =>
            ((λ d, (dev_id d, dev_orgId d)) <$> chunk) ++
            if (length chunk <? limit)%nat then []
            else queue_pages fuel' (totalQueued + length chunk) (Some (dev_id d))
        end
  end.

Definition processEvaluateAll : list (string * string) :=
  match orgIds with [] => [] | _ => queue_pages (S (length rows)) 0 None end.
End evaluate_all.
