(* ===== verification/AlertSafety.v ===== *)
(** * What the alert service guarantees

    At most one unsettled alert for a rule and device over every history of jobs and user
    actions; what creating an alert does on each branch; and where the service loses alerts
    or announcements. *)

From S2P Require Import Prelude JsNum Json ConfigPolicy ConfigResolution AlertConditions.
From S2P Require Import AlertCooldown AlertService AlertMeaning.
From Stdlib Require Import Sorted.

Open Scope Z_scope.

(** ** At most one open alert *)

Abbreviation alerts_table := (gmap nat alertRow).

(** No two open alerts with one key. *)
Definition one_open (Q : string → string → alertRow → Prop) (t : alerts_table) : Prop :=
  ∀ k d i j a b, t !! i = Some a → t !! j = Some b → is_open a → is_open b → Q k d a → Q k d b → i = j.

Record alerts_ok (t : alerts_table) (next : nat) : Prop := {
  ok_rules : one_open of_rule t;
  ok_config : one_open of_config_rule t;
  ok_next : ∀ i, is_Some (t !! i) → (i < next)%nat }.

(** The key of a row, and that no row with it is open. *)
Definition none_open (Q : alertRow → Prop) (t : alerts_table) : Prop :=
  ∀ i a, t !! i = Some a → Q a → ¬ is_open a.

Section logic.
Context {R : Type}.
Abbreviation SM := (AM (World R) EvalError).

(** Steps that leave the table alone. *)
Definition inert {A} (m : SM A) : Prop :=
  ∀ w, w_alerts (m w).2 = w_alerts w ∧ w_next (m w).2 = w_next w.

(** From a table with [P], every outcome leaves the table in order. *)
Definition orderly (P : alerts_table → nat → Prop) {A} (m : SM A) : Prop :=
  ∀ w, P (w_alerts w) (w_next w) → alerts_ok (w_alerts (m w).2) (w_next (m w).2).
Abbreviation orderly_job := (orderly alerts_ok).

Lemma inert_ret {A} (a : A) : inert (mret a : SM A).
Proof. done. Qed.
Lemma inert_bind {A B} (m : SM A) (k : A → SM B) : inert m → (∀ a, inert (k a)) → inert (m ≫= k).
Proof.
  intros Hm Hk w. destruct (Hm w) as [H1 H2]. unfold mbind, AM_bind. destruct (m w) as [[a|e] w']; [|done].
  simpl in *. destruct (Hk a w'). split; congruence.
Qed.
Lemma inert_try {A} (m h : SM A) : inert m → inert h → inert (try_catch m h).
Proof.
  intros Hm Hh w. destruct (Hm w) as [H1 H2]. unfold try_catch. destruct (m w) as [[a|e] w']; [done|].
  simpl in *. destruct (Hh w'). split; congruence.
Qed.
Lemma inert_query {A} (f : World R → A) : inert (query f).
Proof. intros w. unfold query. by destruct (w_aborted w). Qed.
Lemma inert_cooldowns {A} (m : AM (Cooldowns R) EvalError A) : inert (cooldowns m).
Proof. intros w. unfold cooldowns. by destruct (m (w_cooldowns w)). Qed.
Lemma inert_evaluating {A} c (r : World R → outcome EvalError A) : inert (evaluating c r).
Proof. intros w. unfold evaluating. destruct (_ && _); [done|]. by destruct (r w) as [|[]]. Qed.
Lemma inert_publish bus e : inert (publish bus e : SM unit).
Proof. intros w. unfold publish. by destruct bus. Qed.
Lemma inert_enqueue o d : inert (enqueueAlertCorrelationForDevice o d : SM unit).
Proof. done. Qed.
Lemma inert_throw {A} e : inert ((λ w, (Throw e, w)) : SM A).
Proof. done. Qed.
Lemma inert_site now d : inert (resolveDeviceSiteId now d : SM (option string)).
Proof.
  unfold resolveDeviceSiteId. case_bool_decide; [done|]. apply inert_bind.
  - intros w. unfold getCached. destruct (head _) as [[? [? ?]]|]; [|done]. by destruct (_ <=? _).
  - intros [s|]; [done|]. apply inert_try; [|done].
    apply inert_bind; [apply inert_query|]. intros s. by apply inert_bind.
Qed.

Lemma orderly_inert {A} (P : alerts_table → nat → Prop) (m : SM A) :
  (∀ t n, P t n → alerts_ok t n) → inert m → orderly P m.
Proof. intros HP Hm w Hw. destruct (Hm w) as [-> ->]. by apply HP. Qed.
Lemma orderly_bind {A B} P (m : SM A) (k : A → SM B) :
  (∀ t n, P t n → alerts_ok t n) → inert m → (∀ a, orderly P (k a)) → orderly P (m ≫= k).
Proof.
  intros HP Hm Hk w Hw. destruct (Hm w) as [H1 H2]. unfold mbind, AM_bind.
  destruct (m w) as [[a|e] w']; simpl in *; [|rewrite H1, H2; by apply HP]. apply Hk. by rewrite H1, H2.
Qed.
(** After a step that keeps order anything that keeps order may follow. *)
Lemma orderly_seq {A B} P (m : SM A) (k : A → SM B) :
  orderly P m → (∀ a, orderly_job (k a)) → orderly P (m ≫= k).
Proof.
  intros Hm Hk w Hw. specialize (Hm w Hw). unfold mbind, AM_bind.
  destruct (m w) as [[a|e] w']; simpl in *; [by apply Hk | done].
Qed.
Lemma orderly_try {A} P (m h : SM A) : orderly P m → orderly_job h → orderly P (try_catch m h).
Proof.
  intros Hm Hh w Hw. specialize (Hm w Hw). unfold try_catch. destruct (m w) as [[a|e] w']; simpl in *; [done | by apply Hh].
Qed.
Lemma orderly_ret {A} (a : A) : orderly_job (mret a : SM A).
Proof. by apply orderly_inert. Qed.

(** Reading whether there is an open alert with a key. *)
Lemma open_alert_false (Q : alertRow → Prop) `{!∀ a, Decision (Q a)} (w : World R) :
  open_alert Q w = false → none_open Q (w_alerts w).
Proof.
  unfold open_alert. intros Hno i a Hi HQ Ho. apply not_true_iff_false in Hno. apply Hno.
  apply existsb_exists. exists (i, a). split; [|by rewrite bool_decide_true].
  apply list_elem_of_In. by apply elem_of_map_to_list.
Qed.
Lemma orderly_open {A} (Q : alertRow → Prop) `{!∀ a, Decision (Q a)} (k : bool → SM A) :
  orderly_job (k true) → orderly (λ t n, alerts_ok t n ∧ none_open Q t) (k false) →
  orderly_job (query (open_alert Q) ≫= k).
Proof.
  intros Ht Hf w Hw. unfold mbind, AM_bind, query. destruct (w_aborted w); [done|].
  destruct (open_alert Q w) eqn:E; [by apply Ht|]. apply Hf. split; [done|]. by eapply open_alert_false.
Qed.

(** Reading a row. *)
Lemma orderly_lookup {A} (id : nat) (f : World R → option alertRow) (k : option alertRow → SM A) :
  (∀ w a, f w = Some a → w_alerts w !! id = Some a) → orderly_job (k None) →
  (∀ a, orderly (λ t n, alerts_ok t n ∧ t !! id = Some a) (k (Some a))) →
  orderly_job (query f ≫= k).
Proof.
  intros Hf Hn Hs w Hw. unfold mbind, AM_bind, query. destruct (w_aborted w); [done|].
  destruct (f w) as [a|] eqn:E; [|by apply Hn]. apply Hs. split; [done|]. by apply Hf.
Qed.
(** Two rows of one rule or policy rule, on one device. *)
Definition same_key (a b : alertRow) : Prop :=
  (∃ k d, of_rule k d a ∧ of_rule k d b) ∨ (∃ k d, of_config_rule k d a ∧ of_config_rule k d b).

Lemma one_open_insert Q (t : alerts_table) i a :
  one_open Q t → t !! i = None → (∀ k d, Q k d a → none_open (Q k d) t) → one_open Q (<[i := a]> t).
Proof.
  intros Ht Hi Ha k d x y b c. destruct (decide (x = i)) as [->|Hx], (decide (y = i)) as [->|Hy];
    rewrite ?lookup_insert_eq, ?lookup_insert_ne by done; intros Hb Hc Ob Oc Qb Qc; simplify_eq; [done| | |].
  - by destruct (Ha k d Qb y c Hc Qc).
  - by destruct (Ha k d Qc x b Hb Qb).
  - by eapply Ht.
Qed.

Lemma alerts_ok_insert t n a : alerts_ok t n → none_open (same_key a) t → alerts_ok (<[n := a]> t) (S n).
Proof.
  intros [H1 H2 H3] Ha. assert (t !! n = None) as Hn.
  { apply eq_None_not_Some. intros Hs. specialize (H3 n Hs). lia. }
  split.
  - apply one_open_insert; [done..|]. intros k d Hk i b Hb Qb. apply (Ha i b Hb). left. eauto.
  - apply one_open_insert; [done..|]. intros k d Hk i b Hb Qb. apply (Ha i b Hb). right. eauto.
  - intros i. destruct (decide (i = n)) as [->|]; [lia|]. rewrite lookup_insert_ne by done. intros Hi.
    specialize (H3 i Hi). lia.
Qed.

Lemma orderly_insert {A} (Q : alertRow → Prop) (a : alertRow) (k : nat → SM A) :
  (∀ b, same_key a b → Q b) → (∀ id, orderly_job (k id)) →
  orderly (λ t n, alerts_ok t n ∧ none_open Q t) (insert_alert a ≫= k).
Proof.
  intros HQ Hk w [Hok Hno]. unfold mbind, AM_bind, insert_alert. destruct (_ || _); [done|]. apply Hk. simpl.
  apply alerts_ok_insert; [done|]. intros i b Hb Hs. by apply (Hno i b Hb), HQ.
Qed.

(** Changing a row without its keys, and without opening it. *)
Definition keeps_key (f : alertRow → alertRow) : Prop :=
  ∀ a, al_ruleId (f a) = al_ruleId a ∧ al_configPolicyId (f a) = al_configPolicyId a ∧
       al_deviceId (f a) = al_deviceId a.

Lemma alerts_ok_alter t n id f :
  alerts_ok t n → keeps_key f → (∀ a, t !! id = Some a → is_open (f a) → is_open a) →
  alerts_ok (alter f id t) n.
Proof.
  intros [H1 H2 H3] Hf Ho.
  assert (∀ Q, (∀ k d a, Q k d (f a) ↔ Q k d a) → one_open Q t → one_open Q (alter f id t)) as Hone.
  { intros Q HQ Ht k d i j a b Ha Hb Oa Ob Qa Qb.
    assert (∀ x c, alter f id t !! x = Some c → is_open c → Q k d c →
      ∃ c', t !! x = Some c' ∧ is_open c' ∧ Q k d c') as Hback.
    { intros x c Hc Oc Qc. destruct (decide (x = id)) as [->|Hx].
      - rewrite lookup_alter_eq in Hc. apply fmap_Some in Hc as (c' & Hc' & ->).
        exists c'. split; [done|]. split; [by apply (Ho c') | by apply HQ].
      - rewrite lookup_alter_ne in Hc by done. eauto. }
    destruct (Hback i a) as (a' & ? & ? & ?); [done..|]. destruct (Hback j b) as (b' & ? & ? & ?); [done..|].
    by eapply Ht. }
  split.
  - apply Hone; [|done]. intros k d a. unfold of_rule. by destruct (Hf a) as (-> & _ & ->).
  - apply Hone; [|done]. intros k d a. unfold of_config_rule. by destruct (Hf a) as (_ & -> & ->).
  - intros i Hi. apply H3. destruct (decide (i = id)) as [->|]; [|by rewrite lookup_alter_ne in Hi].
    rewrite lookup_alter_eq in Hi. by apply fmap_is_Some in Hi.
Qed.

Lemma orderly_update P id f :
  (∀ t n, P t n → alerts_ok t n) → keeps_key f →
  (∀ t n a, P t n → t !! id = Some a → is_open (f a) → is_open a) →
  orderly P (update_alert id f : SM unit).
Proof.
  intros HP Hf Ho w Hw. unfold update_alert, write. destruct (w_aborted w); [by apply HP|]. simpl.
  apply alerts_ok_alter; [by apply HP | done | intros a; by apply (Ho _ _ a Hw)].
Qed.

Lemma keeps_key_resolved now n b : keeps_key (resolved now n b).
Proof. done. Qed.
Lemma resolved_closed now n b a : ¬ is_open (resolved now n b a).
Proof. intros Ho. unfold is_open in Ho. simpl in Ho. set_solver. Qed.

(** Loops that catch the errors of their steps. *)
Lemma orderly_count {A} (f : A → SM bool) l n : (∀ x, orderly_job (f x)) → orderly_job (count_each f l n).
Proof.
  intros Hf. revert n. induction l as [|x l IH]; intros n; [apply orderly_ret|]. simpl.
  apply orderly_seq; [apply orderly_try; [done | apply orderly_ret]|]. intros b. apply IH.
Qed.
Lemma orderly_collect {A} (f : A → SM (option nat)) l c : (∀ x, orderly_job (f x)) → orderly_job (collect_each f l c).
Proof.
  intros Hf. revert c. induction l as [|x l IH]; intros c; [apply orderly_ret|]. simpl.
  apply orderly_seq; [apply orderly_try; [done | apply orderly_ret]|]. intros r. apply IH.
Qed.
Lemma orderly_sum {A} (f : A → SM nat) l n : (∀ x, orderly_job (f x)) → orderly_job (sum_each f l n).
Proof.
  intros Hf. revert n. induction l as [|x l IH]; intros n; [apply orderly_ret|]. simpl.
  apply orderly_seq; [apply orderly_try; [done | apply orderly_ret]|]. intros b. apply IH.
Qed.

(** A job that is rolled back leaves the table as it was. *)
Lemma orderly_run_job {A} (m : SM A) : orderly_job m → orderly_job (run_job m).
Proof.
  intros Hm w Hw. unfold run_job. specialize (Hm (with_aborted w false) Hw).
  destruct (m (with_aborted w false)) as [[a|e] w']; simpl in *; [|done]. by destruct (negb (w_aborted w')).
Qed.
End logic.

Create HintDb alerts discriminated.
#[export] Hint Resolve inert_ret inert_bind inert_try inert_query inert_cooldowns inert_evaluating inert_publish
  inert_enqueue inert_site inert_throw : alerts.

(** Walk a handler: reads and Redis leave the table alone, branches are taken one by one. *)
Ltac inert_walk :=
  repeat match goal with
  | |- inert (match ?x with _ => _ end) => destruct x
  | |- inert (_ ≫= _) => apply inert_bind; [|intros ?]
  | |- inert (try_catch _ _) => apply inert_try
  | |- inert _ => solve [auto with alerts]
  end.
Ltac orderly_walk :=
  repeat match goal with
  | |- orderly _ (mret _) => apply orderly_inert; [tauto | apply inert_ret]
  | |- orderly _ (match ?x with _ => _ end) => destruct x
  | |- orderly _ (_ ≫= _) => apply orderly_bind; [tauto | solve [inert_walk] | intros ?]
  | |- orderly _ _ => apply orderly_inert; [tauto | solve [inert_walk]]
  end.

Section operations.
Context {R : Type} `{RedisKeys R} `{SqlParams}.
Context (up bus : bool) (now : Z).

Lemma orderly_createAlert p : orderly alerts_ok (createAlert (R := R) up bus now p).
Proof.
  unfold createAlert. apply orderly_bind; [tauto | auto with alerts |]. intros [rule|]; [|by orderly_walk].
  do 2 (apply orderly_bind; [tauto | auto with alerts | intros ?]). destruct a0; [by orderly_walk|].
  apply orderly_open; [by orderly_walk|]. apply orderly_bind; [tauto | auto with alerts |].
  intros []; [by orderly_walk|]. apply orderly_bind; [tauto | auto with alerts | intros _].
  apply orderly_insert; [|by intros id; orderly_walk].
  intros b [(k & d & [Hk <-] & Hb)|(k & d & [Hk _] & _)]; simplify_eq/=; done.
Qed.

Lemma orderly_resolveAlert id note by_ : orderly alerts_ok (resolveAlert (R := R) up bus now id note by_).
Proof.
  unfold resolveAlert. apply orderly_bind; [tauto | auto with alerts |]. intros [a|]; [|by orderly_walk].
  apply orderly_seq; [|by intros _; orderly_walk].
  apply orderly_update; [tauto | apply keeps_key_resolved |]. by intros t n b _ _ ?%resolved_closed.
Qed.
Lemma orderly_auto_resolve id d ac tc : orderly alerts_ok (auto_resolve (R := R) up bus now id d ac tc).
Proof.
  unfold auto_resolve, evaluate_auto_resolve, evaluate_conditions. destruct (json_truthy ac).
  - apply orderly_bind; [tauto | auto with alerts |]. intros [[] reason]; [|by orderly_walk].
    apply orderly_seq; [apply orderly_resolveAlert | by intros; orderly_walk].
  - apply orderly_bind; [tauto | auto with alerts |]. intros r. destruct (triggered r); [by orderly_walk|].
    apply orderly_seq; [apply orderly_resolveAlert | by intros; orderly_walk].
Qed.

Lemma orderly_checkAutoResolve id : orderly alerts_ok (checkAutoResolve (R := R) up bus now id).
Proof.
  unfold checkAutoResolve. orderly_walk; apply orderly_auto_resolve.
Qed.

Lemma orderly_check_config rules e : orderly alerts_ok (check_config_alert (R := R) up bus now rules e).
Proof.
  unfold check_config_alert. destruct (head _) as [rule|]; [|by orderly_walk].
  destruct (negb _); [by orderly_walk|]. apply orderly_seq; [apply orderly_auto_resolve | by intros []; orderly_walk].
Qed.

Lemma orderly_processAutoResolve org : orderly alerts_ok (processAutoResolve (R := R) up bus now org).
Proof.
  unfold processAutoResolve. apply orderly_seq.
  - unfold checkAllAutoResolve. apply orderly_bind; [tauto | auto with alerts |]. intros l.
    apply orderly_count. apply orderly_checkAutoResolve.
  - intros n. apply orderly_seq; [|by intros; orderly_walk]. apply orderly_try; [|by orderly_walk].
    apply orderly_bind; [tauto | auto with alerts |]. intros ds. apply orderly_sum. intros d.
    unfold checkAutoResolveFromConfigPolicy. apply orderly_bind; [tauto | auto with alerts |].
    intros [|e l]; [by orderly_walk|]. apply orderly_bind; [tauto | auto with alerts |]. intros rules.
    apply orderly_count. apply orderly_check_config.
Qed.

Lemma orderly_evaluate_config_rule d id rule :
  orderly alerts_ok (evaluate_config_rule (R := R) up bus now d id rule).
Proof.
  unfold evaluate_config_rule, evaluate_conditions. apply orderly_bind; [tauto | auto with alerts |].
  intros []; [by orderly_walk|]. apply orderly_open; [by orderly_walk|].
  apply orderly_bind; [tauto | auto with alerts |]. intros r. destruct (negb _); [by orderly_walk|].
  apply orderly_bind; [tauto | auto with alerts |].
  intros []; [by orderly_walk|]. apply orderly_bind; [tauto | auto with alerts | intros _].
  apply orderly_insert; [|by intros; orderly_walk].
  intros b [(k & e & [Hk _] & _)|(k & e & [Hk <-] & Hb)]; simplify_eq/=; done.
Qed.

Lemma orderly_processEvaluateDevice wall parse id :
  orderly alerts_ok (processEvaluateDevice (R := R) up bus now wall parse id).
Proof.
  unfold processEvaluateDevice. apply orderly_seq.
  - unfold evaluateDeviceAlerts. apply orderly_bind; [tauto | unfold getApplicableRules; by inert_walk |].
    intros [|r l]; [by orderly_walk|]. apply orderly_bind; [tauto | auto with alerts |].
    intros [d|]; [|by orderly_walk]. apply orderly_collect. intros rt. unfold evaluate_rule, evaluate_conditions.
    apply orderly_bind; [tauto | auto with alerts |]. intros res. destruct (triggered res); [|by orderly_walk].
    apply orderly_createAlert.
  - intros ids. apply orderly_seq; [|by intros; orderly_walk]. unfold evaluateDeviceAlertsFromPolicy.
    apply orderly_bind; [tauto | auto with alerts |]. intros []; [by orderly_walk|].
    apply orderly_bind; [tauto | unfold getApplicableRulesFromPolicy; auto with alerts |].
    intros [|r l]; [by orderly_walk|]. apply orderly_bind; [tauto | auto with alerts |].
    intros [d|]; [|by orderly_walk]. apply orderly_collect. apply orderly_evaluate_config_rule.
Qed.

(** Actions on a row that was read. *)
Lemma load_visible_row (visible : alertRow → bool) id (w : World R) a :
  match w_alerts w !! id with Some a => if visible a then Some a else None | None => None end = Some a →
  w_alerts w !! id = Some a.
Proof. destruct (w_alerts w !! id) as [b|]; [|done]. by destruct (visible b). Qed.

Lemma open_of_active a : al_status a = alert_active → is_open a.
Proof. unfold is_open. intros ->. by left. Qed.
Lemma open_unless_resolved a : al_status a ≠ alert_resolved → is_open a.
Proof. unfold is_open. destruct (al_status a); set_solver. Qed.

Lemma orderly_acknowledge visible id user : orderly alerts_ok (acknowledgeAlert (R := R) bus now visible id user).
Proof.
  unfold acknowledgeAlert, load_visible. apply (orderly_lookup id); [apply (load_visible_row visible) | by orderly_walk |].
  intros a. case_bool_decide as Ha; simpl; [|by orderly_walk].
  apply orderly_seq; [|by intros; orderly_walk]. apply orderly_update; [tauto | done |].
  intros t n b [_ Hr] Hb _. simplify_eq. by apply open_of_active.
Qed.

Lemma orderly_resolve_route visible id user note :
  orderly alerts_ok (resolveAlertRoute (R := R) up bus now visible id user note).
Proof.
  unfold resolveAlertRoute, load_visible. apply orderly_bind; [tauto | auto with alerts |].
  intros [a|]; [|by orderly_walk]. case_bool_decide; [by orderly_walk|].
  apply orderly_seq; [|by intros; orderly_walk]. apply orderly_update; [tauto | done |].
  by intros t n b _ _ ?%resolved_closed.
Qed.

Lemma orderly_suppress visible id until : orderly alerts_ok (suppressAlert (R := R) now visible id until).
Proof.
  unfold suppressAlert, load_visible. apply (orderly_lookup id); [apply (load_visible_row visible) | by orderly_walk |].
  intros a. case_bool_decide as Ha; [by orderly_walk|]. destruct until as [t|]; [|by orderly_walk].
  destruct (t <=? now); [by orderly_walk|].
  apply orderly_seq; [|by intros; orderly_walk]. apply orderly_update; [tauto | done |].
  intros t' n b [_ Hr] Hb _. simplify_eq. by apply open_unless_resolved.
Qed.

Lemma orderly_ai_resolve visible id user note : orderly alerts_ok (ai_resolve (R := R) bus now visible id user note).
Proof.
  unfold ai_resolve, load_visible. apply orderly_bind; [tauto | auto with alerts |].
  intros [a|]; [|by orderly_walk].
  apply orderly_seq; [|by intros; orderly_walk]. apply orderly_update; [tauto | done |].
  by intros t n b _ _ ?%resolved_closed.
Qed.
End operations.

(** ** Histories *)

Record moment := {
  mo_up : bool; mo_bus : bool; mo_now : Z; mo_wall : string → Z → option Z; mo_parse : string → option Z;
  mo_visible : alertRow → bool }.

Inductive alert_op :=
| OpEvaluateDevice (deviceId : string)
| OpAutoResolve (orgId : option string)
| OpCreate (p : CreateAlertParams)
| OpResolve (alertId : nat) (note : option text) (resolvedBy : option string)
| OpAcknowledgeRoute (alertId : nat) (user : string)
| OpResolveRoute (alertId : nat) (user : string) (note : option text)
| OpSuppressRoute (alertId : nat) (until : option Z)
| OpAssistantResolve (alertId : nat) (user : string) (note : option text).

Section history.
Context {R : Type} `{RedisKeys R} `{SqlParams}.

(** [;; mret tt] drops the answer. *)
Definition run_alert_op (m : moment) (op : alert_op) : AM (World R) EvalError unit :=
  match op with
  | OpEvaluateDevice d =>
      processEvaluateDevice (mo_up m) (mo_bus m) (mo_now m) (mo_wall m) (mo_parse m) d ;; mret tt
  | OpAutoResolve o => processAutoResolve (mo_up m) (mo_bus m) (mo_now m) o ;; mret tt
  | OpCreate p => createAlert (mo_up m) (mo_bus m) (mo_now m) p ;; mret tt
  | OpResolve i n b => resolveAlert (mo_up m) (mo_bus m) (mo_now m) i n b
  | OpAcknowledgeRoute i u => acknowledgeAlert (mo_bus m) (mo_now m) (mo_visible m) i u ;; mret tt
  | OpResolveRoute i u n => resolveAlertRoute (mo_up m) (mo_bus m) (mo_now m) (mo_visible m) i u n ;; mret tt
  | OpSuppressRoute i t => suppressAlert (mo_now m) (mo_visible m) i t ;; mret tt
  | OpAssistantResolve i u n => ai_resolve (mo_bus m) (mo_now m) (mo_visible m) i u n ;; mret tt
  end.

(** Requests and jobs run one after the other, committed or rolled back; in between anything
    but the table of alerts may change. *)
Inductive alert_step : World R → World R → Prop :=
| step_job m op w : alert_step w (run_job (run_alert_op m op) w).2
| step_request m op w : alert_step w (run_alert_op m op w).2
| step_elsewhere w w' : w_alerts w' = w_alerts w → w_next w' = w_next w → alert_step w w'.

Lemma orderly_run_alert_op m op : orderly alerts_ok (run_alert_op m op).
Proof.
  assert (∀ A (x : AM (World R) EvalError A), orderly alerts_ok x → orderly alerts_ok (x ;; mret tt)) as Hseq.
  { intros A x Hx. apply orderly_seq; [done|]. intros _. apply orderly_ret. }
  destruct op; simpl.
  - apply Hseq, orderly_processEvaluateDevice.
  - apply Hseq, orderly_processAutoResolve.
  - apply Hseq, orderly_createAlert.
  - apply orderly_resolveAlert.
  - apply Hseq, orderly_acknowledge.
  - apply Hseq, orderly_resolve_route.
  - apply Hseq, orderly_suppress.
  - apply Hseq, orderly_ai_resolve.
Qed.

Lemma alerts_ok_history w w' : rtc alert_step w w' →
  alerts_ok (w_alerts w) (w_next w) → alerts_ok (w_alerts w') (w_next w').
Proof.
  induction 1 as [|w1 w2 w3 Hs _ IH]; [done|]. intros Hok. apply IH. destruct Hs as [m op w|m op w|w w' -> ->].
  - by apply orderly_run_job; [apply orderly_run_alert_op|].
  - by apply orderly_run_alert_op.
  - done.
Qed.


(** The assistant has no guard: acknowledging a resolved alert opens it again, beside the
    one that was created since. *)
Lemma assistant_reopens_alert bus now visible id user (w : World R) a :
  w_aborted w = false → w_alerts w !! id = Some a → visible a = true → al_status a = alert_resolved →
  ∃ a', w_alerts (ai_acknowledge bus now visible id user w).2 !! id = Some a' ∧
    al_status a' = alert_acknowledged ∧ al_ruleId a' = al_ruleId a ∧ al_deviceId a' = al_deviceId a.
Proof.
  intros Hw Ha Hv _. exists (acknowledged now user a). split; [|done].
  unfold ai_acknowledge, load_visible, query, mbind, AM_bind. rewrite Hw, Ha, Hv.
  unfold update_alert, write. rewrite Hw. unfold try_catch, publish. destruct bus; simpl;
    by rewrite lookup_alter_eq, Ha.
Qed.
End history.

(** ** Creating an alert *)

Section creation.
Context {R : Type} `{RedisKeysLaws R} `{SqlParams}.
Context (bus : bool) (now : Z) (p : CreateAlertParams).
Abbreviation ruleId := (p_ruleId p).
Abbreviation deviceId := (p_deviceId p).

(** Nothing stands in the way of an alert: the rule is there and rests neither for a
    cooldown nor for flapping, and has no open alert on the device. *)
Record may_create (w : World R) (rule : ruleRow) : Prop := {
  mc_running : w_aborted w = false;
  mc_rule : find_rule ruleId w = Some rule;
  mc_severity : one_of SEVERITIES (Some (p_severity p)) = true;
  mc_cooldown : (isCooldownActive (E := EvalError) true now ruleId deviceId (w_cooldowns w)).1 = Ok false;
  mc_open : open_alert (of_rule ruleId deviceId) w = false;
  mc_flapping : (isFlapping (E := EvalError) true now ruleId deviceId 10 4 (w_cooldowns w)).1 = Ok false;
  mc_list : no_string (cd_redis (w_cooldowns w)) (flap_key ruleId deviceId) }.

(** With Redis up, reading it changes nothing. *)
Lemma isCooldownActive_reads t r d (c : Cooldowns R) :
  (isCooldownActive (E := EvalError) true t r d c).2 = c.
Proof. done. Qed.
Lemma isCooldownActive_up t r d (c : Cooldowns R) :
  (isCooldownActive (E := EvalError) true t r d c).1 =
  Ok (bool_decide (is_Some (r_get t (cd_redis c) (buildCooldownKey r d)))).
Proof. done. Qed.
Lemma isFlapping_reads t r d (c : Cooldowns R) : (isFlapping (E := EvalError) true t r d 10 4 c).2 = c.
Proof. cbv [isFlapping mbind AM_bind get_redis mret AM_ret negb]. by destruct (Z.of_nat (length _) <? 4). Qed.

Lemma cooldowns_reads {A} (m : AM (Cooldowns R) EvalError A) (w : World R) a :
  (m (w_cooldowns w)).1 = Ok a → (m (w_cooldowns w)).2 = w_cooldowns w → cooldowns m w = (Ok a, w).
Proof.
  unfold cooldowns. destruct (m (w_cooldowns w)) as [r c]. simpl. intros -> ->. by destruct w.
Qed.

(** The world after the row was inserted. *)
Definition inserted (w : World R) (c : Cooldowns R) : World R :=
  with_alerts (with_cooldowns w c) (<[w_next w := new_alert now p]> (w_alerts w)) (S (w_next w)).

(** What remains to do then. *)
Definition announce (minutes : json) (id : nat) : AM (World R) EvalError (option nat) :=
  cooldowns (setCooldown true now ruleId deviceId minutes) ;;
  enqueueAlertCorrelationForDevice (p_orgId p) deviceId ;;
  siteId ← resolveDeviceSiteId now deviceId;
  publish bus (AlertTriggered (p_orgId p) id (Some ruleId) None deviceId siteId) ;;
  mret (Some id).

Lemma createAlert_inserts w rule : may_create w rule →
  ∃ c, createAlert true bus now p w =
         announce (rule_cooldown rule (find_template (ru_templateId rule) w) 5) (w_next w) (inserted w c) ∧
    ∀ t k, k ≠ flap_key ruleId deviceId → r_get t (cd_redis c) k = r_get t (cd_redis (w_cooldowns w)) k.
Proof.
  intros [Hw Hr Hs Hc Ho Hf Hl].
  destruct (recordStateTransition_runs (E := EvalError) now ruleId deviceId triggered_state (w_cooldowns w) Hl)
    as (c & Hrec & _ & Hother & _).
  exists c. split; [|done]. unfold createAlert. unfold mbind at 1, AM_bind at 1, query at 1. rewrite Hw, Hr.
  unfold mbind at 1, AM_bind at 1, query at 1. rewrite Hw.
  unfold mbind at 1, AM_bind at 1. rewrite (cooldowns_reads _ w false Hc) by done.
  unfold mbind at 1, AM_bind at 1, query at 1. rewrite Hw, Ho.
  unfold mbind at 1, AM_bind at 1. rewrite (cooldowns_reads _ w false Hf) by apply isFlapping_reads.
  unfold mbind at 1, AM_bind at 1. unfold cooldowns at 1. rewrite Hrec.
  unfold mbind at 1, AM_bind at 1. unfold insert_alert. cbn [w_aborted with_cooldowns]. rewrite Hw.
  assert (one_of SEVERITIES (Some (al_severity (new_alert now p))) = true) as -> by done. done.
Qed.

Lemma resolveDeviceSiteId_outbox (w : World R) :
  ∃ s w', resolveDeviceSiteId now deviceId w = (Ok s, w') ∧ w_events w' = w_events w ∧
    w_correlation w' = w_correlation w ∧ w_alerts w' = w_alerts w ∧ w_cooldowns w' = w_cooldowns w ∧
    w_aborted w' = w_aborted w ∧ w_rules w' = w_rules w.
Proof.
  unfold resolveDeviceSiteId. case_bool_decide; [by eexists _, _|].
  unfold mbind at 1, AM_bind at 1, getCached. destruct (head _) as [[? [? ?]]|].
  - destruct (_ <=? _); [|by eexists _, _]. unfold try_catch, query, mbind, AM_bind. simpl.
    destruct (w_aborted w) eqn:E; [by eexists _, _|]. simpl. eexists _, _. split; [done|]. simpl. by rewrite E.
  - unfold try_catch, query, mbind, AM_bind. destruct (w_aborted w) eqn:E; [by eexists _, _|]. simpl.
    eexists _, _. split; [done|]. simpl. by rewrite E.
Qed.
Lemma flap_key_adaptive r d r' d' : adaptive_key r d ≠ flap_key r' d'.
Proof. intros [=]. Qed.

(** While an alert is open, no second one is created for its rule and device. *)
Lemma createAlert_refuses b t w i a rule :
  w_aborted w = false → find_rule ruleId w = Some rule →
  w_alerts w !! i = Some a → is_open a → of_rule ruleId deviceId a →
  createAlert true b t p w = (Ok None, w).
Proof.
  intros Hw Hr Hi Ha Hk. unfold createAlert.
  unfold mbind at 1, AM_bind at 1, query at 1. rewrite Hw, Hr.
  unfold mbind at 1, AM_bind at 1, query at 1. rewrite Hw.
  unfold mbind at 1, AM_bind at 1.
  destruct (isCooldownActive (E := EvalError) true t ruleId deviceId (w_cooldowns w)).1 as [x|e] eqn:Ec; [|done].
  rewrite (cooldowns_reads _ w x Ec) by done. destruct x; [done|].
  unfold mbind at 1, AM_bind at 1, query at 1. rewrite Hw.
  assert (open_alert (of_rule ruleId deviceId) w = true) as ->; [|done].
  unfold open_alert. apply existsb_exists. exists (i, a). split; [|by rewrite bool_decide_true].
  apply list_elem_of_In. by apply elem_of_map_to_list.
Qed.

(** (creating an alert): when nothing stands in its way and the cooldown is at least a
    minute, the service inserts one active alert, announces it on the event bus, queues its
    correlation and makes the rule rest for its cooldown; until the alert is resolved,
    calling it again creates and announces nothing. *)
Theorem createAlert_announces w rule n previous :
  may_create w rule → bus = true → 1 <= n <= 10080 → 0 <= now <= 2 ^ 52 →
  rule_cooldown rule (find_template (ru_templateId rule) w) 5 = JNum (inject_Z n) →
  had_cooldown now (w_cooldowns w) ruleId deviceId previous →
  ∃ w' siteId, createAlert true bus now p w = (Ok (Some (w_next w)), w') ∧
    w_alerts w' = <[w_next w := new_alert now p]> (w_alerts w) ∧
    w_events w' = w_events w ++ [AlertTriggered (p_orgId p) (w_next w) (Some ruleId) None deviceId siteId] ∧
    w_correlation w' = w_correlation w ++ [(p_orgId p, deviceId)] ∧
    (∀ t, now <= t → (isCooldownActive (E := EvalError) true t ruleId deviceId (w_cooldowns w')).1 =
       Ok (t <? now + n * multiplier_after now previous * 60000)) ∧
    (∀ t, createAlert true bus t p w' = (Ok None, w')).
Proof.
  intros Hmay Hbus Hn Hnow Hcool [Hprev Hok]. destruct (createAlert_inserts w rule Hmay) as (c & -> & Hother).
  destruct (setCooldown_keys (E := EvalError) c now ruleId deviceId n previous Hn Hnow)
    as (c' & Hset & G & _ & _); [by split; [rewrite Hother by apply flap_key_adaptive|]|].
  unfold announce. rewrite Hcool. unfold mbind at 1, AM_bind at 1. unfold cooldowns at 1.
  cbn [inserted with_alerts with_cooldowns w_cooldowns]. rewrite Hset.
  unfold mbind at 1, AM_bind at 1, enqueueAlertCorrelationForDevice at 1. unfold mbind at 1, AM_bind at 1.
  match goal with |- context [resolveDeviceSiteId now deviceId ?x] =>
    destruct (resolveDeviceSiteId_outbox x) as (s & w1 & -> & He & Hq & Ha & Hcd & Hab & Hru) end.
  cbn in He, Hq, Ha, Hcd, Hab, Hru. eexists _, s. unfold publish, mbind, AM_bind, mret, AM_ret. rewrite Hbus.
  split; [done|]. cbn [w_alerts w_events w_correlation w_cooldowns with_outbox]. rewrite He, Hq, Ha, Hcd. split; [done|]. split; [done|]. split; [done|]. split.
  - intros t Ht. rewrite isCooldownActive_up, G by done. by destruct (t <? _).
  - intros t. apply (createAlert_refuses _ t _ (w_next w) (new_alert now p) rule); cbn.
    + by rewrite Hab, (mc_running _ _ Hmay).
    + unfold find_rule. cbn. rewrite Hru. apply (mc_rule _ _ Hmay).
    + by rewrite Ha, lookup_insert_eq.
    + by left.
    + done.
Qed.

(** (a cooldown of zero minutes): the template routes accept it, and Redis refuses the
    key of a cooldown that lasts zero seconds.  The alert is inserted, the call throws, and
    the alert is never announced: neither by this call nor by any later one. *)
Theorem zero_cooldown_unannounced w rule :
  may_create w rule →
  rule_cooldown rule (find_template (ru_templateId rule) w) 5 = JNum 0 →
  had_cooldown now (w_cooldowns w) ruleId deviceId None →
  ∃ w', createAlert true bus now p w = (Throw RedisError, w') ∧
    w_alerts w' = <[w_next w := new_alert now p]> (w_alerts w) ∧ w_aborted w' = false ∧
    w_events w' = w_events w ∧ w_correlation w' = w_correlation w ∧
    (∀ t, createAlert true bus t p w' = (Ok None, w')).
Proof.
  intros Hmay Hcool [Hprev _]. destruct (createAlert_inserts w rule Hmay) as (c & -> & Hother).
  exists (inserted w c).
  assert (announce (rule_cooldown rule (find_template (ru_templateId rule) w) 5) (w_next w) (inserted w c) =
    (Throw RedisError, inserted w c)) as ->.
  { rewrite Hcool. unfold announce. unfold mbind at 1, AM_bind at 1. unfold cooldowns at 1. cbn [inserted with_alerts
      with_cooldowns w_cooldowns]. rewrite setCooldown_up, Hother, Hprev by apply flap_key_adaptive. cbv zeta.
    change (nmul (nmul (to_number (JNum 0)) _) (nint 60)) with (Some 0%Q).
    unfold mbind, AM_bind, command. by rewrite setex_invalid. }
  split; [done|]. split; [done|]. split; [apply (mc_running _ _ Hmay)|]. split; [done|]. split; [done|].
  intros t. apply (createAlert_refuses _ t _ (w_next w) (new_alert now p) rule); cbn.
  - apply (mc_running _ _ Hmay).
  - apply (mc_rule _ _ Hmay).
  - by rewrite lookup_insert_eq.
  - by left.
  - done.
Qed.
End creation.

(** ** A refused statement *)

(** (a refused statement): the errors of a rule are caught one by one, but the rules of a
    device share a transaction.  When the database refuses a statement while the rules of a
    device are evaluated, the job fails and none of the alerts it had created is kept, while
    their announcements and cooldowns stay. *)
Theorem refused_statement_loses_alerts {R} `{RedisKeys R} `{SqlParams} up bus now wall parse deviceId (w : World R) :
  let w1 := (evaluateDeviceAlerts up bus now deviceId (with_aborted w false)).2 in
  w_aborted w1 = true →
  ∃ e w', run_job (processEvaluateDevice up bus now wall parse deviceId) w = (Throw e, w') ∧
    w_alerts w' = w_alerts w ∧ w_events w' = w_events w1 ∧ w_correlation w' = w_correlation w1 ∧
    w_cooldowns w' = w_cooldowns w1.
Proof.
  intros w1 Hab. unfold run_job, processEvaluateDevice. unfold mbind at 1, AM_bind at 1. subst w1.
  destruct (evaluateDeviceAlerts up bus now deviceId (with_aborted w false)) as [[ids|e] w1]; simpl in Hab.
  - unfold evaluateDeviceAlertsFromPolicy, mbind, AM_bind, query. rewrite Hab. by eexists _, _.
  - by eexists _, _.
Qed.

(** ** Which devices a run queues *)

Lemma filter_StronglySorted {A} (R : relation A) (P : A → Prop) `{!∀ x, Decision (P x)} l :
  StronglySorted R l → StronglySorted R (filter P l).
Proof.
  induction 1 as [|x l Hl IH Hx]; [constructor|]. rewrite filter_cons. case_decide; [|done].
  constructor; [done|]. rewrite Forall_forall in *. intros y [_ Hy]%list_elem_of_filter. by apply Hx.
Qed.

Section pages.
Context (rows : list deviceRow) (orgIds : list string) (now : Z) (cap chunkSize : nat).
Context (Hids : NoDup (dev_id <$> rows)).

Abbreviation by_id := (λ a b : deviceRow, str_cmp (dev_id a) (dev_id b)).
Definition candidates : list deviceRow := sort_by by_id (filter (eligible orgIds now) rows).

#[local] Instance by_id_preorder : PreorderCmp by_id.
Proof. split; [intros a b; rewrite (str_cmp_flip (dev_id b)); lia | intros a b c; apply str_cmp_trans]. Qed.

Lemma same_id a b : a ∈ rows → b ∈ rows → dev_id a = dev_id b → a = b.
Proof using Hids.
  intros Ha Hb Hab. induction rows as [|x l IH]; [by apply not_elem_of_nil in Ha|].
  simpl in Hids. apply NoDup_cons in Hids as [Hx Hl].
  apply elem_of_cons in Ha as [->|Ha], Hb as [->|Hb]; [done| | |by apply IH].
  - destruct Hx. rewrite Hab. by apply list_elem_of_fmap_2.
  - destruct Hx. rewrite <- Hab. by apply list_elem_of_fmap_2.
Qed.

(** Restricting before sorting is restricting after. *)
Lemma chunk_filter cursor n :
  chunk_after rows orgIds now cursor n = take n (filter (λ d, after_cursor cursor (dev_id d) = true) candidates).
Proof using Hids.
  unfold chunk_after, candidates. f_equal. apply (StronglySorted_unique_strong (λ a b, by_id a b <= 0)).
  - intros a b Ha Hb Hab Hba. rewrite elem_of_sort_by, list_elem_of_filter in Ha. apply same_id; [tauto| |].
    + apply list_elem_of_filter in Hb as [_ Hb]. rewrite elem_of_sort_by, list_elem_of_filter in Hb. tauto.
    + apply str_cmp_zero. rewrite str_cmp_flip in Hba. lia.
  - apply sort_by_sorted. apply _.
  - apply filter_StronglySorted, sort_by_sorted. apply _.
  - rewrite !sort_by_perm. rewrite list_filter_filter.
    erewrite filter_ext_in; [done|]. intros d _. simpl. tauto.
Qed.

(** The cursor after [k] devices were queued. *)
Definition cursor_at (k : nat) : option string :=
  match k with O => None | S k' => dev_id <$> candidates !! k' end.

Lemma candidates_increasing i j a b :
  candidates !! i = Some a → candidates !! j = Some b → (i < j)%nat → str_lt (dev_id a) (dev_id b) = true.
Proof using Hids.
  intros Hi Hj Hij. assert (NoDup candidates) as Hnd.
  { unfold candidates. rewrite sort_by_perm. apply NoDup_filter. by eapply NoDup_fmap_1. }
  pose proof (sort_by_sorted by_id (filter (eligible orgIds now) rows)) as Hs. fold candidates in Hs.
  assert (by_id a b <= 0) as Hle.
  { rewrite <- (take_drop_middle candidates i a Hi) in Hs. apply StronglySorted_app_1_r in Hs.
    apply StronglySorted_inv in Hs as [_ Hall]. rewrite Forall_forall in Hall. apply Hall.
    apply list_elem_of_lookup. exists (j - S i)%nat. rewrite lookup_drop. by replace (S i + (j - S i))%nat with j by lia. }
  unfold str_lt. apply Z.ltb_lt. destruct (decide (by_id a b = 0)) as [E|]; [|simpl in *; lia].
  apply str_cmp_zero in E. assert (a = b) as ->.
  { apply list_elem_of_lookup_2 in Hi, Hj. unfold candidates in Hi, Hj.
    rewrite elem_of_sort_by, list_elem_of_filter in Hi, Hj. by apply same_id; [apply Hi | apply Hj |]. }
  pose proof (NoDup_lookup _ _ _ _ Hnd Hi Hj). lia.
Qed.

Lemma filter_split {A} (P : A → Prop) `{!∀ x, Decision (P x)} l l' :
  (∀ x, x ∈ l → ¬ P x) → (∀ x, x ∈ l' → P x) → filter P (l ++ l') = l'.
Proof.
  intros Hl Hl'. rewrite filter_app. assert (filter P l = []) as ->.
  { induction l as [|x l IH]; [done|]. rewrite filter_cons_False by (apply Hl; left).
    apply IH. intros y Hy. apply Hl. by right. }
  simpl. clear Hl. induction l' as [|x l' IH]; [done|]. rewrite filter_cons_True by (apply Hl'; left).
  f_equal. apply IH. intros y Hy. apply Hl'. by right.
Qed.

Lemma chunk_drop k n : (k <= length candidates)%nat →
  chunk_after rows orgIds now (cursor_at k) n = take n (drop k candidates).
Proof using Hids.
  intros Hk. rewrite chunk_filter. f_equal. rewrite <- (take_drop k candidates) at 1. apply filter_split.
  - intros d [i Hi]%list_elem_of_lookup. apply lookup_take_Some in Hi as [Hi Hik].
    destruct k as [|k]; [lia|]. destruct (lookup_lt_is_Some_2 candidates k ltac:(lia)) as [x Hx].
    unfold cursor_at. rewrite Hx. simpl. unfold str_lt. rewrite not_true_iff_false. apply Z.ltb_ge.
    destruct (decide (i = k)) as [->|]; [simplify_eq; by rewrite str_cmp_refl|].
    pose proof (candidates_increasing i k d x Hi Hx ltac:(lia)) as Hlt. unfold str_lt in Hlt.
    apply Z.ltb_lt in Hlt. rewrite str_cmp_flip. lia.
  - intros d [i Hi]%list_elem_of_lookup. rewrite lookup_drop in Hi. destruct k as [|k]; [done|].
    destruct (lookup_lt_is_Some_2 candidates k ltac:(lia)) as [x Hx].
    unfold cursor_at. rewrite Hx. simpl. apply (candidates_increasing k (S k + i) x d Hx Hi). lia.
Qed.

(** The devices a run may queue. *)
Definition within_cap : list deviceRow := if (0 <? cap)%nat then take cap candidates else candidates.

Lemma queue_pages_spec fuel total : (1 <= chunkSize)%nat →
  (total <= length within_cap)%nat → (length candidates - total < fuel)%nat →
  queue_pages rows orgIds now cap chunkSize fuel total (cursor_at total) =
  (λ d, (dev_id d, dev_orgId d)) <$> drop total within_cap.
Proof using Hids.
  intros Hchunk. revert total. induction fuel as [|fuel IH]; intros total Ht Hf; [lia|]. cbn [queue_pages].
  set (remaining := if (0 <? cap)%nat then (cap - total)%nat else chunkSize).
  assert (length within_cap <= length candidates)%nat as Hlen.
  { unfold within_cap. case_match; [rewrite length_take; lia | lia]. }
  destruct ((0 <? cap) && (remaining =? 0))%nat eqn:Estop.
  { unfold remaining, within_cap in *. apply andb_true_iff in Estop as [E1 E2]. rewrite E1 in *.
    apply Nat.eqb_eq in E2. rewrite drop_ge by (rewrite length_take; lia). done. }
  set (limit := Nat.min chunkSize _).
  assert (1 <= limit ∧ ((0 <? cap) = true → limit <= cap - total))%nat as [Hl1 Hl2].
  { unfold limit, remaining in *. destruct (0 <? cap)%nat; simpl in Estop; [|case_match; lia].
    rewrite Estop. apply Nat.eqb_neq in Estop. lia. }
  clearbody limit. clear Estop remaining.
  assert (take limit (drop total candidates) = take limit (drop total within_cap)) as Hpage.
  { unfold within_cap. destruct (0 <? cap)%nat; [|done]. rewrite !take_drop_commute, take_take.
    by rewrite Nat.min_l by lia. }
  assert (chunk_after rows orgIds now (cursor_at total) limit = take limit (drop total within_cap)) as ->.
  { rewrite chunk_drop by lia. done. }
  set (chunk := take limit (drop total within_cap)). rewrite last_lookup.
  destruct (chunk !! pred (length chunk)) as [d|] eqn:Ed.
  - assert (length chunk = Nat.min limit (length within_cap - total)) as Hc
      by (unfold chunk; by rewrite length_take, length_drop).
    destruct (Nat.ltb_spec (length chunk) limit).
    + rewrite app_nil_r. unfold chunk. by rewrite take_ge by (rewrite length_drop; lia).
    + pose proof (lookup_lt_Some _ _ _ Ed) as Hpos.
      assert (Some (dev_id d) = cursor_at (total + length chunk)) as ->.
      { destruct (total + length chunk)%nat as [|k] eqn:Ek; [lia|]. unfold cursor_at.
        assert (candidates !! k = Some d) as ->; [|done].
        assert (k = total + pred (length chunk))%nat as -> by lia. revert Ed. generalize (pred (length chunk)).
        intros i Ed. unfold chunk in Ed. rewrite <- Hpage in Ed. apply lookup_take_Some in Ed as [Ed _].
        by rewrite lookup_drop in Ed. }
      rewrite IH by lia. rewrite <- fmap_app. f_equal. rewrite <- drop_drop.
      unfold chunk at 1. replace (length chunk) with limit by lia. by rewrite take_drop.
  - assert (chunk = []) as Hnil.
    { apply length_zero_iff_nil. apply lookup_ge_None in Ed. lia. }
    unfold chunk in Hnil. apply (f_equal length) in Hnil. rewrite length_take, length_drop in Hnil.
    simpl in Hnil. rewrite drop_ge by lia. done.
Qed.

(** C24 (the devices of a run): the pages of an evaluation run queue the eligible devices in
    the order of their ids, each once, up to the cap.  A run starts again at the first id, so
    with more eligible devices than the cap the rest is not reached by any run. *)
Theorem processEvaluateAll_queues : (1 <= chunkSize)%nat →
  processEvaluateAll rows orgIds now cap chunkSize =
  (λ d, (dev_id d, dev_orgId d)) <$>
    (if (0 <? cap)%nat then take cap candidates else candidates) ∧
  candidates ≡ₚ filter (eligible orgIds now) rows ∧
  (∀ i j a b, candidates !! i = Some a → candidates !! j = Some b → (i < j)%nat →
     str_lt (dev_id a) (dev_id b) = true).
Proof using Hids.
  intros Hchunk. split; [|split; [apply sort_by_perm | apply candidates_increasing]].
  unfold processEvaluateAll. destruct orgIds as [|o l] eqn:Eo.
  - assert (candidates = []) as Hc; [|rewrite Hc; by destruct (0 <? cap)%nat; rewrite ?take_nil].
    unfold candidates. rewrite Eo. apply sort_by_nil.
    destruct (filter (eligible [] now) rows) as [|d ds] eqn:Ef; [done|].
    assert (d ∈ filter (eligible [] now) rows) as Hd by (rewrite Ef; left).
    apply list_elem_of_filter in Hd as [[Hin _] _]. by apply not_elem_of_nil in Hin.
  - rewrite <- Eo. change (@None string) with (cursor_at 0). rewrite (queue_pages_spec (S (length rows)) 0 Hchunk); [by rewrite drop_0 | lia |].
    assert (length candidates <= length rows)%nat; [|lia].
    unfold candidates. rewrite sort_by_perm. apply length_filter.
Qed.
End pages.

(** ** Examples *)

Module ServiceExample.
Import RedisMap AlertExample.
Open Scope string_scope.

Definition pc : deviceRow :=
  {| dev_id := "pc"; dev_orgId := "org"; dev_siteId := "hq"; dev_hostname := "pc"; dev_displayName := None;
     dev_role := "workstation"; dev_osType := "windows"; dev_osVersion := "11"; dev_status := "offline";
     dev_lastSeenAt := Some 5990000; dev_mtlsCertExpiresAt := None; dev_tags := [] |}.
Definition config : ConfigDb :=
  {| devices := [pc]; organizations := []; partners := []; sites := []; memberships := []; assignments := [];
     policies := []; links := []; alertRules := []; automations := []; complianceRules := [];
     patchSettings := []; backupSettings := []; maintenanceSettings := [] |}.
Definition template (id : string) (conditions : json) (cooldown : Z) : templateRow :=
  {| tp_id := id; tp_conditions := conditions; tp_severity := "high"; tp_titleTemplate := "{{deviceName}} is offline";
     tp_messageTemplate := "{{ruleName}}"; tp_autoResolve := true; tp_autoResolveConditions := None;
     tp_cooldownMinutes := cooldown |}.
Definition rule (id templateId : string) : ruleRow :=
  {| ru_id := id; ru_orgId := "org"; ru_templateId := templateId; ru_name := id; ru_targetType := "all";
     ru_targetId := "org"; ru_overrideSettings := None; ru_isActive := true |}.

(** The second rule asks for a category the event log does not have. *)
Definition world (templates : list templateRow) (rules : list ruleRow) : World store :=
  {| w_db := {| m_config := config; deviceMetrics := []; deviceEventLogs := [];
                serviceProcessCheckResults := []; securityPostureSnapshots := [] |};
     w_templates := templates; w_rules := rules; w_alerts := ∅; w_next := 0; w_aborted := false;
     w_cooldowns := CooldownExample.fresh; w_events := []; w_correlation := []; w_siteCache := [] |}.
Definition offline_template (cooldown : Z) : templateRow :=
  template "t1" (JObj [("type", JStr "offline"); ("durationMinutes", JNum 5)]) cooldown.
Definition events_template : templateRow :=
  template "t2" (JObj [("type", JStr "event_log"); ("category", JStr "network"); ("level", JStr "error");
                       ("countThreshold", JNum 1); ("windowMinutes", JNum 5)]) 5.
Definition clock : moment :=
  {| mo_up := true; mo_bus := true; mo_now := 6000000; mo_wall := λ _ _, None; mo_parse := λ _, None;
     mo_visible := λ _, true |}.
Definition w0 : World store := world [offline_template 5] [rule "r1" "t1"].
Definition evaluated (w : World store) : World store := (run_job (run_alert_op clock (OpEvaluateDevice "pc")) w).2.


Definition params : CreateAlertParams :=
  {| p_ruleId := "r1"; p_deviceId := "pc"; p_orgId := "org"; p_severity := JStr "high"; p_title := [T "pc is offline"];
     p_message := []; p_context := None |}.

Lemma may_create_w0 cooldown : may_create 6000000 params (world [offline_template cooldown] [rule "r1" "t1"]) (rule "r1" "t1").
Proof. split; vm_compute; reflexivity. Qed.

Lemma createAlert_announces_witness :
  ∃ w' siteId, createAlert true true 6000000 params w0 = (Ok (Some 0%nat), w') ∧
    w_events w' = [AlertTriggered "org" 0 (Some "r1") None "pc" siteId] ∧
    createAlert true true 6100000 params w' = (Ok None, w').
Proof.
  destruct (createAlert_announces true 6000000 params w0 (rule "r1" "t1") 5 None)
    as (w' & s & H1 & _ & H2 & _ & _ & H3).
  - apply may_create_w0.
  - reflexivity.
  - lia.
  - lia.
  - vm_compute. reflexivity.
  - split; [vm_compute; reflexivity | discriminate].
  - exists w', s. split; [exact H1|]. split; [exact H2 | apply H3].
Defined.

Lemma zero_cooldown_unannounced_witness :
  ∃ w', createAlert true true 6000000 params (world [offline_template 0] [rule "r1" "t1"]) = (Throw RedisError, w') ∧
    w_events w' = [] ∧ createAlert true true 6100000 params w' = (Ok None, w').
Proof.
  destruct (zero_cooldown_unannounced true 6000000 params (world [offline_template 0] [rule "r1" "t1"]) (rule "r1" "t1"))
    as (w' & H1 & _ & _ & H2 & _ & H3).
  - apply may_create_w0.
  - vm_compute. reflexivity.
  - split; [vm_compute; reflexivity | discriminate].
  - exists w'. split; [exact H1|]. split; [exact H2 | apply H3].
Defined.

(** The alert of the first rule is announced and then lost with the second. *)
Definition w2 : World store := world [offline_template 5; events_template] [rule "r1" "t1"; rule "r2" "t2"].
Lemma refused_statement_loses_alerts_witness :
  ∃ e w', run_job (processEvaluateDevice true true 6000000 (λ _ _, None) (λ _, None) "pc") w2 = (Throw e, w') ∧
    w_alerts w' = ∅ ∧ w_events w' = [AlertTriggered "org" 0 (Some "r1") None "pc" (Some "hq")].
Proof.
  destruct (refused_statement_loses_alerts true true 6000000 (λ _ _, None) (λ _, None) "pc" w2)
    as (e & w' & H1 & H2 & H3 & _).
  - vm_compute. reflexivity.
  - exists e, w'. split; [exact H1|]. split; [exact H2|]. rewrite H3. vm_compute. reflexivity.
Defined.

Definition online (id : string) : deviceRow :=
  {| dev_id := id; dev_orgId := "org"; dev_siteId := "hq"; dev_hostname := id; dev_displayName := None;
     dev_role := "server"; dev_osType := "linux"; dev_osVersion := "6"; dev_status := "online";
     dev_lastSeenAt := Some 5990000; dev_mtlsCertExpiresAt := None; dev_tags := [] |}.

(** With a cap of two, the third device is left out. *)
Lemma processEvaluateAll_queues_witness :
  processEvaluateAll [online "c"; online "a"; pc; online "b"] ["org"] 6000000 2 1 = [("a", "org"); ("b", "org")].
Proof.
  destruct (processEvaluateAll_queues [online "c"; online "a"; pc; online "b"] ["org"] 6000000 2 1) as [-> _].
  - apply (bool_decide_unpack _). vm_compute. exact I.
  - lia.
  - vm_compute. reflexivity.
Defined.
End ServiceExample.
