(* ===== verification/TicketSla.v ===== *)
(** * SLA targets of tickets ([services/ticketSla.ts]). *)

From S2P Require Import Prelude.

Open Scope Z_scope.

Inductive TicketSlaPriority := low | normal | high | urgent.
Inductive SlaTargetKind := response | resolution.
#[export] Instance SlaTargetKind_eq_dec : EqDecision SlaTargetKind.
Proof. solve_decision. Defined.

(** Minutes to respond and to resolve. *)
Record SlaTargets := { responseMinutes : option Z; resolutionMinutes : option Z }.

Definition PRIORITY_SLA_DEFAULTS (p : TicketSlaPriority) : SlaTargets :=
  match p with
  | urgent => {| responseMinutes := Some 60; resolutionMinutes := Some 240 |}
  | high => {| responseMinutes := Some 240; resolutionMinutes := Some 1440 |}
  | normal | low => {| responseMinutes := None; resolutionMinutes := None |}
  end.

Record ResolveSlaTargetsInput := {
  in_override : SlaTargets; in_category : SlaTargets; in_org : SlaTargets;
  in_partner : SlaTargets; in_priority : TicketSlaPriority }.

Definition resolveSlaTargets (i : ResolveSlaTargetsInput) : SlaTargets :=
  let defaults := PRIORITY_SLA_DEFAULTS (in_priority i) in
  let chain f := or_else (f (in_override i)) (or_else (f (in_category i))
                   (or_else (f (in_org i)) (or_else (f (in_partner i)) (f defaults)))) in
  {| responseMinutes := chain responseMinutes; resolutionMinutes := chain resolutionMinutes |}.

Definition kind_text (k : SlaTargetKind) : string :=
  match k with response => "response" | resolution => "resolution" end.
Definition parse_kind (s : string) : option SlaTargetKind :=
  if bool_decide (s = "response"%string) then Some response
  else if bool_decide (s = "resolution"%string) then Some resolution else None.

(** A JavaScript set of kinds: insertion order, no duplicates. *)
Definition add_kind (k : SlaTargetKind) (out : list SlaTargetKind) : list SlaTargetKind :=
  if bool_decide (k ∈ out) then out else out ++ [k].

Definition breachedTargets (reason : option string) : list SlaTargetKind :=
  fold_left (λ out part, match parse_kind (trim part) with
                         | Some k => add_kind k out | None => out end)
    (split "," (default ""%string reason)) [].

Definition join_kinds (ks : list SlaTargetKind) : string :=
  match kind_text <$> ks with
  | [] => ""
  | s :: rest => fold_left (λ acc t, acc +:+ "," +:+ t) rest s
  end.

Definition appendBreachTarget (reason : option string) (target : SlaTargetKind) : string :=
  let existing := breachedTargets reason in
  if bool_decide (target ∈ existing) then default (kind_text target) reason
  else if Nat.eqb (length existing) 0 then kind_text target
  else join_kinds existing +:+ "," +:+ kind_text target.

(** ** Lemmas *)

Lemma add_kind_nodup k out : NoDup out → NoDup (add_kind k out).
Proof.
  intros H. unfold add_kind. case_bool_decide as Hk; [done|].
  apply NoDup_app. split_and!; [done | set_solver | apply NoDup_singleton].
Qed.

Lemma breachedTargets_nodup reason : NoDup (breachedTargets reason).
Proof.
  unfold breachedTargets. generalize (split "," (default ""%string reason)). intros parts.
  assert (NoDup (@nil SlaTargetKind)) as H0 by constructor. revert H0. generalize (@nil SlaTargetKind).
  induction parts as [|p parts IH]; intros out Hout; simpl; [done|]. apply IH.
  destruct (parse_kind (trim p)); auto using add_kind_nodup.
Qed.

(** There are only five sets of targets. *)
Lemma kinds_cases (ks : list SlaTargetKind) :
  NoDup ks → ks = [] ∨ ks = [response] ∨ ks = [resolution] ∨ ks = [response; resolution] ∨
             ks = [resolution; response].
Proof.
  intros H. destruct ks as [|k1 [|k2 [|k3 ks]]]; [auto | destruct k1; auto | |].
  - apply NoDup_cons in H as [H _]. destruct k1, k2; set_solver.
  - apply NoDup_cons in H as [H1 [H2 _]%NoDup_cons]. destruct k1, k2, k3; set_solver.
Qed.

(** breachedTargets and appendBreachTarget, ticketSla.ts: appending a target to a
    breach reason, whatever text it holds, yields a text that reads back as the targets
    already breached together with the new one, and appending it again changes nothing. *)
Theorem appendBreachTarget_roundtrip reason t :
  let reason' := appendBreachTarget reason t in
  (∀ k, k ∈ breachedTargets (Some reason') ↔ k = t ∨ k ∈ breachedTargets reason) ∧
  appendBreachTarget (Some reason') t = reason'.
Proof.
  pose proof (kinds_cases _ (breachedTargets_nodup reason)) as Hcases.
  assert (∀ r, t ∈ breachedTargets (Some r) → appendBreachTarget (Some r) t = r) as Hagain.
  { intros r Hr. unfold appendBreachTarget. by rewrite bool_decide_eq_true_2. }
  intros reason'. assert (∀ k, k ∈ breachedTargets (Some reason') ↔ k = t ∨ k ∈ breachedTargets reason) as Hk.
  2:{ split; [done|]. apply Hagain, Hk. auto. }
  intros k. unfold reason', appendBreachTarget. case_bool_decide as Ht.
  - destruct reason as [r|]; [simpl; split; [auto | intros [->|?]; auto]|].
    vm_compute in Ht. by apply not_elem_of_nil in Ht.
  - destruct Hcases as [E|[E|[E|[E|E]]]]; rewrite E in *; destruct t, k;
      try (exfalso; set_solver); split; intros H; try (by vm_compute in H; set_solver);
      try (vm_compute; set_solver).
Qed.
