(* ===== verification/TicketDesk.v ===== *)
(** * The ticket desk: tables, transactions and lookups
    ([db/schema/portal.ts], [tickets.ts], [ticketConfig.ts], [emailInbound.ts],
    [services/ticketNumbers.ts], [ticketEvents.ts], the reads of [ticketConfigService.ts])

    A request or job runs in one database transaction ([withDbAccessContext] of
    [db/index.ts]).  Any statement may fail: the schedule [tx_faults] says which.  After a
    failed statement the database refuses the rest of the transaction and answers its commit
    with a rollback; code that catches the error goes on, so the monad [TM] keeps the state of
    the transaction across errors.  What runs on a connection of its own
    ([runOutsideDbContext]) reads what is committed and commits at once.  Events, audit
    entries and feedback are collected in [tx_out]; no rollback takes them back.

    Ids are numbers; [uuid_text] is their text.  [updated_at] is not modelled, nothing here
    reads it. *)

From S2P Require Import Prelude JsNum Json TicketSla.

Open Scope Z_scope.

Abbreviation uuid := nat.
Definition uuid_text (i : uuid) : string := print_Z (Z.of_nat i).

(** ** Tables *)

Inductive TicketStatus := st_new | st_open | st_pending | st_on_hold | st_resolved | st_closed.
#[export] Instance TicketStatus_eq_dec : EqDecision TicketStatus.
Proof. solve_decision. Defined.
Inductive TicketSource := src_portal | src_email | src_alert | src_manual | src_api | src_ai.
#[export] Instance TicketSource_eq_dec : EqDecision TicketSource.
Proof. solve_decision. Defined.
Inductive CommentType := ct_comment | ct_internal | ct_status_change | ct_assignment | ct_time_entry | ct_system.
#[export] Instance CommentType_eq_dec : EqDecision CommentType.
Proof. solve_decision. Defined.
Inductive AuthorType := by_staff | by_portal | by_email.
#[export] Instance AuthorType_eq_dec : EqDecision AuthorType.
Proof. solve_decision. Defined.
#[export] Instance TicketSlaPriority_eq_dec : EqDecision TicketSlaPriority.
Proof. solve_decision. Defined.

Definition status_text (s : TicketStatus) : string :=
  match s with
  | st_new => "new" | st_open => "open" | st_pending => "pending"
  | st_on_hold => "on_hold" | st_resolved => "resolved" | st_closed => "closed"
  end.
Definition priority_text (p : TicketSlaPriority) : string :=
  match p with low => "low" | normal => "normal" | high => "high" | urgent => "urgent" end.

(** The columns [updateTicketFields] edits. *)
Record Fields := {
  fl_subject : string; fl_description : option string; fl_categoryId : option uuid;
  fl_priority : TicketSlaPriority; fl_dueDate : option Z; fl_responseSlaMinutes : option Z;
  fl_resolutionSlaMinutes : option Z; fl_deviceId : option uuid; fl_tags : option (list string);
  fl_submittedBy : option uuid; fl_submitterName : option string; fl_submitterEmail : option string }.

(** Where the ticket stands, and its SLA clock. *)
Record Stage := {
  sg_status : TicketStatus; sg_statusId : option uuid; sg_resolvedAt : option Z;
  sg_closedAt : option Z; sg_closedBy : option uuid; sg_resolutionNote : option string;
  sg_pendingReason : option string; sg_slaPausedAt : option Z; sg_slaPausedMinutes : option Z }.

Record Breach := { br_at : option Z; br_reason : option string }.
Record Mail := { ml_messageId : option string; ml_threadKey : option string }.

Record Ticket := {
  tk_partnerId : option uuid; tk_orgId : uuid; tk_ticketNumber : string;
  tk_internalNumber : option string; tk_source : TicketSource; tk_createdAt : Z;
  tk_assignedTo : option uuid; tk_firstResponseAt : option Z;
  tk_fields : Fields; tk_stage : Stage; tk_breach : Breach; tk_mail : Mail }.

Record Comment := {
  cm_ticketId : uuid; cm_userId : option uuid; cm_portalUserId : option uuid;
  cm_authorName : option string; cm_authorType : option AuthorType; cm_commentType : CommentType;
  cm_content : string; cm_isPublic : bool; cm_oldValue : option string; cm_newValue : option string;
  cm_deletedAt : option Z; cm_editedAt : option Z; cm_createdAt : Z }.

Inductive LinkType := created_from | attached | auto_linked.
Record Link := { lk_orgId : uuid; lk_linkType : LinkType; lk_createdBy : uuid }.

(** Rows other services own. *)
Record Org := { og_partnerId : uuid; og_name : string }.
Record Partner := { pn_slug : string; pn_status : string; pn_settings : option json }.
Record Category := { cg_partnerId : uuid; cg_sla : SlaTargets }.
Record Alert := {
  at_orgId : uuid; at_deviceId : uuid; at_title : string; at_message : option string; at_severity : string }.

Record Directory := {
  orgs : gmap uuid Org; partners : gmap uuid Partner; deviceOrgs : gmap uuid uuid;
  users : gmap uuid uuid;                             (* user to partner *)
  categories : gmap uuid Category; alertRows : gmap uuid Alert;
  inboundDomains : gmap string uuid }.                (* domain to partner *)

Record PortalUser := { pu_orgId : uuid; pu_email : string; pu_name : option string; pu_status : string }.

Record StatusRow := {
  ss_partnerId : uuid; ss_name : string; ss_coreStatus : TicketStatus; ss_color : option string;
  ss_sortOrder : Z; ss_isSystem : bool; ss_isActive : bool }.
Record PriorityRow := { ps_label : option string; ps_sla : SlaTargets }.
Record OrgSettings := {
  os_slaOverrides : json; os_defaultHourlyRate : option string; os_defaultBillable : option bool }.

Inductive InboundParseStatus := in_matched | in_created | in_quarantined | in_failed | in_ignored | in_skipped.
#[export] Instance InboundParseStatus_eq_dec : EqDecision InboundParseStatus.
Proof. solve_decision. Defined.
Record InboundRow := {
  ib_partnerId : option uuid; ib_messageKey : string; ib_from : string; ib_to : string;
  ib_subject : string; ib_status : InboundParseStatus; ib_ticketId : option uuid;
  ib_error : option string; ib_raw : json }.

Record EmailDomain := {
  ed_partnerId : uuid; ed_orgId : uuid; ed_domain : string; ed_autoCreateContact : bool;
  ed_isActive : bool }.

Record Desk := {
  dir : Directory;
  tickets : gmap uuid Ticket; comments : gmap uuid Comment;
  links : gmap (uuid * uuid) Link;                    (* ticket and alert, a unique index *)
  timeEntryOrgs : gmap uuid (option uuid * option uuid);  (* ticket and organisation of an entry *)
  partOrgs : gmap uuid (uuid * uuid);
  portalUsers : gmap uuid PortalUser;
  statuses : gmap uuid StatusRow; prioritySettings : gmap (uuid * string) PriorityRow;
  orgSettings : gmap uuid OrgSettings; emailDomains : gmap uuid EmailDomain;
  inbound : gmap uuid InboundRow;
  sequences : gmap (uuid * Z) Z;                      (* partner and year *)
  next : uuid }.

Definition set_tickets (f : gmap uuid Ticket → gmap uuid Ticket) (n : uuid) (d : Desk) : Desk :=
  {| dir := dir d; tickets := f (tickets d); comments := comments d; links := links d;
     timeEntryOrgs := timeEntryOrgs d; partOrgs := partOrgs d; portalUsers := portalUsers d;
     statuses := statuses d; prioritySettings := prioritySettings d; orgSettings := orgSettings d;
     emailDomains := emailDomains d; inbound := inbound d; sequences := sequences d; next := n |}.
Definition set_feed (cs : gmap uuid Comment) (ls : gmap (uuid * uuid) Link) (n : uuid) (d : Desk) : Desk :=
  {| dir := dir d; tickets := tickets d; comments := cs; links := ls;
     timeEntryOrgs := timeEntryOrgs d; partOrgs := partOrgs d; portalUsers := portalUsers d;
     statuses := statuses d; prioritySettings := prioritySettings d; orgSettings := orgSettings d;
     emailDomains := emailDomains d; inbound := inbound d; sequences := sequences d; next := n |}.
Definition set_work (es : gmap uuid (option uuid * option uuid)) (ps : gmap uuid (uuid * uuid)) (d : Desk) : Desk :=
  {| dir := dir d; tickets := tickets d; comments := comments d; links := links d;
     timeEntryOrgs := es; partOrgs := ps; portalUsers := portalUsers d;
     statuses := statuses d; prioritySettings := prioritySettings d; orgSettings := orgSettings d;
     emailDomains := emailDomains d; inbound := inbound d; sequences := sequences d; next := next d |}.
Definition set_contacts (ps : gmap uuid PortalUser) (n : uuid) (d : Desk) : Desk :=
  {| dir := dir d; tickets := tickets d; comments := comments d; links := links d;
     timeEntryOrgs := timeEntryOrgs d; partOrgs := partOrgs d; portalUsers := ps;
     statuses := statuses d; prioritySettings := prioritySettings d; orgSettings := orgSettings d;
     emailDomains := emailDomains d; inbound := inbound d; sequences := sequences d; next := n |}.
Definition set_config (ss : gmap uuid StatusRow) (ps : gmap (uuid * string) PriorityRow)
    (os : gmap uuid OrgSettings) (es : gmap uuid EmailDomain) (n : uuid) (d : Desk) : Desk :=
  {| dir := dir d; tickets := tickets d; comments := comments d; links := links d;
     timeEntryOrgs := timeEntryOrgs d; partOrgs := partOrgs d; portalUsers := portalUsers d;
     statuses := ss; prioritySettings := ps; orgSettings := os; emailDomains := es;
     inbound := inbound d; sequences := sequences d; next := n |}.
Definition set_inbound (f : gmap uuid InboundRow → gmap uuid InboundRow) (n : uuid) (d : Desk) : Desk :=
  {| dir := dir d; tickets := tickets d; comments := comments d; links := links d;
     timeEntryOrgs := timeEntryOrgs d; partOrgs := partOrgs d; portalUsers := portalUsers d;
     statuses := statuses d; prioritySettings := prioritySettings d; orgSettings := orgSettings d;
     emailDomains := emailDomains d; inbound := f (inbound d); sequences := sequences d; next := n |}.
Definition set_sequences (s : gmap (uuid * Z) Z) (d : Desk) : Desk :=
  {| dir := dir d; tickets := tickets d; comments := comments d; links := links d;
     timeEntryOrgs := timeEntryOrgs d; partOrgs := partOrgs d; portalUsers := portalUsers d;
     statuses := statuses d; prioritySettings := prioritySettings d; orgSettings := orgSettings d;
     emailDomains := emailDomains d; inbound := inbound d; sequences := s; next := next d |}.

(** ** What leaves the database *)

Record TicketActor := {
  ac_userId : uuid; ac_name : option string;
  ac_suggestion : bool }.                  (* [triageFeedbackSource] is [suggestion] *)

Inductive TicketPayload :=
| Created (internalNumber subject : string) (assigneeId : option uuid) (source : TicketSource)
| StatusChanged (from to : TicketStatus) (resolutionNote : option string)
| Assigned (assigneeId : option uuid)
| Commented (commentId : uuid) (isPublic inboundMail : bool)
| Updated (changed : list string)
| SlaBreached (target : SlaTargetKind) (internalNumber : option string) (subject : string) (assigneeId : option uuid)
| Autoresponse (to : string) (internalNumber : option string) (subject : string).

Record TicketEvent := {
  te_ticketId : uuid; te_orgId : option uuid; te_partnerId : option uuid; te_actorUserId : option uuid;
  te_payload : TicketPayload }.

Inductive Effect :=
| Event (e : TicketEvent)
| BusEvent (orgId ticketId : uuid) (target : SlaTargetKind)         (* [getEventBus().publish] *)
| Audit (orgId : option uuid) (actorId : uuid) (action : string) (resourceId : uuid)
| Feedback (orgId ticketId : uuid) (eventType dedupeKey : string) (acceptedSuggestion : bool).

(** ** Errors *)

Inductive TicketError :=
| TICKET_NOT_FOUND | ORG_NOT_FOUND | DEVICE_NOT_FOUND | DEVICE_WRONG_ORG
| ASSIGNEE_NOT_FOUND | ASSIGNEE_WRONG_PARTNER | REQUESTER_NOT_FOUND | REQUESTER_WRONG_ORG
| CATEGORY_NOT_FOUND | CATEGORY_WRONG_PARTNER | TICKET_PARTNER_UNRESOLVABLE
| INVALID_TRANSITION | CONCURRENT_MODIFICATION | STATUS_NOT_FOUND | STATUS_INACTIVE | INVALID_INPUT
| NOTE_REQUIRED | ALERT_NOT_FOUND | ALERT_WRONG_ORG | ALREADY_LINKED | LINK_NOT_FOUND | LINK_FAILED
| COMMENT_NOT_FOUND | SYSTEM_COMMENT | COMMENT_DELETED | NOT_YOUR_COMMENT
| TARGET_ORG_NOT_FOUND | MOVE_ACROSS_PARTNERS
| STATUS_NAME_TAKEN | SYSTEM_STATUS_IMMUTABLE | SYSTEM_STATUS_REQUIRED
| INBOUND_ROW_NOT_FOUND | INBOUND_ROW_ALREADY_RESOLVED | INBOUND_ROW_NO_SENDER | ORG_NOT_ACCESSIBLE
| DOMAIN_ALREADY_MAPPED | DOMAIN_MAPPING_NOT_FOUND
| CROSS_PARTNER_MATCH | ORG_NOT_IN_PARTNER | PARTNER_MISMATCH
| PG_UNIQUE_VIOLATION
| PG_ERROR.                                (* a statement the database refused *)
#[export] Instance TicketError_eq_dec : EqDecision TicketError.
Proof. solve_decision. Defined.

(** ** Transactions *)

(** What is committed, what this transaction sees, whether a statement of it has failed, which
    statements to come will fail, and what was sent. *)
Record Tx := {
  tx_base : Desk; tx_tables : Desk; tx_aborted : bool; tx_faults : list bool; tx_out : list Effect }.

Definition TM (A : Type) : Type := Tx → outcome TicketError A * Tx.
#[export] Instance TM_ret : MRet TM := λ A a t, (Ok a, t).
#[export] Instance TM_bind : MBind TM := λ A B k m t,
  match m t with (Ok a, t') => k a t' | (Throw e, t') => (Throw e, t') end.

Definition throw {A} (e : TicketError) : TM A := λ t, (Throw e, t).
Definition require (b : bool) (e : TicketError) : TM unit := if b then mret tt else throw e.
Definition of_option {A} (o : option A) (e : TicketError) : TM A :=
  match o with Some a => mret a | None => throw e end.
Definition try_catch {A} (m : TM A) (h : TicketError → TM A) : TM A := λ t,
  match m t with (Ok a, t') => (Ok a, t') | (Throw e, t') => h e t' end.

Definition with_tables (t : Tx) (d : Desk) : Tx :=
  {| tx_base := tx_base t; tx_tables := d; tx_aborted := tx_aborted t; tx_faults := tx_faults t; tx_out := tx_out t |}.
Definition with_both (t : Tx) (f : Desk → Desk) : Tx :=
  {| tx_base := f (tx_base t); tx_tables := f (tx_tables t); tx_aborted := tx_aborted t;
     tx_faults := tx_faults t; tx_out := tx_out t |}.
Definition with_aborted (t : Tx) (b : bool) : Tx :=
  {| tx_base := tx_base t; tx_tables := tx_tables t; tx_aborted := b; tx_faults := tx_faults t; tx_out := tx_out t |}.
Definition with_faults (t : Tx) (l : list bool) : Tx :=
  {| tx_base := tx_base t; tx_tables := tx_tables t; tx_aborted := tx_aborted t; tx_faults := l; tx_out := tx_out t |}.
Definition with_out (t : Tx) (l : list Effect) : Tx :=
  {| tx_base := tx_base t; tx_tables := tx_tables t; tx_aborted := tx_aborted t; tx_faults := tx_faults t; tx_out := l |}.

(** Whether the next statement fails. *)
Definition fault (t : Tx) : bool := default false (head (tx_faults t)).
Definition consumed (t : Tx) : Tx := with_faults t (tail (tx_faults t)).

(** A statement of the transaction. *)
Definition stmt {A} (f : Desk → outcome TicketError (A * Desk)) : TM A := λ t,
  if tx_aborted t then (Throw PG_ERROR, t)
  else if fault t then (Throw PG_ERROR, with_aborted (consumed t) true)
  else match f (tx_tables t) with
       | Ok (a, d) => (Ok a, with_tables (consumed t) d)
       | Throw e => (Throw e, with_aborted (consumed t) true)
       end.
Definition query {A} (f : Desk → A) : TM A := stmt (λ d, Ok (f d, d)).
Definition write {A} (f : Desk → A * Desk) : TM A := stmt (λ d, Ok (f d)).

(** A statement on a connection of its own: it sees what is committed, and its failure does
    not touch this transaction. *)
Definition sys_read {A} (f : Desk → A) : TM A := λ t,
  if fault t then (Throw PG_ERROR, consumed t) else (Ok (f (tx_base t)), consumed t).
Definition sys_write {A} (f : Desk → outcome TicketError (A * (Desk → Desk))) : TM A := λ t,
  if fault t then (Throw PG_ERROR, consumed t)
  else match f (tx_base t) with
       | Ok (a, g) => (Ok a, with_both (consumed t) g)
       | Throw e => (Throw e, consumed t)
       end.

(** [db.transaction] inside a request: a savepoint, rolled back to when the body throws. *)
Definition savepoint {A} (m : TM A) : TM A := λ t,
  if tx_aborted t then (Throw PG_ERROR, t)
  else match m t with
       | (Ok a, t') => (Ok a, t')
       | (Throw e, t') => (Throw e, with_aborted (with_tables t' (tx_tables t)) false)
       end.

(** The commit of a failed transaction rolls it back without an error.  An error a route handler
    throws is made a response by the error handler of the framework before the middleware that
    holds the transaction goes on, so it commits. *)
Definition begin_tx (d : Desk) (faults : list bool) : Tx :=
  {| tx_base := d; tx_tables := d; tx_aborted := false; tx_faults := faults; tx_out := [] |}.
Definition committed (t : Tx) : Desk := if tx_aborted t then tx_base t else tx_tables t.
Definition request {A} (m : TM A) (faults : list bool) (d : Desk) : outcome TicketError A * Desk * list Effect :=
  let '(r, t) := m (begin_tx d faults) in (r, committed t, tx_out t).

(** ** The surroundings of a request *)

Record World := {
  w_now : Z;
  w_bus : bool;                            (* the queue of ticket events can be reached *)
  w_feedback : bool;                       (* the database takes feedback rows *)
  w_year : Z → Z;                          (* [getFullYear] *)
  w_nanoid : string;                       (* what [nanoid(10)] returns *)
  w_domain : option string;                (* [TICKETS_INBOUND_DOMAIN] *)
  w_cap : string → bool;                   (* whether [rateLimiter] lets a key through *)
  w_rival : Desk → Desk }.                 (* what others commit between the read and the update of a handler *)

(** Other requests commit; the transaction sees their rows from the next statement on.  Only used
    before the first write of a transaction. *)
Definition interleave (w : World) : TM unit := λ t,
  (Ok tt, {| tx_base := w_rival w (tx_base t); tx_tables := w_rival w (tx_base t); tx_aborted := tx_aborted t;
             tx_faults := tx_faults t; tx_out := tx_out t |}).

Definition send (e : Effect) : TM unit := λ t, (Ok tt, with_out t (tx_out t ++ [e])).
Definition emitTicketEvent (w : World) (e : TicketEvent) : TM unit :=
  if w_bus w then send (Event e) else mret tt.

(** [createAuditLogAsync] never throws: what it cannot write it keeps for later. *)
Definition audit (orgId : option uuid) (actor : uuid) (action : string) (resource : uuid) : TM unit :=
  send (Audit orgId actor action resource).

(** [emitTicketTriageFeedback]: an insert inside the transaction whose error is swallowed. *)
Definition emitTicketTriageFeedback (w : World) (orgId ticketId : uuid) (eventType dedupeKey : string)
    (suggestion : bool) : TM unit :=
  try_catch (stmt (λ d, if w_feedback w then Ok (tt, d) else Throw PG_ERROR);;
             send (Feedback orgId ticketId eventType dedupeKey suggestion))
    (λ _, mret tt).

(** ** Ticket numbers *)

(** [padStart(4, '0')]. *)
Definition formatInternalNumber (year counter : Z) : string :=
  "T-" +:+ print_Z year +:+ "-" +:+ of_chars (pad 4 (chars (print_Z counter))).

Definition allocateInternalTicketNumber (w : World) (partnerId : uuid) : TM string :=
  let year := w_year w (w_now w) in
  counter ← sys_write (λ d,
    let c := match sequences d !! (partnerId, year) with Some c => c + 1 | None => 1 end in
    Ok (c, λ d, set_sequences (<[(partnerId, year) := c]> (sequences d)) d));
  require (1 <=? counter) PG_ERROR;;
  mret (formatInternalNumber year counter).

(** ** Configuration reads *)

(** [parseSlaMinutes] on a JSON value. *)
Definition parseSlaMinutes (v : option json) : option Z :=
  match v with
  | Some (JNum q) => if Qeq_bool q (inject_Z (Qfloor q)) && Qle_bool 0 q then Some (Qfloor q) else None
  | _ => None
  end.
Definition no_sla : SlaTargets := {| responseMinutes := None; resolutionMinutes := None |}.

Definition org_override (v : json) (p : TicketSlaPriority) : SlaTargets :=
  match v with
  | JObj _ =>
      match field (priority_text p) v with
      | Some (JObj _ as tier) =>
          {| responseMinutes := parseSlaMinutes (field "responseMinutes" tier);
             resolutionMinutes := parseSlaMinutes (field "resolutionMinutes" tier) |}
      | _ => no_sla
      end
  | _ => no_sla
  end.
Definition getOrgSlaOverride (orgId : uuid) (p : TicketSlaPriority) : TM SlaTargets :=
  sys_read (λ d, match orgSettings d !! orgId with Some s => org_override (os_slaOverrides s) p | None => no_sla end).

(** [parseSlaMinutes] on an integer column. *)
Definition column_minutes (v : option Z) : option Z :=
  match v with Some n => if n <? 0 then None else Some n | None => None end.
Definition getPartnerPrioritySla (partnerId : uuid) (p : TicketSlaPriority) : TM SlaTargets :=
  sys_read (λ d, match prioritySettings d !! (partnerId, priority_text p) with
                 | Some s => {| responseMinutes := column_minutes (responseMinutes (ps_sla s));
                                resolutionMinutes := column_minutes (resolutionMinutes (ps_sla s)) |}
                 | None => no_sla
                 end).

Definition is_system_status (partnerId : uuid) (s : TicketStatus) (r : StatusRow) : Prop :=
  ss_partnerId r = partnerId ∧ ss_coreStatus r = s ∧ ss_isSystem r = true.
#[export] Instance is_system_status_dec p s r : Decision (is_system_status p s r).
Proof. unfold is_system_status. apply _. Defined.

(** The first row of a query without an order may be any row; here it is the first one the map
    enumerates. *)
Definition first_row {A} (P : A → Prop) `{!∀ a, Decision (P a)} (m : gmap uuid A) : option (uuid * A) :=
  head (filter (λ r, P r.2) (map_to_list m)).

Definition getSystemStatusId (partnerId : uuid) (s : TicketStatus) : TM (option uuid) :=
  sys_read (λ d, fst <$> first_row (is_system_status partnerId s) (statuses d)).
Definition getTicketStatusById (i : uuid) : TM (option StatusRow) := sys_read (λ d, statuses d !! i).
