(* ===== verification/Tickets.v ===== *)
(** * Tickets ([services/ticketService.ts], [jobs/ticketSlaWorker.ts],
    [routes/portal/tickets.ts])

    One definition per handler, in the transaction monad of [TicketDesk]: creating, moving
    through the life cycle, editing, assigning, commenting, linking alerts, moving to another
    organisation; the sweep that stamps missed SLA targets; and the comment routes of the
    customer portal. *)

From S2P Require Import Prelude JsNum Json TicketSla TicketDesk.

Open Scope Z_scope.

(** ** The life cycle *)

Definition TICKET_STATUS_TRANSITIONS (s : TicketStatus) : list TicketStatus :=
  match s with
  | st_new => [st_open; st_pending; st_on_hold; st_resolved; st_closed]
  | st_open => [st_pending; st_on_hold; st_resolved; st_closed]
  | st_pending => [st_open; st_on_hold; st_resolved; st_closed]
  | st_on_hold => [st_open; st_pending; st_resolved; st_closed]
  | st_resolved => [st_open; st_closed]
  | st_closed => [st_open]
  end.

Definition is_paused (s : TicketStatus) : bool :=
  match s with st_pending | st_on_hold => true | _ => false end.

(** ** Statements *)

Definition set_row (orgId : uuid) (assignedTo : option uuid) (firstResponseAt : option Z)
    (fields : Fields) (stage : Stage) (breach : Breach) (mail : Mail) (t : Ticket) : Ticket :=
  {| tk_partnerId := tk_partnerId t; tk_orgId := orgId; tk_ticketNumber := tk_ticketNumber t;
     tk_internalNumber := tk_internalNumber t; tk_source := tk_source t; tk_createdAt := tk_createdAt t;
     tk_assignedTo := assignedTo; tk_firstResponseAt := firstResponseAt;
     tk_fields := fields; tk_stage := stage; tk_breach := breach; tk_mail := mail |}.
Definition set_stage (s : Stage) (t : Ticket) : Ticket :=
  set_row (tk_orgId t) (tk_assignedTo t) (tk_firstResponseAt t) (tk_fields t) s (tk_breach t) (tk_mail t) t.
Definition set_fields (f : Fields) (t : Ticket) : Ticket :=
  set_row (tk_orgId t) (tk_assignedTo t) (tk_firstResponseAt t) f (tk_stage t) (tk_breach t) (tk_mail t) t.
Definition set_breach (b : Breach) (t : Ticket) : Ticket :=
  set_row (tk_orgId t) (tk_assignedTo t) (tk_firstResponseAt t) (tk_fields t) (tk_stage t) b (tk_mail t) t.
Definition set_mail (m : Mail) (t : Ticket) : Ticket :=
  set_row (tk_orgId t) (tk_assignedTo t) (tk_firstResponseAt t) (tk_fields t) (tk_stage t) (tk_breach t) m t.
Definition set_assignee (a : option uuid) (s : Stage) (t : Ticket) : Ticket :=
  set_row (tk_orgId t) a (tk_firstResponseAt t) (tk_fields t) s (tk_breach t) (tk_mail t) t.
Definition set_first_response (at_ : Z) (t : Ticket) : Ticket :=
  set_row (tk_orgId t) (tk_assignedTo t) (Some at_) (tk_fields t) (tk_stage t) (tk_breach t) (tk_mail t) t.
Definition set_org (o : uuid) (f : Fields) (t : Ticket) : Ticket :=
  set_row o (tk_assignedTo t) (tk_firstResponseAt t) f (tk_stage t) (tk_breach t) (tk_mail t) t.

Abbreviation status t := (sg_status (tk_stage t)).

(** [UPDATE tickets SET ... WHERE id = i AND P RETURNING *]. *)
Definition update_ticket (i : uuid) (P : Ticket → bool) (f : Ticket → Ticket) : TM (option Ticket) :=
  write (λ d, match tickets d !! i with
              | Some t => if P t then (Some (f t), set_tickets <[i := f t]> (next d) d) else (None, d)
              | None => (None, d)
              end).

(** Insert a ticket; the legacy number and the number within the partner are unique. *)
Definition number_taken (t : Ticket) (d : Desk) : Prop :=
  Exists (λ e, tk_ticketNumber e.2 = tk_ticketNumber t ∨
               (tk_internalNumber t ≠ None ∧ tk_internalNumber e.2 = tk_internalNumber t ∧
                tk_partnerId t ≠ None ∧ tk_partnerId e.2 = tk_partnerId t)) (map_to_list (tickets d)).
#[export] Instance number_taken_dec t d : Decision (number_taken t d).
Proof. unfold number_taken. apply _. Defined.
Definition insert_ticket (t : Ticket) : TM uuid :=
  stmt (λ d, if decide (number_taken t d) then Throw PG_UNIQUE_VIOLATION
             else Ok (next d, set_tickets <[next d := t]> (S (next d)) d)).

Definition insert_comment (c : Comment) : TM uuid :=
  write (λ d, (next d, set_feed (<[next d := c]> (comments d)) (links d) (S (next d)) d)).

(** A feed entry of a technician. *)
Definition staff_entry (w : World) (ticketId : uuid) (actor : TicketActor) (ty : CommentType)
    (content : string) (isPublic : bool) (oldValue newValue : option string) : Comment :=
  {| cm_ticketId := ticketId; cm_userId := Some (ac_userId actor); cm_portalUserId := None;
     cm_authorName := ac_name actor; cm_authorType := Some by_staff; cm_commentType := ty;
     cm_content := content; cm_isPublic := isPublic; cm_oldValue := oldValue; cm_newValue := newValue;
     cm_deletedAt := None; cm_editedAt := None; cm_createdAt := w_now w |}.

Definition ticket_event (t : Ticket) (i : uuid) (actor : option uuid) (p : TicketPayload) : TicketEvent :=
  {| te_ticketId := i; te_orgId := Some (tk_orgId t); te_partnerId := tk_partnerId t;
     te_actorUserId := actor; te_payload := p |}.

(** ** Guards *)

Definition getTicketOrThrow (i : uuid) : TM Ticket :=
  t ← query (λ d, tickets d !! i);
  of_option t TICKET_NOT_FOUND.

Definition resolveTicketPartnerId (t : Ticket) : TM (option uuid) :=
  match tk_partnerId t with
  | Some p => mret (Some p)
  | None => query (λ d, og_partnerId <$> orgs (dir d) !! tk_orgId t)
  end.

Definition getAssigneeForValidation (assigneeId : uuid) : TM (option uuid) :=
  sys_read (λ d, users (dir d) !! assigneeId).

Definition assertAssigneeInPartner (assigneeId : uuid) (partnerId : option uuid) : TM unit :=
  assignee ← getAssigneeForValidation assigneeId;
  p ← of_option assignee ASSIGNEE_NOT_FOUND;
  partner ← of_option partnerId TICKET_PARTNER_UNRESOLVABLE;
  require (bool_decide (p = partner)) ASSIGNEE_WRONG_PARTNER.

Definition getPortalUserForValidation (i : uuid) : TM (option PortalUser) :=
  sys_read (λ d, portalUsers d !! i).

Definition assertRequesterInOrg (i orgId : uuid) : TM PortalUser :=
  u ← getPortalUserForValidation i;
  u ← of_option u REQUESTER_NOT_FOUND;
  require (bool_decide (pu_orgId u = orgId)) REQUESTER_WRONG_ORG;;
  mret u.

Definition assertCategoryInPartner (categoryId : uuid) (partnerId : option uuid) : TM Category :=
  c ← sys_read (λ d, categories (dir d) !! categoryId);
  c ← of_option c CATEGORY_NOT_FOUND;
  partner ← of_option partnerId TICKET_PARTNER_UNRESOLVABLE;
  require (bool_decide (cg_partnerId c = partner)) CATEGORY_WRONG_PARTNER;;
  mret c.

Definition assert_device_in_org (deviceId orgId : uuid) : TM unit :=
  o ← query (λ d, deviceOrgs (dir d) !! deviceId);
  o ← of_option o DEVICE_NOT_FOUND;
  require (bool_decide (o = orgId)) DEVICE_WRONG_ORG.

(** ** createTicket *)

Record CreateTicketInput := {
  ci_orgId : uuid; ci_subject : string; ci_description : option string; ci_deviceId : option uuid;
  ci_categoryId : option uuid; ci_priority : option TicketSlaPriority; ci_dueDate : option Z;
  ci_assigneeId : option uuid; ci_source : TicketSource; ci_submittedBy : option uuid;
  ci_submitterEmail : option string; ci_submitterName : option string }.

(** Who asked: id, name and address. *)
Definition resolve_requester (input : CreateTicketInput) (actor : TicketActor)
    : TM (option uuid * option string * option string) :=
  if bool_decide (ci_source input = src_portal ∨ ci_source input = src_email)
  then mret (ci_submittedBy input, ci_submitterName input, ci_submitterEmail input)
  else match ci_submittedBy input with
       | Some u =>
           p ← assertRequesterInOrg u (ci_orgId input);
           mret (Some u, or_else (ci_submitterName input) (pu_name p),
                 or_else (ci_submitterEmail input) (Some (pu_email p)))
       | None =>
           if truthy (ci_submitterName input) || truthy (ci_submitterEmail input)
           then mret (None, ci_submitterName input, ci_submitterEmail input)
           else mret (None, ac_name actor, None)
       end.

(** [input.assigneeId ? 'open' : 'new']. *)
Definition initial_status (input : CreateTicketInput) : TicketStatus :=
  match ci_assigneeId input with Some _ => st_open | None => st_new end.

Definition new_stage (s : TicketStatus) (statusId : option uuid) : Stage :=
  {| sg_status := s; sg_statusId := statusId; sg_resolvedAt := None; sg_closedAt := None;
     sg_closedBy := None; sg_resolutionNote := None; sg_pendingReason := None;
     sg_slaPausedAt := None; sg_slaPausedMinutes := Some 0 |}.

Definition new_ticket (w : World) (input : CreateTicketInput) (org : Org) (statusId : option uuid)
    (sla : SlaTargets) (number : string) (who : option uuid * option string * option string) : Ticket :=
  {| tk_partnerId := Some (og_partnerId org); tk_orgId := ci_orgId input; tk_ticketNumber := w_nanoid w;
     tk_internalNumber := Some number; tk_source := ci_source input; tk_createdAt := w_now w;
     tk_assignedTo := ci_assigneeId input; tk_firstResponseAt := None;
     tk_fields :=
       {| fl_subject := ci_subject input; fl_description := ci_description input;
          fl_categoryId := ci_categoryId input; fl_priority := default normal (ci_priority input);
          fl_dueDate := ci_dueDate input; fl_responseSlaMinutes := responseMinutes sla;
          fl_resolutionSlaMinutes := resolutionMinutes sla; fl_deviceId := ci_deviceId input;
          fl_tags := Some []; fl_submittedBy := who.1.1; fl_submitterName := who.1.2;
          fl_submitterEmail := who.2 |};
     tk_stage := new_stage (initial_status input) statusId;
     tk_breach := {| br_at := None; br_reason := None |};
     tk_mail := {| ml_messageId := None; ml_threadKey := None |} |}.

Definition createTicket (w : World) (input : CreateTicketInput) (actor : TicketActor) : TM (uuid * Ticket) :=
  org ← query (λ d, orgs (dir d) !! ci_orgId input);
  org ← of_option org ORG_NOT_FOUND;
  (match ci_deviceId input with Some dev => assert_device_in_org dev (ci_orgId input) | None => mret tt end);;
  (match ci_assigneeId input with
   | Some a => assertAssigneeInPartner a (Some (og_partnerId org)) | None => mret tt end);;
  category ← match ci_categoryId input with
             | Some c => c ← assertCategoryInPartner c (Some (og_partnerId org)); mret (Some c)
             | None => mret None
             end;
  who ← resolve_requester input actor;
  let priority := default normal (ci_priority input) in
  orgSla ← getOrgSlaOverride (ci_orgId input) priority;
  partnerSla ← getPartnerPrioritySla (og_partnerId org) priority;
  statusId ← getSystemStatusId (og_partnerId org) (initial_status input);
  let sla := resolveSlaTargets {| in_override := no_sla; in_category := default no_sla (cg_sla <$> category);
                                  in_org := orgSla; in_partner := partnerSla; in_priority := priority |} in
  number ← allocateInternalTicketNumber w (og_partnerId org);
  let row := new_ticket w input org statusId sla number who in
  i ← insert_ticket row;
  emitTicketEvent w (ticket_event row i (Some (ac_userId actor))
    (Created number (ci_subject input) (ci_assigneeId input) (ci_source input)));;
  audit (Some (ci_orgId input)) (ac_userId actor) "ticket.create" i;;
  mret (i, row).

(** ** changeTicketStatus *)

Record ChangeStatusOptions := { co_resolutionNote : option string; co_pendingReason : option string }.
Record ChangeStatusTarget := { ct_status : option TicketStatus; ct_statusId : option uuid }.

(** The status a request asks for: core status, row of [ticket_statuses], name of that row. *)
Definition resolve_target (target : ChangeStatusTarget) (partnerId : option uuid)
    : TM (TicketStatus * option uuid * option string) :=
  match ct_statusId target, ct_status target with
  | Some i, _ =>
      row ← getTicketStatusById i;
      row ← of_option row STATUS_NOT_FOUND;
      require (bool_decide (Some (ss_partnerId row) = partnerId)) STATUS_NOT_FOUND;;
      require (ss_isActive row) STATUS_INACTIVE;;
      mret (ss_coreStatus row, Some i, Some (ss_name row))
  | None, Some s =>
      i ← match partnerId with Some p => getSystemStatusId p s | None => mret None end;
      mret (s, i, None)
  | None, None => throw INVALID_INPUT
  end.

(** The part of the patch that depends on the new status. *)
Definition stage_patch (now : Z) (actor : uuid) (opts : ChangeStatusOptions) (ticket : Stage)
    (to : TicketStatus) (s : Stage) : Stage :=
  let was_done := bool_decide (sg_status ticket = st_resolved ∨ sg_status ticket = st_closed) in
  let '(resolvedAt, closedAt, closedBy, note, reason) :=
    match to with
    | st_resolved => (Some (default now (sg_resolvedAt ticket)), sg_closedAt s, sg_closedBy s,
                      co_resolutionNote opts, None)
    | st_closed => (Some (default now (sg_resolvedAt ticket)), Some now, Some actor,
                    sg_resolutionNote s, None)
    | st_open => if was_done then (None, None, None, sg_resolutionNote s, None)
                 else (sg_resolvedAt s, sg_closedAt s, sg_closedBy s, sg_resolutionNote s, None)
    | st_pending | st_on_hold =>
        (sg_resolvedAt s, sg_closedAt s, sg_closedBy s, sg_resolutionNote s, co_pendingReason opts)
    | st_new => (sg_resolvedAt s, sg_closedAt s, sg_closedBy s, sg_resolutionNote s, None)
    end in
  {| sg_status := to; sg_statusId := sg_statusId s; sg_resolvedAt := resolvedAt; sg_closedAt := closedAt;
     sg_closedBy := closedBy; sg_resolutionNote := note; sg_pendingReason := reason;
     sg_slaPausedAt := sg_slaPausedAt s; sg_slaPausedMinutes := sg_slaPausedMinutes s |}.

(** Whole minutes between two instants, not negative. *)
Definition elapsed_minutes (from to : Z) : Z := Z.max 0 ((to - from) / 60000).

(** The SLA clock stops on entering a paused status and folds the pause in on leaving it. *)
Definition clock_patch (now : Z) (ticket : Stage) (to : TicketStatus) (s : Stage) : Stage :=
  let was := is_paused (sg_status ticket) in
  let will := is_paused to in
  let '(pausedAt, minutes) :=
    if negb was && will then (Some now, sg_slaPausedMinutes s)
    else if was && negb will then
      (None, match sg_slaPausedAt ticket with
             | Some p => Some (default 0 (sg_slaPausedMinutes ticket) + elapsed_minutes p now)
             | None => sg_slaPausedMinutes s
             end)
    else (sg_slaPausedAt s, sg_slaPausedMinutes s) in
  {| sg_status := sg_status s; sg_statusId := sg_statusId s; sg_resolvedAt := sg_resolvedAt s;
     sg_closedAt := sg_closedAt s; sg_closedBy := sg_closedBy s; sg_resolutionNote := sg_resolutionNote s;
     sg_pendingReason := sg_pendingReason s; sg_slaPausedAt := pausedAt; sg_slaPausedMinutes := minutes |}.

Definition with_statusId (i : option uuid) (s : Stage) : Stage :=
  {| sg_status := sg_status s; sg_statusId := i; sg_resolvedAt := sg_resolvedAt s;
     sg_closedAt := sg_closedAt s; sg_closedBy := sg_closedBy s; sg_resolutionNote := sg_resolutionNote s;
     sg_pendingReason := sg_pendingReason s; sg_slaPausedAt := sg_slaPausedAt s;
     sg_slaPausedMinutes := sg_slaPausedMinutes s |}.

(** The same core status under another label. *)
Definition relabel (w : World) (i : uuid) (ticket : Ticket) (statusId : option uuid) (name : option string)
    (actor : TicketActor) : TM Ticket :=
  let from := status ticket in
  updated ← update_ticket i (λ t, bool_decide (status t = from) &&
                                  bool_decide (sg_statusId (tk_stage t) = sg_statusId (tk_stage ticket)))
              (λ t, set_stage (with_statusId statusId (tk_stage t)) t);
  row ← of_option updated CONCURRENT_MODIFICATION;
  (match name with
   | Some (String _ _ as n) =>
       insert_comment (staff_entry w i actor ct_status_change n false
         (Some (status_text from)) (Some (status_text from)));; mret tt
   | _ => mret tt
   end);;
  audit (Some (tk_orgId ticket)) (ac_userId actor) "ticket.status_change" i;;
  mret row.

(** What a request asks of a ticket, as read: the ticket, and the status it shall have. *)
Definition load_change (i : uuid) (target : ChangeStatusTarget)
    : TM (Ticket * (TicketStatus * option uuid * option string)) :=
  ticket ← getTicketOrThrow i;
  require (bool_decide (ct_status target = None ↔ ct_statusId target ≠ None)) INVALID_INPUT;;
  partnerId ← resolveTicketPartnerId ticket;
  resolved ← resolve_target target partnerId;
  mret (ticket, resolved).

Definition status_patch (w : World) (actor : TicketActor) (opts : ChangeStatusOptions) (ticket : Stage)
    (to : TicketStatus) (statusId : option uuid) (s : Stage) : Stage :=
  with_statusId statusId (clock_patch (w_now w) ticket to
    (stage_patch (w_now w) (ac_userId actor) opts ticket to s)).

(** Another core status: only along the table, and only from the status that was read. *)
Definition transition (w : World) (i : uuid) (ticket : Ticket) (to : TicketStatus) (statusId : option uuid)
    (name : option string) (opts : ChangeStatusOptions) (actor : TicketActor) : TM Ticket :=
  let from := status ticket in
  require (bool_decide (to ∈ TICKET_STATUS_TRANSITIONS from)) INVALID_TRANSITION;;
  require (negb (bool_decide (to = st_resolved) && negb (truthy (co_resolutionNote opts)))) NOTE_REQUIRED;;
  updated ← update_ticket i (λ t, bool_decide (status t = from))
              (λ t, set_stage (status_patch w actor opts (tk_stage ticket) to statusId (tk_stage t)) t);
  row ← of_option updated CONCURRENT_MODIFICATION;
  insert_comment (staff_entry w i actor ct_status_change
    (default "" (or_else (co_resolutionNote opts) (or_else (co_pendingReason opts) name))) false
    (Some (status_text from)) (Some (status_text to)));;
  emitTicketEvent w (ticket_event ticket i (Some (ac_userId actor))
    (StatusChanged from to (co_resolutionNote opts)));;
  audit (Some (tk_orgId ticket)) (ac_userId actor) "ticket.status_change" i;;
  mret row.

Definition changeTicketStatus (w : World) (i : uuid) (target : ChangeStatusTarget) (opts : ChangeStatusOptions)
    (actor : TicketActor) : TM Ticket :=
  change ← load_change i target;
  interleave w;;
  let '(ticket, (to, statusId, name)) := change in
  if bool_decide (to = status ticket ∧ statusId = sg_statusId (tk_stage ticket)) then mret ticket
  else if bool_decide (to = status ticket) then relabel w i ticket statusId name actor
  else transition w i ticket to statusId name opts actor.

(** ** updateTicketFields *)

(** [None] is a field that was not sent, [Some None] one that was sent as [null]. *)
Record UpdateTicketFieldsInput := {
  uf_subject : option string; uf_description : option string; uf_categoryId : option (option uuid);
  uf_priority : option TicketSlaPriority; uf_dueDate : option (option Z);
  uf_responseSlaMinutes : option (option Z); uf_resolutionSlaMinutes : option (option Z);
  uf_deviceId : option (option uuid); uf_tags : option (list string);
  uf_submittedBy : option (option uuid); uf_submitterName : option (option string);
  uf_submitterEmail : option (option string) }.

Inductive DiffFieldKey :=
| k_subject | k_description | k_categoryId | k_priority | k_dueDate | k_responseSlaMinutes
| k_resolutionSlaMinutes | k_deviceId | k_tags.
#[export] Instance DiffFieldKey_eq_dec : EqDecision DiffFieldKey.
Proof. solve_decision. Defined.
Definition diff_keys : list DiffFieldKey :=
  [k_subject; k_description; k_categoryId; k_priority; k_dueDate; k_responseSlaMinutes;
   k_resolutionSlaMinutes; k_deviceId; k_tags].

(** The key itself, and its label. *)
Definition key_name (k : DiffFieldKey) : string :=
  match k with
  | k_subject => "subject" | k_description => "description" | k_categoryId => "categoryId"
  | k_priority => "priority" | k_dueDate => "dueDate" | k_responseSlaMinutes => "responseSlaMinutes"
  | k_resolutionSlaMinutes => "resolutionSlaMinutes" | k_deviceId => "deviceId" | k_tags => "tags"
  end.
Definition UPDATE_FIELD_LABELS (k : DiffFieldKey) : string :=
  match k with
  | k_subject => "subject" | k_description => "description" | k_categoryId => "category"
  | k_priority => "priority" | k_dueDate => "due date" | k_responseSlaMinutes => "response SLA"
  | k_resolutionSlaMinutes => "resolution SLA" | k_deviceId => "device" | k_tags => "tags"
  end.

(** Sent, and different from the column; a list of tags that is [null] counts as empty. *)
Definition differs {A} `{EqDecision A} (sent : option A) (column : A) : bool :=
  match sent with Some v => negb (bool_decide (v = column)) | None => false end.
Definition ticketFieldChanged (f : UpdateTicketFieldsInput) (t : Fields) (k : DiffFieldKey) : bool :=
  match k with
  | k_subject => differs (uf_subject f) (fl_subject t)
  | k_description => differs (Some <$> uf_description f) (fl_description t)
  | k_categoryId => differs (uf_categoryId f) (fl_categoryId t)
  | k_priority => differs (uf_priority f) (fl_priority t)
  | k_dueDate => differs (uf_dueDate f) (fl_dueDate t)
  | k_responseSlaMinutes => differs (uf_responseSlaMinutes f) (fl_responseSlaMinutes t)
  | k_resolutionSlaMinutes => differs (uf_resolutionSlaMinutes f) (fl_resolutionSlaMinutes t)
  | k_deviceId => differs (uf_deviceId f) (fl_deviceId t)
  | k_tags => differs (uf_tags f) (default [] (fl_tags t))
  end.

Record RequesterPatch := {
  rp_submittedBy : option (option uuid); rp_submitterName : option (option string);
  rp_submitterEmail : option (option string) }.

(** Picking a portal user fills in the name and address that were not sent. *)
Definition requester_patch (f : UpdateTicketFieldsInput) (orgId : uuid) : TM RequesterPatch :=
  match uf_submittedBy f with
  | Some (Some u) =>
      p ← assertRequesterInOrg u orgId;
      mret {| rp_submittedBy := Some (Some u);
              rp_submitterName := Some (default (pu_name p) (uf_submitterName f));
              rp_submitterEmail := Some (default (Some (pu_email p)) (uf_submitterEmail f)) |}
  | sent => mret {| rp_submittedBy := sent; rp_submitterName := uf_submitterName f;
                    rp_submitterEmail := uf_submitterEmail f |}
  end.
Definition requester_changed (p : RequesterPatch) (t : Fields) : bool :=
  differs (rp_submittedBy p) (fl_submittedBy t) || differs (rp_submitterName p) (fl_submitterName t)
  || differs (rp_submitterEmail p) (fl_submitterEmail t).

(** The row with the changed fields, and the requester when it changed. *)
Definition patched {A} (b : bool) (sent : option A) (column : A) : A :=
  if b then default column sent else column.
Definition patch_fields (f : UpdateTicketFieldsInput) (changed : list DiffFieldKey)
    (who : RequesterPatch) (requester : bool) (t : Fields) : Fields :=
  let on k := bool_decide (k ∈ changed) in
  {| fl_subject := patched (on k_subject) (uf_subject f) (fl_subject t);
     fl_description := patched (on k_description) (Some <$> uf_description f) (fl_description t);
     fl_categoryId := patched (on k_categoryId) (uf_categoryId f) (fl_categoryId t);
     fl_priority := patched (on k_priority) (uf_priority f) (fl_priority t);
     fl_dueDate := patched (on k_dueDate) (uf_dueDate f) (fl_dueDate t);
     fl_responseSlaMinutes := patched (on k_responseSlaMinutes) (uf_responseSlaMinutes f) (fl_responseSlaMinutes t);
     fl_resolutionSlaMinutes :=
       patched (on k_resolutionSlaMinutes) (uf_resolutionSlaMinutes f) (fl_resolutionSlaMinutes t);
     fl_deviceId := patched (on k_deviceId) (uf_deviceId f) (fl_deviceId t);
     fl_tags := patched (on k_tags) (Some <$> uf_tags f) (fl_tags t);
     fl_submittedBy := patched requester (rp_submittedBy who) (fl_submittedBy t);
     fl_submitterName := patched requester (rp_submitterName who) (fl_submitterName t);
     fl_submitterEmail := patched requester (rp_submitterEmail who) (fl_submitterEmail t) |}.

Definition join_labels (l : list string) : string :=
  match l with [] => "" | s :: rest => fold_left (λ acc x, acc +:+ ", " +:+ x) rest s end.

(** [JSON.stringify(v ?? null)] of an id or a priority. *)
Definition quoted (v : option string) : string :=
  match v with
  | Some s => of_chars ("034"%char :: chars s ++ ["034"%char])
  | None => "null"
  end.
Definition ticketTriageDedupeKey (field : string) (old new : option string) : string :=
  field +:+ ":" +:+ quoted old +:+ ":" +:+ quoted new.

Definition updateTicketFields (w : World) (i : uuid) (f : UpdateTicketFieldsInput) (actor : TicketActor)
    : TM Ticket :=
  ticket ← getTicketOrThrow i;
  (match uf_deviceId f with Some (Some dev) => assert_device_in_org dev (tk_orgId ticket) | _ => mret tt end);;
  (match uf_categoryId f with
   | Some (Some c) =>
       p ← resolveTicketPartnerId ticket; assertCategoryInPartner c p;; mret tt
   | _ => mret tt
   end);;
  who ← requester_patch f (tk_orgId ticket);
  let requester := requester_changed who (tk_fields ticket) in
  let changed := filter (λ k, ticketFieldChanged f (tk_fields ticket) k = true) diff_keys in
  if bool_decide (changed = []) && negb requester then mret ticket
  else
    let extra := if requester then ["requester"]%string else [] in
    updated ← update_ticket i (λ _, true)
                (λ t, set_fields (patch_fields f changed who requester (tk_fields t)) t);
    row ← of_option updated TICKET_NOT_FOUND;
    insert_comment (staff_entry w i actor ct_system
      ("Updated " +:+ join_labels ((UPDATE_FIELD_LABELS <$> changed) ++ extra)) false None None);;
    emitTicketEvent w (ticket_event ticket i (Some (ac_userId actor)) (Updated ((key_name <$> changed) ++ extra)));;
    audit (Some (tk_orgId ticket)) (ac_userId actor) "ticket.update" i;;
    (if bool_decide (k_categoryId ∈ changed) then
       emitTicketTriageFeedback w (tk_orgId ticket) i "ticket.category_changed"
         (ticketTriageDedupeKey "categoryId" (uuid_text <$> fl_categoryId (tk_fields ticket))
            (uuid_text <$> fl_categoryId (tk_fields row))) (ac_suggestion actor)
     else mret tt);;
    (if bool_decide (k_priority ∈ changed) then
       emitTicketTriageFeedback w (tk_orgId ticket) i "ticket.priority_changed"
         (ticketTriageDedupeKey "priority" (Some (priority_text (fl_priority (tk_fields ticket))))
            (Some (priority_text (fl_priority (tk_fields row))))) (ac_suggestion actor)
     else mret tt);;
    mret row.

(** ** assignTicket *)

Definition with_status (s : TicketStatus) (g : Stage) : Stage :=
  {| sg_status := s; sg_statusId := sg_statusId g; sg_resolvedAt := sg_resolvedAt g;
     sg_closedAt := sg_closedAt g; sg_closedBy := sg_closedBy g; sg_resolutionNote := sg_resolutionNote g;
     sg_pendingReason := sg_pendingReason g; sg_slaPausedAt := sg_slaPausedAt g;
     sg_slaPausedMinutes := sg_slaPausedMinutes g |}.

(** Assigning a new ticket opens it. *)
Definition assigned (ticket : Ticket) (assigneeId : option uuid) (t : Ticket) : Ticket :=
  set_assignee assigneeId
    (if bool_decide (assigneeId ≠ None ∧ status ticket = st_new) then with_status st_open (tk_stage t)
     else tk_stage t) t.

(** The ticket, with an assignee of its partner. *)
Definition load_assignment (i : uuid) (assigneeId : option uuid) : TM Ticket :=
  ticket ← getTicketOrThrow i;
  (match assigneeId with
   | Some a => p ← resolveTicketPartnerId ticket; assertAssigneeInPartner a p
   | None => mret tt
   end);;
  mret ticket.

Definition assignTicket (w : World) (i : uuid) (assigneeId : option uuid) (actor : TicketActor) : TM Ticket :=
  ticket ← load_assignment i assigneeId;
  interleave w;;
  let prev := tk_assignedTo ticket in
  updated ← update_ticket i (λ t, bool_decide (tk_assignedTo t = prev)) (assigned ticket assigneeId);
  row ← of_option updated CONCURRENT_MODIFICATION;
  insert_comment (staff_entry w i actor ct_assignment "" false (uuid_text <$> prev) (uuid_text <$> assigneeId));;
  emitTicketEvent w (ticket_event ticket i (Some (ac_userId actor)) (Assigned assigneeId));;
  audit (Some (tk_orgId ticket)) (ac_userId actor) "ticket.assign" i;;
  emitTicketTriageFeedback w (tk_orgId ticket) i "ticket.assignee_changed"
    (ticketTriageDedupeKey "assignedTo" (uuid_text <$> prev) (uuid_text <$> assigneeId)) (ac_suggestion actor);;
  mret row.

(** ** Comments *)

(** The first public answer of a technician is stamped. *)
Definition addTicketComment (w : World) (i : uuid) (content : string) (isPublic : bool) (actor : TicketActor)
    : TM (uuid * bool) :=
  ticket ← getTicketOrThrow i;
  c ← insert_comment (staff_entry w i actor (if isPublic then ct_comment else ct_internal) content isPublic
        None None);
  let stamp := isPublic && bool_decide (tk_firstResponseAt ticket = None) in
  (if stamp then update_ticket i (λ _, true) (set_first_response (w_now w));; mret tt else mret tt);;
  emitTicketEvent w (ticket_event ticket i (Some (ac_userId actor)) (Commented c isPublic false));;
  audit (Some (tk_orgId ticket)) (ac_userId actor) "ticket.comment" i;;
  mret (c, stamp).

Definition SYSTEM_COMMENT_TYPES : list CommentType := [ct_status_change; ct_assignment; ct_time_entry; ct_system].

Definition loadCommentWithTicket (c : uuid) : TM (Comment * Ticket) :=
  comment ← query (λ d, comments d !! c);
  comment ← of_option comment COMMENT_NOT_FOUND;
  ticket ← getTicketOrThrow (cm_ticketId comment);
  mret (comment, ticket).

Definition assertCommentEditable (comment : Comment) (actor : TicketActor) (canManageAny : bool) : TM unit :=
  require (negb (bool_decide (cm_commentType comment ∈ SYSTEM_COMMENT_TYPES))) SYSTEM_COMMENT;;
  require (bool_decide (cm_deletedAt comment = None)) COMMENT_DELETED;;
  require (bool_decide (cm_userId comment = Some (ac_userId actor)) || canManageAny) NOT_YOUR_COMMENT.

Definition edit_row (content : string) (editedAt deletedAt : option Z) (c : Comment) : Comment :=
  {| cm_ticketId := cm_ticketId c; cm_userId := cm_userId c; cm_portalUserId := cm_portalUserId c;
     cm_authorName := cm_authorName c; cm_authorType := cm_authorType c; cm_commentType := cm_commentType c;
     cm_content := content; cm_isPublic := cm_isPublic c; cm_oldValue := cm_oldValue c;
     cm_newValue := cm_newValue c; cm_deletedAt := deletedAt; cm_editedAt := editedAt;
     cm_createdAt := cm_createdAt c |}.
Definition update_comment (c : uuid) (f : Comment → Comment) : TM (option Comment) :=
  write (λ d, match comments d !! c with
              | Some r => (Some (f r), set_feed (<[c := f r]> (comments d)) (links d) (next d) d)
              | None => (None, d)
              end).

(** [opts.expectedTicketId], when given, must be the ticket of the comment. *)
Definition expected (expectedTicketId : option uuid) (comment : Comment) : bool :=
  match expectedTicketId with Some i => bool_decide (cm_ticketId comment = i) | None => true end.

Definition editTicketComment (w : World) (c : uuid) (content : string) (actor : TicketActor)
    (canManageAny : bool) (expectedTicketId : option uuid) : TM Comment :=
  found ← loadCommentWithTicket c;
  require (expected expectedTicketId found.1) COMMENT_NOT_FOUND;;
  assertCommentEditable found.1 actor canManageAny;;
  updated ← update_comment c (λ r, edit_row content (Some (w_now w)) (cm_deletedAt r) r);
  row ← of_option updated COMMENT_NOT_FOUND;
  audit (Some (tk_orgId found.2)) (ac_userId actor) "ticket.comment.edit" (cm_ticketId found.1);;
  mret row.

Definition deleteTicketComment (w : World) (c : uuid) (actor : TicketActor) (canManageAny : bool)
    (expectedTicketId : option uuid) : TM uuid :=
  found ← loadCommentWithTicket c;
  require (expected expectedTicketId found.1) COMMENT_NOT_FOUND;;
  assertCommentEditable found.1 actor canManageAny;;
  updated ← update_comment c (λ r, edit_row (cm_content r) (cm_editedAt r) (Some (w_now w)) r);
  of_option updated COMMENT_DELETED;;
  audit (Some (tk_orgId found.2)) (ac_userId actor) "ticket.comment.delete" (cm_ticketId found.1);;
  mret c.

(** ** Alerts *)

Definition SEVERITY_TO_PRIORITY (severity : string) : option TicketSlaPriority :=
  if bool_decide (severity = "critical"%string) then Some urgent
  else if bool_decide (severity = "high"%string) then Some high
  else if bool_decide (severity = "medium"%string) then Some normal
  else if bool_decide (severity = "low"%string ∨ severity = "info"%string) then Some low
  else None.

(** [INSERT ... ON CONFLICT DO NOTHING RETURNING *]. *)
Definition insert_link (i alertId : uuid) (l : Link) : TM (option Link) :=
  write (λ d, match links d !! (i, alertId) with
              | Some _ => (None, d)
              | None => (Some l, set_feed (comments d) (<[(i, alertId) := l]> (links d)) (next d) d)
              end).

Definition linkAlertToTicket (w : World) (i alertId : uuid) (actor : TicketActor) (ty : LinkType) : TM Link :=
  ticket ← getTicketOrThrow i;
  alert ← query (λ d, alertRows (dir d) !! alertId);
  alert ← of_option alert ALERT_NOT_FOUND;
  require (bool_decide (at_orgId alert = tk_orgId ticket)) ALERT_WRONG_ORG;;
  inserted ← insert_link i alertId
    {| lk_orgId := tk_orgId ticket; lk_linkType := ty; lk_createdBy := ac_userId actor |};
  link ← of_option inserted ALREADY_LINKED;
  insert_comment (staff_entry w i actor ct_system ("Linked alert: " +:+ at_title alert) false None
    (Some (uuid_text alertId)));;
  audit (Some (tk_orgId ticket)) (ac_userId actor) "ticket.alert_link" i;;
  mret link.

Definition unlinkAlertFromTicket (w : World) (i alertId : uuid) (actor : TicketActor) : TM unit :=
  ticket ← getTicketOrThrow i;
  deleted ← write (λ d, (links d !! (i, alertId),
                         set_feed (comments d) (delete (i, alertId) (links d)) (next d) d));
  of_option deleted LINK_NOT_FOUND;;
  insert_comment (staff_entry w i actor ct_system "Unlinked alert" false (Some (uuid_text alertId)) None);;
  audit (Some (tk_orgId ticket)) (ac_userId actor) "ticket.alert_unlink" i.

Record AlertOverrides := {
  ov_subject : option string; ov_description : option string; ov_categoryId : option uuid;
  ov_priority : option TicketSlaPriority; ov_assigneeId : option uuid }.

Definition createTicketFromAlert (w : World) (alertId : uuid) (actor : TicketActor) (o : AlertOverrides)
    : TM (uuid * Ticket) :=
  alert ← query (λ d, alertRows (dir d) !! alertId);
  alert ← of_option alert ALERT_NOT_FOUND;
  ticket ← createTicket w
    {| ci_orgId := at_orgId alert; ci_subject := default (at_title alert) (ov_subject o);
       ci_description := or_else (ov_description o) (at_message alert); ci_deviceId := Some (at_deviceId alert);
       ci_categoryId := ov_categoryId o;
       ci_priority := Some (default normal (or_else (ov_priority o) (SEVERITY_TO_PRIORITY (at_severity alert))));
       ci_dueDate := None; ci_assigneeId := ov_assigneeId o; ci_source := src_alert;
       ci_submittedBy := None; ci_submitterEmail := None; ci_submitterName := None |} actor;
  try_catch (linkAlertToTicket w ticket.1 alertId actor created_from;; mret tt) (λ _, throw LINK_FAILED);;
  mret ticket.

(** ** moveTicketOrg *)

(** The tables of [TICKET_ORG_DENORMALIZED_TABLES]: their rows of a ticket follow it. *)
Definition move_entries (i orgId : uuid) (d : Desk) : Desk :=
  set_work ((λ e, if bool_decide (e.1 = Some i) then (e.1, Some orgId) else e) <$> timeEntryOrgs d) (partOrgs d) d.
Definition move_parts (i orgId : uuid) (d : Desk) : Desk :=
  set_work (timeEntryOrgs d) ((λ p, if bool_decide (p.1 = i) then (p.1, orgId) else p) <$> partOrgs d) d.
Definition move_links (i orgId : uuid) (d : Desk) : Desk :=
  set_feed (comments d)
    (map_imap (λ k l, Some (if bool_decide (k.1 = i)
                            then {| lk_orgId := orgId; lk_linkType := lk_linkType l; lk_createdBy := lk_createdBy l |}
                            else l)) (links d)) (next d) d.

Definition without_device (f : Fields) : Fields :=
  {| fl_subject := fl_subject f; fl_description := fl_description f; fl_categoryId := fl_categoryId f;
     fl_priority := fl_priority f; fl_dueDate := fl_dueDate f; fl_responseSlaMinutes := fl_responseSlaMinutes f;
     fl_resolutionSlaMinutes := fl_resolutionSlaMinutes f; fl_deviceId := None; fl_tags := fl_tags f;
     fl_submittedBy := fl_submittedBy f; fl_submitterName := fl_submitterName f;
     fl_submitterEmail := fl_submitterEmail f |}.

Definition moveTicketOrg (w : World) (i targetOrgId : uuid) (actor : TicketActor) : TM Ticket :=
  ticket ← getTicketOrThrow i;
  if bool_decide (tk_orgId ticket = targetOrgId) then mret ticket
  else
    rows ← query (λ d, (orgs (dir d) !! tk_orgId ticket, orgs (dir d) !! targetOrgId));
    targetOrg ← of_option rows.2 TARGET_ORG_NOT_FOUND;
    require (bool_decide (og_partnerId <$> rows.1 = Some (og_partnerId targetOrg))) MOVE_ACROSS_PARTNERS;;
    updated ← savepoint (
      updated ← update_ticket i (λ _, true) (λ t, set_org targetOrgId (without_device (tk_fields t)) t);
      write (λ d, (tt, move_entries i targetOrgId d));;
      write (λ d, (tt, move_parts i targetOrgId d));;
      write (λ d, (tt, move_links i targetOrgId d));;
      insert_comment (staff_entry w i actor ct_system ("Moved to " +:+ og_name targetOrg) false None None);;
      mret updated);
    row ← of_option updated TICKET_NOT_FOUND;
    emitTicketEvent w {| te_ticketId := i; te_orgId := Some targetOrgId; te_partnerId := tk_partnerId ticket;
                         te_actorUserId := Some (ac_userId actor); te_payload := Updated ["orgId"%string] |};;
    audit (Some (tk_orgId ticket)) (ac_userId actor) "ticket.move_org.source" i;;
    audit (Some targetOrgId) (ac_userId actor) "ticket.move_org.target" i;;
    mret row.

(** ** The customer portal *)

Record PortalSession := { pt_id : uuid; pt_orgId : uuid; pt_email : string; pt_name : option string }.
Definition portal_actor (u : PortalSession) : TicketActor :=
  {| ac_userId := pt_id u; ac_name := Some (default (pt_email u) (pt_name u)); ac_suggestion := false |}.

(** [POST /tickets]. *)
Definition portal_create (w : World) (u : PortalSession) (subject : string) (description : option string)
    (priority : option TicketSlaPriority) : TM (uuid * Ticket) :=
  created ← createTicket w
    {| ci_orgId := pt_orgId u; ci_subject := subject; ci_description := description; ci_deviceId := None;
       ci_categoryId := None; ci_priority := priority; ci_dueDate := None; ci_assigneeId := None;
       ci_source := src_portal; ci_submittedBy := Some (pt_id u); ci_submitterEmail := Some (pt_email u);
       ci_submitterName := Some (default (pt_email u) (pt_name u)) |} (portal_actor u);
  audit (Some (pt_orgId u)) (pt_id u) "portal.ticket.create" created.1;;
  mret created.

(** [POST /tickets/:id/comments]: only on a ticket the customer opened. *)
Definition portal_comment (w : World) (u : PortalSession) (i : uuid) (content : string) : TM uuid :=
  ticket ← query (λ d, tickets d !! i);
  ticket ← of_option ticket TICKET_NOT_FOUND;
  require (bool_decide (tk_orgId ticket = pt_orgId u ∧ fl_submittedBy (tk_fields ticket) = Some (pt_id u)))
    TICKET_NOT_FOUND;;
  c ← insert_comment
    {| cm_ticketId := i; cm_userId := None; cm_portalUserId := Some (pt_id u);
       cm_authorName := Some (default (pt_email u) (pt_name u)); cm_authorType := Some by_portal;
       cm_commentType := ct_comment; cm_content := content; cm_isPublic := true; cm_oldValue := None;
       cm_newValue := None; cm_deletedAt := None; cm_editedAt := None; cm_createdAt := w_now w |};
  audit (Some (pt_orgId u)) (pt_id u) "portal.ticket.comment.create" c;;
  mret c.

Inductive Mutability := mutable | not_found | not_author | staff_replied.
#[export] Instance Mutability_eq_dec : EqDecision Mutability.
Proof. solve_decision. Defined.

(** Of the later comments at most 50 are looked at, in no particular order. *)
Definition portalCommentMutable (c portalUserId : uuid) : TM Mutability :=
  comment ← query (λ d, comments d !! c);
  match comment with
  | None => mret not_found
  | Some comment =>
      if bool_decide (cm_deletedAt comment ≠ None) then mret not_found
      else if negb (bool_decide (cm_portalUserId comment = Some portalUserId)) then mret not_author
      else
        later ← query (λ d, take 50 (filter (λ r, cm_ticketId r.2 = cm_ticketId comment ∧
                                                  cm_createdAt comment < cm_createdAt r.2)
                                       (map_to_list (comments d))));
        mret (if existsb (λ r : uuid * Comment, negb (bool_decide (cm_authorType r.2 = Some by_portal))) later
              then staff_replied else mutable)
  end.

(** [PATCH] and [DELETE] of [/tickets/:id/comments/:commentId]. *)
Definition assert_mutable (c : uuid) (u : PortalSession) : TM unit :=
  m ← portalCommentMutable c (pt_id u);
  match m with
  | mutable => mret tt
  | staff_replied => throw CONCURRENT_MODIFICATION
  | not_found | not_author => throw TICKET_NOT_FOUND
  end.
Definition portal_edit_comment (w : World) (u : PortalSession) (i c : uuid) (content : string) : TM Comment :=
  require (Z.of_nat (String.length content) <=? 5000) INVALID_INPUT;;
  assert_mutable c u;;
  row ← editTicketComment w c content (portal_actor u) true (Some i);
  audit (Some (pt_orgId u)) (pt_id u) "portal.ticket.comment.edit" c;;
  mret row.
Definition portal_delete_comment (w : World) (u : PortalSession) (i c : uuid) : TM unit :=
  assert_mutable c u;;
  deleteTicketComment w c (portal_actor u) true (Some i);;
  audit (Some (pt_orgId u)) (pt_id u) "portal.ticket.comment.delete" c.

(** ** The SLA sweep *)

Definition MAX_BREACHES_PER_RUN : nat := 200.

Definition target_minutes (k : SlaTargetKind) (t : Ticket) : option Z :=
  match k with
  | response => fl_responseSlaMinutes (tk_fields t)
  | resolution => fl_resolutionSlaMinutes (tk_fields t)
  end.
Definition unmet (k : SlaTargetKind) (t : Ticket) : Prop :=
  match k with
  | response => tk_firstResponseAt t = None
  | resolution => sg_resolvedAt (tk_stage t) = None
  end.

(** [target = ANY(string_to_array(COALESCE(sla_breach_reason, ''), ','))]. *)
Definition reported (k : SlaTargetKind) (t : Ticket) : Prop :=
  kind_text k ∈ Prelude.split "," (default ""%string (br_reason (tk_breach t))).

(** When the target falls due: the pauses folded so far are added. *)
Definition due_at (k : SlaTargetKind) (t : Ticket) : option Z :=
  m ← target_minutes k t;
  Some (tk_createdAt t + (m + default 0 (sg_slaPausedMinutes (tk_stage t))) * 60000).

Definition is_due (now : Z) (k : SlaTargetKind) (t : Ticket) : Prop :=
  status t ∈ [st_new; st_open] ∧ sg_slaPausedAt (tk_stage t) = None ∧ unmet k t ∧ ¬ reported k t ∧
  match due_at k t with Some at_ => at_ <= now | None => False end.
#[export] Instance is_due_dec now k t : Decision (is_due now k t).
Proof. unfold is_due, unmet, reported. destruct k, (due_at _ t); apply _. Defined.

Definition stamp (now : Z) (k : SlaTargetKind) (t : Ticket) : Ticket :=
  set_breach
    {| br_at := Some (default now (br_at (tk_breach t)));
       br_reason := Some (match default ""%string (br_reason (tk_breach t)) with
                          | EmptyString => kind_text k
                          | r => r +:+ "," +:+ kind_text k
                          end) |} t.

Definition oldest_first (a b : uuid * Ticket) : Prop := tk_createdAt a.2 <= tk_createdAt b.2.
#[export] Instance oldest_first_dec a b : Decision (oldest_first a b).
Proof. unfold oldest_first. apply _. Defined.
Definition due_tickets (now : Z) (k : SlaTargetKind) (d : Desk) : list (uuid * Ticket) :=
  take MAX_BREACHES_PER_RUN (merge_sort oldest_first (filter (λ r, is_due now k r.2) (map_to_list (tickets d)))).

Definition stampBreaches (w : World) (k : SlaTargetKind) : TM (list (uuid * Ticket)) :=
  write (λ d, let due := due_tickets (w_now w) k d in
    ((λ r, (r.1, stamp (w_now w) k r.2)) <$> due,
     set_tickets (λ m, fold_left (λ m r, <[r.1 := stamp (w_now w) k r.2]> m) due m) (next d) d)).

Definition sweepTicketSlaBreaches (w : World) : TM (list (uuid * Ticket * SlaTargetKind)) :=
  rs ← stampBreaches w response;
  ss ← stampBreaches w resolution;
  mret (((λ r, (r, response)) <$> rs) ++ ((λ r, (r, resolution)) <$> ss)).

Definition notify_breach (w : World) (r : uuid * Ticket * SlaTargetKind) : list Effect :=
  let '(i, t, k) := r in
  if w_bus w then
    [Event (ticket_event t i None (SlaBreached k (tk_internalNumber t) (fl_subject (tk_fields t)) (tk_assignedTo t)));
     BusEvent (tk_orgId t) i k]
  else [].

(** The job: notifications are sent once the stamps are committed. *)
Definition sla_sweep (w : World) (faults : list bool) (d : Desk) : outcome TicketError nat * Desk * list Effect :=
  match sweepTicketSlaBreaches w (begin_tx d faults) with
  | (Ok rows, t) => (Ok (length rows), committed t, rows ≫= notify_breach w)
  | (Throw e, t) => (Throw e, tx_base t, [])
  end.
