(* ===== verification/InboundEmail.v ===== *)
(** * Tickets by mail ([services/inboundEmail], [jobs/inboundEmailWorker.ts], the review queue
    of [services/ticketConfigService.ts])

    A mail that reaches the desk is given to a partner by its recipient and nothing else,
    appended to the ticket it answers or made a new one, and logged in [ticket_email_inbound]
    once per partner and message.  The job runs in one transaction and swallows every error
    after logging it on another connection. *)

From S2P Require Import Prelude JsNum Json TicketSla TicketDesk Tickets.

Open Scope Z_scope.

Record NormalizedInboundEmail := {
  em_providerMessageId : string; em_to : string; em_from : string; em_fromName : option string;
  em_subject : string; em_text : string; em_messageId : option string; em_inReplyTo : option string;
  em_references : option (list string); em_autoSubmitted : option string; em_precedence : option string;
  em_verified : bool;                      (* [senderAuth?.verified] *)
  em_raw : json }.

(** The synthetic user of the pipeline. *)
Definition SYSTEM_ACTOR : TicketActor :=
  {| ac_userId := 0%nat; ac_name := Some "Inbound Email"%string; ac_suggestion := false |}.

(** ** Addresses *)

(** The texts before and after the first occurrence of a character. *)
Fixpoint cut_at (c : ascii) (l : list ascii) : option (list ascii * list ascii) :=
  match l with
  | [] => None
  | x :: l' => if Ascii.eqb x c then Some ([], l')
               else '(a, b) ← cut_at c l'; Some (x :: a, b)
  end.
Definition first_at (s : string) : option (string * string) :=
  '(a, b) ← cut_at "@" (chars s); Some (of_chars a, of_chars b).
Definition after_last_at (s : string) : option string :=
  '(a, b) ← cut_at "@" (reverse (chars s)); Some (of_chars (reverse a)).

Definition senderDomain (addr : string) : string :=
  default ""%string (after_last_at (toLowerCase (trim addr))).

(** [domainOf] of resolveOrg.ts. *)
Definition domainOf (addr : string) : option string :=
  d ← after_last_at addr;
  match toLowerCase (trim d) with EmptyString => None | s => Some s end.

(** ** The ticket number in a subject: [\bT-(\d{4})-(\d{4,})\b] *)

Definition is_word (c : ascii) : bool :=
  let n := nat_of_ascii c in
  is_digit c || ((65 <=? n) && (n <=? 90) || (97 <=? n) && (n <=? 122) || (n =? 95))%nat.
Fixpoint span_digits (l : list ascii) : list ascii * list ascii :=
  match l with
  | c :: l' => if is_digit c then let '(a, b) := span_digits l' in (c :: a, b) else ([], l)
  | [] => ([], [])
  end.

(** A token at the start of a text whose previous character is [prev]. *)
Definition token_here (prev : option ascii) (l : list ascii) : option (list ascii * list ascii) :=
  if match prev with Some c => is_word c | None => false end then None
  else match l with
       | "T"%char :: "-"%char :: rest =>
           let '(year, rest) := span_digits rest in
           match rest with
           | "-"%char :: rest =>
               let '(num, rest) := span_digits rest in
               if (Nat.eqb (length year) 4 && (4 <=? length num)%nat &&
                   negb (match rest with c :: _ => is_word c | [] => false end))%bool
               then Some ("T"%char :: "-"%char :: year ++ "-"%char :: num, rest)
               else None
           | _ => None
           end
       | _ => None
       end.

(** The first token, and the text without it. *)
Fixpoint find_token (prev : option ascii) (l : list ascii) : option (list ascii * list ascii) :=
  match token_here prev l with
  | Some (tok, rest) => Some (tok, rest)
  | None => match l with
            | [] => None
            | c :: l' => '(tok, rest) ← find_token (Some c) l'; Some (tok, c :: rest)
            end
  end.
Definition subject_token (subject : string) : option string := of_chars ∘ fst <$> find_token None (chars subject).
Definition without_token (subject : string) : string :=
  match find_token None (chars subject) with Some (_, rest) => of_chars rest | None => subject end.

(** [s.trim() || '(no subject)']. *)
Definition or_no_subject (s : string) : string :=
  match trim s with EmptyString => "(no subject)" | t => t end.

(** ** Resolving partner, organisation and sender *)

Definition resolvePartnerByRecipient (w : World) (recipient : string) : TM (option uuid) :=
  match first_at (toLowerCase (trim recipient)) with
  | None => mret None
  | Some (local, domain) =>
      dom ← query (λ d, inboundDomains (dir d) !! domain);
      match dom with
      | Some p => mret (Some p)
      | None =>
          if truthy (w_domain w) && bool_decide (w_domain w = Some domain)
          then query (λ d, fst <$> first_row (λ p, pn_slug p = local) (partners (dir d)))
          else mret None
      end
  end.

Definition resolveOrgBySenderDomain (from : string) (partnerId : uuid) : TM (option EmailDomain) :=
  match domainOf from with
  | None => mret None
  | Some domain =>
      query (λ d, snd <$> first_row (λ e, ed_partnerId e = partnerId ∧ ed_domain e = domain ∧ ed_isActive e = true)
                            (emailDomains d))
  end.

Definition findOrCreateEmailContact (orgId : uuid) (email : string) (name : option string) : TM uuid :=
  let lower := toLowerCase email in
  existing ← query (λ d, fst <$> first_row (λ u, pu_orgId u = orgId ∧ pu_email u = lower) (portalUsers d));
  match existing with
  | Some i => mret i
  | None =>
      write (λ d, (next d,
        set_contacts (<[next d := {| pu_orgId := orgId; pu_email := lower; pu_name := name;
                                     pu_status := "active" |}]> (portalUsers d)) (S (next d)) d))
  end.

(** A setting of [settings.ticketing.inbound]. *)
Definition inbound_setting (k : string) (p : option Partner) : option json :=
  p ← p;
  settings ← pn_settings p;
  ticketing ← field "ticketing" settings;
  inbound ← field "inbound" ticketing;
  field k inbound.

(** [triageUnknownSenders], and [defaultTriageOrgId] when it is neither [null] nor absent. *)
Definition loadPartnerInboundPolicy (partnerId : uuid) : TM (bool * option json) :=
  p ← query (λ d, partners (dir d) !! partnerId);
  mret (is_bool true (inbound_setting "triageUnknownSenders" p),
        match inbound_setting "defaultTriageOrgId" p with Some JNull => None | v => v end).

Definition sender_in_partner (email : string) (partnerId : uuid) (d : Desk) (u : PortalUser) : Prop :=
  pu_email u = toLowerCase email ∧ og_partnerId <$> orgs (dir d) !! pu_orgId u = Some partnerId.
#[export] Instance sender_in_partner_dec e p d u : Decision (sender_in_partner e p d u).
Proof. unfold sender_in_partner. apply _. Defined.
Definition findPortalUserInPartner (email : string) (partnerId : uuid) : TM (option (uuid * PortalUser)) :=
  query (λ d, first_row (sender_in_partner email partnerId d) (portalUsers d)).

(** ** The log *)

Definition inbound_row (n : NormalizedInboundEmail) (partnerId : option uuid) (s : InboundParseStatus)
    (ticketId : option uuid) (error : option string) : InboundRow :=
  {| ib_partnerId := partnerId; ib_messageKey := em_providerMessageId n; ib_from := em_from n;
     ib_to := em_to n; ib_subject := em_subject n; ib_status := s; ib_ticketId := ticketId;
     ib_error := error; ib_raw := em_raw n |}.

(** The unique index on partner and message; a row without partner is never a duplicate. *)
Definition is_logged (p : uuid) (key : string) (d : Desk) : Prop :=
  Exists (λ e, ib_partnerId e.2 = Some p ∧ ib_messageKey e.2 = key) (map_to_list (inbound d)).
#[export] Instance is_logged_dec p key d : Decision (is_logged p key d).
Proof. unfold is_logged. apply _. Defined.
Definition duplicate (r : InboundRow) (d : Desk) : bool :=
  match ib_partnerId r with Some p => bool_decide (is_logged p (ib_messageKey r) d) | None => false end.
Definition add_inbound (r : InboundRow) (d : Desk) : Desk := set_inbound <[next d := r]> (S (next d)) d.

Definition logInbound (n : NormalizedInboundEmail) (partnerId : option uuid) (s : InboundParseStatus)
    (ticketId : option uuid) (error : option string) : TM unit :=
  let r := inbound_row n partnerId s ticketId error in
  stmt (λ d, if duplicate r d then Throw PG_UNIQUE_VIOLATION else Ok (tt, add_inbound r d)).

(** On a connection of its own; its errors are swallowed. *)
Definition logInboundFailedDurable (n : NormalizedInboundEmail) (partnerId : option uuid) : TM unit :=
  let r := inbound_row n partnerId in_failed None (Some "error"%string) in
  try_catch (sys_write (λ d, if duplicate r d then Throw PG_UNIQUE_VIOLATION else Ok (tt, add_inbound r)))
    (λ _, mret tt).

(** ** Finding the ticket a mail answers *)

Definition candidateThreadKeys (n : NormalizedInboundEmail) : list string :=
  filter (λ k, k ≠ ""%string) (option_list (em_inReplyTo n) ++ default [] (em_references n)).

Definition key_in (keys : list string) (k : option string) : Prop := match k with Some s => s ∈ keys | None => False end.
#[export] Instance key_in_dec keys k : Decision (key_in keys k).
Proof. unfold key_in. destruct k; apply _. Defined.

(** The first ticket of the partner with a property. *)
Definition ticket_where (partnerId : uuid) (P : Ticket → Prop) `{!∀ t, Decision (P t)} : TM (option (uuid * Ticket)) :=
  query (λ d, first_row (λ t, tk_partnerId t = Some partnerId ∧ P t) (tickets d)).

(** By the headers, then by the number in the subject. *)
Definition by_thread_or_token (n : NormalizedInboundEmail) (partnerId : uuid) (stage : Ticket → Prop)
    (thread : list string → Ticket → Prop) `{!∀ t, Decision (stage t)} `{!∀ l t, Decision (thread l t)}
    : TM (option (uuid * Ticket)) :=
  let keys := candidateThreadKeys n in
  byThread ← match keys with
             | [] => mret None
             | _ => ticket_where partnerId (λ t, stage t ∧ thread keys t)
             end;
  match byThread, subject_token (em_subject n) with
  | Some t, _ => mret (Some t)
  | None, Some tok => ticket_where partnerId (λ t, stage t ∧ tk_internalNumber t = Some tok)
  | None, None => mret None
  end.

Definition findTicketInPartner (n : NormalizedInboundEmail) (partnerId : uuid) : TM (option (uuid * Ticket)) :=
  by_thread_or_token n partnerId (λ t, status t ≠ st_closed)
    (λ keys t, key_in keys (ml_threadKey (tk_mail t)) ∨ key_in keys (ml_messageId (tk_mail t))).
Definition findClosedTicketInPartner (n : NormalizedInboundEmail) (partnerId : uuid) : TM (option (uuid * Ticket)) :=
  by_thread_or_token n partnerId (λ t, status t = st_closed) (λ keys t, key_in keys (ml_threadKey (tk_mail t))).

(** ** Autoresponse *)

Definition SYSTEM_LOCALPARTS : list string := ["no-reply"; "noreply"; "mailer-daemon"; "postmaster"]%string.
Definition BULK_PRECEDENCE : list string := ["bulk"; "list"; "junk"]%string.

Inductive SuppressionReason := auto_submitted | bulk_precedence | system_sender | self_domain.

Definition autoresponseSuppressionReason (n : NormalizedInboundEmail) (inboundDomain : option string)
    : option SuppressionReason :=
  let norm s := toLowerCase (trim s) in
  let '(localPart, domain) := match first_at (norm (em_from n)) with Some p => p | None => (norm (em_from n), ""%string) end in
  if truthy (em_autoSubmitted n) && negb (bool_decide (norm <$> em_autoSubmitted n = Some "no"%string))
  then Some auto_submitted
  else if bool_decide (key_in BULK_PRECEDENCE (norm <$> em_precedence n)) then Some bulk_precedence
  else if bool_decide (localPart ∈ SYSTEM_LOCALPARTS) then Some system_sender
  else if truthy inboundDomain && bool_decide (norm <$> inboundDomain = Some domain) then Some self_domain
  else None.

(** The read of the settings is part of the transaction; its error is swallowed here. *)
Definition autoresponderEnabled (partnerId : uuid) : TM bool :=
  try_catch (p ← query (λ d, partners (dir d) !! partnerId);
             mret (negb (is_bool false (inbound_setting "autoresponderEnabled" p))))
    (λ _, mret false).

Definition maybeSendAutoresponse (w : World) (n : NormalizedInboundEmail) (partnerId : uuid) (ticketId orgId : uuid)
    (number : option string) (subject : string) : TM unit :=
  match autoresponseSuppressionReason n (w_domain w) with
  | Some _ => mret tt
  | None =>
      enabled ← autoresponderEnabled partnerId;
      if negb enabled then mret tt
      else if negb (w_cap w ("autoresponse:" +:+ toLowerCase (trim (em_from n)))) then mret tt
      else emitTicketEvent w
             {| te_ticketId := ticketId; te_orgId := Some orgId; te_partnerId := Some partnerId;
                te_actorUserId := None; te_payload := Autoresponse (em_from n) number subject |}
  end.

(** ** Writing *)

Definition newline : ascii := "010"%char.
Definition continued (number text : string) : string :=
  "Re: " +:+ number +:+ " (continued)" +:+ String newline (String newline text).

Definition createFromEmail (w : World) (n : NormalizedInboundEmail) (partnerId orgId : uuid)
    (carryThreadKey priorNumber : option string) (submittedBy : option uuid) : TM uuid :=
  orgOk ← query (λ d, og_partnerId <$> orgs (dir d) !! orgId);
  require (bool_decide (orgOk = Some partnerId)) ORG_NOT_IN_PARTNER;;
  ticket ← createTicket w
    {| ci_orgId := orgId; ci_subject := or_no_subject (without_token (em_subject n));
       ci_description := Some (match priorNumber with
                               | Some (String _ _ as p) => continued p (em_text n) | _ => em_text n end);
       ci_deviceId := None; ci_categoryId := None; ci_priority := None; ci_dueDate := None;
       ci_assigneeId := None; ci_source := src_email; ci_submittedBy := submittedBy;
       ci_submitterEmail := Some (em_from n); ci_submitterName := em_fromName n |} SYSTEM_ACTOR;
  let anchor := if truthy (w_domain w)
                then (λ d, "<ticket-" +:+ uuid_text ticket.1 +:+ "@" +:+ d +:+ ">") <$> w_domain w
                else em_messageId n in
  update_ticket ticket.1 (λ _, true)
    (set_mail {| ml_messageId := em_messageId n; ml_threadKey := or_else carryThreadKey anchor |});;
  (match submittedBy with
   | Some _ =>
       if truthy priorNumber then mret tt
       else
         persisted ← query (λ d, tickets d !! ticket.1);
         maybeSendAutoresponse w n partnerId ticket.1 orgId (persisted ≫= tk_internalNumber)
           (default ""%string ((λ t, fl_subject (tk_fields t)) <$> persisted))
   | None => mret tt
   end);;
  mret ticket.1.

Definition appendInboundComment (w : World) (i : uuid) (n : NormalizedInboundEmail) (partnerId : uuid) : TM unit :=
  sender ← findPortalUserInPartner (em_from n) partnerId;
  c ← insert_comment
    {| cm_ticketId := i; cm_userId := None; cm_portalUserId := fst <$> sender;
       cm_authorName := Some (default (em_from n) (or_else (sender ≫= λ s, pu_name s.2) (em_fromName n)));
       cm_authorType := Some by_email; cm_commentType := ct_comment; cm_content := em_text n;
       cm_isPublic := true; cm_oldValue := None; cm_newValue := None; cm_deletedAt := None;
       cm_editedAt := None; cm_createdAt := w_now w |};
  emitTicketEvent w {| te_ticketId := i; te_orgId := None; te_partnerId := Some partnerId;
                       te_actorUserId := None; te_payload := Commented c true true |}.

Definition reopened (s : Stage) : Stage :=
  {| sg_status := st_open; sg_statusId := sg_statusId s; sg_resolvedAt := None; sg_closedAt := sg_closedAt s;
     sg_closedBy := sg_closedBy s; sg_resolutionNote := sg_resolutionNote s;
     sg_pendingReason := sg_pendingReason s; sg_slaPausedAt := sg_slaPausedAt s;
     sg_slaPausedMinutes := sg_slaPausedMinutes s |}.
Definition reopenResolvedTicket (i partnerId : uuid) : TM unit :=
  update_ticket i (λ t, bool_decide (tk_partnerId t = Some partnerId) && bool_decide (status t = st_resolved))
    (λ t, set_stage (reopened (tk_stage t)) t);;
  mret tt.

(** ** processInboundEmail *)

(** A [uuid] sent to the database as text: anything else is an error of the statement. *)
Definition parse_uuid (v : json) : option uuid :=
  match v with JStr s => if all_digits (chars s) then Some (Z.to_nat (digits_val (chars s))) else None | _ => None end.
Definition uuid_param (v : json) : TM uuid :=
  match parse_uuid v with Some i => mret i | None => stmt (λ _, Throw PG_ERROR) end.

Definition create_and_log (w : World) (n : NormalizedInboundEmail) (partnerId orgId : uuid)
    (carryThreadKey priorNumber : option string) (submittedBy : option uuid) : TM unit :=
  i ← createFromEmail w n partnerId orgId carryThreadKey priorNumber submittedBy;
  logInbound n (Some partnerId) in_created (Some i) None.

(** No ticket of the partner matched: a known sender, a mapped domain, triage, or review. *)
Definition route_unmatched (w : World) (n : NormalizedInboundEmail) (partnerId : uuid) : TM unit :=
  sender ← findPortalUserInPartner (em_from n) partnerId;
  match sender with
  | Some (u, row) => create_and_log w n partnerId (pu_orgId row) None None (Some u)
  | None =>
      domainMatch ← resolveOrgBySenderDomain (em_from n) partnerId;
      match domainMatch with
      | Some e =>
          submittedBy ← (if ed_autoCreateContact e
                         then u ← findOrCreateEmailContact (ed_orgId e) (em_from n) (em_fromName n); mret (Some u)
                         else mret None);
          create_and_log w n partnerId (ed_orgId e) None None submittedBy
      | None =>
          policy ← loadPartnerInboundPolicy partnerId;
          match policy with
          | (true, Some v) =>
              if json_truthy (Some v)
              then o ← uuid_param v; create_and_log w n partnerId o None None None
              else logInbound n (Some partnerId) in_quarantined None None
          | _ => logInbound n (Some partnerId) in_quarantined None None
          end
      end
  end.

(** The mail answers a ticket, live or closed. *)
Definition route_verified (w : World) (n : NormalizedInboundEmail) (partnerId : uuid) : TM unit :=
  matched ← findTicketInPartner n partnerId;
  match matched with
  | Some (i, t) =>
      require (bool_decide (tk_partnerId t = Some partnerId)) CROSS_PARTNER_MATCH;;
      appendInboundComment w i n partnerId;;
      (if bool_decide (status t = st_resolved) then reopenResolvedTicket i partnerId else mret tt);;
      logInbound n (Some partnerId) in_matched (Some i) None
  | None =>
      closed ← findClosedTicketInPartner n partnerId;
      match closed with
      | Some (_, t) =>
          create_and_log w n partnerId (tk_orgId t) (ml_threadKey (tk_mail t)) (tk_internalNumber t) None
      | None => route_unmatched w n partnerId
      end
  end.

Definition process_for_partner (w : World) (n : NormalizedInboundEmail) (partnerId : uuid) : TM unit :=
  partner ← query (λ d, partners (dir d) !! partnerId);
  if negb (bool_decide (pn_status <$> partner = Some "active"%string))
  then logInbound n (Some partnerId) in_skipped None (Some "partner status"%string)
  else if truthy (w_domain w) && bool_decide (toLowerCase <$> w_domain w = Some (senderDomain (em_from n)))
  then logInbound n (Some partnerId) in_ignored None (Some "self-loop"%string)
  else
    dup ← query (λ d, bool_decide (is_logged partnerId (em_providerMessageId n) d));
    if dup : bool then mret tt
    else if negb (em_verified n)
    then logInbound n (Some partnerId) in_quarantined None (Some "unverified sender"%string)
    else route_verified w n partnerId.

Definition processInboundEmail (w : World) (n : NormalizedInboundEmail) : TM unit :=
  resolved ← try_catch (p ← resolvePartnerByRecipient w (em_to n); mret (Some p))
               (λ _, logInboundFailedDurable n None;; mret None);
  match resolved with
  | None => mret tt
  | Some None =>
      let malformed := negb (includes "@" (em_to n)) in
      try_catch (logInbound n None in_ignored None (if malformed then Some "malformed/empty recipient"%string else None))
        (λ _, logInboundFailedDurable n None)
  | Some (Some p) => try_catch (process_for_partner w n p) (λ _, logInboundFailedDurable n (Some p))
  end.

(** The job of [inboundEmailWorker.ts]. *)
Definition handleInboundEmail (w : World) (n : NormalizedInboundEmail) (faults : list bool) (d : Desk)
    : outcome TicketError unit * Desk * list Effect :=
  request (processInboundEmail w n) faults d.

(** ** The review queue *)

Definition in_review (s : InboundParseStatus) : bool :=
  match s with in_quarantined | in_failed => true | _ => false end.

Definition readQueueRow (partnerId i : uuid) : TM InboundRow :=
  row ← query (λ d, inbound d !! i);
  row ← of_option row INBOUND_ROW_NOT_FOUND;
  require (bool_decide (ib_partnerId row = Some partnerId)) INBOUND_ROW_NOT_FOUND;;
  require (in_review (ib_status row)) INBOUND_ROW_ALREADY_RESOLVED;;
  mret row.

(** The display name of a [From] header: what stands before the bracket, without blanks around it
    and without one pair of quotes; no name when quotes remain. *)
Definition dquote : ascii := "034"%char.
Fixpoint drop_trailing (P : ascii → bool) (l : list ascii) : list ascii :=
  match l with
  | [] => []
  | c :: l' => match drop_trailing P l' with
               | [] => if P c then [] else [c]
               | r => c :: r
               end
  end.
Definition extractFromName (header : string) : string :=
  let l := drop_spaces (chars header) in
  let l := match l with c :: l' => if Ascii.eqb c dquote then l' else l | [] => [] end in
  match cut_at "<" l with
  | None => ""
  | Some (name, _) =>
      let name := drop_trailing is_space name in
      let name := match reverse name with c :: r => if Ascii.eqb c dquote then reverse r else name | [] => [] end in
      if existsb (Ascii.eqb dquote) name then "" else trim (of_chars name)
  end.

Definition set_status (s : InboundParseStatus) (ticketId : option uuid) (r : InboundRow) : InboundRow :=
  {| ib_partnerId := ib_partnerId r; ib_messageKey := ib_messageKey r; ib_from := ib_from r; ib_to := ib_to r;
     ib_subject := ib_subject r; ib_status := s; ib_ticketId := ticketId; ib_error := ib_error r;
     ib_raw := ib_raw r |}.
Definition update_inbound (i : uuid) (P : InboundRow → bool) (f : InboundRow → InboundRow) : TM (option InboundRow) :=
  write (λ d, match inbound d !! i with
              | Some r => if P r then (Some (f r), set_inbound <[i := f r]> (next d) d) else (None, d)
              | None => (None, d)
              end).

(** [raw['stripped-text'] || raw['body-plain'] || ''], where they are texts. *)
Definition raw_text (raw : json) : string :=
  let text k := match as_string (field k raw) with Some (String _ _ as s) => Some s | _ => None end in
  default ""%string (or_else (text "stripped-text"%string) (text "body-plain"%string)).

Definition convertEmailInbound (w : World) (partnerId i orgId : uuid) (actor : TicketActor) : TM InboundRow :=
  row ← readQueueRow partnerId i;
  orgOk ← query (λ d, og_partnerId <$> orgs (dir d) !! orgId);
  require (bool_decide (orgOk = Some partnerId)) ORG_NOT_ACCESSIBLE;;
  let submitterEmail := trim (ib_from row) in
  require (truthy (Some submitterEmail)) INBOUND_ROW_NO_SENDER;;
  let fromName := match extractFromName (default ""%string (as_string (field "from" (ib_raw row)))) with
                  | EmptyString => None | s => Some s end in
  claimed ← update_inbound i (λ r, bool_decide (ib_partnerId r = Some partnerId) && in_review (ib_status r))
              (λ r, set_status in_created (ib_ticketId r) r);
  of_option claimed INBOUND_ROW_NOT_FOUND;;
  ticket ← createTicket w
    {| ci_orgId := orgId; ci_subject := or_no_subject (ib_subject row); ci_description := Some (raw_text (ib_raw row));
       ci_deviceId := None; ci_categoryId := None; ci_priority := None; ci_dueDate := None;
       ci_assigneeId := None; ci_source := src_email; ci_submittedBy := None;
       ci_submitterEmail := Some submitterEmail; ci_submitterName := fromName |} actor;
  updated ← update_inbound i (λ r, bool_decide (ib_partnerId r = Some partnerId))
              (λ r, set_status (ib_status r) (Some ticket.1) r);
  of_option updated INBOUND_ROW_NOT_FOUND.

Definition dismissEmailInbound (partnerId i : uuid) : TM InboundRow :=
  readQueueRow partnerId i;;
  updated ← update_inbound i (λ r, bool_decide (ib_partnerId r = Some partnerId))
              (λ r, set_status in_ignored (ib_ticketId r) r);
  of_option updated INBOUND_ROW_NOT_FOUND.
