(* ===== verification/TicketConfig.v ===== *)
(** * Configuration of the ticket desk ([services/ticketConfigService.ts])

    Statuses of a partner, targets per priority, settings of an organisation, and the mapping
    from sender domains to organisations. *)

From S2P Require Import Prelude JsNum Json TicketSla TicketDesk InboundEmail.

Open Scope Z_scope.

(** ** Statuses *)

Definition DEFAULT_STATUSES : list (TicketStatus * string * Z) :=
  [(st_new, "New", 0); (st_open, "Open", 1); (st_pending, "Pending", 2); (st_on_hold, "On hold", 3);
   (st_resolved, "Resolved", 4); (st_closed, "Closed", 5)]%string.

(** The two unique indexes of [ticket_statuses], against the rows other than [self]. *)
Definition name_taken (self : option uuid) (r : StatusRow) (ss : gmap uuid StatusRow) : Prop :=
  Exists (λ e, Some e.1 ≠ self ∧ ss_partnerId e.2 = ss_partnerId r ∧
               toLowerCase (ss_name e.2) = toLowerCase (ss_name r)) (map_to_list ss).
Definition system_taken (self : option uuid) (r : StatusRow) (ss : gmap uuid StatusRow) : Prop :=
  ss_isSystem r = true ∧
  Exists (λ e, Some e.1 ≠ self ∧ is_system_status (ss_partnerId r) (ss_coreStatus r) e.2) (map_to_list ss).
#[export] Instance name_taken_dec self r ss : Decision (name_taken self r ss).
Proof. unfold name_taken. apply _. Defined.
#[export] Instance system_taken_dec self r ss : Decision (system_taken self r ss).
Proof. unfold system_taken. apply _. Defined.

Definition set_statuses (ss : gmap uuid StatusRow) (n : uuid) (d : Desk) : Desk :=
  set_config ss (prioritySettings d) (orgSettings d) (emailDomains d) n d.

(** Write a row; a second name and a second system row are told apart by their index. *)
Definition put_status (self : option uuid) (i : uuid) (n : uuid) (r : StatusRow) (d : Desk)
    : outcome TicketError (StatusRow * Desk) :=
  if decide (name_taken self r (statuses d)) then Throw STATUS_NAME_TAKEN
  else if decide (system_taken self r (statuses d)) then Throw PG_UNIQUE_VIOLATION
  else Ok (r, set_statuses (<[i := r]> (statuses d)) n d).
Definition insert_status (r : StatusRow) (d : Desk) : outcome TicketError (StatusRow * Desk) :=
  put_status None (next d) (S (next d)) r d.

(** One insert of six rows. *)
Definition seed_row (partnerId : uuid) (s : TicketStatus * string * Z) : StatusRow :=
  {| ss_partnerId := partnerId; ss_name := s.1.2; ss_coreStatus := s.1.1; ss_color := None;
     ss_sortOrder := s.2; ss_isSystem := true; ss_isActive := true |}.
Definition seedSystemTicketStatuses (partnerId : uuid) : TM unit :=
  stmt (λ d, r ← fold_left (λ acc s, d ← acc; p ← insert_status (seed_row partnerId s) d; Ok p.2)
                   DEFAULT_STATUSES (Ok d);
             Ok (tt, r)).

Record CreateTicketStatusInput := {
  cs_name : string; cs_coreStatus : TicketStatus; cs_color : option string; cs_sortOrder : option Z }.
Definition createTicketStatus (partnerId : uuid) (input : CreateTicketStatusInput) : TM StatusRow :=
  stmt (insert_status
    {| ss_partnerId := partnerId; ss_name := cs_name input; ss_coreStatus := cs_coreStatus input;
       ss_color := cs_color input; ss_sortOrder := default 0 (cs_sortOrder input); ss_isSystem := false;
       ss_isActive := true |}).

Record UpdateTicketStatusInput := {
  us_name : option string; us_coreStatus : option TicketStatus; us_color : option (option string);
  us_sortOrder : option Z; us_isActive : option bool }.
Definition patch_status (input : UpdateTicketStatusInput) (r : StatusRow) : StatusRow :=
  {| ss_partnerId := ss_partnerId r; ss_name := default (ss_name r) (us_name input);
     ss_coreStatus := default (ss_coreStatus r) (us_coreStatus input);
     ss_color := default (ss_color r) (us_color input);
     ss_sortOrder := default (ss_sortOrder r) (us_sortOrder input); ss_isSystem := ss_isSystem r;
     ss_isActive := default (ss_isActive r) (us_isActive input) |}.
Definition of_partner (partnerId : uuid) (r : option StatusRow) : option StatusRow :=
  match r with Some s => if bool_decide (ss_partnerId s = partnerId) then Some s else None | None => None end.

Definition updateTicketStatus (partnerId i : uuid) (input : UpdateTicketStatusInput) : TM StatusRow :=
  existing ← query (λ d, of_partner partnerId (statuses d !! i));
  row ← of_option existing STATUS_NOT_FOUND;
  (if ss_isSystem row then
     require (bool_decide (default (ss_coreStatus row) (us_coreStatus input) = ss_coreStatus row)) SYSTEM_STATUS_IMMUTABLE;;
     require (negb (bool_decide (us_isActive input = Some false))) SYSTEM_STATUS_REQUIRED
   else mret tt);;
  updated ← stmt (λ d, match of_partner partnerId (statuses d !! i) with
                       | Some r => p ← put_status (Some i) i (next d) (patch_status input r) d; Ok (Some p.1, p.2)
                       | None => Ok (None, d)
                       end);
  of_option updated STATUS_NOT_FOUND.

Definition sorted_at (n : Z) (r : StatusRow) : StatusRow :=
  patch_status {| us_name := None; us_coreStatus := None; us_color := None; us_sortOrder := Some n;
                  us_isActive := None |} r.
Fixpoint reorder_each (partnerId : uuid) (owned : list uuid) (index : Z) (ids : list uuid) (updated : nat) : TM nat :=
  match ids with
  | [] => mret updated
  | i :: ids' =>
      if bool_decide (i ∈ owned) then
        write (λ d, (tt, match of_partner partnerId (statuses d !! i) with
                         | Some r => set_statuses (<[i := sorted_at index r]> (statuses d)) (next d) d
                         | None => d
                         end));;
        reorder_each partnerId owned (index + 1) ids' (S updated)
      else reorder_each partnerId owned (index + 1) ids' updated
  end.
Definition reorderTicketStatuses (partnerId : uuid) (ids : list uuid) : TM nat :=
  owned ← query (λ d, filter (λ i, of_partner partnerId (statuses d !! i) ≠ None) ids);
  reorder_each partnerId owned 0 ids 0.

Definition active_statuses (partnerId : uuid) (d : Desk) : list (uuid * StatusRow) :=
  filter (λ e, ss_partnerId e.2 = partnerId ∧ ss_isActive e.2 = true) (map_to_list (statuses d)).
Definition findStatusByName (partnerId : uuid) (name : string) : TM (option (uuid * StatusRow)) :=
  rows ← sys_read (active_statuses partnerId);
  mret (head (filter (λ e, toLowerCase (ss_name e.2) = toLowerCase name) rows)).
Definition listActiveStatusNames (partnerId : uuid) : TM (list string) :=
  rows ← sys_read (active_statuses partnerId);
  mret ((λ e, ss_name e.2) <$> rows).

(** ** Targets per priority *)

Definition PRIORITIES : list TicketSlaPriority := [low; normal; high; urgent].
Definition no_priority : PriorityRow := {| ps_label := None; ps_sla := no_sla |}.
Definition readPriorities (partnerId : uuid) : TM (list (TicketSlaPriority * PriorityRow)) :=
  query (λ d, (λ p, (p, default no_priority (prioritySettings d !! (partnerId, priority_text p)))) <$> PRIORITIES).

(** [None]: not sent. *)
Record PriorityPatch := {
  pp_label : option (option string); pp_response : option (option Z); pp_resolution : option (option Z) }.
Definition patch_priority (p : PriorityPatch) (r : PriorityRow) : PriorityRow :=
  {| ps_label := default (ps_label r) (pp_label p);
     ps_sla := {| responseMinutes := default (responseMinutes (ps_sla r)) (pp_response p);
                  resolutionMinutes := default (resolutionMinutes (ps_sla r)) (pp_resolution p) |} |}.
Fixpoint upsert_each (partnerId : uuid) (l : list (TicketSlaPriority * PriorityPatch)) : TM unit :=
  match l with
  | [] => mret tt
  | (p, patch) :: l' =>
      write (λ d, let k := (partnerId, priority_text p) in
        (tt, set_config (statuses d)
               (<[k := patch_priority patch (default no_priority (prioritySettings d !! k))]> (prioritySettings d))
               (orgSettings d) (emailDomains d) (next d) d));;
      upsert_each partnerId l'
  end.
Definition upsertPrioritySettings (partnerId : uuid) (l : list (TicketSlaPriority * PriorityPatch))
    : TM (list (TicketSlaPriority * PriorityRow)) :=
  upsert_each partnerId l;; readPriorities partnerId.

(** ** Settings of an organisation *)

Definition no_settings : OrgSettings :=
  {| os_slaOverrides := JObj []; os_defaultHourlyRate := None; os_defaultBillable := None |}.
Definition getOrgTicketSettings (orgId : uuid) : TM OrgSettings :=
  query (λ d, default no_settings (orgSettings d !! orgId)).

(** The rate arrives as the text [String] makes of the number. *)
Record OrgSettingsPatch := {
  op_slaOverrides : option json; op_defaultHourlyRate : option (option string);
  op_defaultBillable : option (option bool) }.
Definition upsertOrgTicketSettings (orgId : uuid) (p : OrgSettingsPatch) : TM OrgSettings :=
  write (λ d, let r := default no_settings (orgSettings d !! orgId) in
    let r' := {| os_slaOverrides := default (os_slaOverrides r) (op_slaOverrides p);
                 os_defaultHourlyRate := default (os_defaultHourlyRate r) (op_defaultHourlyRate p);
                 os_defaultBillable := default (os_defaultBillable r) (op_defaultBillable p) |} in
    (r', set_config (statuses d) (prioritySettings d) (<[orgId := r']> (orgSettings d)) (emailDomains d) (next d) d)).

(** ** Sender domains *)

Definition set_domains (f : gmap uuid EmailDomain → gmap uuid EmailDomain) (n : uuid) (d : Desk) : Desk :=
  set_config (statuses d) (prioritySettings d) (orgSettings d) (f (emailDomains d)) n d.
Definition domain_taken (self : option uuid) (e : EmailDomain) (d : Desk) : Prop :=
  Exists (λ x, Some x.1 ≠ self ∧ ed_partnerId x.2 = ed_partnerId e ∧ ed_domain x.2 = ed_domain e)
    (map_to_list (emailDomains d)).
#[export] Instance domain_taken_dec self e d : Decision (domain_taken self e d).
Proof. unfold domain_taken. apply _. Defined.

Definition assert_org_in_partner (orgId partnerId : uuid) : TM unit :=
  o ← query (λ d, og_partnerId <$> orgs (dir d) !! orgId);
  require (bool_decide (o = Some partnerId)) ORG_NOT_ACCESSIBLE.

Definition createCustomerEmailDomain (partnerId orgId : uuid) (domain : string) (autoCreateContact : bool)
    : TM EmailDomain :=
  assert_org_in_partner orgId partnerId;;
  stmt (λ d, let e := {| ed_partnerId := partnerId; ed_orgId := orgId; ed_domain := domain;
                         ed_autoCreateContact := autoCreateContact; ed_isActive := true |} in
    if decide (domain_taken None e d) then Throw DOMAIN_ALREADY_MAPPED
    else Ok (e, set_domains <[next d := e]> (S (next d)) d)).

Record UpdateDomainInput := {
  ud_orgId : option uuid; ud_autoCreateContact : option bool; ud_isActive : option bool }.
Definition patch_domain (u : UpdateDomainInput) (e : EmailDomain) : EmailDomain :=
  {| ed_partnerId := ed_partnerId e; ed_orgId := default (ed_orgId e) (ud_orgId u); ed_domain := ed_domain e;
     ed_autoCreateContact := default (ed_autoCreateContact e) (ud_autoCreateContact u);
     ed_isActive := default (ed_isActive e) (ud_isActive u) |}.
Definition updateCustomerEmailDomain (partnerId i : uuid) (u : UpdateDomainInput) : TM EmailDomain :=
  (match ud_orgId u with Some o => assert_org_in_partner o partnerId | None => mret tt end);;
  updated ← write (λ d, match emailDomains d !! i with
                        | Some e => if bool_decide (ed_partnerId e = partnerId)
                                    then (Some (patch_domain u e), set_domains <[i := patch_domain u e]> (next d) d)
                                    else (None, d)
                        | None => (None, d)
                        end);
  of_option updated DOMAIN_MAPPING_NOT_FOUND.
Definition deleteCustomerEmailDomain (partnerId i : uuid) : TM unit :=
  deleted ← write (λ d, match emailDomains d !! i with
                        | Some e => if bool_decide (ed_partnerId e = partnerId)
                                    then (Some e, set_domains (delete i) (next d) d) else (None, d)
                        | None => (None, d)
                        end);
  of_option deleted DOMAIN_MAPPING_NOT_FOUND;;
  mret tt.
