(* ===== verification/TicketLogic.v ===== *)
(** * A program logic for the transactions of the ticket desk

    [goes R P m Q]: run from a transaction whose tables satisfy [P], [m] takes both what is
    committed and what the transaction sees along the relation [R]; if it returns, and no
    statement has failed, the tables satisfy [Q].  The rules are proved once, for every
    preorder [R] that keeps the directory and fresh ids.  What is sent on the way satisfies [Sent]. *)

From S2P Require Import Prelude JsNum Json TicketSla TicketDesk Tickets.

Open Scope Z_scope.

(** Ids handed out are below [next]. *)
Definition fresh (d : Desk) : Prop := ∀ k, is_Some (tickets d !! k) → (k < next d)%nat.

(** What holds between the statements of every transaction: what is written on other connections
    is the same in what is committed and in what the transaction sees. *)
Record ambient (t : Tx) : Prop := {
  am_base : fresh (tx_base t);
  am_dir : dir (tx_tables t) = dir (tx_base t);
  am_tables : tx_aborted t = false →
    fresh (tx_tables t) ∧ sequences (tx_tables t) = sequences (tx_base t) }.

Lemma ambient_begin d faults : fresh d → ambient (begin_tx d faults).
Proof. by split. Qed.

(** Only failed statements and the faults to come may differ. *)
Record same_desk (t t' : Tx) : Prop := {
  sd_base : tx_base t' = tx_base t;
  sd_tables : tx_tables t' = tx_tables t;
  sd_aborted : tx_aborted t' = false → tx_aborted t = false;
  sd_out : tx_out t' = tx_out t }.

Lemma same_desk_refl t : same_desk t t.
Proof. done. Qed.
Lemma same_desk_trans t1 t2 t3 : same_desk t1 t2 → same_desk t2 t3 → same_desk t1 t3.
Proof. intros [] []. split; [congruence..|auto|congruence]. Qed.

(** What the logic asks of the relation and of the effects. *)
Class DeskRel (R : relation Desk) (Sent : Effect → Prop) : Prop := {
  #[global] R_pre :: PreOrder R;
  R_dir d d' : R d d' → dir d' = dir d;
  R_fresh d d' : R d d' → fresh d → fresh d';
  Sent_audit o a s i : Sent (Audit o a s i);
  Sent_feedback o i e k b : Sent (Feedback o i e k b) }.

Section logic.
Context (R : relation Desk) (Sent : Effect → Prop) `{!DeskRel R Sent}.

(** How a computation moves the two desks. *)
Record moved (t t' : Tx) : Prop := {
  mv_ambient : ambient t';
  mv_base : R (tx_base t) (tx_base t');
  mv_tables : tx_aborted t' = false → tx_aborted t = false ∧ R (tx_tables t) (tx_tables t');
  mv_out : ∃ l, tx_out t' = tx_out t ++ l ∧ Forall Sent l }.

Definition live (P : Desk → Prop) (t : Tx) : Prop := tx_aborted t = false → P (tx_tables t).

Definition goes {A} (P : Desk → Prop) (m : TM A) (Q : A → Desk → Prop) : Prop :=
  ∀ t, ambient t → live P t →
    moved t (m t).2 ∧ match (m t).1 with Ok a => live (Q a) (m t).2 | Throw _ => True end.

Lemma moved_refl t : ambient t → moved t t.
Proof. intros. split; [done..|]. exists []. by rewrite app_nil_r. Qed.
Lemma moved_trans t1 t2 t3 : moved t1 t2 → moved t2 t3 → moved t1 t3.
Proof.
  intros [_ B1 T1 (l1 & E1 & F1)] [A2 B2 T2 (l2 & E2 & F2)]. split; [done | by etrans | |].
  - intros H3. destruct (T2 H3) as [H2 R2]. destruct (T1 H2) as [H1 R1]. split; [done|]. by etrans.
  - exists (l1 ++ l2). rewrite E2, E1, app_assoc. split; [done|]. by apply Forall_app.
Qed.
Lemma moved_same t t' : ambient t → same_desk t t' → moved t t'.
Proof.
  intros [Hb Hd Ht] [E1 E2 E3 E4]. split.
  - split; rewrite ?E1, ?E2; auto.
  - by rewrite E1.
  - intros. rewrite E2. split; [auto | done].
  - exists []. by rewrite app_nil_r.
Qed.

Lemma goes_ret {A} (a : A) (P : Desk → Prop) (Q : A → Desk → Prop) : (∀ d, P d → Q a d) → goes P (mret a) Q.
Proof. intros H t Ha Hp. split; [by apply moved_refl|]. intros Hl. auto. Qed.

Lemma goes_throw {A} e (P : Desk → Prop) (Q : A → Desk → Prop) : goes P (throw e) Q.
Proof. intros t Ha _. split; [by apply moved_refl | done]. Qed.

Lemma goes_bind {A B} (m : TM A) (k : A → TM B) P Q S :
  goes P m Q → (∀ a, goes (Q a) (k a) S) → goes P (m ≫= k) S.
Proof.
  intros Hm Hk t Ha Hp. destruct (Hm t Ha Hp) as [M1 H1]. unfold mbind, TM_bind.
  destruct (m t) as [[a|e] t1]; simpl in *; [|done].
  destruct (Hk a t1 (mv_ambient _ _ M1) H1) as [M2 H2]. split; [by eapply moved_trans | done].
Qed.

Lemma goes_conseq {A} (m : TM A) (P P' : Desk → Prop) (Q Q' : A → Desk → Prop) :
  (∀ d, P' d → P d) → (∀ a d, Q a d → Q' a d) → goes P m Q → goes P' m Q'.
Proof.
  intros HP HQ Hm t Ha Hp. destruct (Hm t Ha) as [M H]; [intros Hl; auto|]. split; [done|].
  destruct (m t) as [[a|e] t1]; simpl in *; [|done]. intros Hl. auto.
Qed.

Lemma goes_post {A} (m : TM A) P (Q Q' : A → Desk → Prop) : (∀ a d, Q a d → Q' a d) → goes P m Q → goes P m Q'.
Proof. intros. by eapply goes_conseq. Qed.
Lemma goes_pre {A} (m : TM A) (P P' : Desk → Prop) (Q : A → Desk → Prop) : (∀ d, P' d → P d) → goes P m Q → goes P' m Q.
Proof. intros. by eapply goes_conseq. Qed.

Lemma goes_require b e (P : Desk → Prop) : goes P (require b e) (λ _ d, P d ∧ b = true).
Proof. destruct b; [by apply goes_ret | apply goes_throw]. Qed.
Lemma goes_of_option {A} (o : option A) e (P : Desk → Prop) : goes P (of_option o e) (λ a d, P d ∧ o = Some a).
Proof. destruct o; [by apply goes_ret | apply goes_throw]. Qed.

(** A statement, given what it does to tables that satisfy [P]. *)
Lemma goes_stmt {A} (f : Desk → outcome TicketError (A * Desk)) (P : Desk → Prop) (Q : A → Desk → Prop) :
  (∀ d a d', fresh d → P d → f d = Ok (a, d') → R d d' ∧ sequences d' = sequences d ∧ Q a d') →
  goes P (stmt f) Q.
Proof.
  intros Hf t Ha Hp. unfold stmt. destruct (tx_aborted t) eqn:Eab.
  { split; [by apply moved_refl | done]. }
  assert (same_desk t (with_aborted (consumed t) true)) as Hs by (by split).
  destruct (fault t); [split; [by apply moved_same | done]|].
  destruct Ha as [Hb Hd Ht]. destruct (Ht Eab) as [Hfr Hs'].
  destruct (f (tx_tables t)) as [[a d']|e] eqn:E; simpl; [|split; [by apply moved_same | done]].
  destruct (Hf _ _ _ Hfr (Hp Eab) E) as (HR & Hseq & HQ). split; [|by intros _].
  split; simpl; [|done|done|exists []; by rewrite app_nil_r].
  split; simpl; [done | by rewrite (R_dir _ _ HR) | intros _; split; [by eapply R_fresh | congruence]].
Qed.

Lemma goes_write {A} (f : Desk → A * Desk) (P : Desk → Prop) (Q : A → Desk → Prop) :
  (∀ d, fresh d → P d → R d (f d).2 ∧ sequences (f d).2 = sequences d ∧ Q (f d).1 (f d).2) → goes P (write f) Q.
Proof. intros Hf. apply goes_stmt. intros d a d' Hfr HP [= E]. specialize (Hf d Hfr HP). by rewrite E in Hf. Qed.

Lemma goes_query {A} (f : Desk → A) (P : Desk → Prop) : goes P (query f) (λ a d, P d ∧ a = f d).
Proof. apply goes_stmt. intros d a d' _ HP [= <- <-]. done. Qed.

(** A read on another connection: of what the desks share, only the directory is used. *)
Lemma goes_sys_read {A} (f : Desk → A) (P : Desk → Prop) :
  goes P (sys_read f) (λ a d, P d ∧ ∃ b, dir b = dir d ∧ a = f b).
Proof.
  intros t Ha Hp. assert (same_desk t (consumed t)) as Hs by done. unfold sys_read.
  destruct (fault t); (split; [by apply moved_same|]); simpl; [done|].
  intros Hl. split; [by apply Hp|]. exists (tx_base t). split; [|done]. symmetry. apply Ha.
Qed.

Lemma goes_send e (P : Desk → Prop) : Sent e → goes P (send e) (λ _, P).
Proof.
  intros He t [] Hp. split; [|done]. split; [done | done | done |]. exists [e]. split; [done|]. by constructor.
Qed.
Lemma goes_event w e (P : Desk → Prop) : Sent (Event e) → goes P (emitTicketEvent w e) (λ _, P).
Proof. intros. unfold emitTicketEvent. destruct (w_bus w); [by apply goes_send | by apply goes_ret]. Qed.
Lemma goes_audit o a s i (P : Desk → Prop) : goes P (audit o a s i) (λ _, P).
Proof. apply goes_send, Sent_audit. Qed.

(** A handler that swallows errors knows nothing of the tables. *)
Lemma goes_catch {A} (m : TM A) (h : TicketError → TM A) P Q :
  goes P m Q → (∀ e, goes (λ _, True) (h e) (λ _ _, True)) → goes P (try_catch m h) (λ _ _, True).
Proof.
  intros Hm Hh t Ha Hp. destruct (Hm t Ha Hp) as [M H]. unfold try_catch.
  destruct (m t) as [[a|e] t1]; simpl in *; [by split|].
  destruct (Hh e t1 (mv_ambient _ _ M)) as [M2 H2]; [done|]. split; [by eapply moved_trans|].
  by destruct (h e t1) as [[] ?].
Qed.
Lemma goes_rethrow {A} (m : TM A) e P Q : goes P m Q → goes P (try_catch m (λ _, throw e)) Q.
Proof.
  intros Hm t Ha Hp. destruct (Hm t Ha Hp) as [M H]. unfold try_catch.
  by destruct (m t) as [[a|e'] t1].
Qed.

(** A statement whose error is swallowed: it either ran or the transaction has failed. *)
Lemma goes_swallow {A B} (f : Desk → outcome TicketError (A * Desk)) (k : A → TM B) (b : B) P Q :
  (∀ d a d', fresh d → P d → f d = Ok (a, d') → R d d' ∧ sequences d' = sequences d ∧ Q a d') →
  (∀ a, goes (Q a) (k a) (λ _, P)) → (∀ a t, ∃ x, (k a t).1 = Ok x) →
  goes P (try_catch (stmt f ≫= k) (λ _, mret b)) (λ _, P).
Proof.
  intros Hf Hk Hok t Ha Hp. destruct (goes_stmt f P Q Hf t Ha Hp) as [M H].
  unfold try_catch, mbind, TM_bind. destruct (stmt f t) as [[a|e] t1] eqn:E; simpl in *.
  - destruct (Hk a t1 (mv_ambient _ _ M) H) as [M2 H2]. destruct (Hok a t1) as [x Ex].
    destruct (k a t1) as [r t2]; simpl in *; subst r. split; [by eapply moved_trans | done].
  - split; [done|]. intros Hl. exfalso. revert E Hl. unfold stmt.
    destruct (tx_aborted t) eqn:Eab; [intros [= <- <-]; congruence|].
    destruct (fault t); [by intros [= _ <-]|]. destruct (f _) as [[]|]; by intros [= _ <-].
Qed.

Lemma goes_feedback w o i e k b (P : Desk → Prop) : goes P (emitTicketTriageFeedback w o i e k b) (λ _, P).
Proof.
  apply goes_swallow with (Q := λ _, P).
  - intros d [] d' _ HP. destruct (w_feedback w); [|done]. by intros [= <-].
  - intros []. apply goes_send, Sent_feedback.
  - intros. by eexists.
Qed.

(** Statements of this transaction leave what is committed alone. *)
Definition inside {A} (m : TM A) : Prop := ∀ t, tx_base (m t).2 = tx_base t.
Lemma inside_ret {A} (a : A) : inside (mret a).
Proof. done. Qed.
Lemma inside_stmt {A} (f : Desk → outcome TicketError (A * Desk)) : inside (stmt f).
Proof. intros t. unfold stmt. destruct (tx_aborted t), (fault t); try done. by destruct (f _) as [[]|]. Qed.
Lemma inside_bind {A B} (m : TM A) (k : A → TM B) : inside m → (∀ a, inside (k a)) → inside (m ≫= k).
Proof.
  intros Hm Hk t. specialize (Hm t). unfold mbind, TM_bind. destruct (m t) as [[a|e] t1]; simpl in *; [|done].
  by rewrite Hk.
Qed.

(** A savepoint around such statements. *)
Lemma goes_savepoint {A} (m : TM A) P Q :
  goes P m Q → inside m → goes P (savepoint m) Q.
Proof.
  intros Hm Hb t Ha Hp. unfold savepoint. destruct (tx_aborted t) eqn:Eab; [split; [by apply moved_refl | done]|].
  destruct (Hm t Ha Hp) as [M H]. specialize (Hb t). destruct (m t) as [[a|e] t1]; simpl in *; [done|].
  split; [|done]. destruct Ha as [Hf Hd Ht], M as [_ _ _ Ho].
  split; simpl; [split; simpl; rewrite ?Hb; auto | by rewrite Hb | done | done].
Qed.

(** ** Whole requests *)

(** The committed desk of a request is along [R], and what it sent satisfies [Sent]. *)
Definition handled {A} (m : TM A) : Prop := ∀ d faults, fresh d →
  R d (committed (m (begin_tx d faults)).2) ∧ Forall Sent (tx_out (m (begin_tx d faults)).2).

Lemma goes_handled {A} (m : TM A) Q : goes (λ _, True) m Q → handled m.
Proof.
  intros Hm d faults Hd.
  destruct (Hm (begin_tx d faults) (ambient_begin d faults Hd)) as [[_ Hb Ht (l & El & Hl)] _]; [done|].
  split; [|by rewrite El]. unfold committed. destruct (tx_aborted _); [done|]. by apply Ht.
Qed.

End logic.

(** A handler that only reads goes along equality. *)
Lemma reads_rel R Sent : DeskRel R Sent → DeskRel eq Sent.
Proof. intros H. split; [apply _ | by intros ?? -> | by intros ?? -> | apply H..]. Qed.

(** A handler that reads, lets others commit, and writes. *)
Lemma handled_race R Sent `{!DeskRel R Sent} {A B} w (m : TM A) (k : A → TM B) (Q : A → Desk → Prop) T :
  goes eq Sent (λ _, True) m Q → (∀ d, fresh d → R d (w_rival w d)) →
  (∀ a, goes R Sent (λ d, ∃ d0, fresh d0 ∧ Q a d0 ∧ d = w_rival w d0) (k a) T) →
  handled R Sent (a ← m; interleave w;; k a).
Proof.
  intros Hm Hr Hk d faults Hd.
  destruct (Hm (begin_tx d faults) (ambient_begin d faults Hd)) as [[_ Eb Et (l & El & Hl)] HQ]; [done|].
  unfold mbind, TM_bind. destruct (m (begin_tx d faults)) as [[a|e] t1]; simpl in *.
  - set (t2 := Build_Tx _ _ _ _ _).
    assert (ambient t2) as Ha.
    { assert (fresh (w_rival w (tx_base t1))) by (rewrite <- Eb; eapply R_fresh; eauto). by split. }
    destruct (Hk a t2 Ha) as [[_ Hb Ht (l' & El' & Hl')] _].
    { intros Hab. exists d. split_and!; [done| |by simpl; rewrite Eb].
      destruct (Et Hab) as [_ ->]. by apply HQ. }
    subst t2; simpl in *. rewrite <- Eb in *. specialize (Hr d Hd).
    split; [|rewrite El', El; by apply Forall_app].
    unfold committed. destruct (tx_aborted (k a _).2) eqn:Eab; [by etrans|].
    destruct (Ht eq_refl) as [_ H2]. by etrans.
  - rewrite El. split; [|done]. unfold committed. destruct (tx_aborted t1); [by rewrite <- Eb|].
    by destruct Et as [_ <-].
Qed.

(** ** Computations that only read *)

(** Neither desk changes, nothing is sent, and a failed statement is remembered. *)
Record unmoved (t t' : Tx) : Prop := {
  um_base : tx_base t' = tx_base t;
  um_tables : tx_tables t' = tx_tables t;
  um_out : tx_out t' = tx_out t;
  um_aborted : tx_aborted t = true → tx_aborted t' = true }.

Lemma query_unmoved {A} (f : Desk → A) t :
  unmoved t (query f t).2 ∧ (∀ a, (query f t).1 = Ok a → a = f (tx_tables t)).
Proof.
  unfold query, stmt. destruct (tx_aborted t) eqn:E, (fault t); simpl; split; try done; by intros a [= <-].
Qed.
Lemma unmoved_refl t : unmoved t t.
Proof. done. Qed.
Lemma unmoved_trans t1 t2 t3 : unmoved t1 t2 → unmoved t2 t3 → unmoved t1 t3.
Proof. intros [] []. split; [congruence..|auto]. Qed.

(** When it returns, none of its statements has failed. *)
Definition reading {A} (m : TM A) : Prop := ∀ t,
  unmoved t (m t).2 ∧ ∀ a, (m t).1 = Ok a → tx_aborted (m t).2 = tx_aborted t.
Lemma reading_bind {A B} (m : TM A) (k : A → TM B) : reading m → (∀ a, reading (k a)) → reading (m ≫= k).
Proof.
  intros Hm Hk t. destruct (Hm t) as [U1 A1]. unfold mbind, TM_bind. destruct (m t) as [[a|e] t1]; simpl in *; [|done].
  destruct (Hk a t1) as [U2 A2]. split; [by eapply unmoved_trans|]. intros b Hb. by rewrite (A2 b Hb), (A1 a eq_refl).
Qed.
Lemma reading_ret {A} (a : A) : reading (mret a).
Proof. done. Qed.
Lemma reading_throw {A} e : reading (throw e : TM A).
Proof. done. Qed.
Lemma reading_require b e : reading (require b e).
Proof. by destruct b. Qed.
Lemma reading_of_option {A} (o : option A) e : reading (of_option o e).
Proof. by destruct o. Qed.
Lemma reading_query {A} (f : Desk → A) : reading (query f).
Proof.
  intros t. split; [apply query_unmoved|]. intros a. unfold query, stmt.
  by destruct (tx_aborted t) eqn:E, (fault t).
Qed.
Lemma reading_sys_read {A} (f : Desk → A) : reading (sys_read f).
Proof. intros t. unfold sys_read. by destruct (fault t). Qed.

(** A sequence that returns has returned at every step. *)
Lemma bind_ok {A B} (m : TM A) (k : A → TM B) t b t' :
  (m ≫= k) t = (Ok b, t') → ∃ a t1, m t = (Ok a, t1) ∧ k a t1 = (Ok b, t').
Proof. unfold mbind, TM_bind. destruct (m t) as [[a|e] t1]; [eauto | done]. Qed.
