(* ===== verification/TicketSteps.v ===== *)
(** * What requests do to tickets

    Rows that are consistent ([row_ok]) and stay within their tenant ([placed]), the steps a
    row may take ([row_step]), and that every handler of [Tickets] takes only such steps,
    whichever of its statements fail. *)

From S2P Require Import Prelude JsNum Json TicketSla TicketDesk Tickets InboundEmail TicketConfig TicketLogic.

Open Scope Z_scope.

(** ** Rows *)

(** The stamps a status comes with. *)
Definition stage_ok (s : Stage) : Prop :=
  match sg_status s with
  | st_new | st_open =>
      sg_resolvedAt s = None ∧ sg_closedAt s = None ∧ sg_closedBy s = None ∧
      sg_pendingReason s = None ∧ sg_slaPausedAt s = None
  | st_pending | st_on_hold =>
      sg_resolvedAt s = None ∧ sg_closedAt s = None ∧ sg_closedBy s = None ∧ is_Some (sg_slaPausedAt s)
  | st_resolved =>
      is_Some (sg_resolvedAt s) ∧ sg_closedAt s = None ∧ sg_closedBy s = None ∧
      sg_pendingReason s = None ∧ sg_slaPausedAt s = None
  | st_closed =>
      is_Some (sg_resolvedAt s) ∧ is_Some (sg_closedAt s) ∧ is_Some (sg_closedBy s) ∧
      sg_pendingReason s = None ∧ sg_slaPausedAt s = None
  end.

(** The reason of a row that recorded [ks]. *)
Definition reason_of (ks : list SlaTargetKind) : option string :=
  match ks with [] => None | _ => Some (join_kinds ks) end.

(** Stamps agree with the status; the targets missed so far are recorded once each. *)
Record row_ok (t : Ticket) : Prop := {
  ro_stage : stage_ok (tk_stage t);
  ro_breach : ∃ ks, NoDup ks ∧ (br_at (tk_breach t) = None ↔ ks = []) ∧
    br_reason (tk_breach t) = reason_of ks }.

Definition ticket_partner (D : Directory) (t : Ticket) : option uuid :=
  or_else (tk_partnerId t) (og_partnerId <$> orgs D !! tk_orgId t).

(** The device is one of the organisation; assignee and category belong to its partner. *)
Record placed (D : Directory) (t : Ticket) : Prop := {
  pl_org : ∀ p, tk_partnerId t = Some p → og_partnerId <$> orgs D !! tk_orgId t = Some p;
  pl_device : ∀ x, fl_deviceId (tk_fields t) = Some x → deviceOrgs D !! x = Some (tk_orgId t);
  pl_assignee : ∀ u, tk_assignedTo t = Some u → ∃ p, users D !! u = Some p ∧ ticket_partner D t = Some p;
  pl_category : ∀ c, fl_categoryId (tk_fields t) = Some c →
    ∃ g, categories D !! c = Some g ∧ ticket_partner D t = Some (cg_partnerId g) }.

(** ** Steps *)

(** The SLA clock runs on, stops, or takes in the pause that ends. *)
Definition clock_step (now : Z) (t t' : Ticket) : Prop :=
  let s := tk_stage t in
  let s' := tk_stage t' in
  (is_paused (status t') = is_paused (status t) ∧ sg_slaPausedAt s' = sg_slaPausedAt s ∧
     sg_slaPausedMinutes s' = sg_slaPausedMinutes s) ∨
  (is_paused (status t) = false ∧ is_paused (status t') = true ∧ sg_slaPausedAt s' = Some now ∧
     sg_slaPausedMinutes s' = sg_slaPausedMinutes s) ∨
  (is_paused (status t) = true ∧ is_paused (status t') = false ∧ sg_slaPausedAt s' = None ∧
     ∀ p, sg_slaPausedAt s = Some p →
       sg_slaPausedMinutes s' = Some (default 0 (sg_slaPausedMinutes s) + elapsed_minutes p now)).

Definition same_identity (t t' : Ticket) : Prop :=
  tk_partnerId t' = tk_partnerId t ∧ tk_ticketNumber t' = tk_ticketNumber t ∧
  tk_internalNumber t' = tk_internalNumber t ∧ tk_source t' = tk_source t ∧ tk_createdAt t' = tk_createdAt t.

(** [quiet]: nobody commits between the read and the write of a handler. *)
Record row_step (quiet : bool) (now : Z) (D : Directory) (t t' : Ticket) : Prop := {
  rs_same : same_identity t t';
  rs_ok : row_ok t → row_ok t';
  rs_placed : placed D t → placed D t';
  rs_status : status t' = status t ∨ status t' ∈ TICKET_STATUS_TRANSITIONS (status t);
  rs_clock : quiet = true → clock_step now t t';
  rs_reported : row_ok t → ∀ k, reported k t → reported k t' }.

(** A ticket as it is created. *)
Record born (D : Directory) (seqs : gmap (uuid * Z) Z) (t : Ticket) : Prop := {
  bo_ok : row_ok t;
  bo_placed : placed D t;
  bo_stage : ∃ s i, tk_stage t = new_stage s i ∧ (s = st_new ∨ s = st_open);
  bo_unreported : ∀ k, ¬ reported k t;
  bo_number : ∃ p y c, tk_partnerId t = Some p ∧ tk_internalNumber t = Some (formatInternalNumber y c) ∧
    seqs !! (p, y) = Some c ∧ 1 <= c }.

(** Ids of logged mails are below [next], too. *)
Definition inbound_fresh (d : Desk) : Prop := ∀ k, is_Some (inbound d !! k) → (k < next d)%nat.
(** Ids are handed out upwards, and a mail once logged stays logged. *)
Record ids_kept (d d' : Desk) : Prop := {
  ik_next : (next d <= next d')%nat;
  ik_inbound : ∀ k, is_Some (inbound d' !! k) → is_Some (inbound d !! k) ∨ (k < next d')%nat;
  ik_logged : inbound_fresh d → ∀ p key, is_logged p key d → is_logged p key d' }.

Lemma ids_kept_same d d' : (next d <= next d')%nat → inbound d' = inbound d → ids_kept d d'.
Proof. intros Hn E. split; [done | rewrite E; auto |]. intros _ p key. unfold is_logged. by rewrite E. Qed.
Lemma ids_kept_fresh d d' : ids_kept d d' → inbound_fresh d → inbound_fresh d'.
Proof. intros [Hn Hi _] Hf k [Hk|Hk]%Hi; [|done]. apply Hf in Hk. lia. Qed.

Lemma ids_kept_trans d1 d2 d3 : ids_kept d1 d2 → ids_kept d2 d3 → ids_kept d1 d3.
Proof.
  intros H1 H2. pose proof (ik_next _ _ H1). pose proof (ik_next _ _ H2). split; [lia| |].
  - intros k [[Hk|Hk]%(ik_inbound _ _ H1)|Hk]%(ik_inbound _ _ H2); auto with lia.
  - intros Hf p key Hl. apply (ik_logged _ _ H2); [by eapply ids_kept_fresh|]. by apply (ik_logged _ _ H1).
Qed.

Lemma is_logged_iff p key d :
  is_logged p key d ↔ ∃ k r, inbound d !! k = Some r ∧ ib_partnerId r = Some p ∧ ib_messageKey r = key.
Proof.
  unfold is_logged. rewrite Exists_exists. split.
  - intros ([k r] & Hk%elem_of_map_to_list & H). eauto.
  - intros (k & r & Hk & H). exists (k, r). by rewrite elem_of_map_to_list.
Qed.
Lemma ids_kept_add r d : ids_kept d (add_inbound r d).
Proof.
  split; simpl; [lia| |].
  - intros k. destruct (decide (k = next d)) as [->|]; [auto with lia|]. rewrite lookup_insert_ne by done. auto.
  - intros Hf p key. rewrite !is_logged_iff. intros (k & x & Hk & H). exists k, x. split; [|done]. simpl.
    rewrite lookup_insert_ne; [done|]. intros <-. assert (next d < next d)%nat by (apply Hf; eauto). lia.
Qed.
Lemma ids_kept_update i f r d :
  inbound d !! i = Some r → ib_partnerId (f r) = ib_partnerId r → ib_messageKey (f r) = ib_messageKey r →
  ids_kept d (set_inbound <[i := f r]> (next d) d).
Proof.
  intros Hi E1 E2. split; simpl; [lia| |].
  - intros k. destruct (decide (k = i)) as [->|]; [eauto|]. rewrite lookup_insert_ne by done. auto.
  - intros _ p key. rewrite !is_logged_iff. intros (k & x & Hk & Hp & Hm). simpl.
    destruct (decide (k = i)) as [->|Hne]; [|exists k, x; by rewrite lookup_insert_ne].
    exists i, (f r). rewrite lookup_insert_eq. split_and!; congruence.
Qed.

Inductive astep (quiet : bool) (now : Z) (d d' : Desk) : Prop :=
| as_row k t t' :
    tickets d !! k = Some t → row_step quiet now (dir d) t t' →
    tickets d' = <[k := t']> (tickets d) → dir d' = dir d → sequences d' = sequences d →
    ids_kept d d' → astep quiet now d d'
| as_new t :
    born (dir d) (sequences d) t → ¬ number_taken t d →
    tickets d' = <[next d := t]> (tickets d) → dir d' = dir d → sequences d' = sequences d →
    (next d < next d')%nat → ids_kept d d' → astep quiet now d d'
| as_number p y c :
    default 0 (sequences d !! (p, y)) < c → sequences d' = <[(p, y) := c]> (sequences d) →
    tickets d' = tickets d → dir d' = dir d → ids_kept d d' → astep quiet now d d'
| as_frame :
    tickets d' = tickets d → dir d' = dir d → sequences d' = sequences d → ids_kept d d' →
    astep quiet now d d'.

Lemma astep_dir q now d d' : astep q now d d' → dir d' = dir d.
Proof. by destruct 1. Qed.
Lemma astep_fresh q now d d' : astep q now d d' → fresh d → fresh d'.
Proof.
  intros H Hf k Hk. destruct H as [j t t' Hj _ Et _ _ Hn|t _ _ Et _ _ Hn _|p y c _ _ Et _ Hn|Et _ _ Hn];
    rewrite Et in Hk; try apply ik_next in Hn.
  - destruct (decide (k = j)) as [->|]; [|rewrite lookup_insert_ne in Hk by done]; [pose proof (Hf j ltac:(eauto))|pose proof (Hf k Hk)]; lia.
  - destruct (decide (k = next d)) as [->|]; [lia|]. rewrite lookup_insert_ne in Hk by done. pose proof (Hf k Hk). lia.
  - pose proof (Hf k Hk). lia.
  - pose proof (Hf k Hk). lia.
Qed.

(** No announcement of a missed target. *)
Definition is_breach (e : Effect) : option (uuid * SlaTargetKind) :=
  match e with
  | Event e => match te_payload e with SlaBreached k _ _ _ => Some (te_ticketId e, k) | _ => None end
  | _ => None
  end.
Definition no_breach (e : Effect) : Prop := is_breach e = None.

Abbreviation steps q now := (rtc (astep q now)).

#[export] Instance steps_rel q now : DeskRel (steps q now) no_breach.
Proof.
  split; [apply _| | |done|done].
  - induction 1 as [|d d1 d2 H _ IH]; [done|]. rewrite IH. by eapply astep_dir.
  - induction 1 as [|d d1 d2 H _ IH]; [done|]. intros. eapply IH, astep_fresh; eauto.
Qed.

(** ** Steps of a row *)

Lemma row_ok_same t t' : tk_stage t' = tk_stage t → tk_breach t' = tk_breach t → row_ok t → row_ok t'.
Proof. intros E1 E2 []. split; rewrite ?E1, ?E2; auto. Qed.

Lemma clock_same now t t' : tk_stage t' = tk_stage t → clock_step now t t'.
Proof. intros E. left. by rewrite E. Qed.

(** A change of neither stage nor breach. *)
Lemma row_step_plain q now D t t' :
  same_identity t t' → tk_stage t' = tk_stage t → tk_breach t' = tk_breach t →
  (placed D t → placed D t') → row_step q now D t t'.
Proof.
  intros Hi Es Eb Hp. split; [done | by apply row_ok_same | done | by left; rewrite Es | by intros _; apply clock_same |].
  intros _ k. unfold reported. by rewrite Eb.
Qed.

(** A change of the stage alone. *)
Lemma row_step_stage q now D t s :
  (row_ok t → row_ok (set_stage s t)) →
  (sg_status s = status t ∨ sg_status s ∈ TICKET_STATUS_TRANSITIONS (status t)) →
  (q = true → clock_step now t (set_stage s t)) → row_step q now D t (set_stage s t).
Proof. intros Ho Hs Hc. split; [done | done | | done | done | done]. by intros []. Qed.

Lemma row_ok_stage t s : stage_ok s → row_ok t → row_ok (set_stage s t).
Proof. by intros ? []. Qed.

Lemma stage_patch_ok w actor opts ticket to statusId s :
  sg_status ticket = sg_status s → to ∈ TICKET_STATUS_TRANSITIONS (sg_status s) → stage_ok s →
  stage_ok (status_patch w actor opts ticket to statusId s).
Proof.
  destruct ticket as [s0 ? r0 ???? p0 m0], s as [s sid r c b n p pa pm].
  unfold status_patch, clock_patch, stage_patch, stage_ok. simpl. intros ->.
  destruct s, to; simpl; intros Hto; try (exfalso; set_solver); intros; destruct_and?; split_and?; by eauto.
Qed.

Lemma transition_clock w actor opts to statusId t :
  clock_step (w_now w) t (set_stage (status_patch w actor opts (tk_stage t) to statusId (tk_stage t)) t).
Proof.
  unfold clock_step, status_patch, clock_patch. simpl.
  replace (sg_status (stage_patch _ _ _ _ to _)) with to
    by (unfold stage_patch; destruct to; simpl; repeat case_bool_decide; done).
  assert (sg_slaPausedAt (stage_patch (w_now w) (ac_userId actor) opts (tk_stage t) to (tk_stage t)) = sg_slaPausedAt (tk_stage t) ∧
          sg_slaPausedMinutes (stage_patch (w_now w) (ac_userId actor) opts (tk_stage t) to (tk_stage t)) = sg_slaPausedMinutes (tk_stage t)) as [-> ->]
    by (unfold stage_patch; destruct to; simpl; repeat case_bool_decide; done).
  destruct (is_paused (status t)) eqn:E1, (is_paused to) eqn:E2; simpl; rewrite ?E1, ?E2.
  - by left.
  - right. right. split_and!; [done..|]. by intros p ->.
  - by right; left.
  - by left.
Qed.

Lemma status_patch_status w actor opts ticket to statusId s :
  sg_status (status_patch w actor opts ticket to statusId s) = to.
Proof.
  unfold status_patch, clock_patch, stage_patch. simpl.
  destruct to, (is_paused (sg_status ticket)); simpl; repeat case_bool_decide; done.
Qed.

Lemma transition_step q w D actor opts ticket to statusId t :
  status ticket = status t → to ∈ TICKET_STATUS_TRANSITIONS (status t) → (q = true → ticket = t) →
  row_step q (w_now w) D t (set_stage (status_patch w actor opts (tk_stage ticket) to statusId (tk_stage t)) t).
Proof.
  intros Es Hto Hq. apply row_step_stage.
  - intros Hok. apply row_ok_stage; [|done]. apply stage_patch_ok; [done..|]. apply Hok.
  - right. by rewrite status_patch_status.
  - intros E. rewrite (Hq E). apply transition_clock.
Qed.

Lemma relabel_step q now D i t : row_step q now D t (set_stage (with_statusId i (tk_stage t)) t).
Proof. apply row_step_stage; [intros []; by apply row_ok_stage | by left | by left]. Qed.

Lemma placed_same D t t' :
  tk_partnerId t' = tk_partnerId t → tk_orgId t' = tk_orgId t →
  (∀ x, fl_deviceId (tk_fields t') = Some x →
     fl_deviceId (tk_fields t) = Some x ∨ deviceOrgs D !! x = Some (tk_orgId t)) →
  (∀ u, tk_assignedTo t' = Some u →
     tk_assignedTo t = Some u ∨ ∃ p, users D !! u = Some p ∧ ticket_partner D t = Some p) →
  (∀ c, fl_categoryId (tk_fields t') = Some c →
     fl_categoryId (tk_fields t) = Some c ∨
     ∃ g, categories D !! c = Some g ∧ ticket_partner D t = Some (cg_partnerId g)) →
  placed D t → placed D t'.
Proof.
  intros Ep Eo Hd Ha Hc [Po Pd Pa Pc]. unfold ticket_partner in *. split; unfold ticket_partner; rewrite ?Ep, ?Eo.
  - done.
  - intros x [Hx|Hx]%Hd; auto.
  - intros u [Hu|Hu]%Ha; auto.
  - intros c [Hx|Hx]%Hc; auto.
Qed.

Lemma assigned_step q now D t a :
  (∀ u, a = Some u → ∃ p, users D !! u = Some p ∧ ticket_partner D t = Some p) →
  row_step q now D t (assigned t a t).
Proof.
  intros Ha. unfold assigned. case_bool_decide as E.
  - destruct E as [_ E]. split; [done | | | | |done]; simpl.
    + intros [Hs Hb]. split; [|done]. revert Hs. unfold stage_ok. by rewrite E.
    + apply placed_same; simpl; [done | done | by left | by right; apply Ha | by left].
    + right. rewrite E. simpl. set_solver.
    + intros _. left. simpl. by rewrite E.
  - apply row_step_plain; [done..|]. apply placed_same; simpl; [done | done | by left | by right; apply Ha | by left].
Qed.

Lemma first_response_step q now D at_ t : row_step q now D t (set_first_response at_ t).
Proof. by apply row_step_plain; [..|apply placed_same; auto]. Qed.
Lemma mail_step q now D m t : row_step q now D t (set_mail m t).
Proof. by apply row_step_plain; [..|apply placed_same; auto]. Qed.

Lemma reopened_step q now D t :
  status t = st_resolved → row_step q now D t (set_stage (reopened (tk_stage t)) t).
Proof.
  intros E. apply row_step_stage; simpl; rewrite ?E.
  - intros [Hs Hb]. apply row_ok_stage; [|done]. revert Hs. unfold stage_ok. rewrite E. simpl. tauto.
  - right. set_solver.
  - intros _. left. simpl. by rewrite E.
Qed.

Lemma fields_step q now D f t :
  (∀ x, fl_deviceId f = Some x → fl_deviceId (tk_fields t) = Some x ∨ deviceOrgs D !! x = Some (tk_orgId t)) →
  (∀ c, fl_categoryId f = Some c → fl_categoryId (tk_fields t) = Some c ∨
     ∃ g, categories D !! c = Some g ∧ ticket_partner D t = Some (cg_partnerId g)) →
  row_step q now D t (set_fields f t).
Proof. intros Hd Hc. apply row_step_plain; [done..|]. apply placed_same; auto. Qed.

Lemma patched_cases {A} b (sent : option A) column v : patched b sent column = v → column = v ∨ sent = Some v.
Proof. unfold patched. destruct b, sent; naive_solver. Qed.

Lemma move_step q now D t o g :
  orgs D !! o = Some g → og_partnerId <$> orgs D !! tk_orgId t = Some (og_partnerId g) →
  row_step q now D t (set_org o (without_device (tk_fields t)) t).
Proof.
  intros Ho Hs. apply row_step_plain; [done..|]. intros [Po _ Pa Pc].
  assert (ticket_partner D (set_org o (without_device (tk_fields t)) t) = ticket_partner D t) as Ep.
  { unfold ticket_partner. simpl. by rewrite Ho, Hs. }
  split; rewrite ?Ep; simpl; [|done|done|done]. intros p Hp. rewrite Ho. rewrite (Po p Hp) in Hs. by simplify_eq.
Qed.

(** ** Stamps *)

Lemma reported_kinds k t ks : NoDup ks → br_reason (tk_breach t) = reason_of ks → reported k t ↔ k ∈ ks.
Proof.
  intros Hnd Hr. unfold reported. rewrite Hr, <- (bool_decide_eq_true (k ∈ ks)), <- (bool_decide_eq_true (_ ∈ _)).
  destruct (kinds_cases ks Hnd) as [->|[->|[->|[->| ->]]]], k; vm_compute; done.
Qed.

Lemma stamp_reason now k t ks :
  k ∉ ks → NoDup ks → br_reason (tk_breach t) = reason_of ks →
  br_reason (tk_breach (stamp now k t)) = reason_of (ks ++ [k]).
Proof.
  intros Hk Hnd Hr. simpl. rewrite Hr.
  destruct (kinds_cases ks Hnd) as [->|[->|[->|[->| ->]]]], k; try done; exfalso; set_solver.
Qed.

Lemma NoDup_snoc (k : SlaTargetKind) ks : k ∉ ks → NoDup ks → NoDup (ks ++ [k]).
Proof. intros. apply NoDup_app. split_and!; [done | set_solver | apply NoDup_singleton]. Qed.

Lemma stamp_ok now k t : ¬ reported k t → row_ok t → row_ok (stamp now k t).
Proof.
  intros Hk [Hs (ks & Hnd & Hat & Hr)]. rewrite (reported_kinds k t ks) in Hk by done. split; [done|].
  exists (ks ++ [k]). split_and!; [by apply NoDup_snoc | | by apply stamp_reason].
  split; [done|]. by destruct ks.
Qed.

Lemma stamp_reported now k k' t :
  ¬ reported k t → row_ok t → reported k' (stamp now k t) ↔ k' = k ∨ reported k' t.
Proof.
  intros Hk [Hs (ks & Hnd & Hat & Hr)]. rewrite (reported_kinds k t ks) in Hk by done.
  rewrite (reported_kinds k' t ks), (reported_kinds k' (stamp now k t) (ks ++ [k]))
    by eauto using NoDup_snoc, stamp_reason. set_solver.
Qed.

Lemma stamp_step q now D k t : ¬ reported k t → row_step q now D t (stamp now k t).
Proof.
  intros Hk. split; [done | by apply stamp_ok | by intros [] | by left | by intros _; apply clock_same |].
  intros Hok k' Hk'. apply stamp_reported; auto.
Qed.

(** The tickets a sweep stamps: each once, and each due. *)
Lemma due_tickets_nodup now k d : NoDup (due_tickets now k d).*1.
Proof.
  unfold due_tickets. rewrite fmap_take. eapply sublist_NoDup; [|apply sublist_take].
  rewrite (merge_sort_Permutation _ _). eapply sublist_NoDup; [apply (NoDup_fst_map_to_list (tickets d))|].
  apply fmap_sublist, sublist_filter.
Qed.
Lemma due_tickets_due now k d i t : (i, t) ∈ due_tickets now k d → tickets d !! i = Some t ∧ is_due now k t.
Proof.
  unfold due_tickets. intros H%elem_of_take. destruct H as (n & H & _).
  apply list_elem_of_lookup_2 in H. rewrite (merge_sort_Permutation _ _) in H.
  apply list_elem_of_filter in H as [Hd Hi]. by apply elem_of_map_to_list in Hi.
Qed.

Definition stamp_all (now : Z) (k : SlaTargetKind) (l : list (uuid * Ticket)) (m : gmap uuid Ticket) : gmap uuid Ticket :=
  fold_left (λ m r, <[r.1 := stamp now k r.2]> m) l m.

Lemma stamp_all_lookup now k l m i :
  NoDup l.*1 → stamp_all now k l m !! i =
    match list_find (λ r, r.1 = i) l with Some (_, r) => Some (stamp now k r.2) | None => m !! i end.
Proof.
  revert m. induction l as [|r l IH]; intros m Hnd; [done|]. simpl in *.
  apply NoDup_cons in Hnd as [Hr Hnd]. rewrite IH by done. case_decide as E.
  - subst i. destruct (list_find _ l) as [[n r']|] eqn:Ef; [|by rewrite lookup_insert_eq].
    apply list_find_Some in Ef as (Hn & E & _). exfalso. apply Hr. rewrite <- E.
    apply list_elem_of_fmap_2. by eapply list_elem_of_lookup_2.
  - destruct (list_find _ l) as [[n r']|] eqn:Ef; simpl; [done|]. by rewrite lookup_insert_ne.
Qed.

Lemma stamp_all_steps q now k l d :
  NoDup l.*1 → (∀ i t, (i, t) ∈ l → tickets d !! i = Some t ∧ ¬ reported k t) →
  steps q now d (set_tickets (stamp_all now k l) (next d) d).
Proof.
  revert d. induction l as [|[i t] l IH]; intros d Hnd Hl; [by destruct d|].
  simpl in Hnd. apply NoDup_cons in Hnd as [Hi Hnd]. destruct (Hl i t) as [Ht Hk]; [set_solver|].
  eapply rtc_l; [|apply (IH (set_tickets <[i := stamp now k t]> (next d) d)); [done|]].
  - by eapply as_row; [done | apply stamp_step | .. | apply ids_kept_same].
  - intros j u Hj. simpl. rewrite lookup_insert_ne; [apply Hl; set_solver|].
    intros <-. apply Hi. by apply (list_elem_of_fmap_2 fst) in Hj.
Qed.

Lemma due_stamped q now k d : steps q now d (set_tickets (stamp_all now k (due_tickets now k d)) (next d) d).
Proof.
  apply stamp_all_steps; [apply due_tickets_nodup|]. intros i t [Ht Hd]%due_tickets_due. split; [done | apply Hd].
Qed.

(** ** Numbers *)

Lemma formatInternalNumber_inj y c y' c' :
  0 <= c → 0 <= c' → formatInternalNumber y c = formatInternalNumber y' c' → y = y' ∧ c = c'.
Proof.
  intros Hc Hc' H. unfold formatInternalNumber in H. apply (f_equal chars) in H.
  rewrite !chars_app, !String.list_ascii_of_string_of_list_ascii, (print_Z_nonneg c), (print_Z_nonneg c') in H by done.
  simpl in H. injection H as H. apply app_sep_inj_r in H as [H1 H2]; [|by apply pad_no_dash..].
  split; [by apply print_Z_inj|]. apply (f_equal digits_val) in H2. by rewrite !pad_val, !print_nat_val in H2 by done.
Qed.
