(* ===== verification/TicketRules.v ===== *)
(** * The handlers of the ticket desk take only steps of [TicketSteps]

    Rules for the statements the handlers share, then one lemma per handler: whichever of its
    statements fail, what it commits is reached by steps of [astep], and what it sends announces
    no missed target. *)

From S2P Require Import Prelude JsNum Json TicketSla TicketDesk Tickets InboundEmail TicketConfig TicketLogic TicketSteps.

Open Scope Z_scope.

Section guards.
Context (R : relation Desk) (Sent : Effect → Prop) `{!DeskRel R Sent}.
Abbreviation goes := (TicketLogic.goes R Sent).
Abbreviation goes_ret := (@TicketLogic.goes_ret R Sent _).
Abbreviation goes_bind := (@TicketLogic.goes_bind R Sent _).
Abbreviation goes_throw := (@TicketLogic.goes_throw R Sent _).
Abbreviation goes_post := (@TicketLogic.goes_post R Sent).
Abbreviation goes_require := (@TicketLogic.goes_require R Sent _).
Abbreviation goes_of_option := (@TicketLogic.goes_of_option R Sent _).
Abbreviation goes_query := (@TicketLogic.goes_query R Sent _).
Abbreviation goes_sys_read := (@TicketLogic.goes_sys_read R Sent _).

(** ** Guards *)

Lemma goes_getTicket i (P : Desk → Prop) : goes P (getTicketOrThrow i) (λ t d, P d ∧ tickets d !! i = Some t).
Proof.
  eapply goes_bind; [apply goes_query|]. intros o. eapply goes_post; [|apply goes_of_option].
  simpl. naive_solver.
Qed.

Lemma goes_partner t (P : Desk → Prop) :
  goes P (resolveTicketPartnerId t) (λ p d, P d ∧ p = ticket_partner (dir d) t).
Proof.
  unfold resolveTicketPartnerId, ticket_partner. destruct (tk_partnerId t); [by apply goes_ret|].
  eapply goes_post; [|apply goes_query]. simpl. naive_solver.
Qed.

(** A check that is made when a value was given. *)
Lemma goes_optional {A} (o : option A) (m : A → TM unit) (P : Desk → Prop) (F : A → Desk → Prop) :
  (∀ a, goes P (m a) (λ _ d, P d ∧ F a d)) →
  goes P (match o with Some a => m a | None => mret tt end) (λ _ d, P d ∧ ∀ a, o = Some a → F a d).
Proof.
  intros Hm. destruct o as [a|]; [|by apply goes_ret]. eapply goes_post; [|apply Hm]. simpl. naive_solver.
Qed.

Lemma goes_assignee a p (P : Desk → Prop) :
  goes P (assertAssigneeInPartner a p) (λ _ d, P d ∧ ∃ x, users (dir d) !! a = Some x ∧ p = Some x).
Proof.
  eapply goes_bind; [apply goes_sys_read|]. intros o. simpl. eapply goes_bind; [apply goes_of_option|]. intros x.
  eapply goes_bind; [apply goes_of_option|]. intros y. eapply goes_post; [|apply goes_require].
  intros [] d [[[[HP (b & Ed & ->)] Hx] Hy] ->%bool_decide_eq_true]. rewrite Ed in Hx. eauto.
Qed.

Lemma goes_category c p (P : Desk → Prop) :
  goes P (assertCategoryInPartner c p)
    (λ g d, P d ∧ categories (dir d) !! c = Some g ∧ p = Some (cg_partnerId g)).
Proof.
  eapply goes_bind; [apply goes_sys_read|]. intros o. simpl. eapply goes_bind; [apply goes_of_option|]. intros g.
  eapply goes_bind; [apply goes_of_option|]. intros y. eapply goes_bind; [apply goes_require|]. intros [].
  apply goes_ret. intros d [[[[HP (b & Ed & ->)] Hx] Hy] E%bool_decide_eq_true]. rewrite Ed in Hx.
  subst y. done.
Qed.

Lemma goes_device x o (P : Desk → Prop) :
  goes P (assert_device_in_org x o) (λ _ d, P d ∧ deviceOrgs (dir d) !! x = Some o).
Proof.
  eapply goes_bind; [apply goes_query|]. intros v. eapply goes_bind; [apply goes_of_option|]. intros y.
  eapply goes_post; [|apply goes_require]. intros [] d [[[HP ->] Hx] ->%bool_decide_eq_true]. done.
Qed.

(** Reads whose result the steps do not depend on. *)
Lemma goes_read {A} (f : Desk → A) (P : Desk → Prop) : goes P (sys_read f) (λ _, P).
Proof. eapply goes_post; [|apply goes_sys_read]. simpl. tauto. Qed.

Lemma goes_requester i o (P : Desk → Prop) : goes P (assertRequesterInOrg i o) (λ _, P).
Proof.
  eapply goes_bind; [apply goes_read|]. intros v. eapply goes_bind; [apply goes_of_option|]. intros u.
  eapply goes_bind; [apply goes_require|]. intros []. apply goes_ret. tauto.
Qed.
Lemma goes_resolve_requester input actor (P : Desk → Prop) : goes P (resolve_requester input actor) (λ _, P).
Proof.
  unfold resolve_requester. case_bool_decide; [by apply goes_ret|].
  destruct (ci_submittedBy input); [|by case_match; apply goes_ret].
  eapply goes_bind; [apply goes_requester|]. intros u. by apply goes_ret.
Qed.

(** What [changeTicketStatus] and [assignTicket] know before they write. *)
Lemma goes_load_change i target :
  goes (λ _, True) (load_change i target) (λ c d, tickets d !! i = Some c.1).
Proof.
  eapply goes_bind; [apply goes_getTicket|]. intros t. eapply goes_bind; [apply goes_require|]. intros [].
  eapply goes_bind; [apply goes_partner|]. intros p.
  apply goes_bind with (Q := λ _ d, tickets d !! i = Some t); [|intros r; by apply goes_ret].
  unfold resolve_target. destruct (ct_statusId target) as [sid|].
  - eapply goes_bind; [apply goes_read|]. intros row. eapply goes_bind; [apply goes_of_option|]. intros r.
    eapply goes_bind; [apply goes_require|]. intros []. eapply goes_bind; [apply goes_require|]. intros [].
    apply goes_ret. naive_solver.
  - destruct (ct_status target); [|apply goes_throw].
    apply goes_bind with (Q := λ _ d, tickets d !! i = Some t); [|intros r; by apply goes_ret].
    destruct p; [|apply goes_ret; intros; tauto]. eapply goes_post; [|apply goes_read]. simpl. tauto.
Qed.

Lemma goes_load_assignment i a :
  goes (λ _, True) (load_assignment i a) (λ t d, tickets d !! i = Some t ∧
    ∀ u, a = Some u → ∃ p, users (dir d) !! u = Some p ∧ ticket_partner (dir d) t = Some p).
Proof.
  eapply goes_bind; [apply goes_getTicket|]. intros t.
  eapply goes_bind; [apply goes_optional with
    (F := λ u d, ∃ p, users (dir d) !! u = Some p ∧ ticket_partner (dir d) t = Some p)
    |intros []; apply goes_ret; intros d [[_ Ht] Ha]; by split].
  intros u. eapply goes_bind; [apply goes_partner|]. intros p. eapply goes_post; [|apply goes_assignee]. naive_solver.
Qed.
End guards.

Section rules.
Context (q : bool) (w : World).
Abbreviation R := (rtc (astep q (w_now w))).
Abbreviation goes := (TicketLogic.goes R no_breach).
Abbreviation goes_ret := (@TicketLogic.goes_ret R no_breach (steps_rel q (w_now w))).
Abbreviation goes_throw := (@TicketLogic.goes_throw R no_breach (steps_rel q (w_now w))).
Abbreviation goes_bind := (@TicketLogic.goes_bind R no_breach (steps_rel q (w_now w))).
Abbreviation goes_conseq := (@TicketLogic.goes_conseq R no_breach).
Abbreviation goes_post := (@TicketLogic.goes_post R no_breach).
Abbreviation goes_pre := (@TicketLogic.goes_pre R no_breach).
Abbreviation goes_stmt := (@TicketLogic.goes_stmt R no_breach (steps_rel q (w_now w))).
Abbreviation goes_write := (@TicketLogic.goes_write R no_breach (steps_rel q (w_now w))).
Abbreviation goes_require := (@TicketLogic.goes_require R no_breach (steps_rel q (w_now w))).
Abbreviation goes_of_option := (@TicketLogic.goes_of_option R no_breach (steps_rel q (w_now w))).
Abbreviation goes_query := (@TicketLogic.goes_query R no_breach (steps_rel q (w_now w))).
Abbreviation goes_sys_read := (@TicketLogic.goes_sys_read R no_breach (steps_rel q (w_now w))).
Abbreviation goes_send := (@TicketLogic.goes_send R no_breach (steps_rel q (w_now w))).
Abbreviation goes_event := (@TicketLogic.goes_event R no_breach (steps_rel q (w_now w))).
Abbreviation goes_audit := (@TicketLogic.goes_audit R no_breach (steps_rel q (w_now w))).
Abbreviation goes_catch := (@TicketLogic.goes_catch R no_breach (steps_rel q (w_now w))).
Abbreviation goes_rethrow := (@TicketLogic.goes_rethrow R no_breach).
Abbreviation goes_swallow := (@TicketLogic.goes_swallow R no_breach (steps_rel q (w_now w))).
Abbreviation goes_feedback := (@TicketLogic.goes_feedback R no_breach (steps_rel q (w_now w))).
Abbreviation goes_savepoint := (@TicketLogic.goes_savepoint R no_breach (steps_rel q (w_now w))).

Abbreviation goes_getTicket := (@TicketRules.goes_getTicket R no_breach (steps_rel q (w_now w))).
Abbreviation goes_partner := (@TicketRules.goes_partner R no_breach (steps_rel q (w_now w))).
Abbreviation goes_optional := (@TicketRules.goes_optional R no_breach (steps_rel q (w_now w))).
Abbreviation goes_assignee := (@TicketRules.goes_assignee R no_breach (steps_rel q (w_now w))).
Abbreviation goes_category := (@TicketRules.goes_category R no_breach (steps_rel q (w_now w))).
Abbreviation goes_device := (@TicketRules.goes_device R no_breach (steps_rel q (w_now w))).
Abbreviation goes_read := (@TicketRules.goes_read R no_breach (steps_rel q (w_now w))).
Abbreviation goes_requester := (@TicketRules.goes_requester R no_breach (steps_rel q (w_now w))).
Abbreviation goes_resolve_requester := (@TicketRules.goes_resolve_requester R no_breach (steps_rel q (w_now w))).

(** ** Statements *)

(** A statement that touches neither tickets nor numbers. *)
Definition frames (d d' : Desk) : Prop :=
  tickets d' = tickets d ∧ dir d' = dir d ∧ sequences d' = sequences d ∧ ids_kept d d'.

Lemma frames_same d d' :
  tickets d' = tickets d → dir d' = dir d → sequences d' = sequences d → inbound d' = inbound d →
  (next d <= next d')%nat → frames d d'.
Proof. intros. split_and!; [done..|]. by apply ids_kept_same. Qed.
Lemma frames_add r d : frames d (add_inbound r d).
Proof. split_and!; [done..|]. apply ids_kept_add. Qed.

Lemma frames_step d d' : frames d d' → R d d'.
Proof. intros (?&?&?&?). apply rtc_once. by apply as_frame. Qed.

Lemma goes_frame {A} (f : Desk → outcome TicketError (A * Desk)) (P : Desk → Prop) :
  (∀ d a d', f d = Ok (a, d') → frames d d') →
  goes P (stmt f) (λ _ d, ∃ d0, P d0 ∧ frames d0 d).
Proof.
  intros Hf. apply goes_stmt; intros d a d' _ HP E. apply Hf in E as Hfr.
  split_and!; [by apply frames_step | apply Hfr | eauto].
Qed.
Lemma goes_frame_write {A} (f : Desk → A * Desk) (P : Desk → Prop) :
  (∀ d, frames d (f d).2) → goes P (write f) (λ _ d, ∃ d0, P d0 ∧ frames d0 d).
Proof. intros Hf. apply goes_frame. intros d a d' [= E]. specialize (Hf d). by rewrite E in Hf. Qed.

Lemma goes_comment c (P : Desk → Prop) : goes P (insert_comment c) (λ _ d, ∃ d0, P d0 ∧ frames d0 d).
Proof. apply goes_frame_write. intros d. apply frames_same; simpl; auto with lia. Qed.

Lemma goes_update i (G : Ticket → bool) f (P : Desk → Prop) :
  (∀ d t, P d → tickets d !! i = Some t → G t = true → row_step q (w_now w) (dir d) t (f t)) →
  goes P (update_ticket i G f) (λ _ d, ∃ d0, P d0 ∧ dir d = dir d0).
Proof.
  intros Hf. apply goes_write; intros d _ HP. destruct (tickets d !! i) as [t|] eqn:E; [|by split_and!; [..|by eauto]].
  destruct (G t) eqn:Eg; [|by split_and!; [..|by eauto]]. split_and!; [|done|by eauto].
  apply rtc_once. by eapply as_row; simpl; eauto using ids_kept_same.
Qed.

Lemma goes_insert t (P : Desk → Prop) :
  (∀ d, P d → born (dir d) (sequences d) t) →
  goes P (insert_ticket t) (λ i d, ∃ d0, P d0 ∧ dir d = dir d0).
Proof.
  intros Hb. apply goes_stmt; intros d a d' _ HP. destruct (decide _) as [|Hn]; [done|].
  intros [= <- <-]. split_and!; [|done|by eauto]. apply rtc_once.
  eapply as_new; simpl; eauto. apply ids_kept_same; simpl; auto with lia.
Qed.

(** The counter is written on a connection of its own: both desks have it. *)
Lemma goes_allocate p (P : Desk → Prop) :
  goes P (allocateInternalTicketNumber w p) (λ n d,
    (∃ d0, P d0 ∧ dir d = dir d0) ∧ ∃ y c, n = formatInternalNumber y c ∧ sequences d !! (p, y) = Some c ∧ 1 <= c).
Proof.
  apply goes_bind with (Q := λ c d, (∃ d0, P d0 ∧ dir d = dir d0) ∧ sequences d !! (p, w_year w (w_now w)) = Some c).
  - intros t Ha Hp. unfold sys_write.
    destruct (fault t); [by split; [apply moved_same; [apply _|..]|]|].
    set (c := match sequences _ !! _ with Some _ => _ | _ => _ end). simpl.
    assert (∀ d, sequences d = sequences (tx_base t) →
      R d (set_sequences (<[(p, w_year w (w_now w)) := c]> (sequences d)) d)) as HR.
    { intros d Ed. apply rtc_once. eapply as_number; simpl; eauto; [|by apply ids_kept_same]. rewrite Ed. unfold c. case_match; simpl; lia. }
    split.
    + destruct Ha as [Hb Hd Ht]. split; simpl; [split; simpl; [done | done |] | by apply HR | |exists []; by rewrite app_nil_r].
      * intros Hl. destruct (Ht Hl) as [Hf Es]. by rewrite Es.
      * intros Hl. split; [done|]. by apply HR, Ht.
    + intros Hl. split; [by eexists; split; [apply Hp|]|]. simpl. by rewrite lookup_insert_eq.
  - intros c. eapply goes_bind; [apply goes_require|]. intros []. apply goes_ret.
    intros d [[HP Hs] Hc]. split; [done|]. exists (w_year w (w_now w)), c. split_and!; [done | done | lia].
Qed.

(** ** createTicket *)

(** What the checks of [createTicket] establish. *)
Definition creatable (input : CreateTicketInput) (org : Org) (D : Directory) : Prop :=
  orgs D !! ci_orgId input = Some org ∧
  (∀ x, ci_deviceId input = Some x → deviceOrgs D !! x = Some (ci_orgId input)) ∧
  (∀ u, ci_assigneeId input = Some u → ∃ p, users D !! u = Some p ∧ Some (og_partnerId org) = Some p) ∧
  (∀ c, ci_categoryId input = Some c → ∃ g, categories D !! c = Some g ∧ Some (og_partnerId org) = Some (cg_partnerId g)).

Lemma new_ticket_born input org statusId sla y c who D seqs :
  creatable input org D → seqs !! (og_partnerId org, y) = Some c → 1 <= c →
  born D seqs (new_ticket w input org statusId sla (formatInternalNumber y c) who).
Proof.
  intros (Ho & Hd & Ha & Hc) Hs H1. split.
  - split; [|exists []; split_and!; [constructor | done | done]].
    unfold stage_ok. simpl. unfold initial_status. by destruct (ci_assigneeId input).
  - split; simpl; [|done|done|done]. intros p [= <-]. by rewrite Ho.
  - exists (initial_status input), statusId. split; [done|]. unfold initial_status.
    destruct (ci_assigneeId input); auto.
  - intros k. rewrite (reported_kinds k _ []); [apply not_elem_of_nil | constructor | done].
  - by exists (og_partnerId org), y, c.
Qed.

Lemma goes_createTicket input actor (P : Desk → Prop) : goes P (createTicket w input actor) (λ _ _, True).
Proof.
  eapply goes_bind; [apply goes_query|]. intros o. eapply goes_bind; [apply goes_of_option|]. intros org.
  eapply goes_bind; [apply goes_optional; intros a; apply goes_device|]. intros [].
  eapply goes_bind; [apply goes_optional; intros a; apply goes_assignee|]. intros [].
  apply goes_bind with (Q := λ _ d, creatable input org (dir d)).
  { unfold creatable. destruct (ci_categoryId input) as [c|].
    - eapply goes_bind; [apply goes_category|]. intros g. apply goes_ret. naive_solver.
    - apply goes_ret. naive_solver. }
  intros category. eapply goes_bind; [apply goes_resolve_requester|]. intros who.
  eapply goes_bind; [apply goes_read|]. intros orgSla. eapply goes_bind; [apply goes_read|]. intros partnerSla.
  eapply goes_bind; [apply goes_read|]. intros statusId. eapply goes_bind; [apply goes_allocate|]. intros number.
  eapply goes_bind; [apply goes_insert|].
  { intros d [(d0 & Hc & ->) (y & c & -> & Hs & H1)]. by apply new_ticket_born. }
  intros i. eapply goes_bind; [by apply goes_event|]. intros [].
  eapply goes_bind; [apply goes_audit|]. intros []. by apply goes_ret.
Qed.

(** ** Walking through a handler *)

Ltac desk_rule := first
  [ apply goes_comment | apply goes_audit | apply goes_event; done | apply goes_require | apply goes_of_option
  | apply goes_getTicket | apply goes_partner | apply goes_feedback | apply goes_createTicket | apply goes_query
  | apply goes_read | apply goes_requester | apply goes_throw | apply goes_ret; done ].

(** Forgets what is known whenever no rule fits. *)
Ltac walk :=
  lazymatch goal with
  | |- TicketLogic.goes _ _ _ (mret _) _ => apply goes_ret; done
  | |- TicketLogic.goes _ _ _ (mbind _ _) _ =>
      first [ eapply goes_bind; [solve [desk_rule]|]; intros ?; walk
            | apply goes_bind with (Q := λ _ _, True); [walk | intros ?; walk] ]
  | |- TicketLogic.goes _ _ _ (match _ with _ => _ end) _ => case_match; walk
  | |- _ => first [ solve [desk_rule] | eapply goes_post; [|solve [desk_rule]]; done | idtac ]
  end.

Lemma goes_relabel i ticket statusId name actor (P : Desk → Prop) :
  goes P (relabel w i ticket statusId name actor) (λ _ _, True).
Proof.
  eapply goes_bind; [apply goes_update; intros; apply relabel_step|]. intros r. walk.
Qed.

(** The row that was read, unless others commit in between. *)
Lemma goes_transition i ticket to statusId name opts actor (P : Desk → Prop) :
  (q = true → ∀ d, P d → tickets d !! i = Some ticket) →
  goes P (transition w i ticket to statusId name opts actor) (λ _ _, True).
Proof.
  intros Hq. eapply goes_bind; [apply goes_require|]. intros []. eapply goes_bind; [apply goes_require|]. intros [].
  eapply goes_bind; [apply goes_update|intros r; walk].
  intros d t [[HP Hto%bool_decide_eq_true] _] Ht Es%bool_decide_eq_true.
  apply transition_step; [done | by rewrite Es | intros E; specialize (Hq E d HP); congruence].
Qed.

Lemma goes_requester_patch f o (P : Desk → Prop) : goes P (requester_patch f o) (λ _, P).
Proof.
  unfold requester_patch. destruct (uf_submittedBy f) as [[u|]|]; [|by apply goes_ret..].
  eapply goes_bind; [apply goes_requester|]. intros u'. by apply goes_ret.
Qed.

Lemma goes_updateTicketFields i f actor (P : Desk → Prop) :
  goes P (updateTicketFields w i f actor) (λ _ _, True).
Proof.
  eapply goes_bind; [apply goes_getTicket|]. intros ticket.
  apply goes_bind with (Q := λ _ d, tickets d !! i = Some ticket ∧
    ∀ x, uf_deviceId f = Some (Some x) → deviceOrgs (dir d) !! x = Some (tk_orgId ticket)).
  { destruct (uf_deviceId f) as [[x|]|]; [|apply goes_ret; naive_solver..].
    eapply goes_post; [|apply goes_device]. naive_solver. }
  intros []. apply goes_bind with (Q := λ _ d, (tickets d !! i = Some ticket ∧
    ∀ x, uf_deviceId f = Some (Some x) → deviceOrgs (dir d) !! x = Some (tk_orgId ticket)) ∧
    ∀ c, uf_categoryId f = Some (Some c) →
      ∃ g, categories (dir d) !! c = Some g ∧ ticket_partner (dir d) ticket = Some (cg_partnerId g)).
  { destruct (uf_categoryId f) as [[c|]|]; [|apply goes_ret; naive_solver..].
    eapply goes_bind; [apply goes_partner|]. intros p. eapply goes_bind; [apply goes_category|]. intros g.
    apply goes_ret. naive_solver. }
  intros []. eapply goes_bind; [apply goes_requester_patch|].
  intros who. simpl. case_match; [by apply goes_ret|].
  eapply goes_bind; [apply goes_update|intros r; walk].
  intros d t [[Ht Hd] Hc] Ht' _. assert (t = ticket) as -> by congruence. apply fields_step; simpl.
  - intros x [Hx|Hx]%patched_cases; auto.
  - intros c [Hx|Hx]%patched_cases; auto.
Qed.

(** ** Comments, links, moves *)

Lemma goes_update_comment c f (P : Desk → Prop) : goes P (update_comment c f) (λ _ d, ∃ d0, P d0 ∧ frames d0 d).
Proof. apply goes_frame_write. intros d. case_match; by apply frames_same. Qed.

Lemma goes_load_comment c (P : Desk → Prop) : goes P (loadCommentWithTicket c) (λ _ _, True).
Proof. unfold loadCommentWithTicket. walk. Qed.
Lemma goes_editable c actor any (P : Desk → Prop) : goes P (assertCommentEditable c actor any) (λ _ _, True).
Proof. unfold assertCommentEditable. walk. Qed.

Lemma goes_addTicketComment i content public actor (P : Desk → Prop) :
  goes P (addTicketComment w i content public actor) (λ _ _, True).
Proof.
  eapply goes_bind; [apply goes_getTicket|]. intros t. eapply goes_bind; [apply goes_comment|]. intros c. simpl.
  apply goes_bind with (Q := λ _ _, True); [|intros []; walk].
  case_match; [|by apply goes_ret]. eapply goes_bind; [|intros r; walk].
  apply goes_update. intros. apply first_response_step.
Qed.

Ltac desk_rule ::= first
  [ apply goes_comment | apply goes_audit | apply goes_event; done | apply goes_require | apply goes_of_option
  | apply goes_getTicket | apply goes_partner | apply goes_feedback | apply goes_createTicket | apply goes_query
  | apply goes_read | apply goes_requester | apply goes_throw | apply goes_ret; done
  | apply goes_update_comment | apply goes_load_comment | apply goes_editable
  | apply goes_frame_write; intros ?; repeat case_match; apply frames_same; simpl; auto with lia ].

Lemma goes_editTicketComment c content actor any expectedTicketId (P : Desk → Prop) :
  goes P (editTicketComment w c content actor any expectedTicketId) (λ _ _, True).
Proof. unfold editTicketComment. walk. Qed.
Lemma goes_deleteTicketComment c actor any expectedTicketId (P : Desk → Prop) :
  goes P (deleteTicketComment w c actor any expectedTicketId) (λ _ _, True).
Proof. unfold deleteTicketComment. walk. Qed.

Lemma goes_linkAlert i a actor ty (P : Desk → Prop) : goes P (linkAlertToTicket w i a actor ty) (λ _ _, True).
Proof. unfold linkAlertToTicket, insert_link. walk. Qed.
Lemma goes_unlinkAlert i a actor (P : Desk → Prop) : goes P (unlinkAlertFromTicket w i a actor) (λ _ _, True).
Proof. unfold unlinkAlertFromTicket. walk. Qed.
Lemma goes_createTicketFromAlert a actor o (P : Desk → Prop) :
  goes P (createTicketFromAlert w a actor o) (λ _ _, True).
Proof.
  unfold createTicketFromAlert. walk. apply goes_rethrow.
  eapply goes_bind; [apply goes_linkAlert|]. intros l. walk.
Qed.

Lemma goes_moveTicketOrg i o actor (P : Desk → Prop) : goes P (moveTicketOrg w i o actor) (λ _ _, True).
Proof.
  eapply goes_bind; [apply goes_getTicket|]. intros t. case_match; [by apply goes_ret|].
  eapply goes_bind; [apply goes_query|]. intros rows. eapply goes_bind; [apply goes_of_option|]. intros g.
  eapply goes_bind; [apply goes_require|]. intros [].
  eapply goes_bind; [apply goes_savepoint with (Q := λ _ _, True)|intros r; walk].
  - eapply goes_bind; [apply goes_update|intros r; walk].
    intros d t' [[[[_ Ht] ->] Hg] Hp%bool_decide_eq_true] Ht' _. simpl in *. simplify_eq. by eapply move_step.
  - repeat (apply inside_bind; [apply inside_stmt|]; intros ?). apply inside_ret.
Qed.

(** ** The customer portal *)

Lemma goes_portal_create u subject description priority (P : Desk → Prop) :
  goes P (portal_create w u subject description priority) (λ _ _, True).
Proof. unfold portal_create. walk. Qed.
Lemma goes_portal_comment u i content (P : Desk → Prop) : goes P (portal_comment w u i content) (λ _ _, True).
Proof. unfold portal_comment. walk. Qed.
Lemma goes_mutable c u (P : Desk → Prop) : goes P (assert_mutable c u) (λ _ _, True).
Proof. unfold assert_mutable, portalCommentMutable. walk. Qed.
Lemma goes_portal_edit u i c content (P : Desk → Prop) : goes P (portal_edit_comment w u i c content) (λ _ _, True).
Proof.
  unfold portal_edit_comment. eapply goes_bind; [apply goes_require|]. intros [].
  eapply goes_bind; [apply goes_mutable|]. intros []. eapply goes_bind; [apply goes_editTicketComment|].
  intros r. walk.
Qed.
Lemma goes_portal_delete u i c (P : Desk → Prop) : goes P (portal_delete_comment w u i c) (λ _ _, True).
Proof.
  unfold portal_delete_comment. eapply goes_bind; [apply goes_mutable|]. intros [].
  eapply goes_bind; [apply goes_deleteTicketComment|]. intros r. walk.
Qed.

(** ** The sweep *)

Lemma goes_stampBreaches k (P : Desk → Prop) :
  goes P (stampBreaches w k) (λ rows d, ∃ d0, P d0 ∧
    rows = (λ r, (r.1, stamp (w_now w) k r.2)) <$> due_tickets (w_now w) k d0 ∧
    d = set_tickets (stamp_all (w_now w) k (due_tickets (w_now w) k d0)) (next d0) d0).
Proof. apply goes_write. intros d _ HP. split_and!; [apply due_stamped | done | by eexists]. Qed.

(** ** Mail *)

Lemma goes_sys_frame {A} (f : Desk → outcome TicketError (A * (Desk → Desk))) (P : Desk → Prop) :
  (∀ d a g, f d = Ok (a, g) → ∀ d', frames d' (g d')) → goes P (sys_write f) (λ _ _, True).
Proof.
  intros Hf t Ha Hp. assert (moved R no_breach t (consumed t)) as Hs by (apply moved_same; [apply _ | done | done]).
  unfold sys_write. destruct (fault t); [done|]. destruct (f (tx_base t)) as [[a g]|e] eqn:E; [|done].
  specialize (Hf _ _ _ E). split; [|done]. destruct Ha as [Hb Hd Ht].
  pose proof (frames_step _ _ (Hf (tx_base t))) as Rb. pose proof (frames_step _ _ (Hf (tx_tables t))) as Rt.
  split; simpl; [|done|done|exists []; by rewrite app_nil_r].
  split; simpl; [by eapply R_fresh | rewrite (R_dir _ _ Rb), (R_dir _ _ Rt); done |].
  intros Hl. destruct (Ht Hl) as [Hfr Es]. split; [by eapply R_fresh|].
  destruct (Hf (tx_base t)) as (_ & _ & -> & _), (Hf (tx_tables t)) as (_ & _ & -> & _). done.
Qed.

(** What was logged for a partner is found again. *)
Definition logged (n : NormalizedInboundEmail) (p : option uuid) (d : Desk) : Prop :=
  ∀ x, p = Some x → is_logged x (em_providerMessageId n) d.

Lemma goes_logInbound n p st i e (P : Desk → Prop) : goes P (logInbound n p st i e) (λ _, logged n p).
Proof.
  apply goes_stmt. intros d a d' _ _. case_match; [done|]. intros [= _ <-].
  split_and!; [apply frames_step, frames_add | done|]. intros x ->. apply is_logged_iff.
  exists (next d), (inbound_row n (Some x) st i e). split; [apply lookup_insert_eq | done].
Qed.
Lemma goes_logFailed n p (P : Desk → Prop) : goes P (logInboundFailedDurable n p) (λ _ _, True).
Proof.
  eapply goes_catch with (Q := λ _ _, True); [apply goes_sys_frame|intros e; by apply goes_ret]. intros d a g. case_match; [done|].
  intros [= _ <-] d'. apply frames_add.
Qed.

Lemma goes_ticket_where p G `{!∀ t, Decision (G t)} (P : Desk → Prop) : goes P (ticket_where p G) (λ _ _, True).
Proof. unfold ticket_where. walk. Qed.
Lemma goes_by_thread n p (G : Ticket → Prop) (T : list string → Ticket → Prop)
    `{!∀ t, Decision (G t)} `{!∀ l t, Decision (T l t)} (P : Desk → Prop) :
  goes P (by_thread_or_token n p G T) (λ _ _, True).
Proof.
  unfold by_thread_or_token. apply goes_bind with (Q := λ _ _, True).
  - case_match; [walk | apply goes_ticket_where].
  - intros o. repeat case_match; first [apply goes_ticket_where | walk].
Qed.

Lemma goes_autoresponse n p i o number subject (P : Desk → Prop) :
  goes P (maybeSendAutoresponse w n p i o number subject) (λ _ _, True).
Proof.
  unfold maybeSendAutoresponse. case_match; [by apply goes_ret|].
  apply goes_bind with (Q := λ _ _, True); [|intros b; walk].
  eapply goes_catch with (Q := λ _ _, True); [|intros e; by apply goes_ret].
  eapply goes_bind; [apply goes_query|]. intros x. by apply goes_ret.
Qed.

Lemma goes_createFromEmail n p o key prior by_ (P : Desk → Prop) :
  goes P (createFromEmail w n p o key prior by_) (λ _ _, True).
Proof.
  unfold createFromEmail. eapply goes_bind; [apply goes_query|]. intros org.
  eapply goes_bind; [apply goes_require|]. intros []. eapply goes_bind; [apply goes_createTicket|]. intros t. simpl.
  eapply goes_bind; [apply goes_update; intros; apply mail_step|]. intros r.
  apply goes_bind with (Q := λ _ _, True); [|intros []; by apply goes_ret].
  case_match; [|by apply goes_ret]. case_match; [by apply goes_ret|].
  eapply goes_bind; [apply goes_query|]. intros x. apply goes_autoresponse.
Qed.
Lemma goes_create_and_log n p o key prior by_ (P : Desk → Prop) :
  goes P (create_and_log w n p o key prior by_) (λ _, logged n (Some p)).
Proof. eapply goes_bind; [apply goes_createFromEmail|]. intros i. apply goes_logInbound. Qed.

Lemma goes_contact o email name (P : Desk → Prop) : goes P (findOrCreateEmailContact o email name) (λ _ _, True).
Proof.
  unfold findOrCreateEmailContact. eapply goes_bind; [apply goes_query|]. intros x. case_match; [by apply goes_ret|].
  eapply goes_post; [|apply goes_frame_write]; [done|]. intros d. apply frames_same; simpl; auto with lia.
Qed.

Lemma goes_route_unmatched n p (P : Desk → Prop) : goes P (route_unmatched w n p) (λ _, logged n (Some p)).
Proof.
  unfold route_unmatched. eapply goes_bind; [apply goes_query|]. intros sender.
  destruct sender as [[u row]|]; [apply goes_create_and_log|].
  apply goes_bind with (Q := λ _ _, True).
  { unfold resolveOrgBySenderDomain. walk. }
  intros m. destruct m as [e|].
  - apply goes_bind with (Q := λ _ _, True); [|intros b; apply goes_create_and_log].
    case_match; [|by apply goes_ret]. eapply goes_bind; [apply goes_contact|]. intros u. by apply goes_ret.
  - apply goes_bind with (Q := λ _ _, True); [unfold loadPartnerInboundPolicy; walk|].
    intros [b v]. destruct b, v; try apply goes_logInbound. case_match; [|apply goes_logInbound].
    apply goes_bind with (Q := λ _ _, True); [|intros o; apply goes_create_and_log].
    unfold uuid_param. case_match; [by apply goes_ret|]. by apply goes_stmt.
Qed.

Lemma goes_route_verified n p (P : Desk → Prop) : goes P (route_verified w n p) (λ _, logged n (Some p)).
Proof.
  unfold route_verified. eapply goes_bind; [apply goes_by_thread|]. intros [[i t]|].
  - eapply goes_bind; [apply goes_require|]. intros [].
    apply goes_bind with (Q := λ _ _, True); [unfold appendInboundComment; walk|]. intros [].
    apply goes_bind with (Q := λ _ _, True); [|intros []; apply goes_logInbound].
    case_match; [|by apply goes_ret]. eapply goes_bind; [|intros r; by apply goes_ret].
    apply goes_update. intros d t' _ _ [_ E%bool_decide_eq_true]%andb_prop. by apply reopened_step.
  - eapply goes_bind; [apply goes_by_thread|]. intros [[i t]|]; [apply goes_create_and_log | apply goes_route_unmatched].
Qed.

Lemma goes_process n p (P : Desk → Prop) : goes P (process_for_partner w n p) (λ _, logged n (Some p)).
Proof.
  unfold process_for_partner. eapply goes_bind; [apply goes_query|]. intros x.
  case_match; [apply goes_logInbound|]. case_match; [apply goes_logInbound|].
  eapply goes_bind; [apply goes_query|]. intros b. simpl. destruct b.
  { apply goes_ret. intros d [_ E]. symmetry in E. apply bool_decide_eq_true in E. by intros y [= <-]. }
  case_match; [apply goes_logInbound | apply goes_route_verified].
Qed.

Lemma goes_processInboundEmail n (P : Desk → Prop) : goes P (processInboundEmail w n) (λ _ _, True).
Proof.
  unfold processInboundEmail. apply goes_bind with (Q := λ _ _, True).
  - eapply goes_catch with (Q := λ _ _, True).
    + apply goes_bind with (Q := λ _ _, True); [|intros r; by apply goes_ret]. unfold resolvePartnerByRecipient. walk.
    + intros e. eapply goes_bind; [apply goes_logFailed|]. intros []. by apply goes_ret.
  - intros [[p|]|]; [| |by apply goes_ret];
      (eapply goes_catch with (Q := λ _ _, True); [eapply goes_post; [|first [apply goes_process | apply goes_logInbound]]; done|]; intros e; apply goes_logFailed).
Qed.

(** ** The review queue *)

Lemma goes_readQueueRow p i (P : Desk → Prop) : goes P (readQueueRow p i) (λ _ _, True).
Proof. unfold readQueueRow. walk. Qed.
Lemma goes_update_inbound i G f (P : Desk → Prop) :
  (∀ r, ib_partnerId (f r) = ib_partnerId r ∧ ib_messageKey (f r) = ib_messageKey r) →
  goes P (update_inbound i G f) (λ _ _, True).
Proof.
  intros Hf. eapply goes_post; [|apply goes_frame_write]; [done|]. intros d.
  destruct (inbound d !! i) as [r|] eqn:E; [|by apply frames_same]. destruct (G r); [|by apply frames_same].
  split_and!; [done..|]. apply ids_kept_update; [done | apply Hf..].
Qed.
Lemma goes_convert p i o actor (P : Desk → Prop) : goes P (convertEmailInbound w p i o actor) (λ _ _, True).
Proof.
  eapply goes_bind; [apply goes_readQueueRow|]. intros row. eapply goes_bind; [apply goes_query|]. intros org.
  eapply goes_bind; [apply goes_require|]. intros []. simpl. eapply goes_bind; [apply goes_require|]. intros [].
  eapply goes_bind; [by apply goes_update_inbound|]. intros c. eapply goes_bind; [apply goes_of_option|]. intros r.
  eapply goes_bind; [apply goes_createTicket|]. intros t. eapply goes_bind; [by apply goes_update_inbound|].
  intros u. walk.
Qed.
Lemma goes_dismiss p i (P : Desk → Prop) : goes P (dismissEmailInbound p i) (λ _ _, True).
Proof.
  eapply goes_bind; [apply goes_readQueueRow|]. intros row.
  eapply goes_bind; [by apply goes_update_inbound|]. intros u. walk.
Qed.

(** ** Configuration *)

Lemma put_status_frames self i n r d p : put_status self i n r d = Ok p → (next d <= n)%nat → frames d p.2.
Proof. unfold put_status. repeat case_decide; try done. intros [= <-] Hn. by apply frames_same. Qed.

Lemma frames_trans d1 d2 d3 : frames d1 d2 → frames d2 d3 → frames d1 d3.
Proof. intros (?&?&?&?) (?&?&?&?). split_and!; [congruence..|by eapply ids_kept_trans]. Qed.

Lemma goes_seed p (P : Desk → Prop) : goes P (seedSystemTicketStatuses p) (λ _ _, True).
Proof.
  eapply goes_post; [|apply goes_frame]; [done|]. intros d a d'.
  assert (∀ l acc d1, (∀ d0, acc = Ok d0 → frames d d0) →
    fold_left (λ acc s, d ← acc; p0 ← insert_status (seed_row p s) d; Ok p0.2) l acc = Ok d1 → frames d d1) as Hl.
  { induction l as [|s l IH]; intros acc d1 Hacc; simpl; [apply Hacc|]. apply IH. intros d2.
    destruct acc as [d0|]; simpl; [|done]. destruct (insert_status _ d0) as [r|] eqn:E; simpl; [|done].
    intros [= <-]. eapply frames_trans; [by apply Hacc|]. eapply put_status_frames; [exact E | lia]. }
  destruct (fold_left _ _ _) as [r|] eqn:E; simpl; [|done]. intros [= _ <-]. eapply Hl; [|exact E].
  intros d0 [= <-]. by apply frames_same.
Qed.
Lemma goes_createStatus p input (P : Desk → Prop) : goes P (createTicketStatus p input) (λ _ _, True).
Proof.
  eapply goes_post; [|apply goes_frame]; [done|]. intros d a d' E.
  apply (put_status_frames _ _ _ _ _ _ E). lia.
Qed.
Lemma goes_updateStatus p i input (P : Desk → Prop) : goes P (updateTicketStatus p i input) (λ _ _, True).
Proof.
  unfold updateTicketStatus. eapply goes_bind; [apply goes_query|]. intros o.
  eapply goes_bind; [apply goes_of_option|]. intros row. apply goes_bind with (Q := λ _ _, True); [walk|]. intros [].
  eapply goes_bind; [apply goes_frame|intros u; walk]. intros d a d'. case_match; [|intros [= _ <-]; by apply frames_same].
  destruct (put_status _ _ _ _ _) as [r|] eqn:E; simpl; [|done]. intros [= _ <-].
  by apply (put_status_frames _ _ _ _ _ _ E).
Qed.
Lemma goes_reorder p ids (P : Desk → Prop) : goes P (reorderTicketStatuses p ids) (λ _ _, True).
Proof.
  eapply goes_bind; [apply goes_query|]. intros owned.
  eapply goes_pre with (P := λ _, True); [done|]. generalize 0%Z, 0%nat. induction ids as [|i ids IH]; intros; simpl; [by apply goes_ret|].
  case_match; [|apply IH]. eapply goes_bind; [|intros []; eapply goes_pre; [|apply IH]; done]. desk_rule.
Qed.
Lemma goes_upsertPriorities p l (P : Desk → Prop) : goes P (upsertPrioritySettings p l) (λ _ _, True).
Proof.
  apply goes_bind with (Q := λ _ _, True); [|intros []; unfold readPriorities; walk].
  apply goes_pre with (P := λ _, True); [done|]. induction l as [|[pr patch] l IH]; simpl; [by apply goes_ret|].
  eapply goes_bind; [desk_rule|]. intros []. eapply goes_pre; [|apply IH]. done.
Qed.
Lemma goes_upsertOrgSettings o p (P : Desk → Prop) : goes P (upsertOrgTicketSettings o p) (λ _ _, True).
Proof. unfold upsertOrgTicketSettings. walk. Qed.
Lemma goes_createDomain p o dom auto (P : Desk → Prop) : goes P (createCustomerEmailDomain p o dom auto) (λ _ _, True).
Proof.
  apply goes_bind with (Q := λ _ _, True); [unfold assert_org_in_partner; walk|]. intros [].
  eapply goes_post; [|apply goes_frame]; [done|]. intros d a d'. simpl. case_decide; [done|]. intros [= _ <-].
  apply frames_same; simpl; auto with lia.
Qed.
Lemma goes_updateDomain p i u (P : Desk → Prop) : goes P (updateCustomerEmailDomain p i u) (λ _ _, True).
Proof. unfold updateCustomerEmailDomain, assert_org_in_partner. walk. Qed.
Lemma goes_deleteDomain p i (P : Desk → Prop) : goes P (deleteCustomerEmailDomain p i) (λ _ _, True).
Proof. unfold deleteCustomerEmailDomain. walk. Qed.

(** ** Handlers that race *)

#[local] Instance reads_no_breach : DeskRel eq no_breach := reads_rel R no_breach _.


Section race.
Context (rival_ok : ∀ d, fresh d → R d (w_rival w d)).

Lemma changeTicketStatus_handled i target opts actor :
  (q = true → ∀ d, w_rival w d = d) → handled R no_breach (changeTicketStatus w i target opts actor).
Proof.
  intros Hq. eapply handled_race with (T := λ _ _, True); [apply _ | apply (goes_load_change eq no_breach) | done |].
  intros [t [[to sid] name]]. simpl. case_match; [by apply goes_ret|]. case_match; [apply goes_relabel|].
  apply goes_transition. intros E d (d0 & _ & Ht & ->). by rewrite Hq.
Qed.

(** The update of an assignment looks at the assignee only. *)
Lemma assignTicket_handled i a actor :
  (∀ d, w_rival w d = d) → handled R no_breach (assignTicket w i a actor).
Proof.
  intros Hq. eapply handled_race with (T := λ _ _, True); [apply _ | apply (goes_load_assignment eq no_breach) | done |].
  intros t. simpl. eapply goes_bind; [apply goes_update|intros r; walk].
  intros d t' (d0 & _ & [Ht Ha] & ->) Ht' _. rewrite Hq in *. simplify_eq. by apply assigned_step.
Qed.
End race.
End rules.
