(* ===== verification/TicketSafety.v ===== *)
(** * What holds of every history of the ticket desk

    A history is a sequence of requests, jobs and mails, each with its own clock, its failing
    statements and what others commit meanwhile: rows stay consistent and within their tenant,
    follow the life cycle, count their pauses, are announced once, carry numbers of their own. *)

From S2P Require Import Prelude JsNum Json TicketSla TicketDesk Tickets InboundEmail TicketConfig TicketLogic TicketSteps TicketRules.

Open Scope Z_scope.

(** ** Histories *)

Inductive Op :=
| OpCreate (input : CreateTicketInput) (actor : TicketActor)
| OpStatus (i : uuid) (target : ChangeStatusTarget) (opts : ChangeStatusOptions) (actor : TicketActor)
| OpUpdate (i : uuid) (f : UpdateTicketFieldsInput) (actor : TicketActor)
| OpAssign (i : uuid) (assigneeId : option uuid) (actor : TicketActor)
| OpComment (i : uuid) (content : string) (isPublic : bool) (actor : TicketActor)
| OpEditComment (c : uuid) (content : string) (actor : TicketActor) (canManageAny : bool) (expectedTicketId : option uuid)
| OpDeleteComment (c : uuid) (actor : TicketActor) (canManageAny : bool) (expectedTicketId : option uuid)
| OpLink (i alertId : uuid) (actor : TicketActor) (ty : LinkType)
| OpUnlink (i alertId : uuid) (actor : TicketActor)
| OpFromAlert (alertId : uuid) (actor : TicketActor) (o : AlertOverrides)
| OpMove (i targetOrgId : uuid) (actor : TicketActor)
| OpPortalCreate (u : PortalSession) (subject : string) (description : option string) (priority : option TicketSlaPriority)
| OpPortalComment (u : PortalSession) (i : uuid) (content : string)
| OpPortalEdit (u : PortalSession) (i c : uuid) (content : string)
| OpPortalDelete (u : PortalSession) (i c : uuid)
| OpMail (n : NormalizedInboundEmail)
| OpConvert (partnerId i orgId : uuid) (actor : TicketActor)
| OpDismiss (partnerId i : uuid)
| OpSeedStatuses (partnerId : uuid)
| OpCreateStatus (partnerId : uuid) (input : CreateTicketStatusInput)
| OpUpdateStatus (partnerId i : uuid) (input : UpdateTicketStatusInput)
| OpReorderStatuses (partnerId : uuid) (ids : list uuid)
| OpPriorities (partnerId : uuid) (l : list (TicketSlaPriority * PriorityPatch))
| OpOrgSettings (orgId : uuid) (p : OrgSettingsPatch)
| OpCreateDomain (partnerId orgId : uuid) (domain : string) (autoCreateContact : bool)
| OpUpdateDomain (partnerId i : uuid) (u : UpdateDomainInput)
| OpDeleteDomain (partnerId i : uuid)
| OpSweep.

(** What is committed, and what was sent. *)
Definition outcome_of {A} (m : TM A) (faults : list bool) (d : Desk) : Desk * list Effect :=
  let '(_, d', out) := request m faults d in (d', out).

Definition run_op (w : World) (op : Op) (faults : list bool) (d : Desk) : Desk * list Effect :=
  match op with
  | OpCreate input actor => outcome_of (createTicket w input actor) faults d
  | OpStatus i target opts actor => outcome_of (changeTicketStatus w i target opts actor) faults d
  | OpUpdate i f actor => outcome_of (updateTicketFields w i f actor) faults d
  | OpAssign i a actor => outcome_of (assignTicket w i a actor) faults d
  | OpComment i content isPublic actor => outcome_of (addTicketComment w i content isPublic actor) faults d
  | OpEditComment c content actor any e => outcome_of (editTicketComment w c content actor any e) faults d
  | OpDeleteComment c actor any e => outcome_of (deleteTicketComment w c actor any e) faults d
  | OpLink i a actor ty => outcome_of (linkAlertToTicket w i a actor ty) faults d
  | OpUnlink i a actor => outcome_of (unlinkAlertFromTicket w i a actor) faults d
  | OpFromAlert a actor o => outcome_of (createTicketFromAlert w a actor o) faults d
  | OpMove i o actor => outcome_of (moveTicketOrg w i o actor) faults d
  | OpPortalCreate u s de p => outcome_of (portal_create w u s de p) faults d
  | OpPortalComment u i c => outcome_of (portal_comment w u i c) faults d
  | OpPortalEdit u i c content => outcome_of (portal_edit_comment w u i c content) faults d
  | OpPortalDelete u i c => outcome_of (portal_delete_comment w u i c) faults d
  | OpMail n => let '(_, d', out) := handleInboundEmail w n faults d in (d', out)
  | OpConvert p i o actor => outcome_of (convertEmailInbound w p i o actor) faults d
  | OpDismiss p i => outcome_of (dismissEmailInbound p i) faults d
  | OpSeedStatuses p => outcome_of (seedSystemTicketStatuses p) faults d
  | OpCreateStatus p input => outcome_of (createTicketStatus p input) faults d
  | OpUpdateStatus p i input => outcome_of (updateTicketStatus p i input) faults d
  | OpReorderStatuses p ids => outcome_of (reorderTicketStatuses p ids) faults d
  | OpPriorities p l => outcome_of (upsertPrioritySettings p l) faults d
  | OpOrgSettings o p => outcome_of (upsertOrgTicketSettings o p) faults d
  | OpCreateDomain p o dom auto => outcome_of (createCustomerEmailDomain p o dom auto) faults d
  | OpUpdateDomain p i u => outcome_of (updateCustomerEmailDomain p i u) faults d
  | OpDeleteDomain p i => outcome_of (deleteCustomerEmailDomain p i) faults d
  | OpSweep => let '(_, d', out) := sla_sweep w faults d in (d', out)
  end.

(** One entry of a history: the surroundings, the operation, which statements fail. *)
Definition Entry : Type := World * Op * list bool.
Definition run_entry (e : Entry) (d : Desk) : Desk * list Effect := run_op e.1.1 e.1.2 e.2 d.
Fixpoint run_history (h : list Entry) (d : Desk) : Desk * list Effect :=
  match h with
  | [] => (d, [])
  | e :: h' =>
      let '(d1, o1) := run_entry e d in
      let '(d2, o2) := run_history h' d1 in (d2, o1 ++ o2)
  end.

(** Alone: nobody commits while the entry runs. *)
Definition alone (w : World) : Prop := ∀ d, w_rival w d = d.
(** What others commit meanwhile is itself made of steps; an assignment runs alone. *)
Definition admissible (q : bool) (e : Entry) : Prop :=
  (∀ d, fresh d → rtc (astep q (w_now e.1.1)) d (w_rival e.1.1 d)) ∧
  (q = true → alone e.1.1) ∧
  (match e.1.2 with OpAssign _ _ _ => alone e.1.1 | _ => True end).

(** ** Every entry takes steps *)

Lemma outcome_handled {A} q now (m : TM A) faults d :
  handled (rtc (astep q now)) no_breach m → fresh d →
  rtc (astep q now) d (outcome_of m faults d).1 ∧ Forall no_breach (outcome_of m faults d).2.
Proof.
  intros Hm Hd. destruct (Hm d faults Hd) as [H1 H2]. unfold outcome_of, request.
  destruct (m (begin_tx d faults)) as [r t]; done.
Qed.

Lemma sweep_steps q w faults d : fresh d → rtc (astep q (w_now w)) d (sla_sweep w faults d).1.2.
Proof.
  intros Hd. assert (handled (rtc (astep q (w_now w))) no_breach (sweepTicketSlaBreaches w)) as Hm.
  { apply goes_handled with (Q := λ _ _, True). eapply goes_bind; [apply _ | apply goes_stampBreaches|]. intros rs.
    eapply goes_bind; [apply _ | apply goes_stampBreaches|]. intros ss. by apply goes_ret; [apply _|]. }
  destruct (Hm d faults Hd) as [H _]. unfold sla_sweep. destruct (sweepTicketSlaBreaches w _) as [[rows|e] t] eqn:E; [done|].
  simpl. assert (tx_base t = d) as ->; [|done].
  change t with (Throw (A := list (uuid * Ticket * SlaTargetKind)) e, t).2. rewrite <- E.
  change d with (tx_base (begin_tx d faults)) at 2. apply inside_bind; [apply inside_stmt|]. intros rs.
  apply inside_bind; [apply inside_stmt|]. intros ss. apply inside_ret.
Qed.

Ltac handler := eapply goes_handled; first
  [ apply goes_createTicket | apply goes_updateTicketFields | apply goes_addTicketComment
  | apply goes_editTicketComment | apply goes_deleteTicketComment | apply goes_linkAlert | apply goes_unlinkAlert
  | apply goes_createTicketFromAlert | apply goes_moveTicketOrg | apply goes_portal_create
  | apply goes_portal_comment | apply goes_portal_edit | apply goes_portal_delete | apply goes_processInboundEmail
  | apply goes_convert | apply goes_dismiss | apply goes_seed | apply goes_createStatus | apply goes_updateStatus
  | apply goes_reorder | apply goes_upsertPriorities | apply goes_upsertOrgSettings | apply goes_createDomain
  | apply goes_updateDomain | apply goes_deleteDomain ].

Lemma entry_steps q e d :
  admissible q e → fresh d →
  rtc (astep q (w_now e.1.1)) d (run_entry e d).1 ∧
  (e.1.2 = OpSweep ∨ Forall no_breach (run_entry e d).2).
Proof.
  destruct e as [[w op] faults]. unfold admissible, run_entry. simpl. intros (Hr & Hq & Ha) Hd.
  assert (∀ A (m : TM A), handled (rtc (astep q (w_now w))) no_breach m →
    rtc (astep q (w_now w)) d (outcome_of m faults d).1 ∧
    (op = OpSweep ∨ Forall no_breach (outcome_of m faults d).2)) as Hm.
  { intros A m Hm. destruct (outcome_handled q (w_now w) m faults d Hm Hd). auto. }
  destruct op; try (apply Hm; by handler).
  - apply Hm. by apply changeTicketStatus_handled.
  - apply Hm. by apply assignTicket_handled.
  - split; [|by left]. pose proof (sweep_steps q w faults d Hd) as H. simpl.
    by destruct (sla_sweep w faults d) as [[r d'] out].
Qed.

(** ** Invariants of the desk *)

(** Ids are fresh, rows consistent and placed, and the counters are ahead of the numbers. *)
Record desk_ok (d : Desk) : Prop := {
  dk_fresh : fresh d;
  dk_rows : ∀ i t, tickets d !! i = Some t → row_ok t;
  dk_placed : ∀ i t, tickets d !! i = Some t → placed (dir d) t;
  dk_numbers : ∀ i t p y c, tickets d !! i = Some t → tk_partnerId t = Some p →
    tk_internalNumber t = Some (formatInternalNumber y c) → 0 <= c → c <= default 0 (sequences d !! (p, y)) }.

Lemma astep_ok q now d d' : astep q now d d' → desk_ok d → desk_ok d'.
Proof.
  intros Hs [Hf Hr Hp Hn]. assert (fresh d') as Hf' by (by eapply astep_fresh).
  destruct Hs as [k t t' Hk Hstep Et Ed Es _|t Hb _ Et Ed Es _|p y c Hc Es Et Ed _|Et Ed Es _].
  - destruct Hstep as [(E1 & _ & E2 & _) Hok Hpl _ _ _].
    split; [done|..]; intros i u; rewrite Et, ?Ed, ?Es; [..|intros p y c];
      intros [[<- <-]|[Hne Hi]]%lookup_insert_Some; eauto.
    rewrite E1, E2. eauto.
  - destruct Hb as [Hok Hpl _ _ (p & y & c & E1 & E2 & E3 & E4)].
    split; [done|..]; intros i u; rewrite Et, ?Ed, ?Es; [..|intros p' y' c'];
      intros [[<- <-]|[Hne Hi]]%lookup_insert_Some; eauto.
    intros Ep E Hc'. rewrite E1 in Ep. rewrite E2 in E. apply (inj Some) in Ep as <-. apply (inj Some) in E.
    apply formatInternalNumber_inj in E as [<- <-]; [|lia..]. by rewrite E3.
  - split; [done|..]; intros i u; rewrite Et, ?Ed, ?Es; [eauto..|]. intros p0 y0 c0 Hi Ep Ei H0.
    specialize (Hn i u p0 y0 c0 Hi Ep Ei H0).
    destruct (decide ((p, y) = (p0, y0))) as [[= -> ->]|Hne]; [|by rewrite lookup_insert_ne by done].
    rewrite lookup_insert_eq. simpl. lia.
  - split; [done|..]; intros i u; rewrite Et, ?Ed, ?Es; eauto.
Qed.

Lemma steps_ok q now d d' : rtc (astep q now) d d' → desk_ok d → desk_ok d'.
Proof. induction 1; eauto using astep_ok. Qed.

Lemma history_ok q h d : Forall (admissible q) h → desk_ok d → desk_ok (run_history h d).1.
Proof.
  revert d. induction h as [|e h IH]; intros d Hh Hd; [done|]. inversion_clear Hh as [|?? He Hh'].
  destruct (entry_steps q e d He (dk_fresh _ Hd)) as [Hs _]. simpl.
  destruct (run_entry e d) as [d1 o1]. simpl in *. specialize (IH d1 Hh' (steps_ok _ _ _ _ Hs Hd)).
  by destruct (run_history h d1).
Qed.

(** ** The life of one ticket *)

Definition life_step (q : bool) (now : Z) (t t' : Ticket) : Prop := row_ok t ∧ ∃ D, row_step q now D t t'.

Lemma steps_row q now d d' i t :
  rtc (astep q now) d d' → desk_ok d → tickets d !! i = Some t →
  ∃ t', tickets d' !! i = Some t' ∧ rtc (life_step q now) t t'.
Proof.
  intros Hs. revert t. induction Hs as [d|d d1 d2 Hs _ IH]; intros t Hd Ht; [by exists t|].
  assert (∃ t1, tickets d1 !! i = Some t1 ∧ rtc (life_step q now) t t1) as (t1 & Ht1 & Hl1).
  { destruct Hs as [k u u' Hk Hstep Et _ _ _|u _ _ Et _ _ _|p y c _ _ Et _ _|Et _ _ _]; rewrite Et; [| |by exists t..].
    - destruct (decide (k = i)) as [->|Hne]; [|rewrite lookup_insert_ne by done; by exists t].
      rewrite Hk in Ht. injection Ht as ->. exists u'. rewrite lookup_insert_eq. split; [done|].
      apply rtc_once. split; [by eapply dk_rows|eauto].
    - exists t. split; [|done]. rewrite lookup_insert_ne; [done|]. intros <-.
      assert (next d < next d)%nat by (apply (dk_fresh _ Hd); eauto). lia. }
  destruct (IH t1 (astep_ok _ _ _ _ Hs Hd) Ht1) as (t2 & Ht2 & Hl2). exists t2. split; [done|]. by etrans.
Qed.

Lemma entry_row q e d i t :
  admissible q e → desk_ok d → tickets d !! i = Some t →
  desk_ok (run_entry e d).1 ∧
  ∃ t', tickets (run_entry e d).1 !! i = Some t' ∧ rtc (life_step q (w_now e.1.1)) t t'.
Proof.
  intros He Hd Ht. destruct (entry_steps q e d He (dk_fresh _ Hd)) as [Hs _].
  split; [by eapply steps_ok | by eapply steps_row].
Qed.

(** A relation every step of a row is in holds between the ends of a history. *)
Lemma history_row (K : relation Ticket) `{!PreOrder K} q h d i t :
  (∀ now a b, life_step q now a b → K a b) →
  Forall (admissible q) h → desk_ok d → tickets d !! i = Some t →
  ∃ t', tickets (run_history h d).1 !! i = Some t' ∧ K t t'.
Proof.
  intros HK. revert d t. induction h as [|e h IH]; intros d t Hh Hd Ht; [by exists t|].
  inversion_clear Hh as [|?? He Hh']. destruct (entry_row q e d i t He Hd Ht) as (Hd1 & t1 & Ht1 & Hl).
  simpl. destruct (run_entry e d) as [d1 o1]. simpl in *.
  destruct (IH d1 t1 Hh' Hd1 Ht1) as (t2 & Ht2 & HK2). destruct (run_history h d1) as [d2 o2]. exists t2. split; [done|].
  etrans; [|exact HK2]. clear -Hl HK PreOrder0. induction Hl; [done|]. etrans; [by eapply HK | done].
Qed.

(** What a ticket keeps. *)
Record kept (t t' : Ticket) : Prop := {
  kp_same : same_identity t t';
  kp_new : status t' = st_new → status t = st_new;
  kp_breached : ∀ k, reported k t → reported k t' }.
#[export] Instance kept_pre : PreOrder kept.
Proof.
  split; [by split|]. intros a b c [(?&?&?&?&?) ? ?] [(?&?&?&?&?) ? ?]. split; [|auto..].
  unfold same_identity. split_and!; congruence.
Qed.

Lemma life_step_kept q now t t' : life_step q now t t' → kept t t'.
Proof.
  intros [Hok [D [Hi _ _ Hs _ Hr]]]. split; [done | | auto]. intros E. destruct Hs as [Hs|Hs]; [congruence|].
  rewrite E in Hs. destruct (status t); simpl in Hs; [done|..]; exfalso; set_solver.
Qed.

(** ** Pauses *)

(** The pause, in milliseconds, a ticket is credited with at [now]: the minutes folded in, and
    the pause that lasts. *)
Definition credit (now : Z) (t : Ticket) : Z :=
  60000 * default 0 (sg_slaPausedMinutes (tk_stage t)) +
  match sg_slaPausedAt (tk_stage t) with Some p => now - p | None => 0 end.
Definition paused_by (now : Z) (t : Ticket) : Prop := ∀ p, sg_slaPausedAt (tk_stage t) = Some p → p <= now.

Definition is_paused_in (i : uuid) (d : Desk) : bool :=
  match tickets d !! i with Some t => is_paused (status t) | None => false end.

(** How long the ticket really was paused, from [now] to the end of the history. *)
Fixpoint paused_time (i : uuid) (now : Z) (h : list Entry) (d : Desk) : Z :=
  match h with
  | [] => 0
  | e :: h' =>
      (if is_paused_in i d then w_now e.1.1 - now else 0) + paused_time i (w_now e.1.1) h' (run_entry e d).1
  end.
Fixpoint ordered (now : Z) (h : list Entry) : Prop :=
  match h with [] => True | e :: h' => now <= w_now e.1.1 ∧ ordered (w_now e.1.1) h' end.
Definition last_time (now : Z) (h : list Entry) : Z := default now ((λ e : Entry, w_now e.1.1) <$> last h).

Lemma life_step_credit now t t' :
  life_step true now t t' → paused_by now t → paused_by now t' ∧ credit now t' <= credit now t.
Proof.
  intros [Hok [D [_ _ _ _ Hc _]]] Hp. unfold credit, paused_by in *. specialize (Hc eq_refl).
  destruct Hc as [(_ & -> & ->)|[(E1 & E2 & -> & ->)|(E1 & E2 & -> & Hm)]]; [done| |].
  - assert (sg_slaPausedAt (tk_stage t) = None) as ->.
    { destruct Hok as [Hs _]. unfold stage_ok in Hs. destruct (status t); naive_solver. }
    split; [intros p [= ->]; lia|]. lia.
  - assert (∃ p, sg_slaPausedAt (tk_stage t) = Some p) as [p Ep].
    { destruct Hok as [Hs _]. unfold stage_ok in Hs. destruct (status t); try done; apply Hs. }
    rewrite Ep, (Hm p Ep). split; [done|]. specialize (Hp p Ep). simpl. unfold elapsed_minutes.
    pose proof (Z.mul_div_le (now - p) 60000). lia.
Qed.

Lemma life_credit now t t' :
  rtc (life_step true now) t t' → paused_by now t → paused_by now t' ∧ credit now t' <= credit now t.
Proof.
  induction 1 as [|a b c Hab _ IH]; [done|]. intros Hp. destruct (life_step_credit _ _ _ Hab Hp) as [Hb Hl].
  destruct (IH Hb). split; [done | lia].
Qed.

(** A clock that moves on adds the time passed when the ticket is paused. *)
Lemma credit_later now now' t :
  row_ok t → credit now' t = credit now t + (if is_paused (status t) then now' - now else 0).
Proof.
  intros [Hs _]. unfold credit. unfold stage_ok in Hs.
  destruct (status t); simpl; destruct_and?; repeat match goal with H : is_Some _ |- _ => destruct H as [? H] end;
    repeat match goal with H : sg_slaPausedAt _ = _ |- _ => rewrite H end; lia.
Qed.

Lemma history_credit h now d i t :
  Forall (admissible true) h → ordered now h → desk_ok d → tickets d !! i = Some t → paused_by now t →
  ∃ t', tickets (run_history h d).1 !! i = Some t' ∧
    credit (last_time now h) t' <= credit now t + paused_time i now h d.
Proof.
  revert now d t. induction h as [|e h IH]; intros now d t Hh Ho Hd Ht Hp.
  { exists t. split; [done|]. unfold last_time. simpl. lia. }
  inversion_clear Hh as [|?? He Hh']. destruct Ho as [Hle Ho].
  destruct (entry_row true e d i t He Hd Ht) as (Hd1 & t1 & Ht1 & Hl).
  assert (paused_by (w_now e.1.1) t) as Hp' by (intros p E; specialize (Hp p E); lia).
  destruct (life_credit _ _ _ Hl Hp') as [Hp1 Hc1]. rewrite (credit_later now _ t (dk_rows _ Hd _ _ Ht)) in Hc1.
  simpl. unfold is_paused_in. rewrite Ht. destruct (run_entry e d) as [d1 o1]. simpl in *.
  destruct (IH (w_now e.1.1) d1 t1 Hh' Ho Hd1 Ht1 Hp1) as (t2 & Ht2 & Hc2).
  destruct (run_history h d1) as [d2 o2]. exists t2. split; [done|].
  replace (last_time now (e :: h)) with (last_time (w_now e.1.1) h) by (unfold last_time; rewrite last_cons; by destruct (last h)). lia.
Qed.

(** ** Announcements *)

Definition announced (out : list Effect) : list (uuid * SlaTargetKind) := omap is_breach out.

Definition reported_in (d : Desk) (b : uuid * SlaTargetKind) : Prop :=
  ∃ t, tickets d !! b.1 = Some t ∧ reported b.2 t.

Lemma steps_reported q now d d' b :
  rtc (astep q now) d d' → desk_ok d → reported_in d b → reported_in d' b.
Proof.
  intros Hs Hd (t & Ht & Hr). destruct (steps_row _ _ _ _ _ _ Hs Hd Ht) as (t' & Ht' & Hl). exists t'. split; [done|].
  clear -Hl Hr. induction Hl as [|a b' c Hab _ IH]; [done|]. apply IH. apply life_step_kept in Hab as [_ _ H]. auto.
Qed.

(** The desk after one kind of target was stamped. *)
Definition after_stamps (now : Z) (k : SlaTargetKind) (d : Desk) : Desk :=
  set_tickets (stamp_all now k (due_tickets now k d)) (next d) d.

Lemma stamps_reported now k d i :
  desk_ok d → i ∈ (due_tickets now k d).*1 → ¬ reported_in d (i, k) ∧ reported_in (after_stamps now k d) (i, k).
Proof.
  intros Hd ([i' t] & -> & Hi)%list_elem_of_fmap. destruct (due_tickets_due _ _ _ _ _ Hi) as [Ht (_ & _ & _ & Hk & _)].
  split; [intros (u & Hu & Hr); simpl in *; congruence|]. simpl.
  destruct (list_find (λ r, r.1 = i') (due_tickets now k d)) as [[n [j u]]|] eqn:Ef.
  2:{ apply list_find_None in Ef. rewrite Forall_forall in Ef. by destruct (Ef _ Hi). }
  pose proof Ef as (Hn & Hj & _)%list_find_Some. simpl in Hj. subst j.
  apply list_elem_of_lookup_2 in Hn. destruct (due_tickets_due _ _ _ _ _ Hn) as [Hu _].
  exists (stamp now k u). split.
  - unfold after_stamps. simpl. rewrite stamp_all_lookup by apply due_tickets_nodup. by rewrite Ef.
  - rewrite Ht in Hu. injection Hu as <-. apply stamp_reported; [done | by eapply dk_rows | by left].
Qed.

Lemma announced_rows w k (l : list (uuid * Ticket)) :
  announced (((λ r, (r.1, stamp (w_now w) k r.2, k)) <$> l) ≫= notify_breach w) =
  if w_bus w then (λ i, (i, k)) <$> l.*1 else [].
Proof.
  induction l as [|[i t] l IH]; [by simpl; destruct (w_bus w)|].
  unfold announced in *. rewrite fmap_cons, bind_cons, omap_app, IH. unfold notify_breach. by destruct (w_bus w).
Qed.

(** A sweep announces nothing, or what it has stamped: first one kind, then the other. *)
Lemma sla_sweep_announced w faults d :
  let '(_, d', out) := sla_sweep w faults d in
  let d1 := after_stamps (w_now w) response d in
  announced out = [] ∨
  d' = after_stamps (w_now w) resolution d1 ∧
  announced out = ((λ i, (i, response)) <$> (due_tickets (w_now w) response d).*1) ++
                  ((λ i, (i, resolution)) <$> (due_tickets (w_now w) resolution d1).*1).
Proof.
  unfold sla_sweep, sweepTicketSlaBreaches, stampBreaches, write, stmt, mbind, TM_bind, mret, TM_ret. simpl.
  destruct (fault (begin_tx d faults)); [by left|]. simpl. destruct (fault _); [by left|]. simpl.
  rewrite <- !list_fmap_compose. unfold announced. rewrite bind_app, omap_app.
  pose proof (announced_rows w response) as H1. pose proof (announced_rows w resolution) as H2.
  unfold announced, compose in *. rewrite H1, H2. destruct (w_bus w).
  { right. split; [reflexivity|]. rewrite <- !list_fmap_compose. reflexivity. }
  by left.
Qed.

Lemma stamped_announced now d :
  let d1 := after_stamps now response d in
  let l := ((λ i, (i, response)) <$> (due_tickets now response d).*1) ++
           ((λ i, (i, resolution)) <$> (due_tickets now resolution d1).*1) in
  desk_ok d → NoDup l ∧ ∀ b, b ∈ l → ¬ reported_in d b ∧ reported_in (after_stamps now resolution d1) b.
Proof.
  intros d1 l Hd. assert (rtc (astep true now) d d1) as S1 by apply due_stamped.
  assert (desk_ok d1) as Hd1 by (by eapply steps_ok).
  assert (rtc (astep true now) d1 (after_stamps now resolution d1)) as S2 by apply due_stamped. split.
  - apply NoDup_app. split_and!; [| |].
    + apply NoDup_fmap_2; [by intros ?? [=] | apply due_tickets_nodup].
    + intros b (i & -> & _)%list_elem_of_fmap (j & [=] & _)%list_elem_of_fmap.
    + apply NoDup_fmap_2; [by intros ?? [=] | apply due_tickets_nodup].
  - intros b [(i & -> & Hi)%list_elem_of_fmap|(i & -> & Hi)%list_elem_of_fmap]%elem_of_app;
      apply stamps_reported in Hi as [H1 H2]; try done.
    + split; [done|]. by eapply steps_reported.
    + split; [|done]. intros H. apply H1. by eapply steps_reported.
Qed.

(** What an entry announces was not reported before, is reported after, and is said once. *)
Lemma entry_announced q e d :
  admissible q e → desk_ok d →
  NoDup (announced (run_entry e d).2) ∧
  ∀ b, b ∈ announced (run_entry e d).2 → ¬ reported_in d b ∧ reported_in (run_entry e d).1 b.
Proof.
  intros He Hd. assert (∀ out d', announced out = [] → NoDup (announced out) ∧
    ∀ b, b ∈ announced out → ¬ reported_in d b ∧ reported_in d' b) as Hnil.
  { intros out d' ->. split; [constructor | by intros b ?%not_elem_of_nil]. }
  destruct (entry_steps q e d He (dk_fresh _ Hd)) as [_ [E|Hn]].
  - destruct e as [[w op] faults]. simpl in E. subst op. unfold run_entry. simpl.
    pose proof (sla_sweep_announced w faults d) as Ha. destruct (sla_sweep w faults d) as [[r d'] out].
    destruct Ha as [Ha|[-> Ha]]; [by apply Hnil|]. simpl. rewrite Ha. by apply stamped_announced.
  - apply Hnil. unfold announced. induction Hn as [|x l Hx _ IH]; simpl; [done|]. by rewrite Hx.
Qed.

Lemma history_announced q h d :
  Forall (admissible q) h → desk_ok d →
  NoDup (announced (run_history h d).2) ∧
  ∀ b, b ∈ announced (run_history h d).2 → ¬ reported_in d b ∧ reported_in (run_history h d).1 b.
Proof.
  revert d. induction h as [|e h IH]; intros d Hh Hd; simpl; [split; [constructor | by intros b ?%not_elem_of_nil]|].
  inversion_clear Hh as [|?? He Hh']. destruct (entry_announced q e d He Hd) as [N1 A1].
  destruct (entry_steps q e d He (dk_fresh _ Hd)) as [Hs _]. destruct (run_entry e d) as [d1 o1]. simpl in *.
  assert (desk_ok d1) as Hd1 by (by eapply steps_ok). destruct (IH d1 Hh' Hd1) as [N2 A2].
  assert (∀ b, reported_in d1 b → reported_in (run_history h d1).1 b) as Hlater.
  { intros b (t & Ht & Hr). destruct (history_row kept q h d1 b.1 t) as (t' & Ht' & [_ _ Hk]);
      [apply life_step_kept | done..|]. exists t'. eauto. }
  destruct (run_history h d1) as [d2 o2]. simpl in *. unfold announced in *. rewrite omap_app. split.
  - apply NoDup_app. split_and!; [done | | done]. intros b Hb1 Hb2.
    apply A1 in Hb1 as [_ ?]. by apply A2 in Hb2 as [? _].
  - intros b [Hb|Hb]%elem_of_app; [apply A1 in Hb as [? ?]; auto|]. apply A2 in Hb as [Hb ?].
    split; [|done]. intros Hr. apply Hb. by eapply steps_reported.
Qed.

(** ** Numbers *)

Definition counter_le (d d' : Desk) : Prop :=
  ∀ p y c, sequences d !! (p, y) = Some c → ∃ c', sequences d' !! (p, y) = Some c' ∧ c <= c'.
Lemma steps_counters q now d d' : rtc (astep q now) d d' → counter_le d d'.
Proof.
  induction 1 as [|d d1 d2 Hs _ IH]; intros p y c Hc; [eauto with lia|].
  assert (∃ c1, sequences d1 !! (p, y) = Some c1 ∧ c <= c1) as (c1 & Hc1 & Hle).
  { destruct Hs as [k t t' _ _ _ _ Es _|t _ _ _ _ Es _|p' y' c' Hlt Es _ _ _|_ _ Es _]; rewrite Es; [eauto with lia..| |eauto with lia].
    destruct (decide ((p', y') = (p, y))) as [[= -> ->]|Hne]; [|rewrite lookup_insert_ne by done; eauto with lia].
    rewrite lookup_insert_eq. rewrite Hc in Hlt. simpl in Hlt. eauto with lia. }
  destruct (IH _ _ _ Hc1) as (c2 & ? & ?). eauto with lia.
Qed.
Lemma history_counters q h d : Forall (admissible q) h → fresh d → counter_le d (run_history h d).1.
Proof.
  revert d. induction h as [|e h IH]; intros d Hh Hd; simpl; [intros p y c ?; eauto with lia|].
  inversion_clear Hh as [|?? He Hh']. destruct (entry_steps q e d He Hd) as [Hs _].
  destruct (run_entry e d) as [d1 o1]. simpl in *.
  assert (fresh d1) as Hd1 by (by apply (R_fresh (Sent := no_breach) _ _ Hs)). specialize (IH d1 Hh' Hd1).
  destruct (run_history h d1) as [d2 o2]. simpl in *. intros p y c Hc.
  destruct (steps_counters _ _ _ _ Hs _ _ _ Hc) as (c1 & Hc1 & ?). destruct (IH _ _ _ Hc1) as (c2 & ? & ?).
  eauto with lia.
Qed.

Lemma allocate_ok w p d faults n t :
  allocateInternalTicketNumber w p (begin_tx d faults) = (Ok n, t) →
  let y := w_year w (w_now w) in
  ∃ c, n = formatInternalNumber y c ∧ 1 <= c ∧ default 0 (sequences d !! (p, y)) < c ∧
    tx_base t = set_sequences (<[(p, y) := c]> (sequences d)) d.
Proof.
  unfold allocateInternalTicketNumber, sys_write, require, mbind, TM_bind, mret, TM_ret, throw. simpl.
  destruct (fault _); [done|]. set (c := match sequences d !! _ with Some _ => _ | _ => _ end).
  destruct (Z.leb_spec 1 c); [|done]. simpl. intros [= <- <-]. exists c. split_and!; [done | done | | done].
  unfold c. case_match; simpl; lia.
Qed.

Lemma numbers_differ w w' p q h faults faults' d n t n' t' :
  desk_ok d → Forall (admissible q) h →
  allocateInternalTicketNumber w p (begin_tx d faults) = (Ok n, t) →
  (∀ i u, tickets d !! i = Some u → tk_partnerId u = Some p → tk_internalNumber u ≠ Some n) ∧
  (allocateInternalTicketNumber w' p (begin_tx (run_history h (tx_base t)).1 faults') = (Ok n', t') → n' ≠ n).
Proof.
  intros Hd Hh (c & -> & H1 & Hlt & Et)%allocate_ok. split.
  - intros i u Hu Hp En. pose proof (dk_numbers _ Hd _ _ _ _ _ Hu Hp En). lia.
  - intros (c' & -> & H1' & Hlt' & _)%allocate_ok E. apply formatInternalNumber_inj in E as [Ey Ec]; [|lia..].
    rewrite Ey in *. destruct (history_counters q h (tx_base t) Hh) with p (w_year w (w_now w)) c as (c2 & E2 & ?).
    + rewrite Et. apply Hd.
    + rewrite Et. simpl. by rewrite lookup_insert_eq.
    + rewrite E2 in Hlt'. simpl in Hlt'. lia.
Qed.

(** ** The log of mails *)

Lemma steps_ids q now d d' : rtc (astep q now) d d' → ids_kept d d'.
Proof.
  induction 1 as [|d d1 d2 Hs _ IH]; [by apply ids_kept_same|].
  eapply ids_kept_trans; [|exact IH]. by destruct Hs.
Qed.

Lemma history_ids q h d :
  Forall (admissible q) h → fresh d → ids_kept d (run_history h d).1 ∧ dir (run_history h d).1 = dir d.
Proof.
  revert d. induction h as [|e h IH]; intros d Hh Hd; simpl; [by split; [apply ids_kept_same|]|].
  inversion_clear Hh as [|?? He Hh']. destruct (entry_steps q e d He Hd) as [Hs _].
  destruct (run_entry e d) as [d1 o1]. simpl in *.
  destruct (IH d1 Hh') as [H1 H2]; [by apply (R_fresh (Sent := no_breach) _ _ Hs)|].
  destruct (run_history h d1) as [d2 o2]. simpl in *. rewrite H2, (R_dir (Sent := no_breach) _ _ Hs).
  split; [|done]. eapply ids_kept_trans; [by eapply steps_ids | done].
Qed.

(** ** A desk to try things on *)

Definition shop_directory : Directory :=
  {| orgs := {[ 1%nat := {| og_partnerId := 7%nat; og_name := "Acme" |}; 2%nat := {| og_partnerId := 7%nat; og_name := "Bolt" |} ]};
     partners := {[ 7%nat := {| pn_slug := "msp"; pn_status := "active"; pn_settings := None |} ]};
     deviceOrgs := {[ 20%nat := 1%nat ]}; users := {[ 3%nat := 7%nat ]}; categories := ∅; alertRows := ∅;
     inboundDomains := {[ "help.example.com"%string := 7%nat ]} |}.
Definition shop : Desk :=
  {| dir := shop_directory; tickets := ∅; comments := ∅; links := ∅; timeEntryOrgs := ∅; partOrgs := ∅;
     portalUsers := {[ 30%nat := {| pu_orgId := 1%nat; pu_email := "ann@acme.example"; pu_name := Some "Ann"%string; pu_status := "active" |} ]};
     statuses := ∅; prioritySettings := ∅; orgSettings := ∅; emailDomains := ∅; inbound := ∅; sequences := ∅;
     next := 100%nat |}.
Definition agent : TicketActor := {| ac_userId := 3%nat; ac_name := Some "Tech"%string; ac_suggestion := false |}.
Definition racing (now : Z) (rival : Desk → Desk) : World :=
  {| w_now := now; w_bus := true; w_feedback := true; w_year := λ _, 2026; w_nanoid := print_Z now;
     w_domain := None; w_cap := λ _, true; w_rival := rival |}.
Definition calm (now : Z) : World := racing now (λ d, d).

Definition printer_jam : CreateTicketInput :=
  {| ci_orgId := 1%nat; ci_subject := "Printer"; ci_description := None; ci_deviceId := Some 20%nat; ci_categoryId := None;
     ci_priority := Some urgent; ci_dueDate := None; ci_assigneeId := None; ci_source := src_manual;
     ci_submittedBy := None; ci_submitterEmail := None; ci_submitterName := None |}.
Definition to_status (s : TicketStatus) : Op :=
  OpStatus 100%nat {| ct_status := Some s; ct_statusId := None |}
    {| co_resolutionNote := Some "done"%string; co_pendingReason := None |} agent.

Lemma calm_admissible q now op faults : admissible q (calm now, op, faults).
Proof. split; simpl; [done|]. split; [by intros|]. by destruct op. Qed.

Lemma shop_ok : desk_ok shop.
Proof. split; [intros k [? Hk]|intros i t|intros i t|intros i t p y c]; simpl; try done; by rewrite lookup_empty in Hk. Qed.

(** A colleague puts the ticket on hold while it is being set to pending. *)
Definition busy_day : list Entry :=
  [ (calm 0, OpCreate printer_jam agent, []);
    (racing 60000 (λ d, (run_entry (calm 60000, to_status st_on_hold, []) d).1), to_status st_pending, []);
    (calm 120000, OpAssign 100%nat (Some 3%nat) agent, []);
    (calm 180000, to_status st_open, [false; false; false; true]);
    (calm 240000, to_status st_open, []);
    (calm 300000, OpMove 100%nat 2%nat agent, []);
    (calm 9000000, OpSweep, []); (calm 9060000, OpSweep, []) ].

Lemma busy_day_admissible : Forall (admissible false) busy_day.
Proof.
  repeat constructor; try apply calm_admissible; try done. simpl. intros d Hd.
  by apply (entry_steps false (calm 60000, to_status st_on_hold, []) d); [apply calm_admissible|].
Qed.

(** The same day without the colleague. *)
Definition quiet_day : list Entry :=
  [ (calm 60000, to_status st_pending, []); (calm 200000, to_status st_on_hold, []);
    (calm 270000, to_status st_open, []); (calm 400000, to_status st_resolved, []) ].
Definition opened : Desk := (run_entry (calm 0, OpCreate printer_jam agent, []) shop).1.
Lemma quiet_day_admissible : Forall (admissible true) quiet_day.
Proof. repeat constructor; apply calm_admissible. Qed.
Lemma opened_ok : desk_ok opened.
Proof. apply (history_ok true [(calm 0, OpCreate printer_jam agent, [])] shop); [|apply shop_ok]. repeat constructor; apply calm_admissible. Qed.

(** ** Claims *)



(** The same handlers: no history loses a ticket, changes its partner, its numbers, its
    source or its time of creation, makes it new again, or forgets a missed target. *)
Theorem tickets_kept q h d i t :
  Forall (admissible q) h → desk_ok d → tickets d !! i = Some t →
  ∃ t', tickets (run_history h d).1 !! i = Some t' ∧ same_identity t t' ∧
    (status t' = st_new → status t = st_new) ∧ ∀ k, reported k t → reported k t'.
Proof.
  intros Hh Hd Ht. destruct (history_row kept q h d i t (life_step_kept q) Hh Hd Ht) as (t' & Ht' & []). eauto.
Qed.
Lemma tickets_kept_witness :
  ∃ t t', tickets opened !! 100%nat = Some t ∧ tickets (run_history quiet_day opened).1 !! 100%nat = Some t' ∧
    same_identity t t'.
Proof.
  destruct (tickets opened !! 100%nat) as [t|] eqn:E; [|vm_compute in E; discriminate]. exists t.
  destruct (tickets_kept true quiet_day opened 100%nat t quiet_day_admissible opened_ok E) as (t' & H1 & H2 & _).
  exists t'. split; [reflexivity|]. split; [exact H1 | exact H2].
Defined.

(** C27 (the SLA clock of changeTicketStatus): in a history without races, whose clock does not
    run back, the pause a ticket is credited with, the minutes folded in and the pause that
    still lasts, never exceeds what it had before plus the time it really was paused. *)
Theorem pauses_not_overcredited h now d i t :
  Forall (admissible true) h → ordered now h → desk_ok d → tickets d !! i = Some t → paused_by now t →
  ∃ t', tickets (run_history h d).1 !! i = Some t' ∧
    credit (last_time now h) t' <= credit now t + paused_time i now h d.
Proof. apply history_credit. Qed.
Lemma pauses_not_overcredited_witness :
  ∃ t', tickets (run_history quiet_day opened).1 !! 100%nat = Some t' ∧
    credit 400000 t' <= 210000 ∧ credit 400000 t' = 180000.
Proof.
  destruct (tickets opened !! 100%nat) as [t|] eqn:E; [|vm_compute in E; discriminate].
  assert (credit 0 <$> tickets opened !! 100%nat = Some 0) as H0 by (vm_compute; reflexivity).
  rewrite E in H0. injection H0 as H0.
  destruct (pauses_not_overcredited quiet_day 0 opened 100%nat t quiet_day_admissible) as (t' & H1 & H2).
  - unfold quiet_day, calm, racing, ordered. simpl. lia.
  - exact opened_ok.
  - exact E.
  - assert (sg_slaPausedAt ∘ tk_stage <$> tickets opened !! 100%nat = Some None) as Hp by (vm_compute; reflexivity).
    rewrite E in Hp. injection Hp as Hp. intros p Ep. by rewrite Hp in Ep.
  - exists t'. split; [exact H1|]. rewrite H0 in H2.
    assert (paused_time 100%nat 0 quiet_day opened = 210000) as Ht by (vm_compute; reflexivity). rewrite Ht in H2.
    split; [exact H2|].
    assert (credit 400000 <$> tickets (run_history quiet_day opened).1 !! 100%nat = Some 180000) as Hc by (vm_compute; reflexivity).
    rewrite H1 in Hc. by injection Hc.
Defined.

(** C28 (sweepTicketSlaBreaches and the job around it): over every history each missed target of
    a ticket is announced at most once, only when it was not on record before, and what was
    announced is on record. *)
Theorem breaches_announced_once q h d :
  Forall (admissible q) h → desk_ok d →
  NoDup (announced (run_history h d).2) ∧
  ∀ b, b ∈ announced (run_history h d).2 → ¬ reported_in d b ∧ reported_in (run_history h d).1 b.
Proof. apply history_announced. Qed.
Lemma breaches_announced_once_witness :
  announced (run_history busy_day shop).2 = [(100%nat, response)] ∧
  reported_in (run_history busy_day shop).1 (100%nat, response).
Proof.
  assert (announced (run_history busy_day shop).2 = [(100%nat, response)]) as E by (vm_compute; reflexivity).
  split; [exact E|]. apply (breaches_announced_once false busy_day shop busy_day_admissible shop_ok).
  rewrite E. by apply list_elem_of_here.
Defined.

(** C29 (allocateInternalTicketNumber): the number it returns is on no ticket of the partner, and,
    even when the request it was allocated for is rolled back, no later allocation for the
    partner returns it again, whatever happens in between. *)
Theorem ticket_numbers_not_reused w w' p q h faults faults' d n t n' t' :
  desk_ok d → Forall (admissible q) h →
  allocateInternalTicketNumber w p (begin_tx d faults) = (Ok n, t) →
  (∀ i u, tickets d !! i = Some u → tk_partnerId u = Some p → tk_internalNumber u ≠ Some n) ∧
  (allocateInternalTicketNumber w' p (begin_tx (run_history h (tx_base t)).1 faults') = (Ok n', t') → n' ≠ n).
Proof. apply numbers_differ. Qed.
Lemma ticket_numbers_not_reused_witness :
  (allocateInternalTicketNumber (calm 0) 7%nat (begin_tx opened [])).1 = Ok "T-2026-0002"%string ∧
  ∀ u, tickets opened !! 100%nat = Some u → tk_partnerId u = Some 7%nat → tk_internalNumber u ≠ Some "T-2026-0002"%string.
Proof.
  split; [vm_compute; reflexivity|].
  destruct (allocateInternalTicketNumber (calm 0) 7%nat (begin_tx opened [])) as [[n|e] t] eqn:E; [|vm_compute in E; discriminate].
  assert (n = "T-2026-0002"%string) as ->.
  { assert ((allocateInternalTicketNumber (calm 0) 7%nat (begin_tx opened [])).1 = Ok "T-2026-0002"%string) as H
      by (vm_compute; reflexivity). rewrite E in H. by injection H. }
  apply (proj1 (ticket_numbers_not_reused (calm 0) (calm 0) 7%nat true [] [] [] opened _ t ""%string t
    opened_ok (Forall_nil_2 _) E) 100%nat).
Defined.
