(* ===== verification/TicketMail.v ===== *)
(** * A mail is handled once

    What a mail does to tickets and comments is committed together with its entry in the log,
    or not at all; a mail that is logged for its partner does nothing when it is delivered again. *)

From S2P Require Import Prelude JsNum Json TicketSla TicketDesk Tickets InboundEmail TicketConfig TicketLogic TicketSteps TicketRules TicketSafety.

Open Scope Z_scope.

(** What customers and technicians see. *)
Definition feed (d : Desk) : gmap uuid Ticket * gmap uuid Comment := (tickets d, comments d).

(** ** Computations by what they leave behind when they throw *)

(** A computation leaves the committed feed alone, and no failed statement is forgotten. *)
Definition sound {A} (m : TM A) : Prop := ∀ t,
  feed (tx_base (m t).2) = feed (tx_base t) ∧ (tx_aborted t = true → tx_aborted (m t).2 = true).
(** It never writes to the feed. *)
Definition silent {A} (m : TM A) : Prop := sound m ∧ ∀ t, feed (tx_tables (m t).2) = feed (tx_tables t).
(** It throws only when the transaction has failed. *)
Definition doomed {A} (m : TM A) : Prop := sound m ∧ ∀ t e, (m t).1 = Throw e → tx_aborted (m t).2 = true.
(** When it throws, the transaction has failed or the feed is as it was. *)
Definition atomic {A} (m : TM A) : Prop := sound m ∧
  ∀ t e, (m t).1 = Throw e → tx_aborted (m t).2 = true ∨ feed (tx_tables (m t).2) = feed (tx_tables t).

Lemma silent_atomic {A} (m : TM A) : silent m → atomic m.
Proof. intros [H1 H2]. split; [done|]. auto. Qed.
Lemma doomed_atomic {A} (m : TM A) : doomed m → atomic m.
Proof. intros [H1 H2]. split; [done|]. eauto. Qed.

Lemma sound_bind {A B} (m : TM A) (k : A → TM B) : sound m → (∀ a, sound (k a)) → sound (m ≫= k).
Proof.
  intros Hm Hk t. specialize (Hm t) as [M1 M2]. unfold mbind, TM_bind.
  destruct (m t) as [[a|e] t1]; simpl in *; [|done]. destruct (Hk a t1) as [K1 K2]. split; [congruence | auto].
Qed.
Lemma silent_bind {A B} (m : TM A) (k : A → TM B) : silent m → (∀ a, silent (k a)) → silent (m ≫= k).
Proof.
  intros [Hm Sm] Hk. split; [apply sound_bind; [done | apply Hk]|]. intros t. specialize (Sm t).
  unfold mbind, TM_bind. destruct (m t) as [[a|e] t1]; simpl in *; [|done]. destruct (Hk a) as [_ Sk]. congruence.
Qed.
Lemma doomed_bind {A B} (m : TM A) (k : A → TM B) : doomed m → (∀ a, doomed (k a)) → doomed (m ≫= k).
Proof.
  intros [Hm Dm] Hk. split; [apply sound_bind; [done | apply Hk]|]. intros t e. specialize (Dm t).
  unfold mbind, TM_bind. destruct (m t) as [[a|e'] t1]; simpl in *; [apply Hk | eauto].
Qed.
Lemma atomic_silent {A B} (m : TM A) (k : A → TM B) : silent m → (∀ a, atomic (k a)) → atomic (m ≫= k).
Proof.
  intros [Hm Sm] Hk. split; [apply sound_bind; [done | apply Hk]|]. intros t e. specialize (Sm t).
  unfold mbind, TM_bind. destruct (m t) as [[a|e'] t1]; simpl in *; [|auto]. rewrite <- Sm. apply Hk.
Qed.
Lemma atomic_doomed {A B} (m : TM A) (k : A → TM B) : atomic m → (∀ a, doomed (k a)) → atomic (m ≫= k).
Proof.
  intros [Hm Am] Hk. split; [apply sound_bind; [done | apply Hk]|]. intros t e. specialize (Am t).
  unfold mbind, TM_bind. destruct (m t) as [[a|e'] t1]; simpl in *; [|eauto]. intros E. left. by apply Hk in E.
Qed.

Lemma silent_ret {A} (a : A) : silent (mret a).
Proof. done. Qed.
Lemma doomed_ret {A} (a : A) : doomed (mret a).
Proof. done. Qed.
Lemma silent_throw {A} e : silent (throw e : TM A).
Proof. done. Qed.
Lemma silent_require b e : silent (require b e).
Proof. by destruct b. Qed.
Lemma silent_of_option {A} (o : option A) e : silent (of_option o e).
Proof. by destruct o. Qed.
Lemma silent_stmt {A} (f : Desk → outcome TicketError (A * Desk)) :
  (∀ d a d', f d = Ok (a, d') → feed d' = feed d) → silent (stmt f).
Proof.
  intros Hf. split; intros t; unfold stmt; destruct (tx_aborted t) eqn:E, (fault t); try done;
    destruct (f (tx_tables t)) as [[a d']|e'] eqn:Ef; simpl; try done; by apply Hf in Ef.
Qed.
Lemma silent_query {A} (f : Desk → A) : silent (query f).
Proof. apply silent_stmt. by intros d a d' [= _ <-]. Qed.
Lemma doomed_stmt {A} (f : Desk → outcome TicketError (A * Desk)) : doomed (stmt f).
Proof.
  split; [intros t|intros t e]; unfold stmt; destruct (tx_aborted t) eqn:E, (fault t); try done;
    by destruct (f (tx_tables t)) as [[a d']|e'].
Qed.
Lemma doomed_write {A} (f : Desk → A * Desk) : doomed (write f).
Proof. apply doomed_stmt. Qed.
Lemma silent_sys_read {A} (f : Desk → A) : silent (sys_read f).
Proof. split; intros t; unfold sys_read; by destruct (fault t). Qed.
Lemma silent_sys_write {A} (f : Desk → outcome TicketError (A * (Desk → Desk))) :
  (∀ d a g, f d = Ok (a, g) → ∀ d', feed (g d') = feed d') → silent (sys_write f).
Proof.
  intros Hf. split; intros t; unfold sys_write; destruct (fault t); try done;
    destruct (f (tx_base t)) as [[a g]|e] eqn:E; simpl; try done; [split; [|done]|]; by eapply Hf.
Qed.
Lemma doomed_send e : doomed (send e).
Proof. done. Qed.
Lemma doomed_event w e : doomed (emitTicketEvent w e).
Proof. unfold emitTicketEvent. by destruct (w_bus w). Qed.
(** Whatever the body does, an error that is swallowed is no error. *)
Lemma doomed_catch {A} (m : TM A) (b : A) : sound m → doomed (try_catch m (λ _, mret b)).
Proof.
  intros Hm. split.
  - intros t. specialize (Hm t). unfold try_catch. by destruct (m t) as [[a|e] t1].
  - intros t e. unfold try_catch. by destruct (m t) as [[a|e'] t1].
Qed.

Lemma silent_catch {A} (m : TM A) (h : TicketError → TM A) : silent m → (∀ e, silent (h e)) → silent (try_catch m h).
Proof.
  intros [Hm Sm] Hh. split.
  - intros t. specialize (Hm t) as [M1 M2]. unfold try_catch. destruct (m t) as [[a|e] t1]; simpl in *; [done|].
    destruct (Hh e) as [Hs _]. destruct (Hs t1) as [H1 H2]. split; [congruence | auto].
  - intros t. specialize (Sm t). unfold try_catch. destruct (m t) as [[a|e] t1]; simpl in *; [done|].
    destruct (Hh e) as [_ Hs]. by rewrite Hs.
Qed.

(** ** The pipeline *)

Create HintDb mail.
#[export] Hint Resolve silent_ret silent_throw silent_require silent_of_option silent_query silent_sys_read : mail.
#[export] Hint Resolve doomed_ret doomed_stmt doomed_write doomed_send doomed_event : mail.

Ltac silently :=
  lazymatch goal with
  | |- silent (mbind _ _) => apply silent_bind; [silently | intros ?; silently]
  | |- silent (match _ with _ => _ end) => case_match; silently
  | |- _ => first [ by auto with mail | idtac ]
  end.
Ltac doom :=
  lazymatch goal with
  | |- doomed (mbind _ _) => apply doomed_bind; [doom | intros ?; doom]
  | |- doomed (match _ with _ => _ end) => case_match; doom
  | |- _ => first [ by auto with mail | idtac ]
  end.

Lemma silent_allocate w p : silent (allocateInternalTicketNumber w p).
Proof. apply silent_bind; [apply silent_sys_write; by intros d a g [= <- <-]|]. intros c. silently. Qed.

Lemma atomic_createTicket w input actor : atomic (createTicket w input actor).
Proof.
  unfold createTicket, assert_device_in_org, assertAssigneeInPartner, getAssigneeForValidation,
    assertCategoryInPartner, resolve_requester, assertRequesterInOrg, getPortalUserForValidation,
    getOrgSlaOverride, getPartnerPrioritySla, getSystemStatusId.
  do 9 (apply atomic_silent; [silently|intros ?]; simpl).
  apply atomic_silent; [apply silent_allocate|]. intros number.
  apply doomed_atomic. unfold insert_ticket, audit. doom.
Qed.

Lemma doomed_autoresponse w n p i o number subject : doomed (maybeSendAutoresponse w n p i o number subject).
Proof.
  unfold maybeSendAutoresponse. case_match; [apply doomed_ret|]. apply doomed_bind; [|intros b; doom].
  apply doomed_catch. apply sound_bind; [apply silent_query|]. intros x. apply silent_ret.
Qed.

Lemma atomic_createFromEmail w n p o key prior by_ : atomic (createFromEmail w n p o key prior by_).
Proof.
  unfold createFromEmail. do 2 (apply atomic_silent; [silently|intros ?]).
  apply atomic_doomed; [apply atomic_createTicket|]. intros t. simpl.
  apply doomed_bind; [apply doomed_stmt|]. intros r. apply doomed_bind; [|intros []; apply doomed_ret].
  case_match; [|apply doomed_ret]. case_match; [apply doomed_ret|].
  apply doomed_bind; [apply doomed_stmt|]. intros x. apply doomed_autoresponse.
Qed.
Lemma atomic_create_and_log w n p o key prior by_ : atomic (create_and_log w n p o key prior by_).
Proof. apply atomic_doomed; [apply atomic_createFromEmail|]. intros i. apply doomed_stmt. Qed.

Lemma silent_logInbound n p st i e : silent (logInbound n p st i e).
Proof. apply silent_stmt. intros d a d'. case_match; [done|]. by intros [= _ <-]. Qed.
Lemma silent_logFailed n p : silent (logInboundFailedDurable n p).
Proof.
  apply silent_catch; [apply silent_sys_write | intros e; apply silent_ret].
  intros d a g. case_match; [done|]. by intros [= _ <-].
Qed.
Lemma silent_contact o email name : silent (findOrCreateEmailContact o email name).
Proof.
  apply silent_bind; [apply silent_query|]. intros x. case_match; [apply silent_ret|].
  apply silent_stmt. by intros d a d' [= _ <-].
Qed.

Lemma atomic_route_unmatched w n p : atomic (route_unmatched w n p).
Proof.
  unfold route_unmatched. apply atomic_silent; [apply silent_query|]. intros [[u row]|]; [apply atomic_create_and_log|].
  apply atomic_silent; [unfold resolveOrgBySenderDomain; silently|]. intros [e|].
  - apply atomic_silent; [|intros b; apply atomic_create_and_log].
    case_match; [|apply silent_ret]. apply silent_bind; [apply silent_contact|]. intros u. apply silent_ret.
  - apply atomic_silent; [unfold loadPartnerInboundPolicy; silently|]. intros [b v].
    destruct b, v; try apply silent_atomic, silent_logInbound. case_match; [|apply silent_atomic, silent_logInbound].
    apply atomic_silent; [|intros o; apply atomic_create_and_log].
    unfold uuid_param. case_match; [apply silent_ret|]. by apply silent_stmt.
Qed.

Lemma silent_by_thread n p (G : Ticket → Prop) (T : list string → Ticket → Prop)
    `{!∀ t, Decision (G t)} `{!∀ l t, Decision (T l t)} : silent (by_thread_or_token n p G T).
Proof. unfold by_thread_or_token, ticket_where. silently. Qed.

Lemma atomic_process w n p : atomic (process_for_partner w n p).
Proof.
  unfold process_for_partner. apply atomic_silent; [apply silent_query|]. intros x.
  case_match; [apply silent_atomic, silent_logInbound|]. case_match; [apply silent_atomic, silent_logInbound|].
  apply atomic_silent; [apply silent_query|]. intros b. destruct b; [apply silent_atomic, silent_ret|].
  case_match; [apply silent_atomic, silent_logInbound|].
  unfold route_verified. apply atomic_silent; [apply silent_by_thread|]. intros [[i t]|].
  - apply atomic_silent; [apply silent_require|]. intros [].
    apply atomic_doomed; [|intros []; apply doomed_bind; [|intros []; apply doomed_stmt]].
    + unfold appendInboundComment, findPortalUserInPartner. apply atomic_silent; [apply silent_query|]. intros s.
      apply doomed_atomic. unfold insert_comment. doom.
    + case_match; [|apply doomed_ret]. unfold reopenResolvedTicket, update_ticket. doom.
  - apply atomic_silent; [apply silent_by_thread|].
    intros [[i t]|]; [apply atomic_create_and_log | apply atomic_route_unmatched].
Qed.

(** ** Deliveries *)

(** The partner a mail is for. *)
Definition recipient (inboundDomain : option string) (to : string) (D : Directory) : option uuid :=
  match first_at (toLowerCase (trim to)) with
  | None => None
  | Some (local, domain) =>
      match inboundDomains D !! domain with
      | Some p => Some p
      | None => if truthy inboundDomain && bool_decide (inboundDomain = Some domain)
                then fst <$> first_row (λ p, pn_slug p = local) (partners D) else None
      end
  end.

Lemma log_duplicate n p st i e t :
  is_logged p (em_providerMessageId n) (tx_tables t) → unmoved t (logInbound n (Some p) st i e t).2.
Proof.
  intros Hl. unfold logInbound, stmt, duplicate. simpl. rewrite bool_decide_eq_true_2 by done.
  by destruct (tx_aborted t) eqn:E, (fault t).
Qed.
Lemma logFailed_duplicate n p t :
  is_logged p (em_providerMessageId n) (tx_base t) → unmoved t (logInboundFailedDurable n (Some p) t).2.
Proof.
  intros Hl. unfold logInboundFailedDurable, try_catch, sys_write, duplicate. simpl.
  rewrite bool_decide_eq_true_2 by done. by destruct (fault t).
Qed.

Lemma process_duplicate w n p t :
  is_logged p (em_providerMessageId n) (tx_tables t) → unmoved t (process_for_partner w n p t).2.
Proof.
  intros Hl. unfold process_for_partner, mbind, TM_bind.
  destruct (query_unmoved (λ d, partners (dir d) !! p) t) as [U1 _].
  destruct (query _ t) as [[x|e] t1]; simpl in *; [|done]. assert (is_logged p (em_providerMessageId n) (tx_tables t1)) as Hl1.
  { by rewrite (um_tables _ _ U1). }
  case_match; [by eapply unmoved_trans, log_duplicate|]. case_match; [by eapply unmoved_trans, log_duplicate|].
  destruct (query_unmoved (λ d, bool_decide (is_logged p (em_providerMessageId n) d)) t1) as [U2 E2].
  destruct (query _ t1) as [[b|e] t2]; simpl in *; [|by eapply unmoved_trans].
  rewrite (E2 b eq_refl), bool_decide_eq_true_2 by done. by eapply unmoved_trans.
Qed.

Lemma resolve_unmoved w to t :
  unmoved t (resolvePartnerByRecipient w to t).2 ∧
  ∀ o, (resolvePartnerByRecipient w to t).1 = Ok o → o = recipient (w_domain w) to (dir (tx_tables t)).
Proof.
  unfold resolvePartnerByRecipient, recipient. destruct (first_at _) as [[local domain]|]; [|by split; [|intros o [= <-]]].
  unfold mbind, TM_bind. destruct (query_unmoved (λ d, inboundDomains (dir d) !! domain) t) as [U1 E1].
  destruct (query _ t) as [[x|e] t1]; simpl in *; [|done]. rewrite <- (E1 x eq_refl).
  destruct x as [p|]; [by split; [|intros o [= <-]]|]. case_match; [|by split; [|intros o [= <-]]].
  destruct (query_unmoved (λ d, fst <$> first_row (λ p, pn_slug p = local) (partners (dir d))) t1) as [U2 E2].
  split; [by eapply unmoved_trans|]. intros o Ho. by rewrite (E2 o Ho), (um_tables _ _ U1).
Qed.

Lemma logFailed_out n p t : tx_out (logInboundFailedDurable n p t).2 = tx_out t.
Proof.
  unfold logInboundFailedDurable, try_catch, sys_write. destruct (fault t); [done|].
  by destruct (duplicate _ _).
Qed.

(** What a delivery comes to, once its partner is known or not. *)
Lemma processInboundEmail_cases w n d faults :
  let t := (processInboundEmail w n (begin_tx d faults)).2 in
  let target := recipient (w_domain w) (em_to n) (dir d) in
  (feed (committed t) = feed d ∧ (target ≠ None → tx_out t = [])) ∨
  ∃ p t1, target = Some p ∧ unmoved (begin_tx d faults) t1 ∧
    t = (try_catch (process_for_partner w n p) (λ _, logInboundFailedDurable n (Some p)) t1).2.
Proof.
  intros t target. set (log := logInbound n None in_ignored None
    (if negb (includes "@" (em_to n)) then Some "malformed/empty recipient"%string else None)).
  assert (t = match resolvePartnerByRecipient w (em_to n) (begin_tx d faults) with
              | (Ok (Some p), t1) => (try_catch (process_for_partner w n p) (λ _, logInboundFailedDurable n (Some p)) t1).2
              | (Ok None, t1) => (try_catch log (λ _, logInboundFailedDurable n None) t1).2
              | (Throw _, t1) => (logInboundFailedDurable n None t1).2
              end) as Et.
  { unfold t, processInboundEmail, mbind, TM_bind, try_catch at 1. destruct (resolvePartnerByRecipient _ _ _) as [[[p|]|e] t1]; [done..|].
    by destruct (logInboundFailedDurable n None t1) as [[] t2]. }
  clearbody t. destruct (resolve_unmoved w (em_to n) (begin_tx d faults)) as [U1 E1].
  assert (∀ {A} (m : TM A) t1, silent m → unmoved (begin_tx d faults) t1 → feed (committed (m t1).2) = feed d) as Hs.
  { intros A m t1 [Hs Ht] U. unfold committed.
    destruct (tx_aborted (m t1).2); [by rewrite (proj1 (Hs t1)), (um_base _ _ U) | by rewrite Ht, (um_tables _ _ U)]. }
  destruct (resolvePartnerByRecipient _ _ _) as [[[p|]|e] t1]; simpl in *.
  - right. exists p, t1. split_and!; [|done|done]. symmetry. by apply E1.
  - left. split; [|unfold target; by rewrite <- (E1 None eq_refl)]. rewrite Et. apply Hs; [|done].
    apply silent_catch; [apply silent_logInbound | intros e; apply silent_logFailed].
  - left. rewrite Et. split; [apply Hs; [apply silent_logFailed | done]|].
    intros _. by rewrite logFailed_out, (um_out _ _ U1).
Qed.

Lemma delivery_logged w n faults d :
  fresh d → feed (committed (processInboundEmail w n (begin_tx d faults)).2) ≠ feed d →
  ∃ p, recipient (w_domain w) (em_to n) (dir d) = Some p ∧
    is_logged p (em_providerMessageId n) (committed (processInboundEmail w n (begin_tx d faults)).2).
Proof.
  intros Hd Hne. destruct (processInboundEmail_cases w n d faults) as [[Hs _]|(p & t1 & Hp & U1 & Et)]; [done|].
  exists p. split; [done|]. revert Hne. rewrite Et. clear Et. unfold try_catch.
  assert (ambient t1) as Ha.
  { destruct U1 as [E1 E2 _ _]. split; rewrite ?E1, ?E2; by simpl. }
  destruct (goes_process true w n p (λ _, True) t1 Ha) as [_ Hl]; [done|].
  destruct (atomic_process w n p) as [Hsd Hat]. specialize (Hsd t1) as [Sb Sa]. specialize (Hat t1).
  destruct (process_for_partner w n p t1) as [[a|e] t2]; simpl in *; rewrite ?(um_base _ _ U1), ?(um_tables _ _ U1) in *; simpl in *.
  - unfold committed. destruct (tx_aborted t2) eqn:E; [by intros []|]. intros _. by apply Hl.
  - intros Hne. exfalso. apply Hne. destruct (silent_logFailed n (Some p)) as [F1 F2].
    specialize (F1 t2) as [F1 Fa]. specialize (F2 t2). unfold committed.
    destruct (tx_aborted (logInboundFailedDurable n (Some p) t2).2) eqn:E; [by rewrite F1|].
    destruct (Hat e eq_refl) as [H|H]; [by specialize (Fa H) | by rewrite F2].
Qed.

Lemma redelivery_inert w n faults d p :
  recipient (w_domain w) (em_to n) (dir d) = Some p → is_logged p (em_providerMessageId n) d →
  let '(_, d', out) := handleInboundEmail w n faults d in feed d' = feed d ∧ out = [].
Proof.
  intros Hp Hl. pose proof (processInboundEmail_cases w n d faults) as Hc.
  unfold handleInboundEmail, request. destruct (processInboundEmail _ _ _) as [r t]. simpl in Hc.
  destruct Hc as [[Hf Ho]|(p' & t1 & Hp' & U1 & ->)]; [split; [done|]; apply Ho; by rewrite Hp|].
  rewrite Hp in Hp'. injection Hp' as <-.
  assert (unmoved (begin_tx d faults)
    (try_catch (process_for_partner w n p) (λ _, logInboundFailedDurable n (Some p)) t1).2) as [E1 E2 E3 _].
  { eapply unmoved_trans; [exact U1|]. unfold try_catch.
    pose proof (process_duplicate w n p t1) as U2. rewrite (um_tables _ _ U1) in U2. specialize (U2 Hl).
    destruct (process_for_partner w n p t1) as [[a|e] t2]; simpl in *; [done|].
    eapply unmoved_trans; [exact U2|]. apply logFailed_duplicate. by rewrite (um_base _ _ U2), (um_base _ _ U1). }
  rewrite E3. split; [|done]. unfold committed. rewrite E1, E2. by case_match.
Qed.

(** ** Claims *)

Lemma delivery_steps q w n faults d :
  fresh d → rtc (astep q (w_now w)) d (handleInboundEmail w n faults d).1.2.
Proof.
  intros Hd. destruct (goes_handled _ _ _ _ (goes_processInboundEmail q w n (λ _, True)) d faults Hd) as [H _].
  unfold handleInboundEmail, request. by destruct (processInboundEmail w n _) as [r t].
Qed.

(** C30 (processInboundEmail, logInbound and the worker): a mail whose delivery changed a ticket
    or a comment changes none, and sends nothing, when it is delivered again, whichever
    statements fail at either delivery and whatever requests, jobs and mails come in between:
    what a mail does is committed together with its entry in the log, or not at all. *)
Theorem mail_handled_once q w w' n h faults faults' d :
  desk_ok d → inbound_fresh d → Forall (admissible q) h → w_domain w' = w_domain w →
  feed (handleInboundEmail w n faults d).1.2 ≠ feed d →
  let d2 := (run_history h (handleInboundEmail w n faults d).1.2).1 in
  let '(_, d3, out) := handleInboundEmail w' n faults' d2 in feed d3 = feed d2 ∧ out = [].
Proof.
  intros Hd Hi Hh Ew Hne. pose proof (delivery_steps q w n faults d (dk_fresh _ Hd)) as Hs.
  pose proof (steps_ok _ _ _ _ Hs Hd) as Hd1. pose proof (ids_kept_fresh _ _ (steps_ids _ _ _ _ Hs) Hi) as Hi1.
  destruct (history_ids q h _ Hh (dk_fresh _ Hd1)) as [Hk Ed].
  destruct (delivery_logged w n faults d (dk_fresh _ Hd)) as (p & Hp & Hl).
  { revert Hne. unfold handleInboundEmail, request. by destruct (processInboundEmail w n _) as [r t]. }
  apply redelivery_inert with p.
  - by rewrite Ed, Ew, (R_dir (Sent := no_breach) _ _ Hs).
  - apply (ik_logged _ _ Hk Hi1). revert Hl. unfold handleInboundEmail, request.
    by destruct (processInboundEmail w n _) as [r t].
Qed.

Definition toner : NormalizedInboundEmail :=
  {| em_providerMessageId := "m1"; em_to := "any@help.example.com"; em_from := "ann@acme.example";
     em_fromName := None; em_subject := "Toner"; em_text := "empty"; em_messageId := Some "<m1>"%string;
     em_inReplyTo := None; em_references := None; em_autoSubmitted := None; em_precedence := None;
     em_verified := true; em_raw := JNull |}.
Lemma mail_handled_once_witness :
  let d1 := (handleInboundEmail (calm 0) toner [] shop).1.2 in
  let d2 := (run_history [(calm 60000, to_status st_closed, [])] d1).1 in
  size (tickets d1) = 1%nat ∧
  let '(_, d3, out) := handleInboundEmail (calm 120000) toner [false; true] d2 in feed d3 = feed d2 ∧ out = [].
Proof.
  assert (size (tickets (handleInboundEmail (calm 0) toner [] shop).1.2) = 1%nat) as E by (vm_compute; reflexivity).
  split; [exact E|].
  apply (mail_handled_once true (calm 0) (calm 120000) toner [(calm 60000, to_status st_closed, [])] [] [false; true] shop).
  - exact shop_ok.
  - intros k [r Hr]. vm_compute in Hr. discriminate.
  - repeat constructor; apply calm_admissible.
  - reflexivity.
  - intros H. apply (f_equal (λ f, size f.1)) in H. unfold feed in H. cbn [fst] in H. rewrite E in H. vm_compute in H. discriminate.
Defined.

(** C31 (the sender check of processInboundEmail): a mail whose sender was not verified changes
    no ticket and no comment, whichever statements fail. *)
Theorem unverified_mail_inert w n faults d :
  em_verified n = false → feed (handleInboundEmail w n faults d).1.2 = feed d.
Proof.
  intros Hv. assert (feed (committed (processInboundEmail w n (begin_tx d faults)).2) = feed d) as H.
  2:{ unfold handleInboundEmail, request. by destruct (processInboundEmail w n _) as [r t]. }
  destruct (processInboundEmail_cases w n d faults) as [[Hs _]|(p & t1 & Hp & [Eb Et _ _] & ->)]; [done|].
  assert (silent (try_catch (process_for_partner w n p) (λ _, logInboundFailedDurable n (Some p)))) as [Hs Ht].
  { apply silent_catch; [|intros e; apply silent_logFailed]. unfold process_for_partner. rewrite Hv.
    apply silent_bind; [apply silent_query|]. intros x. case_match; [apply silent_logInbound|].
    case_match; [apply silent_logInbound|]. apply silent_bind; [apply silent_query|]. intros b.
    destruct b; [apply silent_ret | apply silent_logInbound]. }
  unfold committed. case_match; [by rewrite (proj1 (Hs t1)), Eb | by rewrite Ht, Et].
Qed.
Lemma unverified_mail_inert_witness :
  let forged := {| em_providerMessageId := "m2"; em_to := "any@help.example.com"; em_from := "ann@acme.example";
     em_fromName := None; em_subject := "Toner"; em_text := "empty"; em_messageId := None;
     em_inReplyTo := None; em_references := None; em_autoSubmitted := None; em_precedence := None;
     em_verified := false; em_raw := JNull |} in
  feed (handleInboundEmail (calm 0) forged [] shop).1.2 = feed shop.
Proof. apply unverified_mail_inert. reflexivity. Defined.
