(* ===== verification/TicketRaces.v ===== *)
(** * Requests that lose

    What is left of a change of status that lost a race, of an assignment whose feedback row was
    refused, and of a conversion whose settings could not be read. *)

From S2P Require Import Prelude JsNum Json TicketSla TicketDesk Tickets InboundEmail TicketConfig TicketLogic TicketSteps TicketRules TicketSafety.

Open Scope Z_scope.

(** ** A lost race *)

Create HintDb reads.
#[export] Hint Resolve reading_ret reading_throw reading_require reading_of_option reading_query reading_sys_read : reads.
Ltac reads :=
  lazymatch goal with
  | |- reading (mbind _ _) => apply reading_bind; [reads | intros ?; reads]
  | |- reading (match _ with _ => _ end) => case_match; reads
  | |- _ => by auto with reads
  end.

Lemma reading_load_change i target : reading (load_change i target).
Proof.
  unfold load_change, getTicketOrThrow, resolveTicketPartnerId, resolve_target, getTicketStatusById, getSystemStatusId.
  reads.
Qed.
Lemma reading_load_assignment i a : reading (load_assignment i a).
Proof.
  unfold load_assignment, getTicketOrThrow, resolveTicketPartnerId, assertAssigneeInPartner, getAssigneeForValidation.
  reads.
Qed.

(** Run from [t] it throws, and leaves nothing behind. *)
Definition refused {A} (t : Tx) (m : TM A) : Prop := ∃ x t', m t = (Throw x, t') ∧
  tx_base t' = tx_base t ∧ (tx_aborted t' = false → tx_tables t' = tx_tables t) ∧ tx_out t' = tx_out t.

Lemma refused_reading {A B} t (m : TM A) (k : A → TM B) :
  reading m → (∀ a t1, unmoved t t1 → refused t1 (k a)) → refused t (m ≫= k).
Proof.
  intros Hm Hk. destruct (Hm t) as [U _]. clear Hm. rename U into Hm. unfold refused, mbind, TM_bind. destruct (m t) as [[a|e] t1]; simpl in *.
  - destruct (Hk a t1 Hm) as (x & t' & E & E1 & E2 & E3), Hm as [U1 U2 U3 _]. exists x, t'.
    rewrite <- U1, <- U2, <- U3. done.
  - destruct Hm as [U1 U2 U3 _]. by exists e, t1.
Qed.

(** An update whose guard fails writes nothing. *)
Lemma refused_update {A} i G f e (k : Ticket → TM A) t :
  (∀ u, tickets (tx_tables t) !! i = Some u → G u = false) →
  refused t (o ← update_ticket i G f; of_option o e ≫= k).
Proof.
  intros HG. unfold refused, update_ticket, write, stmt, mbind, TM_bind, of_option, throw.
  destruct (tx_aborted t) eqn:Ea; [by eexists _, _|]. destruct (fault t); [by eexists _, _|].
  destruct (tickets (tx_tables t) !! i) as [u|] eqn:E; [rewrite (HG u eq_refl)|]; simpl; by eexists _, _.
Qed.

(** The second half of changeTicketStatus, on a ticket whose status others have changed. *)
Lemma change_refused w i ticket to statusId name opts actor t :
  (∀ u, tickets (tx_tables t) !! i = Some u → status u ≠ status ticket) →
  (to ≠ status ticket ∨ statusId ≠ sg_statusId (tk_stage ticket)) →
  refused t (if bool_decide (to = status ticket ∧ statusId = sg_statusId (tk_stage ticket)) then mret ticket
             else if bool_decide (to = status ticket) then relabel w i ticket statusId name actor
             else transition w i ticket to statusId name opts actor).
Proof.
  intros Hu Hne. rewrite bool_decide_eq_false_2 by tauto. case_bool_decide.
  - apply refused_update. intros u Hx. by rewrite bool_decide_eq_false_2 by (by apply Hu).
  - apply refused_reading; [apply reading_require|]. intros [] t1 U1.
    apply refused_reading; [apply reading_require|]. intros [] t2 U2. apply refused_update. intros u Hx.
    rewrite bool_decide_eq_false_2; [done|]. apply Hu. by rewrite <- (um_tables _ _ U1), <- (um_tables _ _ U2).
Qed.

(** (the compare-and-swap of changeTicketStatus): a change of status, whatever it asks for,
    that finds the ticket in another status than it read changes nothing and sends nothing,
    whichever statements fail: what is committed is the desk it started from or the desk the
    others have left.  It is answered with an error, unless it asked for the status and label
    the ticket had when it was read. *)
Theorem lost_race_changes_nothing w i target opts actor faults d ticket :
  fresh d → tickets d !! i = Some ticket →
  (∀ u, tickets (w_rival w d) !! i = Some u → status u ≠ status ticket) →
  let '(r, d', out) := request (changeTicketStatus w i target opts actor) faults d in
  out = [] ∧ (d' = d ∨ d' = w_rival w d) ∧ ((∃ x, r = Throw x) ∨ r = Ok ticket).
Proof.
  intros Hd Ht Hu. unfold request, changeTicketStatus, mbind at 1, TM_bind at 1.
  destruct (reading_load_change i target (begin_tx d faults)) as [[U1 U2 U3 _] UA].
  assert (DeskRel eq no_breach) as Hrel by (apply (reads_rel (rtc (astep true 0))), _).
  destruct (goes_load_change eq no_breach i target (begin_tx d faults) (ambient_begin d faults Hd)) as [_ HQ]; [done|].
  destruct (load_change i target (begin_tx d faults)) as [[[t0 [[to sid] name]]|e] t1]; simpl in *.
  - specialize (UA _ eq_refl). specialize (HQ UA). rewrite U2, Ht in HQ. injection HQ as <-.
    unfold mbind, TM_bind. simpl. rewrite U1, UA, U3. set (t2 := Build_Tx _ _ _ _ _).
    destruct (decide (to = status ticket ∧ sid = sg_statusId (tk_stage ticket))) as [E|E].
    + rewrite bool_decide_eq_true_2 by done. simpl. auto.
    + destruct (change_refused w i ticket to sid name opts actor t2) as (x & t' & -> & E1 & E2 & E3); [done | |].
      { destruct (decide (to = status ticket)); [right; naive_solver | by left]. }
      unfold committed. rewrite E1, E3. split; [done|]. split; [|eauto].
      right. destruct (tx_aborted t'); [done|]. by rewrite E2.
  - unfold committed. rewrite U1, U2, U3. split; [done|]. split; [|eauto]. by destruct (tx_aborted t1); left.
Qed.
Lemma lost_race_changes_nothing_witness :
  let w := racing 60000 (λ d, (run_entry (calm 60000, to_status st_on_hold, []) d).1) in
  let '(r, d', out) := request (changeTicketStatus w 100%nat {| ct_status := Some st_pending; ct_statusId := None |}
    {| co_resolutionNote := None; co_pendingReason := None |} agent) [] opened in
  r = Throw CONCURRENT_MODIFICATION ∧ out = [].
Proof.
  intros w. destruct (tickets opened !! 100%nat) as [ticket|] eqn:E; [|vm_compute in E; discriminate].
  pose proof (lost_race_changes_nothing w 100%nat {| ct_status := Some st_pending; ct_statusId := None |}
    {| co_resolutionNote := None; co_pendingReason := None |} agent [] opened ticket (dk_fresh _ opened_ok) E) as H.
  assert ((request (changeTicketStatus w 100%nat {| ct_status := Some st_pending; ct_statusId := None |}
    {| co_resolutionNote := None; co_pendingReason := None |} agent) [] opened).1.1 = Throw CONCURRENT_MODIFICATION) as Er
    by (vm_compute; reflexivity).
  destruct (request _ [] opened) as [[r d'] out]. split; [exact Er|]. apply H.
  assert ((λ t, status t) <$> tickets opened !! 100%nat = Some st_new) as E1 by (vm_compute; reflexivity).
  assert ((λ t, status t) <$> tickets (w_rival w opened) !! 100%nat = Some st_on_hold) as E2 by (vm_compute; reflexivity).
  rewrite E in E1. injection E1 as E1. intros u Hu. rewrite Hu in E2. injection E2 as E2. rewrite E1, E2. discriminate.
Defined.

(** ** A refused feedback row *)

Lemma feedback_refused w o i e k b t :
  w_feedback w = false →
  ∃ t', emitTicketTriageFeedback w o i e k b t = (Ok tt, t') ∧ tx_aborted t' = true ∧
    tx_base t' = tx_base t ∧ tx_out t' = tx_out t.
Proof.
  intros Hw. unfold emitTicketTriageFeedback, try_catch, stmt, mbind, TM_bind. rewrite Hw.
  destruct (tx_aborted t) eqn:E; [by eexists|]. destruct (fault t); by eexists.
Qed.

Lemma inside_ok {A} (m : TM A) t a t' : inside m → m t = (Ok a, t') → tx_base t' = tx_base t.
Proof. intros Hm E. specialize (Hm t). by rewrite E in Hm. Qed.


(** ** A conversion that fails half-way *)

(** The mail as a failed conversion leaves it. *)
Definition stranded (i : uuid) (row : InboundRow) (d : Desk) : Desk :=
  set_inbound <[i := set_status in_created (ib_ticketId row) row]> (next d) d.

(** A mail that is not in review any more. *)
Lemma resolved_refused {A} partnerId i d row (k : InboundRow → TM A) :
  inbound d !! i = Some row → ib_partnerId row = Some partnerId → in_review (ib_status row) = false →
  request (readQueueRow partnerId i ≫= k) [] d = (Throw INBOUND_ROW_ALREADY_RESOLVED, d, []).
Proof.
  intros Hi Hp Hr. unfold request, readQueueRow, query, stmt, mbind, TM_bind, require, of_option, throw. simpl.
  rewrite Hi. simpl. rewrite Hp, bool_decide_eq_true_2 by done. by rewrite Hr.
Qed.

(** (convertEmailInbound): when the SLA settings of the organisation cannot be read, on their own
    connection, after the mail was claimed, the conversion is answered with an error and creates
    no ticket, but the claim is committed: the mail is marked as converted, has no ticket, and
    every further conversion and dismissal of it is refused. *)
Theorem failed_conversion_strands_mail w partnerId i orgId actor d row org :
  inbound d !! i = Some row → ib_partnerId row = Some partnerId → in_review (ib_status row) = true →
  orgs (dir d) !! orgId = Some org → og_partnerId org = partnerId → trim (ib_from row) ≠ ""%string →
  let d' := stranded i row d in
  request (convertEmailInbound w partnerId i orgId actor) [false; false; false; false; true] d = (Throw PG_ERROR, d', []) ∧
  (∀ w', request (convertEmailInbound w' partnerId i orgId actor) [] d' = (Throw INBOUND_ROW_ALREADY_RESOLVED, d', [])) ∧
  request (dismissEmailInbound partnerId i) [] d' = (Throw INBOUND_ROW_ALREADY_RESOLVED, d', []).
Proof.
  intros Hi Hp Hr Ho Ep Hs d'.
  assert (inbound d' !! i = Some (set_status in_created (ib_ticketId row) row)) as Hi' by (apply lookup_insert_eq).
  split_and!.
  - unfold request, convertEmailInbound, readQueueRow, update_inbound, write, query, stmt, mbind, TM_bind, mret, TM_ret,
      require, of_option, throw. simpl.
    rewrite Hi. simpl. rewrite Hp, bool_decide_eq_true_2 by done. simpl. rewrite Hr. simpl. rewrite Ho. simpl.
    rewrite Ep, bool_decide_eq_true_2 by done. simpl.
    destruct (trim (ib_from row)) as [|c s] eqn:Et; [done|]. simpl. rewrite Hi. simpl. rewrite Hp, bool_decide_eq_true_2 by done. simpl.
    rewrite Hr. simpl. unfold createTicket, query, stmt, mbind, TM_bind. simpl. rewrite Ho. simpl. reflexivity.
  - intros w'. unfold convertEmailInbound. apply resolved_refused with (1 := Hi'); done.
  - unfold dismissEmailInbound. apply resolved_refused with (1 := Hi'); done.
Qed.
Lemma failed_conversion_strands_mail_witness :
  let row := {| ib_partnerId := Some 7%nat; ib_messageKey := "m3"; ib_from := "bob@bolt.example"; ib_to := "any@help.example.com";
                ib_subject := "Help"; ib_status := in_quarantined; ib_ticketId := None; ib_error := None; ib_raw := JNull |} in
  let d := set_inbound <[50%nat := row]> 100%nat shop in
  request (convertEmailInbound (calm 0) 7%nat 50%nat 2%nat agent) [false; false; false; false; true] d =
    (Throw PG_ERROR, stranded 50%nat row d, []).
Proof.
  intros row d. apply (failed_conversion_strands_mail (calm 0) 7%nat 50%nat 2%nat agent d row {| og_partnerId := 7%nat; og_name := "Bolt" |});
    [vm_compute; reflexivity..|]. vm_compute. discriminate.
Defined.

(** ** An assignment that races *)

(** assignTicket compares the assignee only: a ticket that a colleague puts on hold while it is being
    assigned for the first time comes out open with its clock stopped, so that no sweep finds
    it due, however late it is. *)
Example racing_assignment_stops_clock :
  let w := racing 60000 (λ d, (run_entry (calm 60000, to_status st_on_hold, []) d).1) in
  let d := (run_entry (w, OpAssign 100%nat (Some 3%nat) agent, []) opened).1 in
  (λ t, (status t, sg_slaPausedAt (tk_stage t))) <$> tickets d !! 100%nat = Some (st_open, Some 60000) ∧
  ∀ now k, (100%nat : uuid) ∉ (due_tickets now k d).*1.
Proof.
  intros w d.
  assert ((λ t, (status t, sg_slaPausedAt (tk_stage t))) <$> tickets d !! 100%nat = Some (st_open, Some 60000)) as E
    by (vm_compute; reflexivity).
  split; [exact E|]. intros now k ([i t] & Hi & Ht)%list_elem_of_fmap. simpl in Hi. subst i.
  apply due_tickets_due in Ht as [Ht (_ & Hp & _)]. rewrite Ht in E. injection E as _ E. rewrite Hp in E. discriminate.
Qed.
