(* ===== verification/RateLimit.v ===== *)
(** * Rate limiting and account lockout ([services/rate-limit.ts]).

    Redis is a service outside the repository: the code is written against the class
    [RedisStore] of the commands it uses, and the theorems against [RedisLaws], the
    documented behaviour of those commands.  [MemoryRedis] is a concrete store with these
    laws.  Times are in milliseconds. *)

From S2P Require Import Prelude JsNum.

Open Scope Z_scope.

(** ** The Redis interface *)

Class RedisStore (R : Type) := {
  zset : R → string → list Z;              (* scores of a sorted set, ascending *)
  counter : R → string → option Z;         (* a string key holding an integer *)
  deadline : R → string → option Z;        (* when the key expires *)
  zremrangebyscore : string → Z → R → R;   (* from -inf to a score, inclusive *)
  zadd : string → nat → Z → R → R;         (* new members with one score *)
  incr : string → R → Z * R;
  del : string → R → R;
  expire : string → Z → R → R;             (* the time at which the key will expire *)
  advance : Z → R → R }.                   (* the clock moves on to a time *)

(** Documented behaviour, for one key. *)
Class RedisLaws (R : Type) `{RedisStore R} := {
  zset_zrem k s r : zset (zremrangebyscore k s r) k = filter (λ x, s < x) (zset r k);
  zset_zadd k n s r : zset (zadd k n s r) k ≡ₚ replicate n s ++ zset r k;
  zset_expire k t r : zset (expire k t r) k = zset r k;
  deadline_expire k t r : zset r k ≠ [] ∨ counter r k ≠ None → deadline (expire k t r) k = Some t;
  zset_advance k t r :
    zset (advance t r) k =
    match deadline r k with Some d => if d <=? t then [] else zset r k | None => zset r k end;
  counter_incr k r :
    (incr k r).1 = default 0 (counter r k) + 1 ∧ counter (incr k r).2 k = Some ((incr k r).1);
  deadline_incr k r : counter r k ≠ None → deadline (incr k r).2 k = deadline r k;
  counter_expire k t r : counter (expire k t r) k = counter r k;
  counter_del k r : counter (del k r) k = None;
  counter_advance k t r :
    counter (advance t r) k =
    match deadline r k with Some d => if d <=? t then None else counter r k | None => counter r k end;
  deadline_advance k t r : counter (advance t r) k ≠ None → deadline (advance t r) k = deadline r k }.

(** How a command of the client ends: a reply, a null reply of [exec], a rejection. *)
Inductive Reply := Replied | NullReply | Rejected.

(** ** rateLimiter *)

Record RateLimitResult := { allowed : bool; remaining : Z; resetAt : Z }.
Record RateLimitConfig := { limit : Z; windowSeconds : Z }.

Section limiter.
Context {R : Type} `{RedisLaws R}.

Definition failClosed (now windowSeconds : Z) : RateLimitResult :=
  {| allowed := false; remaining := 0; resetAt := now + windowSeconds * 1000 |}.

Definition safeCost (cost : num) : nat :=
  match cost with Some q => Z.to_nat (Z.max 1 (Qfloor q)) | None => 1%nat end.

(** The commands of the [MULTI] block, in their order. *)
Definition window_commands (key : string) (now windowSeconds : Z) (cost : num) (r : R) : R :=
  expire key (now + windowSeconds * 1000)
    (zadd key (safeCost cost) now (zremrangebyscore key (now - windowSeconds * 1000) r)).

(** [redis] is [None] when the client is unavailable. *)
Definition rateLimiter (redis : option R) (reply : Reply) (key : string) (lim windowSeconds : Z)
    (cost : num) (now : Z) : RateLimitResult * option R :=
  match redis with
  | None => (failClosed now windowSeconds, None)
  | Some r =>
      match reply with
      | NullReply | Rejected => (failClosed now windowSeconds, Some r)
      | Replied =>
          let r' := window_commands key now windowSeconds cost r in
          let count := Z.of_nat (length (zset r' key)) in
          let oldestScore := default now (head (zset r' key)) in
          ({| allowed := count <=? lim; remaining := Z.max 0 (lim - count);
              resetAt := oldestScore + windowSeconds * 1000 |}, Some r')
      end
  end.

(** ** Account lockout *)

Record AccountFailureResult := { af_count : Z; af_locked : bool; af_newlyLocked : bool }.

Definition accountFailureKey (email : string) : string := "login:account-fail:" +:+ toLowerCase email.

(** [parseInt] of an environment variable, [None] when it is unset; the two settings. *)
Definition positiveIntFromEnv (raw : option (option Z)) (fallback : Z) : Z :=
  match raw with
  | None => fallback
  | Some (Some n) => if n <? 0 then fallback else n
  | Some None => fallback
  end.
Definition getAccountLockoutMax (raw : option (option Z)) : Z := positiveIntFromEnv raw 5.
Definition getAccountLockoutWindowSeconds (raw : option (option Z)) : Z :=
  positiveIntFromEnv raw (15 * 60).

Definition recordAccountFailure (redis : option R) (reply : Reply) (maxAttempts windowSeconds : Z)
    (email : string) (now : Z) : AccountFailureResult * option R :=
  if maxAttempts <=? 0
  then ({| af_count := 0; af_locked := false; af_newlyLocked := false |}, redis)
  else
    let closed := {| af_count := maxAttempts; af_locked := true; af_newlyLocked := false |} in
    match redis, reply with
    | None, _ => (closed, None)
    | Some r, Replied =>
        let key := accountFailureKey email in
        let '(count, r1) := incr key r in
        let r2 := if count =? 1 then expire key (now + windowSeconds * 1000) r1 else r1 in
        ({| af_count := count; af_locked := maxAttempts <=? count;
            af_newlyLocked := count =? maxAttempts |}, Some r2)
    | Some r, _ => (closed, Some r)
    end.

Definition clearAccountFailures (redis : option R) (reply : Reply) (email : string) : option R :=
  match redis, reply with
  | Some r, Replied => Some (del (accountFailureKey email) r)
  | r, _ => r
  end.

Definition isAccountLocked (redis : option R) (reply : Reply) (maxAttempts : Z) (email : string) : bool :=
  if maxAttempts <=? 0 then false
  else
    match redis, reply with
    | Some r, Replied =>
        match counter r (accountFailureKey email) with Some v => maxAttempts <=? v | None => false end
    | _, _ => true
    end.
End limiter.

(** The limits of the authentication routes. *)
Definition loginLimiter : RateLimitConfig := {| limit := 5; windowSeconds := 5 * 60 |}.
Definition forgotPasswordLimiter : RateLimitConfig := {| limit := 3; windowSeconds := 60 * 60 |}.
Definition mfaLimiter : RateLimitConfig := {| limit := 5; windowSeconds := 5 * 60 |}.
Definition smsPhoneVerifyLimiter : RateLimitConfig := {| limit := 3; windowSeconds := 60 * 60 |}.
Definition smsPhoneVerifyUserLimiter : RateLimitConfig := {| limit := 5; windowSeconds := 60 * 60 |}.
Definition smsLoginSendLimiter : RateLimitConfig := {| limit := 3; windowSeconds := 5 * 60 |}.
Definition smsLoginGlobalLimiter : RateLimitConfig := {| limit := 5; windowSeconds := 15 * 60 |}.
Definition phoneConfirmLimiter : RateLimitConfig := {| limit := 5; windowSeconds := 5 * 60 |}.

(** ** The sliding window *)

(** The scores a list of calls [(time, cost)] leaves. *)
Definition call_scores (calls : list (Z * num)) : list Z :=
  calls ≫= λ c, replicate (safeCost c.2) c.1.

(** The cost of the calls in the window that ends at [now]. *)
Definition window_cost (w now : Z) (calls : list (Z * num)) : Z :=
  Z.of_nat (length (filter (λ x, now - w < x) (call_scores calls))).

Lemma filter_none {A} (P : A → Prop) `{∀ x, Decision (P x)} l :
  (∀ x, x ∈ l → ¬ P x) → filter P l = [].
Proof.
  induction l as [|x l IH]; intros Hl; [done|]. rewrite filter_cons_False by (apply Hl; set_solver).
  apply IH. set_solver.
Qed.

Lemma filter_replicate {A} (P : A → Prop) `{∀ x, Decision (P x)} n x :
  P x → filter P (replicate n x) = replicate n x.
Proof. intros Hx. induction n as [|n IH]; [done|]. simpl. by rewrite filter_cons_True, IH. Qed.

Section sliding.
Context {R : Type} `{RedisLaws R}.
Variables (key : string) (cfg : RateLimitConfig).
Let w : Z := windowSeconds cfg * 1000.
Hypothesis Hw : 0 < windowSeconds cfg.

(** A run of answered calls, each at its own time. *)
Fixpoint run_calls (r : R) (calls : list (Z * num)) : R :=
  match calls with
  | [] => r
  | (now, cost) :: calls =>
      run_calls (window_commands key now (windowSeconds cfg) cost (advance now r)) calls
  end.

Record window_ok (r : R) (calls : list (Z * num)) (last : Z) : Prop := {
  wo_set : zset r key ≡ₚ filter (λ x, last - w < x) (call_scores calls);
  wo_deadline : calls ≠ [] → deadline r key = Some (last + w);
  wo_past : ∀ x, x ∈ call_scores calls → x <= last }.

Lemma call_scores_snoc calls now cost :
  call_scores (calls ++ [(now, cost)]) = call_scores calls ++ replicate (safeCost cost) now.
Proof. unfold call_scores. rewrite bind_app. simpl. by rewrite app_nil_r. Qed.

Lemma safeCost_pos cost : (1 <= safeCost cost)%nat.
Proof. unfold safeCost. destruct cost; lia. Qed.

(** Expiry and purging at [now] leave the scores of the window. *)
Lemma window_purge r calls last now :
  window_ok r calls last → last <= now →
  filter (λ x, now - w < x) (zset (advance now r) key) ≡ₚ
  filter (λ x, now - w < x) (call_scores calls).
Proof.
  intros [Hs Hd Hp] Hle. rewrite zset_advance.
  assert (∀ l, l ≡ₚ filter (λ x, last - w < x) (call_scores calls) →
    filter (λ x, now - w < x) l ≡ₚ filter (λ x, now - w < x) (call_scores calls)) as Hkeep.
  { intros l ->. rewrite list_filter_filter_l; [done|]. intros x Hx. lia. }
  destruct (deadline r key) as [d|] eqn:Ed; [|by apply Hkeep].
  destruct (Z.leb_spec d now) as [Hexp|]; [|by apply Hkeep].
  destruct calls as [|c calls]; [done|]. assert (Some d = Some (last + w)) as [= ->] by (by apply Hd).
  assert (filter (λ x, now - w < x) (call_scores (c :: calls)) = []) as ->; [|done].
  apply filter_none. intros x Hx. specialize (Hp x Hx). lia.
Qed.

Lemma window_commands_ok r calls last now cost :
  window_ok r calls last → last <= now →
  window_ok (window_commands key now (windowSeconds cfg) cost (advance now r))
    (calls ++ [(now, cost)]) now.
Proof.
  intros Hok Hle. pose proof (window_purge r calls last now Hok Hle) as Hpurge.
  assert (zset (zadd key (safeCost cost) now
      (zremrangebyscore key (now - windowSeconds cfg * 1000) (advance now r))) key ≡ₚ
    filter (λ x, now - w < x) (call_scores (calls ++ [(now, cost)]))) as Hset.
  { rewrite zset_zadd, zset_zrem. fold w. rewrite Hpurge, call_scores_snoc, filter_app.
    rewrite Permutation_app_comm. f_equiv. rewrite filter_replicate; [done|]. unfold w. lia. }
  constructor.
  - unfold window_commands. by rewrite zset_expire.
  - intros _. unfold window_commands. fold w. apply deadline_expire. left. intros E.
    apply (f_equal length) in E. rewrite zset_zadd, length_app, length_replicate in E.
    pose proof (safeCost_pos cost). simpl in E. lia.
  - intros x. rewrite call_scores_snoc, elem_of_app. intros [Hx|Hx].
    + apply (wo_past _ _ _ Hok) in Hx. lia.
    + apply elem_of_replicate in Hx as [-> _]. lia.
Qed.

(** Times that do not go back. *)
Fixpoint ordered_from (t : Z) (calls : list (Z * num)) : Prop :=
  match calls with [] => True | (now, _) :: calls => t <= now ∧ ordered_from now calls end.

Lemma run_calls_ok r done last calls :
  window_ok r done last → ordered_from last calls →
  window_ok (run_calls r calls) (done ++ calls) (from_option fst last (list.last calls)).
Proof.
  revert r done last. induction calls as [|[now cost] calls IH]; intros r done last Hok Hord.
  { by rewrite app_nil_r. }
  destruct Hord as [Hle Hord]. cbn [run_calls].
  pose proof (IH _ _ _ (window_commands_ok r done last now cost Hok Hle) Hord) as H'.
  rewrite <- app_assoc in H'. simpl in H'. rewrite last_cons.
  destruct (list.last calls) as [[t c]|] eqn:E; simpl in *; done.
Qed.

Lemma window_start r t : zset r key = [] → window_ok r [] t.
Proof. intros Hz. constructor; [by rewrite Hz | done | set_solver]. Qed.
End sliding.

(** C11 (rateLimiter, rate-limit.ts): after any sequence of answered calls for a key, at
    times that do not go back, a further call is allowed exactly when the cost of all
    calls in the window that ends now, itself included, is within the limit, and
    [remaining] is what is left of it: the purge, the insertion and the key's expiry
    together implement the sliding window. *)
Theorem rateLimiter_sliding_window {R} `{RedisLaws R} (r : R) key cfg calls t0 now cost :
  0 < windowSeconds cfg → zset r key = [] → ordered_from t0 (calls ++ [(now, cost)]) →
  let used := window_cost (windowSeconds cfg * 1000) now (calls ++ [(now, cost)]) in
  let res := (rateLimiter (Some (advance now (run_calls key cfg r calls))) Replied key (limit cfg)
                (windowSeconds cfg) cost now).1 in
  allowed res = (used <=? limit cfg) ∧ remaining res = Z.max 0 (limit cfg - used).
Proof.
  intros Hw Hz Hord. assert (∀ t l, ordered_from t (l ++ [(now, cost)]) →
    ordered_from t l ∧ from_option fst t (list.last l) <= now) as Hsplit.
  { clear. intros t l. revert t. induction l as [|[s c] l IH]; intros t; simpl; [tauto|].
    intros [Hle Ho]. destruct (IH s Ho) as [Ho' Hl]. split; [done|]. rewrite last_cons.
    destruct (list.last l); done. }
  destruct (Hsplit t0 calls Hord) as [Ho Hl].
  pose proof (run_calls_ok key cfg Hw r [] t0 calls (window_start key cfg Hw r t0 Hz) Ho) as Hok.
  pose proof (window_commands_ok key cfg Hw _ _ _ now cost Hok Hl) as [Hset _ _].
  intros used res. unfold res, rateLimiter. cbn [fst allowed remaining].
  rewrite (Permutation_length Hset). done.
Qed.

(** ** Lockout *)

(** Failures of one account at the given times, the clock moving along. *)
Fixpoint run_failures {R} `{RedisStore R} (r : R) (maxAttempts w : Z) (email : string)
    (times : list Z) : list AccountFailureResult * R :=
  match times with
  | [] => ([], r)
  | t :: times =>
      match recordAccountFailure (Some (advance t r)) Replied maxAttempts w email t with
      | (res, Some r') => let '(rest, r'') := run_failures r' maxAttempts w email times in
                          (res :: rest, r'')
      | (res, None) => ([res], r)
      end
  end.

(** What the [n]-th failure of a window reports. *)
Definition failure_report (maxAttempts : Z) (n : nat) : AccountFailureResult :=
  {| af_count := Z.of_nat n; af_locked := maxAttempts <=? Z.of_nat n;
     af_newlyLocked := Z.of_nat n =? maxAttempts |}.

Section lockout.
Context {R : Type} `{RedisLaws R}.
Variables (maxAttempts w : Z) (email : string).
Hypothesis Hmax : 0 < maxAttempts.
Let key := accountFailureKey email.

Lemma record_first (r : R) t :
  counter r key = None →
  ∃ r', recordAccountFailure (Some r) Replied maxAttempts w email t =
          (failure_report maxAttempts 1, Some r') ∧
        counter r' key = Some 1 ∧ deadline r' key = Some (t + w * 1000).
Proof.
  intros Hc. unfold recordAccountFailure. destruct (Z.leb_spec maxAttempts 0) as [|_]; [lia|]. fold key.
  pose proof (counter_incr key r) as [Hi1 Hi2]. rewrite Hc in Hi1. simpl in Hi1.
  destruct (incr key r) as [c r1]. simpl in *. subst c. simpl.
  eexists. split; [done|]. rewrite counter_expire. split; [done|].
  apply deadline_expire. right. congruence.
Qed.

Lemma record_next (r : R) n d t :
  counter r key = Some (Z.of_nat n) → (0 < n)%nat → deadline r key = d →
  ∃ r', recordAccountFailure (Some r) Replied maxAttempts w email t =
          (failure_report maxAttempts (S n), Some r') ∧
        counter r' key = Some (Z.of_nat (S n)) ∧ deadline r' key = d.
Proof.
  intros Hc Hn Hd. unfold recordAccountFailure. destruct (Z.leb_spec maxAttempts 0) as [|_]; [lia|]. fold key.
  pose proof (counter_incr key r) as [Hi1 Hi2]. pose proof (deadline_incr key r) as Hi3.
  rewrite Hc in Hi1, Hi3. simpl in Hi1. destruct (incr key r) as [c r1]. simpl in *.
  replace c with (Z.of_nat (S n)) in * by lia.
  destruct (Z.eqb_spec (Z.of_nat (S n)) 1); [lia|]. eexists. split; [done|].
  split; [done|]. rewrite Hi3; done.
Qed.

Lemma run_failures_from (r : R) n d times :
  counter r key = Some (Z.of_nat n) → (0 < n)%nat → deadline r key = Some d →
  Forall (λ t, t < d) times →
  ∃ r', run_failures r maxAttempts w email times =
          (failure_report maxAttempts <$> seq (S n) (length times), r') ∧
        counter r' key = Some (Z.of_nat (n + length times)).
Proof.
  intros Hc Hn Hd Ht. revert r n Hc Hn Hd. induction Ht as [|t times Hlt Ht IH]; intros r n Hc Hn Hd.
  { exists r. simpl. by rewrite Nat.add_0_r. }
  assert (counter (advance t r) key = Some (Z.of_nat n)) as Hc'.
  { rewrite counter_advance, Hd. destruct (Z.leb_spec d t); [lia | done]. }
  assert (deadline (advance t r) key = Some d) as Hd' by (rewrite deadline_advance; congruence).
  destruct (record_next _ n _ t Hc' Hn Hd') as (r1 & E1 & Hc1 & Hd1).
  destruct (IH r1 (S n) Hc1 ltac:(lia) Hd1) as (r2 & E2 & Hc2).
  exists r2. cbn [run_failures]. rewrite E1, E2. split; [done|]. rewrite Hc2. f_equal. simpl. lia.
Qed.
End lockout.

(** recordAccountFailure and isAccountLocked, rate-limit.ts: failures of an account
    within one window after the first report the counts 1, 2, 3, ...; the account is
    reported and stays locked from the [maxAttempts]-th failure on, and exactly that
    failure, once in the window, is reported as newly locked. *)
Theorem lockout_window {R} `{RedisLaws R} (r : R) maxAttempts w email t times :
  0 < maxAttempts → counter (advance t r) (accountFailureKey email) = None →
  Forall (λ t', t' < t + w * 1000) times →
  ∃ r', run_failures r maxAttempts w email (t :: times) =
          (failure_report maxAttempts <$> seq 1 (S (length times)), r') ∧
        isAccountLocked (Some r') Replied maxAttempts email =
          (maxAttempts <=? Z.of_nat (S (length times))).
Proof.
  intros Hmax Hc Ht.
  destruct (record_first maxAttempts w email Hmax _ t Hc) as (r1 & E1 & Hc1 & Hd1).
  destruct (run_failures_from maxAttempts w email Hmax r1 1 _ times Hc1 ltac:(lia) Hd1 Ht)
    as (r2 & E2 & Hc2).
  exists r2. cbn [run_failures]. rewrite E1, E2. split; [done|].
  unfold isAccountLocked. destruct (Z.leb_spec maxAttempts 0); [lia|]. by rewrite Hc2.
Qed.

(** ** A store with the laws *)

Record MemoryRedis := {
  mr_sets : gmap string (list Z); mr_counters : gmap string Z; mr_deadlines : gmap string Z }.

Definition mr_expired (r : MemoryRedis) (t : Z) (k : string) : bool :=
  match mr_deadlines r !! k with Some d => d <=? t | None => false end.

#[export] Instance MemoryRedis_store : RedisStore MemoryRedis := {|
  zset r k := default [] (mr_sets r !! k);
  counter r k := mr_counters r !! k;
  deadline r k := mr_deadlines r !! k;
  zremrangebyscore k s r :=
    {| mr_sets := alter (filter (λ x, s < x)) k (mr_sets r); mr_counters := mr_counters r;
       mr_deadlines := mr_deadlines r |};
  zadd k n s r :=
    {| mr_sets := <[k := merge_sort Z.le (replicate n s ++ default [] (mr_sets r !! k))]> (mr_sets r);
       mr_counters := mr_counters r; mr_deadlines := mr_deadlines r |};
  incr k r :=
    let c := default 0 (mr_counters r !! k) + 1 in
    (c, {| mr_sets := mr_sets r; mr_counters := <[k := c]> (mr_counters r);
           mr_deadlines := mr_deadlines r |});
  del k r :=
    {| mr_sets := delete k (mr_sets r); mr_counters := delete k (mr_counters r);
       mr_deadlines := delete k (mr_deadlines r) |};
  expire k t r :=
    {| mr_sets := mr_sets r; mr_counters := mr_counters r;
       mr_deadlines := if bool_decide (mr_sets r !! k = None ∧ mr_counters r !! k = None)
                       then mr_deadlines r else <[k := t]> (mr_deadlines r) |};
  advance t r :=
    {| mr_sets := filter (λ kv, mr_expired r t kv.1 = false) (mr_sets r);
       mr_counters := filter (λ kv, mr_expired r t kv.1 = false) (mr_counters r);
       mr_deadlines := filter (λ kv, mr_expired r t kv.1 = false) (mr_deadlines r) |} |}.

Lemma lookup_filter_key {A} (m : gmap string A) (f : string → bool) k :
  filter (λ kv, f kv.1 = false) m !! k = if f k then None else m !! k.
Proof.
  rewrite map_lookup_filter. destruct (m !! k) as [x|]; simpl; [|by destruct (f k)].
  destruct (f k); by case_guard.
Qed.

#[export] Instance MemoryRedis_laws : RedisLaws MemoryRedis.
Proof.
  split; intros; simpl; rewrite ?lookup_filter_key, ?lookup_insert, ?decide_True by done.
  - rewrite lookup_alter, decide_True by done. by destruct (mr_sets r !! k).
  - apply merge_sort_Permutation.
  - done.
  - simpl in *. case_bool_decide as E; [|by rewrite lookup_insert, decide_True].
    destruct E as [E1 E2]. rewrite E1, E2 in *. naive_solver.
  - unfold mr_expired. by repeat case_match.
  - done.
  - done.
  - done.
  - by rewrite lookup_delete, decide_True.
  - unfold mr_expired. by repeat case_match.
  - simpl in *. rewrite lookup_filter_key in *. by destruct (mr_expired r t k).
Qed.

Definition empty_redis : MemoryRedis :=
  {| mr_sets := ∅; mr_counters := ∅; mr_deadlines := ∅ |}.

(** Five logins in a minute use up the login limit; a sixth is refused, and one after
    the window is allowed. *)
Lemma rateLimiter_sliding_window_witness :
  let calls := (λ t, (t, nint 1)) <$> [0; 10000; 20000; 30000; 40000] in
  let call now := (rateLimiter (Some (advance now (run_calls "login" loginLimiter empty_redis calls)))
                     Replied "login" (limit loginLimiter) (windowSeconds loginLimiter) (nint 1) now).1 in
  allowed (call 50000) = false ∧ allowed (call 301000) = true ∧
  allowed (call 50000) = (window_cost 300000 50000 (calls ++ [(50000, nint 1)]) <=? 5).
Proof.
  intros calls call. split; [vm_compute; reflexivity|]. split; [vm_compute; reflexivity|].
  apply (rateLimiter_sliding_window empty_redis "login" loginLimiter calls 0 50000 (nint 1));
    [done | reflexivity | by vm_compute].
Defined.

(** Six failures with the default settings. *)
Lemma lockout_window_witness :
  ∃ r', run_failures empty_redis 5 900 "a@b.c" [0; 1; 2; 3; 4; 5] =
          (failure_report 5 <$> seq 1 6, r') ∧
        isAccountLocked (Some r') Replied 5 "a@b.c" = true.
Proof.
  apply (lockout_window empty_redis 5 900 "a@b.c" 0 [1; 2; 3; 4; 5]);
    [done | reflexivity | repeat constructor].
Defined.
