(* ===== verification/Contracts.v ===== *)
(** * Recurring contracts ([services/contractService.ts], [contractQuantities.ts],
    [contractRenewal.ts], [jobs/contractWorker.ts]).

    The tables of contracts sit beside the tables of invoicing: a handler is a function
    from both to an error or to a result and the new tables, and the invoice service is
    called through [invoicing], which runs a handler of [Invoices] on its part of the
    state.  The unique indexes of [contract_billing_periods] and
    [contract_renewal_notices] are the keys of their maps; ids of contracts and of their
    lines come from a generator of fresh ids. *)

From S2P Require Import Prelude JsNum Money Calendar InvoiceDb Invoices.

Open Scope Z_scope.

(** ** Data ([contractTypes.ts], [db/schema/contracts.ts]) *)

Inductive ContractStatus := c_draft | c_active | c_paused | c_cancelled | c_expired.
#[export] Instance ContractStatus_eq_dec : EqDecision ContractStatus.
Proof. solve_decision. Defined.

Inductive ContractLineType := flat | per_device | per_seat | manual.
#[export] Instance ContractLineType_eq_dec : EqDecision ContractLineType.
Proof. solve_decision. Defined.

Inductive NoticeKind := notice_advance | notice_renewed.
#[export] Instance NoticeKind_eq_dec : EqDecision NoticeKind.
Proof. solve_decision. Defined.
#[export] Instance NoticeKind_countable : Countable NoticeKind.
Proof.
  refine (inj_countable' (λ k, match k with notice_advance => false | notice_renewed => true end)
            (λ b, if b then notice_renewed else notice_advance) _). by intros [].
Defined.

(** Columns written together are grouped, as in [InvoiceDb]. *)
Record Owner := {
  ow_partnerId : id; ow_orgId : id; ow_createdBy : option id; ow_createdAt : Z;
  ow_currencyCode : string }.
Record Schedule := {
  sc_billingTiming : BillingTiming; sc_intervalMonths : Z; sc_startDate : string }.
Record Details := {
  dt_name : string; dt_autoIssue : bool; dt_notes : text; dt_terms : text }.
Record Renewal := {
  rn_autoRenew : bool; rn_termMonths : option Z; rn_noticeDays : option Z }.

Record ContractRow := {
  k_owner : Owner; k_schedule : Schedule; k_details : Details; k_renewal : Renewal;
  k_status : ContractStatus; k_endDate : text; k_nextBillingAt : text; k_updatedAt : Z }.

Definition k_orgId (c : ContractRow) : id := ow_orgId (k_owner c).
Definition k_partnerId (c : ContractRow) : id := ow_partnerId (k_owner c).

Record ContractLine := {
  cl_contractId : id; cl_orgId : id; cl_lineType : ContractLineType; cl_description : string;
  cl_catalogItemId : option id; cl_unitPrice : string; cl_manualQuantity : text;
  cl_siteId : option id; cl_taxable : bool; cl_sortOrder : Z }.

Record BillingPeriod := { bp_orgId : id; bp_periodEnd : string; bp_invoiceId : option id }.

Record Device := { dv_orgId : id; dv_siteId : id; dv_decommissioned : bool }.
Record UserRow := { us_email : string; us_active : bool }.
Inductive OrgAccess := access_all | access_selected | access_none.
Record PartnerUser := {
  pu_partnerId : id; pu_userId : id; pu_orgAccess : OrgAccess; pu_orgIds : list id }.

(** [contractEvents.ts]; the bus accepts an event or drops it, and never throws. *)
Inductive ContractEvent :=
| contract_activated (c : id) | contract_invoiced (c i : id) | contract_paused (c : id)
| contract_cancelled (c : id) | contract_expired (c : id) | contract_auto_renewed (c : id).

(** A notice handed to the in-app and the email senders. *)
Inductive Notice :=
| in_app (c : id) (endDate : string) (kind : NoticeKind) (orgName : string)
| email (to : list string) (c : id) (endDate : string) (kind : NoticeKind) (orgName : string).

Record CDB := {
  invoicingDb : DB;
  contracts : gmap id ContractRow; contractLines : gmap id ContractLine;
  billingPeriods : gmap (id * string) BillingPeriod;
  renewalNotices : gmap (id * string * NoticeKind) id;    (* to the organisation *)
  orgPartner : gmap id id;                                (* organizations.partner_id *)
  devices : gmap id Device; users : gmap id UserRow;
  organizationUsers : list (id * id);                     (* organisation, user *)
  partnerUsers : list PartnerUser;
  nextContractId : id; contractEvents : list ContractEvent; outbox : list Notice }.

(** ** Errors and the handler monad *)

Inductive ContractError :=
| C_ORG_DENIED | CONTRACT_NOT_FOUND | C_NOT_A_DRAFT | NO_LINES | C_INVALID_STATE
| C_RENEWAL_INCOMPLETE                       (* 400, thrown without a code *)
| C_INVOICE (e : InvoiceError).              (* raised by the invoice service *)
#[export] Instance ContractError_eq_dec : EqDecision ContractError.
Proof. solve_decision. Defined.

Definition CM (A : Type) : Type := CDB → outcome ContractError (A * CDB).
#[export] Instance CM_ret : MRet CM := λ A a s, Ok (a, s).
#[export] Instance CM_bind : MBind CM := λ A B k m s,
  match m s with Ok (a, s') => k a s' | Throw e => Throw e end.

Definition c_throw {A} (e : ContractError) : CM A := λ _, Throw e.
Definition c_require (b : bool) (e : ContractError) : CM unit := if b then mret tt else c_throw e.
Definition c_get : CM CDB := λ s, Ok (s, s).
Definition c_modify (f : CDB → CDB) : CM unit := λ s, Ok (tt, f s).

(** A transaction of its own whose error is caught: what it wrote is rolled back. *)
Definition attempt {A} (m : CM A) : CM (option A) := λ s,
  match m s with Ok (a, s') => Ok (Some a, s') | Throw _ => Ok (None, s) end.

(** ** Writes *)

Definition with_invoicing (d : DB) (s : CDB) : CDB :=
  {| invoicingDb := d; contracts := contracts s; contractLines := contractLines s;
     billingPeriods := billingPeriods s; renewalNotices := renewalNotices s;
     orgPartner := orgPartner s; devices := devices s; users := users s;
     organizationUsers := organizationUsers s; partnerUsers := partnerUsers s;
     nextContractId := nextContractId s; contractEvents := contractEvents s;
     outbox := outbox s |}.
Definition set_contracts (g : gmap id ContractRow → gmap id ContractRow)
    (gl : gmap id ContractLine → gmap id ContractLine) (s : CDB) : CDB :=
  {| invoicingDb := invoicingDb s; contracts := g (contracts s);
     contractLines := gl (contractLines s); billingPeriods := billingPeriods s;
     renewalNotices := renewalNotices s; orgPartner := orgPartner s; devices := devices s;
     users := users s; organizationUsers := organizationUsers s;
     partnerUsers := partnerUsers s; nextContractId := nextContractId s;
     contractEvents := contractEvents s; outbox := outbox s |}.
Definition set_periods (g : gmap (id * string) BillingPeriod → gmap (id * string) BillingPeriod)
    (s : CDB) : CDB :=
  {| invoicingDb := invoicingDb s; contracts := contracts s; contractLines := contractLines s;
     billingPeriods := g (billingPeriods s); renewalNotices := renewalNotices s;
     orgPartner := orgPartner s; devices := devices s; users := users s;
     organizationUsers := organizationUsers s; partnerUsers := partnerUsers s;
     nextContractId := nextContractId s; contractEvents := contractEvents s;
     outbox := outbox s |}.
Definition set_notices
    (g : gmap (id * string * NoticeKind) id → gmap (id * string * NoticeKind) id)
    (ev : list ContractEvent) (out : list Notice) (s : CDB) : CDB :=
  {| invoicingDb := invoicingDb s; contracts := contracts s; contractLines := contractLines s;
     billingPeriods := billingPeriods s; renewalNotices := g (renewalNotices s);
     orgPartner := orgPartner s; devices := devices s; users := users s;
     organizationUsers := organizationUsers s; partnerUsers := partnerUsers s;
     nextContractId := nextContractId s; contractEvents := contractEvents s ++ ev;
     outbox := outbox s ++ out |}.

Definition c_fresh : CM id := λ s,
  Ok (nextContractId s,
      {| invoicingDb := invoicingDb s; contracts := contracts s; contractLines := contractLines s;
         billingPeriods := billingPeriods s; renewalNotices := renewalNotices s;
         orgPartner := orgPartner s; devices := devices s; users := users s;
         organizationUsers := organizationUsers s; partnerUsers := partnerUsers s;
         nextContractId := N.succ (nextContractId s); contractEvents := contractEvents s;
         outbox := outbox s |}).

(** Run a handler of the invoice service inside the transaction. *)
Definition invoicing {A} (m : M A) : CM A := λ s,
  match m (invoicingDb s) with
  | Ok (a, d) => Ok (a, with_invoicing d s)
  | Throw e => Throw (C_INVOICE e)
  end.

(** Deleting a draft invoice, with the [ON DELETE SET NULL] of [invoice_id]. *)
Definition forget_invoice (i : id) (p : BillingPeriod) : BillingPeriod :=
  {| bp_orgId := bp_orgId p; bp_periodEnd := bp_periodEnd p;
     bp_invoiceId := if bool_decide (bp_invoiceId p = Some i) then None else bp_invoiceId p |}.
Definition drop_draft (i : id) (actor : InvoiceActor) : CM unit :=
  invoicing (deleteDraftInvoice i actor);; c_modify (set_periods (fmap (forget_invoice i))).

Definition emitContractEvent (e : ContractEvent) : CM unit :=
  c_modify (set_notices (λ n, n) [e] []).

Definition insert_contract (c : ContractRow) : CM id :=
  i ← c_fresh; c_modify (set_contracts <[i := c]> (λ l, l));; mret i.
Definition insert_contract_line (l : ContractLine) : CM id :=
  i ← c_fresh; c_modify (set_contracts (λ c, c) <[i := l]>);; mret i.
Definition update_contract (i : id) (f : ContractRow → ContractRow) : CM unit :=
  c_modify (set_contracts (alter f i) (λ l, l)).

(** The lines, the billing history and the notices go with their contract. *)
Definition delete_contract (i : id) : CM unit :=
  c_modify (λ s, set_notices (filter (λ n, n.1.1.1 ≠ i)) [] []
    (set_periods (filter (λ p, p.1.1 ≠ i))
      (set_contracts (delete i) (filter (λ l, cl_contractId l.2 ≠ i)) s))).

(** [SET status = st, next_billing_at = at, updated_at = now]. *)
Definition with_lifecycle (st : ContractStatus) (next : text) (now : Z) (c : ContractRow)
    : ContractRow :=
  {| k_owner := k_owner c; k_schedule := k_schedule c; k_details := k_details c;
     k_renewal := k_renewal c; k_status := st; k_endDate := k_endDate c;
     k_nextBillingAt := next; k_updatedAt := now |}.
Definition with_endDate (e : text) (now : Z) (c : ContractRow) : ContractRow :=
  {| k_owner := k_owner c; k_schedule := k_schedule c; k_details := k_details c;
     k_renewal := k_renewal c; k_status := k_status c; k_endDate := e;
     k_nextBillingAt := k_nextBillingAt c; k_updatedAt := now |}.

(** ** Guards *)

Record ContractActor := {
  ka_userId : id; ka_partnerId : option id; ka_accessibleOrgIds : option (list id) }.

Definition c_requireOrgAccess (actor : ContractActor) (orgId : id) : CM unit :=
  c_require (match ka_accessibleOrgIds actor with
             | None => true | Some l => bool_decide (orgId ∈ l) end) C_ORG_DENIED.

Definition getOwnedContractOr404 (i : id) (actor : ContractActor) : CM ContractRow :=
  s ← c_get;
  match contracts s !! i with
  | None => c_throw CONTRACT_NOT_FOUND
  | Some c => c_requireOrgAccess actor (k_orgId c);; mret c
  end.

Definition c_assertDraft (c : ContractRow) : CM unit :=
  c_require (bool_decide (k_status c = c_draft)) C_NOT_A_DRAFT.

Definition assertEditable (c : ContractRow) : CM unit :=
  c_require (bool_decide (k_status c = c_draft) || bool_decide (k_status c = c_active))
    C_INVALID_STATE.

(** ** Drafting and editing *)

Record ContractInput := {
  ci_orgId : id; ci_name : string; ci_schedule : Schedule; ci_endDate : option text;
  ci_autoIssue : option bool; ci_currency : text; ci_notes : option text;
  ci_terms : option text; ci_autoRenew : option bool; ci_termMonths : option (option Z);
  ci_noticeDays : option (option Z) }.

(** [x ?? null] of an optional nullable field. *)
Definition or_null {A} (x : option (option A)) : option A := default None x.

Definition createContract (input : ContractInput) (actor : ContractActor) (now : Z) : CM id :=
  c_requireOrgAccess actor (ci_orgId input);;
  c_require (bool_decide (ka_partnerId actor ≠ None)) C_ORG_DENIED;;
  s ← c_get;
  match orgPartner s !! ci_orgId input with
  | None => c_throw CONTRACT_NOT_FOUND
  | Some partnerId =>
      insert_contract
        {| k_owner := {| ow_partnerId := partnerId; ow_orgId := ci_orgId input;
             ow_createdBy := Some (ka_userId actor); ow_createdAt := now;
             ow_currencyCode := default "USD"%string (ci_currency input) |};
           k_schedule := ci_schedule input;
           k_details := {| dt_name := ci_name input;
             dt_autoIssue := default false (ci_autoIssue input);
             dt_notes := or_null (ci_notes input); dt_terms := or_null (ci_terms input) |};
           k_renewal := {| rn_autoRenew := default false (ci_autoRenew input);
             rn_termMonths := or_null (ci_termMonths input);
             rn_noticeDays := or_null (ci_noticeDays input) |};
           k_status := c_draft; k_endDate := or_null (ci_endDate input);
           k_nextBillingAt := None; k_updatedAt := now |}
  end.

Record ContractPatch := {
  up_name : option string; up_billingTiming : option BillingTiming;
  up_intervalMonths : option Z; up_startDate : option string; up_endDate : option text;
  up_autoIssue : option bool; up_notes : option text; up_terms : option text;
  up_autoRenew : option bool; up_termMonths : option (option Z);
  up_noticeDays : option (option Z) }.

Definition touches_schedule (p : ContractPatch) : bool :=
  bool_decide (up_billingTiming p ≠ None) || bool_decide (up_intervalMonths p ≠ None) ||
  bool_decide (up_startDate p ≠ None).

Definition patched_schedule (p : ContractPatch) (sc : Schedule) : Schedule :=
  {| sc_billingTiming := default (sc_billingTiming sc) (up_billingTiming p);
     sc_intervalMonths := default (sc_intervalMonths sc) (up_intervalMonths p);
     sc_startDate := default (sc_startDate sc) (up_startDate p) |}.

Definition patched_contract (p : ContractPatch) (now : Z) (c : ContractRow) : ContractRow :=
  {| k_owner := k_owner c;
     k_schedule := if bool_decide (k_status c = c_draft)
                   then patched_schedule p (k_schedule c) else k_schedule c;
     k_details := {| dt_name := default (dt_name (k_details c)) (up_name p);
       dt_autoIssue := default (dt_autoIssue (k_details c)) (up_autoIssue p);
       dt_notes := null_or (up_notes p) (dt_notes (k_details c));
       dt_terms := null_or (up_terms p) (dt_terms (k_details c)) |};
     k_renewal := {| rn_autoRenew := default (rn_autoRenew (k_renewal c)) (up_autoRenew p);
       rn_termMonths := null_or (up_termMonths p) (rn_termMonths (k_renewal c));
       rn_noticeDays := null_or (up_noticeDays p) (rn_noticeDays (k_renewal c)) |};
     k_status := k_status c; k_endDate := null_or (up_endDate p) (k_endDate c);
     k_nextBillingAt := k_nextBillingAt c; k_updatedAt := now |}.

(** The merged row may renew only with an end date and a term. *)
Definition renewal_complete (c : ContractRow) : bool :=
  negb (rn_autoRenew (k_renewal c)) ||
  (bool_decide (k_endDate c ≠ None) && bool_decide (rn_termMonths (k_renewal c) ≠ None)).

Definition updateContract (i : id) (p : ContractPatch) (actor : ContractActor) (now : Z)
    : CM ContractRow :=
  c ← getOwnedContractOr404 i actor;
  assertEditable c;;
  c_require (bool_decide (k_status c = c_draft) || negb (touches_schedule p)) C_INVALID_STATE;;
  c_require (renewal_complete (patched_contract p now c)) C_RENEWAL_INCOMPLETE;;
  update_contract i (patched_contract p now);;
  getOwnedContractOr404 i actor.

Definition deleteDraftContract (i : id) (actor : ContractActor) : CM unit :=
  c ← getOwnedContractOr404 i actor; c_assertDraft c;; delete_contract i.

Record ContractLineInput := {
  li_lineType : ContractLineType; li_description : string; li_catalogItemId : option id;
  li_unitPrice : string; li_manualQuantity : text; li_siteId : option id; li_taxable : bool;
  li_sortOrder : option Z }.

(** A quantity is kept for manual lines, a site for device lines. *)
Definition line_row (i orgId : id) (sort : Z) (input : ContractLineInput) : ContractLine :=
  {| cl_contractId := i; cl_orgId := orgId; cl_lineType := li_lineType input;
     cl_description := li_description input; cl_catalogItemId := li_catalogItemId input;
     cl_unitPrice := li_unitPrice input;
     cl_manualQuantity := match li_lineType input with
                          | manual => Some (default "0"%string (li_manualQuantity input))
                          | _ => None end;
     cl_siteId := match li_lineType input with per_device => li_siteId input | _ => None end;
     cl_taxable := li_taxable input; cl_sortOrder := default sort (li_sortOrder input) |}.

Definition addContractLineToContract (i : id) (input : ContractLineInput)
    (actor : ContractActor) : CM id :=
  c ← getOwnedContractOr404 i actor; assertEditable c;;
  insert_contract_line (line_row i (k_orgId c) 0 input).

Definition removeContractLine (i lineId : id) (actor : ContractActor) : CM unit :=
  c ← getOwnedContractOr404 i actor; assertEditable c;;
  c_modify (set_contracts (λ c, c)
    (filter (λ l, ¬ (l.1 = lineId ∧ cl_contractId l.2 = i)))).

(** [createContractWithLines]: the contracts of an accepted quote, always drafts. *)
Record NewContractSpec := {
  ns_partnerId : id; ns_orgId : id; ns_name : string; ns_schedule : Schedule;
  ns_endDate : text; ns_currencyCode : text; ns_notes : text; ns_terms : text;
  ns_createdBy : option id; ns_lines : list ContractLineInput }.

Fixpoint insert_spec_lines (i orgId : id) (n : Z) (ls : list ContractLineInput) : CM unit :=
  match ls with
  | [] => mret tt
  | l :: ls => insert_contract_line (line_row i orgId n l);; insert_spec_lines i orgId (n + 1) ls
  end.

Definition createContractWithLines (spec : NewContractSpec) (now : Z) : CM id :=
  i ← insert_contract
    {| k_owner := {| ow_partnerId := ns_partnerId spec; ow_orgId := ns_orgId spec;
         ow_createdBy := ns_createdBy spec; ow_createdAt := now;
         ow_currencyCode := default "USD"%string (ns_currencyCode spec) |};
       k_schedule := ns_schedule spec;
       k_details := {| dt_name := ns_name spec; dt_autoIssue := false;
         dt_notes := ns_notes spec; dt_terms := ns_terms spec |};
       k_renewal := {| rn_autoRenew := false; rn_termMonths := None; rn_noticeDays := None |};
       k_status := c_draft; k_endDate := ns_endDate spec; k_nextBillingAt := None;
       k_updatedAt := now |};
  insert_spec_lines i (ns_orgId spec) 0 (ns_lines spec);; mret i.

(** ** Reads *)

Definition lines_of_contract (s : CDB) (i : id) : list (id * ContractLine) :=
  order_by (λ a b, cl_sortOrder a.2 <=? cl_sortOrder b.2)
    (filter (λ l, cl_contractId l.2 = i) (map_to_list (contractLines s))).

Definition getContract (i : id) (actor : ContractActor)
    : CM (ContractRow * list (id * ContractLine) * list (string * BillingPeriod)) :=
  c ← getOwnedContractOr404 i actor;
  s ← c_get;
  let periods := (λ p, (p.1.2, p.2)) <$>
    filter (λ p, p.1.1 = i) (map_to_list (billingPeriods s)) in
  mret (c, lines_of_contract s i, order_by (λ a b, str_le b.1 a.1) periods).

(** [contractQuantities.ts] *)
Definition countContractDevices (s : CDB) (orgId : id) (siteId : option id) : Z :=
  let counted (d : Device) : bool :=
    bool_decide (dv_orgId d = orgId) && negb (dv_decommissioned d) &&
    match siteId with Some x => bool_decide (dv_siteId d = x) | None => true end in
  Z.of_nat (length (filter (λ d, counted d.2 = true) (map_to_list (devices s)))).
Definition user_active (s : CDB) (u : id) : bool :=
  match users s !! u with Some r => us_active r | None => false end.
Definition countContractSeats (s : CDB) (orgId : id) : Z :=
  Z.of_nat (length (remove_dups (snd <$>
    filter (λ m, m.1 = orgId ∧ user_active s m.2 = true) (organizationUsers s)))).

(** ** Recurring-value estimate *)

Record Caches := { dc : gmap (id * option id) Z; sc : gmap id Z }.
Definition no_caches : Caches := {| dc := ∅; sc := ∅ |}.

(** Quantity, whether it is a live count, and the caches after. *)
Definition resolveLineQty (s : CDB) (orgId : id) (l : ContractLine) (ca : Caches)
    : num * bool * Caches :=
  match cl_lineType l with
  | flat => (nint 1, false, ca)
  | manual => (Number (default "0"%string (cl_manualQuantity l)), false, ca)
  | per_device =>
      let key := (orgId, cl_siteId l) in
      match dc ca !! key with
      | Some n => (nint n, true, ca)
      | None => let n := countContractDevices s orgId (cl_siteId l) in
                (nint n, true, {| dc := <[key := n]> (dc ca); sc := sc ca |})
      end
  | per_seat =>
      match sc ca !! orgId with
      | Some n => (nint n, true, ca)
      | None => let n := countContractSeats s orgId in
                (nint n, true, {| dc := dc ca; sc := <[orgId := n]> (sc ca) |})
      end
  end.

Record EstimateLine := {
  es_lineId : id; es_lineType : ContractLineType; es_quantity : num; es_value : string;
  es_live : bool }.

(** The loop over the lines of one contract: total, output rows, caches. *)
Fixpoint estimate_lines (s : CDB) (orgId : id) (ls : list (id * ContractLine)) (total : num)
    (ca : Caches) : num * list EstimateLine * Caches :=
  match ls with
  | [] => (total, [], ca)
  | (k, l) :: ls =>
      let '(quantity, live, ca) := resolveLineQty s orgId l ca in
      let value := nmul (Number (cl_unitPrice l)) quantity in
      let '(total, out, ca) := estimate_lines s orgId ls (nadd total value) ca in
      (total, {| es_lineId := k; es_lineType := cl_lineType l; es_quantity := quantity;
                 es_value := toFixed 2 value; es_live := live |} :: out, ca)
  end.

Definition computeContractEstimate (i : id) (actor : ContractActor)
    : CM (string * string * list EstimateLine) :=
  c ← getOwnedContractOr404 i actor;
  s ← c_get;
  let '(total, out, _) := estimate_lines s (k_orgId c) (lines_of_contract s i) (nint 0) no_caches in
  mret (ow_currencyCode (k_owner c), toFixed 2 total, out).

(** One memo of the counts is shared by the contracts of a page. *)
Fixpoint estimate_page (s : CDB) (rows : list (id * ContractRow)) (ca : Caches)
    : list (id * ContractRow * string) :=
  match rows with
  | [] => []
  | (i, c) :: rows =>
      let ls := filter (λ l, cl_contractId l.2 = i) (map_to_list (contractLines s)) in
      let '(total, _, ca) := estimate_lines s (k_orgId c) ls (nint 0) ca in
      (i, c, toFixed 2 total) :: estimate_page s rows ca
  end.

Definition listContracts (orgId : option id) (status : option ContractStatus)
    (limit : option nat) (actor : ContractActor) : CM (list (id * ContractRow * string)) :=
  match orgId with Some o => c_requireOrgAccess actor o | None => mret tt end;;
  s ← c_get;
  let matches (r : id * ContractRow) : bool :=
    match orgId with Some o => bool_decide (k_orgId r.2 = o) | None => true end &&
    match status with Some st => bool_decide (k_status r.2 = st) | None => true end &&
    match ka_accessibleOrgIds actor with
    | Some l => bool_decide (k_orgId r.2 ∈ l) | None => true end in
  let rows := take (Nat.min (default 50%nat limit) 100)
    (order_by (λ a b, ow_createdAt (k_owner b.2) <=? ow_createdAt (k_owner a.2))
      (filter (λ r, matches r = true) (map_to_list (contracts s)))) in
  mret (estimate_page s rows no_caches).

(** ** Lifecycle *)

Definition todayISO (now : Z) : string := utc_date now.

Definition activateContract (i : id) (actor : ContractActor) (now : Z) : CM unit :=
  c ← getOwnedContractOr404 i actor;
  c_require (bool_decide (k_status c = c_draft) || bool_decide (k_status c = c_paused))
    C_INVALID_STATE;;
  s ← c_get;
  c_require (bool_decide (lines_of_contract s i ≠ [])) NO_LINES;;
  let sch := k_schedule c in
  let idx := periodIndexFor (sc_startDate sch) (sc_intervalMonths sch) (todayISO now) in
  let nextAt := nextBillingDate (sc_startDate sch) (sc_intervalMonths sch)
                  (sc_billingTiming sch) idx in
  update_contract i (with_lifecycle c_active (Some nextAt) now);;
  emitContractEvent (contract_activated i).

Definition pauseContract (i : id) (actor : ContractActor) (now : Z) : CM unit :=
  c ← getOwnedContractOr404 i actor;
  c_require (bool_decide (k_status c = c_active)) C_INVALID_STATE;;
  update_contract i (with_lifecycle c_paused None now);;
  emitContractEvent (contract_paused i).

(** [asOfISO] is today when the caller does not pass it. *)
Definition resumeContract (i : id) (actor : ContractActor) (asOfISO : string) (now : Z)
    : CM unit :=
  c ← getOwnedContractOr404 i actor;
  c_require (bool_decide (k_status c = c_paused)) C_INVALID_STATE;;
  let sch := k_schedule c in
  let idx := periodIndexFor (sc_startDate sch) (sc_intervalMonths sch) asOfISO in
  let nextAt := nextBillingDate (sc_startDate sch) (sc_intervalMonths sch)
                  (sc_billingTiming sch) idx in
  update_contract i (with_lifecycle c_active (Some nextAt) now);;
  emitContractEvent (contract_activated i).

Definition cancelContract (i : id) (actor : ContractActor) (now : Z) : CM unit :=
  c ← getOwnedContractOr404 i actor;
  if bool_decide (k_status c = c_cancelled) then mret tt
  else update_contract i (with_lifecycle c_cancelled None now);;
       emitContractEvent (contract_cancelled i).

(** ** Billing *)

Inductive Skip := already_billed | skip_expired | not_due.

(** [{ generated: false, skipped }] or [{ generated: true, invoiceId, autoIssue, actor }]. *)
Inductive GenerateResult :=
| skipped (why : Skip)
| generated (invoiceId : id) (autoIssue : bool) (actor : InvoiceActor).

Definition contract_actor (c : ContractRow) : InvoiceActor :=
  {| ac_userId := ow_createdBy (k_owner c); ac_partnerId := Some (k_partnerId c);
     ac_accessibleOrgIds := Some [k_orgId c] |}.

(** The index of the period that a run at [nextBillingAt] covers. *)
Definition due_index (sch : Schedule) (nextBillingAt : string) : Z :=
  let idxAt := periodIndexFor (sc_startDate sch) (sc_intervalMonths sch) nextBillingAt in
  Z.max 0 (match sc_billingTiming sch with advance => idxAt | arrears => idxAt - 1 end).

Definition line_quantity (s : CDB) (orgId : id) (l : ContractLine) : string :=
  match cl_lineType l with
  | flat => "1"
  | manual => default "0"%string (cl_manualQuantity l)
  | per_device => print_Z (countContractDevices s orgId (cl_siteId l))
  | per_seat => print_Z (countContractSeats s orgId)
  end.

Fixpoint bill_lines (inv : id) (orgId : id) (actor : InvoiceActor) (now : Z)
    (ls : list (id * ContractLine)) : CM unit :=
  match ls with
  | [] => mret tt
  | (k, l) :: ls =>
      s ← c_get;
      invoicing (addContractLine inv (cl_description l) (line_quantity s orgId l)
        (cl_unitPrice l) (cl_taxable l) (cl_catalogItemId l) (Some k) actor now);;
      bill_lines inv orgId actor now ls
  end.

(** [[c.notes, c.terms].filter(Boolean)], joined by a blank line. *)
Definition note_text (c : ContractRow) : text :=
  let nonempty (t : text) : list string :=
    match t with None | Some EmptyString => [] | Some x => [x] end in
  match nonempty (dt_notes (k_details c)) ++ nonempty (dt_terms (k_details c)) with
  | [] => None
  | a :: rest => Some (foldl (λ acc x, acc +:+ of_chars ["010"; "010"]%char +:+ x) a rest)
  end.

(** [INSERT ... ON CONFLICT DO NOTHING]: whether the row was inserted. *)
Definition claim_period (i : id) (p : Period) (orgId inv : id) : CM bool :=
  s ← c_get;
  match billingPeriods s !! (i, periodStart p) with
  | Some _ => mret false
  | None =>
      c_modify (set_periods <[(i, periodStart p) :=
        {| bp_orgId := orgId; bp_periodEnd := periodEnd p; bp_invoiceId := Some inv |}]>);;
      mret true
  end.

Definition expire_contract (i : id) (now : Z) : CM unit :=
  update_contract i (with_lifecycle c_expired None now);; emitContractEvent (contract_expired i).

(** Step 4: move the pointer to the next period, or expire the contract. *)
Definition advance_pointer (i : id) (c : ContractRow) (idx : Z) (now : Z) : CM unit :=
  let sch := k_schedule c in
  let nextPeriod := computePeriod (sc_startDate sch) (sc_intervalMonths sch) (idx + 1) in
  if isExpired (k_endDate c) (periodStart nextPeriod) then expire_contract i now
  else
    let nextAt := match sc_billingTiming sch with
                  | advance => periodStart nextPeriod | arrears => periodEnd nextPeriod end in
    update_contract i (λ r, with_lifecycle (k_status r) (Some nextAt) now r).

(** The invoice of period [idx]: draft, lines, claim, pointer. *)
Definition bill_period (i : id) (c : ContractRow) (idx : Z) (lines : list (id * ContractLine))
    (now : Z) : CM GenerateResult :=
  let sch := k_schedule c in
  let period := computePeriod (sc_startDate sch) (sc_intervalMonths sch) idx in
  let actor := contract_actor c in
  inv ← invoicing (createManualInvoice (k_orgId c) None (note_text c) None actor now);
  bill_lines inv (k_orgId c) actor now lines;;
  claimed ← claim_period i period (k_orgId c) inv;
  if negb claimed then drop_draft inv actor;; mret (skipped already_billed)
  else
    advance_pointer i c idx now;;
    emitContractEvent (contract_invoiced i inv);;
    mret (generated inv (dt_autoIssue (k_details c)) actor).

Definition generateDueInvoice (i : id) (now : Z) : CM GenerateResult :=
  s ← c_get;
  match contracts s !! i with
  | None => c_throw CONTRACT_NOT_FOUND
  | Some c =>
      match k_nextBillingAt c with
      | None => mret (skipped not_due)
      | Some nextAt =>
          if negb (bool_decide (k_status c = c_active)) then mret (skipped not_due)
          else if str_lt (todayISO now) nextAt then mret (skipped not_due)
          else
            let sch := k_schedule c in
            let idx := due_index sch nextAt in
            let period := computePeriod (sc_startDate sch) (sc_intervalMonths sch) idx in
            if isExpired (k_endDate c) (periodStart period)
            then expire_contract i now;; mret (skipped skip_expired)
            else
              match lines_of_contract s i with
              | [] => mret (skipped not_due)
              | lines => bill_period i c idx lines now
              end
      end
  end.

(** ** Renewal ([contractRenewal.ts]) *)

(** The services a notice goes through: whether the in-app sender throws on a contract,
    and whether an email service is configured. *)
Record Senders := { sd_inAppThrows : id → bool; sd_email : bool }.

(** A [Map] filled in order: a key keeps its first position and takes the last value. *)
Fixpoint map_set {A} (k : id) (v : A) (m : list (id * A)) : list (id * A) :=
  match m with
  | [] => [(k, v)]
  | (k', v') :: m => if bool_decide (k' = k) then (k, v) :: m else (k', v') :: map_set k v m
  end.

Definition partner_access (orgId : id) (p : PartnerUser) : bool :=
  match pu_orgAccess p with
  | access_all => true | access_selected => bool_decide (orgId ∈ pu_orgIds p)
  | access_none => false
  end.

Definition resolveMspRecipients (s : CDB) (orgId partnerId : id) : list (id * string) :=
  let active (u : id) : option (id * string) :=
    r ← users s !! u; if us_active r then Some (u, us_email r) else None in
  let orgRows := omap (λ m, if bool_decide (m.1 = orgId) then active m.2 else None)
                      (organizationUsers s) in
  let partnerRows := omap (λ p, if bool_decide (pu_partnerId p = partnerId) &&
                                   partner_access orgId p then active (pu_userId p) else None)
                          (partnerUsers s) in
  foldl (λ m u, if bool_decide (u.2 = ""%string) then m else map_set u.1 u.2 m) []
        (orgRows ++ partnerRows).

(** Whether this caller won the (contract, end date, kind) slot. *)
Definition claimNotice (i : id) (c : ContractRow) (endDate : string) (kind : NoticeKind)
    : CM bool :=
  s ← c_get;
  match renewalNotices s !! (i, endDate, kind) with
  | Some _ => mret false
  | None => c_modify (set_notices <[(i, endDate, kind) := k_orgId c]> [] []);; mret true
  end.

(** A sender that throws ends the dispatch; nothing is thrown further. *)
Definition dispatchNotice (sd : Senders) (i : id) (c : ContractRow) (kind : NoticeKind)
    (endDate : string) : CM unit :=
  s ← c_get;
  let orgName := default "your customer"%string
    (og_name <$> organizations (invoicingDb s) !! k_orgId c) in
  let inApp := in_app i endDate kind orgName in
  if sd_inAppThrows sd i then c_modify (set_notices (λ n, n) [] [inApp])
  else
    let to := snd <$> resolveMspRecipients s (k_orgId c) (k_partnerId c) in
    let mails := if sd_email sd && bool_decide (to ≠ []) then [email to i endDate kind orgName]
                 else [] in
    c_modify (set_notices (λ n, n) [] (inApp :: mails)).

Definition is_candidate (c : ContractRow) : bool :=
  bool_decide (k_status c = c_active) && rn_autoRenew (k_renewal c) &&
  bool_decide (k_endDate c ≠ None).

(** Pass A: the advance notice, keyed on the current end date. *)
Definition advance_pass (sd : Senders) (today : string) (i : id) (c : ContractRow)
    (endDate : string) : CM bool :=
  let noticeDays := default 30 (rn_noticeDays (k_renewal c)) in
  if isWithinNoticeWindow today endDate noticeDays then
    won ← claimNotice i c endDate notice_advance;
    if won : bool then dispatchNotice sd i c notice_advance endDate;; mret true
    else mret false
  else mret false.

(** Pass B: extend the term past the due period. *)
Definition extend_pass (sd : Senders) (today : string) (now : Z) (i : id) (c : ContractRow)
    (endDate : string) (term : Z) : CM bool :=
  match k_nextBillingAt c with
  | None | Some EmptyString => mret false
  | Some nextAt =>
      if negb (str_le nextAt today) then mret false
      else
        let due := duePeriodStartFor (sc_billingTiming (k_schedule c)) nextAt
                     (sc_intervalMonths (k_schedule c)) in
        let '(newEndDate, didRenew) := extendTermPastDue endDate due term in
        if didRenew : bool then
          update_contract i (with_endDate (Some newEndDate) now);;
          emitContractEvent (contract_auto_renewed i);;
          won ← claimNotice i c newEndDate notice_renewed;
          (if won : bool then dispatchNotice sd i c notice_renewed newEndDate else mret tt);;
          mret true
        else mret false
  end.

Definition renew_one (sd : Senders) (today : string) (now : Z) (r : id * ContractRow)
    : CM (bool * bool) :=
  let '(i, c) := r in
  match k_endDate c, rn_termMonths (k_renewal c) with
  | None, _ | Some EmptyString, _ | _, None => mret (false, false)
  | Some endDate, Some term =>
      noticed ← advance_pass sd today i c endDate;
      renewed ← extend_pass sd today now i c endDate term;
      mret (noticed, renewed)
  end.

Fixpoint renew_all (sd : Senders) (today : string) (now : Z) (rs : list (id * ContractRow))
    : CM (nat * nat) :=
  match rs with
  | [] => mret (0, 0)%nat
  | r :: rs =>
      one ← renew_one sd today now r;
      rest ← renew_all sd today now rs;
      mret (Nat.b2n one.1 + rest.1, Nat.b2n one.2 + rest.2)%nat
  end.

Definition runContractRenewalSweep (sd : Senders) (now : Z) : CM (nat * nat) :=
  s ← c_get;
  renew_all sd (todayISO now) now
    (filter (λ r, is_candidate r.2 = true) (map_to_list (contracts s))).

(** ** The daily job ([contractWorker.ts]) *)

(** [sendInvoiceEmail] renders and mails the document of an issued invoice; of it only
    whether it throws matters here, which undoes the issue of the same transaction. *)
Definition issue_and_send (sends : id → bool) (inv : id) (actor : InvoiceActor) (now : Z)
    : CM unit :=
  invoicing (issueInvoice inv actor now);;
  c_require (sends inv) (C_INVOICE INVALID_STATE).

Fixpoint bill_all (sends : id → bool) (due : list id) (now : Z) : CM (nat * nat) :=
  match due with
  | [] => mret (0, 0)%nat
  | i :: due =>
      res ← attempt (generateDueInvoice i now);
      (match res with
       | Some (generated inv true actor) => attempt (issue_and_send sends inv actor now);; mret tt
       | _ => mret tt
       end);;
      rest ← bill_all sends due now;
      mret (match res with
            | Some (generated _ _ _) => (S rest.1, rest.2)
            | Some (skipped _) => rest
            | None => (rest.1, S rest.2)
            end)
  end.

Definition is_due (today : string) (c : ContractRow) : bool :=
  bool_decide (k_status c = c_active) &&
  match k_nextBillingAt c with Some d => str_le d today | None => false end.

Definition runContractBillingSweep (sends : id → bool) (now : Z) : CM (nat * nat) :=
  s ← c_get;
  bill_all sends
    (fst <$> filter (λ r, is_due (todayISO now) r.2 = true) (map_to_list (contracts s))) now.

(** The [billing-sweep] job: the renewal pass first, then billing. *)
Definition billing_sweep_job (sd : Senders) (sends : id → bool) (now : Z) : CM (nat * nat) :=
  runContractRenewalSweep sd now;; runContractBillingSweep sends now.
