(* ===== verification/ContractSchedule.v ===== *)
(** * The billing schedule of a contract.

    The period starts of a valid schedule are strictly increasing dates, the billing
    pointer of period [k] determines [k], and so a billing run covers exactly the period
    its pointer stands for. *)

From S2P Require Import Prelude JsNum Money Calendar InvoiceDb Invoices Contracts.

Open Scope Z_scope.

(** What the request validator and the date column let into the schedule fields: a
    calendar date and an interval of 1 to 60 months. *)
Definition schedule_on (sch : Schedule) (c : date) : Prop :=
  sc_startDate sch = iso c ∧ column_date c ∧ 1970 <= dy c <= 9000 ∧
  1 <= sc_intervalMonths sch <= 60.
Definition schedule_ok (sch : Schedule) : Prop := ∃ c, schedule_on sch c.

(** Today's date of a clock in milliseconds. *)
Definition today_of (now : Z) : date := date_of_day (now / 86400000).
Definition clock_ok (now : Z) : Prop := 1970 <= dy (today_of now) <= 9000.

Definition period (sch : Schedule) (k : Z) : Period :=
  computePeriod (sc_startDate sch) (sc_intervalMonths sch) k.
Definition pointer (sch : Schedule) (k : Z) : string :=
  nextBillingDate (sc_startDate sch) (sc_intervalMonths sch) (sc_billingTiming sch) k.

(** An index whose period lies well before the year 9999. *)
Definition index_ok (sch : Schedule) (k : Z) : Prop :=
  0 <= k ∧ ∀ c, schedule_on sch c → month_index c + sc_intervalMonths sch * (k + 1) <= 108140.

Lemma iso_inj a b : column_date a → column_date b → iso a = iso b → a = b.
Proof.
  intros Ha Hb E. assert (parts (iso a) = parts (iso b)) as Ep by congruence.
  rewrite !parts_iso in Ep by (apply Ha || apply Hb || (destruct Ha as [_ ?], Hb as [_ ?]; lia)).
  destruct a, b. simpl in Ep. congruence.
Qed.

Section schedule.
Context (sch : Schedule) (c : date) (Hs : schedule_on sch c).
Local Abbreviation n := (sc_intervalMonths sch).

(** The start of period [k], as a date. *)
Definition start_of (k : Z) : date := add_months c (n * k).

Lemma column_start k :
  0 <= k → month_index c + n * k < 120000 → column_date (start_of k).
Proof using Hs.
  destruct Hs as (_ & Hc & _ & Hn). intros Hk Hb. pose proof (column_index c Hc).
  apply column_add_months; [apply Hc|]. nia.
Qed.

Lemma period_iso k :
  0 <= k → month_index c + n * (k + 1) < 120000 →
  period sch k = {| periodStart := iso (start_of k); periodEnd := iso (start_of (k + 1)) |}.
Proof using Hs.
  destruct Hs as (Es & Hc & _ & Hn). intros Hk Hb. pose proof (column_index c Hc).
  unfold period, computePeriod, start_of. rewrite Es.
  by rewrite !addMonthsClamped_column by (done || nia).
Qed.

Lemma start_mono j k : 0 <= j → j < k → day_number (start_of j) < day_number (start_of k).
Proof using Hs.
  destruct Hs as (_ & Hc & _ & Hn). intros Hj Hjk. unfold start_of.
  apply day_number_month; [apply add_months_valid, Hc..|]. rewrite !add_months_index. nia.
Qed.

Lemma start_mono_le j k : 0 <= j → j <= k → day_number (start_of j) <= day_number (start_of k).
Proof using Hs.
  intros Hj Hjk. destruct (decide (j = k)) as [->|]; [lia|].
  pose proof (start_mono j k). lia.
Qed.

(** The runaway guard is never reached on dates of these years. *)
Lemma periodIndexFor_contains d :
  column_date d → dy d <= 9000 → day_number c <= day_number d →
  let i := periodIndexFor (sc_startDate sch) n (iso d) in
  0 <= i ∧ day_number (start_of i) <= day_number d < day_number (start_of (i + 1)).
Proof using Hs.
  destruct Hs as (Es & Hc & Hy & Hn). intros Hd Hyd Hle. rewrite Es. apply period_walk_spec;
    try done; try lia.
  - by rewrite Z.mul_0_r, add_months_0 by apply Hc.
  - destruct Hc as [[??]?], Hd as [[??]?]. unfold month_index. lia.
Qed.

Lemma start_0 : start_of 0 = c.
Proof using Hs.
  unfold start_of. rewrite Z.mul_0_r. apply add_months_0. apply Hs.
Qed.

Lemma periodIndexFor_start k :
  0 <= k → column_date (start_of k) → dy (start_of k) <= 9000 →
  periodIndexFor (sc_startDate sch) n (iso (start_of k)) = k.
Proof using Hs.
  intros Hk Hd Hy. pose proof (start_mono_le 0 k) as H0. rewrite start_0 in H0.
  destruct (periodIndexFor_contains (start_of k)) as (Hi & Hlo & Hhi); [done | done | lia |].
  set (i := periodIndexFor _ _ _) in *.
  destruct (Z.lt_trichotomy i k) as [Hlt|[?|Hlt]]; [|done|].
  - pose proof (start_mono_le (i + 1) k). lia.
  - pose proof (start_mono k i). lia.
Qed.

(** The pointer of period [k], as a date. *)
Definition pointer_date (k : Z) : date :=
  match sc_billingTiming sch with advance => start_of k | arrears => start_of (k + 1) end.

Lemma pointer_iso k :
  0 <= k → month_index c + n * (k + 1) < 120000 →
  pointer sch k = iso (pointer_date k) ∧ column_date (pointer_date k).
Proof using Hs.
  intros Hk Hb. unfold pointer, nextBillingDate, pointer_date.
  change (computePeriod _ _ k) with (period sch k). rewrite period_iso by done.
  assert (0 <= n * k) by (destruct Hs as (_ & _ & _ & ?); nia).
  destruct Hs as (_ & _ & _ & ?).
  destruct (sc_billingTiming sch); split; try done; apply column_start; lia.
Qed.

(** The pointer of period [k] makes a run cover period [k]. *)
Lemma due_index_pointer k :
  0 <= k → month_index c + n * (k + 1) < 120000 → dy (pointer_date k) <= 9000 →
  due_index sch (pointer sch k) = k.
Proof using Hs.
  intros Hk Hb Hy. destruct (pointer_iso k Hk Hb) as [-> Hp].
  unfold due_index, pointer_date in *.
  destruct (sc_billingTiming sch); rewrite periodIndexFor_start by (done || lia); lia.
Qed.

Lemma date_year_le a b : valid a → valid b → day_number a <= day_number b → dy b <= 9000 → dy a <= 9000.
Proof.
  intros Ha Hb Hle Hy. pose proof (day_number_month_le a b Ha Hb Hle).
  destruct Ha as [? _], Hb as [? _]. unfold month_index in *. lia.
Qed.

(** A pointer that is due leaves room for the next one. *)
Lemma index_ok_next k d :
  index_ok sch k → column_date d → dy d <= 9000 →
  day_number (start_of k) <= day_number d → index_ok sch (k + 1).
Proof using Hs.
  intros [Hk _] Hd Hyd Hle. split; [lia|]. intros c' Hc'.
  assert (c' = c) as ->.
  { apply iso_inj; [apply Hc' | apply Hs|]. destruct Hs as (<- & _), Hc' as (<- & _). done. }
  pose proof (day_number_month_le _ _ (add_months_valid c (n * k) (proj1 (proj1 (proj2 Hs))))
                (proj1 Hd) Hle) as Hm.
  rewrite add_months_index in Hm. destruct Hs as (_ & _ & _ & ?).
  destruct Hd as [[? _] _]. unfold month_index in Hm at 2. nia.
Qed.

(** The date string of the clock. *)
Lemma today_iso now : clock_ok now → todayISO now = iso (today_of now) ∧ column_date (today_of now).
Proof.
  intros Hk. unfold clock_ok, today_of, todayISO, utc_date in *.
  destruct (date_of_day_spec (now / 86400000)) as [Hv _].
  rewrite utcDay_iso by lia. split; [done | split; [done | lia]].
Qed.

Lemma index_bound k d :
  0 <= k → column_date d → dy d <= 9000 → day_number (start_of k) <= day_number d →
  month_index c + n * (k + 1) <= 108140.
Proof using Hs.
  intros Hk Hd Hyd Hle.
  pose proof (day_number_month_le _ _ (add_months_valid c (n * k) (proj1 (proj1 (proj2 Hs))))
                (proj1 Hd) Hle) as Hm.
  rewrite add_months_index in Hm. destruct Hs as (_ & _ & _ & ?).
  destruct Hd as [[? _] _]. unfold month_index in Hm at 2. nia.
Qed.

(** Before the contract starts, the current period is the first one. *)
Lemma periodIndexFor_before d :
  column_date d → day_number d < day_number c →
  periodIndexFor (sc_startDate sch) n (iso d) = 0.
Proof using Hs.
  intros Hd Hlt. pose proof (start_mono 0 1) as H1. rewrite start_0 in H1.
  unfold periodIndexFor. destruct (Z.to_nat 100000); cbn [period_walk];
    change (computePeriod _ _ (0 + 1)) with (period sch 1);
    destruct Hs as (_ & Hc & Hy & Hn);
    assert (month_index c < 108012) by (destruct Hc as [[? _] _]; unfold month_index; lia);
    rewrite period_iso by lia; simpl; rewrite iso_le by (done || (apply column_start; lia));
    destruct (Z.leb_spec (day_number (start_of 1)) (day_number d)); lia.
Qed.
End schedule.

Lemma schedule_unique sch a b : schedule_on sch a → schedule_on sch b → a = b.
Proof.
  intros Ha Hb. apply iso_inj; [apply Ha | apply Hb|]. destruct Ha as (<- & _), Hb as (<- & _). done.
Qed.

Lemma index_ok_on sch c k :
  schedule_on sch c → index_ok sch k ↔ 0 <= k ∧ month_index c + sc_intervalMonths sch * (k + 1) <= 108140.
Proof.
  intros Hs. split; intros [Hk Hb]; (split; [done|]); [auto|].
  intros c' Hs'. by rewrite <- (schedule_unique _ _ _ Hs Hs').
Qed.

(** The period that contains today has a valid index. *)
Lemma index_of_today sch now :
  schedule_ok sch → clock_ok now →
  index_ok sch (periodIndexFor (sc_startDate sch) (sc_intervalMonths sch) (todayISO now)).
Proof.
  intros [c Hs] Hk. destruct (today_iso now Hk) as [-> Ht]. apply (index_ok_on _ c _ Hs).
  destruct (Z.le_gt_cases (day_number c) (day_number (today_of now))) as [Hle|Hlt].
  - destruct (periodIndexFor_contains sch c Hs (today_of now) Ht (proj2 Hk) Hle) as (Hi & Hlo & _).
    split; [done|]. by eapply index_bound; [..|apply Hlo]; try apply Hk.
  - rewrite (periodIndexFor_before sch c Hs) by done. destruct Hs as (_ & [[? _] _] & Hy & Hn).
    unfold month_index. lia.
Qed.

(** A pointer that is due covers its own period, and the next index is valid too. *)
Lemma due_pointer sch now k :
  schedule_ok sch → clock_ok now → index_ok sch k →
  str_lt (todayISO now) (pointer sch k) = false →
  due_index sch (pointer sch k) = k ∧ index_ok sch (k + 1).
Proof.
  intros [c Hs] Hk Hi Hdue. destruct (today_iso now Hk) as [Et Ht].
  pose proof (proj1 (index_ok_on _ c _ Hs) Hi) as [Hk0 Hb].
  destruct (pointer_iso sch c Hs k) as [Ep Hp]; [lia..|].
  rewrite Et, Ep, iso_lt in Hdue by done. apply Z.ltb_ge in Hdue.
  split.
  - apply (due_index_pointer sch c Hs); [lia | lia|].
    eapply date_year_le; [apply Hp | apply Ht | done | apply Hk].
  - eapply (index_ok_next sch c Hs k (today_of now)); [done | done | apply Hk|].
    etrans; [|done]. unfold pointer_date. destruct (sc_billingTiming sch); [done|].
    apply (start_mono_le sch c Hs); lia.
Qed.
