(* ===== verification/ContractLifecycle.v ===== *)
(** * The life of a contract: an abstract transition system, its invariant, and the
    refinement of every handler of the contract service.

    The transitions say which rows of the contract tables an operation may touch and how
    the status, the billing pointer and the claimed periods move; the invariant is proved
    over them once, and each handler is shown to be a run of them. *)

From S2P Require Import Prelude JsNum Money Calendar InvoiceDb Invoices Contracts ContractSchedule.

Open Scope Z_scope.

(** ** Runs of the handler monad *)

Lemma cbind_ok {A B} (m : CM A) (k : A → CM B) s r :
  (m ≫= k) s = Ok r → ∃ a s1, m s = Ok (a, s1) ∧ k a s1 = Ok r.
Proof. unfold mbind, CM_bind. destruct (m s) as [[a s1]|e]; [|done]. eauto. Qed.

Lemma cret_ok {A} (a b : A) (s s' : CDB) :
  (mret a : CM A) s = Ok (b, s') → a = b ∧ s = s'.
Proof. by intros [= -> ->]. Qed.

Lemma crequire_ok b e s u s' : c_require b e s = Ok (u, s') → b = true ∧ s' = s.
Proof. destruct b; [|done]. by intros [= _ <-]. Qed.

Lemma cbind_run {A B} (m : CM A) (k : A → CM B) s a s1 :
  m s = Ok (a, s1) → (m ≫= k) s = k a s1.
Proof. intros H. unfold mbind, CM_bind. by rewrite H. Qed.

Lemma invoicing_ok {A} (m : M A) s a s' :
  invoicing m s = Ok (a, s') →
  ∃ d, m (invoicingDb s) = Ok (a, d) ∧ s' = with_invoicing d s.
Proof.
  unfold invoicing. destruct (m (invoicingDb s)) as [[x d]|e]; [|done].
  intros [= <- <-]. eauto.
Qed.

Lemma owned_ok i actor s c s' :
  getOwnedContractOr404 i actor s = Ok (c, s') → contracts s !! i = Some c ∧ s' = s.
Proof.
  intros H. apply cbind_ok in H as (s0 & s1 & [= <- <-] & H).
  destruct (contracts s !! i) as [c0|]; [|done].
  apply cbind_ok in H as (u & s1 & [_ ->]%crequire_ok & [= <- <-]). done.
Qed.

(** Step a run of a handler into the runs of its parts. *)
Ltac crun H :=
  lazymatch type of H with
  | (mbind _ (c_require _ _)) _ = Ok _ =>
      let u := fresh "u" in let s := fresh "s" in let Hb := fresh "Hb" in
      apply cbind_ok in H as (u & s & [Hb ->]%crequire_ok & H)
  | (mbind _ (getOwnedContractOr404 _ _)) _ = Ok _ =>
      let c := fresh "c" in let s := fresh "s" in let Hc := fresh "Hc" in
      apply cbind_ok in H as (c & s & [Hc ->]%owned_ok & H)
  | (mbind _ c_get) _ = Ok _ =>
      let s := fresh "s" in apply cbind_ok in H as (? & s & [= <- <-] & H)
  | (mbind _ (c_modify _)) _ = Ok _ =>
      let s := fresh "s" in let u := fresh "u" in apply cbind_ok in H as (u & s & [= <- <-] & H)
  | (mbind _ (update_contract _ _)) _ = Ok _ =>
      let s := fresh "s" in let u := fresh "u" in apply cbind_ok in H as (u & s & [= <- <-] & H)
  | (mbind _ (emitContractEvent _)) _ = Ok _ =>
      let s := fresh "s" in let u := fresh "u" in apply cbind_ok in H as (u & s & [= <- <-] & H)
  | mret _ _ = Ok _ => apply cret_ok in H as [<- <-]
  | c_modify _ _ = Ok _ => injection H as <- <-
  | emitContractEvent _ _ = Ok _ => injection H as <- <-
  end.
Ltac cruns H := unfold c_assertDraft, assertEditable in H; repeat (crun H; try simpl in H).

(** ** Transitions *)

Definition same_claims (s s' : CDB) : Prop :=
  ∀ key, bp_periodEnd <$> billingPeriods s' !! key = bp_periodEnd <$> billingPeriods s !! key.

Definition same_notices (s s' : CDB) : Prop :=
  renewalNotices s' = renewalNotices s ∧ outbox s' = outbox s.

(** The in-app notices sent: contract, end date and kind. *)
Definition notice_key (n : Notice) : option (id * string * NoticeKind) :=
  match n with in_app c e k _ => Some (c, e, k) | email _ _ _ _ _ => None end.
Definition sent_keys (s : CDB) : list (id * string * NoticeKind) := omap notice_key (outbox s).

Inductive row_step (c c' : ContractRow) : Prop :=
| rs_draft : k_status c = c_draft → k_status c' = c_draft →
    k_nextBillingAt c' = k_nextBillingAt c → schedule_ok (k_schedule c') → row_step c c'
| rs_keep : k_schedule c' = k_schedule c → k_status c' = k_status c →
    k_nextBillingAt c' = k_nextBillingAt c → row_step c c'
| rs_activate k : k_status c = c_draft ∨ k_status c = c_paused → k_status c' = c_active →
    k_schedule c' = k_schedule c → index_ok (k_schedule c) k →
    k_nextBillingAt c' = Some (pointer (k_schedule c) k) → row_step c c'
| rs_stop : k_schedule c' = k_schedule c → k_status c' ≠ c_draft → k_status c' ≠ c_active →
    k_nextBillingAt c' = None → row_step c c'.

(** The pointer after period [k] is billed. *)
Definition moved_on (c c' : ContractRow) (k : Z) : Prop :=
  k_schedule c' = k_schedule c ∧
  (k_status c' = c_active ∧ k_nextBillingAt c' = Some (pointer (k_schedule c) (k + 1)) ∧
   index_ok (k_schedule c) (k + 1) ∨
   k_status c' = c_expired ∧ k_nextBillingAt c' = None).

Inductive cstep (s s' : CDB) : Prop :=
| cs_quiet : contracts s' = contracts s → same_claims s s' → same_notices s s' →
    (nextContractId s <= nextContractId s')%N → cstep s s'
| cs_create c : contracts s' = <[nextContractId s := c]> (contracts s) →
    k_status c = c_draft → k_nextBillingAt c = None → schedule_ok (k_schedule c) →
    same_claims s s' → same_notices s s' → nextContractId s' = N.succ (nextContractId s) →
    cstep s s'
| cs_row i c c' : contracts s !! i = Some c → contracts s' = <[i := c']> (contracts s) →
    row_step c c' → same_claims s s' → same_notices s s' →
    nextContractId s' = nextContractId s → cstep s s'
| cs_delete i c : contracts s !! i = Some c → k_status c = c_draft →
    contracts s' = delete i (contracts s) →
    billingPeriods s' = filter (λ p, p.1.1 ≠ i) (billingPeriods s) →
    renewalNotices s' = filter (λ n, n.1.1.1 ≠ i) (renewalNotices s) → outbox s' = outbox s →
    nextContractId s' = nextContractId s → cstep s s'
| cs_bill i c c' k bp : contracts s !! i = Some c → k_status c = c_active →
    k_nextBillingAt c = Some (pointer (k_schedule c) k) → index_ok (k_schedule c) k →
    billingPeriods s !! (i, periodStart (period (k_schedule c) k)) = None →
    bp_periodEnd bp = periodEnd (period (k_schedule c) k) →
    billingPeriods s' = <[(i, periodStart (period (k_schedule c) k)) := bp]> (billingPeriods s) →
    contracts s' = <[i := c']> (contracts s) → moved_on c c' k → same_notices s s' →
    nextContractId s' = nextContractId s → cstep s s'
| cs_notice i c e kind org name mails : contracts s !! i = Some c → k_status c ≠ c_draft →
    renewalNotices s !! (i, e, kind) = None →
    renewalNotices s' = <[(i, e, kind) := org]> (renewalNotices s) →
    outbox s' = outbox s ++ in_app i e kind name :: mails → omap notice_key mails = [] →
    contracts s' = contracts s → same_claims s s' → nextContractId s' = nextContractId s →
    cstep s s'.

(** ** The invariant *)

(** The pointer is set exactly while the contract is active, and stands for a period. *)
Definition crow_ok (c : ContractRow) : Prop :=
  schedule_ok (k_schedule c) ∧ (k_nextBillingAt c ≠ None ↔ k_status c = c_active) ∧
  ∀ d, k_nextBillingAt c = Some d →
       ∃ k, index_ok (k_schedule c) k ∧ d = pointer (k_schedule c) k.

Record cinv (s : CDB) : Prop := {
  ci_rows : ∀ i c, contracts s !! i = Some c → (i < nextContractId s)%N ∧ crow_ok c;
  ci_claims : ∀ i st bp, billingPeriods s !! (i, st) = Some bp →
    ∃ c k, contracts s !! i = Some c ∧ k_status c ≠ c_draft ∧ index_ok (k_schedule c) k ∧
           period (k_schedule c) k = {| periodStart := st; periodEnd := bp_periodEnd bp |};
  ci_notices : ∀ i e kind, is_Some (renewalNotices s !! (i, e, kind)) →
    ∃ c, contracts s !! i = Some c ∧ k_status c ≠ c_draft;
  ci_sent : NoDup (sent_keys s) ∧ ∀ key, key ∈ sent_keys s → is_Some (renewalNotices s !! key) }.

(** A contract that is no longer a draft keeps its row and its schedule. *)
Definition keeps (s s' : CDB) : Prop :=
  ∀ i c, contracts s !! i = Some c → k_status c ≠ c_draft →
    ∃ c', contracts s' !! i = Some c' ∧ k_schedule c' = k_schedule c ∧ k_status c' ≠ c_draft.

Lemma row_step_ok c c' : crow_ok c → row_step c c' → crow_ok c'.
Proof.
  intros (Hs & Ha & Hp) [Hd Hd' En Hs'|Es Et En|k _ Et Es Hk En|Es Hd Hna En]; unfold crow_ok.
  - rewrite En, Hd'. assert (k_nextBillingAt c = None) as ->; [|naive_solver].
    destruct (k_nextBillingAt c); [|done]. rewrite Hd in Ha. naive_solver.
  - by rewrite Es, Et, En.
  - rewrite Es, Et, En. naive_solver.
  - rewrite Es, En. naive_solver.
Qed.

Lemma moved_on_ok c c' k : crow_ok c → moved_on c c' k → crow_ok c'.
Proof.
  intros (Hs & _) [Es [(Et & En & Hk)|[Et En]]]; unfold crow_ok; rewrite Es, Et, En; naive_solver.
Qed.

Lemma row_step_keeps c c' :
  row_step c c' → k_status c ≠ c_draft → k_schedule c' = k_schedule c ∧ k_status c' ≠ c_draft.
Proof. intros [] Hd; naive_solver congruence. Qed.

Lemma insert_keeps s s' i c c' :
  contracts s !! i = Some c → contracts s' = <[i := c']> (contracts s) →
  (k_status c ≠ c_draft → k_schedule c' = k_schedule c ∧ k_status c' ≠ c_draft) → keeps s s'.
Proof.
  intros Hi E H j cj Hj Hd. rewrite E. destruct (decide (j = i)) as [->|].
  - rewrite lookup_insert_eq. simplify_eq. naive_solver.
  - rewrite lookup_insert_ne by done. eauto.
Qed.

Lemma cstep_keeps s s' : cinv s → cstep s s' → keeps s s'.
Proof.
  intros HI [E|c E|i c c' Hi E Hr|i c Hi Hd E|i c c' k bp Hi Ha _ _ _ _ _ E Hm|? ? ? ? ? ? ? _ _ _ _ _ _ E].
  - intros j c Hj Hd. rewrite E. eauto.
  - intros j cj Hj Hd. rewrite E, lookup_insert_ne; [eauto|].
    intros <-. apply (ci_rows _ HI) in Hj as [? _]. lia.
  - eapply insert_keeps; eauto using row_step_keeps.
  - intros j cj Hj Hd'. rewrite E, lookup_delete_ne by naive_solver. eauto.
  - eapply insert_keeps; [done..|]. intros _. destruct Hm as [Es [(-> & _)|[-> _]]]; done.
  - intros j cj Hj Hd. rewrite E. eauto.
Qed.

(** What the claims and notices of a state rest on survives in a state that keeps its
    contracts. *)
Lemma claim_keeps s s' i st e :
  keeps s s' →
  (∃ c k, contracts s !! i = Some c ∧ k_status c ≠ c_draft ∧ index_ok (k_schedule c) k ∧
          period (k_schedule c) k = {| periodStart := st; periodEnd := e |}) →
  ∃ c k, contracts s' !! i = Some c ∧ k_status c ≠ c_draft ∧ index_ok (k_schedule c) k ∧
         period (k_schedule c) k = {| periodStart := st; periodEnd := e |}.
Proof.
  intros HK (c & k & Hi & Hd & Hk & Hp). destruct (HK i c Hi Hd) as (c' & Hi' & Es & Hd').
  exists c', k. by rewrite Es.
Qed.

Lemma same_claims_keep s s' i st bp :
  cinv s → keeps s s' → same_claims s s' → billingPeriods s' !! (i, st) = Some bp →
  ∃ c k, contracts s' !! i = Some c ∧ k_status c ≠ c_draft ∧ index_ok (k_schedule c) k ∧
         period (k_schedule c) k = {| periodStart := st; periodEnd := bp_periodEnd bp |}.
Proof.
  intros HI HK HC Hb. specialize (HC (i, st)). rewrite Hb in HC. simpl in HC.
  symmetry in HC. apply fmap_Some in HC as (bp0 & Hb0 & ->).
  eapply claim_keeps; [done|]. by eapply ci_claims.
Qed.

Lemma notice_keeps s s' i :
  keeps s s' → (∃ c, contracts s !! i = Some c ∧ k_status c ≠ c_draft) →
  ∃ c, contracts s' !! i = Some c ∧ k_status c ≠ c_draft.
Proof. intros HK (c & Hi & Hd). destruct (HK i c Hi Hd) as (c' & ? & _ & ?). eauto. Qed.

Lemma same_notices_sent s s' :
  cinv s → same_notices s s' →
  NoDup (sent_keys s') ∧ ∀ key, key ∈ sent_keys s' → is_Some (renewalNotices s' !! key).
Proof. intros HI [En Eo]. unfold sent_keys. rewrite En, Eo. apply (ci_sent _ HI). Qed.

Lemma rows_insert s s' i c' :
  cinv s → contracts s' = <[i := c']> (contracts s) → (i < nextContractId s')%N →
  (nextContractId s <= nextContractId s')%N → crow_ok c' →
  ∀ j c, contracts s' !! j = Some c → (j < nextContractId s')%N ∧ crow_ok c.
Proof.
  intros HI E Hi Hn Hc j c. rewrite E. intros [[<- <-]|[_ Hj]]%lookup_insert_Some; [done|].
  apply (ci_rows _ HI) in Hj as [? ?]. split; [lia | done].
Qed.

Lemma period_eta (p : Period) : p = {| periodStart := periodStart p; periodEnd := periodEnd p |}.
Proof. by destruct p. Qed.

Lemma cstep_claims s s' i st bp :
  cinv s → cstep s s' → billingPeriods s' !! (i, st) = Some bp →
  ∃ c k, contracts s' !! i = Some c ∧ k_status c ≠ c_draft ∧ index_ok (k_schedule c) k ∧
         period (k_schedule c) k = {| periodStart := st; periodEnd := bp_periodEnd bp |}.
Proof.
  intros HI HS. pose proof (cstep_keeps _ _ HI HS) as HK. revert HS.
  intros [_ HC|c _ _ _ _ HC|j c c' _ _ _ HC|j c _ _ _ E|j c c' k bp' Hj Ha _ Hk _ Ee E Ec Hm
         |? ? ? ? ? ? ? _ _ _ _ _ _ _ HC]; try by eapply same_claims_keep.
  - rewrite E. intros [Hb _]%map_lookup_filter_Some.
    eapply claim_keeps; [done|]. by eapply ci_claims.
  - rewrite E. intros [[[= <- <-] <-]|[_ Hb]]%lookup_insert_Some.
    + exists c', k. rewrite Ec, lookup_insert_eq, Ee. destruct Hm as [-> Hm].
      split_and!; [done | by destruct Hm as [(-> & _)|(-> & _)] | done | apply period_eta].
    + eapply claim_keeps; [done|]. by eapply ci_claims.
Qed.

Lemma cstep_notices s s' i e kind :
  cinv s → cstep s s' → is_Some (renewalNotices s' !! (i, e, kind)) →
  ∃ c, contracts s' !! i = Some c ∧ k_status c ≠ c_draft.
Proof.
  intros HI HS. pose proof (cstep_keeps _ _ HI HS) as HK. pose proof (ci_notices _ HI i e kind) as HN.
  pose proof (notice_keeps s s' i HK) as HK'. revert HS.
  intros [_ _ [-> _]|c _ _ _ _ _ [-> _]|j c c' _ _ _ _ [-> _]|j c _ _ _ _ ->|j c c' k bp _ _ _ _ _ _ _ _ _ [-> _]
         |j c e' kind' ? ? ? Hj Hd _ E _ _ Ec]; auto.
  - intros [o Ho]. apply map_lookup_filter_Some in Ho as [Ho _]. eauto.
  - rewrite E. intros [o Ho]. apply lookup_insert_Some in Ho as [[[= <- <- <-] _]|[_ Ho]]; [|eauto].
    rewrite Ec. eauto.
Qed.

Lemma cstep_sent s s' :
  cinv s → cstep s s' →
  NoDup (sent_keys s') ∧ ∀ key, key ∈ sent_keys s' → is_Some (renewalNotices s' !! key).
Proof.
  intros HI. pose proof (ci_sent _ HI) as [HN HS].
  intros [_ _ Hn|c _ _ _ _ _ Hn|j c c' _ _ _ _ Hn|j c Hj Hd _ _ E Eo|j c c' k bp _ _ _ _ _ _ _ _ _ Hn
         |j c e kind o nm mails Hj Hd Hfree E Eo Hm _ _]; try by eapply same_notices_sent.
  - unfold sent_keys. rewrite E, Eo. split; [done|]. intros [[i e] kind] Hk. destruct (HS _ Hk) as [o Ho].
    exists o. apply map_lookup_filter_Some. split; [done|]. simpl. intros ->.
    destruct (ci_notices _ HI j e kind) as (c' & Hc' & ?); [eauto | congruence].
  - assert (sent_keys s' = sent_keys s ++ [(j, e, kind)]) as ->.
    { unfold sent_keys. rewrite Eo, omap_app. f_equal.
      transitivity ((j, e, kind) :: omap notice_key mails); [done | by rewrite Hm]. }
    rewrite E. split.
    + apply NoDup_app. split; [done|]. split; [|apply NoDup_singleton].
      intros x Hx ->%list_elem_of_singleton. apply HS in Hx as [? ?]. congruence.
    + intros key [Hk| ->%list_elem_of_singleton]%elem_of_app; [|by rewrite lookup_insert_eq].
      destruct (decide (key = (j, e, kind))) as [->|]; [by rewrite lookup_insert_eq|].
      rewrite lookup_insert_ne by done. auto.
Qed.

Lemma cstep_rows s s' i c :
  cinv s → cstep s s' → contracts s' !! i = Some c → (i < nextContractId s')%N ∧ crow_ok c.
Proof.
  intros HI HS. pose proof (ci_rows _ HI) as HR. revert i c. destruct HS as
    [E _ _ Hn|c E Hd Hp Hs _ _ Hn|j c c' Hj E Hr _ _ Hn|j c _ _ E _ _ _ Hn
    |j c c' k bp Hj _ _ _ _ _ _ E Hm _ Hn|j c ? ? ? ? ? _ _ _ _ _ _ E _ Hn].
  - intros i c Hi. rewrite E in Hi. apply HR in Hi as [? ?]. split; [lia | done].
  - eapply rows_insert; [done.. | lia | lia |]. repeat split; [done | by rewrite Hp | by rewrite Hd|].
    by rewrite Hp.
  - destruct (HR j c Hj). eapply rows_insert; [done.. | lia | lia | by eapply row_step_ok].
  - intros i c'. rewrite E, Hn. intros [_ Hi]%lookup_delete_Some. auto.
  - destruct (HR j c Hj). eapply rows_insert; [done.. | lia | lia | by eapply moved_on_ok].
  - rewrite E, Hn. auto.
Qed.

(** The invariant is preserved by every transition. *)
Lemma cstep_inv s s' : cinv s → cstep s s' → cinv s'.
Proof.
  intros HI HS. constructor; intros; eauto using cstep_rows, cstep_claims, cstep_notices, cstep_sent.
Qed.

Lemma csteps_inv s s' : cinv s → rtc cstep s s' → cinv s'.
Proof. intros HI HR. induction HR; eauto using cstep_inv. Qed.

(** ** Operations *)

Inductive COp :=
| KCreate (input : ContractInput) | KUpdate (i : id) (p : ContractPatch) | KDelete (i : id)
| KAddLine (i : id) (input : ContractLineInput) | KRemoveLine (i lineId : id)
| KFromQuote (spec : NewContractSpec)
| KActivate (i : id) | KPause (i : id) | KResume (i : id) | KCancel (i : id)
| KGenerate (i : id) | KRenewals (sd : Senders)
| KInvoicing (op : Op) (actor : InvoiceActor).

Definition c_discard {A} (m : CM A) : CM unit := m;; mret tt.

Definition run_cop (op : COp) (actor : ContractActor) (now : Z) : CM unit :=
  match op with
  | KCreate input => c_discard (createContract input actor now)
  | KUpdate i p => c_discard (updateContract i p actor now)
  | KDelete i => deleteDraftContract i actor
  | KAddLine i input => c_discard (addContractLineToContract i input actor)
  | KRemoveLine i k => removeContractLine i k actor
  | KFromQuote spec => c_discard (createContractWithLines spec now)
  | KActivate i => activateContract i actor now
  | KPause i => pauseContract i actor now
  | KResume i => resumeContract i actor (todayISO now) now
  | KCancel i => cancelContract i actor now
  | KGenerate i => c_discard (generateDueInvoice i now)
  | KRenewals sd => c_discard (runContractRenewalSweep sd now)
  | KInvoicing (OpDeleteDraft i) a => drop_draft i a
  | KInvoicing op a => invoicing (run_op op a now)
  end.

(** The schedule fields a request carries passed its validator. *)
Definition op_valid (op : COp) : Prop :=
  match op with
  | KCreate input => schedule_ok (ci_schedule input)
  | KUpdate _ p => ∀ sch, schedule_ok sch → schedule_ok (patched_schedule p sch)
  | KFromQuote spec => schedule_ok (ns_schedule spec)
  | _ => True
  end.

(** ** Refinement *)

Lemma quiet_step s s' :
  contracts s' = contracts s → same_claims s s' → same_notices s s' →
  (nextContractId s <= nextContractId s')%N → rtc cstep s s'.
Proof. intros. by apply rtc_once, cs_quiet. Qed.

Lemma invoicing_steps {A} (m : M A) s a s' : invoicing m s = Ok (a, s') → rtc cstep s s'.
Proof. intros (d & _ & ->)%invoicing_ok. by apply quiet_step. Qed.

Lemma alter_as_insert {A} (f : A → A) (m : gmap id A) i x :
  m !! i = Some x → alter f i m = <[i := f x]> m.
Proof.
  intros Hi. apply map_eq. intros j. destruct (decide (j = i)) as [->|].
  - by rewrite lookup_alter_eq, lookup_insert_eq, Hi.
  - by rewrite lookup_alter_ne, lookup_insert_ne by done.
Qed.

(** An update of one row, followed by an event. *)
Lemma row_written s i c f ev :
  contracts s !! i = Some c → row_step c (f c) →
  rtc cstep s (set_notices (λ n, n) ev [] (set_contracts (alter f i) (λ l, l) s)).
Proof.
  intros Hi Hr. apply rtc_once, (cs_row _ _ i c (f c)); simpl; try done.
  - by apply alter_as_insert.
  - split; simpl; [done | apply app_nil_r].
Qed.

Lemma row_written_plain s i c f :
  contracts s !! i = Some c → row_step c (f c) →
  rtc cstep s (set_contracts (alter f i) (λ l, l) s).
Proof.
  intros Hi Hr. apply rtc_once, (cs_row _ _ i c (f c)); try done. by apply alter_as_insert.
Qed.

Lemma insert_contract_steps s c i s' :
  insert_contract c s = Ok (i, s') → k_status c = c_draft → k_nextBillingAt c = None →
  schedule_ok (k_schedule c) → rtc cstep s s' ∧ i = nextContractId s.
Proof.
  intros H Hd Hp Hs. unfold insert_contract in H. apply cbind_ok in H as (j & s1 & [= <- <-] & H).
  cruns H. split; [|done]. by apply rtc_once, (cs_create _ _ c).
Qed.

Lemma insert_contract_line_steps s l i s' :
  insert_contract_line l s = Ok (i, s') → rtc cstep s s'.
Proof.
  intros H. unfold insert_contract_line in H. apply cbind_ok in H as (j & s1 & [= <- <-] & H).
  cruns H. apply quiet_step; simpl; done || lia.
Qed.

Lemma createContract_steps input actor now s i s' :
  createContract input actor now s = Ok (i, s') → schedule_ok (ci_schedule input) → rtc cstep s s'.
Proof.
  intros H Hs. unfold createContract, c_requireOrgAccess in H. cruns H.
  destruct (orgPartner s !! ci_orgId input) as [p|]; [|done].
  by apply insert_contract_steps in H as [? _].
Qed.

Lemma insert_spec_lines_steps i o ls : ∀ n s u s',
  insert_spec_lines i o n ls s = Ok (u, s') → rtc cstep s s'.
Proof.
  induction ls as [|l ls IH]; intros n s u s' H; simpl in H; [by cruns H|].
  apply cbind_ok in H as (k & s1 & H1 & H). etrans; [by eapply insert_contract_line_steps|]. eauto.
Qed.

Lemma createContractWithLines_steps spec now s i s' :
  createContractWithLines spec now s = Ok (i, s') → schedule_ok (ns_schedule spec) → rtc cstep s s'.
Proof.
  intros H Hs. unfold createContractWithLines in H. apply cbind_ok in H as (k & s1 & H1 & H).
  apply insert_contract_steps in H1 as [H1 _]; [|done..].
  apply cbind_ok in H as ([] & s2 & H2 & [= _ <-]). etrans; [done|].
  by eapply insert_spec_lines_steps.
Qed.

Lemma updateContract_steps i p actor now s c' s' :
  updateContract i p actor now s = Ok (c', s') → cinv s →
  (∀ sch, schedule_ok sch → schedule_ok (patched_schedule p sch)) → rtc cstep s s'.
Proof.
  intros H HI Hp. unfold updateContract in H. cruns H. apply owned_ok in H as [_ ->].
  apply (row_written_plain _ _ c); [done|]. bool_prop.
  destruct (decide (k_status c = c_draft)) as [Hd|Hd].
  - apply rs_draft; simpl; try done. rewrite bool_decide_true by done. apply Hp.
    by eapply (ci_rows _ HI).
  - apply rs_keep; simpl; try done. by rewrite bool_decide_false.
Qed.

Lemma deleteDraftContract_steps i actor s u s' :
  deleteDraftContract i actor s = Ok (u, s') → rtc cstep s s'.
Proof.
  intros H. unfold deleteDraftContract in H. cruns H. unfold delete_contract in H. cruns H.
  bool_prop. apply rtc_once, (cs_delete _ _ i c); try done. simpl. by rewrite app_nil_r.
Qed.

Lemma activate_row s now c :
  schedule_ok (k_schedule c) → clock_ok now → k_status c = c_draft ∨ k_status c = c_paused →
  row_step c (with_lifecycle c_active
    (Some (pointer (k_schedule c) (periodIndexFor (sc_startDate (k_schedule c))
             (sc_intervalMonths (k_schedule c)) (todayISO now)))) s c).
Proof. intros Hs Hk Hst. eapply rs_activate; [done..| |done]. by apply index_of_today. Qed.

Lemma activateContract_steps i actor now s u s' :
  activateContract i actor now s = Ok (u, s') → cinv s → clock_ok now → rtc cstep s s'.
Proof.
  intros H HI Hk. unfold activateContract in H. cruns H.
  apply (row_written _ _ c); [done|]. apply activate_row; [|done|].
  - by eapply (ci_rows _ HI).
  - apply orb_true_iff in Hb as [?|?]; bool_prop; auto.
Qed.

Lemma resumeContract_steps i actor now s u s' :
  resumeContract i actor (todayISO now) now s = Ok (u, s') → cinv s → clock_ok now → rtc cstep s s'.
Proof.
  intros H HI Hk. unfold resumeContract in H. cruns H. bool_prop.
  apply (row_written _ _ c); [done|]. apply activate_row; [by eapply (ci_rows _ HI) | done | auto].
Qed.

Lemma pauseContract_steps i actor now s u s' :
  pauseContract i actor now s = Ok (u, s') → rtc cstep s s'.
Proof.
  intros H. unfold pauseContract in H. cruns H.
  apply (row_written _ _ c); [done|]. by apply rs_stop.
Qed.

Lemma cancelContract_steps i actor now s u s' :
  cancelContract i actor now s = Ok (u, s') → rtc cstep s s'.
Proof.
  intros H. unfold cancelContract in H. cruns H. destruct (bool_decide _); [by cruns H|]. cruns H.
  apply (row_written _ _ c); [done|]. by apply rs_stop.
Qed.

Lemma line_edit_steps s gl : rtc cstep s (set_contracts (λ c, c) gl s).
Proof. by apply quiet_step. Qed.

Lemma addContractLine_steps i input actor s k s' :
  addContractLineToContract i input actor s = Ok (k, s') → rtc cstep s s'.
Proof.
  intros H. unfold addContractLineToContract in H. cruns H. by eapply insert_contract_line_steps.
Qed.

Lemma removeContractLine_steps i k actor s u s' :
  removeContractLine i k actor s = Ok (u, s') → rtc cstep s s'.
Proof. intros H. unfold removeContractLine in H. cruns H. apply line_edit_steps. Qed.

Lemma forget_claims s d i :
  same_claims s (set_periods (fmap (forget_invoice i)) (with_invoicing d s)).
Proof. intros key. simpl. rewrite lookup_fmap. by destruct (billingPeriods s !! key). Qed.

Lemma drop_draft_steps i actor s u s' : drop_draft i actor s = Ok (u, s') → rtc cstep s s'.
Proof.
  intros H. unfold drop_draft in H. apply cbind_ok in H as (x & s1 & (d & _ & ->)%invoicing_ok & H).
  crun H. apply quiet_step; try done. apply forget_claims.
Qed.

(** ** Billing *)

Lemma bill_lines_frame inv o actor now ls : ∀ s u s',
  bill_lines inv o actor now ls s = Ok (u, s') → ∃ d, s' = with_invoicing d s.
Proof.
  induction ls as [|[k l] ls IH]; intros s u s' H; simpl in H.
  - crun H. exists (invoicingDb s). by destruct s.
  - crun H. apply cbind_ok in H as (x & s1 & (d & _ & ->)%invoicing_ok & H).
    apply IH in H as [d' ->]. by exists d'.
Qed.

Lemma claim_period_ok i p o inv s b s' :
  claim_period i p o inv s = Ok (b, s') →
  if b then billingPeriods s !! (i, periodStart p) = None ∧
            s' = set_periods <[(i, periodStart p) := {| bp_orgId := o; bp_periodEnd := periodEnd p;
                                                        bp_invoiceId := Some inv |}]> s
  else is_Some (billingPeriods s !! (i, periodStart p)) ∧ s' = s.
Proof.
  intros H. unfold claim_period in H. crun H.
  destruct (billingPeriods s !! (i, periodStart p)) eqn:E; cruns H; [|done].
  split; [by eexists | done].
Qed.

(** The tables that moving the pointer leaves alone. *)
Definition pointer_frame (s s' : CDB) : Prop :=
  billingPeriods s' = billingPeriods s ∧ same_notices s s' ∧
  nextContractId s' = nextContractId s ∧ invoicingDb s' = invoicingDb s.

Lemma advance_pointer_ok i c k now s u s' :
  advance_pointer i c k now s = Ok (u, s') → contracts s !! i = Some c →
  k_status c = c_active → index_ok (k_schedule c) (k + 1) →
  pointer_frame s s' ∧
  ∃ c', contracts s' = <[i := c']> (contracts s) ∧ moved_on c c' k ∧ k_endDate c' = k_endDate c ∧
    k_status c' = if isExpired (k_endDate c) (periodStart (period (k_schedule c) (k + 1)))
                  then c_expired else c_active.
Proof.
  intros H Hi Ha Hk. unfold advance_pointer in H.
  change (computePeriod _ _ (k + 1)) with (period (k_schedule c) (k + 1)) in H.
  destruct (isExpired _ _); [unfold expire_contract in H | unfold update_contract in H]; cruns H;
    (split; [repeat split; by (simpl; rewrite ?app_nil_r)|]); simpl;
    rewrite (alter_as_insert _ _ _ _ Hi); eexists; (split; [done|]); (split; [|done]).
  - split; [done|]. right. done.
  - split; [done|]. by left.
Qed.

Lemma bill_period_cases i c k ls now s r s' :
  bill_period i c k ls now s = Ok (r, s') → contracts s !! i = Some c →
  k_status c = c_active → index_ok (k_schedule c) (k + 1) →
  let key := (i, periodStart (period (k_schedule c) k)) in
  ∃ inv d, match billingPeriods s !! key with
  | Some _ => r = skipped already_billed ∧
      s' = set_periods (fmap (forget_invoice inv)) (with_invoicing d s)
  | None => r = generated inv (dt_autoIssue (k_details c)) (contract_actor c) ∧
      billingPeriods s' = <[key := {| bp_orgId := k_orgId c;
        bp_periodEnd := periodEnd (period (k_schedule c) k);
        bp_invoiceId := Some inv |}]> (billingPeriods s) ∧
      same_notices s s' ∧ nextContractId s' = nextContractId s ∧ invoicingDb s' = d ∧
      ∃ c', contracts s' = <[i := c']> (contracts s) ∧ moved_on c c' k ∧
        k_endDate c' = k_endDate c ∧
        k_status c' = if isExpired (k_endDate c) (periodStart (period (k_schedule c) (k + 1)))
                      then c_expired else c_active
  end.
Proof.
  intros H Hi Ha Hk key. unfold bill_period in H. cbv zeta in H.
  apply cbind_ok in H as (inv & s1 & (d1 & _ & ->)%invoicing_ok & H).
  apply cbind_ok in H as (u & s2 & [d2 ->]%bill_lines_frame & H).
  apply cbind_ok in H as (b & s3 & Hc%claim_period_ok & H).
  cbn [billingPeriods with_invoicing] in Hc.
  change (i, periodStart (computePeriod _ _ k)) with key in Hc.
  change (periodEnd (computePeriod _ _ k)) with (periodEnd (period (k_schedule c) k)) in Hc.
  exists inv. destruct b; destruct Hc as [Hfree ->]; simpl in H.
  - apply cbind_ok in H as (u' & s4 & Hadv & H).
    apply advance_pointer_ok in Hadv as ((Eb & [En Eo] & Ei & Ed) & c' & Ec & Hrest); [|done..].
    crun H. crun H. rewrite Hfree. exists d2. unfold same_notices.
    cbn [billingPeriods renewalNotices outbox nextContractId invoicingDb contracts set_notices
         set_periods with_invoicing] in *.
    rewrite Eb, En, Eo, Ei, Ed, app_nil_r.
    split_and!; eauto.
  - apply cbind_ok in H as (u' & s4 & Hd & H). crun H.
    unfold drop_draft in Hd. apply cbind_ok in Hd as (u'' & s5 & (d3 & _ & ->)%invoicing_ok & Hd).
    crun Hd. destruct Hfree as [bp ->]. by exists d3.
Qed.

Lemma generateDueInvoice_steps i now s r s' :
  generateDueInvoice i now s = Ok (r, s') → cinv s → clock_ok now → rtc cstep s s'.
Proof.
  intros H HI Hclk. unfold generateDueInvoice in H. crun H.
  destruct (contracts s !! i) as [c|] eqn:Hi; [|done].
  destruct (ci_rows _ HI i c Hi) as (_ & Hs & _ & Hp).
  destruct (k_nextBillingAt c) as [at_|] eqn:Hn; [|by cruns H].
  destruct (Hp _ eq_refl) as (k & Hk & ->).
  destruct (bool_decide _) eqn:Ha; simpl in H; [|by cruns H]. bool_prop.
  destruct (str_lt _ _) eqn:Hdue; [by cruns H|].
  destruct (due_pointer _ _ _ Hs Hclk Hk Hdue) as [Ei Hk1]. cbv zeta in H. rewrite Ei in H.
  destruct (isExpired _ _).
  { unfold expire_contract in H. apply cbind_ok in H as (u & s1 & H1 & H). crun H.
    cruns H1. apply (row_written _ _ c); [done|]. by apply rs_stop. }
  destruct (lines_of_contract s i) as [|l ls] eqn:El; [by cruns H|].
  apply bill_period_cases in H as (inv & d & H); [|done..].
  destruct (billingPeriods s !! _) eqn:Hfree.
  - destruct H as [_ ->]. apply quiet_step; try done. apply forget_claims.
  - destruct H as (_ & Eb & Hnot & En & _ & c' & Ec & Hm & _).
    eapply rtc_once, (cs_bill _ _ i c c' k); [done..| |done|done|done|done|done]; done.
Qed.

(** ** Renewal *)

Lemma claimNotice_ok i c e kind s b s' :
  claimNotice i c e kind s = Ok (b, s') →
  if b then renewalNotices s !! (i, e, kind) = None ∧
            s' = set_notices <[(i, e, kind) := k_orgId c]> [] [] s
  else s' = s.
Proof.
  intros H. unfold claimNotice in H. crun H.
  destruct (renewalNotices s !! (i, e, kind)); cruns H; done.
Qed.

Lemma dispatchNotice_ok sd i c kind e s u s' :
  dispatchNotice sd i c kind e s = Ok (u, s') →
  ∃ name mails, s' = set_notices (λ n, n) [] (in_app i e kind name :: mails) s ∧
                omap notice_key mails = [].
Proof.
  intros H. unfold dispatchNotice in H. crun H. destruct (sd_inAppThrows sd i); cruns H.
  - by eexists _, [].
  - eexists _, _. split; [done|]. by destruct (_ && _).
Qed.

(** A won claim and its dispatch are one transition, and touch no contract. *)
Lemma notice_steps sd i c0 c kind e s b s1 u s' :
  claimNotice i c0 e kind s = Ok (b, s1) →
  (if b then dispatchNotice sd i c0 kind e else mret tt) s1 = Ok (u, s') →
  contracts s !! i = Some c → k_status c ≠ c_draft →
  rtc cstep s s' ∧ contracts s' = contracts s.
Proof.
  intros Hc%claimNotice_ok Hd Hi Hs. destruct b.
  - destruct Hc as [Hfree ->]. apply dispatchNotice_ok in Hd as (nm & mails & -> & Hm).
    split; [|done]. eapply rtc_once, (cs_notice _ _ i c e kind); simpl; try done.
    by rewrite app_nil_r.
  - subst s1. crun Hd. done.
Qed.

Lemma advance_pass_steps sd today i c0 c e s b s' :
  advance_pass sd today i c0 e s = Ok (b, s') →
  contracts s !! i = Some c → k_status c ≠ c_draft →
  rtc cstep s s' ∧ contracts s' = contracts s.
Proof.
  intros H Hi Hs. unfold advance_pass in H. cbv zeta in H.
  destruct (isWithinNoticeWindow _ _ _); [|by cruns H].
  apply cbind_ok in H as (won & s1 & Hc & H).
  assert (∃ u, (if won then dispatchNotice sd i c0 notice_advance e else mret tt) s1 = Ok (u, s'))
    as [u Hd].
  { destruct won; [|crun H; by exists tt].
    apply cbind_ok in H as (u & s2 & Hd & H). crun H. eauto. }
  by eapply notice_steps.
Qed.

Local Ltac unchanged H := cruns H; split; [done | by left].

(** When the due period of the contract is past its end date. *)
Definition lapsing (today : string) (c : ContractRow) (endDate : string) (term : Z) : Prop :=
  ∃ d, k_nextBillingAt c = Some d ∧ d ≠ ""%string ∧ str_le d today = true ∧
  (extendTermPastDue endDate (duePeriodStartFor (sc_billingTiming (k_schedule c)) d
                                (sc_intervalMonths (k_schedule c))) term).2 = true.

Lemma extend_pass_steps sd today now i c0 c e t s b s' :
  extend_pass sd today now i c0 e t s = Ok (b, s') →
  contracts s !! i = Some c → k_status c = c_active →
  rtc cstep s s' ∧
  (contracts s' = contracts s ∨
   lapsing today c0 e t ∧ ∃ e', contracts s' = <[i := with_endDate (Some e') now c]> (contracts s)).
Proof.
  intros H Hi Hs. unfold extend_pass in H.
  destruct (k_nextBillingAt c0) as [[|ch d]|] eqn:En; [unchanged H | | unchanged H].
  destruct (str_le _ _) eqn:Hle; simpl in H; [|unchanged H].
  destruct (extendTermPastDue _ _ _) as [e' did] eqn:Ee. destruct did; [|unchanged H].
  apply cbind_ok in H as (u & s1 & [= _ <-] & H). apply cbind_ok in H as (u' & s2 & [= _ <-] & H).
  apply cbind_ok in H as (won & s3 & Hc & H). apply cbind_ok in H as (u'' & s4 & Hd & H). crun H.
  eapply notice_steps in Hc as [Hst Ec]; [|exact Hd | |].
  - split.
    + etrans; [|done]. apply (row_written _ _ c); [done|]. by apply rs_keep.
    + right. split; [|exists e'; rewrite Ec; by apply alter_as_insert].
      eexists. split_and!; [done.. |]. by rewrite Ee.
  - simpl. rewrite (alter_as_insert _ _ _ _ Hi). apply lookup_insert_eq.
  - simpl. by rewrite Hs.
Qed.

(** A pass over one contract changes no other row, and of its own row the end date only. *)
Lemma renew_one_steps sd today now i c0 c s r s' :
  renew_one sd today now (i, c0) s = Ok (r, s') →
  contracts s !! i = Some c → k_status c = c_active →
  rtc cstep s s' ∧
  (contracts s' = contracts s ∨
   (∃ e t, k_endDate c0 = Some e ∧ rn_termMonths (k_renewal c0) = Some t ∧
           lapsing today c0 e t) ∧
   ∃ e', contracts s' = <[i := with_endDate (Some e') now c]> (contracts s)).
Proof.
  intros H Hi Hs. unfold renew_one in H.
  destruct (k_endDate c0) as [[|ch e]|]; [unchanged H | | unchanged H].
  destruct (rn_termMonths (k_renewal c0)) as [t|]; [|unchanged H].
  apply cbind_ok in H as (b1 & s1 & H1 & H). apply cbind_ok in H as (b2 & s2 & H2 & H). crun H.
  eapply advance_pass_steps in H1 as [Hst1 Ec1]; [|done | by rewrite Hs].
  rewrite <- Ec1 in Hi. eapply extend_pass_steps in H2 as [Hst2 Hor]; [|done..].
  rewrite Ec1 in Hor. split; [by etrans|]. destruct Hor as [?|[? ?]]; eauto 10.
Qed.

(** A contract the sweep need not renew keeps its row; every active contract stays one. *)
Lemma renew_all_steps sd today now rs : ∀ s r s',
  renew_all sd today now rs s = Ok (r, s') →
  (∀ j c, (j, c) ∈ rs → ∃ c', contracts s !! j = Some c' ∧ k_status c' = c_active) →
  rtc cstep s s' ∧
  (∀ i c, contracts s !! i = Some c →
     (∀ c0 e t, (i, c0) ∈ rs → k_endDate c0 = Some e → rn_termMonths (k_renewal c0) = Some t →
        ¬ lapsing today c0 e t) → contracts s' !! i = Some c).
Proof.
  induction rs as [|[j c0] rs IH]; intros s r s' H Hact; simpl in H; [by crun H|].
  apply cbind_ok in H as (one & s1 & H1 & H). apply cbind_ok in H as (rest & s2 & H2 & H). crun H.
  destruct (Hact j c0) as (c' & Hj & Ha); [by left|].
  eapply renew_one_steps in H1 as [Hst Hor]; [|done..].
  eapply IH in H2 as [Hst2 Hkeep].
  - split; [by etrans|]. intros i c Hi Hno. apply Hkeep; [|intros; eapply Hno; [by right|done..]].
    destruct Hor as [->|[(e & t & ? & ? & ?) (e' & Ec)]]; [done|]. rewrite Ec.
    destruct (decide (i = j)) as [->|]; [|by rewrite lookup_insert_ne].
    exfalso. by eapply Hno; [left|..].
  - intros j' c1 Hin. destruct (Hact j' c1) as (c2 & Hj2 & Ha2); [by right|].
    destruct Hor as [->|[_ (e' & Ec)]]; [eauto|]. rewrite Ec.
    destruct (decide (j' = j)) as [->|]; [rewrite lookup_insert_eq | rewrite lookup_insert_ne by done; eauto].
    eexists. split; [done|]. done.
Qed.

Lemma renewal_sweep_steps sd now s r s' :
  runContractRenewalSweep sd now s = Ok (r, s') →
  rtc cstep s s' ∧
  (∀ i c, contracts s !! i = Some c →
     (∀ e t, k_endDate c = Some e → rn_termMonths (k_renewal c) = Some t →
        ¬ lapsing (todayISO now) c e t) → contracts s' !! i = Some c).
Proof.
  intros H. unfold runContractRenewalSweep in H. crun H. apply renew_all_steps in H as [Hst Hk].
  - split; [done|]. intros i c Hi Hno. apply Hk; [done|]. intros c0 e t Hin.
    apply list_elem_of_filter in Hin as [_ Hin%elem_of_map_to_list].
    assert (c0 = c) as -> by congruence. apply Hno.
  - intros j c Hin. apply list_elem_of_filter in Hin as [Hc Hin%elem_of_map_to_list].
    unfold is_candidate in Hc. simpl in Hc. bool_prop. eauto.
Qed.

(** ** Every operation is a run of transitions *)

Lemma run_cop_steps op actor now s u s' :
  run_cop op actor now s = Ok (u, s') → cinv s → clock_ok now → op_valid op → rtc cstep s s'.
Proof.
  intros H HI Hclk Hv. destruct op; simpl in H, Hv.
  all: try (unfold c_discard in H; apply cbind_ok in H as (x & s1 & Hrun & H); crun H;
    eauto using createContract_steps, updateContract_steps, addContractLine_steps,
      createContractWithLines_steps, generateDueInvoice_steps; done).
  all: try by eauto using deleteDraftContract_steps, removeContractLine_steps,
      activateContract_steps, pauseContract_steps, resumeContract_steps, cancelContract_steps.
  - unfold c_discard in H. apply cbind_ok in H as (x & s1 & Hrun & H). crun H.
    by apply renewal_sweep_steps in Hrun as [? _].
  - destruct op; eauto using drop_draft_steps, invoicing_steps.
Qed.
