(* ===== verification/ContractBilling.v ===== *)
(** * What one billing run of a contract produces.

    Run forwards: the draft, its lines, the claim and the pointer of a due contract, with
    the conditions under which no call throws. *)

From S2P Require Import Prelude JsNum Money Calendar InvoiceDb Invoices InvoiceLogic.
From S2P Require Import Contracts ContractSchedule ContractLifecycle.

Open Scope Z_scope.

(** ** Contract lines on an invoice *)

(** The price a contract line is billed at: its catalog item's, or its own. *)
Definition line_price (db : DB) (orgId : id) (l : ContractLine) : string :=
  match cl_catalogItemId l with
  | None => toFixed 2 (Number (cl_unitPrice l))
  | Some it =>
      match catalogItems db !! it with
      | Some row => rp_unitPrice (resolvePriceFrom (ct_item row) (catalogOrgPricing db !! (it, orgId)))
      | None => ""
      end
  end.

(** Source, description, quantity and price of a line. *)
Definition content (l : Line) : option id * string * string * string :=
  (ln_sourceId l, ln_description l, ln_quantity l, ln_unitPrice l).
Definition expected (s : CDB) (orgId : id) (r : id * ContractLine) : option id * string * string * string :=
  (Some r.1, cl_description r.2, line_quantity s orgId r.2, line_price (invoicingDb s) orgId r.2).

(** A line that can be billed: its item is the partner's, or its amounts are not negative. *)
Definition billable (s : CDB) (c : ContractRow) (l : ContractLine) : Prop :=
  match cl_catalogItemId l with
  | Some it => ∃ row, catalogItems (invoicingDb s) !! it = Some row ∧ ct_partnerId row = k_partnerId c
  | None => num_neg (Number (line_quantity s (k_orgId c) l)) = false ∧
            num_neg (Number (toFixed 2 (Number (cl_unitPrice l)))) = false
  end.

(** The tables while the new invoice [nextId db0] of a contract is being filled. *)
Record drafted (db0 : DB) (c : ContractRow) (ls : list (option id * string * string * string))
    (db : DB) : Prop := {
  df_row : ∃ row, invoices db = <[nextId db0 := row]> (invoices db0) ∧ iv_status row = draft ∧
                  iv_orgId row = k_orgId c ∧ iv_partnerId row = k_partnerId c;
  df_lines : (λ l, content l.2) <$> lines_of db (nextId db0) ≡ₚ ls;
  df_apart : lines_apart (nextId db0) db0 db;
  df_keys : ∀ k l, invoiceLines db !! k = Some l → (k < nextId db)%N;
  df_payments : invoicePayments db = invoicePayments db0;
  df_catalog : catalogItems db = catalogItems db0 ∧ catalogOrgPricing db = catalogOrgPricing db0 }.

Lemma run_recompute db i inv now :
  invoices db !! i = Some inv → iv_status inv = draft →
  ∃ f, recomputeInvoiceTotals i None now db = Ok (tt, set_invoices (alter (with_amounts f now) i) db).
Proof.
  intros Hi Hd. unfold recomputeInvoiceTotals, assertDraft.
  rewrite (run_bind _ _ db inv db) by (by apply run_owned).
  rewrite (run_bind _ _ db tt db) by (by rewrite run_require, bool_decide_true).
  rewrite (run_bind _ _ db db db) by done. by eexists.
Qed.

Lemma lines_of_insert db k l i :
  invoiceLines db !! k = None → ln_invoiceId l = i →
  lines_of (set_lines <[k := l]> db) i ≡ₚ (k, l) :: lines_of db i.
Proof.
  intros Hk Hl. unfold lines_of. simpl. rewrite map_to_list_insert by done.
  by rewrite filter_cons_True.
Qed.

Lemma add_line_drafted db0 c cs db l f now :
  drafted db0 c cs db → (nextId db0 < nextId db)%N → ln_invoiceId l = nextId db0 →
  let db' := set_invoices (alter (with_amounts f now) (nextId db0))
    (set_lines <[nextId db := l]> (set_aux (λ s, s) (N.succ (nextId db)) (events db) db)) in
  drafted db0 c (content l :: cs) db' ∧ (nextId db0 < nextId db')%N.
Proof.
  intros [(row & Er & Hd & Ho & Hp) Hls Hap Hkeys Hpay Hcat] Hn Hl db'.
  assert (invoiceLines db !! nextId db = None) as Hfree.
  { destruct (invoiceLines db !! nextId db) eqn:E; [|done]. apply Hkeys in E. lia. }
  split; [constructor; try done|simpl; lia].
  - exists (with_amounts f now row). simpl. rewrite Er. split_and!; try done.
    erewrite alter_as_insert by apply lookup_insert_eq. by rewrite insert_insert_eq.
  - change (lines_of db' (nextId db0)) with (lines_of (set_lines <[nextId db := l]> db) (nextId db0)).
    rewrite lines_of_insert by done. simpl. by rewrite Hls.
  - intros k l' Hne. rewrite <- (Hap k l' Hne). simpl. rewrite lookup_insert_Some. naive_solver congruence.
  - intros k l'. simpl. intros [[<- _]|[_ Hk]]%lookup_insert_Some; [lia|]. apply Hkeys in Hk. lia.
Qed.

Lemma run_insert db0 c cs db spec now :
  drafted db0 c cs db → (nextId db0 < nextId db)%N → (∀ n, ln_invoiceId (spec n) = nextId db0) →
  (∀ n m, content (spec n) = content (spec m)) →
  ∃ r db', insertLineAndRecompute (nextId db0) spec now db = Ok (r, db') ∧
           drafted db0 c (content (spec 0) :: cs) db' ∧ (nextId db0 < nextId db')%N.
Proof.
  intros Hdr Hn Hid Hc. pose proof Hdr as [(row & Er & Hd & _) _ _ _ _ _].
  unfold insertLineAndRecompute. rewrite (run_bind _ _ db db db) by done.
  set (l := spec _). unfold insert_line.
  set (db1 := set_lines <[nextId db := l]> (set_aux (λ s, s) (N.succ (nextId db)) (events db) db)).
  rewrite (run_bind _ _ db (nextId db) db1) by done.
  destruct (run_recompute db1 (nextId db0) row now) as [f Hf].
  { simpl. rewrite Er. apply lookup_insert_eq. }
  { done. }
  rewrite (run_bind _ _ db1 tt _ Hf). eexists _, _. split; [done|].
  rewrite (Hc 0 (default 0 (max_sort db (nextId db0)) + 1)). apply add_line_drafted; [done | done | apply Hid].
Qed.

Lemma run_editable db i inv actor :
  invoices db !! i = Some inv → iv_status inv = draft → org_accessible actor (iv_orgId inv) = true →
  editableDraft i actor db = Ok (inv, db).
Proof.
  intros Hi Hd Ho. unfold editableDraft, assertDraft, requireOrgAccess.
  rewrite (run_bind _ _ db inv db) by (by apply run_owned).
  rewrite (run_bind _ _ db tt db) by (by rewrite run_require, bool_decide_true).
  by rewrite (run_bind _ _ db tt db) by (by rewrite run_require, Ho).
Qed.

Lemma own_org_accessible c : org_accessible (contract_actor c) (k_orgId c) = true.
Proof. unfold org_accessible. simpl. apply bool_decide_true. by left. Qed.

Lemma run_resolvePrice db c it row :
  catalogItems db !! it = Some row → ct_partnerId row = k_partnerId c →
  resolvePrice it (k_orgId c) (contract_actor c) db =
  Ok (resolvePriceFrom (ct_item row) (catalogOrgPricing db !! (it, k_orgId c)), db).
Proof.
  intros Hi Hp. unfold resolvePrice, requireOrgAccess.
  rewrite (run_bind _ _ db (k_partnerId c) db) by done.
  rewrite (run_bind _ _ db tt db) by (by rewrite run_require, own_org_accessible).
  rewrite (run_bind _ _ db row db); [done|]. unfold getOwnedItemOr404.
  rewrite (run_bind _ _ db db db), Hi by done. by rewrite bool_decide_true.
Qed.

(** Adding one contract line to the draft. *)
Lemma run_addContractLine s c cs db k l now :
  drafted (invoicingDb s) c cs db → (nextId (invoicingDb s) < nextId db)%N → billable s c l →
  ∃ r db', addContractLine (nextId (invoicingDb s)) (cl_description l)
      (line_quantity s (k_orgId c) l) (cl_unitPrice l) (cl_taxable l) (cl_catalogItemId l) (Some k)
      (contract_actor c) now db = Ok (r, db') ∧
    drafted (invoicingDb s) c (expected s (k_orgId c) (k, l) :: cs) db' ∧
    (nextId (invoicingDb s) < nextId db')%N.
Proof.
  intros Hdr Hn Hb. pose proof Hdr as [(row & Er & Hd & Ho & Hp) _ _ _ _ [Ec Ep]].
  unfold addContractLine. rewrite (run_bind _ _ db row db).
  2: { apply run_editable; [by rewrite Er, lookup_insert_eq | done|]. rewrite Ho. apply own_org_accessible. }
  unfold billable in Hb. unfold expected, line_price; simpl. destruct (cl_catalogItemId l) as [ci|].
  - destruct Hb as (itm & Hit & Hpi). rewrite Hit.
    erewrite (run_bind _ _ db _ db).
    2: { rewrite Ho. erewrite run_bind by (apply run_resolvePrice; [by rewrite Ec | done]). done. }
    rewrite Ep. apply run_insert; done.
  - destruct Hb as [Hq Hpr]. cbv zeta. erewrite (run_bind _ _ db _ db).
    2: { rewrite (run_bind _ _ db tt db) by (by rewrite run_require, Hq, Hpr). done. }
    apply run_insert; done.
Qed.

(** Adding them all. *)
Lemma run_bill_lines s c now ls : ∀ d cs,
  drafted (invoicingDb s) c cs d → (nextId (invoicingDb s) < nextId d)%N →
  Forall (λ r, billable s c r.2) ls →
  ∃ d', bill_lines (nextId (invoicingDb s)) (k_orgId c) (contract_actor c) now ls (with_invoicing d s) =
          Ok (tt, with_invoicing d' s) ∧
        drafted (invoicingDb s) c (rev (expected s (k_orgId c) <$> ls) ++ cs) d' ∧
        (nextId (invoicingDb s) < nextId d')%N.
Proof.
  induction ls as [|[k l] ls IH]; intros d cs Hdr Hn Hall; simpl; [by eauto|].
  apply Forall_cons in Hall as [Hl Hall].
  destruct (run_addContractLine s c cs d k l now Hdr Hn Hl) as (r & d1 & Hrun & Hdr1 & Hn1).
  rewrite (cbind_run _ _ _ (with_invoicing d s) (with_invoicing d s)) by done.
  rewrite (cbind_run _ _ _ r (with_invoicing d1 s)).
  2: { unfold invoicing. change (invoicingDb (with_invoicing d s)) with d.
       change (line_quantity (with_invoicing d s)) with (line_quantity s). by rewrite Hrun. }
  destruct (IH d1 _ Hdr1 Hn1 Hall) as (d2 & -> & Hdr2 & Hn2).
  exists d2. rewrite <- app_assoc. done.
Qed.

(** An id not yet given to an invoice has no lines and no payments. *)
Lemma lines_of_fresh db db' :
  wf db → invoiceLines db' = invoiceLines db → lines_of db' (nextId db) = [].
Proof.
  intros [_ Hl _] E. unfold lines_of. rewrite E. destruct (filter _ _) as [|[k l] r] eqn:Ef; [done|].
  assert ((k, l) ∈ filter (λ l : id * Line, ln_invoiceId l.2 = nextId db) (map_to_list (invoiceLines db)))
    as [Hi Hin%elem_of_map_to_list]%list_elem_of_filter by (rewrite Ef; by left).
  apply Hl in Hin as (_ & ? & _). simpl in Hi. lia.
Qed.

(** The fresh draft. *)
Lemma run_create db c notes now :
  wf db →
  ∃ db', createManualInvoice (k_orgId c) None notes None (contract_actor c) now db = Ok (nextId db, db') ∧
         drafted db c [] db' ∧ (nextId db < nextId db')%N.
Proof.
  intros Hw. pose proof Hw as [_ Hl _]. unfold createManualInvoice, requireOrgAccess.
  rewrite (run_bind _ _ db (k_partnerId c) db) by done.
  rewrite (run_bind _ _ db tt db) by (by rewrite run_require, own_org_accessible).
  eexists. split; [done|]. split; [|simpl; lia]. constructor; simpl; try done.
  - eexists. split; [done|]. done.
  - by rewrite (lines_of_fresh db).
  - intros k l Hk. apply Hl in Hk as [? _]. lia.
Qed.

(** Deleting the draft again leaves the invoice tables as they were. *)
Lemma run_drop db0 c cs d :
  wf db0 → drafted db0 c cs d →
  ∃ d', deleteDraftInvoice (nextId db0) (contract_actor c) d = Ok (tt, d') ∧
        invoices d' = invoices db0 ∧ invoiceLines d' = invoiceLines db0 ∧
        invoicePayments d' = invoicePayments db0.
Proof.
  intros [Hi Hl Hp] [(row & Er & Hd & Ho & _) _ Hap _ Hpay _]. unfold deleteDraftInvoice.
  rewrite (run_bind _ _ d row d).
  2: { apply run_editable; [by rewrite Er, lookup_insert_eq | done|]. rewrite Ho. apply own_org_accessible. }
  eexists. split; [done|]. simpl. split_and!.
  - rewrite Er. apply delete_insert_id. destruct (invoices db0 !! nextId db0) eqn:E; [|done].
    apply Hi in E. lia.
  - apply map_eq. intros k. apply option_eq. intros l. rewrite map_lookup_filter_Some. simpl. split.
    + intros [Hk Hne]. by apply Hap.
    + intros Hk. assert (ln_invoiceId l ≠ nextId db0) by (apply Hl in Hk as (_ & ? & _); lia).
      split; [by apply Hap | done].
  - rewrite Hpay. apply map_filter_id. intros k p Hk. apply Hp in Hk as [_ ?]. simpl. lia.
Qed.

Lemma run_advance_pointer i c k now s : ∃ s', advance_pointer i c k now s = Ok (tt, s').
Proof. unfold advance_pointer. destruct (isExpired _ _); by eexists. Qed.

(** ** The billing run of a due contract *)

Record due (s : CDB) (i : id) (c : ContractRow) (k now : Z) : Prop := {
  du_row : contracts s !! i = Some c;
  du_active : k_status c = c_active;
  du_sched : schedule_ok (k_schedule c);
  du_index : index_ok (k_schedule c) k;
  du_pointer : k_nextBillingAt c = Some (pointer (k_schedule c) k);
  du_clock : clock_ok now;
  du_today : str_lt (todayISO now) (pointer (k_schedule c) k) = false;
  du_term : isExpired (k_endDate c) (periodStart (period (k_schedule c) k)) = false;
  du_lines : lines_of_contract s i ≠ [];
  du_billable : Forall (λ r, billable s c r.2) (lines_of_contract s i) }.

(** A contract whose period is not yet claimed: the new invoice, the claim, the pointer. *)
Definition billed_period (s : CDB) (i : id) (c : ContractRow) (k : Z) (s' : CDB) : Prop :=
  let inv := nextId (invoicingDb s) in
  let p := period (k_schedule c) k in
  billingPeriods s' = <[(i, periodStart p) := {| bp_orgId := k_orgId c; bp_periodEnd := periodEnd p;
                          bp_invoiceId := Some inv |}]> (billingPeriods s) ∧
  (∃ row, invoices (invoicingDb s') = <[inv := row]> (invoices (invoicingDb s)) ∧
          iv_status row = draft ∧ iv_orgId row = k_orgId c ∧ iv_partnerId row = k_partnerId c) ∧
  (λ l, content l.2) <$> lines_of (invoicingDb s') inv ≡ₚ
    expected s (k_orgId c) <$> lines_of_contract s i ∧
  ∃ c', contracts s' = <[i := c']> (contracts s) ∧ moved_on c c' k ∧ k_endDate c' = k_endDate c ∧
    k_status c' = if isExpired (k_endDate c) (periodStart (period (k_schedule c) (k + 1)))
                  then c_expired else c_active.

(** A contract whose period is claimed: nothing but ids and events. *)
Definition billed_before (s s' : CDB) : Prop :=
  contracts s' = contracts s ∧ same_claims s s' ∧
  invoices (invoicingDb s') = invoices (invoicingDb s) ∧
  invoiceLines (invoicingDb s') = invoiceLines (invoicingDb s) ∧
  invoicePayments (invoicingDb s') = invoicePayments (invoicingDb s).

Lemma run_bill_period s i c k now :
  due s i c k now → wf (invoicingDb s) → index_ok (k_schedule c) (k + 1) →
  ∃ r s', bill_period i c k (lines_of_contract s i) now s = Ok (r, s') ∧
  match billingPeriods s !! (i, periodStart (period (k_schedule c) k)) with
  | Some _ => r = skipped already_billed ∧ billed_before s s'
  | None => r = generated (nextId (invoicingDb s)) (dt_autoIssue (k_details c)) (contract_actor c) ∧
            billed_period s i c k s'
  end.
Proof.
  intros [Hi Ha _ _ _ _ _ _ _ Hb] Hw Hk1. unfold bill_period.
  destruct (run_create (invoicingDb s) c (note_text c) now Hw) as (d & Hrun & Hd0 & Hn).
  rewrite (cbind_run _ _ _ (nextId (invoicingDb s)) (with_invoicing d s))
    by (unfold invoicing; by rewrite Hrun).
  destruct (run_bill_lines s c now _ d [] Hd0 Hn Hb) as (d1 & Hl & Hd1 & _).
  rewrite (cbind_run _ _ _ tt (with_invoicing d1 s)) by done. rewrite app_nil_r in Hd1.
  set (p := computePeriod _ _ k). change (period (k_schedule c) k) with p. unfold claim_period.
  destruct (billingPeriods s !! (i, periodStart p)) eqn:Hfree.
  - rewrite (cbind_run _ _ _ false (with_invoicing d1 s)).
    2: { rewrite (cbind_run _ _ _ (with_invoicing d1 s) (with_invoicing d1 s)) by done.
         cbn [billingPeriods with_invoicing]. by rewrite Hfree. }
    destruct (run_drop _ _ _ _ Hw Hd1) as (d2 & Hdrop & Ei & El & Ep). simpl.
    unfold drop_draft. rewrite (cbind_run _ _ _ tt (set_periods (fmap (forget_invoice (nextId (invoicingDb s)))) (with_invoicing d2 s))).
    2: { rewrite (cbind_run _ _ _ tt (with_invoicing d2 s)); [done|].
         unfold invoicing. simpl in Hdrop |- *. by rewrite Hdrop. }
    eexists _, _. split; [done|]. split; [done|]. repeat split; try done. apply forget_claims.
  - set (s2 := set_periods <[(i, periodStart p) := {| bp_orgId := k_orgId c;
      bp_periodEnd := periodEnd p; bp_invoiceId := Some (nextId (invoicingDb s)) |}]> (with_invoicing d1 s)).
    rewrite (cbind_run _ _ _ true s2).
    2: { rewrite (cbind_run _ _ _ (with_invoicing d1 s) (with_invoicing d1 s)) by done.
         cbn [billingPeriods with_invoicing]. by rewrite Hfree. }
    cbn [negb]. destruct (run_advance_pointer i c k now s2) as [s3 Hadv].
    rewrite (cbind_run _ _ _ tt s3) by done. eexists _, _. split; [done|]. split; [done|].
    apply advance_pointer_ok in Hadv as ((Eb & _ & _ & Ed) & Hrow); [|done..].
    destruct Hd1 as [Hr Hls _ _ _ _]. unfold billed_period. simpl in Eb, Ed, Hrow |- *. rewrite Eb, Ed.
    split_and!; [done | done | by rewrite Hls, <- Permutation_rev | done].
Qed.

Lemma run_generate s i c k now :
  due s i c k now → wf (invoicingDb s) →
  ∃ r s', generateDueInvoice i now s = Ok (r, s') ∧
  match billingPeriods s !! (i, periodStart (period (k_schedule c) k)) with
  | Some _ => r = skipped already_billed ∧ billed_before s s'
  | None => r = generated (nextId (invoicingDb s)) (dt_autoIssue (k_details c)) (contract_actor c) ∧
            billed_period s i c k s'
  end.
Proof.
  intros Hdue Hw. pose proof Hdue as [Hi Ha Hs Hk Hn Hclk Hday Hterm Hne _].
  destruct (due_pointer _ _ _ Hs Hclk Hk Hday) as [Eidx Hk1].
  unfold generateDueInvoice. rewrite (cbind_run _ _ _ s s) by done. rewrite Hi, Hn.
  rewrite bool_decide_true by done. cbn [negb]. cbv zeta. rewrite Hday, Eidx.
  change (computePeriod _ _ k) with (period (k_schedule c) k). rewrite Hterm.
  destruct (lines_of_contract s i) eqn:El; [done|]. rewrite <- El. by apply run_bill_period.
Qed.

(** ** Claim *)

(** C12 (generateDueInvoice, contractService.ts): a run on a due contract with billable
    lines always returns.  If the period of its pointer is not yet claimed, it leaves one
    new draft invoice whose lines are exactly the contract's lines at their quantities and
    prices, the claim of that period, and the pointer on the next period (or an expired
    contract when the next period starts on or after the end date).  If the period is
    claimed, contracts, claims, invoices, lines and payments are as before. *)
Theorem generateDueInvoice_bills_period s i c k now :
  due s i c k now → wf (invoicingDb s) →
  ∃ r s', generateDueInvoice i now s = Ok (r, s') ∧
  match billingPeriods s !! (i, periodStart (period (k_schedule c) k)) with
  | Some _ => r = skipped already_billed ∧ billed_before s s'
  | None => r = generated (nextId (invoicingDb s)) (dt_autoIssue (k_details c)) (contract_actor c) ∧
            billed_period s i c k s'
  end.
Proof. apply run_generate. Qed.
