(* ===== verification/ContractSafety.v ===== *)
(** * Theorems on recurring contracts: what is billed, once; when a contract ends; what
    is sent. *)

From S2P Require Import Prelude JsNum Money Calendar InvoiceDb Invoices InvoiceLogic InvoiceSafety.
From S2P Require Import Contracts ContractSchedule ContractLifecycle ContractBilling.

Open Scope Z_scope.

(** ** The daily job *)

Lemma attempt_ok {A} (m : CM A) s o s' :
  attempt m s = Ok (o, s') →
  (∃ a, o = Some a ∧ m s = Ok (a, s')) ∨ (o = None ∧ s' = s).
Proof. unfold attempt. destruct (m s) as [[a s1]|e]; intros [= <- <-]; eauto. Qed.

Lemma issue_and_send_steps sends inv actor now s u s' :
  issue_and_send sends inv actor now s = Ok (u, s') → rtc cstep s s'.
Proof.
  intros H. unfold issue_and_send in H. apply cbind_ok in H as (x & s1 & H1 & H).
  apply crequire_ok in H as [_ ->]. by eapply invoicing_steps.
Qed.

Lemma bill_all_steps sends now : ∀ ids s r s',
  bill_all sends ids now s = Ok (r, s') → cinv s → clock_ok now → rtc cstep s s'.
Proof.
  induction ids as [|i ids IH]; intros s r s' H HI Hclk; simpl in H; [by crun H|].
  apply cbind_ok in H as (res & s1 & Hgen & H). apply cbind_ok in H as (u & s2 & Hissue & H).
  apply cbind_ok in H as (rest & s3 & Hrest & H). crun H.
  assert (rtc cstep s s1) as H01.
  { apply attempt_ok in Hgen as [(a & _ & Hgen)|[_ ->]]; [by eapply generateDueInvoice_steps | done]. }
  assert (rtc cstep s1 s2) as H12.
  { destruct res as [[why|inv [] actor]|]; try by crun Hissue.
    apply cbind_ok in Hissue as (o & s4 & Hat & Hissue). crun Hissue.
    apply attempt_ok in Hat as [(a & _ & Hat)|[_ ->]]; [by eapply issue_and_send_steps | done]. }
  etrans; [done|]. etrans; [done|]. eapply IH; [done| |done].
  eapply csteps_inv, H12. by eapply csteps_inv.
Qed.

Lemma job_steps sd sends now s r s' :
  billing_sweep_job sd sends now s = Ok (r, s') → cinv s → clock_ok now → rtc cstep s s'.
Proof.
  intros H HI Hclk. unfold billing_sweep_job in H. apply cbind_ok in H as (x & s1 & H1 & H).
  apply renewal_sweep_steps in H1 as [Hst _]. etrans; [done|].
  unfold runContractBillingSweep in H. crun H. eapply bill_all_steps; [done| |done].
  by eapply csteps_inv.
Qed.

(** ** Reachable states

    From tables without contracts, by the operations, the daily job, and changes of the
    tables that other services own. *)

Inductive creachable : CDB → Prop :=
| cr_init s : contracts s = ∅ → billingPeriods s = ∅ → renewalNotices s = ∅ → outbox s = [] →
    creachable s
| cr_op s op actor now s' : creachable s → op_valid op → clock_ok now →
    run_cop op actor now s = Ok (tt, s') → creachable s'
| cr_job s sd sends now r s' : creachable s → clock_ok now →
    billing_sweep_job sd sends now s = Ok (r, s') → creachable s'
| cr_env s s' : creachable s → contracts s' = contracts s → contractLines s' = contractLines s →
    billingPeriods s' = billingPeriods s → renewalNotices s' = renewalNotices s →
    outbox s' = outbox s → nextContractId s' = nextContractId s → creachable s'.

Lemma creachable_inv s : creachable s → cinv s.
Proof.
  induction 1 as [s Ec Eb En Eo|s op actor now s' _ IH Hv Hclk H|s sd sends now r s' _ IH Hclk H
                 |s s' _ IH Ec _ Eb En Eo Ei].
  - constructor; unfold sent_keys; rewrite ?Ec, ?Eb, ?En, ?Eo; try done.
    + intros i e kind [x Hx]. done.
    + split; [apply NoDup_nil_2|]. intros key Hk. by apply not_elem_of_nil in Hk.
  - eapply csteps_inv; [done|]. by eapply run_cop_steps.
  - eapply csteps_inv; [done|]. by eapply job_steps.
  - eapply cstep_inv; [done|]. apply cs_quiet; [done| |done|by rewrite Ei]. intros key. by rewrite Eb.
Qed.

(** ** Periods as dates *)

Lemma period_nonempty sch k :
  schedule_ok sch → index_ok sch k →
  str_lt (periodStart (period sch k)) (periodEnd (period sch k)) = true.
Proof.
  intros [c Hs] Hi. apply (index_ok_on _ c _ Hs) in Hi as [Hk Hb].
  rewrite (period_iso sch c Hs) by lia. simpl. destruct Hs as (? & ? & ? & Hn).
  rewrite iso_lt by (apply column_start; (done || nia)). apply Z.ltb_lt, start_mono; (done || lia).
Qed.

Lemma period_order sch j k :
  schedule_ok sch → index_ok sch j → index_ok sch k → j < k →
  str_le (periodEnd (period sch j)) (periodStart (period sch k)) = true.
Proof.
  intros [c Hs] Hi Hj Hjk. apply (index_ok_on _ c _ Hs) in Hi as [Hk Hb], Hj as [Hk' Hb'].
  rewrite !(period_iso sch c Hs) by lia. simpl. pose proof Hs as (? & ? & ? & Hn).
  rewrite iso_le by (apply column_start; (done || nia)). apply Z.leb_le.
  apply (start_mono_le sch c Hs); lia.
Qed.

Lemma start_inj sch j k :
  schedule_ok sch → index_ok sch j → index_ok sch k →
  periodStart (period sch j) = periodStart (period sch k) → j = k.
Proof.
  intros Hs Hj Hk E.
  assert (∀ a b, index_ok sch a → index_ok sch b → a < b →
            periodStart (period sch a) ≠ periodStart (period sch b)) as H.
  { intros a b Ha Hb Hab Eab. pose proof (period_nonempty sch a Hs Ha) as H1.
    pose proof (period_order sch a b Hs Ha Hb Hab) as H2. rewrite <- Eab in H2.
    unfold str_lt, str_le in H1, H2. rewrite str_cmp_flip in H2. lia. }
  destruct (Z.lt_trichotomy j k) as [Hlt|[?|Hlt]]; [by destruct (H j k) | done|].
  symmetry in E. by destruct (H k j).
Qed.

(** ** A concrete run: a monthly contract in advance, one flat line, a three-month term *)

Definition july_1 : Z := 1782882000000.
Definition july_15 : Z := 1784091600000.
Definition september_1 : Z := 1788238800000.
Definition september_20 : Z := 1789880400000.

Definition demo_user : ContractActor :=
  {| ka_userId := 9%N; ka_partnerId := Some 2%N; ka_accessibleOrgIds := None |}.
Definition demo_senders : Senders := {| sd_inAppThrows := λ _, false; sd_email := true |}.
Definition demo_input : ContractInput :=
  {| ci_orgId := 1%N; ci_name := "Managed services";
     ci_schedule := {| sc_billingTiming := advance; sc_intervalMonths := 1;
                       sc_startDate := "2026-07-01" |};
     ci_endDate := Some (Some "2026-10-01"%string); ci_autoIssue := None; ci_currency := None;
     ci_notes := None; ci_terms := None; ci_autoRenew := Some true;
     ci_termMonths := Some (Some 3); ci_noticeDays := None |}.
Definition demo_line : ContractLineInput :=
  {| li_lineType := flat; li_description := "Support"; li_catalogItemId := None;
     li_unitPrice := "500.00"; li_manualQuantity := None; li_siteId := None; li_taxable := true;
     li_sortOrder := None |}.

Definition no_contracts : CDB :=
  {| invoicingDb := demo_db; contracts := ∅; contractLines := ∅; billingPeriods := ∅;
     renewalNotices := ∅; orgPartner := {[ 1%N := 2%N ]}; devices := ∅;
     users := {[ 9%N := {| us_email := "msp@example.com"; us_active := true |} ]};
     organizationUsers := [(1%N, 9%N)]; partnerUsers := []; nextContractId := 1%N;
     contractEvents := []; outbox := [] |}.

Definition cafter (op : COp) (now : Z) (s : CDB) : CDB :=
  match run_cop op demo_user now s with Ok (_, s') => s' | Throw _ => s end.
Definition csucceeds (op : COp) (now : Z) (s : CDB) : bool :=
  match run_cop op demo_user now s with Ok _ => true | Throw _ => false end.

Lemma cafter_run op now s :
  csucceeds op now s = true → run_cop op demo_user now s = Ok (tt, cafter op now s).
Proof. unfold csucceeds, cafter. by destruct (run_cop op demo_user now s) as [[[] s']|]. Qed.

Definition demo_active : CDB :=
  cafter (KActivate 1) july_1 (cafter (KAddLine 1 demo_line) july_1
    (cafter (KCreate demo_input) july_1 no_contracts)).
Definition demo_billed : CDB := cafter (KGenerate 1) july_1 demo_active.
Definition demo_paused : CDB := cafter (KPause 1) july_15 demo_billed.
Definition demo_last : CDB :=
  cafter (KGenerate 1) september_1 (cafter (KGenerate 1) september_1 demo_billed).
Definition demo_noticed : CDB := cafter (KRenewals demo_senders) september_20
  (cafter (KGenerate 1) september_1 demo_billed).

Local Ltac decide_now := repeat split; vm_compute; congruence.

Definition demo_start : date := {| dy := 2026; dm := 7; dd := 1 |}.
Definition demo_schedule : Schedule := ci_schedule demo_input.

Lemma demo_schedule_on : schedule_on demo_schedule demo_start.
Proof. decide_now. Qed.

Lemma demo_step s op now :
  creachable s → op_valid op → clock_ok now → csucceeds op now s = true →
  creachable (cafter op now s).
Proof. intros. eapply cr_op; [done..|]. by apply cafter_run. Qed.

Local Ltac demo := eapply demo_step; [|done | decide_now | vm_compute; reflexivity].

Lemma demo_active_reachable : creachable demo_active.
Proof.
  do 2 demo. eapply demo_step; [by apply cr_init | | decide_now | vm_compute; reflexivity].
  eexists. apply demo_schedule_on.
Qed.
Lemma demo_billed_reachable : creachable demo_billed.
Proof. demo. apply demo_active_reachable. Qed.
Lemma demo_paused_reachable : creachable demo_paused.
Proof. demo. apply demo_billed_reachable. Qed.
Lemma demo_noticed_reachable : creachable demo_noticed.
Proof. do 2 demo. apply demo_billed_reachable. Qed.

Example demo_view :
  (λ c, (k_status c, k_nextBillingAt c, k_endDate c)) <$> contracts demo_noticed !! 1%N =
    Some (c_active, Some "2026-09-01", Some "2026-10-01")%string ∧
  (λ c, (k_status c, k_nextBillingAt c, k_endDate c)) <$> contracts demo_last !! 1%N =
    Some (c_expired, None, Some "2026-10-01")%string ∧
  sent_keys demo_noticed = [(1%N, "2026-10-01"%string, notice_advance)].
Proof. vm_compute. done. Qed.

(** The active contract, with its pointer on a given date. *)
Definition demo_row (next : string) (updated : Z) : ContractRow :=
  {| k_owner := {| ow_partnerId := 2; ow_orgId := 1; ow_createdBy := Some 9%N;
       ow_createdAt := july_1; ow_currencyCode := "USD" |};
     k_schedule := demo_schedule;
     k_details := {| dt_name := "Managed services"; dt_autoIssue := false; dt_notes := None;
       dt_terms := None |};
     k_renewal := {| rn_autoRenew := true; rn_termMonths := Some 3; rn_noticeDays := None |};
     k_status := c_active; k_endDate := Some "2026-10-01"%string; k_nextBillingAt := Some next;
     k_updatedAt := updated |}.

Lemma demo_index k : (0 <=? k) = true ∧ (k <=? 12) = true → index_ok demo_schedule k.
Proof.
  intros [?%Z.leb_le ?%Z.leb_le]. apply (index_ok_on _ _ _ demo_schedule_on).
  unfold demo_start, month_index. simpl. lia.
Qed.

Lemma demo_due : due demo_active 1 (demo_row "2026-07-01" july_1) 0 july_1.
Proof.
  constructor.
  - vm_compute; reflexivity.
  - reflexivity.
  - exists demo_start. apply demo_schedule_on.
  - by apply demo_index.
  - vm_compute; reflexivity.
  - decide_now.
  - vm_compute; reflexivity.
  - vm_compute; reflexivity.
  - vm_compute; congruence.
  - assert (lines_of_contract demo_active 1 = [(2%N, line_row 1 1 0 demo_line)]) as ->
      by (vm_compute; reflexivity).
    repeat constructor; vm_compute; reflexivity.
Qed.

Lemma demo_wf : wf (invoicingDb demo_active).
Proof. by constructor. Qed.

(** The contract on 1 September, before and in the daily job. *)
Definition demo_september : CDB := cafter (KGenerate 1) september_1 demo_billed.

Lemma demo_september_reachable : creachable demo_september.
Proof. demo. apply demo_billed_reachable. Qed.
Lemma demo_september_row :
  contracts demo_september !! 1%N = Some (demo_row "2026-09-01" september_1).
Proof. vm_compute. reflexivity. Qed.

Lemma demo_september_clock : clock_ok september_1.
Proof. decide_now. Qed.
Lemma demo_september_pointer : Some "2026-09-01"%string = Some (pointer demo_schedule 2).
Proof. vm_compute. reflexivity. Qed.
Lemma demo_september_term :
  isExpired (Some "2026-10-01"%string) (periodStart (period demo_schedule 2)) = false.
Proof. vm_compute. reflexivity. Qed.
Lemma demo_september_last :
  isExpired (Some "2026-10-01"%string) (periodStart (period demo_schedule (2 + 1))) = true.
Proof. vm_compute. reflexivity. Qed.

Lemma cok {A} (m : CM A) s (P : A → bool) :
  match m s with Ok (a, _) => P a | Throw _ => false end = true →
  ∃ a s', m s = Ok (a, s') ∧ P a = true.
Proof. destruct (m s) as [[a s']|]; [eauto | done]. Qed.

Lemma demo_september_runs :
  ∃ counts s1 inv auto actor s2,
    runContractRenewalSweep demo_senders september_1 demo_september = Ok (counts, s1) ∧
    generateDueInvoice 1 september_1 s1 = Ok (generated inv auto actor, s2).
Proof.
  destruct (cok (runContractRenewalSweep demo_senders september_1 ≫= λ x,
                 generateDueInvoice 1 september_1) demo_september
              (λ r, match r with generated _ _ _ => true | _ => false end)) as (r & s2 & H & Hr).
  { vm_compute. reflexivity. }
  apply cbind_ok in H as (counts & s1 & H1 & H2). destruct r as [|inv auto actor]; [done|].
  exists counts, s1, inv, auto, actor, s2. split; assumption.
Qed.

(** ** Helpers for the findings *)

(** A term that the due period does not reach is not extended. *)
Lemma not_lapsing today c k e t :
  sc_billingTiming (k_schedule c) = advance →
  k_nextBillingAt c = Some (pointer (k_schedule c) k) →
  isExpired (Some e) (periodStart (period (k_schedule c) k)) = false → ¬ lapsing today c e t.
Proof.
  intros Ht Hn He (d & Hd & _ & _ & Hex). rewrite Hn in Hd. injection Hd as <-.
  unfold pointer, nextBillingDate in Hex. rewrite Ht in Hex. unfold duePeriodStartFor in Hex.
  change (computePeriod _ _ k) with (period (k_schedule c) k) in Hex.
  unfold extendTermPastDue in Hex. by destruct (Z.to_nat 100000); cbn [extend_walk] in Hex; rewrite He in Hex.
Qed.

(** The result of a run at a due pointer inside the term, of a contract with lines. *)
Lemma generate_due s i c k now r s' :
  cinv s → contracts s !! i = Some c → k_status c = c_active → index_ok (k_schedule c) k →
  k_nextBillingAt c = Some (pointer (k_schedule c) k) → clock_ok now →
  str_lt (todayISO now) (pointer (k_schedule c) k) = false →
  isExpired (k_endDate c) (periodStart (period (k_schedule c) k)) = false →
  generateDueInvoice i now s = Ok (r, s') →
  r = skipped not_due ∧ s' = s ∨
  bill_period i c k (lines_of_contract s i) now s = Ok (r, s') ∧ index_ok (k_schedule c) (k + 1).
Proof.
  intros HI Hi Ha Hk Hn Hclk Hday Hterm H. destruct (ci_rows _ HI i c Hi) as (_ & Hs & _).
  destruct (due_pointer _ _ _ Hs Hclk Hk Hday) as [Eidx Hk1].
  unfold generateDueInvoice in H. crun H. rewrite Hi, Hn, bool_decide_true in H by done.
  cbn [negb] in H. cbv zeta in H. rewrite Hday, Eidx in H.
  change (computePeriod _ _ k) with (period (k_schedule c) k) in H. rewrite Hterm in H.
  destruct (lines_of_contract s i); [left; by cruns H | by right].
Qed.

(** A run at a claimed period leaves contracts and claims as they are. *)
Lemma generate_claimed s i c k now r s' :
  cinv s → contracts s !! i = Some c → k_status c = c_active → index_ok (k_schedule c) k →
  k_nextBillingAt c = Some (pointer (k_schedule c) k) → clock_ok now →
  isExpired (k_endDate c) (periodStart (period (k_schedule c) k)) = false →
  is_Some (billingPeriods s !! (i, periodStart (period (k_schedule c) k))) →
  generateDueInvoice i now s = Ok (r, s') →
  (r = skipped not_due ∨ r = skipped already_billed) ∧
  contracts s' = contracts s ∧ same_claims s s'.
Proof.
  intros HI Hi Ha Hk Hn Hclk Hterm [bp Hbp] H.
  destruct (str_lt (todayISO now) (pointer (k_schedule c) k)) eqn:Hday.
  { unfold generateDueInvoice in H. crun H. rewrite Hi, Hn, bool_decide_true in H by done.
    cbn [negb] in H. rewrite Hday in H. cruns H. split; [by left | done]. }
  eapply generate_due in H as [[-> ->]|[H Hk1]]; [by split; [left|]|..]; [|done..].
  apply bill_period_cases in H as (inv & d & H); [|done..]. rewrite Hbp in H.
  destruct H as [-> ->]. split; [by right|]. split; [done|]. apply forget_claims.
Qed.

(** Any number of later billing runs of one contract. *)
Fixpoint billing_runs (i : id) (nows : list Z) : CM (list GenerateResult) :=
  match nows with
  | [] => mret []
  | now :: nows => r ← generateDueInvoice i now; rs ← billing_runs i nows; mret (r :: rs)
  end.

Lemma billing_runs_stall i c k nows : ∀ s rs s',
  cinv s → contracts s !! i = Some c → k_status c = c_active → index_ok (k_schedule c) k →
  k_nextBillingAt c = Some (pointer (k_schedule c) k) → Forall clock_ok nows →
  isExpired (k_endDate c) (periodStart (period (k_schedule c) k)) = false →
  is_Some (billingPeriods s !! (i, periodStart (period (k_schedule c) k))) →
  billing_runs i nows s = Ok (rs, s') →
  Forall (λ r, r = skipped not_due ∨ r = skipped already_billed) rs ∧
  contracts s' = contracts s ∧ same_claims s s'.
Proof.
  induction nows as [|now nows IH]; intros s rs s' HI Hi Ha Hk Hn Hclk Hterm Hbp H; simpl in H.
  { by crun H. }
  apply Forall_cons in Hclk as [Hclk Hclks]. apply cbind_ok in H as (r & s1 & H1 & H).
  apply cbind_ok in H as (rs' & s2 & H2 & H). crun H.
  pose proof (generateDueInvoice_steps _ _ _ _ _ H1 HI Hclk) as Hst.
  eapply generate_claimed in H1 as (Hr & Ec & Hcl); [|done..].
  eapply (IH s1) in H2 as (Hrs & Ec2 & Hcl2); try done.
  - split; [by constructor|]. split; [congruence|]. intros key. by rewrite Hcl2, Hcl.
  - by eapply csteps_inv.
  - by rewrite Ec.
  - specialize (Hcl (i, periodStart (period (k_schedule c) k))). destruct Hbp as [bp Hbp].
    rewrite Hbp in Hcl. simpl in Hcl. by apply fmap_Some in Hcl as (bp' & ? & _).
Qed.

(** The paused contract on 15 July, in the period it is billed for. *)
Lemma demo_paused_row :
  contracts demo_paused !! 1%N = Some (with_lifecycle c_paused None july_15 (demo_row "2026-08-01" july_1)).
Proof. vm_compute. reflexivity. Qed.
Lemma demo_july_clock : clock_ok july_15.
Proof. decide_now. Qed.
Lemma demo_clocks : Forall clock_ok [july_15; september_1; september_20].
Proof. repeat (apply Forall_cons; split); [decide_now..|done]. Qed.
Definition demo_paused_index : Z :=
  periodIndexFor (sc_startDate demo_schedule) (sc_intervalMonths demo_schedule) (todayISO july_15).
Lemma demo_paused_term :
  isExpired (Some "2026-10-01"%string) (periodStart (period demo_schedule demo_paused_index)) = false.
Proof. vm_compute. reflexivity. Qed.
Lemma demo_paused_claim :
  is_Some (billingPeriods demo_paused !! (1%N, periodStart (period demo_schedule demo_paused_index))).
Proof. eexists. vm_compute. reflexivity. Qed.

Lemma demo_resumed_runs :
  ∃ s1 rs s2, resumeContract 1 demo_user (todayISO july_15) july_15 demo_paused = Ok (tt, s1) ∧
    billing_runs 1 [july_15; september_1; september_20] s1 = Ok (rs, s2).
Proof.
  destruct (cok (resumeContract 1 demo_user (todayISO july_15) july_15 ≫= λ x,
                 billing_runs 1 [july_15; september_1; september_20]) demo_paused (λ _, true))
    as (rs & s2 & H & _); [vm_compute; reflexivity|].
  apply cbind_ok in H as ([] & s1 & H1 & H2). exists s1, rs, s2. split; assumption.
Qed.

(** Each of the three runs finds July billed. *)
Example demo_resumed_skips :
  match (resumeContract 1 demo_user (todayISO july_15) july_15 ≫= λ x,
         billing_runs 1 [july_15; september_1; september_20]) demo_paused with
  | Ok (rs, _) => rs = [skipped already_billed; skipped already_billed; skipped already_billed]
  | Throw _ => False
  end.
Proof. vm_compute. reflexivity. Qed.

(** ** Claims *)

(** The first period of the contract, on its first day. *)
Lemma generateDueInvoice_bills_period_witness :
  ∃ r s', generateDueInvoice 1 july_1 demo_active = Ok (r, s') ∧
    r = generated 100 false (contract_actor (demo_row "2026-07-01" july_1)) ∧
    billed_period demo_active 1 (demo_row "2026-07-01" july_1) 0 s'.
Proof.
  exact (generateDueInvoice_bills_period demo_active 1 (demo_row "2026-07-01" july_1) 0 july_1
           demo_due demo_wf).
Defined.

(** C13 (contractService.ts and contractWorker.ts): in every reachable state the periods
    billed for a contract are non-empty, and two of them never share a day: one ends on or
    before the start of the other. *)
Theorem billed_periods_disjoint s i st1 st2 bp1 bp2 :
  creachable s → billingPeriods s !! (i, st1) = Some bp1 → billingPeriods s !! (i, st2) = Some bp2 →
  str_lt st1 (bp_periodEnd bp1) = true ∧
  (st1 = st2 ∨ str_le (bp_periodEnd bp1) st2 = true ∨ str_le (bp_periodEnd bp2) st1 = true).
Proof.
  intros HR%creachable_inv H1 H2.
  destruct (ci_claims _ HR _ _ _ H1) as (c & k1 & Hi & _ & Hk1 & E1).
  destruct (ci_claims _ HR _ _ _ H2) as (c' & k2 & Hi' & _ & Hk2 & E2). simplify_eq.
  destruct (ci_rows _ HR i c Hi) as (_ & Hs & _).
  pose proof (period_nonempty _ k1 Hs Hk1) as Hne. rewrite E1 in Hne. split; [done|].
  destruct (Z.lt_trichotomy k1 k2) as [Hlt|[->|Hlt]].
  - pose proof (period_order _ _ _ Hs Hk1 Hk2 Hlt) as Ho. rewrite E1, E2 in Ho. by right; left.
  - left. congruence.
  - pose proof (period_order _ _ _ Hs Hk2 Hk1 Hlt) as Ho. rewrite E1, E2 in Ho. by right; right.
Qed.

(** The periods of July and August. *)
Lemma billed_periods_disjoint_witness :
  let s := demo_september in
  ∃ bp1 bp2, billingPeriods s !! (1%N, "2026-07-01"%string) = Some bp1 ∧
    billingPeriods s !! (1%N, "2026-08-01"%string) = Some bp2 ∧
    str_lt "2026-07-01" (bp_periodEnd bp1) = true ∧
    ("2026-07-01"%string = "2026-08-01"%string ∨ str_le (bp_periodEnd bp1) "2026-08-01" = true ∨
     str_le (bp_periodEnd bp2) "2026-07-01" = true).
Proof.
  intros s. eexists _, _. split; [vm_compute; reflexivity|]. split; [vm_compute; reflexivity|].
  apply (billed_periods_disjoint s 1); [apply demo_september_reachable | vm_compute; reflexivity..].
Defined.

(** (the daily job: contractRenewal.ts, then contractService.ts): when the period
    being billed is the last one that starts before the end date, the renewal sweep of the
    same day does not touch the contract and the billing run expires it, whatever its
    renewal settings; so a contract billed in advance that is marked to renew ends with
    its term instead of rolling forward. *)
Theorem autoRenew_contract_expires s i c k now sd counts s1 inv auto actor s2 :
  creachable s → contracts s !! i = Some c → k_status c = c_active →
  sc_billingTiming (k_schedule c) = advance →
  k_nextBillingAt c = Some (pointer (k_schedule c) k) → index_ok (k_schedule c) k → clock_ok now →
  isExpired (k_endDate c) (periodStart (period (k_schedule c) k)) = false →
  isExpired (k_endDate c) (periodStart (period (k_schedule c) (k + 1))) = true →
  runContractRenewalSweep sd now s = Ok (counts, s1) →
  generateDueInvoice i now s1 = Ok (generated inv auto actor, s2) →
  contracts s1 !! i = Some c ∧
  ∃ c2, contracts s2 !! i = Some c2 ∧ k_status c2 = c_expired ∧ k_endDate c2 = k_endDate c ∧
        k_nextBillingAt c2 = None.
Proof.
  intros HR%creachable_inv Hi Ha Ht Hn Hk Hclk Hin Hlast Hsweep Hgen.
  apply renewal_sweep_steps in Hsweep as [Hst Hkeep].
  assert (contracts s1 !! i = Some c) as Hi1.
  { apply Hkeep; [done|]. intros e t He _. apply (not_lapsing _ _ k); [done..|]. by rewrite <- He. }
  split; [done|]. destruct (str_lt (todayISO now) (pointer (k_schedule c) k)) eqn:Hday.
  { unfold generateDueInvoice in Hgen. crun Hgen. rewrite Hi1, Hn, bool_decide_true in Hgen by done.
    cbn [negb] in Hgen. by rewrite Hday in Hgen. }
  eapply generate_due in Hgen as [[[=] _]|[Hgen Hk1]]; try done; [|by eapply csteps_inv].
  apply bill_period_cases in Hgen as (inv' & d & Hcase); [|done..].
  destruct (billingPeriods s1 !! _); [by destruct Hcase|].
  destruct Hcase as (_ & _ & _ & _ & _ & c2 & Ec & [_ Hm] & Ee & Est).
  rewrite Hlast in Est. exists c2. rewrite Ec, lookup_insert_eq. split_and!; try done.
  destruct Hm as [(? & _)|(_ & ?)]; congruence.
Qed.

(** On 1 September the contract, set to renew for three months from 1 October, expires. *)
Lemma autoRenew_contract_expires_witness :
  rn_autoRenew (k_renewal (demo_row "2026-09-01" september_1)) = true ∧
  ∃ counts s1 inv auto actor s2,
    runContractRenewalSweep demo_senders september_1 demo_september = Ok (counts, s1) ∧
    generateDueInvoice 1 september_1 s1 = Ok (generated inv auto actor, s2) ∧
    contracts s1 !! 1%N = Some (demo_row "2026-09-01" september_1) ∧
    ∃ c2, contracts s2 !! 1%N = Some c2 ∧ k_status c2 = c_expired ∧
          k_endDate c2 = Some "2026-10-01"%string ∧ k_nextBillingAt c2 = None.
Proof.
  split; [reflexivity|]. destruct demo_september_runs as (counts & s1 & inv & auto & actor & s2 & H1 & H2).
  exists counts, s1, inv, auto, actor, s2. split; [exact H1|]. split; [exact H2|].
  exact (autoRenew_contract_expires demo_september 1 (demo_row "2026-09-01" september_1) 2 september_1
           demo_senders counts s1 inv auto actor s2 demo_september_reachable demo_september_row
           eq_refl eq_refl demo_september_pointer (demo_index 2 (conj eq_refl eq_refl))
           demo_september_clock demo_september_term demo_september_last H1 H2).
Defined.

(** (contractRenewal.ts): over any history of operations and daily jobs, the notice
    for a contract, an end date and a kind is sent at most once. *)
Theorem renewal_notice_once s : creachable s → NoDup (sent_keys s).
Proof. intros HR%creachable_inv. apply (ci_sent _ HR). Qed.

Lemma renewal_notice_once_witness :
  sent_keys demo_noticed = [(1%N, "2026-10-01"%string, notice_advance)] ∧ NoDup (sent_keys demo_noticed).
Proof.
  split; [vm_compute; reflexivity|]. apply (renewal_notice_once demo_noticed demo_noticed_reachable).
Defined.

(** (resumeContract and generateDueInvoice, contractService.ts): a contract that is
    paused and resumed within a period it was already billed for (in advance) gets its
    pointer back on that period, and however many billing runs follow, on whatever days,
    each is skipped and the pointer and the claims never move again. *)
Theorem resume_in_billed_period_stalls s i c actor now s1 nows rs s2 :
  creachable s → contracts s !! i = Some c → clock_ok now → Forall clock_ok nows →
  let k := periodIndexFor (sc_startDate (k_schedule c)) (sc_intervalMonths (k_schedule c)) (todayISO now) in
  isExpired (k_endDate c) (periodStart (period (k_schedule c) k)) = false →
  is_Some (billingPeriods s !! (i, periodStart (period (k_schedule c) k))) →
  resumeContract i actor (todayISO now) now s = Ok (tt, s1) →
  billing_runs i nows s1 = Ok (rs, s2) →
  Forall (λ r, r = skipped not_due ∨ r = skipped already_billed) rs ∧
  contracts s2 = contracts s1 ∧ same_claims s s2.
Proof.
  intros HR%creachable_inv Hi Hclk Hclks k Hterm Hbp Hres Hruns.
  pose proof (resumeContract_steps _ _ _ _ _ _ Hres HR Hclk) as Hst.
  pose proof (csteps_inv _ _ HR Hst) as HI1.
  unfold resumeContract in Hres. cruns Hres. simplify_eq. injection Hres as <-.
  eapply (billing_runs_stall i _ k) in Hruns; [exact Hruns | exact HI1 | ..].
  - simpl. erewrite alter_as_insert by done. apply lookup_insert_eq.
  - done.
  - apply index_of_today; [|done]. by eapply (ci_rows _ HR).
  - done.
  - done.
  - done.
  - done.
Qed.

(** Paused on 15 July and resumed the same day; runs in July and in September. *)
Lemma resume_in_billed_period_stalls_witness :
  ∃ c s1 rs s2, contracts demo_paused !! 1%N = Some c ∧
    resumeContract 1 demo_user (todayISO july_15) july_15 demo_paused = Ok (tt, s1) ∧
    billing_runs 1 [july_15; september_1; september_20] s1 = Ok (rs, s2) ∧
    Forall (λ r, r = skipped not_due ∨ r = skipped already_billed) rs ∧
    contracts s2 = contracts s1 ∧ same_claims demo_paused s2.
Proof.
  destruct demo_resumed_runs as (s1 & rs & s2 & H1 & H2).
  exists (with_lifecycle c_paused None july_15 (demo_row "2026-08-01" july_1)), s1, rs, s2.
  split; [exact demo_paused_row|]. split; [exact H1|]. split; [exact H2|].
  exact (resume_in_billed_period_stalls demo_paused 1 _ demo_user july_15 s1
           [july_15; september_1; september_20] rs s2 demo_paused_reachable demo_paused_row
           demo_july_clock demo_clocks demo_paused_term demo_paused_claim H1 H2).
Defined.
