(* ===== verification/Quotes.v ===== *)
(** * Quotes ([services/quoteService.ts], [quoteLifecycle.ts], [quoteAcceptService.ts],
    [quoteToContract.ts], [quoteNumbers.ts], [quoteContentHash.ts],
    [acceptanceProvider.ts], [quotePay.ts], [jobs/quoteExpiryReaper.ts]).

    The tables of quotes sit on top of the tables of contracts and invoicing: accepting a
    quote writes an invoice and draft contracts through [in_contracts].  A handler yields
    an error or a result together with the tables it has written; [request] is the
    transaction around it, which on an error keeps only the quote counter, because the
    counter is allocated in a transaction of its own. *)

From S2P Require Import Prelude JsNum Money Calendar InvoiceDb Invoices Contracts.

Open Scope Z_scope.

(** ** Data ([db/schema/quotes.ts], [quoteTypes.ts]) *)

Inductive QuoteStatus :=
| qs_draft | qs_sent | qs_viewed | qs_accepted | qs_declined | qs_expired | qs_converted.
#[export] Instance QuoteStatus_eq_dec : EqDecision QuoteStatus.
Proof. solve_decision. Defined.

Inductive QuoteSourceType := qsrc_catalog | qsrc_bundle | qsrc_manual.
Inductive BlockType := heading | rich_text | image | line_items.

(** Columns written together are grouped. *)
Record QuoteOrigin := {
  qo_partnerId : id; qo_orgId : id; qo_currencyCode : string; qo_createdBy : option id;
  qo_createdAt : Z }.
Record QuoteHeader := {
  qh_siteId : option id; qh_expiryDate : text; qh_introNotes : text; qh_terms : text;
  qh_termsAndConditions : text; qh_billToName : text; qh_taxRate : text }.
Record QuoteAmounts := {
  qa_subtotal : string; qa_taxTotal : string; qa_total : string; qa_oneTimeTotal : string;
  qa_monthlyTotal : string; qa_annualTotal : string }.
Record QuoteIssue := {
  qi_number : text; qi_issueDate : text; qi_sentAt : option Z;
  qi_seller : option SellerSnapshot; qi_billToAddress : option Address; qi_billToTaxId : text }.
Record QuoteStamps := {
  qt_firstViewedAt : option Z; qt_viewedAt : option Z; qt_acceptedAt : option Z;
  qt_declinedAt : option Z; qt_declineReason : text; qt_convertedAt : option Z;
  qt_convertedInvoiceId : option id; qt_updatedAt : Z }.

Record Quote := {
  q_origin : QuoteOrigin; q_header : QuoteHeader; q_amounts : QuoteAmounts;
  q_issue : QuoteIssue; q_status : QuoteStatus; q_stamps : QuoteStamps }.

Definition q_orgId (q : Quote) : id := qo_orgId (q_origin q).
Definition q_partnerId (q : Quote) : id := qo_partnerId (q_origin q).
Definition q_expiryDate (q : Quote) : text := qh_expiryDate (q_header q).

Record QuoteLine := {
  qln_quoteId : id; qln_orgId : id; qln_blockId : option id; qln_sourceType : QuoteSourceType;
  qln_catalogItemId : option id; qln_description : string; qln_quantity : string;
  qln_unitPrice : string; qln_taxable : bool; qln_customerVisible : bool;
  qln_lineTotal : string; qln_recurrence : Recurrence; qln_termMonths : option Z;
  qln_billingFrequency : text; qln_sortOrder : Z }.

(** The JSON content of a block is kept as its text. *)
Record QuoteBlock := {
  qb_quoteId : id; qb_orgId : id; qb_blockType : BlockType; qb_content : string;
  qb_sortOrder : Z }.

Record Acceptance := {
  qc_quoteId : id; qc_orgId : id; qc_signerName : string; qc_signerEmail : text;
  qc_signedAt : Z; qc_ipAddress : text; qc_userAgent : text; qc_quoteSha256 : string;
  qc_tokenJti : text }.

(** The billing columns of a catalog item. *)
Record CatalogBilling := {
  cb_recurring : bool; cb_frequency : text; cb_termMonths : option Z }.

Record QDB := {
  contractsDb : CDB;
  quotes : gmap id Quote; quoteBlocks : gmap id QuoteBlock; quoteLines : gmap id QuoteLine;
  quoteAcceptances : gmap id Acceptance;
  catalogBilling : gmap id CatalogBilling;
  quoteSequences : gmap (id * Z) Z;                      (* partner_quote_sequences *)
  nextQuoteId : id }.

Definition invoices_of (s : QDB) : DB := invoicingDb (contractsDb s).

(** ** Errors and the handler monad *)

Inductive QuoteError :=
| Q_PARTNER_UNRESOLVABLE | Q_ORG_DENIED | QUOTE_NOT_FOUND | Q_NOT_A_DRAFT | Q_LINE_NOT_FOUND
| CATALOG_ITEM_NOT_FOUND | Q_INVALID_STATE | QUOTE_EXPIRED | NOT_CONVERTED
| Q_SIGNER_REQUIRED                      (* capture: a blank typed signature *)
| Q_TERM                                 (* addMonthsToDate: not a date, or not a month count *)
| Q_TOKEN                                (* signing the accept token failed *)
| Q_BAD_DATE                             (* a year that is not a number *)
| Q_CONTRACT (e : ContractError).        (* raised by the contract or invoice service *)
#[export] Instance QuoteError_eq_dec : EqDecision QuoteError.
Proof. solve_decision. Defined.

Definition QM (A : Type) : Type := QDB → outcome QuoteError A * QDB.
#[export] Instance QM_ret : MRet QM := λ A a s, (Ok a, s).
#[export] Instance QM_bind : MBind QM := λ A B k m s,
  match m s with (Ok a, s') => k a s' | (Throw e, s') => (Throw e, s') end.

Definition q_throw {A} (e : QuoteError) : QM A := λ s, (Throw e, s).
Definition q_require (b : bool) (e : QuoteError) : QM unit := if b then mret tt else q_throw e.
Definition q_get : QM QDB := λ s, (Ok s, s).
Definition q_modify (f : QDB → QDB) : QM unit := λ s, (Ok tt, f s).

(** ** Writes *)

Definition with_contracts (c : CDB) (s : QDB) : QDB :=
  {| contractsDb := c; quotes := quotes s; quoteBlocks := quoteBlocks s;
     quoteLines := quoteLines s; quoteAcceptances := quoteAcceptances s;
     catalogBilling := catalogBilling s; quoteSequences := quoteSequences s;
     nextQuoteId := nextQuoteId s |}.
Definition set_quotes (g : gmap id Quote → gmap id Quote) (s : QDB) : QDB :=
  {| contractsDb := contractsDb s; quotes := g (quotes s); quoteBlocks := quoteBlocks s;
     quoteLines := quoteLines s; quoteAcceptances := quoteAcceptances s;
     catalogBilling := catalogBilling s; quoteSequences := quoteSequences s;
     nextQuoteId := nextQuoteId s |}.
Definition set_content (gb : gmap id QuoteBlock → gmap id QuoteBlock)
    (gl : gmap id QuoteLine → gmap id QuoteLine) (s : QDB) : QDB :=
  {| contractsDb := contractsDb s; quotes := quotes s; quoteBlocks := gb (quoteBlocks s);
     quoteLines := gl (quoteLines s); quoteAcceptances := quoteAcceptances s;
     catalogBilling := catalogBilling s; quoteSequences := quoteSequences s;
     nextQuoteId := nextQuoteId s |}.
Definition set_acceptances (g : gmap id Acceptance → gmap id Acceptance) (s : QDB) : QDB :=
  {| contractsDb := contractsDb s; quotes := quotes s; quoteBlocks := quoteBlocks s;
     quoteLines := quoteLines s; quoteAcceptances := g (quoteAcceptances s);
     catalogBilling := catalogBilling s; quoteSequences := quoteSequences s;
     nextQuoteId := nextQuoteId s |}.
Definition set_sequences (g : gmap (id * Z) Z → gmap (id * Z) Z) (s : QDB) : QDB :=
  {| contractsDb := contractsDb s; quotes := quotes s; quoteBlocks := quoteBlocks s;
     quoteLines := quoteLines s; quoteAcceptances := quoteAcceptances s;
     catalogBilling := catalogBilling s; quoteSequences := g (quoteSequences s);
     nextQuoteId := nextQuoteId s |}.

Definition q_fresh : QM id := λ s,
  (Ok (nextQuoteId s),
   {| contractsDb := contractsDb s; quotes := quotes s; quoteBlocks := quoteBlocks s;
      quoteLines := quoteLines s; quoteAcceptances := quoteAcceptances s;
      catalogBilling := catalogBilling s; quoteSequences := quoteSequences s;
      nextQuoteId := N.succ (nextQuoteId s) |}).

(** The transaction of a request. *)
Definition request {A} (m : QM A) : QM A := λ s,
  match m s with
  | (Ok a, s') => (Ok a, s')
  | (Throw e, s') => (Throw e, set_sequences (λ _, quoteSequences s') s)
  end.

(** A call of the contract or the invoice service. *)
Definition in_contracts {A} (m : CM A) : QM A := λ s,
  match m (contractsDb s) with
  | Ok (a, c) => (Ok a, with_contracts c s)
  | Throw e => (Throw (Q_CONTRACT e), s)
  end.
Definition in_invoicing {A} (m : M A) : QM A := in_contracts (invoicing m).

Definition update_quote (i : id) (f : Quote → Quote) : QM unit := q_modify (set_quotes (alter f i)).

Definition with_header_q (f : QuoteHeader → QuoteHeader) (q : Quote) : Quote :=
  {| q_origin := q_origin q; q_header := f (q_header q); q_amounts := q_amounts q;
     q_issue := q_issue q; q_status := q_status q; q_stamps := q_stamps q |}.
Definition with_amounts_q (a : QuoteAmounts) (q : Quote) : Quote :=
  {| q_origin := q_origin q; q_header := q_header q; q_amounts := a;
     q_issue := q_issue q; q_status := q_status q; q_stamps := q_stamps q |}.
Definition with_status_q (st : QuoteStatus) (f : QuoteStamps → QuoteStamps) (q : Quote) : Quote :=
  {| q_origin := q_origin q; q_header := q_header q; q_amounts := q_amounts q;
     q_issue := q_issue q; q_status := st; q_stamps := f (q_stamps q) |}.
Definition touched (now : Z) (t : QuoteStamps) : QuoteStamps :=
  {| qt_firstViewedAt := qt_firstViewedAt t; qt_viewedAt := qt_viewedAt t;
     qt_acceptedAt := qt_acceptedAt t; qt_declinedAt := qt_declinedAt t;
     qt_declineReason := qt_declineReason t; qt_convertedAt := qt_convertedAt t;
     qt_convertedInvoiceId := qt_convertedInvoiceId t; qt_updatedAt := now |}.
Definition touch (now : Z) (q : Quote) : Quote := with_status_q (q_status q) (touched now) q.

(** ** Guards *)

Record QuoteActor := {
  qx_userId : option id; qx_partnerId : option id; qx_accessibleOrgIds : option (list id) }.

Definition resolvePartner (actor : QuoteActor) : QM id :=
  match qx_partnerId actor with Some p => mret p | None => q_throw Q_PARTNER_UNRESOLVABLE end.

Definition q_org_accessible (actor : QuoteActor) (orgId : id) : bool :=
  match qx_accessibleOrgIds actor with None => true | Some l => bool_decide (orgId ∈ l) end.

Definition assertOrg (actor : QuoteActor) (orgId : id) : QM unit :=
  q_require (q_org_accessible actor orgId) Q_ORG_DENIED.

Definition find_quote (i : id) : QM Quote :=
  s ← q_get; match quotes s !! i with Some q => mret q | None => q_throw QUOTE_NOT_FOUND end.

Definition loadDraft (i : id) (actor : QuoteActor) : QM Quote :=
  q ← find_quote i;
  assertOrg actor (q_orgId q);;
  q_require (bool_decide (q_status q = qs_draft)) Q_NOT_A_DRAFT;;
  mret q.

(** ** Totals *)

Definition lines_of_quote (s : QDB) (i : id) : list (id * QuoteLine) :=
  order_by (λ a b, qln_sortOrder a.2 <=? qln_sortOrder b.2)
    (filter (λ l, qln_quoteId l.2 = i) (map_to_list (quoteLines s))).
Definition blocks_of_quote (s : QDB) (i : id) : list (id * QuoteBlock) :=
  order_by (λ a b, qb_sortOrder a.2 <=? qb_sortOrder b.2)
    (filter (λ b, qb_quoteId b.2 = i) (map_to_list (quoteBlocks s))).

Definition for_math (l : QuoteLine) : QuoteLineForMath :=
  {| ql_quantity := qln_quantity l; ql_unitPrice := qln_unitPrice l; ql_taxable := qln_taxable l;
     ql_customerVisible := qln_customerVisible l; ql_recurrence := qln_recurrence l |}.

(** [taxRate ? parseFloat(taxRate) : null]. *)
Definition rate_number (t : text) : option num :=
  match t with None | Some EmptyString => None | Some r => Some (Number r) end.

Definition recomputeAndPersist (i : id) (now : Z) : QM unit :=
  s ← q_get;
  let rate := rate_number (quotes s !! i ≫= λ q, qh_taxRate (q_header q)) in
  let ls := filter (λ l, qln_quoteId l.2 = i) (map_to_list (quoteLines s)) in
  let totals := computeQuoteTotals ((for_math ∘ snd) <$> ls) rate in
  update_quote i (λ q, touch now (with_amounts_q
    {| qa_subtotal := q_subtotal totals; qa_taxTotal := q_taxTotal totals;
       qa_total := q_total totals; qa_oneTimeTotal := q_oneTimeTotal totals;
       qa_monthlyTotal := q_monthlyRecurringTotal totals;
       qa_annualTotal := q_annualRecurringTotal totals |} q)).

(** [COALESCE(MAX(sort_order), -1)]. *)
Definition max_order (orders : list Z) : Z :=
  match orders with [] => -1 | z :: zs => foldr Z.max z zs end.
Definition nextBlockSortOrder (s : QDB) (i : id) : Z :=
  max_order ((λ b, qb_sortOrder b.2) <$> blocks_of_quote s i) + 1.
Definition nextLineSortOrder (s : QDB) (i : id) : Z :=
  max_order ((λ l, qln_sortOrder l.2) <$> lines_of_quote s i) + 1.

(** ** Drafting *)

Record CreateQuoteInput := {
  cq_orgId : id; cq_siteId : option id; cq_currencyCode : string; cq_expiryDate : text;
  cq_introNotes : text; cq_terms : text; cq_termsAndConditions : text }.

Definition zero_amounts : QuoteAmounts :=
  {| qa_subtotal := "0"; qa_taxTotal := "0"; qa_total := "0"; qa_oneTimeTotal := "0";
     qa_monthlyTotal := "0"; qa_annualTotal := "0" |}.
Definition no_stamps (now : Z) : QuoteStamps :=
  {| qt_firstViewedAt := None; qt_viewedAt := None; qt_acceptedAt := None;
     qt_declinedAt := None; qt_declineReason := None; qt_convertedAt := None;
     qt_convertedInvoiceId := None; qt_updatedAt := now |}.

Definition createQuote (input : CreateQuoteInput) (actor : QuoteActor) (now : Z) : QM id :=
  partnerId ← resolvePartner actor;
  assertOrg actor (cq_orgId input);;
  i ← q_fresh;
  q_modify (set_quotes <[i :=
    {| q_origin := {| qo_partnerId := partnerId; qo_orgId := cq_orgId input;
         qo_currencyCode := cq_currencyCode input; qo_createdBy := qx_userId actor;
         qo_createdAt := now |};
       q_header := {| qh_siteId := cq_siteId input; qh_expiryDate := cq_expiryDate input;
         qh_introNotes := cq_introNotes input; qh_terms := cq_terms input;
         qh_termsAndConditions := cq_termsAndConditions input; qh_billToName := None;
         qh_taxRate := None |};
       q_amounts := zero_amounts;
       q_issue := {| qi_number := None; qi_issueDate := None; qi_sentAt := None;
         qi_seller := None; qi_billToAddress := None; qi_billToTaxId := None |};
       q_status := qs_draft; q_stamps := no_stamps now |}]>);;
  mret i.

Record QuoteView := {
  qv_quote : Quote; qv_dueOnAcceptance : string; qv_blocks : list (id * QuoteBlock);
  qv_lines : list (id * QuoteLine) }.

Definition getQuote (i : id) (actor : QuoteActor) : QM QuoteView :=
  q ← find_quote i;
  assertOrg actor (q_orgId q);;
  s ← q_get;
  let ls := lines_of_quote s i in
  let totals := computeQuoteTotals ((for_math ∘ snd) <$> ls) (rate_number (qh_taxRate (q_header q))) in
  mret {| qv_quote := q; qv_dueOnAcceptance := q_dueOnAcceptanceTotal totals;
          qv_blocks := blocks_of_quote s i; qv_lines := ls |}.

Definition quote_before (a b : id * Quote) : bool :=
  let ca := qo_createdAt (q_origin a.2) in
  let cb := qo_createdAt (q_origin b.2) in
  (cb <? ca) || ((ca =? cb) && (b.1 <? a.1)%N).

Definition listQuotes (orgId : option id) (status : option QuoteStatus) (limit : nat)
    (cursor : option id) (actor : QuoteActor) : QM (list (id * Quote)) :=
  match orgId with Some o => assertOrg actor o | None => mret tt end;;
  s ← q_get;
  let matches (r : id * Quote) : bool :=
    match orgId with Some o => bool_decide (q_orgId r.2 = o) | None => true end &&
    match status with Some st => bool_decide (q_status r.2 = st) | None => true end &&
    match cursor ≫= λ c, pair c <$> quotes s !! c with
    | Some c => quote_before c r | None => true end in
  mret (take limit (order_by quote_before
    (filter (λ r, matches r = true) (map_to_list (quotes s))))).

(** [undefined] keeps the column, [null] clears it. *)
Record UpdateQuoteInput := {
  uq_siteId : option (option id); uq_expiryDate : option text; uq_introNotes : option text;
  uq_terms : option text; uq_termsAndConditions : option text; uq_billToName : option text;
  uq_taxRate : option (option num) }.

Definition patched_header (u : UpdateQuoteInput) (h : QuoteHeader) : QuoteHeader :=
  {| qh_siteId := null_or (uq_siteId u) (qh_siteId h);
     qh_expiryDate := null_or (uq_expiryDate u) (qh_expiryDate h);
     qh_introNotes := null_or (uq_introNotes u) (qh_introNotes h);
     qh_terms := null_or (uq_terms u) (qh_terms h);
     qh_termsAndConditions := null_or (uq_termsAndConditions u) (qh_termsAndConditions h);
     qh_billToName := null_or (uq_billToName u) (qh_billToName h);
     qh_taxRate := match uq_taxRate u with
                   | None => qh_taxRate h | Some r => toFixed 3 <$> r end |}.

Definition updateQuote (i : id) (u : UpdateQuoteInput) (actor : QuoteActor) (now : Z) : QM Quote :=
  loadDraft i actor;;
  update_quote i (λ q, touch now (with_header_q (patched_header u) q));;
  recomputeAndPersist i now;;
  find_quote i.

(** Blocks, lines and acceptances go with their quote. *)
Definition deleteDraftQuote (i : id) (actor : QuoteActor) : QM unit :=
  loadDraft i actor;;
  q_modify (λ s, set_acceptances (filter (λ a, qc_quoteId a.2 ≠ i))
    (set_content (filter (λ b, qb_quoteId b.2 ≠ i)) (filter (λ l, qln_quoteId l.2 ≠ i))
      (set_quotes (delete i) s))).

(** ** Blocks and lines *)

Definition addBlock (i : id) (blockType : BlockType) (content : string) (actor : QuoteActor)
    : QM id :=
  q ← loadDraft i actor;
  s ← q_get;
  b ← q_fresh;
  q_modify (set_content <[b := {| qb_quoteId := i; qb_orgId := q_orgId q;
    qb_blockType := blockType; qb_content := content;
    qb_sortOrder := nextBlockSortOrder s i |}]> (λ l, l));;
  mret b.

(** Deleting a block sets the [block_id] of lines of other quotes to null. *)
Definition unblock (b : id) (l : QuoteLine) : QuoteLine :=
  {| qln_quoteId := qln_quoteId l; qln_orgId := qln_orgId l;
     qln_blockId := if bool_decide (qln_blockId l = Some b) then None else qln_blockId l;
     qln_sourceType := qln_sourceType l; qln_catalogItemId := qln_catalogItemId l;
     qln_description := qln_description l; qln_quantity := qln_quantity l;
     qln_unitPrice := qln_unitPrice l; qln_taxable := qln_taxable l;
     qln_customerVisible := qln_customerVisible l; qln_lineTotal := qln_lineTotal l;
     qln_recurrence := qln_recurrence l; qln_termMonths := qln_termMonths l;
     qln_billingFrequency := qln_billingFrequency l; qln_sortOrder := qln_sortOrder l |}.

Definition deleteBlock (i b : id) (actor : QuoteActor) (now : Z) : QM unit :=
  loadDraft i actor;;
  q_modify (set_content (λ m, m)
    (filter (λ l, ¬ (qln_quoteId l.2 = i ∧ qln_blockId l.2 = Some b))));;
  q_modify (λ s, match quoteBlocks s !! b with
    | Some blk => if bool_decide (qb_quoteId blk = i)
                  then set_content (delete b) (fmap (unblock b)) s else s
    | None => s
    end);;
  recomputeAndPersist i now.

Record QuoteLineInput := {
  qli_sourceType : QuoteSourceType; qli_catalogItemId : option id; qli_blockId : option id;
  qli_description : string; qli_quantity : string; qli_unitPrice : num; qli_taxable : bool;
  qli_customerVisible : bool; qli_recurrence : Recurrence; qli_termMonths : option Z;
  qli_billingFrequency : text }.

Definition insert_quote_line (l : QuoteLine) : QM id :=
  k ← q_fresh; q_modify (set_content (λ b, b) <[k := l]>);; mret k.

(** [quantity] is the text [String(input.quantity)]. *)
Definition q_addManualLine (i : id) (input : QuoteLineInput) (actor : QuoteActor) (now : Z) : QM id :=
  q ← loadDraft i actor;
  s ← q_get;
  let unitPrice := toFixed 2 (qli_unitPrice input) in
  k ← insert_quote_line
    {| qln_quoteId := i; qln_orgId := q_orgId q; qln_blockId := qli_blockId input;
       qln_sourceType := qli_sourceType input; qln_catalogItemId := qli_catalogItemId input;
       qln_description := qli_description input; qln_quantity := qli_quantity input;
       qln_unitPrice := unitPrice; qln_taxable := qli_taxable input;
       qln_customerVisible := qli_customerVisible input;
       qln_lineTotal := computeLineTotal (qli_quantity input) unitPrice;
       qln_recurrence := qli_recurrence input; qln_termMonths := qli_termMonths input;
       qln_billingFrequency := qli_billingFrequency input;
       qln_sortOrder := nextLineSortOrder s i |};
  recomputeAndPersist i now;;
  mret k.

Definition recurrence_of (cb : CatalogBilling) : Recurrence :=
  if cb_recurring cb
  then if bool_decide (cb_frequency cb = Some "annual"%string) then annual else monthly
  else one_time.

Definition q_addCatalogLine (i itemId : id) (quantity : string) (blockId : option id)
    (actor : QuoteActor) (now : Z) : QM id :=
  q ← loadDraft i actor;
  s ← q_get;
  match catalogItems (invoices_of s) !! itemId, catalogBilling s !! itemId with
  | Some row, Some cb =>
      q_require (bool_decide (ct_partnerId row = q_partnerId q)) CATALOG_ITEM_NOT_FOUND;;
      let unitPrice := ci_unitPrice (ct_item row) in
      k ← insert_quote_line
        {| qln_quoteId := i; qln_orgId := q_orgId q; qln_blockId := blockId;
           qln_sourceType := qsrc_catalog; qln_catalogItemId := Some itemId;
           qln_description := ct_name row; qln_quantity := quantity; qln_unitPrice := unitPrice;
           qln_taxable := ci_taxable (ct_item row); qln_customerVisible := true;
           qln_lineTotal := computeLineTotal quantity unitPrice;
           qln_recurrence := recurrence_of cb; qln_termMonths := cb_termMonths cb;
           qln_billingFrequency := cb_frequency cb; qln_sortOrder := nextLineSortOrder s i |};
      recomputeAndPersist i now;;
      mret k
  | _, _ => q_throw CATALOG_ITEM_NOT_FOUND
  end.

Record QuoteLinePatch := {
  qp_description : text; qp_quantity : text; qp_unitPrice : option num;
  qp_taxable : option bool; qp_customerVisible : option bool;
  qp_recurrence : option Recurrence; qp_termMonths : option (option Z);
  qp_sortOrder : option Z }.

Definition patched_quote_line (p : QuoteLinePatch) (l : QuoteLine) : QuoteLine :=
  let quantity := default (qln_quantity l) (qp_quantity p) in
  let unitPrice := match qp_unitPrice p with
                   | Some x => toFixed 2 x | None => qln_unitPrice l end in
  {| qln_quoteId := qln_quoteId l; qln_orgId := qln_orgId l; qln_blockId := qln_blockId l;
     qln_sourceType := qln_sourceType l; qln_catalogItemId := qln_catalogItemId l;
     qln_description := default (qln_description l) (qp_description p);
     qln_quantity := quantity; qln_unitPrice := unitPrice;
     qln_taxable := default (qln_taxable l) (qp_taxable p);
     qln_customerVisible := default (qln_customerVisible l) (qp_customerVisible p);
     qln_lineTotal := computeLineTotal quantity unitPrice;
     qln_recurrence := default (qln_recurrence l) (qp_recurrence p);
     qln_termMonths := null_or (qp_termMonths p) (qln_termMonths l);
     qln_billingFrequency := qln_billingFrequency l;
     qln_sortOrder := default (qln_sortOrder l) (qp_sortOrder p) |}.

Definition q_updateLine (i lineId : id) (p : QuoteLinePatch) (actor : QuoteActor) (now : Z)
    : QM unit :=
  loadDraft i actor;;
  s ← q_get;
  match quoteLines s !! lineId with
  | Some l =>
      q_require (bool_decide (qln_quoteId l = i)) Q_LINE_NOT_FOUND;;
      q_modify (set_content (λ b, b) (alter (patched_quote_line p) lineId));;
      recomputeAndPersist i now
  | None => q_throw Q_LINE_NOT_FOUND
  end.

Definition q_removeLine (i lineId : id) (actor : QuoteActor) (now : Z) : QM unit :=
  loadDraft i actor;;
  q_modify (set_content (λ b, b)
    (filter (λ l, ¬ (l.1 = lineId ∧ qln_quoteId l.2 = i))));;
  recomputeAndPersist i now.

(** ** Sending ([quoteNumbers.ts], [quoteLifecycle.ts]) *)

Definition formatQuoteNumber (prefix : string) (year counter : Z) : string :=
  prefix +:+ "-" +:+ print_Z year +:+ "-" +:+ of_chars (pad 4 (chars (print_Z counter))).

Definition allocateQuoteCounter (partnerId : id) (year : Z) : QM Z :=
  s ← q_get;
  let counter := match quoteSequences s !! (partnerId, year) with Some c => c + 1 | None => 1 end in
  q_modify (set_sequences <[(partnerId, year) := counter]>);;
  q_require (1 <=? counter) Q_INVALID_STATE;;
  mret counter.

(** The year of the issue date, or of today. *)
Definition issue_year (issueDate : text) (now : Z) : option Z :=
  match issueDate with
  | None => Some (getUTCFullYear (now / 86400000))
  | Some d => (λ ms, getUTCFullYear (ms / 86400000)) <$> day_ms d 0
  end.

Definition sent_row (number issueDate : string) (partner : option Partner) (now : Z) (q : Quote)
    : Quote :=
  {| q_origin := q_origin q;
     q_header := {| qh_siteId := qh_siteId (q_header q); qh_expiryDate := qh_expiryDate (q_header q);
       qh_introNotes := qh_introNotes (q_header q);
       qh_terms := or_else (qh_terms (q_header q)) (partner ≫= pa_invoiceFooter);
       qh_termsAndConditions := or_else (qh_termsAndConditions (q_header q))
                                        (partner ≫= pa_billingTermsAndConditions);
       qh_billToName := qh_billToName (q_header q); qh_taxRate := qh_taxRate (q_header q) |};
     q_amounts := q_amounts q;
     q_issue := {| qi_number := Some number; qi_issueDate := Some issueDate; qi_sentAt := Some now;
       qi_seller := Some (buildSellerSnapshot partner);
       qi_billToAddress := qi_billToAddress (q_issue q);
       qi_billToTaxId := qi_billToTaxId (q_issue q) |};
     q_status := qs_sent; q_stamps := touched now (q_stamps q) |}.

(** [mint] signs the accept token and builds its link, or throws; [mails] says whether the
    best-effort email went out.  The conditional update cannot miss here: nothing runs
    between the read and the write of one request. *)
Definition sendQuote (mint : id → option string) (mails : id → bool) (i : id)
    (actor : QuoteActor) (now : Z) : QM (Quote * bool * string) :=
  v ← getQuote i actor;
  let q := qv_quote v in
  q_require (bool_decide (q_status q = qs_draft)) Q_INVALID_STATE;;
  match issue_year (qi_issueDate (q_issue q)) now with
  | None => q_throw Q_BAD_DATE
  | Some year =>
      counter ← allocateQuoteCounter (q_partnerId q) year;
      let number := formatQuoteNumber "Q" year counter in
      let issueDate := default (utc_date now) (qi_issueDate (q_issue q)) in
      s ← q_get;
      let partner := partners (invoices_of s) !! q_partnerId q in
      update_quote i (sent_row number issueDate partner now);;
      match mint i with
      | None => q_throw Q_TOKEN
      | Some url => updated ← find_quote i; mret (updated, mails i, url)
      end
  end.

Definition viewed_stamps (now : Z) (t : QuoteStamps) : QuoteStamps :=
  {| qt_firstViewedAt := or_else (qt_firstViewedAt t) (Some now); qt_viewedAt := Some now;
     qt_acceptedAt := qt_acceptedAt t; qt_declinedAt := qt_declinedAt t;
     qt_declineReason := qt_declineReason t; qt_convertedAt := qt_convertedAt t;
     qt_convertedInvoiceId := qt_convertedInvoiceId t; qt_updatedAt := now |}.

Definition markQuoteViewed (i orgId : id) (now : Z) : QM unit :=
  s ← q_get;
  match quotes s !! i with
  | Some q =>
      if bool_decide (q_orgId q = orgId) then
        update_quote i (λ q, with_status_q
          (if bool_decide (q_status q = qs_sent) then qs_viewed else q_status q)
          (viewed_stamps now) q)
      else mret tt
  | None => mret tt
  end.

Definition open_for_answer (q : Quote) : bool :=
  bool_decide (q_status q = qs_sent) || bool_decide (q_status q = qs_viewed).

Definition declined_stamps (reason : text) (now : Z) (t : QuoteStamps) : QuoteStamps :=
  {| qt_firstViewedAt := qt_firstViewedAt t; qt_viewedAt := qt_viewedAt t;
     qt_acceptedAt := qt_acceptedAt t; qt_declinedAt := Some now; qt_declineReason := reason;
     qt_convertedAt := qt_convertedAt t; qt_convertedInvoiceId := qt_convertedInvoiceId t;
     qt_updatedAt := now |}.

Definition declineQuoteByActor (i : id) (reason : text) (actor : QuoteActor) (now : Z) : QM Quote :=
  v ← getQuote i actor;
  let q := qv_quote v in
  q_require (open_for_answer q) Q_INVALID_STATE;;
  q_require (negb (isQuoteExpired (q_expiryDate q) (now / 86400000))) QUOTE_EXPIRED;;
  update_quote i (with_status_q qs_declined (declined_stamps reason now));;
  find_quote i.

(** ** The expiry sweep ([quoteExpiryReaper.ts]) *)

Definition MAX_REAP_PER_RUN : nat := 500.

(** The database compares dates; the oldest expiries first. *)
Definition reap_due (today : string) (q : Quote) : bool :=
  open_for_answer q &&
  match q_expiryDate q with Some d => str_lt d today | None => false end.

Definition expiry_le (a b : id * Quote) : bool :=
  str_le (default ""%string (q_expiryDate a.2)) (default ""%string (q_expiryDate b.2)).

Definition expireQuotes (now : Z) : QM nat :=
  s ← q_get;
  let due := take MAX_REAP_PER_RUN (order_by expiry_le
    (filter (λ r, reap_due (utc_date now) r.2 = true) (map_to_list (quotes s)))) in
  q_modify (set_quotes (λ m, foldr (λ r, alter (with_status_q qs_expired (touched now)) r.1) m due));;
  mret (length due).

(** ** Content hash ([quoteContentHash.ts])

    The canonical content is hashed by the caller's [digest] (SHA-256 of its JSON text). *)

Record HashedLine := {
  hl_id : id; hl_description : string; hl_quantity : string; hl_unitPrice : string;
  hl_lineTotal : string; hl_recurrence : Recurrence; hl_taxable : bool;
  hl_customerVisible : bool; hl_sortOrder : Z }.
Record Canonical := {
  cn_id : id; cn_currency : string; cn_amounts : QuoteAmounts;
  cn_blocks : list (id * BlockType * Z * string); cn_lines : list HashedLine }.

(** By sort order, then by id. *)
Definition by_order_id {A} (f : A → Z) (a b : id * A) : bool :=
  (f a.2 <? f b.2) || ((f a.2 =? f b.2) && (a.1 <=? b.1)%N).

Definition hashed_line (r : id * QuoteLine) : HashedLine :=
  {| hl_id := r.1; hl_description := qln_description r.2; hl_quantity := qln_quantity r.2;
     hl_unitPrice := qln_unitPrice r.2; hl_lineTotal := qln_lineTotal r.2;
     hl_recurrence := qln_recurrence r.2; hl_taxable := qln_taxable r.2;
     hl_customerVisible := qln_customerVisible r.2; hl_sortOrder := qln_sortOrder r.2 |}.

Definition canonical (i : id) (q : Quote) (blocks : list (id * QuoteBlock))
    (lines : list (id * QuoteLine)) : Canonical :=
  {| cn_id := i; cn_currency := qo_currencyCode (q_origin q); cn_amounts := q_amounts q;
     cn_blocks := (λ b, (b.1, qb_blockType b.2, qb_sortOrder b.2, qb_content b.2)) <$>
                  order_by (by_order_id qb_sortOrder) blocks;
     cn_lines := hashed_line <$> order_by (by_order_id qln_sortOrder) lines |}.

Definition computeQuoteSha256 (digest : Canonical → string) (i : id) (q : Quote)
    (blocks : list (id * QuoteBlock)) (lines : list (id * QuoteLine)) : string :=
  digest (canonical i q blocks lines).

(** ** Contracts of an accepted quote ([quoteToContract.ts]) *)

Definition is_iso_shape (l : list ascii) : bool :=
  match l with
  | [a; b; c; d; s1; e; f; s2; g; h] =>
      forallb is_digit [a; b; c; d; e; f; g; h] && Ascii.eqb s1 "-" && Ascii.eqb s2 "-"
  | _ => false
  end.

(** [setUTCMonth] rolls an overflowing day into the next month; a date out of range cannot
    be printed. *)
Definition addMonthsToDate (dateStr : string) (months : Z) : option string :=
  if negb (is_iso_shape (chars dateStr)) || (months <? 1) then None
  else
    let '(y, m, d) := parts dateStr in
    y ← y; m ← m; d ← d;
    base ← DateUTC y (m - 1) d;
    let day := MakeDay (getUTCFullYear base) (getUTCMonth base + months) (getUTCDate base) in
    if Z.abs day <=? 100000000 then Some (utcDay day) else None.

(** The distinct terms among the lines that have one, in order. *)
Definition distinct_terms (ls : list (id * QuoteLine)) : list Z :=
  remove_dups (omap (λ l, qln_termMonths l.2) ls).

Definition contract_line_input (sort : nat) (l : id * QuoteLine) : ContractLineInput :=
  {| li_lineType := manual; li_description := qln_description l.2; li_catalogItemId := None;
     li_unitPrice := qln_unitPrice l.2; li_manualQuantity := Some (qln_quantity l.2);
     li_siteId := None; li_taxable := qln_taxable l.2; li_sortOrder := Some (Z.of_nat sort) |}.

Definition CADENCES : list (Recurrence * Z * string) :=
  [(monthly, 1, "Monthly"%string); (annual, 12, "Annual"%string)].

(** The visible lines of one recurrence. *)
Definition cadence_lines (r : Recurrence) (ls : list (id * QuoteLine)) : list (id * QuoteLine) :=
  filter (λ l, qln_recurrence l.2 = r ∧ qln_customerVisible l.2 = true) ls.

Definition end_of_group (startDate : string) (group : list (id * QuoteLine)) : outcome QuoteError text :=
  match distinct_terms group with
  | [t] => match addMonthsToDate startDate t with
           | Some e => Ok (Some e) | None => Throw Q_TERM end
  | _ => Ok None
  end.

Definition cadence_spec (q : Quote) (number : string) (startDate : string) (createdBy : option id)
    (cadence : Recurrence * Z * string) (group : list (id * QuoteLine)) (endDate : text)
    : NewContractSpec :=
  {| ns_partnerId := q_partnerId q; ns_orgId := q_orgId q;
     ns_name := number +:+ " — " +:+ cadence.2;
     ns_schedule := {| sc_billingTiming := advance; sc_intervalMonths := cadence.1.2;
                       sc_startDate := startDate |};
     ns_endDate := endDate; ns_currencyCode := Some (qo_currencyCode (q_origin q));
     ns_notes := Some ("Auto-created from accepted quote " +:+ number);
     ns_terms := qh_terms (q_header q); ns_createdBy := createdBy;
     ns_lines := imap contract_line_input group |}.

Fixpoint cadence_specs (q : Quote) (number : string) (lines : list (id * QuoteLine))
    (startDate : string) (createdBy : option id) (cs : list (Recurrence * Z * string))
    : outcome QuoteError (list NewContractSpec) :=
  match cs with
  | [] => Ok []
  | c :: cs =>
      match cadence_lines c.1.1 lines with
      | [] => cadence_specs q number lines startDate createdBy cs
      | group =>
          endDate ← end_of_group startDate group;
          rest ← cadence_specs q number lines startDate createdBy cs;
          Ok (cadence_spec q number startDate createdBy c group endDate :: rest)
      end
  end.

Definition buildContractSpecsFromQuote (q : Quote) (number : string)
    (lines : list (id * QuoteLine)) (startDate : string) (createdBy : option id)
    : outcome QuoteError (list NewContractSpec) :=
  cadence_specs q number lines startDate createdBy CADENCES.

(** ** Acceptance ([acceptanceProvider.ts], [quoteAcceptService.ts]) *)

Record AcceptParams := {
  ap_signerName : string; ap_signerEmail : text; ap_ipAddress : text; ap_userAgent : text;
  ap_tokenJti : text; ap_actorUserId : option id }.

(** [TypedSignatureProvider.capture]: the trimmed name and email, or an error. *)
Definition capture (p : AcceptParams) : outcome QuoteError (string * text) :=
  let signerName := trim (ap_signerName p) in
  if bool_decide (signerName = ""%string) then Throw Q_SIGNER_REQUIRED
  else Ok (signerName, match trim <$> ap_signerEmail p with
                       | None | Some EmptyString => None | Some e => Some e end).

(** [ipAddress ? ipAddress.slice(0, 64) : null] *)
Definition clamp_ip (ip : text) : text :=
  match ip with None | Some EmptyString => None | Some x => Some (of_chars (take 64 (chars x))) end.

Definition lift_outcome {A} (o : outcome QuoteError A) : QM A := λ s, (o, s).

Definition insert_acceptance (a : Acceptance) : QM id :=
  k ← q_fresh; q_modify (set_acceptances <[k := a]>);; mret k.

(** The draft invoice the conversion inserts. *)
Definition conversion_row (q : Quote) (createdBy : option id) (now : Z) : Invoice :=
  let base := new_invoice (q_partnerId q) (q_orgId q) (qh_siteId (q_header q))
    (Some (match qi_number (q_issue q) with
           | Some (String _ _ as n) => "Converted from quote " +:+ n
           | _ => "Converted from quote" end)) None createdBy None now in
  {| iv_origin := iv_origin base; iv_header := iv_header base; iv_status := iv_status base;
     iv_snapshot := {| sn_invoiceNumber := None; sn_currencyCode := qo_currencyCode (q_origin q);
       sn_issueDate := None; sn_billToName := None; sn_billToAddress := None;
       sn_billToTaxId := None; sn_billToTaxExempt := false; sn_terms := None; sn_seller := None |};
     iv_amounts := {| am_subtotal := am_subtotal (iv_amounts base);
       am_taxRate := qh_taxRate (q_header q); am_taxTotal := am_taxTotal (iv_amounts base);
       am_total := am_total (iv_amounts base); am_amountPaid := am_amountPaid (iv_amounts base);
       am_balance := am_balance (iv_amounts base) |};
     iv_stamps := iv_stamps base |}.

Definition conversion_line (inv : id) (q : Quote) (sort : nat) (l : QuoteLine) : Line :=
  {| ln_invoiceId := inv; ln_orgId := q_orgId q; ln_sourceType := src_manual; ln_sourceId := None;
     ln_catalogItemId := qln_catalogItemId l; ln_parentLineId := None; ln_ticketId := None;
     ln_description := qln_description l; ln_quantity := qln_quantity l;
     ln_unitPrice := qln_unitPrice l; ln_costBasis := None; ln_revenueAllocation := None;
     ln_taxable := qln_taxable l; ln_customerVisible := true;
     ln_lineTotal := computeLineTotal (qln_quantity l) (qln_unitPrice l);
     ln_isUnapprovedTime := false; ln_sortOrder := Z.of_nat sort |}.

(** The counter upsert of [partner_invoice_sequences], inside the transaction. *)
Definition next_invoice_counter (partnerId : id) (year : Z) : M Z :=
  db ← get_db;
  let counter := match sequences db !! (partnerId, year) with Some c => c + 1 | None => 1 end in
  modify (λ db, set_aux <[(partnerId, year) := counter]> (nextId db) (events db) db);;
  mret counter.

(** The amounts of the conversion. *)
Definition conversion_amounts (totals : Totals) (a : Amounts) : Amounts :=
  {| am_subtotal := t_subtotal totals; am_taxRate := am_taxRate a;
     am_taxTotal := t_taxTotal totals; am_total := t_total totals;
     am_amountPaid := am_amountPaid a; am_balance := t_total totals |}.

(** The issue fields: number, dates and the quote's snapshot. *)
Definition conversion_issued (q : Quote) (partner : option Partner) (number : string) (now : Z)
    (inv : Invoice) : Invoice :=
  {| iv_origin := iv_origin inv;
     iv_header := {| hd_siteId := hd_siteId (iv_header inv); hd_notes := hd_notes (iv_header inv);
       hd_dueDate := Some (utc_date (now + default 30 (pa_invoiceTermsDays <$> partner) * 86400000));
       hd_termsAndConditions := qh_termsAndConditions (q_header q) |};
     iv_status := sent;
     iv_snapshot := {| sn_invoiceNumber := Some number;
       sn_currencyCode := sn_currencyCode (iv_snapshot inv); sn_issueDate := Some (utc_date now);
       sn_billToName := qh_billToName (q_header q);
       sn_billToAddress := qi_billToAddress (q_issue q);
       sn_billToTaxId := qi_billToTaxId (q_issue q);
       sn_billToTaxExempt := sn_billToTaxExempt (iv_snapshot inv);
       sn_terms := qh_terms (q_header q); sn_seller := qi_seller (q_issue q) |};
     iv_amounts := iv_amounts inv; iv_stamps := iv_stamps inv |}.

Definition converted_stamps (inv : id) (now : Z) (t : QuoteStamps) : QuoteStamps :=
  {| qt_firstViewedAt := qt_firstViewedAt t; qt_viewedAt := qt_viewedAt t;
     qt_acceptedAt := Some now; qt_declinedAt := qt_declinedAt t;
     qt_declineReason := qt_declineReason t; qt_convertedAt := Some now;
     qt_convertedInvoiceId := Some inv; qt_updatedAt := now |}.

(** Step 2: the invoice of the one-time lines, issued when there are any. *)
Definition convert_invoice (q : Quote) (oneTime : list (id * QuoteLine)) (createdBy : option id)
    (now : Z) : QM id :=
  inv ← in_invoicing (insert_invoice (conversion_row q createdBy now));
  let ls := imap (λ sort l, conversion_line inv q sort l.2) oneTime in
  in_invoicing (insert_lines ls);;
  let totals := computeInvoiceTotals (totals_line <$> ls) (qh_taxRate (q_header q)) in
  (match oneTime with
   | [] => in_invoicing (update_invoice inv (with_amounts (conversion_amounts totals) now))
   | _ =>
       s ← q_get;
       let partner := partners (invoices_of s) !! q_partnerId q in
       let year := getUTCFullYear (now / 86400000) in
       counter ← in_invoicing (next_invoice_counter (q_partnerId q) year);
       q_require (1 <=? counter) Q_INVALID_STATE;;
       let number := formatInvoiceNumber (default "INV"%string (pa_invoiceNumberPrefix <$> partner))
                       year counter in
       in_invoicing (update_invoice inv (λ r,
         conversion_issued q partner number now (with_amounts (conversion_amounts totals) now r)))
   end);;
  mret inv.

Fixpoint create_contracts (specs : list NewContractSpec) (now : Z) : QM (list id) :=
  match specs with
  | [] => mret []
  | spec :: specs =>
      c ← in_contracts (createContractWithLines spec now);
      cs ← create_contracts specs now;
      mret (c :: cs)
  end.

Record AcceptResult := {
  ar_quote : Quote; ar_acceptanceId : id; ar_invoiceId : id; ar_invoiceIssued : bool;
  ar_contractIds : list id }.

(** The id of a quote without a number is shown as text. *)
Definition quote_label (i : id) (q : Quote) : string :=
  default (print_Z (Z.of_N i)) (qi_number (q_issue q)).

Definition acceptQuote (digest : Canonical → string) (i : id) (p : AcceptParams) (now : Z)
    : QM AcceptResult :=
  q ← find_quote i;
  q_require (open_for_answer q) Q_INVALID_STATE;;
  q_require (negb (isQuoteExpired (q_expiryDate q) (now / 86400000))) QUOTE_EXPIRED;;
  s ← q_get;
  let blocks := blocks_of_quote s i in
  let lines := lines_of_quote s i in
  captured ← lift_outcome (capture p);
  a ← insert_acceptance
    {| qc_quoteId := i; qc_orgId := q_orgId q; qc_signerName := captured.1;
       qc_signerEmail := captured.2; qc_signedAt := now; qc_ipAddress := clamp_ip (ap_ipAddress p);
       qc_userAgent := ap_userAgent p; qc_quoteSha256 := computeQuoteSha256 digest i q blocks lines;
       qc_tokenJti := ap_tokenJti p |};
  let oneTime := cadence_lines one_time lines in
  inv ← convert_invoice q oneTime (ap_actorUserId p) now;
  update_quote i (with_status_q qs_converted (converted_stamps inv now));;
  specs ← lift_outcome (buildContractSpecsFromQuote q (quote_label i q) lines (utc_date now)
                          (ap_actorUserId p));
  contractIds ← create_contracts specs now;
  updated ← find_quote i;
  mret {| ar_quote := updated; ar_acceptanceId := a; ar_invoiceId := inv;
          ar_invoiceIssued := negb (Nat.eqb (length oneTime) 0); ar_contractIds := contractIds |}.

(** [emitAcceptInvoiceIssued], run after the commit. *)
Definition emitAcceptInvoiceIssued (r : AcceptResult) : QM unit :=
  if ar_invoiceIssued r then in_invoicing (emitInvoiceEvent (invoice_issued (ar_invoiceId r)))
  else mret tt.

(** [createQuotePayLink]: the guards before the payment link of the invoice. *)
Definition payable_invoice (i : id) : QM id :=
  q ← find_quote i;
  match q_status q, qt_convertedInvoiceId (q_stamps q) with
  | qs_converted, Some inv => mret inv
  | _, _ => q_throw NOT_CONVERTED
  end.
