(* ===== verification/QuoteLifecycle.v ===== *)
(** * The life of a quote: transitions, their invariant, and the refinement of the quote
    handlers.

    The invariant ties every acceptance to a converted quote and to the hash of the
    content the quote has now; it holds because a quote that has left the draft state
    keeps its hashed content through every operation. *)

From S2P Require Import Prelude JsNum Money Calendar InvoiceDb Invoices InvoiceLifecycle.
From S2P Require Import Contracts Quotes.

Open Scope Z_scope.

(** ** Sorting *)

Section order_by.
Context {A : Type} (le : A → A → bool).
Context (Htot : ∀ x y, le x y = true ∨ le y x = true).
Context (Htrans : ∀ x y z, le x y = true → le y z = true → le x z = true).
Local Abbreviation R := (λ x y, le x y = true).

Lemma insert_sorted_elem x y l : y ∈ insert_sorted le x l ↔ y = x ∨ y ∈ l.
Proof using.
  induction l as [|z l IH]; simpl; [by rewrite list_elem_of_singleton, elem_of_nil; naive_solver|].
  destruct (le x z); rewrite !elem_of_cons, ?IH; naive_solver.
Qed.

Lemma insert_sorted_sorted x l : StronglySorted R l → StronglySorted R (insert_sorted le x l).
Proof using Htot Htrans.
  induction 1 as [|z l Hl IH Hz]; simpl; [by repeat constructor|].
  destruct (le x z) eqn:E.
  - constructor; [by constructor|]. constructor; [done|].
    eapply Forall_impl; [done|]. eauto.
  - constructor; [done|]. apply Forall_forall. intros y [->|Hy]%insert_sorted_elem.
    + destruct (Htot x z); congruence.
    + by eapply Forall_forall in Hz.
Qed.

Lemma order_by_sorted l : StronglySorted R (order_by le l).
Proof using Htot Htrans. induction l; simpl; [constructor | by apply insert_sorted_sorted]. Qed.
End order_by.

(** ** The hashed content of a quote *)

(** The row with id [k], if it belongs to quote [j], as it enters the hash. *)
Definition row_view {A B} (owner : A → id) (g : id * A → B) (m : gmap id A) (j k : id) : option B :=
  m !! k ≫= λ a, if decide (owner a = j) then Some (g (k, a)) else None.

Definition hashed_block (r : id * QuoteBlock) : id * BlockType * Z * string :=
  (r.1, qb_blockType r.2, qb_sortOrder r.2, qb_content r.2).
Definition line_view (s : QDB) : id → id → option HashedLine :=
  row_view qln_quoteId hashed_line (quoteLines s).
Definition block_view (s : QDB) : id → id → option (id * BlockType * Z * string) :=
  row_view qb_quoteId hashed_block (quoteBlocks s).

Definition same_content (s s' : QDB) (j : id) : Prop :=
  (∀ k, line_view s' j k = line_view s j k) ∧ (∀ k, block_view s' j k = block_view s j k).

(** The content hashed for quote [j] in a state. *)
Definition content_now (s : QDB) (j : id) (q : Quote) : Canonical :=
  canonical j q (blocks_of_quote s j) (lines_of_quote s j).

Lemma by_order_id_total {A} (f : A → Z) (x y : id * A) :
  by_order_id f x y = true ∨ by_order_id f y x = true.
Proof.
  unfold by_order_id. destruct (Z.ltb_spec (f x.2) (f y.2)); [by left|].
  destruct (Z.ltb_spec (f y.2) (f x.2)); [by right|].
  destruct (Z.eqb_spec (f x.2) (f y.2)), (Z.eqb_spec (f y.2) (f x.2)); try lia. simpl.
  destruct (N.leb_spec x.1 y.1), (N.leb_spec y.1 x.1); auto; lia.
Qed.

Lemma by_order_id_iff {A} (f : A → Z) (x y : id * A) :
  by_order_id f x y = true ↔ f x.2 < f y.2 ∨ (f x.2 = f y.2 ∧ (x.1 <= y.1)%N).
Proof.
  unfold by_order_id. rewrite orb_true_iff, andb_true_iff, Z.ltb_lt, Z.eqb_eq, N.leb_le. done.
Qed.

Lemma by_order_id_trans {A} (f : A → Z) (x y z : id * A) :
  by_order_id f x y = true → by_order_id f y z = true → by_order_id f x z = true.
Proof. rewrite !by_order_id_iff. intros. destruct_or!; lia. Qed.

Lemma nodup_fst_elem {A} (l : list (id * A)) k a b :
  NoDup l.*1 → (k, a) ∈ l → (k, b) ∈ l → a = b.
Proof.
  induction l as [|[k' c] l IH]; simpl; [by intros _ ?%elem_of_nil|].
  rewrite NoDup_cons, !elem_of_cons. intros [Hni Hnd] Ha Hb.
  destruct Ha as [[= -> ->]|Ha], Hb as [Eb|Hb]; [by injection Eb as -> | | |auto].
  - destruct Hni. apply list_elem_of_fmap. by exists (k', b).
  - injection Eb as -> ->. destruct Hni. apply list_elem_of_fmap. by exists (k', a).
Qed.

Lemma filter_nodup_fst {A} (P : id * A → Prop) `{!∀ x, Decision (P x)} (m : gmap id A) :
  NoDup (filter P (map_to_list m)).*1.
Proof.
  eapply sublist_NoDup; [apply (NoDup_fst_map_to_list m)|]. apply fmap_sublist, sublist_filter.
Qed.

(** Rows with distinct ids, sorted and projected, depend only on the set of projections. *)
Section canonical_order.
Context {A B : Type} (f : A → Z) (g : id * A → B) (gid : B → id) (gs : B → Z).
Context (Hid : ∀ r, gid (g r) = r.1) (Hgs : ∀ r, gs (g r) = f r.2).

Lemma projected_nodup (l : list (id * A)) : NoDup l.*1 → NoDup (g <$> l).
Proof using Hid.
  intros H. apply (NoDup_fmap_1 gid). rewrite <- list_fmap_compose.
  by rewrite (list_fmap_ext _ fst l) by (intros ? ? _; apply Hid).
Qed.

Lemma projected_sorted l :
  StronglySorted (λ x y, gs x < gs y ∨ (gs x = gs y ∧ (gid x <= gid y)%N))
    (g <$> order_by (by_order_id f) l).
Proof using Hid Hgs.
  pose proof (order_by_sorted _ (by_order_id_total f) (by_order_id_trans f) l) as H.
  induction H as [|x l' _ IH Hx]; simpl; constructor; [done|].
  apply Forall_fmap. eapply Forall_impl; [done|]. intros y Hy. simpl.
  rewrite !Hid, !Hgs. by apply by_order_id_iff.
Qed.

Lemma projected_unique l1 l2 :
  NoDup l1.*1 → NoDup l2.*1 → (∀ b, b ∈ g <$> l1 ↔ b ∈ g <$> l2) →
  g <$> order_by (by_order_id f) l1 = g <$> order_by (by_order_id f) l2.
Proof using Hid Hgs.
  intros H1 H2 Hel.
  assert (g <$> order_by (by_order_id f) l1 ≡ₚ g <$> order_by (by_order_id f) l2) as Hp.
  { rewrite !order_by_perm. apply NoDup_Permutation; [by apply projected_nodup.. | done]. }
  eapply StronglySorted_unique_strong; [| apply projected_sorted | apply projected_sorted | exact Hp].
  intros b1 b2 Hb1 Hb2 Hle1 Hle2. rewrite <- Hp in Hb2. rewrite order_by_perm in Hb1, Hb2.
  apply list_elem_of_fmap in Hb1 as (r1 & -> & Hr1), Hb2 as (r2 & -> & Hr2).
  rewrite !Hid, !Hgs in Hle1, Hle2. f_equal.
  assert (r1.1 = r2.1) as E by (destruct_or!; lia).
  destruct r1 as [k a1], r2 as [k2 a2]. simpl in E. subst k2. f_equal.
  exact (nodup_fst_elem l1 k a1 a2 H1 Hr1 Hr2).
Qed.
End canonical_order.

Lemma row_view_elem {A B} (owner : A → id) (g : id * A → B) (m : gmap id A) j b :
  b ∈ g <$> filter (λ r, owner r.2 = j) (map_to_list m) ↔ ∃ k, row_view owner g m j k = Some b.
Proof.
  unfold row_view. rewrite list_elem_of_fmap. split.
  - intros ([k a] & -> & [Ho Hin%elem_of_map_to_list]%list_elem_of_filter).
    exists k. rewrite Hin. simpl. by rewrite decide_True.
  - intros (k & (a & Ha & Hb)%bind_Some). case_decide; [|done]. injection Hb as <-.
    exists (k, a). split; [done|]. by rewrite list_elem_of_filter, elem_of_map_to_list.
Qed.

(** A quote whose rows look the same has the same content. *)
Lemma same_content_canonical s s' j q q' :
  same_content s s' j → q_origin q' = q_origin q → q_amounts q' = q_amounts q →
  content_now s' j q' = content_now s j q.
Proof.
  intros [Hl Hb] Eo Ea. unfold content_now, canonical. rewrite Eo, Ea. f_equal.
  - apply (projected_unique qb_sortOrder hashed_block (λ b, b.1.1.1) (λ b, b.1.2)); try done;
      unfold blocks_of_quote.
    1,2: rewrite order_by_perm; apply filter_nodup_fst.
    intros b. rewrite !order_by_perm, !row_view_elem. by setoid_rewrite Hb.
  - apply (projected_unique qln_sortOrder hashed_line hl_id hl_sortOrder); try done;
      unfold lines_of_quote.
    1,2: rewrite order_by_perm; apply filter_nodup_fst.
    intros l. rewrite !order_by_perm, !row_view_elem. by setoid_rewrite Hl.
Qed.

(** ** Transitions *)

(** A change of a row in which what is hashed stays, and a converted quote is neither made
    nor unmade. *)
Definition moved (q q' : Quote) : Prop :=
  q_origin q' = q_origin q ∧ q_amounts q' = q_amounts q ∧
  (q_status q' = qs_converted ↔ q_status q = qs_converted).

Definition row_moved (o o' : option Quote) : Prop :=
  match o, o' with
  | Some q, Some q' => q' = q ∨ moved q q'
  | None, None => True
  | _, _ => False
  end.

(** An edit of draft [i]: nothing of another quote, and [i] stays a draft if it stays. *)
Record edited (i : id) (s s' : QDB) : Prop := {
  ed_quotes : ∀ j, j ≠ i → quotes s' !! j = quotes s !! j;
  ed_content : ∀ j, j ≠ i → same_content s s' j;
  ed_status : ∀ q', quotes s' !! i = Some q' → ∃ q, quotes s !! i = Some q ∧ q_status q' = q_status q;
  ed_accept : quoteAcceptances s' = quoteAcceptances s;
  ed_next : (nextQuoteId s <= nextQuoteId s')%N }.

Section lifecycle.
Context (digest : Canonical → string).

Inductive qstep (s s' : QDB) : Prop :=
| qt_edit i q : quotes s !! i = Some q → q_status q = qs_draft → edited i s s' → qstep s s'
| qt_delete i q : quotes s !! i = Some q → q_status q = qs_draft →
    quotes s' = delete i (quotes s) → (∀ j, j ≠ i → same_content s s' j) →
    quoteAcceptances s' = filter (λ a, qc_quoteId a.2 ≠ i) (quoteAcceptances s) →
    nextQuoteId s' = nextQuoteId s → qstep s s'
| qt_create q : quotes s' = <[nextQuoteId s := q]> (quotes s) → q_status q = qs_draft →
    (∀ j, same_content s s' j) → quoteAcceptances s' = quoteAcceptances s →
    nextQuoteId s' = N.succ (nextQuoteId s) → qstep s s'
| qt_move : (∀ j, row_moved (quotes s !! j) (quotes s' !! j)) → (∀ j, same_content s s' j) →
    quoteAcceptances s' = quoteAcceptances s → (nextQuoteId s <= nextQuoteId s')%N → qstep s s'
| qt_accept i q q' a : quotes s !! i = Some q → open_for_answer q = true →
    quotes s' = <[i := q']> (quotes s) → q_origin q' = q_origin q → q_amounts q' = q_amounts q →
    q_status q' = qs_converted → (∀ j, same_content s s' j) →
    quoteAcceptances s' = <[nextQuoteId s := a]> (quoteAcceptances s) → qc_quoteId a = i →
    qc_quoteSha256 a = digest (content_now s i q) →
    nextQuoteId s' = N.succ (nextQuoteId s) → qstep s s'.

(** ** The invariant *)

Record qinv (s : QDB) : Prop := {
  qi_quotes : ∀ i q, quotes s !! i = Some q → (i < nextQuoteId s)%N;
  qi_ids : ∀ k a, quoteAcceptances s !! k = Some a → (k < nextQuoteId s)%N;
  qi_signed : ∀ k a, quoteAcceptances s !! k = Some a →
    ∃ q, quotes s !! qc_quoteId a = Some q ∧ q_status q = qs_converted ∧
         qc_quoteSha256 a = digest (content_now s (qc_quoteId a) q);
  qi_once : ∀ k k' a a', quoteAcceptances s !! k = Some a → quoteAcceptances s !! k' = Some a' →
    qc_quoteId a = qc_quoteId a' → k = k';
  qi_converted : ∀ i q, quotes s !! i = Some q → q_status q = qs_converted →
    ∃ k a, quoteAcceptances s !! k = Some a ∧ qc_quoteId a = i }.

(** A state in which the converted quotes of another are the same, with their content. *)
Definition keeps_signed (s s' : QDB) : Prop :=
  ∀ j q, quotes s !! j = Some q → q_status q = qs_converted →
    ∃ q', quotes s' !! j = Some q' ∧ q_status q' = qs_converted ∧
          content_now s' j q' = content_now s j q.

Lemma signed_keep s s' k a :
  qinv s → keeps_signed s s' → quoteAcceptances s !! k = Some a →
  ∃ q, quotes s' !! qc_quoteId a = Some q ∧ q_status q = qs_converted ∧
       qc_quoteSha256 a = digest (content_now s' (qc_quoteId a) q).
Proof.
  intros HI HK Ha. destruct (qi_signed _ HI _ _ Ha) as (q & Hq & Hc & Hd).
  destruct (HK _ _ Hq Hc) as (q' & Hq' & Hc' & E). exists q'. by rewrite E.
Qed.

Lemma same_row_content s s' j q :
  same_content s s' j → content_now s' j q = content_now s j q.
Proof. intros. by apply same_content_canonical. Qed.

Lemma qstep_keeps s s' : qinv s → qstep s s' → keeps_signed s s'.
Proof.
  intros HI HS j q Hj Hc. destruct HS as
    [i q0 Hi Hd [Hq Hco _ _ _]|i q0 Hi Hd E Hco _ _|q0 E _ Hco _ _|Hm Hco _ _|i q0 q' a Hi Ho E Eo Ea _ Hco _ _ _ _].
  - assert (j ≠ i) by congruence. exists q. rewrite Hq by done. eauto using same_row_content.
  - assert (j ≠ i) by congruence. exists q. rewrite E, lookup_delete_ne by done.
    eauto using same_row_content.
  - exists q. rewrite E, lookup_insert_ne; [eauto using same_row_content|].
    intros <-. apply (qi_quotes _ HI) in Hj. lia.
  - specialize (Hm j). rewrite Hj in Hm. destruct (quotes s' !! j) as [q'|]; [|done].
    exists q'. destruct Hm as [->|(Eo & Ea & Hcc)]; [eauto using same_row_content|].
    split_and!; [done | by apply Hcc | by apply same_content_canonical].
  - assert (j ≠ i).
    { intros ->. simplify_eq. unfold open_for_answer in Ho. rewrite Hc in Ho. done. }
    exists q. rewrite E, lookup_insert_ne by done. eauto using same_row_content.
Qed.

(** In every step but an acceptance the acceptances only lose those of a draft, of which
    there are none. *)
Lemma draft_unsigned s i q k a :
  qinv s → quotes s !! i = Some q → q_status q ≠ qs_converted →
  quoteAcceptances s !! k = Some a → qc_quoteId a ≠ i.
Proof.
  intros HI Hi Hd Ha E. destruct (qi_signed _ HI _ _ Ha) as (q' & Hq' & Hc & _).
  rewrite E in Hq'. congruence.
Qed.

Lemma delete_accept_same s i q :
  qinv s → quotes s !! i = Some q → q_status q = qs_draft →
  filter (λ a : id * Acceptance, qc_quoteId a.2 ≠ i) (quoteAcceptances s) = quoteAcceptances s.
Proof.
  intros HI Hi Hd. apply map_filter_id. intros k a Ha. simpl.
  eapply draft_unsigned; [done..| |done]. by rewrite Hd.
Qed.


(** The acceptances of a state come from the one before, or are the one new of the step. *)
Lemma qstep_accepts s s' k a :
  qinv s → qstep s s' → quoteAcceptances s' !! k = Some a →
  quoteAcceptances s !! k = Some a ∨
  (k = nextQuoteId s ∧ nextQuoteId s' = N.succ k ∧
   (∀ k' a', quoteAcceptances s !! k' = Some a' → qc_quoteId a' ≠ qc_quoteId a) ∧
   ∃ q, quotes s' !! qc_quoteId a = Some q ∧ q_status q = qs_converted ∧
        qc_quoteSha256 a = digest (content_now s' (qc_quoteId a) q)).
Proof.
  intros HI HS Ha. destruct HS as
    [i q Hi Hd [_ _ _ E _]|i q Hi Hd _ _ E _|q _ _ _ E _|_ _ E _
    |i q q' a' Hi Ho Eq Eo Ea Hc Hco E Ei Eh En]; [by left; rewrite E in Ha| |by left; rewrite E in Ha..|].
  - left. rewrite E, (delete_accept_same s i q) in Ha by done. done.
  - rewrite E in Ha. apply lookup_insert_Some in Ha as [[<- <-]|[_ Ha]]; [right|by left].
    split_and!; [done..| |].
    + intros k' a2 Ha2. rewrite Ei. eapply draft_unsigned; [done..| |done].
      intros Hc2. unfold open_for_answer in Ho. by rewrite Hc2 in Ho.
    + exists q'. rewrite Ei, Eq, lookup_insert_eq. split_and!; [done..|].
      rewrite Eh. f_equal. symmetry. by apply same_content_canonical.
Qed.

Lemma qstep_next s s' : qstep s s' → (nextQuoteId s <= nextQuoteId s')%N.
Proof. intros [? ? _ _ []| | | |]; lia. Qed.

Lemma qstep_quotes s s' i q :
  qinv s → qstep s s' → quotes s' !! i = Some q → (i < nextQuoteId s')%N.
Proof.
  intros HI HS Hi. pose proof (qstep_next _ _ HS) as Hn.
  assert (∀ q0, quotes s !! i = Some q0 → (i < nextQuoteId s')%N) as Hold.
  { intros q0 H0. pose proof (qi_quotes _ HI _ _ H0). lia. }
  destruct HS as [j q0 Hj _ [Eq _ Hs _ _]|j q0 Hj _ E _ _ _|q0 E _ _ _ En|Hm _ _ _|j q0 q' a Hj _ E].
  - destruct (decide (i = j)) as [->|]; [eauto | by rewrite Eq in Hi by done; eauto].
  - rewrite E in Hi. apply lookup_delete_Some in Hi as [_ ?]. eauto.
  - rewrite E in Hi. apply lookup_insert_Some in Hi as [[<- _]|[_ ?]]; [lia | eauto].
  - specialize (Hm i). rewrite Hi in Hm. destruct (quotes s !! i) eqn:?; [eauto | done].
  - rewrite E in Hi. apply lookup_insert_Some in Hi as [[<- _]|[_ ?]]; eauto.
Qed.

(** A converted quote was converted before, or is the one accepted. *)
Lemma qstep_converted s s' i q :
  qinv s → qstep s s' → quotes s' !! i = Some q → q_status q = qs_converted →
  ∃ k a, quoteAcceptances s' !! k = Some a ∧ qc_quoteId a = i.
Proof.
  intros HI HS Hi Hc.
  assert (∀ q0, quotes s !! i = Some q0 → q_status q0 = qs_converted →
          quoteAcceptances s' = quoteAcceptances s →
          ∃ k a, quoteAcceptances s' !! k = Some a ∧ qc_quoteId a = i) as Hold.
  { intros q0 H0 Hc0 ->. by apply (qi_converted _ HI i q0). }
  destruct HS as [j q0 Hj Hd [Eq _ Hs E _]|j q0 Hj Hd Eq _ E _|q0 Eq Hd _ E _|Hm _ E _
                 |j q0 q' a Hj Ho Eq _ _ _ _ E Ei _ _].
  - destruct (decide (i = j)) as [->|]; [|rewrite Eq in Hi by done; eauto].
    destruct (Hs _ Hi) as (q1 & ? & ?). congruence.
  - rewrite Eq in Hi. apply lookup_delete_Some in Hi as [_ ?].
    rewrite (delete_accept_same s j q0) in E by done. eauto.
  - rewrite Eq in Hi. apply lookup_insert_Some in Hi as [[<- <-]|[_ ?]]; [congruence | eauto].
  - specialize (Hm i). rewrite Hi in Hm. destruct (quotes s !! i) as [q0|] eqn:?; [|done].
    destruct Hm as [->|(_ & _ & Hcc)]; [eauto | apply Hcc in Hc; eauto].
  - destruct (decide (i = j)) as [->|].
    + exists (nextQuoteId s), a. by rewrite E, lookup_insert_eq.
    + rewrite Eq, lookup_insert_ne in Hi by done.
      destruct (qi_converted _ HI i q Hi Hc) as (k & a' & Ha & <-). exists k, a'.
      rewrite E, lookup_insert_ne; [done|]. intros <-. apply (qi_ids _ HI) in Ha. lia.
Qed.

Lemma qstep_inv s s' : qinv s → qstep s s' → qinv s'.
Proof.
  intros HI HS. pose proof (qstep_next _ _ HS) as Hn.
  pose proof (qstep_keeps _ _ HI HS) as HK.
  split; [eauto using qstep_quotes| | | |eauto using qstep_converted].
  - intros k a [Ha|(-> & -> & _)]%(qstep_accepts s); [|lia|done..].
    apply (qi_ids _ HI) in Ha. lia.
  - intros k a [Ha|(_ & _ & _ & ?)]%(qstep_accepts s); [|done..].
    by eapply signed_keep.
  - intros k k' a a' [Ha|(-> & _ & Hf & _)]%(qstep_accepts s) [Ha'|(-> & _ & Hf' & _)]%(qstep_accepts s) E;
      try done.
    + by eapply (qi_once _ HI).
    + by destruct (Hf' _ _ Ha).
    + by destruct (Hf _ _ Ha').
Qed.
End lifecycle.
