(* ===== verification/QuoteHandlers.v ===== *)
(** * The quote handlers are runs of the quote transitions.

    Every handler that returns takes one [qstep]; one that throws leaves, once its request
    is rolled back, every table but the quote counters as it was. *)

From S2P Require Import Prelude JsNum Money Calendar InvoiceDb Invoices InvoiceLifecycle.
From S2P Require Import Contracts Quotes QuoteLifecycle.

Open Scope Z_scope.

(** ** Runs of the handler monad *)

Lemma qbind_ok {A B} (m : QM A) (k : A → QM B) s b s' :
  (m ≫= k) s = (Ok b, s') → ∃ a s1, m s = (Ok a, s1) ∧ k a s1 = (Ok b, s').
Proof. unfold mbind, QM_bind. destruct (m s) as [[a|e] s1]; [|done]. eauto. Qed.

Lemma qbind_run {A B} (m : QM A) (k : A → QM B) s a s1 :
  m s = (Ok a, s1) → (m ≫= k) s = k a s1.
Proof. intros H. unfold mbind, QM_bind. by rewrite H. Qed.

Lemma qbind_throw {A B} (m : QM A) (k : A → QM B) s e s1 :
  m s = (Throw e, s1) → (m ≫= k) s = (Throw e, s1).
Proof. intros H. unfold mbind, QM_bind. by rewrite H. Qed.

Lemma qret_ok {A} (a b : A) (s s' : QDB) : (mret a : QM A) s = (Ok b, s') → a = b ∧ s = s'.
Proof. by intros [= -> ->]. Qed.

Lemma qrequire_ok b e s u s' : q_require b e s = (Ok u, s') → b = true ∧ s' = s.
Proof. destruct b; [|done]. by intros [= _ <-]. Qed.

Lemma find_quote_ok i s q s' : find_quote i s = (Ok q, s') → quotes s !! i = Some q ∧ s' = s.
Proof.
  unfold find_quote, q_get, mbind, QM_bind. simpl.
  destruct (quotes s !! i); [|done]. by intros [= -> ->].
Qed.

Lemma loadDraft_ok i actor s q s' :
  loadDraft i actor s = (Ok q, s') → quotes s !! i = Some q ∧ q_status q = qs_draft ∧ s' = s.
Proof.
  intros H. apply qbind_ok in H as (q0 & s0 & [Hq ->]%find_quote_ok & H).
  apply qbind_ok in H as (u & s0 & [_ ->]%qrequire_ok & H).
  apply qbind_ok in H as (u' & s0 & [Hd ->]%qrequire_ok & [-> <-]%qret_ok).
  by bool_prop.
Qed.

Lemma getQuote_ok i actor s v s' :
  getQuote i actor s = (Ok v, s') → quotes s !! i = Some (qv_quote v) ∧ s' = s.
Proof.
  intros H. apply qbind_ok in H as (q0 & s0 & [Hq ->]%find_quote_ok & H).
  apply qbind_ok in H as (u & s0 & [_ ->]%qrequire_ok & H).
  apply qbind_ok in H as (s1 & s0 & [= <- <-] & [<- <-]%qret_ok). done.
Qed.

Lemma qmodify_ok f s u s' : q_modify f s = (Ok u, s') → s' = f s.
Proof. by intros [= _ <-]. Qed.

Lemma qrun_state {A} (m : QM A) s a s' : m s = (Ok a, s') → s' = (m s).2.
Proof. by intros ->. Qed.

(** Step a run of a handler into the runs of its parts. *)
Ltac qrun H :=
  lazymatch type of H with
  | (mbind _ (q_require _ _)) _ = (Ok _, _) =>
      let Hb := fresh "Hb" in apply qbind_ok in H as (? & ? & [Hb ->]%qrequire_ok & H)
  | (mbind _ (loadDraft _ _)) _ = (Ok _, _) =>
      let Hq := fresh "Hq" in let Hd := fresh "Hd" in let q := fresh "q" in
      apply qbind_ok in H as (q & ? & (Hq & Hd & ->)%loadDraft_ok & H)
  | (mbind _ (getQuote _ _)) _ = (Ok _, _) =>
      let Hq := fresh "Hq" in let v := fresh "v" in
      apply qbind_ok in H as (v & ? & [Hq ->]%getQuote_ok & H)
  | (mbind _ (find_quote _)) _ = (Ok _, _) =>
      let Hq := fresh "Hq" in let q := fresh "q" in
      apply qbind_ok in H as (q & ? & [Hq ->]%find_quote_ok & H)
  | find_quote _ _ = (Ok _, _) => apply find_quote_ok in H as [_ ->]
  | (mbind _ q_get) _ = (Ok _, _) => apply qbind_ok in H as (? & ? & [= <- <-] & H)
  | (mbind _ q_fresh) _ = (Ok _, _) => apply qbind_ok in H as (? & ? & [= <- <-] & H)
  | (mbind _ (q_modify _)) _ = (Ok _, _) => apply qbind_ok in H as (? & ? & [= <- <-] & H)
  | (mbind _ (update_quote _ _)) _ = (Ok _, _) => apply qbind_ok in H as (? & ? & [= <- <-] & H)
  | (mbind _ (recomputeAndPersist _ _)) _ = (Ok _, _) =>
      apply qbind_ok in H as (? & ? & [= <- <-] & H)
  | (mbind _ (insert_quote_line _)) _ = (Ok _, _) =>
      apply qbind_ok in H as (? & ? & [= <- <-] & H)
  | q_throw _ _ = (Ok _, _) => discriminate H
  | mret _ _ = (Ok _, _) => apply qret_ok in H as [? <-]; subst
  | q_modify _ _ = (Ok _, _) => apply qmodify_ok in H as ->
  | update_quote _ _ _ = (Ok _, _) => apply qmodify_ok in H as ->
  | recomputeAndPersist _ _ _ = (Ok _, _) => apply qrun_state in H as ->
  end.
Ltac qruns H := unfold resolvePartner, assertOrg, allocateQuoteCounter in H; repeat (qrun H).

(** ** Content of the quotes an edit does not touch *)

Lemma same_content_refl s j : same_content s s j.
Proof. done. Qed.

(** Two tables in which the rows of quote [j] look the same. *)
Lemma row_view_ext {A B} (owner : A → id) (g : id * A → B) (m m' : gmap id A) j k :
  (∀ a, owner a = j → m !! k = Some a → ∃ a', m' !! k = Some a' ∧ owner a' = j ∧ g (k, a') = g (k, a)) →
  (∀ a, owner a = j → m' !! k = Some a → ∃ a', m !! k = Some a' ∧ owner a' = j) →
  row_view owner g m' j k = row_view owner g m j k.
Proof.
  intros H H'. unfold row_view. destruct (m !! k) as [a|] eqn:Ea; simpl.
  - destruct (decide (owner a = j)) as [Eo|Hne].
    + destruct (H a Eo eq_refl) as (a' & -> & Eo' & Eg). simpl. by rewrite decide_True, Eg.
    + destruct (m' !! k) as [a'|] eqn:Ea'; [|done]. simpl. case_decide as Eo; [|done].
      destruct (H' a' Eo eq_refl) as (? & ? & ?). congruence.
  - destruct (m' !! k) as [a'|] eqn:Ea'; [|done]. simpl. case_decide as Eo; [|done].
    by destruct (H' a' Eo eq_refl) as (? & ? & ?).
Qed.

Section views.
Context {A B : Type} (owner : A → id) (g : id * A → B) (m : gmap id A) (j : id).

Lemma row_view_insert k0 a k :
  m !! k0 = None → owner a ≠ j → row_view owner g (<[k0 := a]> m) j k = row_view owner g m j k.
Proof.
  intros H0 Ha. apply row_view_ext; intros a' Eo Hk.
  - exists a'. rewrite lookup_insert_ne by congruence. eauto.
  - apply lookup_insert_Some in Hk as [[<- ->]|[_ ?]]; [done | eauto].
Qed.

Lemma row_view_filter (P : id * A → Prop) `{!∀ x, Decision (P x)} k :
  (∀ a, owner a = j → P (k, a)) → row_view owner g (filter P m) j k = row_view owner g m j k.
Proof.
  intros HP. apply row_view_ext; intros a Eo Hk.
  - exists a. rewrite map_lookup_filter_Some. eauto.
  - apply map_lookup_filter_Some in Hk as [? _]. eauto.
Qed.

Lemma row_view_alter f k0 k :
  (∀ a, owner (f a) = owner a) → (∀ a, m !! k0 = Some a → owner a ≠ j) →
  row_view owner g (alter f k0 m) j k = row_view owner g m j k.
Proof.
  intros Hf H0. apply row_view_ext; intros a Eo Hk.
  - exists a. rewrite lookup_alter_ne by naive_solver. eauto.
  - apply lookup_alter_Some in Hk as [(-> & a0 & ? & ->)|[_ ?]]; [|eauto].
    rewrite Hf in Eo. naive_solver.
Qed.

Lemma row_view_fmap f k :
  (∀ a, owner (f a) = owner a) → (∀ a, g (k, f a) = g (k, a)) →
  row_view owner g (f <$> m) j k = row_view owner g m j k.
Proof.
  intros Hf Hg. unfold row_view. rewrite lookup_fmap. destruct (m !! k); simpl; [|done].
  by rewrite Hf, Hg.
Qed.

Lemma row_view_delete k0 k :
  (∀ a, m !! k0 = Some a → owner a ≠ j) →
  row_view owner g (delete k0 m) j k = row_view owner g m j k.
Proof.
  intros H0. apply row_view_ext; intros a Eo Hk.
  - exists a. rewrite lookup_delete_ne by naive_solver. eauto.
  - apply lookup_delete_Some in Hk as [_ ?]. eauto.
Qed.
End views.

(** ** Fresh ids *)

(** Every row id was handed out. *)
Definition rows_fresh (s : QDB) : Prop :=
  (∀ k l, quoteLines s !! k = Some l → (k < nextQuoteId s)%N) ∧
  (∀ k b, quoteBlocks s !! k = Some b → (k < nextQuoteId s)%N).

Lemma rows_fresh_next s :
  rows_fresh s → quoteLines s !! nextQuoteId s = None ∧ quoteBlocks s !! nextQuoteId s = None.
Proof.
  intros [Hl Hb]. split.
  - destruct (quoteLines s !! nextQuoteId s) eqn:E; [|done]. apply Hl in E. lia.
  - destruct (quoteBlocks s !! nextQuoteId s) eqn:E; [|done]. apply Hb in E. lia.
Qed.

(** Tables whose rows come from earlier ones or take the id handed out. *)
Lemma rows_fresh_grow s s' :
  rows_fresh s → (nextQuoteId s <= nextQuoteId s')%N →
  (∀ k, is_Some (quoteLines s' !! k) → is_Some (quoteLines s !! k) ∨ (k < nextQuoteId s')%N) →
  (∀ k, is_Some (quoteBlocks s' !! k) → is_Some (quoteBlocks s !! k) ∨ (k < nextQuoteId s')%N) →
  rows_fresh s'.
Proof.
  intros [Hl Hb] Hn Hl' Hb'. split.
  - intros k l E. destruct (Hl' k (mk_is_Some _ _ E)) as [[l0 E0]|?]; [|done]. apply Hl in E0. lia.
  - intros k b E. destruct (Hb' k (mk_is_Some _ _ E)) as [[b0 E0]|?]; [|done]. apply Hb in E0. lia.
Qed.

Lemma rows_fresh_same s s' :
  rows_fresh s → (nextQuoteId s <= nextQuoteId s')%N →
  quoteLines s' = quoteLines s → quoteBlocks s' = quoteBlocks s → rows_fresh s'.
Proof. intros H Hn El Eb. apply (rows_fresh_grow s); [done..| |]; rewrite ?El, ?Eb; auto. Qed.

(** ** Handlers on drafts *)

Section handlers.
Context (digest : Canonical → string).

(** What a handler that returns does. *)
Definition qgoes (s s' : QDB) : Prop := qstep digest s s' ∧ rows_fresh s'.

Lemma qgoes_move s s' :
  rows_fresh s → quoteLines s' = quoteLines s → quoteBlocks s' = quoteBlocks s →
  quoteAcceptances s' = quoteAcceptances s → (nextQuoteId s <= nextQuoteId s')%N →
  (∀ j, row_moved (quotes s !! j) (quotes s' !! j)) → qgoes s s'.
Proof.
  intros HF El Eb Ea Hn Hm. split; [|by eapply rows_fresh_same].
  apply qt_move; try done. intros j. unfold same_content, line_view, block_view. by rewrite El, Eb.
Qed.

Lemma row_moved_refl o : row_moved o o.
Proof. destruct o; simpl; auto. Qed.

(** One row altered by a change that keeps what is hashed. *)
Lemma row_moved_alter (m : gmap id Quote) i f j :
  (∀ q, m !! i = Some q → moved q (f q)) → row_moved (m !! j) (alter f i m !! j).
Proof.
  intros Hf. destruct (decide (i = j)) as [->|].
  - rewrite lookup_alter_eq. destruct (m !! j) as [q|] eqn:E; simpl; [right; auto | done].
  - rewrite lookup_alter_ne by done. apply row_moved_refl.
Qed.

(** An edit of a draft: its row altered, its lines and blocks changed. *)
Lemma qgoes_edit i q s s' f :
  rows_fresh s → quotes s !! i = Some q → q_status q = qs_draft →
  quotes s' = alter f i (quotes s) → (∀ q, q_status (f q) = q_status q) →
  quoteAcceptances s' = quoteAcceptances s → (nextQuoteId s <= nextQuoteId s')%N →
  (∀ j, j ≠ i → same_content s s' j) → rows_fresh s' → qgoes s s'.
Proof.
  intros HF Hq Hd Eq Hf Ea Hn Hc HF'. split; [|done]. eapply qt_edit; [done..|]. split; try done.
  - intros j Hj. by rewrite Eq, lookup_alter_ne.
  - intros q'. rewrite Eq, lookup_alter_eq, Hq. intros [= <-]. eauto.
Qed.

Lemma updateQuote_step i u actor now s q s' :
  rows_fresh s → updateQuote i u actor now s = (Ok q, s') → qgoes s s'.
Proof.
  intros HF H. unfold updateQuote in H. qruns H. simpl.
  eapply qgoes_edit; simpl; [done..|by rewrite alter_alter_eq| | | | |]; try done.
Qed.

Lemma createQuote_step input actor now s i s' :
  rows_fresh s → createQuote input actor now s = (Ok i, s') → qgoes s s'.
Proof.
  intros HF H. unfold createQuote, resolvePartner in H.
  destruct (qx_partnerId actor); [|done]. apply qbind_ok in H as (? & ? & [= <- <-] & H).
  qruns H. split; [|apply (rows_fresh_same s); simpl; [done|lia|done..]].
  by eapply qt_create.
Qed.

Lemma deleteDraftQuote_step i actor s s' :
  rows_fresh s → deleteDraftQuote i actor s = (Ok tt, s') → qgoes s s'.
Proof.
  intros HF H. unfold deleteDraftQuote in H. qruns H. split.
  - eapply qt_delete; simpl; [done..| |done|done].
    intros j Hj. split; intros k; unfold line_view, block_view; simpl;
      apply row_view_filter; simpl; congruence.
  - apply (rows_fresh_grow s); simpl; [done|lia| |]; intros k [x [Hx _]%map_lookup_filter_Some]; eauto.
Qed.

Lemma addBlock_step i t c actor s b s' :
  rows_fresh s → addBlock i t c actor s = (Ok b, s') → qgoes s s'.
Proof.
  intros HF H. unfold addBlock in H. qruns H. pose proof (rows_fresh_next _ HF) as [Hl Hb].
  eapply (qgoes_edit i _ _ _ (λ q, q)); simpl; [done..| |done|done|lia| |].
  - by rewrite alter_id.
  - intros j Hj. split; intros k; [done|]. by apply row_view_insert.
  - apply (rows_fresh_grow s); simpl; [done|lia|eauto|].
    intros k [x [[<- _]|[_ ?]]%lookup_insert_Some]; [right; lia | eauto].
Qed.

(** The lines [deleteBlock] leaves, before and after the column is set to null. *)
Lemma lines_left_view i b (m : gmap id QuoteLine) j k (g : bool) :
  j ≠ i →
  let left := filter (λ l, ¬ (qln_quoteId l.2 = i ∧ qln_blockId l.2 = Some b)) m in
  row_view qln_quoteId hashed_line (if g then unblock b <$> left else left) j k =
  row_view qln_quoteId hashed_line m j k.
Proof.
  intros Hj left. transitivity (row_view qln_quoteId hashed_line left j k).
  - destruct g; [|done]. by apply row_view_fmap.
  - apply row_view_filter. simpl. naive_solver.
Qed.

Lemma lines_left_some i b (m : gmap id QuoteLine) k (g : bool) :
  let left := filter (λ l, ¬ (qln_quoteId l.2 = i ∧ qln_blockId l.2 = Some b)) m in
  is_Some ((if g then unblock b <$> left else left) !! k) → is_Some (m !! k).
Proof.
  intros left. destruct g; [rewrite lookup_fmap, fmap_is_Some|];
    intros [x [? _]%map_lookup_filter_Some]; eauto.
Qed.

Lemma deleteBlock_step i b actor now s s' :
  rows_fresh s → deleteBlock i b actor now s = (Ok tt, s') → qgoes s s'.
Proof.
  intros HF H. unfold deleteBlock in H. qruns H. simpl.
  pose proof (λ j k Hj, lines_left_view i b (quoteLines s) j k true Hj) as Ht.
  pose proof (λ j k Hj, lines_left_view i b (quoteLines s) j k false Hj) as Hf.
  pose proof (λ k, lines_left_some i b (quoteLines s) k true) as Gt.
  pose proof (λ k, lines_left_some i b (quoteLines s) k false) as Gf.
  destruct (quoteBlocks s !! b) as [blk|] eqn:Eb; [case_bool_decide as Hi|].
  - eapply (qgoes_edit i); simpl; [done..| |].
    + intros j Hj. split; intros k; [by apply Ht|]. apply row_view_delete. naive_solver.
    + apply (rows_fresh_grow s); simpl; [done|lia|eauto|].
      intros k [x [_ ?]%lookup_delete_Some]. eauto.
  - eapply (qgoes_edit i); simpl; [done..| |].
    + intros j Hj. split; intros k; [by apply Hf | done].
    + apply (rows_fresh_grow s); simpl; [done|lia|eauto..].
  - eapply (qgoes_edit i); simpl; [done..| |].
    + intros j Hj. split; intros k; [by apply Hf | done].
    + apply (rows_fresh_grow s); simpl; [done|lia|eauto..].
Qed.

Lemma insert_line_edit i q s s' f l :
  rows_fresh s → quotes s !! i = Some q → q_status q = qs_draft →
  quotes s' = alter f i (quotes s) → (∀ q, q_status (f q) = q_status q) →
  quoteAcceptances s' = quoteAcceptances s → nextQuoteId s' = N.succ (nextQuoteId s) →
  quoteLines s' = <[nextQuoteId s := l]> (quoteLines s) → qln_quoteId l = i →
  quoteBlocks s' = quoteBlocks s → qgoes s s'.
Proof.
  intros HF Hq Hd Eq Hf Ea En El Hl Eb. pose proof (rows_fresh_next _ HF) as [Hfl _].
  eapply qgoes_edit; [done..|lia| |].
  - intros j Hj. unfold same_content, line_view, block_view. rewrite El, Eb.
    split; intros k; [|done]. apply row_view_insert; congruence.
  - apply (rows_fresh_grow s); [done|lia| |]; rewrite ?El, ?Eb; [|eauto].
    intros k [x [[<- _]|[_ ?]]%lookup_insert_Some]; [right; lia | eauto].
Qed.

Lemma q_addManualLine_step i input actor now s k s' :
  rows_fresh s → q_addManualLine i input actor now s = (Ok k, s') → qgoes s s'.
Proof.
  intros HF H. unfold q_addManualLine in H. qruns H. by eapply insert_line_edit.
Qed.

Lemma q_addCatalogLine_step i itemId qty blockId actor now s k s' :
  rows_fresh s → q_addCatalogLine i itemId qty blockId actor now s = (Ok k, s') → qgoes s s'.
Proof.
  intros HF H. unfold q_addCatalogLine in H. qruns H.
  destruct (catalogItems (invoices_of s) !! itemId), (catalogBilling s !! itemId); try done.
  qruns H. by eapply insert_line_edit.
Qed.

Lemma q_updateLine_step i lineId p actor now s s' :
  rows_fresh s → q_updateLine i lineId p actor now s = (Ok tt, s') → qgoes s s'.
Proof.
  intros HF H. unfold q_updateLine in H. qruns H.
  destruct (quoteLines s !! lineId) as [l|] eqn:El; [|done]. qruns H. bool_prop.
  eapply (qgoes_edit i); simpl; [done..| |].
  - intros j Hj. split; intros k; [|done]. apply row_view_alter; [done|]. simpl. congruence.
  - apply (rows_fresh_grow s); simpl; [done|lia| |eauto].
    intros k [y [(-> & ? & ? & _)|[_ ?]]%lookup_alter_Some]; eauto.
Qed.

Lemma q_removeLine_step i lineId actor now s s' :
  rows_fresh s → q_removeLine i lineId actor now s = (Ok tt, s') → qgoes s s'.
Proof.
  intros HF H. unfold q_removeLine in H. qruns H.
  eapply (qgoes_edit i); simpl; [done..| |].
  - intros j Hj. split; intros k; [|done]. apply row_view_filter. simpl. naive_solver.
  - apply (rows_fresh_grow s); simpl; [done|lia| |eauto].
    intros k [x [? _]%map_lookup_filter_Some]. eauto.
Qed.

(** ** Sending, viewing, declining, expiring *)

Lemma sendQuote_step mint mails i actor now s r s' :
  rows_fresh s → sendQuote mint mails i actor now s = (Ok r, s') → qgoes s s'.
Proof.
  intros HF H. unfold sendQuote in H. qruns H. bool_prop.
  destruct (issue_year _ now) as [year|]; [|done].
  apply qbind_ok in H as (c & s1 & Hc & H). qruns Hc. qruns H.
  destruct (mint i); [|done]. qruns H. apply qgoes_move; simpl; try done.
  intros j. apply row_moved_alter. intros q1. rewrite Hq. intros [= <-].
  split_and!; simpl; [done..|]. rewrite Hb. done.
Qed.

Lemma markQuoteViewed_step i orgId now s s' :
  rows_fresh s → markQuoteViewed i orgId now s = (Ok tt, s') → qgoes s s'.
Proof.
  intros HF H. unfold markQuoteViewed in H. qruns H.
  destruct (quotes s !! i) as [q|] eqn:Hq; [case_bool_decide|]; qruns H.
  2,3: apply qgoes_move; try done; intros; apply row_moved_refl.
  apply qgoes_move; simpl; try done.
  intros j. apply row_moved_alter. intros q' _. split_and!; simpl; [done..|].
  case_bool_decide as E; [rewrite E|]; done.
Qed.

Lemma open_not_converted q : open_for_answer q = true → q_status q ≠ qs_converted.
Proof. unfold open_for_answer. intros H E. by rewrite E in H. Qed.

Lemma declineQuoteByActor_step i reason actor now s r s' :
  rows_fresh s → declineQuoteByActor i reason actor now s = (Ok r, s') → qgoes s s'.
Proof.
  intros HF H. unfold declineQuoteByActor in H. qruns H. apply qgoes_move; simpl; try done.
  intros j. apply row_moved_alter. intros q1. rewrite Hq. intros [= <-].
  apply open_not_converted in Hb. split_and!; simpl; [done..|]. naive_solver.
Qed.

Lemma row_moved_expire now (m : gmap id Quote) (due : list (id * Quote)) j :
  (∀ r q, r ∈ due → m !! r.1 = Some q → q_status q ≠ qs_converted) →
  row_moved (m !! j)
    (foldr (λ r, alter (with_status_q qs_expired (touched now)) r.1) m due !! j).
Proof.
  induction due as [|r due IH]; intros Hdue; simpl; [apply row_moved_refl|].
  assert (row_moved (m !! j)
    (foldr (λ r, alter (with_status_q qs_expired (touched now)) r.1) m due !! j)) as Hj.
  { apply IH. intros r' q Hr. apply Hdue. by constructor. }
  destruct (decide (r.1 = j)) as [<-|]; [|by rewrite lookup_alter_ne].
  rewrite lookup_alter_eq. revert Hj.
  destruct (m !! r.1) as [q|] eqn:Eq, (foldr _ m due !! r.1) as [q'|]; simpl; try done.
  intros Hm. right. assert (q_status q ≠ qs_converted) as Hnc by (eapply Hdue; [left | done]).
  destruct Hm as [->|(Eo & Ea & _)]; split_and!; simpl; naive_solver.
Qed.

Lemma expireQuotes_step now s n s' :
  rows_fresh s → expireQuotes now s = (Ok n, s') → qgoes s s'.
Proof.
  intros HF H. unfold expireQuotes in H. qruns H. apply qgoes_move; simpl; try done.
  intros j. apply row_moved_expire. intros [k q0] q Hin%subseteq_take Hq.
  rewrite order_by_perm, list_elem_of_filter, elem_of_map_to_list in Hin.
  destruct Hin as [Hdue Hk]. simpl in *. simplify_eq.
  unfold reap_due in Hdue. bool_prop. by apply open_not_converted.
Qed.

(** ** Accepting *)

Lemma in_contracts_ok {A} (m : CM A) s a s' :
  in_contracts m s = (Ok a, s') →
  ∃ c, m (contractsDb s) = Ok (a, c) ∧ s' = with_contracts c s.
Proof.
  unfold in_contracts. destruct (m (contractsDb s)) as [[x c]|e]; [|done].
  intros [= <- <-]. eauto.
Qed.

Lemma convert_invoice_ok q oneTime by_ now s inv s' :
  convert_invoice q oneTime by_ now s = (Ok inv, s') → ∃ c, s' = with_contracts c s.
Proof.
  intros H. apply qbind_ok in H as (inv0 & s1 & (c1 & _ & ->)%in_contracts_ok & H).
  apply qbind_ok in H as (u & s1 & (c2 & _ & ->)%in_contracts_ok & H).
  apply qbind_ok in H as (u' & s1 & Hm & [_ <-]%qret_ok). destruct oneTime.
  - apply in_contracts_ok in Hm as (c3 & _ & ->). by exists c3.
  - qruns Hm. apply qbind_ok in Hm as (n & s2 & (c3 & _ & ->)%in_contracts_ok & Hm).
    qruns Hm. apply in_contracts_ok in Hm as (c4 & _ & ->). by exists c4.
Qed.

Lemma create_contracts_ok specs now s cs s' :
  create_contracts specs now s = (Ok cs, s') → ∃ c, s' = with_contracts c s.
Proof.
  revert s cs s'. induction specs as [|spec specs IH]; intros s cs s' H.
  - apply qret_ok in H as [_ <-]. exists (contractsDb s). by destruct s.
  - apply qbind_ok in H as (k & s1 & (c1 & _ & ->)%in_contracts_ok & H).
    apply qbind_ok in H as (ks & s1 & (c & ->)%IH & [_ <-]%qret_ok). by exists c.
Qed.

Lemma acceptQuote_step i p now s r s' :
  rows_fresh s → acceptQuote digest i p now s = (Ok r, s') → qgoes s s'.
Proof.
  intros HF H. unfold acceptQuote in H. qruns H.
  apply qbind_ok in H as (cap & s1 & [= _ <-] & H).
  apply qbind_ok in H as (a & s1 & [= <- <-] & H).
  apply qbind_ok in H as (inv & s1 & (c1 & ->)%convert_invoice_ok & H).
  qruns H. apply qbind_ok in H as (specs & s1 & [= _ <-] & H).
  apply qbind_ok in H as (cs & s1 & (c2 & ->)%create_contracts_ok & H). qruns H.
  split; [|apply (rows_fresh_same s); simpl; [done|lia|done..]].
  eapply (qt_accept _ _ _ i q (with_status_q qs_converted (converted_stamps inv now) q)); simpl; try done.
  apply map_eq. intros j. destruct (decide (i = j)) as [<-|].
  - by rewrite lookup_alter_eq, Hq, lookup_insert_eq.
  - by rewrite lookup_alter_ne, lookup_insert_ne.
Qed.
End handlers.
