(* ===== verification/QuoteAccept.v ===== *)
(** * What accepting a quote produces.

    Run forwards: the acceptance, the invoice of the one-time lines and the draft contracts
    of the recurring ones, with the conditions under which no call throws; and what is
    billed, compared with the lines the customer saw. *)

From S2P Require Import Prelude JsNum Money Calendar InvoiceDb Invoices InvoiceLogic.
From S2P Require Import InvoiceLifecycle InvoiceSafety.
From S2P Require Import Contracts ContractSchedule ContractLifecycle ContractBilling.
From S2P Require Import Quotes QuoteLifecycle QuoteHandlers.

Open Scope Z_scope.

(** ** What is billed *)

(** Description, quantity, unit price and taxability. *)
Definition Item : Type := string * string * string * bool.
Definition quote_item (l : QuoteLine) : Item :=
  (qln_description l, qln_quantity l, qln_unitPrice l, qln_taxable l).
Definition invoice_item (l : Line) : Item :=
  (ln_description l, ln_quantity l, ln_unitPrice l, ln_taxable l).
Definition contract_item (l : ContractLine) : Item :=
  (cl_description l, default ""%string (cl_manualQuantity l), cl_unitPrice l, cl_taxable l).

(** ** The invoice of the one-time lines *)

Lemma run_insert_lines inv ls : ∀ db,
  (∀ k l, invoiceLines db !! k = Some l → (k < nextId db)%N) → Forall (λ l, ln_invoiceId l = inv) ls →
  ∃ ks db', insert_lines ls db = Ok (ks, db') ∧
    (lines_of db' inv).*2 ≡ₚ ls ++ (lines_of db inv).*2 ∧ invoices db' = invoices db ∧
    partners db' = partners db ∧ sequences db' = sequences db.
Proof.
  induction ls as [|l ls IH]; intros db Hf Hls; simpl; [by eexists _, db|].
  apply Forall_cons in Hls as [Hl Hls]. unfold insert_line.
  set (db1 := set_lines <[nextId db := l]> (set_aux (λ s, s) (N.succ (nextId db)) (events db) db)).
  rewrite (run_bind _ _ db (nextId db) db1) by done.
  destruct (IH db1) as (ks & db' & Hrun & Hp & Ei & Ep & Es); [|done|].
  { intros k l'. simpl. intros [[<- _]|[_ Hk]]%lookup_insert_Some; [|apply Hf in Hk]; lia. }
  rewrite (run_bind _ _ db1 ks db' Hrun). eexists _, db'. split_and!; [done| |done..].
  rewrite Hp. change (lines_of db1 inv) with (lines_of (set_lines <[nextId db := l]> db) inv).
  rewrite lines_of_insert; [|destruct (invoiceLines db !! nextId db) eqn:E; [apply Hf in E; lia|done]|done].
  simpl. by rewrite Permutation_middle.
Qed.

Lemma run_in_invoicing {A} (m : M A) s a d :
  m (invoices_of s) = Ok (a, d) →
  in_invoicing m s = (Ok a, with_contracts (with_invoicing d (contractsDb s)) s).
Proof.
  intros H. unfold in_invoicing, in_contracts, invoicing.
  change (invoicingDb (contractsDb s)) with (invoices_of s). by rewrite H.
Qed.

(** The invoice a conversion leaves. *)
Record invoiced (q : Quote) (oneTime : list (id * QuoteLine)) (inv : id) (d : DB) : Prop := {
  iq_row : ∃ row, invoices d !! inv = Some row ∧ iv_orgId row = q_orgId q ∧
    iv_partnerId row = q_partnerId q ∧
    iv_status row = (if oneTime is [] then draft else sent) ∧
    let totals := computeInvoiceTotals (totals_line <$> imap (λ n l, conversion_line inv q n l.2) oneTime)
                    (qh_taxRate (q_header q)) in
    am_total (iv_amounts row) = t_total totals ∧ am_balance (iv_amounts row) = t_total totals;
  iq_lines : (lines_of d inv).*2 ≡ₚ imap (λ n l, conversion_line inv q n l.2) oneTime }.

(** Counters of invoice numbers are never negative. *)
Definition counters_ok (db : DB) : Prop := ∀ key c, sequences db !! key = Some c → 0 <= c.

Lemma run_convert q oneTime by_ now s :
  wf (invoices_of s) → counters_ok (invoices_of s) →
  let inv := nextId (invoices_of s) in
  ∃ d, convert_invoice q oneTime by_ now s =
         (Ok inv, with_contracts (with_invoicing d (contractsDb s)) s) ∧ invoiced q oneTime inv d.
Proof.
  intros Hw Hc inv. set (db := invoices_of s) in *.
  set (ls := imap (λ n l, conversion_line inv q n l.2) oneTime).
  set (row := conversion_row q by_ now).
  set (db1 := set_invoices <[inv := row]> (set_aux (λ s, s) (N.succ inv) (events db) db)).
  assert (insert_invoice row db = Ok (inv, db1)) as H1 by done.
  destruct (run_insert_lines inv ls db1) as (ks & db2 & H2 & Hp & Ei & Ep & Es).
  { intros k l Hk. simpl in *. destruct Hw as [_ Hl _]. apply Hl in Hk as [? _]. unfold inv. lia. }
  { apply Forall_forall. intros l (n & x & -> & _)%elem_of_lookup_imap_1. done. }
  assert ((lines_of db2 inv).*2 ≡ₚ ls) as Hls.
  { pose proof (lines_of_fresh db db1 Hw eq_refl) as Hnone. change (nextId db) with inv in Hnone.
    by rewrite Hp, Hnone, app_nil_r. }
  unfold convert_invoice. rewrite (qbind_run _ _ s inv _ (run_in_invoicing _ s _ _ H1)).
  set (s1 := with_contracts _ s). fold ls.
  rewrite (qbind_run _ _ s1 ks _ (run_in_invoicing _ s1 _ _ H2)). set (s2 := with_contracts _ s1).
  set (totals := computeInvoiceTotals _ _).
  assert (invoices db2 !! inv = Some row) as Hrow by (rewrite Ei; apply lookup_insert_eq).
  destruct oneTime as [|l0 rest].
  - eexists. split; [done|]. split; [|done]. simpl. rewrite lookup_alter_eq, Hrow. by eexists.
  - set (year := getUTCFullYear (now / 86400000)).
    set (c := match sequences db2 !! (q_partnerId q, year) with Some c => c + 1 | None => 1 end).
    assert (1 <= c) as H1c.
    { unfold c. rewrite Es. simpl. destruct (sequences db !! _) as [x|] eqn:E; [|lia].
      apply Hc in E. lia. }
    set (db3 := set_aux <[(q_partnerId q, year) := c]> (nextId db2) (events db2) db2).
    assert (next_invoice_counter (q_partnerId q) year (invoices_of s2) = Ok (c, db3)) as H3 by done.
    erewrite (qbind_run _ _ s2 tt).
    2: { rewrite (qbind_run q_get _ s2 s2 s2) by done.
         rewrite (qbind_run _ _ s2 c _ (run_in_invoicing _ s2 _ _ H3)).
         rewrite (proj2 (Z.leb_le 1 c) H1c). rewrite (qbind_run (q_require true _) _ _ tt _) by done.
         by erewrite run_in_invoicing. }
    eexists. split; [done|]. split; [|done]. simpl. rewrite lookup_alter_eq, Hrow. by eexists.
Qed.

(** ** The contracts of the recurring lines *)

(** Ids of contracts and contract lines were handed out. *)
Definition contract_ids (c : CDB) : Prop :=
  (∀ k row, contracts c !! k = Some row → (k < nextContractId c)%N) ∧
  (∀ k l, contractLines c !! k = Some l → (k < nextContractId c)%N ∧ (cl_contractId l < nextContractId c)%N).

(** What later inserts keep of the contracts that are there. *)
Record extends (c c' : CDB) : Prop := {
  ex_next : (nextContractId c <= nextContractId c')%N;
  ex_rows : ∀ k, (k < nextContractId c)%N → contracts c' !! k = contracts c !! k;
  ex_lines : ∀ k, (k < nextContractId c)%N → lines_of_contract c' k ≡ₚ lines_of_contract c k;
  ex_invoicing : invoicingDb c' = invoicingDb c;
  ex_ids : contract_ids c' }.

Lemma extends_refl c : contract_ids c → extends c c.
Proof. done. Qed.

Lemma extends_trans a b c : extends a b → extends b c → extends a c.
Proof.
  intros [Hn Hr Hl Hi _] [Hn' Hr' Hl' Hi' Hf]. split; [lia| | |congruence|done].
  - intros k Hk. rewrite Hr' by lia. auto.
  - intros k Hk. rewrite Hl' by lia. auto.
Qed.

Lemma lines_of_contract_perm c k :
  lines_of_contract c k ≡ₚ filter (λ l, cl_contractId l.2 = k) (map_to_list (contractLines c)).
Proof. apply order_by_perm. Qed.

Lemma contract_id_unused c : contract_ids c → lines_of_contract c (nextContractId c) = [].
Proof.
  intros [_ Hl]. apply Permutation_nil_r. rewrite lines_of_contract_perm.
  destruct (filter _ _) as [|[k l] r] eqn:Ef; [done|].
  assert ((k, l) ∈ filter (λ l : id * ContractLine, cl_contractId l.2 = nextContractId c)
            (map_to_list (contractLines c))) as [Hi Hin%elem_of_map_to_list]%list_elem_of_filter
    by (rewrite Ef; by left).
  apply Hl in Hin as [_ ?]. simpl in Hi. lia.
Qed.

(** One line more. *)
Lemma run_contract_line c l i :
  contract_ids c → cl_contractId l = i → (i < nextContractId c)%N →
  ∃ c', insert_contract_line l c = Ok (nextContractId c, c') ∧ contracts c' = contracts c ∧
    (lines_of_contract c' i).*2 ≡ₚ l :: (lines_of_contract c i).*2 ∧
    (∀ k, k ≠ i → lines_of_contract c' k ≡ₚ lines_of_contract c k) ∧
    invoicingDb c' = invoicingDb c ∧ nextContractId c' = N.succ (nextContractId c) ∧ contract_ids c'.
Proof.
  intros [Hr Hl] Ei Hi. eexists. split; [done|].
  assert (contractLines c !! nextContractId c = None) as Hfree.
  { destruct (contractLines c !! nextContractId c) eqn:E; [|done]. apply Hl in E. lia. }
  split_and!; simpl; try done.
  - rewrite !lines_of_contract_perm. simpl. rewrite map_to_list_insert by done.
    by rewrite filter_cons_True.
  - intros k Hk. rewrite !lines_of_contract_perm. simpl. rewrite map_to_list_insert by done.
    rewrite filter_cons_False; [done|]. simpl. congruence.
  - split; simpl.
    + intros k row Hk. apply Hr in Hk. lia.
    + intros k x [[<- <-]|[_ Hk]]%lookup_insert_Some; [|apply Hl in Hk]; lia.
Qed.

Lemma run_spec_lines i orgId ls : ∀ n c,
  contract_ids c → (i < nextContractId c)%N →
  ∃ c', insert_spec_lines i orgId n ls c = Ok (tt, c') ∧ contracts c' = contracts c ∧
    (lines_of_contract c' i).*2 ≡ₚ
      imap (λ k l, line_row i orgId (n + Z.of_nat k) l) ls ++ (lines_of_contract c i).*2 ∧
    (∀ k, k ≠ i → lines_of_contract c' k ≡ₚ lines_of_contract c k) ∧
    invoicingDb c' = invoicingDb c ∧ (nextContractId c <= nextContractId c')%N ∧ contract_ids c'.
Proof.
  induction ls as [|l ls IH]; intros n c Hf Hi; simpl; [by exists c|].
  destruct (run_contract_line c (line_row i orgId n l) i Hf eq_refl Hi)
    as (c1 & H1 & Er & Hl & Ho & Ei & En & Hf1).
  rewrite (cbind_run _ _ c _ _ H1). destruct (IH (n + 1) c1 Hf1) as (c2 & H2 & Er2 & Hl2 & Ho2 & Ei2 & En2 & Hf2);
    [rewrite En; lia|].
  exists c2. split_and!; [done|congruence| | |congruence|lia|done].
  - rewrite Hl2, Hl, <- Permutation_middle, Z.add_0_r. simpl. constructor.
    rewrite (imap_ext _ ((λ k l, line_row i orgId (n + Z.of_nat k) l) ∘ S)); [done|].
    intros k x _. simpl. f_equal. lia.
  - intros k Hk. by rewrite Ho2, Ho.
Qed.

(** The contract of one spec. *)
Definition contract_of (spec : NewContractSpec) (k : id) (c : CDB) : Prop :=
  (∃ row, contracts c !! k = Some row ∧ k_status row = c_draft ∧ k_orgId row = ns_orgId spec ∧
          k_schedule row = ns_schedule spec ∧ k_endDate row = ns_endDate spec ∧
          k_nextBillingAt row = None) ∧
  (lines_of_contract c k).*2 ≡ₚ
    imap (λ n l, line_row k (ns_orgId spec) (Z.of_nat n) l) (ns_lines spec).

Lemma run_create_contract spec now c :
  contract_ids c →
  ∃ c', createContractWithLines spec now c = Ok (nextContractId c, c') ∧
        contract_of spec (nextContractId c) c' ∧ extends c c' ∧
        (nextContractId c < nextContractId c')%N.
Proof.
  intros Hf. pose proof Hf as [Hr Hl]. unfold createContractWithLines. erewrite cbind_run by done.
  set (c1 := set_contracts _ _ _).
  assert (contract_ids c1) as Hf1.
  { split; simpl.
    - intros k row [[<- _]|[_ Hk]]%lookup_insert_Some; [|apply Hr in Hk]; lia.
    - intros k l Hk. apply Hl in Hk. lia. }
  destruct (run_spec_lines (nextContractId c) (ns_orgId spec) (ns_lines spec) 0 c1 Hf1)
    as (c2 & H2 & Er & Hls & Ho & Ei & En & Hf2); [simpl; lia|].
  rewrite (cbind_run _ _ c1 _ _ H2). exists c2. split; [done|].
  assert (nextContractId c < nextContractId c2)%N as Hlt by (simpl in En; lia).
  split_and!; [split| |done].
  - rewrite Er. simpl. rewrite lookup_insert_eq. by eexists.
  - rewrite Hls. change (lines_of_contract c1) with (lines_of_contract c).
    by rewrite contract_id_unused, app_nil_r by done.
  - split; [lia| | |done|done].
    + intros k Hk. rewrite Er. simpl. rewrite lookup_insert_ne; [done|lia].
    + intros k Hk. rewrite Ho by lia. done.
Qed.

Lemma contract_of_extends spec k c c' :
  contract_of spec k c → (k < nextContractId c)%N → extends c c' → contract_of spec k c'.
Proof.
  intros [Hr Hl] Hk [_ Er El _ _]. split; [by rewrite Er|]. by rewrite El.
Qed.

Lemma run_create_contracts now specs : ∀ s,
  contract_ids (contractsDb s) →
  ∃ ks c, create_contracts specs now s = (Ok ks, with_contracts c s) ∧ extends (contractsDb s) c ∧
          Forall2 (λ spec k, contract_of spec k c) specs ks.
Proof.
  induction specs as [|spec specs IH]; intros s Hf; simpl.
  - exists [], (contractsDb s). split_and!; [by destruct s | by apply extends_refl | done].
  - destruct (run_create_contract spec now _ Hf) as (c1 & H1 & Hc1 & Hx1 & Hlt).
    rewrite (qbind_run _ _ s (nextContractId (contractsDb s)) (with_contracts c1 s)).
    2: { unfold in_contracts. by rewrite H1. }
    destruct (IH (with_contracts c1 s)) as (ks & c & H2 & Hx2 & Hall); [apply Hx1|].
    rewrite (qbind_run _ _ _ _ _ H2). eexists _, c. split_and!; [done|by eapply extends_trans|].
    constructor; [by eapply contract_of_extends | done].
Qed.

(** ** The cadences of a quote *)

Lemma iso_shape c : column_date c → is_iso_shape (chars (iso c)) = true.
Proof.
  intros Hc. destruct (iso_groups c Hc) as (ly & lm & ld & -> & (Hy & Hm & Hd) & (Dy & Dm & Dd) & _).
  rewrite String.list_ascii_of_string_of_list_ascii.
  do 5 (destruct ly as [|? ly]; try done). do 3 (destruct lm as [|? lm]; try done).
  do 3 (destruct ld as [|? ld]; try done). simpl in *. bool_prop.
  repeat match goal with H : is_digit _ = true |- _ => rewrite H; clear H end. done.
Qed.

Lemma MakeDay_range y mn dt :
  100 <= y <= 19900 → 0 <= mn <= 200 → 1 <= dt <= 31 → Z.abs (MakeDay y mn dt) <= 100000000.
Proof.
  intros Hyr Hmn Hdt. unfold MakeDay. set (z := y + mn / 12). set (k := mn mod 12).
  pose proof (Z.div_mod mn 12 ltac:(lia)) as Ediv. fold k in Ediv.
  assert (0 <= k < 12) by (apply Z.mod_pos_bound; lia).
  assert (100 <= z <= 20000) as Hz by (unfold z; lia). apply DayFromYear_range in Hz.
  assert (0 <= days_before z k <= 366); [|lia].
  pose proof (days_before_12 z). pose proof (leap_day_bounds z). pose proof (days_before_mono z k 12).
  destruct (Z.eq_dec k 0) as [->|]; [rewrite days_before_0; lia|].
  pose proof (days_before_mono z 0 k). rewrite days_before_0 in *. lia.
Qed.

Lemma date_of_day_number c : valid c → date_of_day (day_number c) = c.
Proof.
  intros Hv. destruct (date_of_day_spec (day_number c)) as [Hv' E].
  pose proof (day_number_lex _ _ Hv Hv'). pose proof (day_number_lex _ _ Hv' Hv).
  generalize dependent (date_of_day (day_number c)). intros [y m d] Hv' E Hlt Hgt.
  rewrite E in Hlt, Hgt. apply proj2 in Hlt, Hgt. destruct c as [y' m' d']. cbn [dy dm dd] in *.
  assert (y = y' ∧ m = m' ∧ d = d') as (-> & -> & ->) by lia. done.
Qed.

Lemma day_fields c :
  valid c → getUTCFullYear (day_number c) = dy c ∧ getUTCMonth (day_number c) = dm c - 1 ∧
            getUTCDate (day_number c) = dd c.
Proof.
  intros Hv. pose proof (date_of_day_number c Hv) as E. unfold date_of_day in E.
  assert (∀ x y z, {| dy := x; dm := y; dd := z |} = c → x = dy c ∧ y = dm c ∧ z = dd c) as H
    by (by intros ??? <-).
  apply H in E as (-> & Em & ->). split_and!; [done | lia | done].
Qed.

Lemma DateUTC_valid c :
  valid c → 100 <= dy c <= 19900 → DateUTC (dy c) (dm c - 1) (dd c) = Some (day_number c).
Proof.
  intros Hv Hy. pose proof (valid_bounds c Hv) as [Hm Hd]. unfold DateUTC.
  destruct (Z.leb_spec 0 (dy c)), (Z.leb_spec (dy c) 99); try lia. cbn [andb].
  rewrite (proj2 (Z.leb_le _ _)) by (apply MakeDay_range; lia). reflexivity.
Qed.

(** The end of a term is printed from its day. *)
Lemma addMonthsToDate_iso c t :
  column_date c → dy c <= 9000 → 1 <= t <= 120 →
  addMonthsToDate (iso c) t = Some (utcDay (MakeDay (dy c) (dm c - 1 + t) (dd c))).
Proof.
  intros Hc Hy Ht. unfold addMonthsToDate. rewrite iso_shape by done.
  destruct (Z.ltb_spec t 1); [lia|]. cbn [negb orb]. destruct Hc as [Hv Hy'].
  rewrite parts_iso by (done || lia). cbn [mbind option_bind].
  rewrite DateUTC_valid by (done || lia). cbn [mbind option_bind].
  destruct (day_fields c Hv) as (-> & -> & ->). pose proof (valid_bounds c Hv) as [Hm Hd].
  by rewrite (proj2 (Z.leb_le _ _)) by (apply MakeDay_range; lia).
Qed.

(** A term of up to ten years from a day of the clock has an end. *)
Lemma addMonthsToDate_some now t :
  clock_ok now → 1 <= t <= 120 → is_Some (addMonthsToDate (utc_date now) t).
Proof.
  intros Hk Ht. destruct (today_iso now Hk) as [E Hc]. unfold todayISO in E. rewrite E.
  rewrite addMonthsToDate_iso; [eauto | done | apply Hk | done].
Qed.

(** The validators of quote lines and catalog items bound the terms. *)
Definition terms_ok (ls : list (id * QuoteLine)) : Prop :=
  ∀ l t, l ∈ ls → qln_termMonths l.2 = Some t → 1 <= t <= 120.

Definition groups (ls : list (id * QuoteLine)) (cs : list (Recurrence * Z * string))
    : list (Recurrence * Z * string) :=
  filter (λ c, cadence_lines c.1.1 ls ≠ []) cs.

Lemma end_of_group_ok now g :
  clock_ok now → terms_ok g → ∃ e, end_of_group (utc_date now) g = Ok e.
Proof.
  intros Hk Ht. unfold end_of_group. destruct (distinct_terms g) as [|t [|]] eqn:E; [eauto| |eauto].
  destruct (addMonthsToDate_some now t Hk) as [e ->]; [|eauto].
  assert (t ∈ distinct_terms g) as Hin by (rewrite E; by left).
  apply elem_of_remove_dups, list_elem_of_omap in Hin as (l & Hl & El). by eapply Ht.
Qed.

(** One spec for each cadence that has lines. *)
Lemma run_specs q number ls now by_ cs :
  clock_ok now → terms_ok ls →
  ∃ specs, cadence_specs q number ls (utc_date now) by_ cs = Ok specs ∧
    Forall2 (λ c spec, ∃ e, spec = cadence_spec q number (utc_date now) by_ c (cadence_lines c.1.1 ls) e)
      (groups ls cs) specs.
Proof.
  intros Hk Ht. induction cs as [|c cs (specs & IH & Hall)]; simpl; [by eexists|].
  unfold groups. rewrite filter_cons. fold (groups ls cs).
  destruct (cadence_lines c.1.1 ls) as [|l0 g] eqn:Eg; case_decide as Hc; try done; [by exists specs|].
  destruct (end_of_group_ok now (l0 :: g) Hk) as [e ->].
  { intros l t Hl. apply Ht. rewrite <- Eg in Hl. by apply list_elem_of_filter in Hl as [_ ?]. }
  simpl. rewrite IH. simpl. eexists. split; [done|]. constructor; [|done]. rewrite Eg. by eexists.
Qed.

(** ** What the lines amount to *)

Lemma imap_const {A B} (f : A → B) (g : nat → A → B) l :
  (∀ n x, g n x = f x) → imap g l = f <$> l.
Proof.
  intros H. apply list_eq. intros n. rewrite list_lookup_imap, list_lookup_fmap.
  destruct (l !! n); simpl; [by rewrite H | done].
Qed.

Lemma conversion_items inv q (ls : list (id * QuoteLine)) :
  invoice_item <$> imap (λ n l, conversion_line inv q n l.2) ls = (quote_item ∘ snd) <$> ls.
Proof. rewrite fmap_imap. by apply imap_const. Qed.

Lemma contract_items k orgId (ls : list (id * QuoteLine)) :
  contract_item <$> imap (λ n l, line_row k orgId (Z.of_nat n) l) (imap contract_line_input ls) =
  (quote_item ∘ snd) <$> ls.
Proof.
  rewrite fmap_imap. apply list_eq. intros n.
  rewrite list_lookup_imap, list_lookup_imap, list_lookup_fmap. by destruct (ls !! n).
Qed.

Lemma perm_snoc_case {A} (P Q : A → Prop) `{!∀ x, Decision (P x)} `{!∀ x, Decision (Q x)} (l : list A) :
  (∀ x, P x → Q x → False) → filter P l ++ filter Q l ≡ₚ filter (λ x, P x ∨ Q x) l.
Proof.
  intros Hd. induction l as [|x l IH]; [done|]. rewrite !filter_cons.
  destruct (decide (P x)) as [HP|HP], (decide (Q x)) as [HQ|HQ].
  - by destruct (Hd x).
  - rewrite decide_True by auto. simpl. by apply perm_skip.
  - rewrite decide_True by auto. rewrite <- Permutation_middle. by apply perm_skip.
  - rewrite decide_False by tauto. exact IH.
Qed.

(** The visible lines are the one-time, the monthly and the annual ones. *)
Lemma visible_lines_split (ls : list (id * QuoteLine)) :
  cadence_lines one_time ls ++ cadence_lines monthly ls ++ cadence_lines annual ls ≡ₚ
  filter (λ l, qln_customerVisible l.2 = true) ls.
Proof.
  unfold cadence_lines. rewrite perm_snoc_case by naive_solver congruence.
  rewrite perm_snoc_case by naive_solver congruence.
  erewrite list_filter_iff; [reflexivity|]. intros [k l]. simpl. destruct (qln_recurrence l); naive_solver.
Qed.

Lemma totals_step_shown inv q l a :
  qln_customerVisible l = true →
  totals_step a (quote_invoice_line (for_math l)) = totals_step a (totals_line (conversion_line inv q 0 l)).
Proof.
  intros Ev. unfold totals_step, quote_invoice_line, totals_line.
  cbn [customerVisible lineTotal taxable for_math ql_customerVisible ql_quantity ql_unitPrice
       ql_taxable conversion_line ln_customerVisible ln_lineTotal ln_taxable].
  by rewrite Ev.
Qed.

Lemma totals_step_hidden l a :
  qln_customerVisible l = false → totals_step a (quote_invoice_line (for_math l)) = a.
Proof.
  intros Ev. unfold totals_step, quote_invoice_line.
  cbn [customerVisible for_math ql_customerVisible]. rewrite Ev. by destruct a.
Qed.

(** The quote's figure for the one-time lines is the invoice's total. *)
Lemma fold_visible inv q (ls : list (id * QuoteLine)) a :
  fold_left totals_step (quote_invoice_line <$> one_time_lines ((for_math ∘ snd) <$> ls)) a =
  fold_left totals_step
    (totals_line <$> imap (λ n l, conversion_line inv q n l.2) (cadence_lines one_time ls)) a.
Proof.
  rewrite fmap_imap.
  rewrite (imap_const (λ l, totals_line (conversion_line inv q 0 l.2))) by done.
  revert a. induction ls as [|[k l] ls IH]; intros a; [done|].
  rewrite fmap_cons. unfold one_time_lines, cadence_lines in *. rewrite !filter_cons.
  unfold compose at 1 3. cbn [fst snd for_math ql_recurrence].
  destruct (decide (qln_recurrence l = one_time)) as [Er|Er].
  2: { rewrite decide_False by naive_solver. apply IH. }
  rewrite fmap_cons. cbn [fold_left]. destruct (qln_customerVisible l) eqn:Ev.
  - rewrite decide_True, fmap_cons by done. cbn [fold_left]. rewrite IH. f_equal.
    apply totals_step_shown; done.
  - rewrite decide_False by naive_solver. rewrite <- IH. f_equal. by apply totals_step_hidden.
Qed.

Lemma invoiced_is_advertised inv q (ls : list (id * QuoteLine)) t :
  t_total (computeInvoiceTotals
    (totals_line <$> imap (λ n l, conversion_line inv q n l.2) (cadence_lines one_time ls)) t) =
  q_dueOnAcceptanceTotal (computeQuoteTotals ((for_math ∘ snd) <$> ls) (rate_number t)).
Proof.
  transitivity (q_dueOnAcceptanceTotal (computeQuoteTotals ((for_math ∘ snd) <$> ls) (Number <$> t))).
  - rewrite dueOnAcceptance_is_invoiced. unfold computeInvoiceTotals. by rewrite (fold_visible inv q).
  - destruct t as [[|]|]; reflexivity.
Qed.

(** ** A run of [acceptQuote] *)

Section accept.
Context (digest : Canonical → string) (i : id) (q : Quote) (p : AcceptParams) (now : Z) (s : QDB).

(** An open quote, a signature, and tables as the services keep them. *)
Record acceptable : Prop := {
  ac_quote : quotes s !! i = Some q;
  ac_open : open_for_answer q = true;
  ac_unexpired : isQuoteExpired (q_expiryDate q) (now / 86400000) = false;
  ac_signed : trim (ap_signerName p) ≠ ""%string;
  ac_terms : terms_ok (lines_of_quote s i);
  ac_clock : clock_ok now;
  ac_invoices : wf (invoices_of s);
  ac_counters : counters_ok (invoices_of s);
  ac_contracts : contract_ids (contractsDb s) }.

Lemma capture_some : trim (ap_signerName p) ≠ ""%string → ∃ c, capture p = Ok c ∧ c.1 = trim (ap_signerName p).
Proof. intros H. unfold capture. rewrite bool_decide_false by done. eauto. Qed.

Lemma run_find_quote i0 q0 (s0 : QDB) : quotes s0 !! i0 = Some q0 → find_quote i0 s0 = (Ok q0, s0).
Proof. intros H. unfold find_quote. rewrite (qbind_run _ _ s0 s0 s0) by done. by rewrite H. Qed.

(** The state before the conversion: the acceptance recorded. *)
Definition recorded (c : string * text) : QDB :=
  let blocks := blocks_of_quote s i in
  let lines := lines_of_quote s i in
  (insert_acceptance
    {| qc_quoteId := i; qc_orgId := q_orgId q; qc_signerName := c.1;
       qc_signerEmail := c.2; qc_signedAt := now; qc_ipAddress := clamp_ip (ap_ipAddress p);
       qc_userAgent := ap_userAgent p; qc_quoteSha256 := computeQuoteSha256 digest i q blocks lines;
       qc_tokenJti := ap_tokenJti p |} s).2.

Definition converted (inv : id) : Quote := with_status_q qs_converted (converted_stamps inv now) q.

Lemma run_accept :
  acceptable →
  let lines := lines_of_quote s i in
  let inv := nextId (invoices_of s) in
  ∃ c d specs ks cdb,
    let s' := with_contracts cdb (set_quotes (alter (with_status_q qs_converted (converted_stamps inv now)) i)
                (with_contracts (with_invoicing d (contractsDb s)) (recorded c))) in
    acceptQuote digest i p now s =
      (Ok {| ar_quote := converted inv; ar_acceptanceId := nextQuoteId s; ar_invoiceId := inv;
             ar_invoiceIssued := negb (Nat.eqb (length (cadence_lines one_time lines)) 0);
             ar_contractIds := ks |}, s') ∧
    invoiced q (cadence_lines one_time lines) inv d ∧
    extends (with_invoicing d (contractsDb s)) cdb ∧ Forall2 (λ spec k, contract_of spec k cdb) specs ks ∧
    Forall2 (λ c spec, ∃ e, spec = cadence_spec q (quote_label i q) (utc_date now) (ap_actorUserId p) c
                                     (cadence_lines c.1.1 lines) e) (groups lines CADENCES) specs.
Proof.
  intros [Hq Ho He Hsig Ht Hclk Hw Hcnt Hcid] lines inv.
  destruct (capture_some Hsig) as (c & Hc & _).
  destruct (run_convert q (cadence_lines one_time lines) (ap_actorUserId p) now (recorded c) Hw Hcnt)
    as (d & Hconv & Hinv).
  destruct (run_specs q (quote_label i q) lines now (ap_actorUserId p) CADENCES Hclk Ht)
    as (specs & Hspecs & Hall).
  set (s2 := set_quotes (alter (with_status_q qs_converted (converted_stamps inv now)) i)
    (with_contracts (with_invoicing d (contractsDb s)) (recorded c))).
  destruct (run_create_contracts now specs s2 Hcid) as (ks & cdb & Hcr & Hx & Hks).
  exists c, d, specs, ks, cdb. split_and!; try assumption. unfold acceptQuote.
  rewrite (qbind_run _ _ _ _ _ (run_find_quote i q s Hq)), Ho, He.
  rewrite (qbind_run (q_require true _) _ s tt s) by reflexivity. cbn [negb].
  rewrite (qbind_run (q_require true _) _ s tt s) by reflexivity.
  rewrite (qbind_run q_get _ s s s) by reflexivity. fold lines.
  rewrite (qbind_run (lift_outcome (capture p)) _ s c s) by (unfold lift_outcome; by rewrite Hc).
  erewrite (qbind_run (insert_acceptance _) _ s (nextQuoteId s) (recorded c)) by reflexivity.
  rewrite (qbind_run _ _ _ _ _ Hconv).
  rewrite (qbind_run (update_quote _ _) _ _ tt s2) by reflexivity.
  rewrite (qbind_run (lift_outcome _) _ s2 specs s2)
    by (unfold lift_outcome, buildContractSpecsFromQuote; by rewrite Hspecs).
  rewrite (qbind_run _ _ _ _ _ Hcr).
  rewrite (qbind_run _ _ _ (converted inv) (with_contracts cdb s2)); [reflexivity|].
  apply run_find_quote. change (alter (with_status_q qs_converted (converted_stamps inv now)) i (quotes s) !! i =
    Some (converted inv)). by rewrite lookup_alter_eq, Hq.
Qed.
End accept.

Lemma spec_items q number start by_ c g e k cdb :
  contract_of (cadence_spec q number start by_ c g e) k cdb →
  contract_item <$> (lines_of_contract cdb k).*2 ≡ₚ (quote_item ∘ snd) <$> g.
Proof. intros [_ Hl]. rewrite Hl. cbn [ns_lines cadence_spec]. by rewrite contract_items. Qed.

Lemma groups_items q number start by_ ls cdb cs specs ks :
  Forall2 (λ c spec, ∃ e, spec = cadence_spec q number start by_ c (cadence_lines c.1.1 ls) e) cs specs →
  Forall2 (λ spec k, contract_of spec k cdb) specs ks →
  concat ((λ k, contract_item <$> (lines_of_contract cdb k).*2) <$> ks) ≡ₚ
  concat ((λ c, (quote_item ∘ snd) <$> cadence_lines c.1.1 ls) <$> cs).
Proof.
  intros Hs Hk. revert ks Hk. induction Hs as [|c spec cs specs [e ->] _ IH]; intros ks Hk.
  - by apply Forall2_nil_inv_l in Hk as ->.
  - apply Forall2_cons_inv_l in Hk as (k & ks' & Hc & Hk & ->). simpl.
    by rewrite (spec_items _ _ _ _ _ _ _ _ _ Hc), IH.
Qed.

Lemma groups_concat (ls : list (id * QuoteLine)) cs :
  concat ((λ c, (quote_item ∘ snd) <$> cadence_lines c.1.1 ls) <$> groups ls cs) =
  concat ((λ c, (quote_item ∘ snd) <$> cadence_lines c.1.1 ls) <$> cs).
Proof.
  unfold groups. induction cs as [|c cs IH]; [done|]. rewrite filter_cons. case_decide as Hc.
  - rewrite !fmap_cons. cbn [concat]. by rewrite IH.
  - rewrite fmap_cons. by rewrite Hc, IH.
Qed.

(** The contract of a cadence: a draft in advance, from today, not yet on a schedule. *)
Definition cadence_contract (q : Quote) (now : Z) (cdb : CDB) (c : Recurrence * Z * string) (k : id) : Prop :=
  ∃ row, contracts cdb !! k = Some row ∧ k_status row = c_draft ∧ k_orgId row = q_orgId q ∧
    k_schedule row = {| sc_billingTiming := advance; sc_intervalMonths := c.1.2;
                        sc_startDate := utc_date now |} ∧ k_nextBillingAt row = None.

Lemma cadence_contracts q number now by_ ls cdb cs specs ks :
  Forall2 (λ c spec, ∃ e, spec = cadence_spec q number (utc_date now) by_ c (cadence_lines c.1.1 ls) e) cs specs →
  Forall2 (λ spec k, contract_of spec k cdb) specs ks → Forall2 (cadence_contract q now cdb) cs ks.
Proof.
  intros Hs Hk. revert ks Hk. induction Hs as [|c spec cs specs [e ->] _ IH]; intros ks Hk.
  - by apply Forall2_nil_inv_l in Hk as ->.
  - apply Forall2_cons_inv_l in Hk as (k & ks' & [(row & Hr & Hd & Ho & Hsch & _ & Hn) _] & Hk & ->).
    constructor; [by exists row | auto].
Qed.

(** The figure [getQuote] shows as due on acceptance. *)
Definition shown_due (s : QDB) (i : id) (q : Quote) : string :=
  q_dueOnAcceptanceTotal (computeQuoteTotals ((for_math ∘ snd) <$> lines_of_quote s i)
                            (rate_number (qh_taxRate (q_header q)))).

Lemma getQuote_due i actor s v s' q :
  getQuote i actor s = (Ok v, s') → quotes s !! i = Some q → qv_dueOnAcceptance v = shown_due s i q.
Proof.
  intros H Hi. apply qbind_ok in H as (q0 & s0 & [Hq ->]%find_quote_ok & H).
  apply qbind_ok in H as (u & s0 & [_ ->]%qrequire_ok & H).
  apply qbind_ok in H as (s1 & s0 & [= <- <-] & [<- _]%qret_ok).
  rewrite Hi in Hq. injection Hq as <-. reflexivity.
Qed.

(** C14 (acceptQuote, quoteAcceptService.ts): accepting an open, unexpired quote with a
    signature returns; the quote is converted; the invoice's total and balance are the
    amount [getQuote] showed as due, and it is issued exactly when there are one-time lines;
    the lines of the invoice and of the new contracts together are the visible lines of
    the quote, none lost and none billed twice; and there is one draft contract for each
    cadence with lines, from today and billed in advance. *)
Theorem acceptQuote_bills_quote digest i q p now s :
  acceptable i q p now s →
  ∃ r s', acceptQuote digest i p now s = (Ok r, s') ∧
    quotes s' !! i = Some (converted q now (ar_invoiceId r)) ∧
    (∃ row, invoices (invoices_of s') !! ar_invoiceId r = Some row ∧
      (∀ actor v s0, getQuote i actor s = (Ok v, s0) →
         am_total (iv_amounts row) = qv_dueOnAcceptance v ∧
         am_balance (iv_amounts row) = qv_dueOnAcceptance v) ∧
      iv_status row = if ar_invoiceIssued r then sent else draft) ∧
    (invoice_item <$> (lines_of (invoices_of s') (ar_invoiceId r)).*2) ++
      concat ((λ k, contract_item <$> (lines_of_contract (contractsDb s') k).*2) <$> ar_contractIds r)
    ≡ₚ quote_item <$> (filter (λ l, qln_customerVisible l.2 = true) (lines_of_quote s i)).*2 ∧
    Forall2 (cadence_contract q now (contractsDb s')) (groups (lines_of_quote s i) CADENCES)
      (ar_contractIds r).
Proof.
  intros Hac. destruct (run_accept digest i q p now s Hac)
    as (c & d & specs & ks & cdb & Hrun & [Hrow Hlines] & Hx & Hks & Hsp).
  pose proof (ac_quote _ _ _ _ _ Hac) as Hq. eexists _, _. split; [exact Hrun|].
  clear Hrun. cbn [ar_invoiceId ar_invoiceIssued ar_contractIds].
  change (contractsDb (with_contracts cdb ?x)) with cdb.
  change (invoices_of (with_contracts cdb ?x)) with (invoicingDb cdb).
  assert (invoicingDb cdb = d) as -> by apply Hx. split_and!.
  - change (alter (with_status_q qs_converted (converted_stamps (nextId (invoices_of s)) now)) i (quotes s) !! i
      = Some (converted q now (nextId (invoices_of s)))). by rewrite lookup_alter_eq, Hq.
  - destruct Hrow as (row & Hr & _ & _ & Hst & Htot & Hbal). exists row. split_and!; [exact Hr| |].
    + intros actor v s0 Hg. rewrite (getQuote_due _ _ _ _ _ q Hg Hq), Htot, Hbal.
      by rewrite invoiced_is_advertised.
    + rewrite Hst. by destruct (cadence_lines one_time (lines_of_quote s i)).
  - rewrite Hlines, conversion_items, (groups_items _ _ _ _ _ _ _ _ _ Hsp Hks), groups_concat.
    simpl. rewrite app_nil_r, <- !fmap_app, visible_lines_split. by rewrite <- list_fmap_compose.
  - by eapply cadence_contracts.
Qed.
