(* ===== verification/QuoteSafety.v ===== *)
(** * Theorems on quotes: one acceptance, of content that stays; what is refused.

    A history is any sequence of requests of the quote routes and of the expiry sweep, each
    in its transaction, and of changes that other services make to their own tables. *)

From S2P Require Import Prelude JsNum Money Calendar InvoiceDb Invoices InvoiceLogic.
From S2P Require Import InvoiceLifecycle InvoiceSafety.
From S2P Require Import Contracts ContractSchedule ContractLifecycle ContractBilling ContractSafety.
From S2P Require Import Quotes QuoteLifecycle QuoteHandlers QuoteAccept.

Open Scope Z_scope.

(** ** Histories *)

Inductive QCall :=
| QCreate (input : CreateQuoteInput) (actor : QuoteActor)
| QUpdate (i : id) (u : UpdateQuoteInput) (actor : QuoteActor)
| QDelete (i : id) (actor : QuoteActor)
| QAddBlock (i : id) (t : BlockType) (content : string) (actor : QuoteActor)
| QDeleteBlock (i b : id) (actor : QuoteActor)
| QAddLine (i : id) (input : QuoteLineInput) (actor : QuoteActor)
| QAddCatalogLine (i itemId : id) (quantity : string) (blockId : option id) (actor : QuoteActor)
| QUpdateLine (i lineId : id) (p : QuoteLinePatch) (actor : QuoteActor)
| QRemoveLine (i lineId : id) (actor : QuoteActor)
| QSend (mint : id → option string) (mails : id → bool) (i : id) (actor : QuoteActor)
| QView (i orgId : id)
| QDecline (i : id) (reason : text) (actor : QuoteActor)
| QExpire
| QAccept (i : id) (p : AcceptParams).

Definition q_discard {A} (m : QM A) : QM unit := m ≫= λ _, mret tt.

Definition run_call (digest : Canonical → string) (call : QCall) (now : Z) : QM unit :=
  match call with
  | QCreate input actor => q_discard (createQuote input actor now)
  | QUpdate i u actor => q_discard (updateQuote i u actor now)
  | QDelete i actor => deleteDraftQuote i actor
  | QAddBlock i t content actor => q_discard (addBlock i t content actor)
  | QDeleteBlock i b actor => deleteBlock i b actor now
  | QAddLine i input actor => q_discard (q_addManualLine i input actor now)
  | QAddCatalogLine i itemId quantity blockId actor =>
      q_discard (q_addCatalogLine i itemId quantity blockId actor now)
  | QUpdateLine i lineId p actor => q_updateLine i lineId p actor now
  | QRemoveLine i lineId actor => q_removeLine i lineId actor now
  | QSend mint mails i actor => q_discard (sendQuote mint mails i actor now)
  | QView i orgId => markQuoteViewed i orgId now
  | QDecline i reason actor => q_discard (declineQuoteByActor i reason actor now)
  | QExpire => q_discard (expireQuotes now)
  | QAccept i p => q_discard (acceptQuote digest i p now)
  end.

Section history.
Context (digest : Canonical → string).

Lemma discard_ok {A} (m : QM A) s u s' : q_discard m s = (Ok u, s') → ∃ a, m s = (Ok a, s').
Proof. intros H. apply qbind_ok in H as (a & s1 & H & [_ <-]%qret_ok). eauto. Qed.

Lemma run_call_goes call now s s' :
  rows_fresh s → run_call digest call now s = (Ok tt, s') → qgoes digest s s'.
Proof.
  destruct call; simpl; intros HF H; try apply discard_ok in H as [r H];
    eauto using createQuote_step, updateQuote_step, deleteDraftQuote_step, addBlock_step,
      deleteBlock_step, q_addManualLine_step, q_addCatalogLine_step, q_updateLine_step,
      q_removeLine_step, sendQuote_step, markQuoteViewed_step, declineQuoteByActor_step,
      expireQuotes_step, acceptQuote_step.
Qed.

(** A request, or a change of the tables of other services. *)
Inductive qhist (s s' : QDB) : Prop :=
| qh_call call now r : request (run_call digest call now) s = (r, s') → qhist s s'
| qh_env : quotes s' = quotes s → quoteBlocks s' = quoteBlocks s → quoteLines s' = quoteLines s →
    quoteAcceptances s' = quoteAcceptances s → nextQuoteId s' = nextQuoteId s → qhist s s'.

Inductive qreach : QDB → Prop :=
| qr_init s : quotes s = ∅ → quoteBlocks s = ∅ → quoteLines s = ∅ → quoteAcceptances s = ∅ → qreach s
| qr_step s s' : qreach s → qhist s s' → qreach s'.

Lemma env_goes s s' :
  rows_fresh s → quotes s' = quotes s → quoteBlocks s' = quoteBlocks s →
  quoteLines s' = quoteLines s → quoteAcceptances s' = quoteAcceptances s →
  nextQuoteId s' = nextQuoteId s → qgoes digest s s'.
Proof.
  intros HF Eq Eb El Ea En. apply qgoes_move; try done; [by rewrite En|].
  intros j. rewrite Eq. apply row_moved_refl.
Qed.

Lemma qhist_goes s s' : rows_fresh s → qhist s s' → qgoes digest s s'.
Proof.
  intros HF [call now r H|Eq Eb El Ea En]; [|by apply env_goes].
  unfold request in H. destruct (run_call digest call now s) as [[[]|e] s1] eqn:E; injection H as _ <-.
  - by eapply run_call_goes.
  - by apply env_goes.
Qed.

Lemma qreach_inv s : qreach s → qinv digest s ∧ rows_fresh s.
Proof.
  induction 1 as [s Eq Eb El Ea|s s' _ [HI HF] Hh].
  - split; split; rewrite ?Eq, ?Eb, ?El, ?Ea; done.
  - apply qhist_goes in Hh as [Hs HF']; [|done]. split; [by eapply qstep_inv | done].
Qed.

Lemma qreach_rtc s s' : qreach s → rtc qhist s s' → qreach s'.
Proof. induction 2; eauto using qreach. Qed.

(** An acceptance and what it signed, one step later. *)
Lemma qhist_keeps s s' k a :
  qreach s → qhist s s' → quoteAcceptances s !! k = Some a →
  quoteAcceptances s' !! k = Some a ∧ keeps_signed s s'.
Proof.
  intros HR Hh Ha. destruct (qreach_inv _ HR) as [HI HF].
  apply qhist_goes in Hh as [Hs _]; [|done]. split; [|by eapply qstep_keeps].
  destruct Hs as [i q Hi Hd [_ _ _ E _]|i q Hi Hd _ _ E _|q _ _ _ E _|_ _ E _
                 |i q q' a' Hi Ho Eq Eo Ea Hc Hco E _ _ _]; [by rewrite E| |by rewrite E..|].
  - by rewrite E, (delete_accept_same digest s i q).
  - rewrite E, lookup_insert_ne; [done|]. intros <-. apply (qi_ids _ _ HI) in Ha. lia.
Qed.
End history.

(** C15 (quoteService.ts, quoteLifecycle.ts, quoteAcceptService.ts): in every history a quote
    is converted exactly when it has an acceptance, it never has two, and the hash stored
    with the acceptance is the hash of the content the quote has now. *)
Theorem accepted_exactly_once digest s i q :
  qreach digest s → quotes s !! i = Some q →
  (q_status q = qs_converted ↔ ∃ k a, quoteAcceptances s !! k = Some a ∧ qc_quoteId a = i) ∧
  (∀ k k' a a', quoteAcceptances s !! k = Some a → quoteAcceptances s !! k' = Some a' →
     qc_quoteId a = i → qc_quoteId a' = i → k = k') ∧
  (∀ k a, quoteAcceptances s !! k = Some a → qc_quoteId a = i →
     qc_quoteSha256 a = computeQuoteSha256 digest i q (blocks_of_quote s i) (lines_of_quote s i)).
Proof.
  intros HR Hi. destruct (qreach_inv _ _ HR) as [HI _].
  assert (∀ k a, quoteAcceptances s !! k = Some a → qc_quoteId a = i →
    q_status q = qs_converted ∧ qc_quoteSha256 a = digest (content_now s i q)) as Hsigned.
  { intros k a Ha <-. destruct (qi_signed _ _ HI _ _ Ha) as (q0 & Hq0 & Hc & Hd).
    rewrite Hi in Hq0. injection Hq0 as <-. done. }
  split_and!.
  - split; [by apply (qi_converted _ _ HI)|]. intros (k & a & Ha & Ei). by eapply Hsigned.
  - intros k k' a a' Ha Ha' Ei Ei'. eapply (qi_once _ _ HI); [done..|congruence].
  - intros k a Ha Ei. by eapply Hsigned.
Qed.

(** C16 (quoteContentHash.ts, quoteService.ts): once a quote is accepted, no request and no
    sweep removes the acceptance, unconverts the quote or changes the content that was
    hashed: currency, amounts, blocks and lines. *)
Theorem signed_quote_frozen digest s s' k a :
  qreach digest s → quoteAcceptances s !! k = Some a → rtc (qhist digest) s s' →
  quoteAcceptances s' !! k = Some a ∧
  ∃ q q', quotes s !! qc_quoteId a = Some q ∧ quotes s' !! qc_quoteId a = Some q' ∧
    q_status q' = qs_converted ∧ content_now s' (qc_quoteId a) q' = content_now s (qc_quoteId a) q.
Proof.
  intros HR Ha Hst. revert HR Ha. induction Hst as [s|s s1 s' Hh Hst IH]; intros HR Ha.
  - destruct (qreach_inv _ _ HR) as [HI _]. destruct (qi_signed _ _ HI _ _ Ha) as (q & Hq & Hc & _).
    split; [done|]. by exists q, q.
  - destruct (qhist_keeps _ _ _ _ _ HR Hh Ha) as [Ha1 HK].
    destruct (IH (qr_step _ _ _ HR Hh) Ha1) as (Ha' & q1 & q' & Hq1 & Hq' & Hc' & E).
    split; [done|]. destruct (qreach_inv _ _ HR) as [HI _].
    destruct (qi_signed _ _ HI _ _ Ha) as (q & Hq & Hc & _).
    destruct (HK _ _ Hq Hc) as (q2 & Hq2 & _ & E2). rewrite Hq1 in Hq2. injection Hq2 as <-.
    exists q, q'. split_and!; try done. by rewrite E.
Qed.

(** ** What is refused *)

(** Handlers that leave the quote counters alone. *)
Definition seq_free {A} (m : QM A) : Prop := ∀ s, quoteSequences (m s).2 = quoteSequences s.

Lemma seq_free_bind {A B} (m : QM A) (k : A → QM B) :
  seq_free m → (∀ a, seq_free (k a)) → seq_free (m ≫= k).
Proof.
  intros Hm Hk s. specialize (Hm s). unfold mbind, QM_bind. destruct (m s) as [[a|e] s1]; [|done].
  rewrite <- Hm. apply Hk.
Qed.
Lemma seq_free_contracts {A} (m : CM A) : seq_free (in_contracts m).
Proof. intros s. unfold in_contracts. by destruct (m (contractsDb s)) as [[a c]|e]. Qed.
Lemma seq_free_require b e : seq_free (q_require b e).
Proof. intros s. by destruct b. Qed.
Lemma seq_free_find i : seq_free (find_quote i).
Proof. intros s. unfold find_quote, mbind, QM_bind, q_get. by destruct (quotes s !! i). Qed.
Lemma seq_free_create_contracts specs now : seq_free (create_contracts specs now).
Proof.
  induction specs as [|spec specs IH]; [done|]. apply seq_free_bind; [apply seq_free_contracts|].
  intros c. by apply seq_free_bind.
Qed.
Lemma seq_free_convert q oneTime by_ now : seq_free (convert_invoice q oneTime by_ now).
Proof.
  apply seq_free_bind; [apply seq_free_contracts|]. intros inv.
  apply seq_free_bind; [apply seq_free_contracts|]. intros ks.
  apply seq_free_bind; [|done]. destruct oneTime; [apply seq_free_contracts|].
  apply seq_free_bind; [done|]. intros s0. apply seq_free_bind; [apply seq_free_contracts|].
  intros n. apply seq_free_bind; [apply seq_free_require|]. intros _. apply seq_free_contracts.
Qed.
#[local] Hint Resolve seq_free_bind seq_free_contracts seq_free_require seq_free_find
  seq_free_create_contracts seq_free_convert : remuda.

Lemma seq_free_accept digest i p now : seq_free (acceptQuote digest i p now).
Proof.
  apply seq_free_bind; [auto with remuda|]. intros q.
  do 2 (apply seq_free_bind; [auto with remuda|]; intros _).
  apply seq_free_bind; [done|]. intros s0. apply seq_free_bind; [done|]. intros c.
  apply seq_free_bind; [done|]. intros a. apply seq_free_bind; [auto with remuda|]. intros inv.
  apply seq_free_bind; [done|]. intros _. apply seq_free_bind; [done|]. intros specs.
  apply seq_free_bind; [auto with remuda|]. intros ks. apply seq_free_bind; [auto with remuda|]. done.
Qed.

Lemma set_sequences_same s s' : quoteSequences s' = quoteSequences s → set_sequences (λ _, quoteSequences s') s = s.
Proof. intros E. destruct s. unfold set_sequences. simpl in *. by rewrite E. Qed.

Lemma request_throw {A} (m : QM A) s e s1 :
  seq_free m → m s = (Throw e, s1) → request m s = (Throw e, s).
Proof.
  intros Hm H. unfold request. rewrite H. f_equal. apply set_sequences_same.
  specialize (Hm s). by rewrite H in Hm.
Qed.

(** The guard that refuses an acceptance, in the order of the code. *)
Definition accept_refusal (i : id) (p : AcceptParams) (now : Z) (s : QDB) : option QuoteError :=
  match quotes s !! i with
  | None => Some QUOTE_NOT_FOUND
  | Some q =>
      if negb (open_for_answer q) then Some Q_INVALID_STATE
      else if isQuoteExpired (q_expiryDate q) (now / 86400000) then Some QUOTE_EXPIRED
      else if bool_decide (trim (ap_signerName p) = ""%string) then Some Q_SIGNER_REQUIRED
      else None
  end.

Lemma accept_refused digest i p now s e :
  accept_refusal i p now s = Some e → ∃ s1, acceptQuote digest i p now s = (Throw e, s1).
Proof.
  unfold accept_refusal, acceptQuote. destruct (quotes s !! i) as [q|] eqn:Hq.
  2: { intros [= <-]. eexists. apply qbind_throw. unfold find_quote.
       rewrite (qbind_run _ _ s s s) by done. by rewrite Hq. }
  rewrite (qbind_run _ _ _ _ _ (run_find_quote i q s Hq)).
  destruct (open_for_answer q); cbn [negb]; [|intros [= <-]; by eexists].
  rewrite (qbind_run (q_require true _) _ s tt s) by done.
  destruct (isQuoteExpired _ _); cbn [negb]; [intros [= <-]; by eexists|].
  rewrite (qbind_run (q_require true _) _ s tt s) by done.
  rewrite (qbind_run q_get _ s s s) by done.
  case_bool_decide as Hn; [|done]. intros [= <-]. eexists. apply qbind_throw.
  unfold lift_outcome, capture. by rewrite bool_decide_true.
Qed.

Lemma accept_converts digest i p now s r s' :
  acceptQuote digest i p now s = (Ok r, s') →
  ∃ q, quotes s' !! i = Some q ∧ q_status q = qs_converted.
Proof.
  intros H. unfold acceptQuote in H. qruns H.
  apply qbind_ok in H as (cap & s1 & [= _ <-] & H).
  apply qbind_ok in H as (a & s1 & [= <- <-] & H).
  apply qbind_ok in H as (inv & s1 & (c1 & ->)%convert_invoice_ok & H).
  qruns H. apply qbind_ok in H as (specs & s1 & [= _ <-] & H).
  apply qbind_ok in H as (cs & s1 & (c2 & ->)%create_contracts_ok & H). qruns H.
  simpl. rewrite lookup_alter_eq, Hq. by eexists.
Qed.

(** acceptQuote, quoteAcceptService.ts: a missing, closed or expired quote or a blank
    signature is refused with its own error, in this order; a refused or failed
    acceptance leaves every table as it was; and after an acceptance that succeeds every
    other attempt, at any time and by anyone, is refused as closed. *)
Theorem acceptQuote_refusals digest i p now s :
  (∀ e, accept_refusal i p now s = Some e → request (acceptQuote digest i p now) s = (Throw e, s)) ∧
  (∀ e s', request (acceptQuote digest i p now) s = (Throw e, s') → s' = s) ∧
  (∀ r s', request (acceptQuote digest i p now) s = (Ok r, s') →
     accept_refusal i p now s = None ∧
     ∀ p' now', request (acceptQuote digest i p' now') s' = (Throw Q_INVALID_STATE, s')).
Proof.
  split_and!.
  - intros e He. destruct (accept_refused digest i p now s e He) as [s1 H].
    eapply request_throw; [apply seq_free_accept | exact H].
  - intros e s' H. unfold request in H.
    destruct (acceptQuote digest i p now s) as [[r|e1] s1] eqn:E; [discriminate H|].
    injection H as _ <-. apply set_sequences_same.
    pose proof (seq_free_accept digest i p now s) as Hf. by rewrite E in Hf.
  - intros r s' H. unfold request in H.
    destruct (acceptQuote digest i p now s) as [[r1|e1] s1] eqn:E; [|discriminate H].
    injection H as _ <-. split.
    + destruct (accept_refusal i p now s) as [e|] eqn:Ee; [|done].
      destruct (accept_refused digest i p now s e Ee) as [s2 H]. rewrite H in E. discriminate E.
    + intros p' now'. destruct (accept_converts _ _ _ _ _ _ _ E) as (q & Hq & Hc).
      destruct (accept_refused digest i p' now' s1 Q_INVALID_STATE) as [s2 H].
      { unfold accept_refusal, open_for_answer. by rewrite Hq, Hc. }
      eapply request_throw; [apply seq_free_accept | exact H].
Qed.

(** ** A concrete run: a project fee, a monthly and an annual line, sent and accepted *)

Definition demo_digest (c : Canonical) : string := qa_total (cn_amounts c).
Definition demo_seller : QuoteActor :=
  {| qx_userId := Some 9%N; qx_partnerId := Some 2%N; qx_accessibleOrgIds := None |}.
Definition demo_signer : AcceptParams :=
  {| ap_signerName := " Ada Lovelace "; ap_signerEmail := None; ap_ipAddress := None;
     ap_userAgent := None; ap_tokenJti := None; ap_actorUserId := None |}.
Definition no_quotes : QDB :=
  {| contractsDb := no_contracts; quotes := ∅; quoteBlocks := ∅; quoteLines := ∅;
     quoteAcceptances := ∅; catalogBilling := ∅; quoteSequences := ∅; nextQuoteId := 1 |}.

Definition demo_line_input (d q : string) (price : Z) (r : Recurrence) (t : option Z) (shown : bool)
    : QuoteLineInput :=
  {| qli_sourceType := qsrc_manual; qli_catalogItemId := None; qli_blockId := None;
     qli_description := d; qli_quantity := q; qli_unitPrice := nint price; qli_taxable := true;
     qli_customerVisible := shown; qli_recurrence := r; qli_termMonths := t;
     qli_billingFrequency := None |}.

Definition demo_calls : list QCall :=
  [ QCreate {| cq_orgId := 1; cq_siteId := None; cq_currencyCode := "USD";
      cq_expiryDate := Some "2026-07-31"%string; cq_introNotes := None; cq_terms := None;
      cq_termsAndConditions := None |} demo_seller;
    QUpdate 1 {| uq_siteId := None; uq_expiryDate := None; uq_introNotes := None; uq_terms := None;
      uq_termsAndConditions := None; uq_billToName := None;
      uq_taxRate := Some (Some (Number "0.08")) |} demo_seller;
    QAddLine 1 (demo_line_input "Onboarding" "1" 500 one_time None true) demo_seller;
    QAddLine 1 (demo_line_input "Support" "3" 50 monthly (Some 12) true) demo_seller;
    QAddLine 1 (demo_line_input "Backup" "1" 300 annual None true) demo_seller;
    QAddLine 1 (demo_line_input "Internal" "1" 7 one_time None false) demo_seller;
    QSend (λ _, Some "https://example.com/q"%string) (λ _, true) 1 demo_seller;
    QView 1 1 ].

Definition qafter (call : QCall) (now : Z) (s : QDB) : QDB :=
  (request (run_call demo_digest call now) s).2.
Definition demo_viewed : QDB := foldl (λ s c, qafter c july_1 s) no_quotes demo_calls.
Definition demo_accepted : QDB := qafter (QAccept 1 demo_signer) july_15 demo_viewed.

Lemma qafter_reach s call now : qreach demo_digest s → qreach demo_digest (qafter call now s).
Proof.
  intros H. eapply qr_step; [exact H|].
  apply (qh_call _ _ _ call now (request (run_call demo_digest call now) s).1).
  apply surjective_pairing.
Qed.

Lemma demo_viewed_reach : qreach demo_digest demo_viewed.
Proof.
  assert (∀ calls s, qreach demo_digest s →
            qreach demo_digest (foldl (λ s c, qafter c july_1 s) s calls)) as H.
  { induction calls as [|c calls IH]; intros s Hs; [done|]. by apply IH, qafter_reach. }
  apply H. by apply qr_init.
Qed.

(** The invoice, the contracts and the acceptance of the run. *)
Example demo_accept_view :
  (λ q, (q_status q, qi_number (q_issue q), qa_total (q_amounts q))) <$> quotes demo_viewed !! 1%N =
    Some (qs_viewed, Some "Q-2026-0001", "1026.00")%string ∧
  (λ inv, (iv_status inv, iv_total inv, iv_balance inv)) <$> invoices (invoices_of demo_accepted) !! 100%N =
    Some (sent, "540.00", "540.00")%string ∧
  (λ r, (dt_name (k_details r.2), k_endDate r.2)) <$> map_to_list (contracts (contractsDb demo_accepted)) =
    [("Q-2026-0001 — Annual", None); ("Q-2026-0001 — Monthly", Some "2027-07-15")]%string ∧
  (λ a, (qc_signerName a, qc_quoteSha256 a)) <$> quoteAcceptances demo_accepted !! 6%N =
    Some ("Ada Lovelace", "1026.00")%string.
Proof. vm_compute. done. Qed.

Definition demo_quote : Quote :=
  {| q_origin := {| qo_partnerId := 2; qo_orgId := 1; qo_currencyCode := "USD";
       qo_createdBy := Some 9%N; qo_createdAt := july_1 |};
     q_header := {| qh_siteId := None; qh_expiryDate := Some "2026-07-31"%string;
       qh_introNotes := None; qh_terms := None; qh_termsAndConditions := None;
       qh_billToName := None; qh_taxRate := Some "0.080"%string |};
     q_amounts := {| qa_subtotal := "950.00"; qa_taxTotal := "76.00"; qa_total := "1026.00";
       qa_oneTimeTotal := "500.00"; qa_monthlyTotal := "150.00"; qa_annualTotal := "300.00" |};
     q_issue := {| qi_number := Some "Q-2026-0001"%string; qi_issueDate := Some "2026-07-01"%string;
       qi_sentAt := Some july_1;
       qi_seller := Some (buildSellerSnapshot (partners demo_db !! 2%N));
       qi_billToAddress := None; qi_billToTaxId := None |};
     q_status := qs_viewed;
     q_stamps := viewed_stamps july_1 (no_stamps july_1) |}.

Lemma demo_viewed_row : quotes demo_viewed !! 1%N = Some demo_quote.
Proof. vm_compute. reflexivity. Qed.

Lemma terms_bounded (ls : list (id * QuoteLine)) l t :
  Forall (λ o, match o with Some t => 1 <= t <= 120 | None => True end)
    ((λ l, qln_termMonths l.2) <$> ls) → l ∈ ls → qln_termMonths l.2 = Some t → 1 <= t <= 120.
Proof. rewrite Forall_fmap, Forall_forall. intros H Hl Ht. specialize (H l Hl). simpl in H. by rewrite Ht in H. Qed.

Lemma demo_acceptable : acceptable 1 demo_quote demo_signer july_15 demo_viewed.
Proof.
  assert (contractsDb demo_viewed = no_contracts) as E2 by (vm_compute; reflexivity).
  assert (invoices_of demo_viewed = demo_db) as E1 by (unfold invoices_of; by rewrite E2).
  constructor.
  - exact demo_viewed_row.
  - reflexivity.
  - vm_compute. reflexivity.
  - vm_compute. congruence.
  - assert ((λ l, qln_termMonths l.2) <$> lines_of_quote demo_viewed 1 = [None; Some 12; None; None]) as E
      by (vm_compute; reflexivity).
    intros l t Hl Ht. apply (terms_bounded (lines_of_quote demo_viewed 1) l t); [|exact Hl|exact Ht].
    rewrite E. repeat constructor; simpl; lia.
  - vm_compute. split; congruence.
  - rewrite E1. by constructor.
  - rewrite E1. by intros key c.
  - rewrite E2. by split.
Qed.

(** The sent quote, accepted in time. *)
Lemma acceptQuote_bills_quote_witness :
  acceptable 1 demo_quote demo_signer july_15 demo_viewed ∧
  ∃ r s', acceptQuote demo_digest 1 demo_signer july_15 demo_viewed = (Ok r, s') ∧
          quotes s' !! 1%N = Some (converted demo_quote july_15 (ar_invoiceId r)).
Proof.
  split; [exact demo_acceptable|].
  destruct (acceptQuote_bills_quote demo_digest 1 demo_quote demo_signer july_15 demo_viewed demo_acceptable)
    as (r & s' & Hrun & Hq & _).
  exists r, s'. exact (conj Hrun Hq).
Defined.

Lemma demo_accepted_reach : qreach demo_digest demo_accepted.
Proof. apply qafter_reach, demo_viewed_reach. Qed.

Definition demo_converted : Quote := converted demo_quote july_15 100.
Lemma demo_accepted_row : quotes demo_accepted !! 1%N = Some demo_converted.
Proof. vm_compute. reflexivity. Qed.

(** The accepted quote of the run. *)
Lemma accepted_exactly_once_witness :
  qreach demo_digest demo_accepted ∧ quotes demo_accepted !! 1%N = Some demo_converted ∧
  (q_status demo_converted = qs_converted ↔
   ∃ k a, quoteAcceptances demo_accepted !! k = Some a ∧ qc_quoteId a = 1%N).
Proof.
  split; [exact demo_accepted_reach|]. split; [exact demo_accepted_row|].
  exact (proj1 (accepted_exactly_once demo_digest demo_accepted 1 demo_converted
                  demo_accepted_reach demo_accepted_row)).
Defined.

Definition demo_signature : Acceptance :=
  {| qc_quoteId := 1; qc_orgId := 1; qc_signerName := "Ada Lovelace"; qc_signerEmail := None;
     qc_signedAt := july_15; qc_ipAddress := None; qc_userAgent := None;
     qc_quoteSha256 := "1026.00"; qc_tokenJti := None |}.
Lemma demo_signature_row : quoteAcceptances demo_accepted !! 6%N = Some demo_signature.
Proof. vm_compute. reflexivity. Qed.

(** A later attempt to delete the accepted quote. *)
Definition demo_later : QDB := qafter (QDelete 1 demo_seller) september_1 demo_accepted.

Lemma demo_later_hist : rtc (qhist demo_digest) demo_accepted demo_later.
Proof.
  apply rtc_once. apply (qh_call _ _ _ (QDelete 1 demo_seller) september_1
    (request (run_call demo_digest (QDelete 1 demo_seller) september_1) demo_accepted).1).
  apply surjective_pairing.
Qed.

Lemma signed_quote_frozen_witness :
  qreach demo_digest demo_accepted ∧ quoteAcceptances demo_accepted !! 6%N = Some demo_signature ∧
  rtc (qhist demo_digest) demo_accepted demo_later ∧
  quoteAcceptances demo_later !! 6%N = Some demo_signature.
Proof.
  split; [exact demo_accepted_reach|]. split; [exact demo_signature_row|].
  split; [exact demo_later_hist|].
  exact (proj1 (signed_quote_frozen demo_digest demo_accepted demo_later 6 demo_signature
                  demo_accepted_reach demo_signature_row demo_later_hist)).
Defined.

(** The refusals on the run: the draft, and the second acceptance. *)
Lemma acceptQuote_refusals_witness :
  accept_refusal 1 demo_signer july_15 demo_accepted = Some Q_INVALID_STATE ∧
  request (acceptQuote demo_digest 1 demo_signer july_15) demo_accepted =
    (Throw Q_INVALID_STATE, demo_accepted).
Proof.
  assert (accept_refusal 1 demo_signer july_15 demo_accepted = Some Q_INVALID_STATE) as H
    by (vm_compute; reflexivity).
  split; [exact H|].
  exact (proj1 (acceptQuote_refusals demo_digest 1 demo_signer july_15 demo_accepted) _ H).
Defined.
