(* ===== verification/StripePayments.v ===== *)
(** * Card payments through Stripe ([services/stripeReconcile.ts], [stripeSettle.ts],
    [stripeWebhook.ts], [invoiceCheckout.ts], [stripeConnectService.ts], [partnerStripe.ts],
    [jobs/stripeReconcileSweep.ts], and the pay and settle routes of
    [routes/portal/invoices.ts]).

    A checkout session is opened for the balance of an invoice and remembered in a mapping
    row; a webhook, the return of the customer or a sweep later asks Stripe about the session
    and records the payment.  The tables of invoicing are part of the state; [in_ledger] runs
    a handler of the invoice service and carries out the foreign keys of the mapping.  Stripe
    itself is the record [StripeApi] of the two calls the code makes. *)

From S2P Require Import Prelude JsNum Money Calendar InvoiceDb Invoices.

Open Scope Z_scope.

(** ** Data ([db/schema/stripePayments.ts]) *)

Inductive ConnectStatus := connected | disconnected.
#[export] Instance ConnectStatus_eq_dec : EqDecision ConnectStatus.
Proof. solve_decision. Defined.
Inductive ObjectType := checkout_session | payment_intent | charge.
#[export] Instance ObjectType_eq_dec : EqDecision ObjectType.
Proof. solve_decision. Defined.
Inductive MappingStatus := ms_pending | ms_succeeded | ms_failed | ms_refunded | ms_partially_refunded.
#[export] Instance MappingStatus_eq_dec : EqDecision MappingStatus.
Proof. solve_decision. Defined.

Record Connection := {
  cn_stripeAccountId : string; cn_apiKey : text; cn_keyLast4 : text; cn_livemode : bool;
  cn_status : ConnectStatus; cn_connectedBy : option id; cn_connectedAt : Z;
  cn_disconnectedAt : option Z; cn_updatedAt : Z }.

Record Mapping := {
  mp_orgId : id; mp_invoiceId : id; mp_paymentId : option id; mp_account : string;
  mp_objectType : ObjectType; mp_objectId : string; mp_intent : text; mp_amount : string;
  mp_currency : string; mp_status : MappingStatus; mp_lastEventAt : option Z;
  mp_createdAt : Z; mp_updatedAt : Z }.

(** The connections are keyed by partner, one row each. *)
Record SDB := {
  ledgerDb : DB; mappings : gmap id Mapping; connections : gmap id Connection;
  nextMappingId : id }.

Inductive StripeError :=
| S_INVOICE (e : InvoiceError)           (* raised by the invoice service *)
| NO_STRIPE_KEY | INVALID_STRIPE_KEY | STRIPE_KEY_UNREADABLE       (* PartnerStripeError *)
| NOT_PAYABLE | NOTHING_TO_PAY | STRIPE_NOT_CONNECTED | STRIPE_INIT_FAILED | STRIPE_NO_URL
| S_NON_FINITE                           (* toMinorUnits, fromMinorUnits *)
| STRIPE_CALL                            (* a call of Stripe was rejected *)
| NO_MAPPING | MAPPED_INVOICE_GONE
| UNIQUE_VIOLATION.                      (* invoice_stripe_payments_object_uq *)

(** ** The handler monad: an error rolls the transaction back *)

Definition SM (A : Type) : Type := SDB → outcome StripeError (A * SDB).
#[export] Instance SM_ret : MRet SM := λ A a s, Ok (a, s).
#[export] Instance SM_bind : MBind SM := λ A B k m s,
  match m s with Ok (a, s') => k a s' | Throw e => Throw e end.

Definition s_throw {A} (e : StripeError) : SM A := λ _, Throw e.
Definition s_require (b : bool) (e : StripeError) : SM unit := if b then mret tt else s_throw e.
Definition s_get : SM SDB := λ s, Ok (s, s).
Definition s_modify (f : SDB → SDB) : SM unit := λ s, Ok (tt, f s).
Definition of_option {A} (o : option A) (e : StripeError) : SM A :=
  match o with Some a => mret a | None => s_throw e end.
(** [try { await m } catch]: nothing is written before an error is thrown. *)
Definition s_attempt {A} (m : SM A) : SM (option A) := λ s,
  match m s with Ok (a, s') => Ok (Some a, s') | Throw _ => Ok (None, s) end.

(** [invoice_id ON DELETE CASCADE], [invoice_payment_id ON DELETE SET NULL]. *)
Definition with_payment (p : option id) (m : Mapping) : Mapping :=
  {| mp_orgId := mp_orgId m; mp_invoiceId := mp_invoiceId m; mp_paymentId := p;
     mp_account := mp_account m; mp_objectType := mp_objectType m; mp_objectId := mp_objectId m;
     mp_intent := mp_intent m; mp_amount := mp_amount m; mp_currency := mp_currency m;
     mp_status := mp_status m; mp_lastEventAt := mp_lastEventAt m; mp_createdAt := mp_createdAt m;
     mp_updatedAt := mp_updatedAt m |}.
Definition referential (d : DB) (m : Mapping) : option Mapping :=
  match invoices d !! mp_invoiceId m with
  | None => None
  | Some _ => Some (with_payment
      (p ← mp_paymentId m; match invoicePayments d !! p with Some _ => Some p | None => None end) m)
  end.

Definition with_ledger (d : DB) (s : SDB) : SDB :=
  {| ledgerDb := d; mappings := omap (referential d) (mappings s); connections := connections s;
     nextMappingId := nextMappingId s |}.
Definition set_mappings (g : gmap id Mapping → gmap id Mapping) (s : SDB) : SDB :=
  {| ledgerDb := ledgerDb s; mappings := g (mappings s); connections := connections s;
     nextMappingId := nextMappingId s |}.
Definition set_connections (g : gmap id Connection → gmap id Connection) (s : SDB) : SDB :=
  {| ledgerDb := ledgerDb s; mappings := mappings s; connections := g (connections s);
     nextMappingId := nextMappingId s |}.

Definition in_ledger {A} (m : M A) : SM A := λ s,
  match m (ledgerDb s) with
  | Ok (a, d) => Ok (a, with_ledger d s)
  | Throw e => Throw (S_INVOICE e)
  end.

(** [INSERT] under the unique index on [stripe_object_id]. *)
Definition insert_mapping (m : Mapping) : SM id := λ s,
  if existsb (λ r : id * Mapping, bool_decide (mp_objectId r.2 = mp_objectId m))
       (map_to_list (mappings s))
  then Throw UNIQUE_VIOLATION
  else Ok (nextMappingId s,
    {| ledgerDb := ledgerDb s; mappings := <[nextMappingId s := m]> (mappings s);
       connections := connections s; nextMappingId := N.succ (nextMappingId s) |}).

(** [SELECT ... LIMIT 1]: the first row the table yields. *)
Definition by_object (s : SDB) (objectId : string) : option (id * Mapping) :=
  head (filter (λ r, mp_objectId r.2 = objectId) (map_to_list (mappings s))).
Definition by_intent (s : SDB) (intent : string) : option (id * Mapping) :=
  head (filter (λ r, mp_intent r.2 = Some intent) (map_to_list (mappings s))).

Definition update_mapping (k : id) (f : Mapping → Mapping) : SM unit := s_modify (set_mappings (alter f k)).

Definition with_event (st : MappingStatus) (p : option id) (intent : text) (now : Z) (m : Mapping) : Mapping :=
  {| mp_orgId := mp_orgId m; mp_invoiceId := mp_invoiceId m; mp_paymentId := p;
     mp_account := mp_account m; mp_objectType := mp_objectType m; mp_objectId := mp_objectId m;
     mp_intent := intent; mp_amount := mp_amount m; mp_currency := mp_currency m;
     mp_status := st; mp_lastEventAt := Some now; mp_createdAt := mp_createdAt m;
     mp_updatedAt := now |}.

(** ** Stripe *)

Record Session := {
  ss_id : string; ss_url : text; ss_paid : bool;          (* payment_status === 'paid' *)
  ss_intent : text; ss_amount_total : option Z; ss_currency : text }.

(** The calls: creating a session with a key, an idempotency key, an amount in minor units
    and a currency; retrieving a session.  [None] is a rejected call.  Creation is a function
    of its arguments: Stripe answers a repeated idempotency key with the first answer (for
    as long as it keeps the key, a day). *)
Record StripeApi := {
  sessions_create : string → string → Z → string → option Session;
  sessions_retrieve : string → string → option Session }.

(** ** Connections ([partnerStripe.ts], [stripeConnectService.ts]) *)

(** [account] is the account the key belongs to, [None] when Stripe rejects the key. *)
Definition savePartnerStripeKey (encrypt : string → string) (account : string → option string)
    (partnerId : id) (key : string) (userId : option id) (now : Z) : SM (string * string * bool) :=
  let apiKey := trim key in
  accountId ← of_option (account apiKey) INVALID_STRIPE_KEY;
  let last4 := of_chars (drop (length (chars apiKey) - 4) (chars apiKey)) in
  let livemode := startsWith "sk_live" apiKey || startsWith "rk_live" apiKey in
  s ← s_get;
  s_require (negb (existsb (λ r : id * Connection,
      bool_decide (cn_stripeAccountId r.2 = accountId) && negb (bool_decide (r.1 = partnerId)))
      (map_to_list (connections s)))) INVALID_STRIPE_KEY;;
  s_modify (set_connections <[partnerId :=
    {| cn_stripeAccountId := accountId; cn_apiKey := Some (encrypt apiKey);
       cn_keyLast4 := Some last4; cn_livemode := livemode; cn_status := connected;
       cn_connectedBy := userId; cn_connectedAt := now; cn_disconnectedAt := None;
       cn_updatedAt := now |}]>);;
  mret (accountId, last4, livemode).

Definition getPartnerStripeClient (decrypt : string → option string) (partnerId : id)
    : SM (string * string) :=
  s ← s_get;
  match connections s !! partnerId with
  | Some row =>
      match cn_status row, cn_apiKey row with
      | connected, Some (String _ _ as cipher) =>
          match decrypt cipher with
          | Some (String _ _ as key) => mret (key, cn_stripeAccountId row)
          | _ => s_throw STRIPE_KEY_UNREADABLE
          end
      | _, _ => s_throw NO_STRIPE_KEY
      end
  | None => s_throw NO_STRIPE_KEY
  end.

(** [None] stands for [connected: false]. *)
Definition getPartnerStripeStatus (partnerId : id) : SM (option (string * bool) * text) :=
  s ← s_get;
  mret (match connections s !! partnerId with
        | Some row =>
            (match cn_status row, cn_apiKey row with
             | connected, Some (String _ _) => Some (cn_stripeAccountId row, cn_livemode row)
             | _, _ => None
             end, cn_keyLast4 row)
        | None => (None, None)
        end).

Definition disconnectPartnerStripe (partnerId : id) (now : Z) : SM unit :=
  s_modify (set_connections (alter (λ c,
    {| cn_stripeAccountId := cn_stripeAccountId c; cn_apiKey := None; cn_keyLast4 := None;
       cn_livemode := cn_livemode c; cn_status := disconnected; cn_connectedBy := cn_connectedBy c;
       cn_connectedAt := cn_connectedAt c; cn_disconnectedAt := Some now; cn_updatedAt := now |})
    partnerId)).

Definition getConnectionByAccount (account : string) : SM (option Connection) :=
  s ← s_get;
  mret (snd <$> head (filter (λ r, cn_stripeAccountId r.2 = account) (map_to_list (connections s)))).

Definition markDisconnectedByAccount (account : string) (now : Z) : SM unit :=
  s_modify (set_connections (fmap (λ c,
    if bool_decide (cn_stripeAccountId c = account) then
      {| cn_stripeAccountId := cn_stripeAccountId c; cn_apiKey := cn_apiKey c;
         cn_keyLast4 := cn_keyLast4 c; cn_livemode := cn_livemode c; cn_status := disconnected;
         cn_connectedBy := cn_connectedBy c; cn_connectedAt := cn_connectedAt c;
         cn_disconnectedAt := Some now; cn_updatedAt := now |}
    else c))).

(** ** Opening a session ([invoiceCheckout.ts], the pay route of the portal) *)

Definition PAYABLE (st : InvoiceStatus) : bool :=
  match st with sent | partially_paid | overdue => true | _ => false end.

Definition iv_currency (inv : Invoice) : string := sn_currencyCode (iv_snapshot inv).

Definition minor_units (amount currency : string) : SM (option Z) :=
  match toMinorUnits amount currency with Ok z => mret z | Throw _ => s_throw S_NON_FINITE end.
Definition major_units (minor : Z) (currency : string) : SM string :=
  match fromMinorUnits (nint minor) currency with Ok a => mret a | Throw _ => s_throw S_NON_FINITE end.

Definition find_invoice (i : id) : SM Invoice :=
  s ← s_get; of_option (invoices (ledgerDb s) !! i) (S_INVOICE INVOICE_NOT_FOUND).

Definition idempotencyKey (i : id) (minor : Z) : string :=
  "inv_" +:+ print_Z (Z.of_N i) +:+ "_" +:+ print_Z minor.

Definition pending_mapping (i : id) (inv : Invoice) (account : string) (session : Session) (now : Z)
    : Mapping :=
  {| mp_orgId := iv_orgId inv; mp_invoiceId := i; mp_paymentId := None; mp_account := account;
     mp_objectType := checkout_session; mp_objectId := ss_id session; mp_intent := ss_intent session;
     mp_amount := toFixed 2 (Number (iv_balance inv)); mp_currency := iv_currency inv;
     mp_status := ms_pending; mp_lastEventAt := None; mp_createdAt := now; mp_updatedAt := now |}.

(** [balanceMinor <= 0]: false for a NaN, which [toMinorUnits] excludes. *)
Definition positive_minor (z : option Z) : SM Z :=
  match z with
  | Some z => s_require (0 <? z) NOTHING_TO_PAY;; mret z
  | None => s_throw S_NON_FINITE
  end.

Definition open_session (api : StripeApi) (decrypt : string → option string) (i : id) (inv : Invoice)
    (on_no_key on_other : StripeError) (minor : Z) : SM (Session * string) :=
  client ← (λ s, match getPartnerStripeClient decrypt (iv_partnerId inv) s with
                 | Throw NO_STRIPE_KEY => Throw on_no_key
                 | Throw _ => Throw on_other
                 | ok => ok
                 end);
  session ← of_option (sessions_create api client.1 (idempotencyKey i minor) minor
                         (toLowerCase (iv_currency inv))) STRIPE_CALL;
  mret (session, client.2).

Definition createInvoicePayLink (api : StripeApi) (decrypt : string → option string) (i : id)
    (actor : InvoiceActor) (now : Z) : SM string :=
  inv ← find_invoice i;
  s_require (org_accessible actor (iv_orgId inv)) (S_INVOICE ORG_DENIED);;
  s_require (PAYABLE (iv_status inv)) NOT_PAYABLE;;
  balance ← minor_units (iv_balance inv) (iv_currency inv);
  minor ← positive_minor balance;
  opened ← open_session api decrypt i inv STRIPE_NOT_CONNECTED STRIPE_INIT_FAILED minor;
  match ss_url opened.1 with
  | Some (String _ _ as url) =>
      insert_mapping (pending_mapping i inv opened.2 opened.1 now);; mret url
  | _ => s_throw STRIPE_NO_URL
  end.

(** The pay route of the portal, for the organisation of the customer. *)
Definition pay_invoice (api : StripeApi) (decrypt : string → option string) (i orgId : id) (now : Z)
    : SM text :=
  inv ← find_invoice i;
  s_require (bool_decide (iv_orgId inv = orgId) && bool_decide (iv_status inv ≠ draft))
    (S_INVOICE INVOICE_NOT_FOUND);;
  s_require (PAYABLE (iv_status inv)) NOT_PAYABLE;;
  balance ← minor_units (iv_balance inv) (iv_currency inv);
  minor ← positive_minor balance;
  opened ← open_session api decrypt i inv STRIPE_NOT_CONNECTED STRIPE_INIT_FAILED minor;
  insert_mapping (pending_mapping i inv opened.2 opened.1 now);;
  mret (ss_url opened.1).

(** ** Recording a captured payment ([stripeReconcile.ts]) *)

Record CaptureInput := {
  cp_objectId : string; cp_intent : string; cp_account : string; cp_amount : string;
  cp_currency : string; cp_receivedAt : text }.

Definition markMapping (k : id) (st : MappingStatus) (now : Z) : SM unit :=
  update_mapping k (λ m, with_event st (mp_paymentId m) (mp_intent m) now m).

Definition terminalFail (k : id) (i : id) (now : Z) : SM id :=
  markMapping k ms_failed now;;
  in_ledger (emitInvoiceEvent (payment_failed i None));;
  mret i.

(** Why a capture is refused for good. *)
Definition terminal_reason (input : CaptureInput) (m : Mapping) (inv : Invoice) : bool :=
  bool_decide (iv_status inv = draft) || bool_decide (iv_status inv = void) ||
  negb (bool_decide (toUpperCase (cp_currency input) = toUpperCase (iv_currency inv))) ||
  (bool_decide (cp_account input = ""%string) || negb (bool_decide (cp_account input = mp_account m))) ||
  exceeds (round_cents (cp_amount input)) (round_cents (iv_balance inv)).

Definition captured_payment (i : id) (inv : Invoice) (input : CaptureInput) (now : Z) : Payment :=
  {| py_invoiceId := i; py_orgId := iv_orgId inv; py_amount := toFixed 2 (Number (cp_amount input));
     py_method := card; py_reference := Some (cp_intent input);
     py_receivedAt := default (utc_date now) (cp_receivedAt input); py_recordedBy := None;
     py_note := None |}.

Definition recordStripePayment (input : CaptureInput) (now : Z) : SM id :=
  s ← s_get;
  r ← of_option (by_object s (cp_objectId input)) NO_MAPPING;
  let (k, m) := (r : id * Mapping) in
  match mp_paymentId m with
  | Some _ => mret (mp_invoiceId m)
  | None =>
      let i := mp_invoiceId m in
      inv ← of_option (invoices (ledgerDb s) !! i) MAPPED_INVOICE_GONE;
      if terminal_reason input m inv then terminalFail k i now
      else
        payment ← in_ledger (insert_payment (captured_payment i inv input now));
        update_mapping k (with_event ms_succeeded (Some payment) (Some (cp_intent input)) now);;
        in_ledger (recomputeInvoiceStatus i now);;
        in_ledger (emitInvoiceEvent (payment_recorded i payment));;
        updated ← find_invoice i;
        (if bool_decide (iv_status updated = paid) then in_ledger (emitInvoiceEvent (invoice_paid i))
         else mret tt);;
        mret i
  end.

(** ** Refunds *)

Record RefundInput := {
  rf_intent : string; rf_refunded : Z; rf_charged : Z; rf_currency : string; rf_account : string }.

Definition with_amount (a : string) (p : Payment) : Payment :=
  {| py_invoiceId := py_invoiceId p; py_orgId := py_orgId p; py_amount := a;
     py_method := py_method p; py_reference := py_reference p; py_receivedAt := py_receivedAt p;
     py_recordedBy := py_recordedBy p; py_note := py_note p |}.

Definition reflectStripeRefund (input : RefundInput) (now : Z) : SM unit :=
  s ← s_get;
  match by_intent s (rf_intent input) with
  | None => mret tt
  | Some (k, m) =>
      match mp_paymentId m with
      | None => mret tt
      | Some p =>
          if bool_decide (rf_account input = ""%string) ||
             negb (bool_decide (rf_account input = mp_account m)) then mret tt
          else
            (if rf_charged input <=? rf_refunded input then
               in_ledger (modify (set_payments (delete p)));;
               update_mapping k (λ m, with_event ms_refunded None (mp_intent m) now m)
             else
               amount ← major_units (rf_charged input - rf_refunded input) (rf_currency input);
               in_ledger (modify (set_payments (alter (with_amount amount) p)));;
               markMapping k ms_partially_refunded now);;
            in_ledger (recomputeInvoiceStatus (mp_invoiceId m) now);;
            in_ledger (emitInvoiceEvent (payment_voided (mp_invoiceId m) p))
      end
  end.

(** ** Settling ([stripeSettle.ts], the settle route of the portal, the sweep) *)

Definition capture_of (session : Session) (account amount : string) : CaptureInput :=
  {| cp_objectId := ss_id session; cp_intent := default ""%string (ss_intent session);
     cp_account := account; cp_amount := amount;
     cp_currency := toUpperCase (default "usd"%string (ss_currency session));
     cp_receivedAt := None |}.

(** The shared end of [settleCheckoutSession] and of the completed-session event: a session
    that is paid, names its payment intent and a positive amount is recorded. *)
Definition record_session (session : Session) (account : string) (now : Z) : SM (option id) :=
  if negb (ss_paid session) then mret None
  else
    let amountCents := default 0 (ss_amount_total session) in
    let currency := toUpperCase (default "usd"%string (ss_currency session)) in
    if negb (truthy (ss_intent session)) || (amountCents <=? 0) then mret None
    else
      amount ← major_units amountCents currency;
      i ← recordStripePayment (capture_of session account amount) now;
      mret (Some i).

Definition settleCheckoutSession (api : StripeApi) (decrypt : string → option string)
    (partnerId : id) (sessionId : string) (now : Z) : SM (option id) :=
  client ← getPartnerStripeClient decrypt partnerId;
  session ← of_option (sessions_retrieve api client.1 sessionId) STRIPE_CALL;
  record_session session client.2 now.

(** The settle route: the invoice and the session must be the customer's. *)
Definition settle_invoice (api : StripeApi) (decrypt : string → option string) (i orgId : id)
    (sessionId : string) (now : Z) : SM bool :=
  inv ← find_invoice i;
  s_require (bool_decide (iv_orgId inv = orgId) && bool_decide (iv_status inv ≠ draft))
    (S_INVOICE INVOICE_NOT_FOUND);;
  s ← s_get;
  match filter (λ r, mp_objectId r.2 = sessionId ∧ mp_invoiceId r.2 = i ∧ mp_orgId r.2 = orgId)
          (map_to_list (mappings s)) with
  | [] => mret false
  | _ =>
      r ← s_attempt (settleCheckoutSession api decrypt (iv_partnerId inv) sessionId now);
      mret (match r with Some (Some _) => true | _ => false end)
  end.

Definition MAX_PER_RUN : nat := 200.
Definition MIN_AGE : Z := 2 * 60 * 1000.
Definition MAX_AGE : Z := 7 * 24 * 60 * 60 * 1000.

Definition sweep_row (now : Z) (m : Mapping) : bool :=
  bool_decide (mp_status m = ms_pending) && bool_decide (mp_paymentId m = None) &&
  bool_decide (mp_objectType m = checkout_session) &&
  (mp_createdAt m <? now - MIN_AGE) && (now - MAX_AGE <? mp_createdAt m).

Fixpoint settle_all (api : StripeApi) (decrypt : string → option string) (rows : list (id * string))
    (now : Z) : SM Z :=
  match rows with
  | [] => mret 0
  | (partnerId, sessionId) :: rows =>
      r ← s_attempt (settleCheckoutSession api decrypt partnerId sessionId now);
      n ← settle_all api decrypt rows now;
      mret (match r with Some (Some _) => 1 + n | _ => n end)
  end.

Definition reconcilePendingStripePayments (api : StripeApi) (decrypt : string → option string) (now : Z)
    : SM Z :=
  s ← s_get;
  let rows := take MAX_PER_RUN (order_by (λ a b, mp_createdAt a.2 <=? mp_createdAt b.2)
    (filter (λ r, sweep_row now r.2 = true ∧ invoices (ledgerDb s) !! mp_invoiceId r.2 ≠ None)
       (map_to_list (mappings s)))) in
  settle_all api decrypt
    (omap (λ r, (λ inv, (iv_partnerId inv, mp_objectId r.2)) <$> invoices (ledgerDb s) !! mp_invoiceId r.2)
       rows) now.

(** ** The webhook ([stripeWebhook.ts]), after its signature is verified *)

Inductive EventData :=
| session_completed (session : Session)     (* completed and async_payment_succeeded *)
| payment_failed_event (intent : string)
| charge_refunded (intent : text) (refunded charged : option Z) (currency : text)
| deauthorized
| other_event.
Record StripeEvent := { se_account : text; se_livemode : bool; se_data : EventData }.

Definition MONEY_MOVING (d : EventData) : bool :=
  match d with session_completed _ | payment_failed_event _ | charge_refunded _ _ _ _ => true | _ => false end.

Definition fail_intent (intent : string) (now : Z) : SM unit :=
  s ← s_get;
  match by_intent s intent with
  | None => mret tt
  | Some (k, m) =>
      update_mapping k (λ m, with_event ms_failed (mp_paymentId m) (mp_intent m) now m);;
      in_ledger (emitInvoiceEvent (payment_failed (mp_invoiceId m) (mp_paymentId m)))
  end.

Definition dispatch (e : StripeEvent) (now : Z) : SM unit :=
  match se_data e with
  | session_completed session =>
      record_session session (default ""%string (se_account e)) now;; mret tt
  | payment_failed_event intent => fail_intent intent now
  | charge_refunded (Some (String _ _ as intent)) refunded charged currency =>
      reflectStripeRefund
        {| rf_intent := intent; rf_refunded := default 0 refunded; rf_charged := default 0 charged;
           rf_currency := default "usd"%string currency;
           rf_account := default ""%string (se_account e) |} now
  | charge_refunded _ _ _ _ => mret tt
  | deauthorized =>
      match se_account e with
      | Some (String _ _ as account) => markDisconnectedByAccount account now
      | _ => mret tt
      end
  | other_event => mret tt
  end.

Definition handleStripeEvent (e : StripeEvent) (now : Z) : SM unit :=
  if MONEY_MOVING (se_data e) then
    connection ← match se_account e with
                 | Some (String _ _ as account) => getConnectionByAccount account
                 | _ => mret None
                 end;
    match connection with
    | Some c => if Bool.eqb (cn_livemode c) (se_livemode e) then dispatch e now else mret tt
    | None => mret tt
    end
  else dispatch e now.
