(* ===== verification/StripeLinks.v ===== *)
(** * The links between card sessions and payments: the runs of the handlers of
    [StripePayments], and that each of them keeps the invariant [links]. *)

From S2P Require Import Prelude JsNum Money Calendar InvoiceDb Invoices InvoiceLogic.
From S2P Require Import InvoiceLifecycle Ledger StripePayments.

Open Scope Z_scope.

(** ** Runs of the handler monad *)

Lemma sbind_ok {A B} (m : SM A) (k : A → SM B) s r :
  (m ≫= k) s = Ok r → ∃ a s1, m s = Ok (a, s1) ∧ k a s1 = Ok r.
Proof. unfold mbind, SM_bind. destruct (m s) as [[a s1]|e]; [|done]. eauto. Qed.

Lemma sbind_run {A B} (m : SM A) (k : A → SM B) s a s1 :
  m s = Ok (a, s1) → (m ≫= k) s = k a s1.
Proof. intros H. unfold mbind, SM_bind. by rewrite H. Qed.

Lemma sret_ok {A} (a b : A) (s s' : SDB) : (mret a : SM A) s = Ok (b, s') → a = b ∧ s = s'.
Proof. by intros [= -> ->]. Qed.

Lemma srequire_ok b e s u s' : s_require b e s = Ok (u, s') → b = true ∧ s' = s.
Proof. destruct b; [|done]. by intros [= _ <-]. Qed.

Lemma of_option_ok {A} (o : option A) e s a s' : of_option o e s = Ok (a, s') → o = Some a ∧ s' = s.
Proof. destruct o; [|done]. by intros [= -> ->]. Qed.

Lemma in_ledger_ok {A} (m : M A) s a s' :
  in_ledger m s = Ok (a, s') → ∃ d, m (ledgerDb s) = Ok (a, d) ∧ s' = with_ledger d s.
Proof.
  unfold in_ledger. destruct (m (ledgerDb s)) as [[x d]|e]; [|done]. intros [= <- <-]. eauto.
Qed.

Lemma run_ledger {A} (m : M A) s a d :
  m (ledgerDb s) = Ok (a, d) → in_ledger m s = Ok (a, with_ledger d s).
Proof. intros H. unfold in_ledger. by rewrite H. Qed.

Ltac srun H :=
  lazymatch type of H with
  | (mbind _ (s_require _ _)) _ = Ok _ =>
      let Hb := fresh "Hb" in apply sbind_ok in H as (? & ? & [Hb ->]%srequire_ok & H)
  | (mbind _ (of_option _ _)) _ = Ok _ =>
      let a := fresh "a" in let Ho := fresh "Ho" in
      apply sbind_ok in H as (a & ? & [Ho ->]%of_option_ok & H)
  | (mbind _ (find_invoice _)) _ = Ok _ =>
      let inv := fresh "inv" in let Hi := fresh "Hi" in let s0 := fresh "s0" in
      apply sbind_ok in H as (inv & s0 & Hi & H);
      apply sbind_ok in Hi as (? & ? & [= <- <-] & [Hi ->]%of_option_ok)
  | (mbind _ s_get) _ = Ok _ => apply sbind_ok in H as (? & ? & [= <- <-] & H)
  | (mbind _ (update_mapping _ _)) _ = Ok _ => apply sbind_ok in H as (? & ? & [= <- <-] & H)
  | (mbind _ (markMapping _ _ _)) _ = Ok _ => apply sbind_ok in H as (? & ? & [= <- <-] & H)
  | (mbind _ (in_ledger _)) _ = Ok _ =>
      let d := fresh "d" in let Hd := fresh "Hd" in let a := fresh "a" in
      apply sbind_ok in H as (a & ? & (d & Hd & ->)%in_ledger_ok & H)
  | s_throw _ _ = Ok _ => discriminate H
  | mret _ _ = Ok _ => apply sret_ok in H as [? <-]; subst
  end.
Ltac sruns H := repeat (srun H).

(** ** Links between sessions and payments *)

(** A payment row keeps its invoice and its method, new rows take fresh ids. *)
Record pays (d d' : DB) : Prop := {
  ps_rows : ∀ p y', invoicePayments d' !! p = Some y' →
    (∃ y, invoicePayments d !! p = Some y ∧ py_invoiceId y' = py_invoiceId y ∧
          py_method y' = py_method y) ∨ (nextId d <= p < nextId d')%N;
  ps_next : (nextId d <= nextId d')%N }.

Record links (s : SDB) : Prop := {
  lk_fresh : ∀ k m, mappings s !! k = Some m → (k < nextMappingId s)%N;
  lk_object : ∀ k k' m m', mappings s !! k = Some m → mappings s !! k' = Some m' →
    mp_objectId m = mp_objectId m' → k = k';
  lk_invoice : ∀ k m, mappings s !! k = Some m → is_Some (invoices (ledgerDb s) !! mp_invoiceId m);
  lk_payment : ∀ k m p, mappings s !! k = Some m → mp_paymentId m = Some p →
    ∃ y, invoicePayments (ledgerDb s) !! p = Some y ∧ py_invoiceId y = mp_invoiceId m ∧ py_method y = card;
  lk_once : ∀ k k' m m' p, mappings s !! k = Some m → mappings s !! k' = Some m' →
    mp_paymentId m = Some p → mp_paymentId m' = Some p → k = k';
  lk_paid : ∀ p y, invoicePayments (ledgerDb s) !! p = Some y → (p < nextId (ledgerDb s))%N }.

(** A row after the foreign keys, from the row before. *)
Lemma ledger_mapping d s k m' :
  mappings (with_ledger d s) !! k = Some m' →
  ∃ m, mappings s !! k = Some m ∧ is_Some (invoices d !! mp_invoiceId m) ∧
    m' = with_payment (mp_paymentId m') m ∧
    (∀ p, mp_paymentId m' = Some p → mp_paymentId m = Some p ∧ is_Some (invoicePayments d !! p)).
Proof.
  simpl. rewrite lookup_omap. intros (m & Hm & Hr)%bind_Some. exists m. unfold referential in Hr.
  destruct (invoices d !! mp_invoiceId m) eqn:Ei; [|done]. injection Hr as <-.
  split_and!; [done | by eexists | done|]. simpl. intros p (q & Hq & Hp)%bind_Some.
  destruct (invoicePayments d !! q) eqn:E; [|done]. injection Hp as <-. split; [done | by eexists].
Qed.

Lemma links_ledger d s : links s → pays (ledgerDb s) d → links (with_ledger d s).
Proof.
  intros [Hf Ho Hi Hp Hn Hl] [Hr Hx].
  assert (∀ k m', mappings (with_ledger d s) !! k = Some m' → ∃ m, mappings s !! k = Some m ∧
    mp_objectId m' = mp_objectId m ∧ mp_invoiceId m' = mp_invoiceId m ∧
    (∀ p, mp_paymentId m' = Some p → mp_paymentId m = Some p ∧ is_Some (invoicePayments d !! p))) as H.
  { intros k m' (m & Hm & _ & E & Hpay)%ledger_mapping. exists m. rewrite E at 1 2. done. }
  split.
  - intros k m' (m & Hm & _)%H. eauto.
  - intros k k' m m' (m1 & H1 & E1 & _)%H (m2 & H2 & E2 & _)%H E. eapply Ho; eauto. congruence.
  - intros k m' (m & _ & Hs & E & _)%ledger_mapping. simpl. rewrite E. done.
  - intros k m' p (m & Hm & _ & E & Hpay)%H Ep. destruct (Hpay p Ep) as [Ep0 [y' Hy']].
    destruct (Hp k m p Hm Ep0) as (y & Hy & Eyi & Eym). exists y'. simpl. split; [done|].
    destruct (Hr p y' Hy') as [(y0 & Hy0 & E1 & E2)|Hge]; [|apply Hl in Hy; lia].
    rewrite Hy in Hy0. injection Hy0 as <-. rewrite E1, E2, E. done.
  - intros k k' m m' p (m1 & H1 & _ & _ & E1)%H (m2 & H2 & _ & _ & E2)%H Ep Ep'.
    eapply Hn; [exact H1 | exact H2 | by apply E1 | by apply E2].
  - intros p y Hy. simpl. destruct (Hr p y Hy) as [(y0 & Hy0 & _)|?]; [|lia]. apply Hl in Hy0. lia.
Qed.

Lemma pays_same d d' : invoicePayments d' = invoicePayments d → (nextId d <= nextId d')%N → pays d d'.
Proof. intros E Hn. split; [|done]. intros p y. rewrite E. left. eauto. Qed.

Lemma pays_insert d y ev :
  (∀ p y, invoicePayments d !! p = Some y → (p < nextId d)%N) →
  pays d (set_payments <[nextId d := y]> (set_aux (λ s, s) (N.succ (nextId d)) ev d)).
Proof.
  intros Hl. split; simpl; [|lia]. intros p y' [[<- _]|[_ ?]]%lookup_insert_Some; [right; lia|left; eauto].
Qed.

Lemma pays_delete d k : pays d (set_payments (delete k) d).
Proof. split; simpl; [|lia]. intros p y [_ ?]%lookup_delete_Some. left. eauto. Qed.

Lemma pays_amount d k a : pays d (set_payments (alter (with_amount a) k) d).
Proof.
  split; simpl; [|lia]. intros p y [(-> & y0 & ? & ->)|[_ ?]]%lookup_alter_Some; left; eauto.
Qed.

Lemma pays_recompute i now d a d' : recomputeInvoiceStatus i now d = Ok (a, d') → pays d d'.
Proof. intros (inv & _ & ->)%recomputeStatus_run. by apply pays_same. Qed.

(** A mapping changed in its status, its payment and its times only. *)
Lemma links_event k f s :
  links s →
  (∀ m, mappings s !! k = Some m → mp_objectId (f m) = mp_objectId m ∧ mp_invoiceId (f m) = mp_invoiceId m) →
  (∀ m p, mappings s !! k = Some m → mp_paymentId (f m) = Some p →
     mp_paymentId m = Some p ∨
     (∃ y, invoicePayments (ledgerDb s) !! p = Some y ∧ py_invoiceId y = mp_invoiceId m ∧ py_method y = card) ∧
     (∀ k' m', mappings s !! k' = Some m' → mp_paymentId m' ≠ Some p)) →
  links (set_mappings (alter f k) s).
Proof.
  intros [Hf Ho Hi Hp Hn Hl] Hf1 Hf2. split; simpl; [| | | | |done].
  - intros j m [(-> & m0 & ? & _)|[_ ?]]%lookup_alter_Some; eauto.
  - intros j j' m m' Hj Hj' E.
    apply lookup_alter_Some in Hj as [(-> & m0 & H0 & ->)|[Hne H0]],
      Hj' as [(-> & m1 & H1 & ->)|[Hne' H1]]; [done|..]; try (by eapply Ho).
    + rewrite (proj1 (Hf1 _ H0)) in E. by eapply Ho.
    + rewrite (proj1 (Hf1 _ H1)) in E. by eapply Ho.
  - intros j m [(-> & m0 & H0 & ->)|[_ ?]]%lookup_alter_Some; [|eauto].
    rewrite (proj2 (Hf1 _ H0)). eauto.
  - intros j m p [(-> & m0 & H0 & ->)|[_ ?]]%lookup_alter_Some E; [|eauto].
    rewrite (proj2 (Hf1 _ H0)). destruct (Hf2 _ _ H0 E) as [?|[? _]]; eauto.
  - intros j j' m m' p Hj Hj' E E'.
    apply lookup_alter_Some in Hj as [(-> & m0 & H0 & ->)|[Hne H0]],
      Hj' as [(-> & m1 & H1 & ->)|[Hne' H1]]; [done|..]; [| |by eapply Hn].
    + destruct (Hf2 _ _ H0 E) as [?|[_ Hno]]; [by eapply Hn | by destruct (Hno _ _ H1)].
    + destruct (Hf2 _ _ H1 E') as [?|[_ Hno]]; [by eapply Hn | by destruct (Hno _ _ H0)].
Qed.

(** ** The handlers keep the links *)

Lemma head_filter {A} (P : A → Prop) `{!∀ x, Decision (P x)} l x :
  head (filter P l) = Some x → x ∈ l ∧ P x.
Proof.
  intros Hh. assert (x ∈ filter P l) as [? ?]%list_elem_of_filter; [|done].
  destruct (filter P l); [done|]. injection Hh as ->. by left.
Qed.

Lemma by_object_some s o k m : by_object s o = Some (k, m) → mappings s !! k = Some m ∧ mp_objectId m = o.
Proof. by intros [?%elem_of_map_to_list ?]%head_filter. Qed.
Lemma by_intent_some s o k m : by_intent s o = Some (k, m) → mappings s !! k = Some m ∧ mp_intent m = Some o.
Proof. by intros [?%elem_of_map_to_list ?]%head_filter. Qed.

Lemma emit_pays e d a d' : emitInvoiceEvent e d = Ok (a, d') → pays d d'.
Proof. intros [= _ <-]. by apply pays_same. Qed.

Lemma links_status k st now s :
  links s → links (set_mappings (alter (λ m, with_event st (mp_paymentId m) (mp_intent m) now m) k) s).
Proof. intros HL. apply links_event; [done | done|]. intros m p _ Hp. by left. Qed.

Lemma terminalFail_links k i now s r s' : links s → terminalFail k i now s = Ok (r, s') → links s'.
Proof.
  intros HL H. unfold terminalFail in H. sruns H.
  apply links_ledger; [by apply links_status | by eapply emit_pays].
Qed.

(** The state in which a captured payment is inserted and linked. *)
Lemma capture_links s k m y now intent d :
  links s → mappings s !! k = Some m → py_invoiceId y = mp_invoiceId m → py_method y = card →
  d = set_payments <[nextId (ledgerDb s) := y]>
        (set_aux (λ s, s) (N.succ (nextId (ledgerDb s))) (events (ledgerDb s)) (ledgerDb s)) →
  links (set_mappings (alter (with_event ms_succeeded (Some (nextId (ledgerDb s))) intent now) k)
           (with_ledger d s)).
Proof.
  intros HL Hk Hi Hc ->. pose proof HL as [_ _ _ Hp _ Hl].
  apply links_event; [apply links_ledger; [done | by apply pays_insert]|done|].
  intros m' p Hm' [= <-]. right.
  apply ledger_mapping in Hm' as (m0 & Hm0 & _ & -> & _). rewrite Hk in Hm0. injection Hm0 as <-.
  split.
  - exists y. simpl. by rewrite lookup_insert_eq.
  - intros k' m2 (m3 & H3 & _ & _ & Hpay)%ledger_mapping E. destruct (Hpay _ E) as [E0 _].
    destruct (Hp _ _ _ H3 E0) as (y0 & Hy0 & _). apply Hl in Hy0. lia.
Qed.

Lemma recordStripePayment_links input now s r s' :
  links s → recordStripePayment input now s = Ok (r, s') → links s'.
Proof.
  intros HL H. unfold recordStripePayment in H. sruns H. destruct a as [k m].
  apply by_object_some in Ho as [Hk _].
  destruct (mp_paymentId m) as [p|] eqn:Ep; [by sruns H|]. srun H.
  destruct (terminal_reason input m a); [by eapply terminalFail_links|].
  apply sbind_ok in H as (p & s1 & (d1 & Hd1 & ->)%in_ledger_ok & H). injection Hd1 as <- <-.
  srun H. set (s2 := set_mappings _ _) in H.
  assert (links s2) as HL2
    by (by apply (capture_links s k m (captured_payment (mp_invoiceId m) a input now))).
  apply sbind_ok in H as (u & s3 & (d3 & Hd3 & ->)%in_ledger_ok & H). apply pays_recompute in Hd3.
  pose proof (links_ledger _ _ HL2 Hd3) as HL3.
  apply sbind_ok in H as (u' & s4 & (d4 & Hd4 & ->)%in_ledger_ok & H). apply emit_pays in Hd4.
  pose proof (links_ledger _ _ HL3 Hd4) as HL4. srun H.
  destruct (bool_decide (iv_status inv = paid)).
  - apply sbind_ok in H as (u2 & s5 & (d5 & Hd5 & ->)%in_ledger_ok & H). apply emit_pays in Hd5.
    sruns H. by apply links_ledger.
  - apply sbind_ok in H as (u2 & s5 & [_ <-]%sret_ok & H). by sruns H.
Qed.

Lemma reflectStripeRefund_links input now s s' :
  links s → reflectStripeRefund input now s = Ok (tt, s') → links s'.
Proof.
  intros HL H. unfold reflectStripeRefund in H. srun H.
  destruct (by_intent s (rf_intent input)) as [[k m]|]; [|by sruns H].
  destruct (mp_paymentId m) as [p|]; [|by sruns H].
  destruct (_ || _); [by sruns H|].
  apply sbind_ok in H as (u & s1 & H1 & H).
  assert (links s1) as HL1.
  { destruct (rf_charged input <=? rf_refunded input).
    - apply sbind_ok in H1 as (u1 & s2 & (d & [= _ <-] & ->)%in_ledger_ok & [= _ <-]).
      apply links_event; [apply links_ledger; [done | apply pays_delete] | done | done].
    - apply sbind_ok in H1 as (a & s2 & Ha & H1). unfold major_units in Ha.
      destruct (fromMinorUnits _ _); [|done]. apply sret_ok in Ha as [_ <-].
      apply sbind_ok in H1 as (u1 & s2 & (d & [= _ <-] & ->)%in_ledger_ok & [= _ <-]).
      apply links_status, links_ledger; [done | apply pays_amount]. }
  apply sbind_ok in H as (u2 & s2 & (d2 & Hd2 & ->)%in_ledger_ok & H). apply pays_recompute in Hd2.
  apply in_ledger_ok in H as (d3 & Hd3 & ->). apply emit_pays in Hd3.
  by do 2 (apply links_ledger; [|done]).
Qed.

Lemma insert_mapping_links m s k s' :
  links s → mp_paymentId m = None → is_Some (invoices (ledgerDb s) !! mp_invoiceId m) →
  insert_mapping m s = Ok (k, s') → links s'.
Proof.
  intros [Hf Ho Hi Hp Hn Hl] Em Him. unfold insert_mapping.
  destruct (existsb _ _) eqn:Ex; [done|]. intros [= <- <-].
  assert (∀ k m', mappings s !! k = Some m' → mp_objectId m' ≠ mp_objectId m) as Hnew.
  { intros k m' Hk E. apply Bool.not_true_iff_false in Ex. apply Ex, existsb_exists.
    exists (k, m'). split; [by apply list_elem_of_In, elem_of_map_to_list | by apply bool_decide_true]. }
  split; simpl; [| | | | |done].
  - intros j m' [[<- _]|[_ Hj]]%lookup_insert_Some; [lia|]. apply Hf in Hj. lia.
  - intros j j' m1 m2 Hj Hj' E.
    apply lookup_insert_Some in Hj as [[<- <-]|[? Hj]], Hj' as [[<- <-]|[? Hj']]; [done|..].
    + by destruct (Hnew _ _ Hj').
    + by destruct (Hnew _ _ Hj).
    + by eapply Ho.
  - intros j m' [[_ <-]|[_ Hj]]%lookup_insert_Some; eauto.
  - intros j m' p [[_ <-]|[_ Hj]]%lookup_insert_Some; [congruence | eauto].
  - intros j j' m1 m2 p [[_ <-]|[_ Hj]]%lookup_insert_Some [[_ <-]|[_ Hj']]%lookup_insert_Some E E';
      try congruence. by eapply Hn.
Qed.

Lemma record_session_links session account now s r s' :
  links s → record_session session account now s = Ok (r, s') → links s'.
Proof.
  intros HL H. unfold record_session in H. destruct (negb (ss_paid session)); [by sruns H|].
  destruct (_ || _); [by sruns H|]. apply sbind_ok in H as (a & s1 & Ha & H).
  unfold major_units in Ha. destruct (fromMinorUnits _ _); [|done]. apply sret_ok in Ha as [_ <-].
  apply sbind_ok in H as (i & s1 & H1 & H). sruns H. by eapply recordStripePayment_links.
Qed.

Lemma client_state decrypt p s r s' : getPartnerStripeClient decrypt p s = Ok (r, s') → s' = s.
Proof.
  intros H. unfold getPartnerStripeClient in H. srun H.
  destruct (connections s !! p) as [c|]; [|done].
  destruct (cn_status c); [|done]. destruct (cn_apiKey c) as [[|ch str]|]; [done| |done].
  destruct (decrypt _) as [[|ch' str']|]; [done| |done]. by sruns H.
Qed.

Lemma settle_links api decrypt p sid now s r s' :
  links s → settleCheckoutSession api decrypt p sid now s = Ok (r, s') → links s'.
Proof.
  intros HL H. unfold settleCheckoutSession in H. apply sbind_ok in H as (c & s1 & ->%client_state & H).
  srun H. by eapply record_session_links.
Qed.

Lemma s_attempt_ok {A} (m : SM A) s o s' :
  s_attempt m s = Ok (o, s') → (∃ a, o = Some a ∧ m s = Ok (a, s')) ∨ (o = None ∧ s' = s).
Proof. unfold s_attempt. destruct (m s) as [[a s1]|e]; intros [= <- <-]; eauto. Qed.

Lemma settle_attempt_links api decrypt p sid now s o s' :
  links s → s_attempt (settleCheckoutSession api decrypt p sid now) s = Ok (o, s') → links s'.
Proof. intros HL [(a & _ & H)|[_ ->]]%s_attempt_ok; [by eapply settle_links | done]. Qed.

Lemma settle_all_links api decrypt now rows : ∀ s n s',
  links s → settle_all api decrypt rows now s = Ok (n, s') → links s'.
Proof.
  induction rows as [|[p sid] rows IH]; intros s n s' HL H; simpl in H; [by sruns H|].
  apply sbind_ok in H as (o & s1 & H1 & H). apply sbind_ok in H as (k & s2 & H2 & H). sruns H.
  eapply IH; [|exact H2]. by eapply settle_attempt_links.
Qed.

Lemma settle_invoice_links api decrypt i orgId sid now s b s' :
  links s → settle_invoice api decrypt i orgId sid now s = Ok (b, s') → links s'.
Proof.
  intros HL H. unfold settle_invoice in H. sruns H. destruct (filter _ _); [by sruns H|].
  apply sbind_ok in H as (o & s1 & H1 & H). sruns H. by eapply settle_attempt_links.
Qed.

Lemma fail_intent_links intent now s s' : links s → fail_intent intent now s = Ok (tt, s') → links s'.
Proof.
  intros HL H. unfold fail_intent in H. srun H. destruct (by_intent s intent) as [[k m]|]; [|by sruns H].
  srun H. apply in_ledger_ok in H as (d & Hd%emit_pays & ->). apply links_ledger; [|done].
  by apply links_status.
Qed.

Lemma links_connections g s : links s → links (set_connections g s).
Proof. by intros []. Qed.

Lemma dispatch_links e now s s' : links s → dispatch e now s = Ok (tt, s') → links s'.
Proof.
  intros HL H. unfold dispatch in H. destruct (se_data e) as [session|intent|[[|c t]|] rf ch cu| |].
  - apply sbind_ok in H as (r & s1 & H1 & H). sruns H. by eapply record_session_links.
  - by eapply fail_intent_links.
  - by sruns H.
  - by eapply reflectStripeRefund_links.
  - by sruns H.
  - destruct (se_account e) as [[|c t]|]; [by sruns H| |by sruns H].
    injection H as <-. by apply links_connections.
  - by sruns H.
Qed.

Lemma connection_state account s r s' : getConnectionByAccount account s = Ok (r, s') → s' = s.
Proof. intros H. unfold getConnectionByAccount in H. by sruns H. Qed.

(** What the webhook lets through: an event of a connected account in the right mode. *)
Lemma event_dispatched e now s s' :
  handleStripeEvent e now s = Ok (tt, s') → s' = s ∨ dispatch e now s = Ok (tt, s').
Proof.
  unfold handleStripeEvent. intros H. destruct (MONEY_MOVING (se_data e)); [|by right].
  apply sbind_ok in H as (c & s1 & Hc & H).
  assert (s1 = s) as ->.
  { destruct (se_account e) as [[|ch str]|]; [by sruns Hc | by eapply connection_state | by sruns Hc]. }
  destruct c as [c|]; [|left; by sruns H]. destruct (Bool.eqb _ _); [by right | left; by sruns H].
Qed.

Lemma handleStripeEvent_links e now s s' :
  links s → handleStripeEvent e now s = Ok (tt, s') → links s'.
Proof. intros HL [->|H]%event_dispatched; [done | by eapply dispatch_links]. Qed.

Lemma open_session_state api decrypt i inv e1 e2 minor s r s' :
  open_session api decrypt i inv e1 e2 minor s = Ok (r, s') → s' = s.
Proof.
  intros H. unfold open_session in H. apply sbind_ok in H as (c & s1 & Hc & H).
  assert (s1 = s) as ->.
  { destruct (getPartnerStripeClient decrypt (iv_partnerId inv) s) as [[c0 s0]|[]] eqn:E; try done.
    injection Hc as <- <-. by eapply client_state. }
  by sruns H.
Qed.

Lemma minor_state z s r s' : positive_minor z s = Ok (r, s') → s' = s ∧ z = Some r ∧ 0 < r.
Proof.
  destruct z as [z|]; [|done]. intros H. unfold positive_minor in H. srun H.
  apply sret_ok in H as [-> <-]. bool_prop. done.
Qed.

Lemma minor_units_state a c s r s' : minor_units a c s = Ok (r, s') → s' = s ∧ toMinorUnits a c = Ok r.
Proof.
  unfold minor_units. destruct (toMinorUnits a c) as [z|]; [|done]. intros [-> <-]%sret_ok. done.
Qed.

(** Both ways to open a session end in one insert. *)
Lemma createInvoicePayLink_run api decrypt i actor now s url s' :
  createInvoicePayLink api decrypt i actor now s = Ok (url, s') →
  ∃ inv opened k, invoices (ledgerDb s) !! i = Some inv ∧
    insert_mapping (pending_mapping i inv opened.2 opened.1 now) s = Ok (k, s').
Proof.
  intros H. unfold createInvoicePayLink in H. sruns H.
  apply sbind_ok in H as (bal & s1 & [-> _]%minor_units_state & H).
  apply sbind_ok in H as (minor & s1 & (-> & _ & _)%minor_state & H).
  apply sbind_ok in H as (opened & s1 & ->%open_session_state & H).
  destruct (ss_url opened.1) as [[|c t]|]; [done| |done].
  apply sbind_ok in H as (k & s1 & Hk & H). sruns H. eauto.
Qed.

Lemma pay_invoice_run api decrypt i orgId now s url s' :
  pay_invoice api decrypt i orgId now s = Ok (url, s') →
  ∃ inv opened k, invoices (ledgerDb s) !! i = Some inv ∧
    insert_mapping (pending_mapping i inv opened.2 opened.1 now) s = Ok (k, s').
Proof.
  intros H. unfold pay_invoice in H. sruns H.
  apply sbind_ok in H as (bal & s1 & [-> _]%minor_units_state & H).
  apply sbind_ok in H as (minor & s1 & (-> & _ & _)%minor_state & H).
  apply sbind_ok in H as (opened & s1 & ->%open_session_state & H).
  apply sbind_ok in H as (k & s1 & Hk & H). sruns H. eauto.
Qed.

Lemma pending_links i inv opened k now s s' :
  links s → invoices (ledgerDb s) !! i = Some inv →
  insert_mapping (pending_mapping i inv (opened : Session * string).2 opened.1 now) s = Ok (k, s') → links s'.
Proof. intros HL Hi. apply insert_mapping_links; [done | done | by eexists]. Qed.

(** ** The handlers of the invoice service that write payments *)

Lemma pays_trans a b c : pays a b → pays b c → pays a c.
Proof.
  intros [Hr Hn] [Hr' Hn']. split; [|lia].
  intros p y Hp.
  destruct (Hr' p y Hp) as [(y' & Hy' & E1 & E2)|?]; [|right; lia].
  destruct (Hr p y' Hy') as [(y0 & Hy0 & E3 & E4)|?]; [left|right; lia].
  exists y0. split_and!; congruence.
Qed.

Lemma mbind_ok {A B} (m : M A) (k : A → M B) d r :
  (m ≫= k) d = Ok r → ∃ a d1, m d = Ok (a, d1) ∧ k a d1 = Ok r.
Proof. unfold mbind, M_bind. destruct (m d) as [[a d1]|e]; [|done]. eauto. Qed.

(** Runs that only read. *)
Lemma require_state b e d u d' : require b e d = Ok (u, d') → d' = d.
Proof. destruct b; [|done]. by intros [= _ <-]. Qed.
Lemma owned_state i d inv d' : getOwnedInvoiceOr404 i d = Ok (inv, d') → d' = d.
Proof.
  unfold getOwnedInvoiceOr404. cbv [mbind M_bind get_db mret M_ret].
  destruct (invoices d !! i); [|done]. by intros [= _ <-].
Qed.

Lemma recordPayment_pays i input actor now d r d' :
  (∀ p y, invoicePayments d !! p = Some y → (p < nextId d)%N) →
  recordPayment i input actor now d = Ok (r, d') → pays d d'.
Proof.
  intros Hl H. apply mbind_ok in H as (inv & d1 & ->%owned_state & H).
  apply mbind_ok in H as (u1 & d1 & ->%require_state & H).
  apply mbind_ok in H as (u2 & d1 & ->%require_state & H).
  apply mbind_ok in H as (u3 & d1 & ->%require_state & H).
  apply mbind_ok in H as (u4 & d1 & ->%require_state & H).
  apply mbind_ok in H as (p & d1 & [= <- <-] & H). set (d1 := set_payments _ _) in H.
  apply mbind_ok in H as (u5 & d2 & H2%pays_recompute & H).
  apply mbind_ok in H as (u6 & d3 & H3%emit_pays & H).
  apply mbind_ok in H as (up & d4 & ->%owned_state & H).
  apply mbind_ok in H as (u7 & d4 & H4 & [= _ <-]).
  assert (pays d d3) as H03.
  { eapply pays_trans; [by apply (pays_insert d)|]. by eapply pays_trans. }
  destruct (bool_decide (iv_status up = paid)).
  - eapply pays_trans; [exact H03|]. by eapply emit_pays.
  - by injection H4 as _ <-.
Qed.

Lemma voidPayment_pays k actor now d r d' : voidPayment k actor now d = Ok (r, d') → pays d d'.
Proof.
  intros H. apply mbind_ok in H as (d0 & d1 & [= <- <-] & H).
  destruct (invoicePayments d !! k); [|done].
  apply mbind_ok in H as (u1 & d1 & ->%require_state & H).
  apply mbind_ok in H as (u2 & d1 & [= _ <-] & H).
  apply mbind_ok in H as (u3 & d2 & H2%pays_recompute & H).
  apply mbind_ok in H as (inv & d3 & ->%owned_state & H).
  apply mbind_ok in H as (u4 & d3 & H3%emit_pays & [= _ <-]).
  eapply pays_trans; [apply pays_delete|]. by eapply pays_trans.
Qed.

Lemma deleteDraftInvoice_pays i actor d r d' : deleteDraftInvoice i actor d = Ok (r, d') → pays d d'.
Proof.
  intros H. unfold deleteDraftInvoice, editableDraft, requireOrgAccess, assertDraft in H.
  apply mbind_ok in H as (inv & d1 & H1 & H).
  assert (d1 = d) as ->.
  { apply mbind_ok in H1 as (inv0 & d2 & ->%owned_state & H1).
    apply mbind_ok in H1 as (u1 & d2 & ->%require_state & H1).
    apply mbind_ok in H1 as (u2 & d2 & ->%require_state & [= _ <-]). done. }
  injection H as _ <-. split; simpl; [|lia].
  intros p y [Hy _]%map_lookup_filter_Some. left. eauto.
Qed.
