(* ===== verification/StripeSafety.v ===== *)
(** * Theorems on card payments: what a capture and a refund do to the ledger, that a
    session is counted once, that an event stays within its account, and two defects. *)

From S2P Require Import Prelude JsNum Money Calendar InvoiceDb Invoices InvoiceLogic.
From S2P Require Import InvoiceLifecycle Ledger StripePayments StripeLinks.

Open Scope Z_scope.

(** ** Runs forwards *)

(** A select finds the only row that matches. *)
Lemma head_filter_run (g : gmap id Mapping) (P : id * Mapping → Prop) `{!∀ r, Decision (P r)} k m :
  g !! k = Some m → P (k, m) → (∀ k' m', g !! k' = Some m' → P (k', m') → k' = k) →
  head (filter P (map_to_list g)) = Some (k, m).
Proof.
  intros Hk Hm Hu. destruct (head (filter P (map_to_list g))) as [[k' m']|] eqn:E.
  - apply head_filter in E as [Hk'%elem_of_map_to_list HP]. pose proof (Hu k' m' Hk' HP) as ->.
    rewrite Hk in Hk'. by injection Hk' as ->.
  - exfalso. assert ((k, m) ∈ filter P (map_to_list g)) as Hin
      by (apply list_elem_of_filter; split; [done | by apply elem_of_map_to_list]).
    destruct (filter _ _); [by apply elem_of_nil in Hin | done].
Qed.

Lemma by_object_run s k m : links s → mappings s !! k = Some m → by_object s (mp_objectId m) = Some (k, m).
Proof.
  intros HL Hk. apply head_filter_run; [done | done|]. intros k' m' Hk' E. by eapply lk_object.
Qed.

Lemma fresh_below s : links s → invoicePayments (ledgerDb s) !! nextId (ledgerDb s) = None.
Proof.
  intros HL. destruct (invoicePayments (ledgerDb s) !! nextId (ledgerDb s)) eqn:E; [|done].
  apply (lk_paid _ HL) in E. lia.
Qed.

Lemma alter_at {A} (f : A → A) (k : id) (x : A) (g : gmap id A) : g !! k = Some x → alter f k g = <[k := f x]> g.
Proof.
  intros Hk. apply map_eq. intros j. destruct (decide (k = j)) as [<-|].
  - by rewrite lookup_alter_eq, Hk, lookup_insert_eq.
  - by rewrite lookup_alter_ne, lookup_insert_ne.
Qed.

(** Tables in which no invoice and no payment is gone: the foreign keys do nothing. *)
Definition no_deletes (d d' : DB) : Prop :=
  (∀ i, is_Some (invoices d !! i) → is_Some (invoices d' !! i)) ∧
  (∀ p, is_Some (invoicePayments d !! p) → is_Some (invoicePayments d' !! p)).

Lemma no_deletes_mappings d s :
  links s → no_deletes (ledgerDb s) d → mappings (with_ledger d s) = mappings s.
Proof.
  intros HL [Hi Hp]. apply map_eq. intros k. simpl. rewrite lookup_omap.
  destruct (mappings s !! k) as [m|] eqn:Hk; [|done]. simpl. unfold referential.
  destruct (Hi _ (lk_invoice _ HL k m Hk)) as [inv ->]. f_equal.
  transitivity (with_payment (mp_paymentId m) m); [|by destruct m]. f_equal.
  destruct (mp_paymentId m) as [p|] eqn:Ep; [|done]. simpl.
  destruct (lk_payment _ HL k _ p Hk Ep) as (y & Hy & _). by destruct (Hp p (mk_is_Some _ _ Hy)) as [y' ->].
Qed.

Lemma recompute_no_deletes i now d a d' : recomputeInvoiceStatus i now d = Ok (a, d') → no_deletes d d'.
Proof.
  intros (inv & _ & ->)%recomputeStatus_run. split; [|done]. intros j Hj. simpl.
  destruct (decide (i = j)) as [<-|]; [by rewrite lookup_insert_eq | by rewrite lookup_insert_ne].
Qed.
Lemma emit_no_deletes e d a d' : emitInvoiceEvent e d = Ok (a, d') → no_deletes d d'.
Proof. by intros [= _ <-]. Qed.

(** An emit only appends the event. *)
Lemma run_emit e s :
  links s →
  ∃ s', in_ledger (emitInvoiceEvent e) s = Ok (tt, s') ∧ links s' ∧ mappings s' = mappings s ∧
    connections s' = connections s ∧
    ledgerDb s' = set_aux (λ x, x) (nextId (ledgerDb s)) (events (ledgerDb s) ++ [e]) (ledgerDb s).
Proof.
  intros HL. eexists. split; [done|]. split_and!; [|by apply no_deletes_mappings|done..].
  apply links_ledger; [done|]. by eapply emit_pays.
Qed.

Section capture.
Context (s : SDB) (k : id) (m : Mapping) (inv : Invoice) (T S : Z) (input : CaptureInput) (a now : Z).
Local Abbreviation i := (mp_invoiceId m).
Local Abbreviation d := (ledgerDb s).

(** A session of the capture whose invoice is issued, in its currency and account. *)
Record capturable : Prop := {
  cb_links : links s;
  cb_mapping : mappings s !! k = Some m; cb_object : mp_objectId m = cp_objectId input;
  cb_unrecorded : mp_paymentId m = None;
  cb_ledger : ledger d i inv T S; cb_payable : payable inv; cb_paid : 0 <= S;
  cb_amount : cp_amount input = decimal_text 2 a; cb_range : 0 < a <= 2 ^ 40;
  cb_currency : toUpperCase (cp_currency input) = toUpperCase (iv_currency inv);
  cb_account : cp_account input = mp_account m; cb_known : mp_account m ≠ ""%string }.

Lemma capturable_reason : capturable → terminal_reason input m inv = (T - S <? a).
Proof.
  intros [_ _ _ _ HL ([Hnd Hnv] & _ & _) HS Ha Hr Hc Hac Hk]. pose proof HL as [_ _ _ _ Hb Hrg].
  unfold terminal_reason. rewrite Ha, Hb, !round_cents_text by lia. cbn [exceeds].
  rewrite (bool_decide_eq_false_2 (iv_status inv = draft)), (bool_decide_eq_false_2 (iv_status inv = void)),
    (bool_decide_eq_true_2 _ Hc), (bool_decide_eq_true_2 _ Hac), bool_decide_eq_false_2 by congruence. done.
Qed.

Lemma run_record_find :
  capturable →
  recordStripePayment input now s =
    (if terminal_reason input m inv then terminalFail k i now
     else
       payment ← in_ledger (insert_payment (captured_payment i inv input now));
       update_mapping k (with_event ms_succeeded (Some payment) (Some (cp_intent input)) now);;
       in_ledger (recomputeInvoiceStatus i now);;
       in_ledger (emitInvoiceEvent (payment_recorded i payment));;
       updated ← find_invoice i;
       (if bool_decide (iv_status updated = paid) then in_ledger (emitInvoiceEvent (invoice_paid i))
        else mret tt);;
       mret i) s.
Proof.
  intros [HL Hk Ho Hp Hg _ _ _ _ _ _ _]. unfold recordStripePayment.
  rewrite (sbind_run s_get _ s s s) by done. rewrite <- Ho, (by_object_run s k m HL Hk).
  rewrite (sbind_run (of_option (Some (k, m)) _) _ s (k, m) s) by done. rewrite Hp.
  by rewrite (sbind_run (of_option _ _) _ s inv s) by (by rewrite (lg_row _ _ _ _ _ Hg)).
Qed.

(** The state a recorded capture leaves. *)
Record recorded_in (s' : SDB) (p : id) : Prop := {
  ri_links : links s';
  ri_mappings : mappings s' = <[k := with_event ms_succeeded (Some p) (Some (cp_intent input)) now m]> (mappings s);
  ri_payment : invoicePayments (ledgerDb s') = <[p := captured_payment i inv input now]> (invoicePayments d);
  ri_fresh : invoicePayments d !! p = None }.

Lemma run_record :
  capturable → a <= T - S →
  ∃ s' inv' p, recordStripePayment input now s = Ok (i, s') ∧ recorded_in s' p ∧
    ledger (ledgerDb s') i inv' T (S + a) ∧ (iv_status inv' = paid ↔ S + a = T) ∧
    payable inv' ∧ iv_snapshot inv' = iv_snapshot inv.
Proof.
  intros HC Hle. rewrite run_record_find, capturable_reason by done.
  destruct (Z.ltb_spec (T - S) a); [lia|]. pose proof HC as [HL Hk Ho Hp Hg Hpay HS Ha Hr _ _ _].
  set (y := captured_payment i inv input now).
  assert (py_amount y = decimal_text 2 a) as Hy
    by (unfold y, captured_payment; simpl; rewrite Ha; apply toFixed_Number; lia).
  pose proof (fresh_below _ HL) as Hfr.
  destruct (post_payment d i inv T S y a now Hfr Hg Hpay eq_refl Hy) as (inv' & d2 & E1 & E2 & Hg2 & Hst & Ei); [lia..|].
  set (d1 := set_payments _ _) in *. pose proof (payable_patch (payments_of d1 i) now inv Hpay) as Hpp. rewrite <- Ei in Hpp.
  set (p := nextId d) in *.
  rewrite (sbind_run _ _ _ _ _ (run_ledger _ s _ _ E1)).
  assert (mappings (with_ledger d1 s) = mappings s) as Em1.
  { apply no_deletes_mappings; [done|]. split; [done|]. intros p0 [y0 Hy0]. simpl.
    destruct (decide (p = p0)) as [<-|]; [rewrite lookup_insert_eq | rewrite lookup_insert_ne by done]; eauto. }
  set (s2 := set_mappings (alter (with_event ms_succeeded (Some p) (Some (cp_intent input)) now) k) (with_ledger d1 s)).
  assert (links s2) as HL2 by (by apply (capture_links s k m y)).
  rewrite (sbind_run (update_mapping _ _) _ _ tt s2) by done.
  rewrite (sbind_run _ _ _ _ _ (run_ledger _ s2 _ _ E2)). set (s3 := with_ledger d2 s2).
  assert (links s3) as HL3 by (apply links_ledger; [done | by eapply pays_recompute]).
  assert (mappings s3 = mappings s2) as Em3 by (apply no_deletes_mappings; [done | by eapply recompute_no_deletes]).
  destruct (run_emit (payment_recorded i p) s3 HL3) as (s4 & E4 & HL4 & Em4 & _ & Ed4).
  rewrite (sbind_run _ _ _ _ _ E4).
  rewrite (sbind_run _ _ s4 inv' s4).
  2: { unfold find_invoice. rewrite (sbind_run s_get _ s4 s4 s4) by done. rewrite Ed4. simpl.
       by rewrite (lg_row _ _ _ _ _ Hg2). }
  assert (∀ s5, links s5 → mappings s5 = mappings s4 → (∃ n ev, ledgerDb s5 = set_aux (λ x, x) n ev d2) →
    recorded_in s5 p ∧ ledger (ledgerDb s5) i inv' T (S + a)) as Hfin.
  { intros s5 HL5 Em5 (n & ev & Ed5). split; [|rewrite Ed5; by apply ledger_events]. split; [done| | |].
    - rewrite Em5, Em4, Em3. simpl. apply map_eq. intros j. fold (mappings (with_ledger d1 s)).
      change (omap (referential d1) (mappings s)) with (mappings (with_ledger d1 s)). rewrite Em1.
      destruct (decide (k = j)) as [<-|].
      + by rewrite lookup_alter_eq, Hk, lookup_insert_eq.
      + by rewrite lookup_alter_ne, lookup_insert_ne.
    - rewrite Ed5. simpl. by apply recomputeStatus_run in E2 as (inv0 & _ & ->).
    - done. }
  case_bool_decide as Hpd.
  - destruct (run_emit (invoice_paid i) s4 HL4) as (s5 & E5 & HL5 & Em5 & _ & Ed5).
    rewrite (sbind_run _ _ _ _ _ E5). exists s5, inv', p. split; [done|].
    destruct (Hfin s5) as [? ?]; [done..| |done]. rewrite Ed5, Ed4. by eexists _, _.
  - exists s4, inv', p. split; [done|]. destruct (Hfin s4) as [? ?]; [done..| |done].
    rewrite Ed4. by eexists _, _.
Qed.

(** Above the balance: the session is marked failed and nothing else is written. *)
Lemma run_overpaid :
  capturable → T - S < a →
  ∃ s', recordStripePayment input now s = Ok (i, s') ∧
    mappings s' = <[k := with_event ms_failed None (mp_intent m) now m]> (mappings s) ∧
    invoices (ledgerDb s') = invoices d ∧ invoicePayments (ledgerDb s') = invoicePayments d.
Proof.
  intros HC Hlt. rewrite run_record_find, capturable_reason by done.
  destruct (Z.ltb_spec (T - S) a); [|lia]. pose proof HC as [HL Hk Ho Hp _ _ _ _ _ _ _ _].
  unfold terminalFail. set (s1 := set_mappings (alter (λ m, with_event ms_failed (mp_paymentId m) (mp_intent m) now m) k) s).
  rewrite (sbind_run (markMapping _ _ _) _ s tt s1) by done.
  destruct (run_emit (payment_failed i None) s1) as (s2 & E2 & _ & Em & _ & Ed); [by apply links_status|].
  rewrite (sbind_run _ _ _ _ _ E2). exists s2. split; [done|]. rewrite Em, Ed. split; [|done].
  simpl. rewrite (alter_at _ k m) by done. by rewrite Hp.
Qed.

End capture.

(** A recorded session is not recorded again. *)
Lemma run_recorded s k m input now p :
  links s → mappings s !! k = Some m → mp_objectId m = cp_objectId input → mp_paymentId m = Some p →
  recordStripePayment input now s = Ok (mp_invoiceId m, s).
Proof.
  intros HL Hk Ho Hp. unfold recordStripePayment.
  rewrite (sbind_run s_get _ s s s) by done. rewrite <- Ho, (by_object_run s k m HL Hk).
  rewrite (sbind_run (of_option (Some (k, m)) _) _ s (k, m) s) by done. by rewrite Hp.
Qed.

(** (recordStripePayment): a capture of whole cents on the session of an issued invoice.
    Above the balance the session is marked failed and neither invoices nor payments change;
    otherwise the payment is added, the balance is the total less the payments to the cent,
    the invoice is paid exactly when nothing is left, the session is linked to the new
    payment, and the same capture delivered again changes nothing. *)
Theorem recordStripePayment_ledger s k m inv T S input a now :
  capturable s k m inv T S input a →
  let i := mp_invoiceId m in
  if T - S <? a then
    ∃ s', recordStripePayment input now s = Ok (i, s') ∧
      mappings s' = <[k := with_event ms_failed None (mp_intent m) now m]> (mappings s) ∧
      invoices (ledgerDb s') = invoices (ledgerDb s) ∧
      invoicePayments (ledgerDb s') = invoicePayments (ledgerDb s)
  else
    ∃ s' inv' p, recordStripePayment input now s = Ok (i, s') ∧
      ledger (ledgerDb s') i inv' T (S + a) ∧ (iv_status inv' = paid ↔ S + a = T) ∧
      invoicePayments (ledgerDb s) !! p = None ∧
      invoicePayments (ledgerDb s') = <[p := captured_payment i inv input now]> (invoicePayments (ledgerDb s)) ∧
      mappings s' = <[k := with_event ms_succeeded (Some p) (Some (cp_intent input)) now m]> (mappings s) ∧
      (∀ later, recordStripePayment input later s' = Ok (i, s')).
Proof.
  intros HC i. destruct (Z.ltb_spec (T - S) a) as [Hlt|Hge]; [by eapply run_overpaid|].
  destruct (run_record s k m inv T S input a now HC Hge) as (s' & inv' & p & E & [HL Hm Hp Hf] & Hg & Hst & _).
  exists s', inv', p. split_and!; [done..|]. intros later.
  assert (mappings s' !! k = Some (with_event ms_succeeded (Some p) (Some (cp_intent input)) now m)) as Hk
    by (by rewrite Hm, lookup_insert_eq).
  exact (run_recorded s' k _ input later p HL Hk (cb_object _ _ _ _ _ _ _ _ HC) eq_refl).
Qed.

(** ** Refunds *)

(** Cents of an amount in minor units of a currency. *)
Definition minor_cents (currency : string) (z : Z) : Z := if isZeroDecimal currency then 100 * z else z.

Lemma major_units_text z currency s :
  0 <= z <= 2 ^ 40 → major_units z currency s = Ok (decimal_text 2 (minor_cents currency z), s).
Proof.
  intros Hz. unfold major_units, fromMinorUnits, minor_cents, nint. destruct (isZeroDecimal currency).
  - rewrite (toFixed_int 2 (inject_Z z) z) by (done || lia).
    by change (10 ^ Z.of_nat 2) with 100; rewrite Z.mul_comm.
  - pose proof (fromCents_int (inject_Z z) z (Qeq_refl _)) as E. unfold fromCents in E.
    unfold nint in E. rewrite E by lia. done.
Qed.

Section refund.
Context (s : SDB) (k : id) (m : Mapping) (inv : Invoice) (T S : Z) (input : RefundInput) (p : id) (y : Payment).
Context (now : Z).
Local Abbreviation i := (mp_invoiceId m).
Local Abbreviation d := (ledgerDb s).

(** What is left of the charge, in cents. *)
Definition refund_left : Z :=
  if rf_charged input <=? rf_refunded input then 0
  else minor_cents (rf_currency input) (rf_charged input - rf_refunded input).

(** A refund of the recorded payment of a session on its own account. *)
Record refundable : Prop := {
  rb_links : links s;
  rb_mapping : by_intent s (rf_intent input) = Some (k, m);
  rb_linked : mp_paymentId m = Some p;
  rb_payment : invoicePayments d !! p = Some y;
  rb_ledger : ledger d i inv T S; rb_payable : payable inv;
  rb_account : rf_account input = mp_account m; rb_known : mp_account m ≠ ""%string;
  rb_range : rf_charged input - rf_refunded input <= 2 ^ 40;
  rb_left : refund_left <= pcents y }.

(** The rows a refund leaves: the payment removed or reduced, the session unlinked or kept. *)
Definition refund_payments : gmap id Payment :=
  if rf_charged input <=? rf_refunded input then delete p (invoicePayments d)
  else <[p := with_amount (decimal_text 2 refund_left) y]> (invoicePayments d).
Definition refund_mapping : Mapping :=
  if rf_charged input <=? rf_refunded input then with_event ms_refunded None (mp_intent m) now m
  else with_event ms_partially_refunded (Some p) (mp_intent m) now m.

Definition refund_ok (s' : SDB) (inv' : Invoice) : Prop :=
  reflectStripeRefund input now s = Ok (tt, s') ∧ links s' ∧
  ledger (ledgerDb s') i inv' T (S - pcents y + refund_left) ∧
  (iv_status inv' = paid ↔ S - pcents y + refund_left = T) ∧
  invoicePayments (ledgerDb s') = refund_payments ∧ mappings s' !! k = Some refund_mapping ∧
  payable inv' ∧ iv_snapshot inv' = iv_snapshot inv.

(** The writes before the status is derived again. *)
Lemma refund_rows :
  refundable →
  ∃ s1, links s1 ∧ ledgerDb s1 = set_payments (λ _, refund_payments) d ∧ mappings s1 !! k = Some refund_mapping ∧
    reflectStripeRefund input now s =
      (in_ledger (recomputeInvoiceStatus i now);; in_ledger (emitInvoiceEvent (payment_voided i p))) s1.
Proof.
  intros [HL Hk Hp Hy Hg _ Hac Hkn Hr _]. pose proof (by_intent_some _ _ _ _ Hk) as [Hmk _].
  unfold reflectStripeRefund. rewrite (sbind_run s_get _ s s s), Hk, Hp by done.
  rewrite Hac, (bool_decide_eq_false_2 (mp_account m = ""%string)), bool_decide_eq_true_2 by done. cbn [negb orb].
  unfold refund_payments, refund_mapping, refund_left.
  destruct (Z.leb_spec (rf_charged input) (rf_refunded input)) as [Hle|Hlt].
  - set (d1 := set_payments (delete p) d).
    set (s1 := set_mappings (alter (λ m, with_event ms_refunded None (mp_intent m) now m) k) (with_ledger d1 s)).
    exists s1. split_and!.
    + apply links_event; [apply links_ledger; [done | apply pays_delete] | done | done].
    + done.
    + simpl. rewrite lookup_alter_eq, lookup_omap, Hmk. simpl. unfold referential. simpl.
      by rewrite (lg_row _ _ _ _ _ Hg).
    + by rewrite (sbind_run _ _ s tt s1).
  - set (amt := decimal_text 2 _). set (d1 := set_payments (alter (with_amount amt) p) d).
    set (s1 := set_mappings (alter (λ m, with_event ms_partially_refunded (mp_paymentId m) (mp_intent m) now m) k)
                 (with_ledger d1 s)).
    assert (mappings (with_ledger d1 s) = mappings s) as Em.
    { apply no_deletes_mappings; [done|]. split; [done|]. intros q Hq. by apply lookup_alter_is_Some. }
    exists s1. split_and!.
    + apply links_status, links_ledger; [done | apply pays_amount].
    + unfold s1, d1, set_payments. simpl. by rewrite (alter_at (with_amount amt) p y).
    + unfold s1. cbn [set_mappings mappings].
      rewrite Em, lookup_alter_eq, Hmk. simpl. by rewrite Hp.
    + rewrite (sbind_run _ _ s tt s1); [done|].
      rewrite (sbind_run _ _ s amt s); [done|]. apply major_units_text. lia.
Qed.

(** The run of a refund. *)
Lemma run_refund : refundable → ∃ s' inv', refund_ok s' inv'.
Proof.
  intros HR. destruct (refund_rows HR) as (s1 & HL1 & Ed1 & Hm1 & Erun). pose proof HR as [HL Hk Hp Hy Hg Hpay _ _ Hrg Hle].
  pose proof (by_intent_some _ _ _ _ Hk) as [Hmk _].
  destruct (lk_payment _ HL k m p Hmk Hp) as (y0 & Hy0 & Hyi & _). rewrite Hy in Hy0. injection Hy0 as <-.
  assert (∃ inv' d2, recomputeInvoiceStatus i now (ledgerDb s1) = Ok (tt, d2) ∧
    ledger d2 i inv' T (S - pcents y + refund_left) ∧ (iv_status inv' = paid ↔ S - pcents y + refund_left = T) ∧
    inv' = status_patch (payments_of (ledgerDb s1) i) now inv) as (inv' & d2 & E2 & Hg2 & Hst & Ei).
  { rewrite Ed1. unfold refund_payments. revert Hle. unfold refund_left.
    destruct (Z.leb_spec (rf_charged input) (rf_refunded input)) as [_|Hlt]; intros Hle.
    - rewrite Z.add_0_r. destruct (unpost_payment d i inv T S p y now Hg Hpay Hy Hyi) as (inv' & d2 & ? & ? & ? & _ & ?).
      by exists inv', d2.
    - set (left := minor_cents _ _) in *.
      destruct (payment_text_ok (with_amount (decimal_text 2 left) y) left) as [Hok Hc]; [|done|].
      { unfold left, minor_cents. destruct (isZeroDecimal _); lia. }
      pose proof (replace_payment d i inv T S p y (with_amount (decimal_text 2 left) y) now Hg Hpay Hy Hyi Hyi Hok) as Hrep.
      rewrite Hc in Hrep. apply Hrep. pose proof (lg_range _ _ _ _ _ Hg). lia. }
  assert (links (with_ledger d2 s1)) as HL2 by (apply links_ledger; [done | by eapply pays_recompute]).
  destruct (run_emit (payment_voided i p) _ HL2) as (s3 & E3 & HL3 & Em3 & _ & Ed3).
  exists s3, inv'. unfold refund_ok. rewrite Erun, (sbind_run _ _ _ _ _ (run_ledger _ s1 _ _ E2)), E3, Ed3, Em3.
  split_and!; [done | done | by apply ledger_events | done | | | |].
  - simpl. apply recomputeStatus_run in E2 as (inv0 & _ & ->). by rewrite Ed1.
  - rewrite no_deletes_mappings; [done | done | by eapply recompute_no_deletes].
  - rewrite Ei. by apply payable_patch.
  - by rewrite Ei.
Qed.
End refund.

(** (reflectStripeRefund): a refund of a recorded card payment.  A full refund removes the
    payment and marks the session refunded; a partial one leaves the part of the charge that
    was kept, in the minor units of its currency, and marks the session partially refunded.
    The balance follows to the cent and the invoice is paid only if it is still covered. *)
Theorem reflectStripeRefund_ledger s k m inv T S input p y now :
  refundable s k m inv T S input p y →
  let left := refund_left input in
  ∃ s' inv', reflectStripeRefund input now s = Ok (tt, s') ∧
    ledger (ledgerDb s') (mp_invoiceId m) inv' T (S - pcents y + left) ∧
    (iv_status inv' = paid ↔ S - pcents y + left = T) ∧
    (if rf_charged input <=? rf_refunded input then
       invoicePayments (ledgerDb s') = delete p (invoicePayments (ledgerDb s)) ∧
       mappings s' !! k = Some (with_event ms_refunded None (mp_intent m) now m)
     else
       invoicePayments (ledgerDb s') =
         <[p := with_amount (decimal_text 2 left) y]> (invoicePayments (ledgerDb s)) ∧
       mappings s' !! k = Some (with_event ms_partially_refunded (Some p) (mp_intent m) now m)).
Proof.
  intros HR left. destruct (run_refund s k m inv T S input p y now HR) as (s' & inv' & E & _ & Hg & Hst & Hp & Hm & _).
  exists s', inv'. split_and!; [done..|]. unfold refund_payments, refund_mapping in *. by destruct (_ <=? _).
Qed.

(** The capture of a session after the refund of that session. *)
Definition only_intent (s : SDB) (k : id) (intent : string) : Prop :=
  ∀ k' m', mappings s !! k' = Some m' → mp_intent m' = Some intent → k' = k.

Lemma capturable_refundable s k m inv T S input a now refund :
  capturable s k m inv T S input a → a <= T - S → only_intent s k (cp_intent input) →
  rf_intent refund = cp_intent input → rf_account refund = cp_account input →
  rf_charged refund - rf_refunded refund <= 2 ^ 40 → refund_left refund <= a →
  ∃ s1 inv1 p y m1, recordStripePayment input now s = Ok (mp_invoiceId m, s1) ∧
    m1 = with_event ms_succeeded (Some p) (Some (cp_intent input)) now m ∧ pcents y = a ∧
    refundable s1 k m1 inv1 T (S + a) refund p y ∧ iv_snapshot inv1 = iv_snapshot inv.
Proof.
  intros HC Hle Hone Hi Hac Hrg Hlf.
  destruct (run_record s k m inv T S input a now HC Hle) as (s1 & inv1 & p & E & [HL Hm Hp _] & Hg & _ & Hpay & Hsn).
  pose proof HC as [_ Hk _ _ _ _ _ Ha Hr _ Hac0 Hkn].
  set (y := captured_payment (mp_invoiceId m) inv input now) in *.
  destruct (payment_text_ok y a) as [_ Hc]; [lia | unfold y, captured_payment; simpl; rewrite Ha; apply toFixed_Number; lia|].
  set (m1 := with_event ms_succeeded (Some p) (Some (cp_intent input)) now m) in *.
  exists s1, inv1, p, y, m1. split_and!; [done..| |done]. constructor; try done.
  - unfold by_intent. apply head_filter_run; [by rewrite Hm, lookup_insert_eq | by rewrite Hi|].
    intros k' m'. rewrite Hm, Hi. intros [[<- _]|[_ Hk']]%lookup_insert_Some; [done|]. by apply Hone.
  - by rewrite Hp, lookup_insert_eq.
  - by rewrite Hac, Hac0.
  - by rewrite Hc.
Qed.

(** (recordStripePayment after a full refund): the already-recorded guard looks only at
    the payment id, which a full refund sets to null; so the same capture delivered once more
    after the refund (by the webhook or by the customer reopening the return page of the paid
    session) records the refunded money again. *)
Theorem refunded_session_recorded_again s k m inv T S input a refund t1 t2 t3 :
  capturable s k m inv T S input a → a <= T - S → only_intent s k (cp_intent input) →
  rf_intent refund = cp_intent input → rf_account refund = cp_account input →
  rf_charged refund <= rf_refunded refund →
  let i := mp_invoiceId m in
  ∃ s1 s2 s3 m2 inv2 inv3, recordStripePayment input t1 s = Ok (i, s1) ∧
    reflectStripeRefund refund t2 s1 = Ok (tt, s2) ∧
    mappings s2 !! k = Some m2 ∧ mp_status m2 = ms_refunded ∧ ledger (ledgerDb s2) i inv2 T S ∧
    recordStripePayment input t3 s2 = Ok (i, s3) ∧ ledger (ledgerDb s3) i inv3 T (S + a) ∧
    (iv_status inv3 = paid ↔ S + a = T).
Proof.
  intros HC Hle Hone Hi Hac Hful i.
  destruct (capturable_refundable s k m inv T S input a t1 refund HC Hle Hone Hi Hac)
    as (s1 & inv1 & p & y & m1 & E1 & Em1 & Hc & HR & Hsn1).
  { lia. }
  { unfold refund_left. destruct (Z.leb_spec (rf_charged refund) (rf_refunded refund)); [|lia].
    pose proof (cb_range _ _ _ _ _ _ _ _ HC). lia. }
  destruct (run_refund s1 k m1 inv1 T (S + a) refund p y t2 HR) as (s2 & inv2 & E2 & HL2 & Hg2 & _ & _ & Hm2 & Hpay2 & Hsn2).
  unfold refund_left in Hg2. unfold refund_mapping in Hm2.
  destruct (Z.leb_spec (rf_charged refund) (rf_refunded refund)) as [_|]; [|lia].
  replace (S + a - pcents y + 0) with S in Hg2 by lia. set (m2 := with_event _ _ _ _ _) in Hm2.
  assert (mp_invoiceId m1 = i) as Ei by (by rewrite Em1). rewrite Ei in Hg2.
  pose proof HC as [_ _ Ho _ _ _ HS Ha Hr Hcur Hac0 Hkn].
  assert (capturable s2 k m2 inv2 T S input a) as HC2.
  { constructor; try done; unfold m2; rewrite ?Em1; try done. unfold iv_currency. by rewrite Hsn2, Hsn1. }
  destruct (run_record s2 k m2 inv2 T S input a t3 HC2 Hle) as (s3 & inv3 & p3 & E3 & _ & Hg3 & Hst3 & _).
  replace (mp_invoiceId m2) with i in * by (unfold m2; by rewrite Em1).
  by exists s1, s2, s3, m2, inv2, inv3.
Qed.

(** ** Opening a session twice *)

Lemma client_frame decrypt p s r s' :
  getPartnerStripeClient decrypt p s = Ok (r, s) → connections s' = connections s →
  getPartnerStripeClient decrypt p s' = Ok (r, s').
Proof.
  unfold getPartnerStripeClient. cbv [mbind SM_bind s_get mret SM_ret s_throw]. intros H ->.
  destruct (connections s !! p) as [c|]; [|done]. destruct (cn_status c); [|done].
  destruct (cn_apiKey c) as [[|ch str]|]; [done| |done].
  destruct (decrypt _) as [[|ch' str']|]; [done| |done]. by injection H as ->.
Qed.

Lemma open_session_frame api decrypt i inv e1 e2 minor s r s' :
  open_session api decrypt i inv e1 e2 minor s = Ok (r, s) → connections s' = connections s →
  open_session api decrypt i inv e1 e2 minor s' = Ok (r, s').
Proof.
  intros H Ec. unfold open_session in *. apply sbind_ok in H as (c & s1 & Hc & H).
  destruct (getPartnerStripeClient decrypt (iv_partnerId inv) s) as [[c0 s0]|[]] eqn:E; try done.
  injection Hc as <- <-. pose proof (client_state _ _ _ _ _ E) as ->.
  rewrite (sbind_run _ _ s' c0 s') by (by rewrite (client_frame _ _ _ _ s' E Ec)).
  srun H. apply sret_ok in H as [<- _]. by rewrite (sbind_run _ _ s' a s') by (by rewrite Ho).
Qed.

Lemma insert_mapping_again m m' s k s' :
  insert_mapping m s = Ok (k, s') → mp_objectId m' = mp_objectId m →
  insert_mapping m' s' = Throw UNIQUE_VIOLATION ∧ ledgerDb s' = ledgerDb s ∧ connections s' = connections s.
Proof.
  unfold insert_mapping at 1. destruct (existsb _ _); [done|]. intros [= <- <-] Eo. split; [|done].
  unfold insert_mapping. cbn [mappings].
  replace (existsb _ _) with true; [done|]. symmetry. apply existsb_exists. exists (nextMappingId s, m).
  split; [|by apply bool_decide_true]. apply list_elem_of_In, elem_of_map_to_list. by rewrite lookup_insert_eq.
Qed.

(** (createInvoicePayLink): the session is created under an idempotency key of invoice and
    balance, so a second link at the same balance gets the same session back; its row already
    exists and the second request fails on the unique index instead of returning the link. *)
Theorem second_pay_link_fails api decrypt i actor t1 t2 s url s1 :
  createInvoicePayLink api decrypt i actor t1 s = Ok (url, s1) →
  createInvoicePayLink api decrypt i actor t2 s1 = Throw UNIQUE_VIOLATION.
Proof.
  intros H. unfold createInvoicePayLink in H. sruns H.
  apply sbind_ok in H as (bal & s2 & Hm & H). pose proof (minor_units_state _ _ _ _ _ Hm) as [-> Et].
  apply sbind_ok in H as (minor & s2 & Hp & H). pose proof (minor_state _ _ _ _ Hp) as (-> & -> & Hpos).
  apply sbind_ok in H as (opened & s2 & Hopen & H). pose proof (open_session_state _ _ _ _ _ _ _ _ _ _ Hopen) as ->.
  destruct (ss_url opened.1) as [[|c t]|] eqn:Eu; [done| |done].
  apply sbind_ok in H as (k & s2 & Hk & H). apply sret_ok in H as [_ ->].
  destruct (insert_mapping_again _ (pending_mapping i inv opened.2 opened.1 t2) _ _ _ Hk eq_refl) as (Hthrow & Ed & Ec).
  unfold createInvoicePayLink, find_invoice.
  rewrite (sbind_run _ _ s1 inv s1) by (rewrite (sbind_run s_get _ s1 s1 s1), Ed, Hi; done).
  rewrite (sbind_run _ _ s1 tt s1) by (by rewrite Hb). rewrite (sbind_run _ _ s1 tt s1) by (by rewrite Hb0).
  rewrite (sbind_run _ _ s1 (Some minor) s1) by (unfold minor_units; by rewrite Et).
  rewrite (sbind_run _ _ s1 minor s1) by (unfold positive_minor; destruct (Z.ltb_spec 0 minor); [done | lia]).
  rewrite (sbind_run _ _ s1 opened s1) by (by eapply open_session_frame).
  rewrite Eu. unfold mbind, SM_bind. by rewrite Hthrow.
Qed.

(** ** Histories *)

(** The steps of the system that reach the tables of card payments: opening a session, an
    event, a settlement, the sweep, the keys, and the invoice service; [sh_other] is any
    change of its tables that writes no payment. *)
Inductive sstep (s s' : SDB) : Prop :=
| sh_link api decrypt i actor now url : createInvoicePayLink api decrypt i actor now s = Ok (url, s') → sstep s s'
| sh_pay api decrypt i orgId now url : pay_invoice api decrypt i orgId now s = Ok (url, s') → sstep s s'
| sh_event e now : handleStripeEvent e now s = Ok (tt, s') → sstep s s'
| sh_settle api decrypt i orgId sid now b : settle_invoice api decrypt i orgId sid now s = Ok (b, s') → sstep s s'
| sh_sweep api decrypt now n : reconcilePendingStripePayments api decrypt now s = Ok (n, s') → sstep s s'
| sh_key encrypt account partnerId key userId now r :
    savePartnerStripeKey encrypt account partnerId key userId now s = Ok (r, s') → sstep s s'
| sh_disconnect partnerId now : disconnectPartnerStripe partnerId now s = Ok (tt, s') → sstep s s'
| sh_record i input actor now r : in_ledger (recordPayment i input actor now) s = Ok (r, s') → sstep s s'
| sh_void k actor now r : in_ledger (voidPayment k actor now) s = Ok (r, s') → sstep s s'
| sh_delete i actor r : in_ledger (deleteDraftInvoice i actor) s = Ok (r, s') → sstep s s'
| sh_other d : invoicePayments d = invoicePayments (ledgerDb s) → (nextId (ledgerDb s) <= nextId d)%N →
    s' = with_ledger d s → sstep s s'.

(** Before the first session: no rows, payments numbered below the next id. *)
Definition no_sessions (s : SDB) : Prop :=
  mappings s = ∅ ∧ ∀ p y, invoicePayments (ledgerDb s) !! p = Some y → (p < nextId (ledgerDb s))%N.

Lemma no_sessions_links s : no_sessions s → links s.
Proof. intros [E Hp]. split; [..|exact Hp]; intros k; rewrite E; by setoid_rewrite lookup_empty. Qed.

Lemma sstep_links s s' : links s → sstep s s' → links s'.
Proof.
  intros HL [].
  - apply createInvoicePayLink_run in H as (inv & opened & k & Hi & Hk). by eapply pending_links.
  - apply pay_invoice_run in H as (inv & opened & k & Hi & Hk). by eapply pending_links.
  - by eapply handleStripeEvent_links.
  - by eapply settle_invoice_links.
  - unfold reconcilePendingStripePayments in H. srun H. by eapply settle_all_links.
  - unfold savePartnerStripeKey in H. sruns H. apply sbind_ok in H as (u & s1 & [= _ <-] & H). sruns H.
    by apply links_connections.
  - injection H as <-. by apply links_connections.
  - apply in_ledger_ok in H as (d & Hd & ->). apply links_ledger; [done|].
    eapply recordPayment_pays; [|exact Hd]. apply (lk_paid _ HL).
  - apply in_ledger_ok in H as (d & Hd%voidPayment_pays & ->). by apply links_ledger.
  - apply in_ledger_ok in H as (d & Hd%deleteDraftInvoice_pays & ->). by apply links_ledger.
  - subst s'. apply links_ledger; [done|]. by apply pays_same.
Qed.

Lemma history_links s s' : links s → rtc sstep s s' → links s'.
Proof. intros HL H. revert HL. induction H; [done|]. intros HL. eauto using sstep_links. Qed.


(** ** Accounts apart *)

(** Nothing of invoice [i] differs: neither its row nor its payments. *)
Definition apart (i : id) (d d' : DB) : Prop :=
  invoices d' !! i = invoices d !! i ∧
  ∀ p y, py_invoiceId y = i → (invoicePayments d' !! p = Some y ↔ invoicePayments d !! p = Some y).

#[export] Instance apart_preorder i : PreOrder (apart i).
Proof.
  split; [done|]. intros a b c [E1 H1] [E2 H2]. split; [congruence|].
  intros p y Hy. rewrite (H2 p y Hy). by apply H1.
Qed.

Lemma apart_recompute i j now d a d' : recomputeInvoiceStatus j now d = Ok (a, d') → j ≠ i → apart i d d'.
Proof. intros (inv & _ & ->)%recomputeStatus_run Hne. split; [|done]. by apply lookup_insert_ne. Qed.
Lemma apart_emit i e d a d' : emitInvoiceEvent e d = Ok (a, d') → apart i d d'.
Proof. by intros [= _ <-]. Qed.

(** A write at one payment row, of another invoice before and after. *)
Lemma apart_payment i p g (d : DB) :
  (∀ q, q ≠ p → g (invoicePayments d) !! q = invoicePayments d !! q) →
  (∀ y, invoicePayments d !! p = Some y ∨ g (invoicePayments d) !! p = Some y → py_invoiceId y ≠ i) →
  apart i d (set_payments g d).
Proof.
  intros Hq Hp. split; [done|]. simpl. intros q y Hy. destruct (decide (q = p)) as [->|Hne]; [|by rewrite Hq].
  split; intros E; destruct (Hp y); auto.
Qed.

Lemma record_apart input now s r s' i :
  links s → recordStripePayment input now s = Ok (r, s') →
  (∀ k m, mappings s !! k = Some m → mp_invoiceId m = i → mp_account m = cp_account input → False) →
  apart i (ledgerDb s) (ledgerDb s').
Proof.
  intros HL H Hno. unfold recordStripePayment in H. sruns H. destruct a as [k m].
  apply by_object_some in Ho as [Hk _].
  destruct (mp_paymentId m) as [p|] eqn:Ep; [by sruns H|]. srun H.
  destruct (terminal_reason input m a) eqn:Et.
  { unfold terminalFail in H. sruns H. by eapply apart_emit. }
  assert (mp_invoiceId m ≠ i) as Hne.
  { intros Ei. apply (Hno k m Hk Ei). unfold terminal_reason in Et. by bool_prop. }
  apply sbind_ok in H as (p & s1 & (d1 & Hd1 & ->)%in_ledger_ok & H). injection Hd1 as <- <-.
  srun H. apply sbind_ok in H as (u & s3 & (d3 & Hd3 & ->)%in_ledger_ok & H).
  apply apart_recompute with (i := i) in Hd3; [|done].
  apply sbind_ok in H as (u' & s4 & (d4 & Hd4 & ->)%in_ledger_ok & H). apply (apart_emit i) in Hd4.
  assert (apart i (ledgerDb s) d4) as Hd.
  { do 2 (etransitivity; [|eassumption]).
    etransitivity; [|apply (apart_payment i (nextId (ledgerDb s)))]; [done| |].
    - intros q Hq. by apply lookup_insert_ne.
    - simpl. intros y [E|E].
      + pose proof (fresh_below _ HL). congruence.
      + rewrite lookup_insert_eq in E. by injection E as <-. }
  srun H. destruct (bool_decide (iv_status inv = paid)).
  - apply sbind_ok in H as (u2 & s5 & (d5 & Hd5 & ->)%in_ledger_ok & H). apply (apart_emit i) in Hd5.
    sruns H. simpl. by etransitivity.
  - apply sbind_ok in H as (u2 & s5 & [_ <-]%sret_ok & H). by sruns H.
Qed.

Lemma refund_apart input now s s' i :
  links s → reflectStripeRefund input now s = Ok (tt, s') →
  (∀ k m, mappings s !! k = Some m → mp_invoiceId m = i → mp_account m = rf_account input → False) →
  apart i (ledgerDb s) (ledgerDb s').
Proof.
  intros HL H Hno. unfold reflectStripeRefund in H. srun H.
  destruct (by_intent s (rf_intent input)) as [[k m]|] eqn:Ek; [|by sruns H].
  apply by_intent_some in Ek as [Hk _].
  destruct (mp_paymentId m) as [p|] eqn:Ep; [|by sruns H].
  destruct (_ || _) eqn:Eg; [by sruns H|].
  assert (mp_invoiceId m ≠ i) as Hne.
  { intros Ei. apply (Hno k m Hk Ei). by bool_prop. }
  destruct (lk_payment _ HL k m p Hk Ep) as (y & Hy & Hyi & _).
  apply sbind_ok in H as (u & s1 & H1 & H).
  assert (apart i (ledgerDb s) (ledgerDb s1)) as Hd1.
  { destruct (rf_charged input <=? rf_refunded input).
    - apply sbind_ok in H1 as (u1 & s2 & (d & [= _ <-] & ->)%in_ledger_ok & [= _ <-]).
      apply (apart_payment i p); [intros q Hq; by apply lookup_delete_ne|].
      intros y' [E|E]; [congruence | by rewrite lookup_delete_eq in E].
    - apply sbind_ok in H1 as (a & s2 & Ha & H1). unfold major_units in Ha.
      destruct (fromMinorUnits _ _); [|done]. apply sret_ok in Ha as [_ <-].
      apply sbind_ok in H1 as (u1 & s2 & (d & [= _ <-] & ->)%in_ledger_ok & [= _ <-]).
      apply (apart_payment i p); [intros q Hq; by apply lookup_alter_ne|].
      intros y' [E|E]; [congruence|]. rewrite lookup_alter_eq, Hy in E. injection E as <-. simpl. congruence. }
  apply sbind_ok in H as (u2 & s2 & (d2 & Hd2 & ->)%in_ledger_ok & H). apply in_ledger_ok in H as (d3 & Hd3 & ->).
  apply apart_recompute with (i := i) in Hd2; [|done]. apply (apart_emit i) in Hd3. simpl in *.
  by do 2 (etransitivity; [|eassumption]).
Qed.

(** (handleStripeEvent): whatever the history, an event changes neither the row nor the
    payments of an invoice that has no session on the account the event comes from. *)
Theorem event_stays_in_account s0 s e now s' i :
  no_sessions s0 → rtc sstep s0 s → handleStripeEvent e now s = Ok (tt, s') →
  (∀ k m, mappings s !! k = Some m → mp_invoiceId m = i → mp_account m = default ""%string (se_account e) → False) →
  apart i (ledgerDb s) (ledgerDb s').
Proof.
  intros H0%no_sessions_links Hr H Hno. pose proof (history_links _ _ H0 Hr) as HL.
  apply event_dispatched in H as [->|H]; [done|].
  unfold dispatch in H. destruct (se_data e) as [session|intent|[[|c t]|] rf ch cu| |].
  - apply sbind_ok in H as (r & s1 & H1 & H). sruns H. unfold record_session in H1.
    destruct (negb (ss_paid session)); [by sruns H1|]. destruct (_ || _); [by sruns H1|].
    apply sbind_ok in H1 as (a & s2 & Ha & H1). unfold major_units in Ha.
    destruct (fromMinorUnits _ _); [|done]. apply sret_ok in Ha as [_ <-].
    apply sbind_ok in H1 as (j & s2 & H2 & H1). sruns H1. by eapply record_apart.
  - unfold fail_intent in H. srun H. destruct (by_intent s intent) as [[k m]|]; [|by sruns H].
    srun H. apply in_ledger_ok in H as (d & Hd & ->). by eapply apart_emit.
  - by sruns H.
  - by eapply refund_apart.
  - by sruns H.
  - destruct (se_account e) as [[|c t]|]; [by sruns H| |by sruns H]. by injection H as <-.
  - by sruns H.
Qed.

(** ** Concrete runs *)

(** The invoice of 150.00 with its partner connected, before and after a link is sent. *)
Definition card_connection : Connection :=
  {| cn_stripeAccountId := "acct_1"; cn_apiKey := Some "sealed"; cn_keyLast4 := Some "aled";
     cn_livemode := false; cn_status := connected; cn_connectedBy := None; cn_connectedAt := 0;
     cn_disconnectedAt := None; cn_updatedAt := 0 |}.
Definition card_start : SDB :=
  {| ledgerDb := ledger_db; mappings := ∅; connections := {[ 2%N := card_connection ]}; nextMappingId := 1 |}.
Definition card_session : Session :=
  {| ss_id := "cs_1"; ss_url := Some "https://pay"; ss_paid := true; ss_intent := Some "pi_1";
     ss_amount_total := Some 15000; ss_currency := Some "usd" |}.
Definition card_api : StripeApi :=
  {| sessions_create _ _ _ _ := Some card_session; sessions_retrieve _ _ := Some card_session |}.
Definition card_mapping : Mapping := pending_mapping 100 ledger_invoice "acct_1" card_session 0.
Definition card_sent : SDB :=
  {| ledgerDb := ledger_db; mappings := {[ 1%N := card_mapping ]};
     connections := {[ 2%N := card_connection ]}; nextMappingId := 2 |}.
Definition card_capture (cents : Z) : CaptureInput :=
  {| cp_objectId := "cs_1"; cp_intent := "pi_1"; cp_account := "acct_1"; cp_amount := decimal_text 2 cents;
     cp_currency := "USD"; cp_receivedAt := None |}.

Lemma card_start_ok : no_sessions card_start.
Proof. by split. Qed.

Lemma card_link_sent :
  createInvoicePayLink card_api Some 100 ledger_actor 0 card_start = Ok ("https://pay"%string, card_sent).
Proof. vm_compute. reflexivity. Qed.

Lemma card_history : rtc sstep card_start card_sent.
Proof. apply rtc_once. eapply sh_link. apply card_link_sent. Qed.

Lemma card_capturable cents :
  0 < cents <= 2 ^ 40 →
  capturable card_sent 1 card_mapping ledger_invoice 15000 0 (card_capture cents) cents.
Proof.
  intros Hc. constructor; [|reflexivity|reflexivity|reflexivity|apply ledger_db_ledger|by repeat split|lia|
    reflexivity|done|reflexivity|reflexivity|done].
  exact (history_links _ _ (no_sessions_links _ card_start_ok) card_history).
Qed.

(** A capture of 150.00 pays the invoice, one of 150.01 is refused. *)
Lemma recordStripePayment_ledger_witness :
  (∃ s' inv' p, recordStripePayment (card_capture 15000) 9 card_sent = Ok (100%N, s') ∧
     ledger (ledgerDb s') 100 inv' 15000 (0 + 15000) ∧ (iv_status inv' = paid ↔ 0 + 15000 = 15000) ∧
     invoicePayments (ledgerDb card_sent) !! p = None ∧
     invoicePayments (ledgerDb s') =
       <[p := captured_payment 100 ledger_invoice (card_capture 15000) 9]> (invoicePayments (ledgerDb card_sent)) ∧
     mappings s' = <[1%N := with_event ms_succeeded (Some p) (Some "pi_1"%string) 9 card_mapping]> (mappings card_sent) ∧
     (∀ later, recordStripePayment (card_capture 15000) later s' = Ok (100%N, s'))) ∧
  (∃ s', recordStripePayment (card_capture 15001) 9 card_sent = Ok (100%N, s') ∧
     mappings s' = <[1%N := with_event ms_failed None (Some "pi_1"%string) 9 card_mapping]> (mappings card_sent) ∧
     invoices (ledgerDb s') = invoices (ledgerDb card_sent) ∧
     invoicePayments (ledgerDb s') = invoicePayments (ledgerDb card_sent)).
Proof.
  split.
  - apply (recordStripePayment_ledger card_sent 1 card_mapping ledger_invoice 15000 0 (card_capture 15000) 15000 9).
    apply card_capturable. lia.
  - apply (recordStripePayment_ledger card_sent 1 card_mapping ledger_invoice 15000 0 (card_capture 15001) 15001 9).
    apply card_capturable. lia.
Defined.

Definition card_refund (refunded : Z) : RefundInput :=
  {| rf_intent := "pi_1"; rf_refunded := refunded; rf_charged := 15000; rf_currency := "usd"; rf_account := "acct_1" |}.

Lemma card_only_intent : only_intent card_sent 1 "pi_1".
Proof. intros k' m' Hk _. unfold card_sent in Hk. simpl in Hk. by apply lookup_singleton_Some in Hk as [<- _]. Qed.

(** 50.00 of the 150.00 given back leaves 100.00 paid. *)
Lemma reflectStripeRefund_ledger_witness :
  ∃ s m inv p y s' inv', refundable s 1 m inv 15000 15000 (card_refund 5000) p y ∧
    reflectStripeRefund (card_refund 5000) 2 s = Ok (tt, s') ∧
    ledger (ledgerDb s') (mp_invoiceId m) inv' 15000 10000.
Proof.
  destruct (capturable_refundable card_sent 1 card_mapping ledger_invoice 15000 0 (card_capture 15000) 15000 1
    (card_refund 5000)) as (s & inv & p & y & m & _ & _ & Hc & HR & _);
    [apply card_capturable; lia | lia | exact card_only_intent | reflexivity | reflexivity | simpl; lia |
     vm_compute; congruence|].
  destruct (reflectStripeRefund_ledger s 1 m inv 15000 15000 (card_refund 5000) p y 2 HR) as (s' & inv' & E & Hg & _).
  exists s, m, inv, p, y, s', inv'. rewrite Hc in Hg. exact (conj HR (conj E Hg)).
Defined.

(** The 150.00 captured, refunded in full, and recorded a second time. *)
Lemma refunded_session_recorded_again_witness :
  ∃ s1 s2 s3 m2 inv2 inv3, recordStripePayment (card_capture 15000) 1 card_sent = Ok (100%N, s1) ∧
    reflectStripeRefund (card_refund 15000) 2 s1 = Ok (tt, s2) ∧
    mappings s2 !! 1%N = Some m2 ∧ mp_status m2 = ms_refunded ∧ ledger (ledgerDb s2) 100 inv2 15000 0 ∧
    recordStripePayment (card_capture 15000) 3 s2 = Ok (100%N, s3) ∧
    ledger (ledgerDb s3) 100 inv3 15000 (0 + 15000) ∧ (iv_status inv3 = paid ↔ 0 + 15000 = 15000).
Proof.
  apply (refunded_session_recorded_again card_sent 1 card_mapping ledger_invoice 15000 0 (card_capture 15000)
           15000 (card_refund 15000) 1 2 3);
    [apply card_capturable; lia | lia | exact card_only_intent | reflexivity | reflexivity | done].
Defined.

Lemma second_pay_link_fails_witness :
  createInvoicePayLink card_api Some 100 ledger_actor 7 card_sent = Throw UNIQUE_VIOLATION.
Proof. exact (second_pay_link_fails card_api Some 100 ledger_actor 0 7 card_start _ card_sent card_link_sent). Defined.

(** The webhook reports the session paid. *)
Definition card_event : StripeEvent :=
  {| se_account := Some "acct_1"; se_livemode := false; se_data := session_completed card_session |}.
Definition card_paid : SDB :=
  match handleStripeEvent card_event 9 card_sent with Ok (_, s) => s | Throw _ => card_sent end.

Lemma card_event_run : handleStripeEvent card_event 9 card_sent = Ok (tt, card_paid).
Proof. vm_compute. reflexivity. Qed.

Lemma card_paid_history : rtc sstep card_start card_paid.
Proof. eapply rtc_r; [apply card_history|]. eapply sh_event. apply card_event_run. Qed.


(** The event leaves an invoice without sessions alone. *)
Lemma event_stays_in_account_witness : apart 55 (ledgerDb card_sent) (ledgerDb card_paid).
Proof.
  apply (event_stays_in_account card_start card_sent card_event 9 card_paid 55 card_start_ok card_history card_event_run).
  intros k m Hk. unfold card_sent in Hk. cbn [mappings] in Hk. apply lookup_singleton_Some in Hk as [_ <-].
  discriminate.
Defined.
