(* ===== verification/TimeEntries.v ===== *)
(** * Time tracking ([services/timeEntryService.ts], [db/schema/timeTracking.ts],
    [timeEntryEvents.ts], [packages/shared/src/validators/timeEntries.ts]).

    Technicians run timers and log time and parts on tickets.  A request runs inside one
    database transaction opened by the authentication middleware ([middleware/auth.ts],
    [withDbAccessContext] of [db/index.ts]), and this service catches errors of its
    statements and goes on; so the monad [TM] keeps the state of the transaction when an error
    is thrown.  PostgreSQL refuses every statement of a transaction after one has failed, and
    answers the final commit with a rollback.  [World] says what else happens meanwhile:
    whether the insert of a feed comment fails, and timers other requests of the same user
    commit just before an insert.  [updated_at] is kept by a trigger, nothing reads it. *)

From S2P Require Import Prelude JsNum Money Calendar InvoiceDb Invoices.

Open Scope Z_scope.

(** ** Data *)

Record Entry := {
  en_partnerId : id; en_orgId : option id; en_ticketId : option id; en_userId : id;
  en_startedAt : Z; en_endedAt : option Z; en_durationMinutes : option Z; en_description : text;
  en_isBillable : bool; en_hourlyRate : text; en_billingStatus : BillingStatus;
  en_isApproved : bool; en_approvedBy : option id; en_approvedAt : option Z }.

Record Part := {
  pt_ticketId : id; pt_orgId : id; pt_description : string; pt_partNumber : text;
  pt_vendor : text; pt_catalogItemId : option id; pt_quantity : string; pt_unitPrice : string;
  pt_costBasis : text; pt_isBillable : bool; pt_billingStatus : BillingStatus;
  pt_addedBy : option id; pt_notes : text; pt_createdAt : Z }.

(** The columns of a ticket, a category and the settings of an organisation that are read. *)
Record TicketForTimeTracking := {
  tt_partnerId : option id; tt_orgId : id; tt_categoryId : option id; tt_internalNumber : text }.
Record Category := { cg_defaultBillable : bool; cg_defaultHourlyRate : text }.
Record OrgDefaults := { od_defaultBillable : option bool; od_defaultHourlyRate : text }.

Record FeedComment := {
  fc_ticketId : id; fc_userId : id; fc_authorName : text; fc_content : string }.

Record TDB := {
  entries : gmap id Entry; parts : gmap id Part;
  ticketRows : gmap id TicketForTimeTracking; orgPartners : gmap id id; orgNames : gmap id string;
  userNames : gmap id string; categories : gmap id Category; orgSettings : gmap id OrgDefaults;
  comments : list FeedComment; tNext : id }.

Inductive TimeEvent :=
| time_created (k : id) (p : id) (t : option id) (u : id) (duration : option Z) (billable : bool)
| time_updated (k : id) (p : id) (t : option id) (u : id) (changed : list string)
| time_deleted (k : id) (p : id) (t : option id) (u : id) (owner : id)
| time_approved (k : id) (p : id) (t : option id) (u : id) (ids : list id).

Inductive TimeError :=
| TICKET_NOT_FOUND | TICKET_WRONG_PARTNER | TICKET_ORG_DENIED | ENTRY_NOT_FOUND | PART_NOT_FOUND
| NOT_OWN_ENTRY | ADMIN_REQUIRED | APPROVED_IMMUTABLE | NO_RUNNING_TIMER | ENTRY_RUNNING
| T_PARTNER_UNRESOLVABLE | INVALID_RANGE
| PG_UNIQUE_VIOLATION                     (* 23505 *)
| PG_TX_ABORTED                           (* 25P02: the transaction has failed already *)
| PG_COMMENT_INSERT.                      (* the insert of a feed comment was refused *)
#[export] Instance TimeError_eq_dec : EqDecision TimeError.
Proof. solve_decision. Defined.

Record TimeEntryActor := {
  ta_userId : id; ta_name : text; ta_partnerId : option id; ta_manageAll : bool;
  ta_accessibleOrgIds : option (list id) }.

(** ** Transactions *)

(** A timer another request starts. *)
Record TimerRow := {
  tr_partnerId : id; tr_orgId : option id; tr_ticketId : option id; tr_startedAt : Z;
  tr_description : text; tr_isBillable : bool; tr_hourlyRate : text }.
Record World := { w_comment_fails : bool; w_rival : nat → option TimerRow }.
Definition quiet : World := {| w_comment_fails := false; w_rival _ := None |}.

(** What is committed so far, what this transaction sees, whether a statement has failed, and
    the events handed to Redis, which no rollback takes back. *)
Record Tx := { tx_base : TDB; tx_tables : TDB; tx_aborted : bool; tx_events : list TimeEvent }.

Definition TM (A : Type) : Type := Tx → outcome TimeError A * Tx.
#[export] Instance TM_ret : MRet TM := λ A a t, (Ok a, t).
#[export] Instance TM_bind : MBind TM := λ A B k m t,
  match m t with (Ok a, t') => k a t' | (Throw e, t') => (Throw e, t') end.

Definition t_throw {A} (e : TimeError) : TM A := λ t, (Throw e, t).
Definition t_require (b : bool) (e : TimeError) : TM unit := if b then mret tt else t_throw e.
Definition t_of_option {A} (o : option A) (e : TimeError) : TM A :=
  match o with Some a => mret a | None => t_throw e end.
Definition t_catch {A} (m : TM A) (h : TimeError → TM A) : TM A := λ t,
  match m t with (Ok a, t') => (Ok a, t') | (Throw e, t') => h e t' end.

(** A statement of the transaction. *)
Definition stmt {A} (f : TDB → outcome TimeError (A * TDB)) : TM A := λ t,
  if tx_aborted t then (Throw PG_TX_ABORTED, t)
  else match f (tx_tables t) with
       | Ok (a, d) => (Ok a, {| tx_base := tx_base t; tx_tables := d; tx_aborted := false;
                                tx_events := tx_events t |})
       | Throw e => (Throw e, {| tx_base := tx_base t; tx_tables := tx_tables t; tx_aborted := true;
                                 tx_events := tx_events t |})
       end.
Definition query {A} (f : TDB → A) : TM A := stmt (λ d, Ok (f d, d)).
Definition write {A} (f : TDB → A * TDB) : TM A := stmt (λ d, Ok (f d)).

(** [runOutsideDbContext(() => withSystemDbAccessContext(...))]: a read on a connection of its
    own, of tables this service does not write. *)
Definition sys_read {A} (f : TDB → A) : TM A := λ t, (Ok (f (tx_base t)), t).

Definition emitTimeEntryEvent (e : TimeEvent) : TM unit := λ t,
  (Ok tt, {| tx_base := tx_base t; tx_tables := tx_tables t; tx_aborted := tx_aborted t;
             tx_events := tx_events t ++ [e] |}).

(** A request: the commit of a failed transaction rolls it back without an error.  A handler
    that threw is answered inside the transaction, which commits. *)
Definition request {A} (m : TM A) (d : TDB) : outcome TimeError A * TDB * list TimeEvent :=
  let (r, t) := m {| tx_base := d; tx_tables := d; tx_aborted := false; tx_events := [] |} in
  (r, if tx_aborted t then tx_base t else tx_tables t, tx_events t).

(** ** Writes *)

Definition set_entries (g : gmap id Entry → gmap id Entry) (n : id) (d : TDB) : TDB :=
  {| entries := g (entries d); parts := parts d; ticketRows := ticketRows d; orgPartners := orgPartners d;
     orgNames := orgNames d; userNames := userNames d; categories := categories d;
     orgSettings := orgSettings d; comments := comments d; tNext := n |}.
Definition set_parts (g : gmap id Part → gmap id Part) (n : id) (d : TDB) : TDB :=
  {| entries := entries d; parts := g (parts d); ticketRows := ticketRows d; orgPartners := orgPartners d;
     orgNames := orgNames d; userNames := userNames d; categories := categories d;
     orgSettings := orgSettings d; comments := comments d; tNext := n |}.
Definition add_comment (c : FeedComment) (d : TDB) : TDB :=
  {| entries := entries d; parts := parts d; ticketRows := ticketRows d; orgPartners := orgPartners d;
     orgNames := orgNames d; userNames := userNames d; categories := categories d;
     orgSettings := orgSettings d; comments := comments d ++ [c]; tNext := tNext d |}.

Definition is_running (u : id) (e : Entry) : bool :=
  bool_decide (en_userId e = u) && bool_decide (en_endedAt e = None).
Definition has_running (u : id) (d : TDB) : bool :=
  existsb (λ r : id * Entry, is_running u r.2) (map_to_list (entries d)).

Definition timer_row (u : id) (r : TimerRow) : Entry :=
  {| en_partnerId := tr_partnerId r; en_orgId := tr_orgId r; en_ticketId := tr_ticketId r;
     en_userId := u; en_startedAt := tr_startedAt r; en_endedAt := None; en_durationMinutes := None;
     en_description := tr_description r; en_isBillable := tr_isBillable r;
     en_hourlyRate := tr_hourlyRate r; en_billingStatus := not_billed; en_isApproved := false;
     en_approvedBy := None; en_approvedAt := None |}.

(** Another request of the user commits a timer, if the index lets it. *)
Definition commit_rival (u : id) (r : option TimerRow) : TM unit := λ t,
  match r with
  | Some r =>
      if has_running u (tx_base t) then (Ok tt, t)
      else
        let k := tNext (tx_tables t) in
        let ins := set_entries <[k := timer_row u r]> (N.succ k) in
        (Ok tt, {| tx_base := ins (tx_base t); tx_tables := ins (tx_tables t);
                   tx_aborted := tx_aborted t; tx_events := tx_events t |})
  | None => (Ok tt, t)
  end.

(** [INSERT INTO time_entries] under [time_entries_one_running_per_user_uq]. *)
Definition insert_entry (e : Entry) : TM id :=
  stmt (λ d,
    if bool_decide (en_endedAt e = None) && has_running (en_userId e) d then Throw PG_UNIQUE_VIOLATION
    else Ok (tNext d, set_entries <[tNext d := e]> (N.succ (tNext d)) d)).

(** ** Billing defaults of a ticket *)

Definition getTicketForTimeTracking (ticketId : id) : TM TicketForTimeTracking :=
  row ← sys_read (λ d, ticketRows d !! ticketId); t_of_option row TICKET_NOT_FOUND.
Definition resolveTicketPartner (ticket : TicketForTimeTracking) : TM (option id) :=
  match tt_partnerId ticket with
  | Some p => mret (Some p)
  | None => sys_read (λ d, orgPartners d !! tt_orgId ticket)
  end.

Record TicketLink := {
  tl_orgId : id; tl_partnerId : id; tl_defaultBillable : bool; tl_defaultHourlyRate : text }.

Definition org_listed (orgs : option (list id)) (o : id) : bool :=
  match orgs with Some l => bool_decide (o ∈ l) | None => true end.

Definition resolveTicketLink (ticketId : id) (actor : TimeEntryActor) : TM TicketLink :=
  ticket ← getTicketForTimeTracking ticketId;
  partner ← resolveTicketPartner ticket;
  partnerId ← t_of_option partner T_PARTNER_UNRESOLVABLE;
  t_require (match ta_partnerId actor with Some p => bool_decide (partnerId = p) | None => true end)
    TICKET_WRONG_PARTNER;;
  t_require (org_listed (ta_accessibleOrgIds actor) (tt_orgId ticket)) TICKET_ORG_DENIED;;
  org ← sys_read (λ d, orgSettings d !! tt_orgId ticket);
  category ← sys_read (λ d, c ← tt_categoryId ticket; categories d !! c);
  mret {| tl_orgId := tt_orgId ticket; tl_partnerId := partnerId;
          tl_defaultBillable :=
            default false (or_else (org ≫= od_defaultBillable) (cg_defaultBillable <$> category));
          tl_defaultHourlyRate :=
            or_else (org ≫= od_defaultHourlyRate) (category ≫= cg_defaultHourlyRate) |}.

(** ** Feed comments *)

Definition computeDurationMinutes (startedAt endedAt : Z) : Z := (endedAt - startedAt) / 60000.
Definition toRate (rate : option num) : text := toFixed 2 <$> rate.

Definition fmtMinutes (minutes : option Z) : string :=
  let m := Z.max 0 (default 0 minutes) in
  let h := m / 60 in
  let rest := m mod 60 in
  if h =? 0 then print_Z rest +:+ "m"
  else if rest =? 0 then print_Z h +:+ "h"
  else print_Z h +:+ "h " +:+ print_Z rest +:+ "m".

Definition logged (actor : TimeEntryActor) (e : Entry) : string :=
  default "Technician"%string (ta_name actor) +:+ " logged " +:+ fmtMinutes (en_durationMinutes e)
    +:+ (if en_isBillable e then " (billable)" else "").

Definition insertTimeEntryFeedComment (w : World) (ticketId : option id) (actor : TimeEntryActor)
    (content : string) : TM unit :=
  match ticketId with
  | None => mret tt
  | Some t =>
      t_catch
        (stmt (λ d, if w_comment_fails w then Throw PG_COMMENT_INSERT
           else Ok (tt, add_comment {| fc_ticketId := t; fc_userId := ta_userId actor;
                                       fc_authorName := ta_name actor; fc_content := content |} d)))
        (λ _, mret tt)
  end.

(** ** Creating, starting and stopping *)

Record CreateTimeEntryInput := {
  ci_ticketId : option id; ci_startedAt : Z; ci_endedAt : Z; ci_description : text;
  ci_isBillable : option bool; ci_hourlyRate : option (option num);
  ci_billingStatus : option BillingStatus }.

(** The partner, organisation and defaults of a new entry: of its ticket, or of the actor. *)
Definition entry_link (ticketId : option id) (actor : TimeEntryActor)
    : TM (id * option id * bool * text) :=
  match ticketId with
  | Some t =>
      link ← resolveTicketLink t actor;
      mret (tl_partnerId link, Some (tl_orgId link), tl_defaultBillable link, tl_defaultHourlyRate link)
  | None =>
      partnerId ← t_of_option (ta_partnerId actor) T_PARTNER_UNRESOLVABLE;
      mret (partnerId, None, false, None)
  end.

Definition new_entry (input : CreateTimeEntryInput) (actor : TimeEntryActor)
    (link : id * option id * bool * text) : Entry :=
  let '(partnerId, orgId, defaultBillable, defaultRate) := link in
  {| en_partnerId := partnerId; en_orgId := orgId; en_ticketId := ci_ticketId input;
     en_userId := ta_userId actor; en_startedAt := ci_startedAt input;
     en_endedAt := Some (ci_endedAt input);
     en_durationMinutes := Some (computeDurationMinutes (ci_startedAt input) (ci_endedAt input));
     en_description := ci_description input;
     en_isBillable := default defaultBillable (ci_isBillable input);
     en_hourlyRate := match ci_hourlyRate input with Some r => toRate r | None => defaultRate end;
     en_billingStatus := default not_billed (ci_billingStatus input);
     en_isApproved := false; en_approvedBy := None; en_approvedAt := None |}.

Definition createTimeEntry (w : World) (input : CreateTimeEntryInput) (actor : TimeEntryActor)
    : TM (id * Entry) :=
  link ← entry_link (ci_ticketId input) actor;
  t_require (ci_startedAt input <? ci_endedAt input) INVALID_RANGE;;
  let e := new_entry input actor link in
  k ← insert_entry e;
  insertTimeEntryFeedComment w (en_ticketId e) actor (logged actor e);;
  emitTimeEntryEvent (time_created k (en_partnerId e) (en_ticketId e) (ta_userId actor)
    (en_durationMinutes e) (en_isBillable e));;
  mret (k, e).

(** The partner-axis policy of [time_entries]: what the transaction of the actor may see. *)
Definition visible (actor : TimeEntryActor) (e : Entry) : bool :=
  match ta_partnerId actor with Some p => bool_decide (en_partnerId e = p) | None => true end.

Record StopInput := { si_description : option string; si_isBillable : option bool }.

Definition stopped (over : StopInput) (now : Z) (e : Entry) : Entry :=
  {| en_partnerId := en_partnerId e; en_orgId := en_orgId e; en_ticketId := en_ticketId e;
     en_userId := en_userId e; en_startedAt := en_startedAt e; en_endedAt := Some now;
     en_durationMinutes := Some (computeDurationMinutes (en_startedAt e) now);
     en_description := or_else (si_description over) (en_description e);
     en_isBillable := default (en_isBillable e) (si_isBillable over);
     en_hourlyRate := en_hourlyRate e; en_billingStatus := en_billingStatus e;
     en_isApproved := en_isApproved e; en_approvedBy := en_approvedBy e;
     en_approvedAt := en_approvedAt e |}.

(** The compare-and-set on [ended_at IS NULL]; the first row it returns. *)
Definition stopRunningEntry (actor : TimeEntryActor) (over : StopInput) (now : Z)
    : TM (option (id * Entry)) :=
  write (λ d,
    let hit (e : Entry) := is_running (ta_userId actor) e && visible actor e in
    (head (omap (λ r : id * Entry, if hit r.2 then Some (r.1, stopped over now r.2) else None)
             (map_to_list (entries d))),
     set_entries (fmap (λ e, if hit e then stopped over now e else e)) (tNext d) d)).

Definition no_overrides : StopInput := {| si_description := None; si_isBillable := None |}.

(** One attempt of [startTimer]; [n] is its number. *)
Definition start_attempt (w : World) (n : nat) (actor : TimeEntryActor) (row : TimerRow) (now : Z)
    : TM (id * Entry) :=
  autoStopped ← stopRunningEntry actor no_overrides now;
  match autoStopped with
  | Some (_, e) => insertTimeEntryFeedComment w (en_ticketId e) actor (logged actor e)
  | None => mret tt
  end;;
  commit_rival (ta_userId actor) (w_rival w n);;
  let e := timer_row (ta_userId actor) row in
  k ← insert_entry e;
  mret (k, e).

Definition isUniqueViolation (e : TimeError) : bool := bool_decide (e = PG_UNIQUE_VIOLATION).

Definition startTimer (w : World) (ticketId : option id) (description : text) (actor : TimeEntryActor)
    (now : Z) : TM (id * Entry) :=
  link ← entry_link ticketId actor;
  let '(partnerId, orgId, defaultBillable, defaultRate) := (link : id * option id * bool * text) in
  let row := {| tr_partnerId := partnerId; tr_orgId := orgId; tr_ticketId := ticketId;
                tr_startedAt := now; tr_description := description;
                tr_isBillable := defaultBillable; tr_hourlyRate := defaultRate |} in
  r ← t_catch (start_attempt w 0 actor row now) (λ err,
        if negb (isUniqueViolation err) then t_throw err
        else t_catch (start_attempt w 1 actor row now) (λ retryErr,
               if isUniqueViolation retryErr then t_throw ENTRY_RUNNING else t_throw retryErr));
  let (k, e) := (r : id * Entry) in
  emitTimeEntryEvent (time_created k partnerId (en_ticketId e) (ta_userId actor) None (en_isBillable e));;
  mret (k, e).

Definition stopTimer (w : World) (input : StopInput) (actor : TimeEntryActor) (now : Z)
    : TM (id * Entry) :=
  r ← stopRunningEntry actor input now;
  s ← t_of_option r NO_RUNNING_TIMER;
  let (k, e) := (s : id * Entry) in
  insertTimeEntryFeedComment w (en_ticketId e) actor (logged actor e);;
  emitTimeEntryEvent (time_updated k (en_partnerId e) (en_ticketId e) (ta_userId actor)
    ["endedAt"; "durationMinutes"]%string);;
  mret (k, e).

(** ** Editing and deleting *)

Definition entryOrgAllowed (e : Entry) (orgs : option (list id)) : bool :=
  match orgs, en_orgId e with Some l, Some o => bool_decide (o ∈ l) | _, _ => true end.

Definition getEntryOr404 (k : id) (actor : TimeEntryActor) : TM Entry :=
  row ← query (λ d, entries d !! k);
  e ← t_of_option (row ≫= λ e, if visible actor e then Some e else None) ENTRY_NOT_FOUND;
  t_require (entryOrgAllowed e (ta_accessibleOrgIds actor)) ENTRY_NOT_FOUND;;
  mret e.

Definition assertCanMutate (e : Entry) (actor : TimeEntryActor) : TM unit :=
  t_require (bool_decide (en_userId e = ta_userId actor) || ta_manageAll actor) NOT_OWN_ENTRY;;
  t_require (negb (en_isApproved e) || ta_manageAll actor) APPROVED_IMMUTABLE.

(** A nullable field of a patch: absent, null or a value. *)
Record UpdateTimeEntryInput := {
  ui_ticketId : option (option id); ui_startedAt : option Z; ui_endedAt : option Z;
  ui_description : option text; ui_isBillable : option bool; ui_hourlyRate : option (option num);
  ui_billingStatus : option BillingStatus }.

Definition patched_entry (input : UpdateTimeEntryInput) (org : option (option id)) (e : Entry) : Entry :=
  let startedAt := default (en_startedAt e) (ui_startedAt input) in
  let endedAt := or_else (ui_endedAt input) (en_endedAt e) in
  {| en_partnerId := en_partnerId e; en_orgId := default (en_orgId e) org;
     en_ticketId := default (en_ticketId e) (ui_ticketId input); en_userId := en_userId e;
     en_startedAt := startedAt; en_endedAt := endedAt;
     en_durationMinutes :=
       match ui_startedAt input, ui_endedAt input, endedAt with
       | None, None, _ | _, _, None => en_durationMinutes e
       | _, _, Some ended => Some (computeDurationMinutes startedAt ended)
       end;
     en_description := default (en_description e) (ui_description input);
     en_isBillable := default (en_isBillable e) (ui_isBillable input);
     en_hourlyRate := match ui_hourlyRate input with Some r => toRate r | None => en_hourlyRate e end;
     en_billingStatus := default (en_billingStatus e) (ui_billingStatus input);
     en_isApproved := false; en_approvedBy := None; en_approvedAt := None |}.

Definition marked {A} (o : option A) (s : string) : list string :=
  match o with Some _ => [s] | None => [] end.
Definition changed_fields (input : UpdateTimeEntryInput) (e : Entry) : list string :=
  marked (ui_startedAt input) "startedAt" ++ marked (ui_endedAt input) "endedAt" ++
  marked (ui_description input) "description" ++ marked (ui_isBillable input) "isBillable" ++
  marked (ui_hourlyRate input) "hourlyRate" ++ marked (ui_billingStatus input) "billingStatus" ++
  marked (ui_ticketId input) "ticketId" ++
  match ui_startedAt input, ui_endedAt input, or_else (ui_endedAt input) (en_endedAt e) with
  | None, None, _ | _, _, None => []
  | _, _, Some _ => ["durationMinutes"%string]
  end.

Definition relink (input : UpdateTimeEntryInput) (e : Entry) (actor : TimeEntryActor)
    : TM (option (option id)) :=
  match ui_ticketId input with
  | None => mret None
  | Some None => mret (Some None)
  | Some (Some t) =>
      link ← resolveTicketLink t actor;
      t_require (bool_decide (tl_partnerId link = en_partnerId e)) TICKET_WRONG_PARTNER;;
      mret (Some (Some (tl_orgId link)))
  end.

Definition updateTimeEntry (k : id) (input : UpdateTimeEntryInput) (actor : TimeEntryActor) : TM Entry :=
  e ← getEntryOr404 k actor;
  assertCanMutate e actor;;
  t_require (match or_else (ui_endedAt input) (en_endedAt e) with
             | Some ended => default (en_startedAt e) (ui_startedAt input) <? ended
             | None => true
             end) INVALID_RANGE;;
  org ← relink input e actor;
  let e' := patched_entry input org e in
  write (λ d, (tt, set_entries <[k := e']> (tNext d) d));;
  emitTimeEntryEvent (time_updated k (en_partnerId e) (or_else (en_ticketId e') (en_ticketId e))
    (ta_userId actor) (changed_fields input e));;
  mret e'.

Definition deleteTimeEntry (w : World) (k : id) (actor : TimeEntryActor) : TM unit :=
  e ← getEntryOr404 k actor;
  assertCanMutate e actor;;
  write (λ d, (tt, set_entries (delete k) (tNext d) d));;
  insertTimeEntryFeedComment w (en_ticketId e) actor
    (default "Technician"%string (ta_name actor) +:+ " removed a"
       +:+ match en_durationMinutes e with Some m => " " +:+ fmtMinutes (Some m) | None => "" end
       +:+ " time entry");;
  emitTimeEntryEvent (time_deleted k (en_partnerId e) (en_ticketId e) (ta_userId actor) (en_userId e)).

(** ** Approval *)

(** [skippedReasons] of a bulk approval: the two reasons it can give. *)
Record BulkApproveResult := {
  br_updated : nat; br_skipped : Z; br_notFound : nat; br_running : nat }.

Definition orgAxisSql (orgs : option (list id)) (e : Entry) : bool :=
  match orgs with
  | None => true
  | Some l => match en_orgId e with None => true | Some o => bool_decide (o ∈ l) end
  end.

Definition with_approval (approve : bool) (actor : TimeEntryActor) (now : Z) (e : Entry) : Entry :=
  {| en_partnerId := en_partnerId e; en_orgId := en_orgId e; en_ticketId := en_ticketId e;
     en_userId := en_userId e; en_startedAt := en_startedAt e; en_endedAt := en_endedAt e;
     en_durationMinutes := en_durationMinutes e; en_description := en_description e;
     en_isBillable := en_isBillable e; en_hourlyRate := en_hourlyRate e;
     en_billingStatus := en_billingStatus e; en_isApproved := approve;
     en_approvedBy := if approve then Some (ta_userId actor) else None;
     en_approvedAt := if approve then Some now else None |}.

(** Why an id is skipped; [None] for an eligible one. *)
Definition skip_reason (candidates : gmap id Entry) (k : id) : option TimeError :=
  match candidates !! k with
  | None => Some ENTRY_NOT_FOUND
  | Some e => match en_endedAt e with None => Some ENTRY_RUNNING | Some _ => None end
  end.

Definition approveTimeEntries (ids : list id) (approve : bool) (actor : TimeEntryActor) (now : Z)
    : TM BulkApproveResult :=
  t_require (ta_manageAll actor) ADMIN_REQUIRED;;
  candidates ← query (λ d, filter (λ r : id * Entry, r.1 ∈ ids ∧ visible actor r.2 = true ∧
                            orgAxisSql (ta_accessibleOrgIds actor) r.2 = true) (entries d));
  let eligible := filter (λ k, skip_reason candidates k = None) ids in
  updated ← match eligible with
            | [] => mret []
            | _ => write (λ d,
                (map fst (filter (λ r : id * Entry, r.1 ∈ eligible) (map_to_list (entries d))),
                 set_entries (map_imap (λ k e,
                   Some (if bool_decide (k ∈ eligible) then with_approval approve actor now e else e)))
                   (tNext d) d))
            end;
  (match updated with
   | k :: _ =>
       if approve then
         let e := candidates !! k in
         emitTimeEntryEvent (time_approved k (default 0%N (en_partnerId <$> e)) (e ≫= en_ticketId)
           (ta_userId actor) updated)
       else mret tt
   | [] => mret tt
   end);;
  mret {| br_updated := length updated;
          br_skipped := Z.of_nat (length ids) - Z.of_nat (length updated);
          br_notFound := length (filter (λ k, skip_reason candidates k = Some ENTRY_NOT_FOUND) ids);
          br_running := length (filter (λ k, skip_reason candidates k = Some ENTRY_RUNNING) ids) |}.

(** ** Parts *)

Record TicketPartInput := {
  pi_description : string; pi_partNumber : text; pi_vendor : text; pi_catalogItemId : option id;
  pi_quantity : num; pi_unitPrice : option num; pi_costBasis : option num;
  pi_isBillable : option bool; pi_billingStatus : option BillingStatus; pi_notes : text }.

Definition addTicketPart (ticketId : id) (input : TicketPartInput) (actor : TimeEntryActor) (now : Z)
    : TM (id * Part) :=
  link ← resolveTicketLink ticketId actor;
  let part :=
    {| pt_ticketId := ticketId; pt_orgId := tl_orgId link; pt_description := pi_description input;
       pt_partNumber := pi_partNumber input; pt_vendor := pi_vendor input;
       pt_catalogItemId := pi_catalogItemId input; pt_quantity := toFixed 2 (pi_quantity input);
       pt_unitPrice := toFixed 2 (default (nint 0) (pi_unitPrice input));
       pt_costBasis := toRate (pi_costBasis input);
       pt_isBillable := default (tl_defaultBillable link) (pi_isBillable input);
       pt_billingStatus := default not_billed (pi_billingStatus input);
       pt_addedBy := Some (ta_userId actor); pt_notes := pi_notes input; pt_createdAt := now |} in
  k ← write (λ d, (tNext d, set_parts <[tNext d := part]> (N.succ (tNext d)) d));
  mret (k, part).

(** The org-axis policy of [ticket_parts]. *)
Definition part_visible (actor : TimeEntryActor) (p : Part) : bool :=
  org_listed (ta_accessibleOrgIds actor) (pt_orgId p).

Definition getPartOr404 (k : id) (actor : TimeEntryActor) : TM Part :=
  row ← query (λ d, parts d !! k);
  t_of_option (row ≫= λ p, if part_visible actor p then Some p else None) PART_NOT_FOUND.

Record TicketPartPatch := {
  pp_description : option string; pp_partNumber : text; pp_vendor : text;
  pp_catalogItemId : option (option id); pp_quantity : option num; pp_unitPrice : option num;
  pp_costBasis : option (option num); pp_isBillable : option bool;
  pp_billingStatus : option BillingStatus; pp_notes : text }.

Definition patched_part (input : TicketPartPatch) (p : Part) : Part :=
  {| pt_ticketId := pt_ticketId p; pt_orgId := pt_orgId p;
     pt_description := default (pt_description p) (pp_description input);
     pt_partNumber := or_else (pp_partNumber input) (pt_partNumber p);
     pt_vendor := or_else (pp_vendor input) (pt_vendor p);
     pt_catalogItemId := default (pt_catalogItemId p) (pp_catalogItemId input);
     pt_quantity := match pp_quantity input with Some q => toFixed 2 q | None => pt_quantity p end;
     pt_unitPrice := match pp_unitPrice input with Some u => toFixed 2 u | None => pt_unitPrice p end;
     pt_costBasis := match pp_costBasis input with Some c => toRate c | None => pt_costBasis p end;
     pt_isBillable := default (pt_isBillable p) (pp_isBillable input);
     pt_billingStatus := default (pt_billingStatus p) (pp_billingStatus input);
     pt_addedBy := pt_addedBy p; pt_notes := or_else (pp_notes input) (pt_notes p);
     pt_createdAt := pt_createdAt p |}.

Definition updateTicketPart (k : id) (input : TicketPartPatch) (actor : TimeEntryActor) : TM Part :=
  p ← getPartOr404 k actor;
  let p' := patched_part input p in
  write (λ d, (tt, set_parts <[k := p']> (tNext d) d));;
  mret p'.

Definition deleteTicketPart (k : id) (actor : TimeEntryActor) : TM unit :=
  getPartOr404 k actor;;
  write (λ d, (tt, set_parts (delete k) (tNext d) d)).

(** ** Queries *)

Record ListTimeEntriesFilters := {
  lf_userId : option id; lf_ticketId : option id; lf_orgId : option id;
  lf_accessibleOrgIds : option (list id); lf_from : option Z; lf_to : option Z;
  lf_running : option bool; lf_billingStatus : option BillingStatus; lf_approved : option bool;
  lf_limit : nat; lf_offset : nat }.

(** A condition that is pushed only when its filter is given. *)
Definition given {A} (o : option A) (c : A → bool) : bool :=
  match o with Some a => c a | None => true end.

Definition listConditions (f : ListTimeEntriesFilters) (e : Entry) : bool :=
  given (lf_userId f) (λ u, bool_decide (en_userId e = u)) &&
  given (lf_ticketId f) (λ t, bool_decide (en_ticketId e = Some t)) &&
  given (lf_orgId f) (λ o, bool_decide (en_orgId e = Some o)) &&
  (match lf_orgId f with Some _ => true | None => orgAxisSql (lf_accessibleOrgIds f) e end) &&
  given (lf_from f) (λ t, t <=? en_startedAt e) &&
  given (lf_to f) (λ t, en_startedAt e <? t) &&
  given (lf_running f) (λ b, Bool.eqb b (bool_decide (en_endedAt e = None))) &&
  given (lf_billingStatus f) (λ s, bool_decide (en_billingStatus e = s)) &&
  given (lf_approved f) (λ b, Bool.eqb b (en_isApproved e)).

Definition matching (actor : TimeEntryActor) (c : Entry → bool) (d : TDB) : list (id * Entry) :=
  filter (λ r, c r.2 = true ∧ visible actor r.2 = true) (map_to_list (entries d)).

Definition listTimeEntries (f : ListTimeEntriesFilters) (actor : TimeEntryActor)
    : TM (list (id * Entry) * nat) :=
  rows ← query (λ d, order_by (λ a b, en_startedAt b.2 <=? en_startedAt a.2)
                       (matching actor (listConditions f) d));
  total ← query (λ d, length (matching actor (listConditions f) d));
  mret (take (lf_limit f) (drop (lf_offset f) rows), total).

Definition getRunningTimer (userId : id) (actor : TimeEntryActor) : TM (option (id * Entry)) :=
  query (λ d, head (matching actor (is_running userId) d)).

(** ** Timesheets *)

Definition DAY : Z := 24 * 60 * 60000.

Record TimesheetDay := {
  ts_date : string; ts_totalMinutes : Z; ts_billableMinutes : Z; ts_entries : list (id * Entry) }.

Definition in_week (userId : id) (weekStart : Z) (orgs : option (list id)) (e : Entry) : bool :=
  bool_decide (en_userId e = userId) && (weekStart <=? en_startedAt e) &&
  (en_startedAt e <? weekStart + 7 * DAY) && orgAxisSql orgs e.

(** [days.set(key, ...)]: a key that is set already keeps its place. *)
Definition set_day (ds : list TimesheetDay) (key : string) : list TimesheetDay :=
  let fresh := {| ts_date := key; ts_totalMinutes := 0; ts_billableMinutes := 0; ts_entries := [] |} in
  if existsb (λ d, bool_decide (ts_date d = key)) ds
  then map (λ d, if bool_decide (ts_date d = key) then fresh else d) ds
  else ds ++ [fresh].
Definition week_days (weekStart : Z) : list TimesheetDay :=
  fold_left (λ ds i, set_day ds (utc_date (weekStart + i * DAY))) [0; 1; 2; 3; 4; 5; 6] [].

(** [days.get(key)], updated in place; an entry of another day is passed over. *)
Definition add_entry (ds : list TimesheetDay) (r : id * Entry) : list TimesheetDay :=
  let minutes := default 0 (en_durationMinutes r.2) in
  map (λ d, if bool_decide (ts_date d = utc_date (en_startedAt r.2)) then
              {| ts_date := ts_date d; ts_totalMinutes := ts_totalMinutes d + minutes;
                 ts_billableMinutes := ts_billableMinutes d + (if en_isBillable r.2 then minutes else 0);
                 ts_entries := ts_entries d ++ [r] |}
            else d) ds.

Record Timesheet := {
  sh_weekStart : string; sh_days : list TimesheetDay; sh_totalMinutes : Z; sh_billableMinutes : Z }.

Definition timesheet_of (weekStart : Z) (rows : list (id * Entry)) : Timesheet :=
  let allDays := fold_left add_entry rows (week_days weekStart) in
  {| sh_weekStart := utc_date weekStart; sh_days := allDays;
     sh_totalMinutes := fold_left (λ s d, s + ts_totalMinutes d) allDays 0;
     sh_billableMinutes := fold_left (λ s d, s + ts_billableMinutes d) allDays 0 |}.

Definition getTimesheet (userId : id) (weekStart : Z) (orgs : option (list id)) (actor : TimeEntryActor)
    : TM Timesheet :=
  rows ← query (λ d, order_by (λ a b, en_startedAt a.2 <=? en_startedAt b.2)
                       (matching actor (in_week userId weekStart orgs) d));
  mret (timesheet_of weekStart rows).

(** ** The export of billables *)

Inductive BillableKind := bk_time (isApproved : bool) | bk_part.
Record BillableRow := {
  bl_kind : BillableKind; bl_date : Z; bl_orgName : text; bl_ticketNumber : text;
  bl_description : text; bl_technician : text; bl_quantity : string; bl_rate : text;
  bl_amount : string; bl_billingStatus : BillingStatus }.

Definition toFinite (v : text) : num := v ≫= Number.

Definition product_text (a b : num) : string :=
  match a, b with Some _, Some _ => toFixed 2 (nmul a b) | _, _ => "0.00"%string end.

Definition time_row (d : TDB) (e : Entry) : BillableRow :=
  let hours := ndiv (nint (default 0 (en_durationMinutes e))) (nint 60) in
  {| bl_kind := bk_time (en_isApproved e); bl_date := en_startedAt e;
     bl_orgName := en_orgId e ≫= λ o, orgNames d !! o;
     bl_ticketNumber := t ← en_ticketId e; row ← ticketRows d !! t; tt_internalNumber row;
     bl_description := en_description e; bl_technician := userNames d !! en_userId e;
     bl_quantity := toFixed 2 hours; bl_rate := en_hourlyRate e;
     bl_amount := product_text hours (toFinite (en_hourlyRate e));
     bl_billingStatus := en_billingStatus e |}.

Definition part_row (d : TDB) (p : Part) : BillableRow :=
  {| bl_kind := bk_part; bl_date := pt_createdAt p; bl_orgName := orgNames d !! pt_orgId p;
     bl_ticketNumber := row ← ticketRows d !! pt_ticketId p; tt_internalNumber row;
     bl_description := Some (pt_description p);
     bl_technician := u ← pt_addedBy p; userNames d !! u;
     bl_quantity := pt_quantity p; bl_rate := Some (pt_unitPrice p);
     bl_amount := product_text (toFinite (Some (pt_quantity p))) (toFinite (Some (pt_unitPrice p)));
     bl_billingStatus := pt_billingStatus p |}.

Definition billable_time (from to : Z) (orgId : option id) (orgs : option (list id)) (e : Entry) : bool :=
  en_isBillable e && negb (bool_decide (en_endedAt e = None)) &&
  (from <=? en_startedAt e) && (en_startedAt e <=? to) &&
  match orgId with Some o => bool_decide (en_orgId e = Some o) | None => orgAxisSql orgs e end.
Definition billable_part (from to : Z) (orgId : option id) (orgs : option (list id)) (p : Part) : bool :=
  pt_isBillable p && (from <=? pt_createdAt p) && (pt_createdAt p <=? to) &&
  match orgId with Some o => bool_decide (pt_orgId p = o) | None => org_listed orgs (pt_orgId p) end.

Definition listBillables (from to : Z) (orgId : option id) (orgs : option (list id))
    (actor : TimeEntryActor) : TM (list BillableRow) :=
  timeRows ← query (λ d, order_by (λ a b, bl_date a <=? bl_date b)
    (map (λ r, time_row d r.2) (matching actor (billable_time from to orgId orgs) d)));
  partRows ← query (λ d, order_by (λ a b, bl_date a <=? bl_date b)
    (map (λ r, part_row d r.2)
       (filter (λ r : id * Part, billable_part from to orgId orgs r.2 = true ∧ part_visible actor r.2 = true)
          (map_to_list (parts d)))));
  mret (order_by (λ a b, bl_date a <=? bl_date b) (timeRows ++ partRows)).
