(* ===== verification/TimeEntrySteps.v ===== *)
(** * The abstract step of a time-tracking request ([estep]) and that every request of
    [TimeEntries] makes it, whether its transaction commits or rolls back. *)

From S2P Require Import Prelude JsNum Money Calendar InvoiceDb Invoices.
From S2P Require Import TimeEntries.

Open Scope Z_scope.

(** ** Rows and steps *)

(** A running entry has no duration and is not approved; a stopped one has the whole minutes
    between its ends; approval names the approver. *)
Record entry_ok (e : Entry) : Prop := {
  eo_running : en_endedAt e = None → en_durationMinutes e = None ∧ en_isApproved e = false;
  eo_stopped : ∀ t, en_endedAt e = Some t →
    en_durationMinutes e = Some (computeDurationMinutes (en_startedAt e) t);
  eo_approved : en_isApproved e = true ↔ en_approvedBy e ≠ None }.

Record timers_ok (d : TDB) : Prop := {
  to_fresh : ∀ k e, entries d !! k = Some e → (k < tNext d)%N;
  to_rows : ∀ k e, entries d !! k = Some e → entry_ok e;
  to_one : ∀ k k' e e', entries d !! k = Some e → entries d !! k' = Some e' →
    en_endedAt e = None → en_endedAt e' = None → en_userId e = en_userId e' → k = k' }.

(** Who may touch an entry: its owner, or a manager; an approved one only a manager. *)
Definition may_change (a : TimeEntryActor) (e : Entry) : Prop :=
  visible a e = true ∧ (en_userId e = ta_userId a ∨ ta_manageAll a = true) ∧
  (en_isApproved e = true → ta_manageAll a = true).

(** Equal but for the approval. *)
Definition same_work (e e' : Entry) : Prop :=
  e' = {| en_partnerId := en_partnerId e; en_orgId := en_orgId e; en_ticketId := en_ticketId e;
          en_userId := en_userId e; en_startedAt := en_startedAt e; en_endedAt := en_endedAt e;
          en_durationMinutes := en_durationMinutes e; en_description := en_description e;
          en_isBillable := en_isBillable e; en_hourlyRate := en_hourlyRate e;
          en_billingStatus := en_billingStatus e; en_isApproved := en_isApproved e';
          en_approvedBy := en_approvedBy e'; en_approvedAt := en_approvedAt e' |}.

(** One row before and after a request. *)
Record row_step (a : TimeEntryActor) (e e' : Entry) : Prop := {
  rs_allowed : may_change a e;
  rs_owner : en_userId e' = en_userId e ∧ en_partnerId e' = en_partnerId e;
  rs_stopped : en_endedAt e' = None → en_endedAt e = None;
  rs_ok : entry_ok e';
  rs_approved : en_isApproved e' = true → same_work e e' ∧ ta_manageAll a = true }.

(** The abstract step of a request of [a]: rows it may change are changed as above or
    deleted; at most one row is new, [a]'s own, and if it runs no other timer of [a] does. *)
Record estep (a : TimeEntryActor) (d d' : TDB) : Prop := {
  es_rows : ∀ k e, entries d !! k = Some e →
    match entries d' !! k with Some e' => e' = e ∨ row_step a e e' | None => may_change a e end;
  es_new : ∀ k e', entries d' !! k = Some e' → entries d !! k = None →
    k = tNext d ∧ (k < tNext d')%N ∧ entry_ok e' ∧ en_userId e' = ta_userId a ∧ en_isApproved e' = false ∧
    (en_endedAt e' = None → ∀ j e, j ≠ k → entries d' !! j = Some e → en_userId e = ta_userId a →
       en_endedAt e ≠ None);
  es_next : (tNext d <= tNext d')%N }.

Lemma estep_refl a d : estep a d d.
Proof. split; [|congruence | lia]. intros k e ->. by left. Qed.

(** The step looks at the entries and the id generator only. *)
Lemma estep_ext a d d1 d2 :
  estep a d d1 → entries d2 = entries d1 → tNext d2 = tNext d1 → estep a d d2.
Proof. intros [Hr Hn Hx] E1 E2. split; rewrite ?E1, ?E2; done. Qed.

Lemma estep_timers a d d' : timers_ok d → estep a d d' → timers_ok d'.
Proof.
  intros [Hf Ho H1] [Hr Hn Hx].
  assert (∀ k e', entries d' !! k = Some e' →
    (∃ e, entries d !! k = Some e ∧ (e' = e ∨ row_step a e e')) ∨ entries d !! k = None) as Hcase.
  { intros k e' Hk. destruct (entries d !! k) as [e|] eqn:E; [left|by right].
    exists e. split; [done|]. pose proof (Hr k e E) as H. by rewrite Hk in H. }
  assert (∀ k k' e e', entries d' !! k = Some e → entries d !! k = None → entries d' !! k' = Some e' →
    en_endedAt e = None → en_endedAt e' = None → en_userId e = en_userId e' → k = k') as Hnew.
  { intros k k' e e' Hk Hk0 Hk' E E' Eu. destruct (Hn k e Hk Hk0) as (_ & _ & _ & Hu & _ & Honly).
    destruct (decide (k' = k)) as [->|Hne]; [done|].
    destruct (Honly E k' e' Hne Hk'); [congruence | done]. }
  split.
  - intros k e' Hk. destruct (Hcase k e' Hk) as [(e & He & _)|H0]; [apply Hf in He; lia|].
    by destruct (Hn k e' Hk H0) as (_ & ? & _).
  - intros k e' Hk. destruct (Hcase k e' Hk) as [(e & He & [->|Hs])|H0]; [by eapply Ho | apply Hs|].
    by destruct (Hn k e' Hk H0) as (_ & _ & ? & _).
  - intros k k' e1 e2 Hk Hk' E1 E2 Eu.
    destruct (Hcase k e1 Hk) as [(e & He & Hs)|H0]; [|by eapply Hnew].
    destruct (Hcase k' e2 Hk') as [(e' & He' & Hs')|H0]; [|symmetry; by eapply Hnew].
    apply (H1 k k' e e' He He').
    + destruct Hs as [<-|Hs]; [done | by apply (rs_stopped _ _ _ Hs)].
    + destruct Hs' as [<-|Hs']; [done | by apply (rs_stopped _ _ _ Hs')].
    + destruct Hs as [<-|Hs], Hs' as [<-|Hs']; try done;
        try (rewrite <- (proj1 (rs_owner _ _ _ Hs)) || rewrite (proj1 (rs_owner _ _ _ Hs)) in Eu);
        try rewrite <- (proj1 (rs_owner _ _ _ Hs')); congruence.
Qed.

(** ** Runs *)

Lemma tbind_run {A B} (m : TM A) (k : A → TM B) t :
  (m ≫= k) t = match m t with (Ok a, t') => k a t' | (Throw e, t') => (Throw e, t') end.
Proof. done. Qed.

(** Code that only reads. *)
Definition reads {A} (m : TM A) : Prop := ∀ t, (m t).2 = t.

Lemma reads_ret {A} (a : A) : reads (mret a).
Proof. done. Qed.
Lemma reads_bind {A B} (m : TM A) (k : A → TM B) : reads m → (∀ a, reads (k a)) → reads (m ≫= k).
Proof.
  intros Hm Hk t. rewrite tbind_run. specialize (Hm t). destruct (m t) as [[a|e] t1]; simpl in *; subst; [|done].
  apply Hk.
Qed.
Lemma reads_require b e : reads (t_require b e).
Proof. by destruct b. Qed.
Lemma reads_of_option {A} (o : option A) e : reads (t_of_option o e).
Proof. by destruct o. Qed.
Lemma reads_query {A} (f : TDB → A) : reads (query f).
Proof. intros [b d [] ev]; done. Qed.
Lemma reads_sys {A} (f : TDB → A) : reads (sys_read f).
Proof. done. Qed.

Create HintDb reads.
#[export] Hint Resolve reads_ret reads_bind reads_require reads_of_option reads_query reads_sys : reads.

Lemma reads_link t a : reads (resolveTicketLink t a).
Proof.
  unfold resolveTicketLink, getTicketForTimeTracking, resolveTicketPartner.
  apply reads_bind; [auto with reads|]. intros row. apply reads_bind; [by destruct (tt_partnerId row); auto with reads|].
  auto 10 with reads.
Qed.
#[export] Hint Resolve reads_link : reads.
Lemma reads_entry_link t a : reads (entry_link t a).
Proof. destruct t; simpl; auto with reads. Qed.
Lemma reads_entry k a : reads (getEntryOr404 k a).
Proof. unfold getEntryOr404. auto with reads. Qed.
Lemma reads_mutate e a : reads (assertCanMutate e a).
Proof. unfold assertCanMutate. auto with reads. Qed.
Lemma reads_relink i e a : reads (relink i e a).
Proof. unfold relink. destruct (ui_ticketId i) as [[t|]|]; auto with reads. Qed.
Lemma reads_part k a : reads (getPartOr404 k a).
Proof. unfold getPartOr404. auto with reads. Qed.
#[export] Hint Resolve reads_entry_link reads_entry reads_mutate reads_relink reads_part : reads.

Section request.
Context (a : TimeEntryActor) (d : TDB).

(** Whether it commits or rolls back, the transaction will have made a step from [d]. *)
Definition held (t : Tx) : Prop :=
  estep a d (tx_base t) ∧ (tx_aborted t = false → estep a d (tx_tables t)).
Definition begin_tx : Tx := {| tx_base := d; tx_tables := d; tx_aborted := false; tx_events := [] |}.

Lemma held_begin : held begin_tx.
Proof. split; intros; apply estep_refl. Qed.

Definition keeps {A} (m : TM A) : Prop := ∀ t, held t → held (m t).2.

Lemma held_reads {A B} (m : TM A) (k : A → TM B) t :
  reads m → held t → (∀ x, m t = (Ok x, t) → held (k x t).2) → held ((m ≫= k) t).2.
Proof.
  intros Hm Ht Hk. rewrite tbind_run. specialize (Hm t). destruct (m t) as [[x|e] t1]; simpl in *; subst; auto.
Qed.
Lemma keeps_bind {A B} (m : TM A) (k : A → TM B) : keeps m → (∀ x, keeps (k x)) → keeps (m ≫= k).
Proof.
  intros Hm Hk t Ht. rewrite tbind_run. specialize (Hm t Ht). destruct (m t) as [[x|e] t1]; [by apply Hk | done].
Qed.
Lemma held_bind {A B} (m : TM A) (k : A → TM B) t : held (m t).2 → (∀ x, keeps (k x)) → held ((m ≫= k) t).2.
Proof. intros Hm Hk. rewrite tbind_run. destruct (m t) as [[x|e] t1]; [by apply Hk | done]. Qed.
Lemma keeps_reads {A} (m : TM A) : reads m → keeps m.
Proof. intros Hm t Ht. by rewrite Hm. Qed.
Lemma keeps_emit e : keeps (emitTimeEntryEvent e).
Proof. by intros t []. Qed.
Lemma keeps_comment w t c : keeps (insertTimeEntryFeedComment w t a c).
Proof.
  intros [b tb [] ev] [H1 H2]; destruct t as [k|]; try done.
  unfold insertTimeEntryFeedComment, t_catch, stmt. simpl in *.
  destruct (w_comment_fails w); [done|]. split; [done|]. intros _. by eapply estep_ext; [apply H2|..].
Qed.

(** A statement that writes the entries from the state [d] itself. *)
Lemma held_write {A} (f : TDB → A * TDB) : estep a d (f d).2 → held (write f begin_tx).2.
Proof.
  intros H. unfold write, stmt, begin_tx. simpl. destruct (f d) as [x d1]. simpl in *. split; [apply estep_refl | done].
Qed.

Lemma committed {A} (m : TM A) r d' ev : held (m begin_tx).2 → request m d = (r, d', ev) → estep a d d'.
Proof.
  unfold request. fold begin_tx. destruct (m begin_tx) as [r0 t]. simpl. intros [H1 H2] [= <- <- _].
  destruct (tx_aborted t); auto.
Qed.
End request.
#[export] Hint Resolve keeps_bind keeps_reads keeps_emit keeps_comment : reads.

(** ** What the statements do *)

Lemma estep_insert a d e :
  timers_ok d → entry_ok e → en_userId e = ta_userId a → en_isApproved e = false →
  (en_endedAt e = None → has_running (ta_userId a) d = false) →
  estep a d (set_entries <[tNext d := e]> (N.succ (tNext d)) d).
Proof.
  intros [Hf _ _] He Hu Ha Hn. split; simpl; [| |lia].
  - intros k e0 Hk. rewrite lookup_insert_ne by (apply Hf in Hk; lia). rewrite Hk. by left.
  - intros k e' [[<- <-]|[_ Hk]]%lookup_insert_Some Hk0; [|congruence].
    split_and!; try done; [lia|]. intros Er j e0 Hj [[? _]|[_ Hj']]%lookup_insert_Some Eu E0; [done|].
    specialize (Hn Er). apply Bool.not_true_iff_false in Hn. apply Hn, existsb_exists. exists (j, e0).
    split; [by apply list_elem_of_In, elem_of_map_to_list|]. unfold is_running. simpl.
    by rewrite !bool_decide_eq_true_2.
Qed.

Lemma estep_edit a d k e e' :
  entries d !! k = Some e → row_step a e e' → estep a d (set_entries <[k := e']> (tNext d) d).
Proof.
  intros Hk Hs. split; simpl; [| |lia].
  - intros j e0 Hj. destruct (decide (j = k)) as [->|Hne].
    + rewrite lookup_insert_eq. rewrite Hk in Hj. injection Hj as <-. by right.
    + rewrite lookup_insert_ne by done. rewrite Hj. by left.
  - intros j e0 [[<- _]|[_ Hj]]%lookup_insert_Some; congruence.
Qed.

Lemma estep_delete a d k e :
  entries d !! k = Some e → may_change a e → estep a d (set_entries (delete k) (tNext d) d).
Proof.
  intros Hk Hs. split; simpl; [| |lia].
  - intros j e0 Hj. destruct (decide (j = k)) as [->|Hne].
    + rewrite lookup_delete_eq. congruence.
    + rewrite lookup_delete_ne by done. rewrite Hj. by left.
  - intros j e0 [_ Hj]%lookup_delete_Some. congruence.
Qed.

(** A statement that maps the rows, each to itself or by a [row_step]. *)
Lemma estep_map a d (f : id → Entry → Entry) g :
  (∀ k e, entries d !! k = Some e → f k e = e ∨ row_step a e (f k e)) →
  (∀ k, g (entries d) !! k = f k <$> entries d !! k) → estep a d (set_entries g (tNext d) d).
Proof.
  intros Hf Hg. split; simpl; [| |lia].
  - intros k e Hk. rewrite Hg, Hk. simpl. by apply Hf.
  - intros k e'. rewrite Hg. intros (e & Hk & _)%fmap_Some_1 H. congruence.
Qed.

Lemma stopped_step a over now e :
  entry_ok e → is_running (ta_userId a) e = true → visible a e = true → row_step a e (stopped over now e).
Proof.
  intros [Hr _ Ha] Hrun Hv. unfold is_running in Hrun. bool_prop.
  destruct (Hr H0) as [_ Hna]. split; simpl; [|done|done| |congruence].
  - split_and!; [done | by left | congruence].
  - split; simpl; [done | by intros t [= <-] | done].
Qed.

Lemma timer_row_ok u r : entry_ok (timer_row u r).
Proof. split; simpl; [done | done|]. split; [done|]. by intros H. Qed.

Lemma patched_step a e input org :
  entry_ok e → may_change a e → row_step a e (patched_entry input org e).
Proof.
  intros [Hr Hs Ha] Hm. unfold patched_entry. split; simpl; [done | done| | |done].
  - by destruct (ui_endedAt input).
  - split; simpl.
    + intros E. split; [|done]. destruct (ui_endedAt input); [done|]. simpl in E. rewrite E.
      destruct (Hr E) as [Hd _]. by destruct (ui_startedAt input).
    + intros t E. rewrite E. destruct (ui_startedAt input) as [st|]; simpl; [done|].
      destruct (ui_endedAt input); [done|]. by apply Hs.
    + split; [done|]. by intros H.
Qed.

Lemma approval_step a e b now t :
  entry_ok e → visible a e = true → ta_manageAll a = true → en_endedAt e = Some t →
  row_step a e (with_approval b a now e).
Proof.
  intros [Hr Hs Ha] Hv Hm Ht. split; simpl; [|done|done| |done].
  - split_and!; auto.
  - split; simpl; [congruence | done|]. destruct b; naive_solver.
Qed.

(** ** The requests *)

Inductive TimeOp :=
| OpCreate (input : CreateTimeEntryInput)
| OpStart (ticketId : option id) (description : text)
| OpStop (input : StopInput)
| OpUpdate (k : id) (input : UpdateTimeEntryInput)
| OpDelete (k : id)
| OpApprove (ids : list id) (approve : bool)
| OpAddPart (ticketId : id) (input : TicketPartInput)
| OpUpdatePart (k : id) (input : TicketPartPatch)
| OpDeletePart (k : id).

Definition run_time_op (w : World) (op : TimeOp) (a : TimeEntryActor) (now : Z) : TM unit :=
  match op with
  | OpCreate input => createTimeEntry w input a;; mret tt
  | OpStart t desc => startTimer w t desc a now;; mret tt
  | OpStop input => stopTimer w input a now;; mret tt
  | OpUpdate k input => updateTimeEntry k input a;; mret tt
  | OpDelete k => deleteTimeEntry w k a
  | OpApprove ids b => approveTimeEntries ids b a now;; mret tt
  | OpAddPart t input => addTicketPart t input a now;; mret tt
  | OpUpdatePart k input => updateTicketPart k input a;; mret tt
  | OpDeletePart k => deleteTicketPart k a
  end.

Section ops.
Context (a : TimeEntryActor) (d : TDB) (Hd : timers_ok d).
Local Abbreviation t0 := (begin_tx d).

Lemma create_held w input : held a d (createTimeEntry w input a t0).2.
Proof.
  unfold createTimeEntry. apply held_reads; [auto with reads | apply held_begin|]. intros link _.
  apply held_reads; [auto with reads | apply held_begin|]. intros [] Hr.
  apply held_bind; [|auto 6 with reads]. set (e := new_entry input a link).
  assert (en_endedAt e = Some (ci_endedAt input) ∧ en_userId e = ta_userId a ∧ en_isApproved e = false ∧ entry_ok e)
    as (He & Hu & Ha & Hok).
  { unfold e, new_entry. destruct link as [[[p o] b] r]. simpl. split_and!; [done..|].
    split; simpl; [done | by intros t [= <-]|]. split; [done|]. by intros H. }
  unfold insert_entry. rewrite (bool_decide_eq_false_2 (en_endedAt e = None)) by congruence.
  apply (held_write a d (λ d, (tNext d, set_entries <[tNext d := e]> (N.succ (tNext d)) d))).
  apply estep_insert; try done. congruence.
Qed.

Lemma stop_rows over now :
  estep a d (set_entries (fmap (λ e, if is_running (ta_userId a) e && visible a e then stopped over now e else e))
               (tNext d) d).
Proof.
  eapply (estep_map a d (λ _ e, if is_running (ta_userId a) e && visible a e then stopped over now e else e)).
  - intros k e Hk. destruct (_ && _) eqn:E; [right|by left]. bool_prop.
    apply stopped_step; [by eapply to_rows | done | done].
  - intros k. apply lookup_fmap.
Qed.

Lemma stop_held w input now : held a d (stopTimer w input a now t0).2.
Proof.
  unfold stopTimer. apply held_bind; [apply held_write, stop_rows|]. intros r.
  apply keeps_bind; [auto with reads|]. intros [k e]. auto 6 with reads.
Qed.

(** What the reads before a change have established. *)
Lemma entry_read k e : getEntryOr404 k a t0 = (Ok e, t0) → entries d !! k = Some e ∧ visible a e = true.
Proof.
  unfold getEntryOr404, query, stmt, begin_tx. rewrite tbind_run. simpl.
  destruct (entries d !! k) as [e0|]; [|done]. rewrite tbind_run. simpl. destruct (visible a e0) eqn:Hv; [|done].
  simpl. rewrite tbind_run. destruct (t_require _ _ _) as [[[]|] t]; [|done]. by intros [= -> _].
Qed.

Lemma mutate_read e t t' : assertCanMutate e a t = (Ok tt, t') → visible a e = true → may_change a e.
Proof.
  unfold assertCanMutate. rewrite tbind_run. intros H Hv.
  destruct (bool_decide (en_userId e = ta_userId a) || ta_manageAll a) eqn:E1; [|done]. simpl in H.
  destruct (negb (en_isApproved e) || ta_manageAll a) eqn:E2; [|done]. split_and!; [done| |].
  - apply orb_true_iff in E1 as [E1|E1]; [left; by bool_prop | by right].
  - intros Ha. by rewrite Ha in E2.
Qed.

Lemma update_held k input : held a d (updateTimeEntry k input a t0).2.
Proof.
  unfold updateTimeEntry. apply held_reads; [auto with reads | apply held_begin|]. intros e [Hk Hv]%entry_read.
  apply held_reads; [auto with reads | apply held_begin|]. intros [] Hm%mutate_read; [|done].
  apply held_reads; [auto with reads | apply held_begin|]. intros [] _.
  apply held_reads; [auto with reads | apply held_begin|]. intros org _.
  apply held_bind; [|auto 6 with reads]. apply held_write. simpl.
  apply (estep_edit a d k e); [done|]. apply patched_step; [by eapply to_rows | done].
Qed.

Lemma delete_held w k : held a d (deleteTimeEntry w k a t0).2.
Proof.
  unfold deleteTimeEntry. apply held_reads; [auto with reads | apply held_begin|]. intros e [Hk Hv]%entry_read.
  apply held_reads; [auto with reads | apply held_begin|]. intros [] Hm%mutate_read; [|done].
  apply held_bind; [|auto 6 with reads]. apply held_write. simpl. by apply (estep_delete a d k e).
Qed.

Lemma approve_rows (ids eligible : list id) b now (cs : gmap id Entry) :
  ta_manageAll a = true →
  cs = filter (λ r : id * Entry, r.1 ∈ ids ∧ visible a r.2 = true ∧
                 orgAxisSql (ta_accessibleOrgIds a) r.2 = true) (entries d) →
  (∀ k, k ∈ eligible → skip_reason cs k = None) →
  estep a d (set_entries (map_imap (λ k e,
    Some (if bool_decide (k ∈ eligible) then with_approval b a now e else e))) (tNext d) d).
Proof.
  intros Hm -> Hel. eapply (estep_map a d (λ k e, if bool_decide (k ∈ eligible) then with_approval b a now e else e)).
  - intros k e Hk. case_bool_decide as Hin; [right|by left]. specialize (Hel k Hin). unfold skip_reason in Hel.
    destruct (filter _ _ !! k) as [e0|] eqn:E; [|done].
    apply map_lookup_filter_Some in E as (E & _ & Hv & _). simpl in Hv. rewrite Hk in E. injection E as <-.
    destruct (en_endedAt e) eqn:Et; [|done]. eapply approval_step; eauto. by eapply to_rows.
  - intros k. rewrite map_lookup_imap. by destruct (entries d !! k).
Qed.

Lemma approve_held ids b now : held a d (approveTimeEntries ids b a now t0).2.
Proof.
  unfold approveTimeEntries. apply held_reads; [auto with reads | apply held_begin|]. intros [] Hm.
  assert (ta_manageAll a = true) as Hma by (by destruct (ta_manageAll a)).
  apply held_reads; [auto with reads | apply held_begin|]. intros cs Hcs. injection Hcs as Hcs.
  set (eligible := filter (λ k, skip_reason cs k = None) ids).
  apply held_bind.
  - destruct eligible as [|k0 el] eqn:E; [apply held_begin|]. apply held_write. cbn [snd]. rewrite <- E.
    apply (approve_rows ids eligible b now cs); [done | by rewrite <- Hcs|].
    by intros k [? _]%list_elem_of_filter.
  - intros [|k up]; [auto with reads|]. destruct b; auto with reads.
Qed.
End ops.

(** ** Starting a timer *)

Section start.
Context (w : World) (a : TimeEntryActor) (d : TDB) (row : TimerRow) (now : Z).
Local Abbreviation u := (ta_userId a).
Local Abbreviation new := (timer_row u row).

(** The rows once the visible running timers of the user are stopped. *)
Definition after_stop : gmap id Entry :=
  (λ e, if is_running u e && visible a e then stopped no_overrides now e else e) <$> entries d.

(** The database with the timer of another request in it. *)
Definition with_rival (r : TimerRow) : TDB := set_entries <[tNext d := timer_row u r]> (N.succ (tNext d)) d.

Lemma attempt_aborted n t : tx_aborted t = true → start_attempt w n a row now t = (Throw PG_TX_ABORTED, t).
Proof. intros H. unfold start_attempt. rewrite tbind_run. unfold stopRunningEntry, write, stmt. by rewrite H. Qed.

Lemma comment_run tk c t :
  insertTimeEntryFeedComment w tk a c t = (Ok tt, t) ∨
  (tx_aborted t = false ∧
   ∃ t', insertTimeEntryFeedComment w tk a c t = (Ok tt, t') ∧ tx_base t' = tx_base t ∧
     entries (tx_tables t') = entries (tx_tables t) ∧ tNext (tx_tables t') = tNext (tx_tables t) ∧
     tx_aborted t' = w_comment_fails w).
Proof.
  destruct tk as [k|]; [|by left]. unfold insertTimeEntryFeedComment, t_catch, stmt.
  destruct (tx_aborted t) eqn:Ht; [by left|right]. split; [done|].
  destruct (w_comment_fails w); eexists; (split; [done|]); simpl; split_and!; auto.
Qed.

(** The first attempt, up to its insert. *)
Lemma attempt_insert :
  ∃ t, start_attempt w 0 a row now (begin_tx d) = (k ← insert_entry new; mret (k, new)) t ∧
    ((tx_base t = d ∧ entries (tx_tables t) = after_stop ∧ tNext (tx_tables t) = tNext d ∧
      (w_rival w 0 = None ∨ has_running u d = true) ∧
      (w_comment_fails w = false → tx_aborted t = false)) ∨
     (∃ r, w_rival w 0 = Some r ∧ has_running u d = false ∧ tx_base t = with_rival r ∧
           entries (tx_tables t) = <[tNext d := timer_row u r]> after_stop)).
Proof.
  unfold start_attempt. rewrite tbind_run. unfold stopRunningEntry, write, stmt, begin_tx. simpl.
  set (stop := head _). set (d1 := set_entries _ _ _).
  set (t1 := {| tx_base := d; tx_tables := d1; tx_aborted := false; tx_events := [] |}).
  rewrite tbind_run.
  assert (∃ t2, match stop with Some (_, e) => insertTimeEntryFeedComment w (en_ticketId e) a (logged a e)
                | None => mret tt end t1 = (Ok tt, t2) ∧ tx_base t2 = d ∧
      entries (tx_tables t2) = after_stop ∧ tNext (tx_tables t2) = tNext d ∧
      (w_comment_fails w = false → tx_aborted t2 = false)) as (t2 & -> & Hb & He & Hn & Hw).
  { destruct stop as [[k e]|]; [|by exists t1].
    destruct (comment_run (en_ticketId e) (logged a e) t1) as [->|(_ & t2 & -> & Hb & He & Hn & Hw)]; [by exists t1|].
    exists t2. by rewrite Hb, He, Hn, Hw. }
  rewrite tbind_run. unfold commit_rival. destruct (w_rival w 0) as [r|] eqn:Er.
  - rewrite Hb. destruct (has_running u d) eqn:Hrun.
    + exists t2. split; [done|]. left. split_and!; auto.
    + eexists. split; [done|]. right. exists r. simpl. rewrite Hn, He. unfold with_rival. done.
  - exists t2. split; [done|]. left. split_and!; auto.
Qed.

(** How the first attempt ends: the timer is in, or the transaction has failed and at most the
    timer of another request is. *)
Lemma attempt_run r t :
  start_attempt w 0 a row now (begin_tx d) = (r, t) →
  (r = Ok (tNext d, new) ∧ tx_aborted t = false ∧ tx_base t = d ∧
   entries (tx_tables t) = <[tNext d := new]> after_stop ∧ tNext (tx_tables t) = N.succ (tNext d) ∧
   (∀ k e, after_stop !! k = Some e → is_running u e = false) ∧
   (w_rival w 0 = None ∨ has_running u d = true)) ∨
  ((r = Throw PG_TX_ABORTED ∨ r = Throw PG_UNIQUE_VIOLATION) ∧ tx_aborted t = true ∧
   (tx_base t = d ∧ (w_rival w 0 = None ∨ has_running u d = true) ∨
    ∃ rv, w_rival w 0 = Some rv ∧ has_running u d = false ∧ tx_base t = with_rival rv)).
Proof.
  destruct attempt_insert as (t1 & -> & H). intros E. rewrite tbind_run in E. unfold insert_entry, stmt in E.
  destruct (tx_aborted t1) eqn:Ha.
  { injection E as <- <-. right. split; [by left|]. split; [done|].
    destruct H as [(? & _ & _ & ? & _)|(rv & ? & ? & ? & _)]; [by left | right; eauto]. }
  cbn [en_endedAt new timer_row en_userId] in E. rewrite bool_decide_eq_true_2 in E by done. simpl in E.
  destruct (has_running u (tx_tables t1)) eqn:Hr.
  { injection E as <- <-. right. split; [by right|]. split; [done|].
    destruct H as [(? & _ & _ & ? & _)|(rv & ? & ? & ? & _)]; [by left | right; eauto]. }
  assert (∀ k e, entries (tx_tables t1) !! k = Some e → is_running u e = false) as Hno.
  { intros k e Hk. destruct (is_running u e) eqn:E0; [|done]. apply Bool.not_true_iff_false in Hr. exfalso.
    apply Hr, existsb_exists. exists (k, e). split; [by apply list_elem_of_In, elem_of_map_to_list | done]. }
  destruct H as [(Hb & He & Hn & Hrv & _)|(rv & _ & _ & _ & He)].
  - injection E as <- <-. left. simpl. rewrite Hb, He, Hn in *. done.
  - exfalso. specialize (Hno (tNext d) (timer_row u rv)). rewrite He, lookup_insert_eq in Hno.
    specialize (Hno eq_refl). unfold is_running in Hno. simpl in Hno. by rewrite !bool_decide_eq_true_2 in Hno.
Qed.

(** Alone, and with every running timer of the user in sight, the first attempt succeeds. *)
Lemma attempt_alone r t :
  w_comment_fails w = false → w_rival w 0 = None →
  (∀ k e, entries d !! k = Some e → is_running u e = true → visible a e = true) →
  start_attempt w 0 a row now (begin_tx d) = (r, t) → r = Ok (tNext d, new).
Proof.
  intros Hw Hrv Hvis. destruct attempt_insert as (t1 & -> & [(Hb & He & Hn & _ & Ha)|(rv & Erv & _)]); [|congruence].
  rewrite tbind_run. unfold insert_entry, stmt. rewrite (Ha Hw).
  assert (has_running (en_userId new) (tx_tables t1) = false) as ->.
  { apply Bool.not_true_iff_false. intros ([k e] & Hin%list_elem_of_In%elem_of_map_to_list & Hr)%existsb_exists.
    simpl in Hr. rewrite He in Hin. unfold after_stop in Hin. rewrite lookup_fmap in Hin.
    apply fmap_Some in Hin as (e0 & Hk & ->). destruct (is_running u e0) eqn:E; simpl in Hr; [|by rewrite E in Hr].
    rewrite (Hvis k e0 Hk E) in Hr. unfold is_running in Hr. simpl in Hr.
    by rewrite andb_false_r in Hr. }
  rewrite andb_false_r. intros [= <- _]. by rewrite Hn.
Qed.
End start.

Lemma is_running_spec u e : is_running u e = true ↔ en_userId e = u ∧ en_endedAt e = None.
Proof. unfold is_running. rewrite andb_true_iff, !bool_decide_eq_true. done. Qed.

(** The timer of the user switched: the old one stopped, the new one in. *)
Lemma estep_switch a d row now d' :
  timers_ok d → entries d' = <[tNext d := timer_row (ta_userId a) row]> (after_stop a d now) →
  tNext d' = N.succ (tNext d) →
  (∀ k e, after_stop a d now !! k = Some e → is_running (ta_userId a) e = false) → estep a d d'.
Proof.
  intros Hd He Hn Hno. assert (∀ k, entries d !! k = None → after_stop a d now !! k = None) as Hnone.
  { intros k Hk. unfold after_stop. by rewrite lookup_fmap, Hk. }
  split; [| |rewrite Hn; lia].
  - intros k e Hk. rewrite He, lookup_insert_ne by (apply (to_fresh _ Hd) in Hk; lia).
    unfold after_stop. rewrite lookup_fmap, Hk. simpl. destruct (_ && _) eqn:E; [right|by left]. bool_prop.
    apply stopped_step; [by eapply to_rows | done | done].
  - intros k e'. rewrite He. intros [[<- <-]|[_ Hk]]%lookup_insert_Some Hk0.
    + split_and!; [done | lia | apply timer_row_ok | done | done|].
      intros _ j e Hj [[? _]|[_ Hj']]%lookup_insert_Some Eu E; [done|].
      assert (is_running (ta_userId a) e = true) as Ht by (by apply is_running_spec).
      by rewrite (Hno j e Hj') in Ht.
    + by rewrite (Hnone k Hk0) in Hk.
Qed.

Lemma rival_step a d r :
  timers_ok d → has_running (ta_userId a) d = false → estep a d (with_rival a d r).
Proof. intros Hd Hr. by apply estep_insert. Qed.

Lemma start_held w t desc a now d : timers_ok d → held a d (startTimer w t desc a now (begin_tx d)).2.
Proof.
  intros Hd. unfold startTimer. apply held_reads; [auto with reads | apply held_begin|]. intros [[[p o] b] rt] _.
  set (row := {| tr_partnerId := p |}). apply held_bind; [|intros [k e]; auto with reads].
  unfold t_catch. destruct (start_attempt w 0 a row now (begin_tx d)) as [r1 t1] eqn:E1.
  pose proof (attempt_run w a d row now r1 t1 E1) as H.
  destruct H as [(-> & Ha & Hb & He & Hn & Hno & _)|(Hr & Ha & Hb)].
  - cbn [snd]. split; [rewrite Hb; apply estep_refl|]. intros _. by eapply estep_switch.
  - assert (held a d t1) as Ht1.
    { split; [|by rewrite Ha]. destruct Hb as [[-> _]|(rv & _ & Hrun & ->)]; [apply estep_refl | by apply rival_step]. }
    destruct Hr as [->| ->]; [done|]. simpl. by rewrite (attempt_aborted w a row now 1 t1 Ha).
Qed.

Lemma parts_step a d g n : (tNext d <= n)%N → estep a d (set_parts g n d).
Proof. intros Hn. destruct (estep_refl a d) as [Hr Hw _]. split; simpl; [done | congruence | done]. Qed.

(** Every request makes a step of the specification, committed or not. *)
Lemma request_estep w op a now d r d' ev :
  timers_ok d → request (run_time_op w op a now) d = (r, d', ev) → estep a d d'.
Proof.
  intros Hd. apply committed. destruct op; simpl.
  - apply held_bind; [by apply create_held | auto with reads].
  - apply held_bind; [by apply start_held | auto with reads].
  - apply held_bind; [by apply stop_held | auto with reads].
  - apply held_bind; [by apply update_held | auto with reads].
  - by apply delete_held.
  - apply held_bind; [by apply approve_held | auto with reads].
  - apply held_bind; [|auto with reads]. unfold addTicketPart. apply held_reads; [auto with reads | apply held_begin|].
    intros link _. apply held_bind; [|auto with reads]. apply held_write, parts_step. lia.
  - apply held_bind; [|auto with reads]. unfold updateTicketPart. apply held_reads; [auto with reads | apply held_begin|].
    intros p _. apply held_bind; [|auto with reads]. apply held_write, parts_step. lia.
  - unfold deleteTicketPart. apply held_reads; [auto with reads | apply held_begin|]. intros p _. apply held_write, parts_step. lia.
Qed.
