(* ===== verification/TimeEntrySafety.v ===== *)
(** * Theorems on time tracking: one running timer per user, who may change entries, what a
    failed statement does to a request, timesheets, and what an edit does to billed work. *)

From S2P Require Import Prelude JsNum Money Calendar InvoiceDb Invoices InvoiceLogic.
From S2P Require Import InvoiceLifecycle InvoiceSafety TimeEntries TimeEntrySteps.

Open Scope Z_scope.

(** Histories of requests, whatever fails or happens meanwhile. *)
Definition tstep (d d' : TDB) : Prop :=
  ∃ w op a now r ev, request (run_time_op w op a now) d = (r, d', ev).

Lemma history_timers d d' : timers_ok d → rtc tstep d d' → timers_ok d'.
Proof.
  intros Hd H. revert Hd. induction H as [|x y z (w & op & a & now & r & ev & Hs) _ IH]; [done|].
  intros Hd. apply IH. eapply estep_timers; [done|]. by eapply request_estep.
Qed.

(** C18 (timeEntryService, every request): after any history of requests, with statements that
    fail and timers other requests commit in between, a user has at most one running timer; a
    running entry has no duration and is not approved, a stopped one has the whole minutes
    between its ends, and an approved one names its approver. *)
Theorem one_running_timer d d' :
  entries d = ∅ → rtc tstep d d' →
  (∀ k k' e e', entries d' !! k = Some e → entries d' !! k' = Some e' →
     en_endedAt e = None → en_endedAt e' = None → en_userId e = en_userId e' → k = k') ∧
  (∀ k e, entries d' !! k = Some e →
     match en_endedAt e with
     | None => en_durationMinutes e = None ∧ en_isApproved e = false
     | Some t => en_durationMinutes e = Some ((t - en_startedAt e) / 60000)
     end ∧ (en_isApproved e = true ↔ en_approvedBy e ≠ None)).
Proof.
  intros E H. assert (timers_ok d) as Hd by (split; intros k; rewrite E; by setoid_rewrite lookup_empty).
  destruct (history_timers d d' Hd H) as [_ Ho H1]. split; [exact H1|].
  intros k e Hk. destruct (Ho k e Hk) as [Hr Hs Ha]. split; [|done].
  destruct (en_endedAt e) as [t|]; [by apply Hs | by apply Hr].
Qed.

(** (assertCanMutate in every request): whatever happened before and whatever fails, an
    entry that a request changes or deletes is one its actor can see and owns or manages, and
    managers alone touch approved entries; an entry that is approved afterwards was only
    approved by the request, its times, rate, ticket and status are as before, so every
    other change clears the approval. *)
Theorem entries_changed_by_right d0 d w op a now r d' ev k e :
  entries d0 = ∅ → rtc tstep d0 d → request (run_time_op w op a now) d = (r, d', ev) →
  entries d !! k = Some e → entries d' !! k ≠ Some e →
  visible a e = true ∧ (en_userId e = ta_userId a ∨ ta_manageAll a = true) ∧
  (en_isApproved e = true → ta_manageAll a = true) ∧
  (∀ e', entries d' !! k = Some e' →
     en_userId e' = en_userId e ∧ (en_isApproved e' = true → same_work e e' ∧ ta_manageAll a = true)).
Proof.
  intros E H Hop Hk Hne. assert (timers_ok d0) as Hd0 by (split; intros j; rewrite E; by setoid_rewrite lookup_empty).
  pose proof (history_timers d0 d Hd0 H) as Hd. destruct (request_estep w op a now d r d' ev Hd Hop) as [Hr _ _].
  specialize (Hr k e Hk). destruct (entries d' !! k) as [e1|].
  - destruct Hr as [->|[(Hv & Hu & Hap) [Ho _] _ _ Hwk]]; [done|]. split_and!; [done..|]. by intros e' [= <-].
  - destruct Hr as (Hv & Hu & Hap). split_and!; [done..|]. by intros e' [=].
Qed.

(** ** Failed statements *)

(** A start whose ticket is in order is its first attempt and what follows from it. *)
Lemma start_run w t desc a now d link :
  entry_link t a (begin_tx d) = (Ok link, begin_tx d) →
  ∃ row, ∀ r1 t1, start_attempt w 0 a row now (begin_tx d) = (r1, t1) →
    match r1 with
    | Ok x => ∃ ev, startTimer w t desc a now (begin_tx d) =
        (Ok x, {| tx_base := tx_base t1; tx_tables := tx_tables t1; tx_aborted := tx_aborted t1; tx_events := ev |})
    | Throw _ => tx_aborted t1 = true ∧ startTimer w t desc a now (begin_tx d) = (Throw PG_TX_ABORTED, t1)
    end.
Proof.
  intros E. unfold startTimer. rewrite tbind_run, E. destruct link as [[[p o] b] rt].
  eexists. intros r1 t1 E1. rewrite tbind_run. unfold t_catch. rewrite E1.
  pose proof (attempt_run w a d _ now r1 t1 E1) as [(-> & _)|(Hr & Ha & _)]; [by eexists|].
  destruct Hr as [->| ->]; simpl; [done|]. by rewrite (attempt_aborted w a _ now 1 t1 Ha).
Qed.

(** (startTimer): alone, and with the user's running timers visible, a start stops the
    running timer and starts the new one.  When another request starts a timer first, the
    retry cannot succeed: the insert that violates the index has failed the transaction, so
    the second attempt is refused at its first statement, and the request ends with that
    error, never with ENTRY_RUNNING, leaving the timer of the other request only. *)
Theorem startTimer_outcomes w t desc a now d r d' ev link :
  entry_link t a (begin_tx d) = (Ok link, begin_tx d) →
  request (startTimer w t desc a now) d = (r, d', ev) →
  r ≠ Throw ENTRY_RUNNING ∧
  (w_comment_fails w = false → w_rival w 0 = None →
   (∀ k e, entries d !! k = Some e → is_running (ta_userId a) e = true → visible a e = true) →
   ∃ row, r = Ok (tNext d, timer_row (ta_userId a) row) ∧
          entries d' = <[tNext d := timer_row (ta_userId a) row]> (after_stop a d now)) ∧
  (∀ rv, w_rival w 0 = Some rv → has_running (ta_userId a) d = false →
     r = Throw PG_TX_ABORTED ∧ d' = with_rival a d rv).
Proof.
  intros E. unfold request. fold (begin_tx d). destruct (start_run w t desc a now d link E) as [row Hrow].
  destruct (start_attempt w 0 a row now (begin_tx d)) as [r1 t1] eqn:E1. specialize (Hrow r1 t1 eq_refl).
  pose proof (attempt_run w a d row now r1 t1 E1) as [(-> & Ha & _ & He & _ & _ & Hno)|(Hr & Ha & Hb)].
  - destruct Hrow as [ev0 ->]. cbn [tx_aborted tx_tables tx_base]. rewrite Ha. intros [= <- <- _].
    split_and!; [done | by exists row|]. intros rv Erv Hrun. destruct Hno; congruence.
  - assert (startTimer w t desc a now (begin_tx d) = (Throw PG_TX_ABORTED, t1)) as ->
      by (by destruct Hr as [->| ->]; apply Hrow).
    rewrite Ha. intros [= <- <- _]. split_and!; [done| |].
    + intros Hw Hrv Hvis. pose proof (attempt_alone w a d row now r1 t1 Hw Hrv Hvis E1). naive_solver.
    + intros rv Erv Hrun. split; [done|]. destruct Hb as [[_ []]|(rv' & Erv' & _ & ->)]; congruence.
Qed.

(** (createTimeEntry, insertTimeEntryFeedComment): an entry logged on a ticket is answered
    with its id and announced; if the insert of the feed comment fails, the error is caught
    but the transaction has failed, and neither the entry nor anything else is kept. *)
Theorem failed_comment_loses_entry w input a d t link :
  ci_ticketId input = Some t → entry_link (Some t) a (begin_tx d) = (Ok link, begin_tx d) →
  ci_startedAt input < ci_endedAt input →
  let e := new_entry input a link in
  let saved := set_entries <[tNext d := e]> (N.succ (tNext d)) d in
  request (createTimeEntry w input a) d =
    (Ok (tNext d, e),
     if w_comment_fails w then d
     else add_comment {| fc_ticketId := t; fc_userId := ta_userId a; fc_authorName := ta_name a;
                         fc_content := logged a e |} saved,
     [time_created (tNext d) (en_partnerId e) (Some t) (ta_userId a) (en_durationMinutes e) (en_isBillable e)]).
Proof.
  intros Ht E Hr e saved. assert (en_ticketId e = Some t ∧ en_endedAt e ≠ None) as [Ht' He].
  { unfold e, new_entry. destruct link as [[[p o] b] rt]. simpl. by rewrite Ht. }
  unfold request, createTimeEntry. fold (begin_tx d). rewrite Ht, tbind_run, E, tbind_run.
  destruct (Z.ltb_spec (ci_startedAt input) (ci_endedAt input)); [|lia]. cbn [t_require mret TM_ret]. cbv zeta. fold e.
  rewrite tbind_run. unfold insert_entry, stmt. cbn [begin_tx tx_aborted tx_tables].
  rewrite bool_decide_eq_false_2 by done. cbn [andb]. rewrite tbind_run, Ht'.
  unfold insertTimeEntryFeedComment, t_catch, stmt. cbn [tx_aborted tx_tables tx_base tx_events].
  by destruct (w_comment_fails w).
Qed.

(** ** Timesheets *)

Definition dates (ds : list TimesheetDay) : list string := map ts_date ds.
Definition minutes_sum (f : id * Entry → Z) (rows : list (id * Entry)) : Z := foldr (λ r s, f r + s) 0 rows.
Definition minutes (r : id * Entry) : Z := default 0 (en_durationMinutes r.2).
Definition billable_minutes (r : id * Entry) : Z := if en_isBillable r.2 then minutes r else 0.

#[export] Instance minutes_sum_perm f : Proper (Permutation ==> eq) (minutes_sum f).
Proof. intros l1 l2 H. unfold minutes_sum. induction H; simpl; lia. Qed.

Lemma fold_sum (g : TimesheetDay → Z) ds s : fold_left (λ s d, s + g d) ds s = s + foldr (λ d s, g d + s) 0 ds.
Proof. revert s. induction ds as [|x ds IH]; intros s; simpl; [lia|]. rewrite IH. lia. Qed.

Lemma set_day_dates ds key :
  NoDup (dates ds) →
  NoDup (dates (set_day ds key)) ∧ (∀ x, x ∈ dates (set_day ds key) ↔ x = key ∨ x ∈ dates ds).
Proof.
  intros Hn. unfold set_day. destruct (existsb _ _) eqn:E.
  - assert (dates (map (λ d, if bool_decide (ts_date d = key)
      then {| ts_date := key; ts_totalMinutes := 0; ts_billableMinutes := 0; ts_entries := [] |} else d) ds) = dates ds) as ->.
    { unfold dates. rewrite map_map. apply map_ext. intros d. by case_bool_decide as H; simpl. }
    split; [done|]. intros x. split; [by right|]. intros [->|?]; [|done].
    apply existsb_exists in E as (d & Hd & Hk). bool_prop. subst. by apply list_elem_of_In, in_map.
  - unfold dates. rewrite map_app. simpl. split.
    + apply NoDup_app. split_and!; [done| |apply NoDup_singleton].
      intros x Hx ->%list_elem_of_singleton. apply list_elem_of_In, in_map_iff in Hx as (d & <- & Hd).
      apply Bool.not_true_iff_false in E. apply E, existsb_exists. exists d. by rewrite bool_decide_eq_true_2.
    + intros x. rewrite elem_of_app, list_elem_of_singleton. tauto.
Qed.

Lemma week_dates ws :
  NoDup (dates (week_days ws)) ∧
  (∀ x, x ∈ dates (week_days ws) ↔ ∃ i, 0 <= i < 7 ∧ x = utc_date (ws + i * DAY)).
Proof.
  assert (∀ l ds, NoDup (dates ds) →
    let r := fold_left (λ ds i, set_day ds (utc_date (ws + i * DAY))) l ds in
    NoDup (dates r) ∧ (∀ x, x ∈ dates r ↔ x ∈ dates ds ∨ ∃ i, i ∈ l ∧ x = utc_date (ws + i * DAY))) as H.
  { induction l as [|i l IH]; intros ds Hn; simpl; [set_solver|].
    destruct (set_day_dates ds (utc_date (ws + i * DAY)) Hn) as [Hn1 H1]. destruct (IH _ Hn1) as [Hn2 H2].
    split; [done|]. intros x. rewrite H2, H1. set_solver. }
  destruct (H [0; 1; 2; 3; 4; 5; 6] []) as [Hn Hx]; [by apply NoDup_nil|]. split; [done|]. intros x.
  unfold week_days. rewrite Hx. split.
  - intros [?|(i & Hi & ->)]; [by apply elem_of_nil in H0|]. exists i. split; [|done].
    repeat (apply elem_of_cons in Hi as [->|Hi]; [lia|]). by apply elem_of_nil in Hi.
  - intros (i & Hi & ->). right. exists i. split; [|done].
    rewrite !elem_of_cons. lia.
Qed.

Lemma add_entry_dates ds r : dates (add_entry ds r) = dates ds.
Proof. unfold dates, add_entry. rewrite map_map. apply map_ext. intros d. by case_bool_decide. Qed.

(** Adding an entry adds its minutes, if its day is on the sheet. *)
Lemma add_entry_sum (g : TimesheetDay → Z) (f : id * Entry → Z) r ds :
  (∀ d, ts_date d = utc_date (en_startedAt r.2) →
     g {| ts_date := ts_date d; ts_totalMinutes := ts_totalMinutes d + minutes r;
          ts_billableMinutes := ts_billableMinutes d + billable_minutes r;
          ts_entries := ts_entries d ++ [r] |} = g d + f r) →
  NoDup (dates ds) →
  foldr (λ d s, g d + s) 0 (add_entry ds r) =
  foldr (λ d s, g d + s) 0 ds + (if decide (utc_date (en_startedAt r.2) ∈ dates ds) then f r else 0).
Proof.
  intros Hg. induction ds as [|x ds IH]; intros Hn.
  { rewrite decide_False by (by apply not_elem_of_nil). simpl. lia. }
  apply NoDup_cons in Hn as [Hx Hn]. specialize (IH Hn). unfold add_entry in *. cbn [map foldr].
  rewrite IH. fold (minutes r). fold (billable_minutes r). case_bool_decide as Hd.
  - rewrite (Hg x Hd). rewrite (decide_False (P := utc_date (en_startedAt r.2) ∈ dates ds)) by (rewrite <- Hd; exact Hx).
    rewrite decide_True by (rewrite <- Hd; by left). lia.
  - destruct (decide (_ ∈ dates ds)) as [Hin|Hin];
      [rewrite decide_True by (by right) | rewrite decide_False by (by intros [?|?]%elem_of_cons)]; lia.
Qed.

(** The entries that are shown: those that started on one of the seven dates. *)
Definition shown (ws : Z) (r : id * Entry) : Prop :=
  ∃ i, 0 <= i < 7 ∧ utc_date (en_startedAt r.2) = utc_date (ws + i * DAY).
#[export] Instance shown_dec ws r : Decision (shown ws r).
Proof.
  refine (cast_if (decide (utc_date (en_startedAt r.2) ∈ dates (week_days ws))));
    abstract (unfold shown; rewrite (proj2 (week_dates ws)) in *; done).
Defined.

Lemma sheet_sum (g : TimesheetDay → Z) (f : id * Entry → Z) ws rows ds :
  (∀ r d, ts_date d = utc_date (en_startedAt r.2) →
     g {| ts_date := ts_date d; ts_totalMinutes := ts_totalMinutes d + minutes r;
          ts_billableMinutes := ts_billableMinutes d + billable_minutes r;
          ts_entries := ts_entries d ++ [r] |} = g d + f r) →
  dates ds = dates (week_days ws) →
  foldr (λ d s, g d + s) 0 (fold_left add_entry rows ds) =
  foldr (λ d s, g d + s) 0 ds + minutes_sum f (filter (shown ws) rows).
Proof.
  intros Hg. revert ds. destruct (week_dates ws) as [Hn Hx].
  induction rows as [|r rows IH]; intros ds Hd; [simpl; lia|]. simpl.
  rewrite IH by (by rewrite add_entry_dates). rewrite (add_entry_sum g f r ds (Hg r)) by (by rewrite Hd).
  rewrite filter_cons, Hd. destruct (decide (utc_date (en_startedAt r.2) ∈ _)) as [H|H].
  - rewrite decide_True by (by apply Hx). simpl. lia.
  - rewrite decide_False by (intros Hs; by apply H, Hx). lia.
Qed.

Lemma week_days_zero ws : Forall (λ d, ts_totalMinutes d = 0 ∧ ts_billableMinutes d = 0) (week_days ws).
Proof.
  unfold week_days. generalize [0; 1; 2; 3; 4; 5; 6]. intros l.
  assert (∀ ds, Forall (λ d, ts_totalMinutes d = 0 ∧ ts_billableMinutes d = 0) ds →
    Forall (λ d, ts_totalMinutes d = 0 ∧ ts_billableMinutes d = 0)
      (fold_left (λ ds i, set_day ds (utc_date (ws + i * DAY))) l ds)) as H; [|by apply H].
  induction l as [|i l IH]; intros ds Hds; simpl; [done|]. apply IH. unfold set_day.
  destruct (existsb _ _); [|apply Forall_app; split; [done | by repeat constructor]].
  apply Forall_map. eapply Forall_impl; [exact Hds|]. intros d Hd. by case_bool_decide.
Qed.

Lemma sum_zero (g : TimesheetDay → Z) ds : Forall (λ d, g d = 0) ds → foldr (λ d s, g d + s) 0 ds = 0.
Proof. induction 1; simpl; lia. Qed.

(** From midnight (UTC) on, the week has every entry on one of its days. *)
Lemma week_shown ws u orgs r : ws mod DAY = 0 → in_week u ws orgs r.2 = true → shown ws r.
Proof.
  intros Hm Hw. unfold in_week in Hw. bool_prop. exists ((en_startedAt r.2 - ws) / DAY). unfold DAY in *.
  assert (0 <= (en_startedAt r.2 - ws) / (24 * 60 * 60000) < 7) by (split; [apply Z.div_pos; lia | apply Z.div_lt_upper_bound; lia]).
  split; [done|]. unfold utc_date. f_equal. apply Z.mod_divide in Hm as [q ->]; [|done].
  replace (24 * 60 * 60000) with 86400000 in * by done. rewrite <- Z.mul_add_distr_r, Z.div_mul by done.
  replace (en_startedAt r.2 - q * 86400000) with (en_startedAt r.2 + - q * 86400000) by lia.
  rewrite Z.div_add by done. lia.
Qed.

(** (getTimesheet): the totals of a week are the minutes of the entries of the user that are
    in the week, visible and in the caller's organisations, and that started on one of the
    seven UTC dates of the sheet.  If the week starts at midnight UTC these are all of them;
    otherwise entries of the last, eighth date are in no day and in no total. *)
Theorem timesheet_totals u ws orgs a d :
  let rows := matching a (in_week u ws orgs) d in
  ∃ sheet, request (getTimesheet u ws orgs a) d = (Ok sheet, d, []) ∧
    sh_totalMinutes sheet = minutes_sum minutes (filter (shown ws) rows) ∧
    sh_billableMinutes sheet = minutes_sum billable_minutes (filter (shown ws) rows) ∧
    (ws mod DAY = 0 → filter (shown ws) rows = rows).
Proof.
  intros rows. eexists. split; [done|]. unfold timesheet_of. cbn [sh_totalMinutes sh_billableMinutes].
  rewrite !fold_sum. pose proof (week_days_zero ws) as Hz. split_and!.
  - rewrite (sheet_sum ts_totalMinutes minutes ws), order_by_perm, sum_zero; try done.
    eapply Forall_impl; [exact Hz|]. by intros ? [].
  - rewrite (sheet_sum ts_billableMinutes billable_minutes ws), order_by_perm, sum_zero; try done.
    eapply Forall_impl; [exact Hz|]. by intros ? [].
  - intros Hm. unfold rows, matching. apply list_filter_filter_r. intros r [Hr _]. by eapply week_shown.
Qed.

(** ** Billed work *)

(** The columns of an entry the invoice service reads. *)
Definition entry_view (e : Entry) : option TimeEntry :=
  o ← en_orgId e;
  Some {| te_orgId := o; te_ticketId := en_ticketId e; te_description := en_description e;
          te_durationMinutes := en_durationMinutes e; te_hourlyRate := en_hourlyRate e;
          te_isApproved := en_isApproved e; te_isBillable := en_isBillable e;
          te_billingStatus := en_billingStatus e; te_endedAt := en_endedAt e |}.
Definition with_entries (d : TDB) (db : DB) : DB :=
  set_sources (λ _, omap entry_view (entries d)) (λ ps, ps) db.

(** The patch [{ billingStatus: 'not_billed' }]. *)
Definition reset_billing : UpdateTimeEntryInput :=
  {| ui_ticketId := None; ui_startedAt := None; ui_endedAt := None; ui_description := None;
     ui_isBillable := None; ui_hourlyRate := None; ui_billingStatus := Some not_billed |}.

(** The run of an edit by an actor who may make it. *)
Lemma update_run k input a d e :
  entries d !! k = Some e → may_change a e → entryOrgAllowed e (ta_accessibleOrgIds a) = true →
  ui_ticketId input = None →
  match or_else (ui_endedAt input) (en_endedAt e) with
  | Some t => default (en_startedAt e) (ui_startedAt input) < t | None => True end →
  ∃ ev, request (updateTimeEntry k input a) d =
    (Ok (patched_entry input None e), set_entries <[k := patched_entry input None e]> (tNext d) d, ev).
Proof.
  intros Hk (Hv & Hu & Hap) Ho Ht Hr. unfold request, updateTimeEntry. fold (begin_tx d). rewrite tbind_run.
  assert (getEntryOr404 k a (begin_tx d) = (Ok e, begin_tx d)) as ->.
  { unfold getEntryOr404, query, stmt, begin_tx. rewrite tbind_run. simpl. rewrite Hk, tbind_run. simpl.
    rewrite Hv. simpl. by rewrite tbind_run, Ho. }
  rewrite tbind_run. assert (assertCanMutate e a (begin_tx d) = (Ok tt, begin_tx d)) as ->.
  { unfold assertCanMutate. rewrite tbind_run.
    assert (bool_decide (en_userId e = ta_userId a) || ta_manageAll a = true) as ->
      by (destruct Hu as [Hu|Hu]; [by rewrite bool_decide_eq_true_2 | by rewrite Hu, orb_true_r]).
    simpl. destruct (en_isApproved e); [by rewrite Hap | done]. }
  rewrite tbind_run.
  assert ((match or_else (ui_endedAt input) (en_endedAt e) with
           | Some ended => default (en_startedAt e) (ui_startedAt input) <? ended | None => true end) = true) as ->.
  { destruct (or_else _ _) as [t|]; [|done]. by apply Z.ltb_lt. }
  cbn [t_require mret TM_ret]. rewrite tbind_run. unfold relink. rewrite Ht. cbn [mret TM_ret]. cbv zeta.
  by eexists.
Qed.

(** (updateTimeEntry against issueInvoice): the double-billing guard of invoicing is the
    billing status of the entry, and an edit by its owner may set that status.  Once reset,
    an entry that a live invoice bills counts as not billed, and the guard of
    [issueInvoice] lets the next invoice bill it again. *)
Theorem billed_entry_can_be_reset db d a k e i :
  let db1 := with_entries d db in
  reachable db1 → bills db1 i (STime k) →
  entries d !! k = Some e → may_change a e → entryOrgAllowed e (ta_accessibleOrgIds a) = true →
  match en_endedAt e with Some t => en_startedAt e < t | None => True end →
  ∃ e' d' ev, request (updateTimeEntry k reset_billing a) d = (Ok e', d', ev) ∧
    let db2 := with_entries d' db in
    source_billed db1 (STime k) ∧ bills db2 i (STime k) ∧ ¬ source_billed db2 (STime k) ∧
    time_billed db2 k = false.
Proof.
  intros db1 Hr%reachable_ok Hb Hk Hm Ho Ht.
  destruct (update_run k reset_billing a d e Hk Hm Ho eq_refl Ht) as [ev ->].
  eexists _, _, ev. split; [done|]. cbv zeta. set (e' := patched_entry reset_billing None e).
  assert (∀ te, omap entry_view (<[k := e']> (entries d)) !! k = Some te → te_billingStatus te = not_billed) as Hv.
  { intros te. rewrite lookup_omap, lookup_insert_eq. simpl. intros (o & _ & Hte)%bind_Some. by injection Hte as <-. }
  split_and!.
  - by apply (bo_billed _ Hr i).
  - done.
  - intros (te & Hte & Hbt). simpl in Hte. apply Hv in Hte. congruence.
  - unfold time_billed. simpl. destruct (omap _ _ !! k) as [te|] eqn:E; [|done]. by rewrite (Hv te eq_refl).
Qed.

(** ** Concrete runs *)

Definition tech : TimeEntryActor :=
  {| ta_userId := 9; ta_name := Some "Ann"%string; ta_partnerId := Some 2%N; ta_manageAll := false;
     ta_accessibleOrgIds := None |}.
Definition manager : TimeEntryActor :=
  {| ta_userId := 8; ta_name := None; ta_partnerId := Some 2%N; ta_manageAll := true;
     ta_accessibleOrgIds := None |}.

(** Ticket 5 of organisation 1 of partner 2, no entries. *)
Definition time_db : TDB :=
  {| entries := ∅; parts := ∅;
     ticketRows := {[ 5%N := {| tt_partnerId := Some 2%N; tt_orgId := 1; tt_categoryId := None;
                                tt_internalNumber := None |} ]};
     orgPartners := {[ 1%N := 2%N ]}; orgNames := ∅; userNames := ∅; categories := ∅;
     orgSettings := {[ 1%N := {| od_defaultBillable := Some true; od_defaultHourlyRate := Some "100.00"%string |} ]};
     comments := []; tNext := 1 |}.

Definition after_op (w : World) (op : TimeOp) (a : TimeEntryActor) (now : Z) (d : TDB) : TDB :=
  (request (run_time_op w op a now) d).1.2.
Lemma after_op_step w op a now d : tstep d (after_op w op a now d).
Proof.
  exists w, op, a, now. unfold after_op. destruct (request _ d) as [[r d'] ev]. by exists r, ev.
Qed.

(** A timer on the ticket from minute 0, another from minute 45. *)
Definition first_timer : TDB := after_op quiet (OpStart (Some 5%N) None) tech 0 time_db.
Definition second_timer : TDB := after_op quiet (OpStart None None) tech 2700000 first_timer.

Lemma timers_history : rtc tstep time_db second_timer.
Proof. eapply rtc_l; [apply after_op_step|]. apply rtc_once, after_op_step. Qed.

(** The first timer was stopped after 45 minutes, the second runs. *)
Lemma one_running_timer_witness :
  (λ e, (en_endedAt e, en_durationMinutes e)) <$> entries second_timer !! 1%N = Some (Some 2700000, Some 45) ∧
  (λ e, (en_endedAt e, en_durationMinutes e)) <$> entries second_timer !! 2%N = Some (None, None) ∧
  ∀ k k' e e', entries second_timer !! k = Some e → entries second_timer !! k' = Some e' →
    en_endedAt e = None → en_endedAt e' = None → en_userId e = en_userId e' → k = k'.
Proof.
  split_and!; [vm_compute; reflexivity | vm_compute; reflexivity|].
  exact (proj1 (one_running_timer time_db second_timer eq_refl timers_history)).
Defined.

(** The manager approves the stopped entry of the technician. *)
Lemma entries_changed_by_right_witness :
  let d' := after_op quiet (OpApprove [1%N] true) manager 2800000 second_timer in
  ∃ e, entries second_timer !! 1%N = Some e ∧ entries d' !! 1%N ≠ Some e ∧
       (en_userId e = ta_userId manager ∨ ta_manageAll manager = true).
Proof.
  intros d'. destruct (entries second_timer !! 1%N) as [e|] eqn:He; [|vm_compute in He; discriminate].
  assert (en_isApproved <$> entries second_timer !! 1%N = Some false) as H0 by (vm_compute; reflexivity).
  assert (en_isApproved <$> entries d' !! 1%N = Some true) as H1 by (vm_compute; reflexivity).
  rewrite He in H0. exists e.
  assert (entries d' !! 1%N ≠ Some e) as Hne by (intros He'; rewrite He' in H1; simpl in H0, H1; congruence).
  split; [reflexivity | split; [exact Hne|]].
  destruct (request (run_time_op quiet (OpApprove [1%N] true) manager 2800000) second_timer)
    as [[r d2] ev] eqn:Hreq.
  assert (d' = d2) as E2 by (unfold d', after_op; rewrite Hreq; reflexivity). rewrite E2 in Hne.
  exact (proj1 (proj2 (entries_changed_by_right time_db second_timer quiet _ manager 2800000 r d2 ev 1%N e eq_refl
           timers_history Hreq He Hne))).
Defined.

(** Ann starts a timer while another window has just started one. *)
Definition race : World :=
  {| w_comment_fails := false;
     w_rival _ := Some {| tr_partnerId := 2; tr_orgId := None; tr_ticketId := None; tr_startedAt := 0;
                          tr_description := None; tr_isBillable := false; tr_hourlyRate := None |} |}.
Lemma startTimer_outcomes_witness :
  (request (startTimer race None None tech 1) time_db).1.1 = Throw PG_TX_ABORTED.
Proof.
  destruct (request (startTimer race None None tech 1) time_db) as [[r d'] ev] eqn:E.
  destruct (startTimer_outcomes race None None tech 1 time_db r d' ev (2%N, None, false, None)
              ltac:(vm_compute; reflexivity) E) as (_ & _ & H).
  exact (proj1 (H _ eq_refl ltac:(vm_compute; reflexivity))).
Defined.

(** An hour logged on the ticket while comments cannot be written. *)
Lemma failed_comment_loses_entry_witness :
  let w := {| w_comment_fails := true; w_rival _ := None |} in
  let input := {| ci_ticketId := Some 5%N; ci_startedAt := 0; ci_endedAt := 3600000; ci_description := None;
                  ci_isBillable := None; ci_hourlyRate := None; ci_billingStatus := None |} in
  ∃ e ev, request (createTimeEntry w input tech) time_db = (Ok (1%N, e), time_db, ev) ∧
          en_durationMinutes e = Some 60.
Proof.
  intros w input. eexists _, _. split.
  - exact (failed_comment_loses_entry w input tech time_db 5 (2%N, Some 1%N, true, Some "100.00"%string)
             eq_refl ltac:(vm_compute; reflexivity) ltac:(done)).
  - reflexivity.
Defined.

(** A sheet from midnight counts both timers; one that starts at noon passes over an entry of
    the eighth date although it is within the seven days. *)
Definition noon_entry : TDB := after_op quiet (OpCreate
  {| ci_ticketId := None; ci_startedAt := 7 * DAY + 3600000; ci_endedAt := 7 * DAY + 7200000;
     ci_description := None; ci_isBillable := None; ci_hourlyRate := None; ci_billingStatus := None |}) tech 0 time_db.
Lemma timesheet_totals_witness :
  (∃ sheet, request (getTimesheet 9 0 None tech) second_timer = (Ok sheet, second_timer, []) ∧
     sh_totalMinutes sheet = 45) ∧
  (∃ sheet, request (getTimesheet 9 43200000 None tech) noon_entry = (Ok sheet, noon_entry, []) ∧
     length (matching tech (in_week 9 43200000 None) noon_entry) = 1%nat ∧ sh_totalMinutes sheet = 0).
Proof.
  split.
  - destruct (timesheet_totals 9 0 None tech second_timer) as (sheet & E & Ht & _ & Hall).
    exists sheet. rewrite (Hall eq_refl) in Ht. split; [exact E|]. rewrite Ht. vm_compute. reflexivity.
  - destruct (timesheet_totals 9 43200000 None tech noon_entry) as (sheet & E & _).
    exists sheet. split_and!; [exact E | vm_compute; reflexivity|].
    assert (match (request (getTimesheet 9 43200000 None tech) noon_entry).1.1 with
            | Ok sh => sh_totalMinutes sh | Throw _ => 1 end = 0) as H by (vm_compute; reflexivity).
    rewrite E in H. exact H.
Defined.

(** The entry behind the issued invoice of [InvoiceSafety], reset by the manager. *)
Definition billed_time : TDB :=
  set_entries (λ _, {[ 7%N :=
    {| en_partnerId := 2; en_orgId := Some 1%N; en_ticketId := Some 5%N; en_userId := 9;
       en_startedAt := 1699984600000; en_endedAt := Some 1699990000000; en_durationMinutes := Some 90;
       en_description := Some "Onsite visit"%string; en_isBillable := true;
       en_hourlyRate := Some "100.00"%string; en_billingStatus := billed; en_isApproved := true;
       en_approvedBy := Some 8%N; en_approvedAt := Some 1699999000000 |} ]}) 8 time_db.

Lemma billed_time_view : with_entries billed_time demo_issued = demo_issued.
Proof. vm_compute. reflexivity. Qed.

Lemma billed_entry_can_be_reset_witness :
  ∃ e' d' ev, request (updateTimeEntry 7 reset_billing manager) billed_time = (Ok e', d', ev) ∧
    source_billed (with_entries billed_time demo_issued) (STime 7) ∧
    bills (with_entries d' demo_issued) 100 (STime 7) ∧
    ¬ source_billed (with_entries d' demo_issued) (STime 7) ∧
    time_billed (with_entries d' demo_issued) 7 = false.
Proof.
  apply (billed_entry_can_be_reset demo_issued billed_time manager 7 (default (timer_row 0
    {| tr_partnerId := 0; tr_orgId := None; tr_ticketId := None; tr_startedAt := 0; tr_description := None;
       tr_isBillable := false; tr_hourlyRate := None |}) (entries billed_time !! 7%N)) 100).
  - rewrite billed_time_view. apply demo_issued_reachable.
  - rewrite billed_time_view. apply demo_bills.
  - vm_compute. reflexivity.
  - split_and!; [reflexivity | by right | done].
  - reflexivity.
  - vm_compute. reflexivity.
Defined.
