(* ===== verification/CommandRules.v ===== *)
(** * Commands to devices: types, timeouts and results
    ([services/commandQueue.ts], [commandTimeouts.ts], [agentCommandResultValidation.ts], the result
    helpers of [routes/agents/commands.ts] and [routes/agentWs.ts])

    The pure part: the types of commands and the sets the code sorts them into, how long the
    server waits for each, and what is stored of a result that a device reports.  Results of
    backup, restore and vault commands are checked first. *)

From S2P Require Import Prelude JsNum Json.

Open Scope Z_scope.

(** ** Types of commands *)

Definition CommandTypes : list (string * string) := [
    ("LIST_PROCESSES", "list_processes"); ("GET_PROCESS", "get_process");
    ("KILL_PROCESS", "kill_process"); ("LIST_SERVICES", "list_services");
    ("GET_SERVICE", "get_service"); ("START_SERVICE", "start_service");
    ("STOP_SERVICE", "stop_service"); ("RESTART_SERVICE", "restart_service");
    ("EVENT_LOGS_LIST", "event_logs_list"); ("EVENT_LOGS_QUERY", "event_logs_query");
    ("EVENT_LOG_GET", "event_log_get"); ("TASKS_LIST", "tasks_list"); ("TASK_GET", "task_get");
    ("TASK_RUN", "task_run"); ("TASK_ENABLE", "task_enable"); ("TASK_DISABLE", "task_disable");
    ("TASK_HISTORY", "task_history"); ("REGISTRY_KEYS", "registry_keys");
    ("REGISTRY_VALUES", "registry_values"); ("REGISTRY_GET", "registry_get");
    ("REGISTRY_SET", "registry_set"); ("REGISTRY_DELETE", "registry_delete");
    ("REGISTRY_KEY_CREATE", "registry_key_create");
    ("REGISTRY_KEY_DELETE", "registry_key_delete"); ("FILE_LIST", "file_list");
    ("FILE_READ", "file_read"); ("FILE_WRITE", "file_write"); ("FILE_DELETE", "file_delete");
    ("FILE_MKDIR", "file_mkdir"); ("FILE_RENAME", "file_rename");
    ("FILESYSTEM_ANALYSIS", "filesystem_analysis"); ("FILE_COPY", "file_copy");
    ("FILE_TRASH_LIST", "file_trash_list"); ("FILE_TRASH_RESTORE", "file_trash_restore");
    ("FILE_TRASH_PURGE", "file_trash_purge"); ("FILE_LIST_DRIVES", "file_list_drives");
    ("TERMINAL_START", "terminal_start"); ("TERMINAL_DATA", "terminal_data");
    ("TERMINAL_RESIZE", "terminal_resize"); ("TERMINAL_STOP", "terminal_stop");
    ("SCRIPT", "script"); ("SOFTWARE_UNINSTALL", "software_uninstall");
    ("SOFTWARE_UPDATE", "software_update"); ("CIS_BENCHMARK", "cis_benchmark");
    ("APPLY_CIS_REMEDIATION", "apply_cis_remediation"); ("PATCH_SCAN", "patch_scan");
    ("INSTALL_PATCHES", "install_patches"); ("ROLLBACK_PATCHES", "rollback_patches");
    ("COLLECT_RELIABILITY_METRICS", "collect_reliability_metrics");
    ("SECURITY_COLLECT_STATUS", "security_collect_status"); ("SECURITY_SCAN", "security_scan");
    ("SECURITY_THREAT_QUARANTINE", "security_threat_quarantine");
    ("SECURITY_THREAT_REMOVE", "security_threat_remove");
    ("SECURITY_THREAT_RESTORE", "security_threat_restore");
    ("SENSITIVE_DATA_SCAN", "sensitive_data_scan"); ("ENCRYPT_FILE", "encrypt_file");
    ("SECURE_DELETE_FILE", "secure_delete_file"); ("QUARANTINE_FILE", "quarantine_file");
    ("PERIPHERAL_POLICY_SYNC", "peripheral_policy_sync"); ("SET_LOG_LEVEL", "set_log_level");
    ("TAKE_SCREENSHOT", "take_screenshot"); ("COMPUTER_ACTION", "computer_action");
    ("COLLECT_BOOT_PERFORMANCE", "collect_boot_performance");
    ("MANAGE_STARTUP_ITEM", "manage_startup_item");
    ("COLLECT_AUDIT_POLICY", "collect_audit_policy");
    ("APPLY_AUDIT_POLICY_BASELINE", "apply_audit_policy_baseline");
    ("REBOOT_SAFE_MODE", "reboot_safe_mode"); ("WAKE_ON_LAN", "wake_on_lan");
    ("REFRESH_INVENTORY", "refresh_inventory"); ("SELF_UNINSTALL", "self_uninstall");
    ("BACKUP_RUN", "backup_run"); ("BACKUP_STOP", "backup_stop");
    ("BACKUP_RESTORE", "backup_restore"); ("BACKUP_VERIFY", "backup_verify");
    ("BACKUP_TEST_RESTORE", "backup_test_restore"); ("BACKUP_CLEANUP", "backup_cleanup");
    ("VSS_STATUS", "vss_status"); ("VSS_WRITER_LIST", "vss_writer_list");
    ("MSSQL_DISCOVER", "mssql_discover"); ("MSSQL_BACKUP", "mssql_backup");
    ("MSSQL_RESTORE", "mssql_restore"); ("MSSQL_VERIFY", "mssql_verify");
    ("HYPERV_DISCOVER", "hyperv_discover"); ("HYPERV_BACKUP", "hyperv_backup");
    ("HYPERV_RESTORE", "hyperv_restore"); ("HYPERV_CHECKPOINT", "hyperv_checkpoint");
    ("HYPERV_VM_STATE", "hyperv_vm_state"); ("SYSTEM_STATE_COLLECT", "system_state_collect");
    ("HARDWARE_PROFILE", "hardware_profile");
    ("VM_RESTORE_FROM_BACKUP", "vm_restore_from_backup");
    ("VM_RESTORE_ESTIMATE", "vm_restore_estimate"); ("VM_INSTANT_BOOT", "vm_instant_boot");
    ("BMR_RECOVER", "bmr_recover"); ("VAULT_SYNC", "vault_sync");
    ("VAULT_STATUS", "vault_status"); ("VAULT_CONFIGURE", "vault_configure");
    ("COLLECT_EVIDENCE", "collect_evidence"); ("EXECUTE_CONTAINMENT", "execute_containment")].

(** [new Set([CommandTypes.A, ...])]. *)
Definition types (names : list string) : list string :=
  omap (λ n, snd <$> head (filter (λ p, p.1 = n) CommandTypes)) names.
Definition has (l : list string) (t : string) : bool := existsb (String.eqb t) l.

Definition BACKUP_COMMAND_TYPES : list string := [
    "backup_run"; "backup_stop"; "backup_restore"; "backup_verify"; "backup_test_restore";
    "backup_cleanup"; "vm_restore_from_backup"; "vm_instant_boot"; "bmr_recover"; "mssql_backup";
    "mssql_restore"; "hyperv_backup"; "hyperv_restore"].
Definition AUDITED_COMMANDS : list string := types [
    "KILL_PROCESS"; "START_SERVICE"; "STOP_SERVICE"; "RESTART_SERVICE"; "TASK_RUN"; "TASK_ENABLE";
    "TASK_DISABLE"; "REGISTRY_SET"; "REGISTRY_DELETE"; "REGISTRY_KEY_CREATE";
    "REGISTRY_KEY_DELETE"; "FILE_WRITE"; "FILE_DELETE"; "FILE_MKDIR"; "FILE_RENAME"; "FILE_COPY";
    "FILE_TRASH_RESTORE"; "FILE_TRASH_PURGE"; "TERMINAL_START"; "SCRIPT"; "PATCH_SCAN";
    "INSTALL_PATCHES"; "ROLLBACK_PATCHES"; "SOFTWARE_UNINSTALL"; "SOFTWARE_UPDATE";
    "CIS_BENCHMARK"; "APPLY_CIS_REMEDIATION"; "SECURITY_SCAN"; "SECURITY_THREAT_QUARANTINE";
    "SECURITY_THREAT_REMOVE"; "SECURITY_THREAT_RESTORE"; "SENSITIVE_DATA_SCAN"; "ENCRYPT_FILE";
    "SECURE_DELETE_FILE"; "QUARANTINE_FILE"; "TAKE_SCREENSHOT"; "COMPUTER_ACTION";
    "MANAGE_STARTUP_ITEM"; "APPLY_AUDIT_POLICY_BASELINE"; "PERIPHERAL_POLICY_SYNC";
    "REBOOT_SAFE_MODE"; "SELF_UNINSTALL"; "BACKUP_RUN"; "BACKUP_STOP"; "BACKUP_RESTORE";
    "BACKUP_VERIFY"; "BACKUP_TEST_RESTORE"; "VSS_WRITER_LIST"; "MSSQL_BACKUP"; "MSSQL_RESTORE";
    "MSSQL_VERIFY"; "HYPERV_BACKUP"; "HYPERV_RESTORE"; "HYPERV_CHECKPOINT"; "HYPERV_VM_STATE";
    "VM_RESTORE_FROM_BACKUP"; "VM_INSTANT_BOOT"; "BMR_RECOVER"; "VAULT_SYNC"; "VAULT_CONFIGURE";
    "COLLECT_EVIDENCE"; "EXECUTE_CONTAINMENT"].
Definition INTERACTIVE_COMMAND_TYPES : list string := types [
    "FILE_LIST"; "FILE_LIST_DRIVES"; "FILE_READ"; "FILE_WRITE"; "FILE_DELETE"; "FILE_MKDIR";
    "FILE_RENAME"; "FILE_COPY"; "FILE_TRASH_LIST"; "FILE_TRASH_RESTORE"; "FILE_TRASH_PURGE";
    "TERMINAL_START"; "TERMINAL_DATA"; "TERMINAL_RESIZE"; "TERMINAL_STOP"; "TAKE_SCREENSHOT";
    "COMPUTER_ACTION"].
Definition EXCLUDED_COMMAND_TYPES : list string := types [
    "TERMINAL_START"; "TERMINAL_DATA"; "TERMINAL_RESIZE"; "TERMINAL_STOP"].
Definition SHORT_TIMEOUT_TYPES : list string := types [
    "LIST_PROCESSES"; "GET_PROCESS"; "KILL_PROCESS"; "LIST_SERVICES"; "GET_SERVICE";
    "START_SERVICE"; "STOP_SERVICE"; "RESTART_SERVICE"; "EVENT_LOGS_LIST"; "EVENT_LOGS_QUERY";
    "EVENT_LOG_GET"; "TASKS_LIST"; "TASK_GET"; "TASK_RUN"; "TASK_ENABLE"; "TASK_DISABLE";
    "TASK_HISTORY"; "REGISTRY_KEYS"; "REGISTRY_VALUES"; "REGISTRY_GET"; "REGISTRY_SET";
    "REGISTRY_DELETE"; "REGISTRY_KEY_CREATE"; "REGISTRY_KEY_DELETE"; "FILE_LIST"; "FILE_READ";
    "FILE_WRITE"; "FILE_DELETE"; "FILE_MKDIR"; "FILE_RENAME"; "FILE_COPY"; "FILE_TRASH_LIST";
    "FILE_TRASH_RESTORE"; "FILE_TRASH_PURGE"; "FILE_LIST_DRIVES"; "TAKE_SCREENSHOT";
    "COMPUTER_ACTION"; "SET_LOG_LEVEL"; "PERIPHERAL_POLICY_SYNC"; "COLLECT_BOOT_PERFORMANCE";
    "MANAGE_STARTUP_ITEM"; "COLLECT_AUDIT_POLICY"; "SECURITY_COLLECT_STATUS"].
Definition MEDIUM_TIMEOUT_TYPES : list string := types [
    "SECURITY_SCAN"; "PATCH_SCAN"; "SOFTWARE_UNINSTALL"; "FILESYSTEM_ANALYSIS";
    "REBOOT_SAFE_MODE"; "SELF_UNINSTALL"; "COLLECT_EVIDENCE"; "EXECUTE_CONTAINMENT";
    "ROLLBACK_PATCHES"; "COLLECT_RELIABILITY_METRICS"; "APPLY_CIS_REMEDIATION";
    "APPLY_AUDIT_POLICY_BASELINE"; "SECURITY_THREAT_QUARANTINE"; "SECURITY_THREAT_REMOVE";
    "SECURITY_THREAT_RESTORE"; "BACKUP_RESTORE"].
Definition RESTORE_TIMEOUT_TYPES : list string := types [
    "VM_RESTORE_FROM_BACKUP"; "VM_INSTANT_BOOT"; "BMR_RECOVER"; "MSSQL_RESTORE"; "HYPERV_RESTORE"].
Definition LONG_TIMEOUT_TYPES : list string := types [
    "INSTALL_PATCHES"; "BACKUP_VERIFY"; "BACKUP_TEST_RESTORE"; "BACKUP_CLEANUP"; "MSSQL_BACKUP";
    "HYPERV_BACKUP"; "CIS_BENCHMARK"; "SENSITIVE_DATA_SCAN"; "ENCRYPT_FILE"; "SECURE_DELETE_FILE";
    "QUARANTINE_FILE"].

(** ** Timeouts *)

Definition FIVE_MINUTES : Z := 5 * 60 * 1000.
Definition THIRTY_MINUTES : Z := 30 * 60 * 1000.
Definition SIXTY_MINUTES : Z := 60 * 60 * 1000.
Definition TWO_HOURS : Z := 2 * 60 * 60 * 1000.
Definition DEFAULT_TIMEOUT_MS : Z := THIRTY_MINUTES.
Definition SCRIPT_GRACE_BUFFER_MS : Z := 5 * 60 * 1000.
Definition DEFAULT_SCRIPT_TIMEOUT_S : Z := 300.

Definition getCommandTimeoutMs (commandType : string) (payload : json) : num :=
  if String.eqb commandType "script" then
    let timeoutSeconds :=
      match as_number (field "timeoutSeconds" payload) with
      | Some q => Some q
      | None => nint DEFAULT_SCRIPT_TIMEOUT_S
      end in
    nadd (nmul timeoutSeconds (nint 1000)) (nint SCRIPT_GRACE_BUFFER_MS)
  else if has SHORT_TIMEOUT_TYPES commandType then nint FIVE_MINUTES
  else if has MEDIUM_TIMEOUT_TYPES commandType then nint THIRTY_MINUTES
  else if has RESTORE_TIMEOUT_TYPES commandType then nint SIXTY_MINUTES
  else if has LONG_TIMEOUT_TYPES commandType then nint TWO_HOURS
  else nint DEFAULT_TIMEOUT_MS.

(** ** Results *)

Inductive ResultStatus := rs_completed | rs_failed | rs_timeout.
#[export] Instance ResultStatus_eq_dec : EqDecision ResultStatus.
Proof. solve_decision. Defined.

Record CommandResult := {
  cr_status : ResultStatus; cr_exitCode : option Z; cr_stdout : option string;
  cr_stderr : option string; cr_error : option string; cr_durationMs : option Z;
  cr_timedOutBy : option string }.

(** What a device reports ([commandResultSchema]). *)
Record Report := {
  rp_status : ResultStatus; rp_exitCode : option Z; rp_stdout : option string;
  rp_stderr : option string; rp_durationMs : option Z; rp_error : option string;
  rp_result : option json }.

Inductive CriticalResultFamily := fam_restore | fam_verification | fam_vault | fam_dr.

Definition RESTORE_COMMAND_TYPES : list string := [
    "backup_restore"; "vm_restore_from_backup"; "vm_instant_boot"].
Definition DR_COMMAND_TYPES : list string := [
    "vm_restore_from_backup"; "vm_instant_boot"; "hyperv_restore"; "mssql_restore"; "bmr_recover"].
Definition VERIFICATION_COMMAND_TYPES : list string := [
    "backup_verify"; "backup_test_restore"].
Definition VAULT_COMMAND_TYPES : list string := [
    "vault_sync"].

Definition detectCriticalFamily (commandType : string) : option CriticalResultFamily :=
  if has VERIFICATION_COMMAND_TYPES commandType then Some fam_verification
  else if has VAULT_COMMAND_TYPES commandType then Some fam_vault
  else if has DR_COMMAND_TYPES commandType then Some fam_dr
  else if has RESTORE_COMMAND_TYPES commandType then Some fam_restore
  else None.

Definition CRITICAL_RESULT_STDOUT_MAX_BYTES : Z := 1048576.
Definition CRITICAL_RESULT_STDERR_MAX_BYTES : Z := 262144.
Definition CRITICAL_RESULT_STRUCTURED_MAX_BYTES : Z := 524288.

Definition byteLength (s : option string) : Z :=
  match s with Some t => Z.of_nat (String.length t) | None => 0 end.

(** The text of a JSON value and back, and the check of a value against one of the schemas, which
    returns the value without what the schema strips or the message of its error. *)
Inductive Schema := restoreStructuredResultSchema | backupVerificationStructuredResultSchema
| vaultSyncStructuredResultSchema.
Class ResultText := {
  JSON_stringify : json → string;
  JSON_parse : string → option json;
  schema_parse : Schema → json → outcome string json }.

Section results.
Context `{ResultText}.

Definition commandResultToStdout (d : Report) : option string :=
  match rp_stdout d with Some t => Some t | None => JSON_stringify <$> rp_result d end.

Definition buildStoredCommandResult (d : Report) (stdout : option string) : CommandResult :=
  {| cr_status := rp_status d; cr_exitCode := rp_exitCode d; cr_stdout := stdout;
     cr_stderr := rp_stderr d; cr_error := rp_error d; cr_durationMs := rp_durationMs d;
     cr_timedOutBy := None |}.

Definition ensureCriticalResultSizeLimits (d : Report) : outcome string unit :=
  if CRITICAL_RESULT_STDOUT_MAX_BYTES <? byteLength (rp_stdout d)
  then Throw ("stdout exceeds " +:+ print_Z CRITICAL_RESULT_STDOUT_MAX_BYTES +:+ " bytes")
  else if CRITICAL_RESULT_STDERR_MAX_BYTES <? byteLength (rp_stderr d)
  then Throw ("stderr exceeds " +:+ print_Z CRITICAL_RESULT_STDERR_MAX_BYTES +:+ " bytes")
  else match rp_result d with
       | Some v =>
           if CRITICAL_RESULT_STRUCTURED_MAX_BYTES <? byteLength (Some (JSON_stringify v))
           then Throw ("structured result exceeds " +:+ print_Z CRITICAL_RESULT_STRUCTURED_MAX_BYTES +:+ " bytes")
           else Ok tt
       | None => Ok tt
       end.

Definition parseStructuredResult (d : Report) : option json :=
  match rp_result d with
  | Some v => Some v
  | None => if truthy (rp_stdout d) then rp_stdout d ≫= JSON_parse else None
  end.

Definition ensureObjectLike (commandType : string) (v : json) : outcome string json :=
  if negb (json_truthy (Some v)) then Ok (JObj [])
  else match v with
       | JObj _ => Ok v
       | _ => Throw ("critical " +:+ commandType +:+ " result must be a JSON object")
       end.

(** The structured result and the text stored instead of the device's. *)
Record Validation := { vl_structured : json; vl_stdout : option string }.

Definition validate_family (commandType : string) (kind : string) (sch : Schema) (d : Report)
    : outcome string Validation :=
  match parseStructuredResult d with
  | None =>
      if decide (rp_status d = rs_completed)
      then Throw ("critical " +:+ commandType +:+ " result is missing structured " +:+ kind +:+ " data")
      else Ok {| vl_structured := JObj []; vl_stdout := rp_stdout d |}
  | Some parsed =>
      o ← ensureObjectLike commandType parsed;
      v ← schema_parse sch o;
      Ok {| vl_structured := v; vl_stdout := Some (JSON_stringify v) |}
  end.

Definition validateCriticalCommandResult (commandType : string) (d : Report)
    : outcome string (option Validation) :=
  match detectCriticalFamily commandType with
  | None => Ok None
  | Some fam =>
      _ ← ensureCriticalResultSizeLimits d;
      v ← match fam with
          | fam_verification =>
              validate_family commandType "verification" backupVerificationStructuredResultSchema d
          | fam_vault => validate_family commandType "vault sync" vaultSyncStructuredResultSchema d
          | fam_dr | fam_restore => validate_family commandType "restore" restoreStructuredResultSchema d
          end;
      Ok (Some v)
  end.

Record Normalized := {
  nm_data : Report; nm_stdout : option string; nm_validationError : option string }.

Definition with_failure (d : Report) (reason : string) : Report :=
  {| rp_status := rs_failed; rp_exitCode := rp_exitCode d; rp_stdout := rp_stdout d;
     rp_stderr := rp_stderr d; rp_durationMs := rp_durationMs d; rp_error := Some reason;
     rp_result := rp_result d |}.
Definition with_structured (d : Report) (stdout : option string) (v : json) : Report :=
  {| rp_status := rp_status d; rp_exitCode := rp_exitCode d; rp_stdout := stdout;
     rp_stderr := rp_stderr d; rp_durationMs := rp_durationMs d; rp_error := rp_error d;
     rp_result := Some v |}.

Definition normalizeCriticalResultIfNeeded (commandType : string) (d : Report) : Normalized :=
  let plain := {| nm_data := d; nm_stdout := commandResultToStdout d; nm_validationError := None |} in
  match detectCriticalFamily commandType with
  | None => plain
  | Some _ =>
      match validateCriticalCommandResult commandType d with
      | Ok None => plain
      | Ok (Some v) =>
          let stdout := or_else (vl_stdout v) (rp_stdout d) in
          {| nm_data := with_structured d stdout (vl_structured v); nm_stdout := stdout;
             nm_validationError := None |}
      | Throw message =>
          let reason := "Rejected malformed " +:+ commandType +:+ " result: " +:+ message in
          {| nm_data := with_failure d reason; nm_stdout := commandResultToStdout d;
             nm_validationError := Some reason |}
      end
  end.

(** What the table stores of a report. *)
Definition stored_result (commandType : string) (d : Report) : CommandResult :=
  let n := normalizeCriticalResultIfNeeded commandType d in
  buildStoredCommandResult (nm_data n) (nm_stdout n).

(** Only a report of success is stored as one. *)
Lemma stored_completed commandType d :
  cr_status (stored_result commandType d) = rs_completed → rp_status d = rs_completed.
Proof.
  unfold stored_result, normalizeCriticalResultIfNeeded, buildStoredCommandResult.
  destruct (detectCriticalFamily commandType); [|done].
  by destruct (validateCriticalCommandResult commandType d) as [[v|]|].
Qed.

End results.
