(* ===== verification/CommandMachine.v ===== *)
(** * Commands to devices: the table and the machine its handlers run on
    ([db/schema/devices.ts], [db/index.ts], the connections of [routes/agentWs.ts])

    Requests, jobs and messages of agents work on the table [device_commands] at the same time, so
    a handler is a program of atomic actions ([Prog]) and a configuration holds the programs
    under way; [step] lets any of them take its next action.  A transaction ([withDbAccessContext],
    [db.transaction]) keeps its own version of the rows it has written or locked: others read
    what is committed, and an update of a row that another transaction holds waits.  Nested
    transactions are savepoints.  Any statement may be refused, and one may take effect while
    its answer is lost; in a transaction the statements after that are refused up to the rollback.

    Ids are numbers in the order of insertion; [sv_next] is the next one, which a rollback does
    not take back. *)

From S2P Require Import Prelude JsNum Json CommandRules.

Open Scope Z_scope.

Abbreviation uuid := nat.

(** ** Rows *)

Inductive Role := for_agent | for_watchdog.
#[export] Instance Role_eq_dec : EqDecision Role.
Proof. solve_decision. Defined.

Inductive CommandStatus := pending | sent | completed | failed | cancelled.
#[export] Instance CommandStatus_eq_dec : EqDecision CommandStatus.
Proof. solve_decision. Defined.

(** The column [result]: what a device or a timeout recorded, or the note of a cancellation,
    which is of another shape. *)
Inductive Stored := Result (r : CommandResult) | CancelNote (by_user : option uuid) (reason : option string).

(** What a command is, which never changes. *)
Record Spec := {
  sp_deviceId : uuid; sp_type : string; sp_payload : json; sp_targetRole : Role;
  sp_createdBy : option uuid; sp_createdAt : Z }.

(** How far it has come. *)
Record Progress := {
  pg_status : CommandStatus; pg_executedAt : option Z; pg_completedAt : option Z;
  pg_result : option Stored }.

Record DeviceCommand := { dc_spec : Spec; dc_at : Progress }.

Abbreviation status_of r := (pg_status (dc_at r)).

Record Device := { dv_orgId : uuid; dv_agentId : string; dv_hostname : string; dv_status : string }.

(** ** Actions *)

(** Where a command is handed over: to the socket of an agent, or in the answer to a poll of a
    device. *)
Inductive Target := ToSocket (agentId : string) | ToPoll (deviceId : uuid) (r : Role).

(** What happens outside the table, in order.  [Queued], [Delivered] and [Reported] record
    insertions, deliveries and results that arrive. *)
Inductive Event :=
| Queued (i : uuid) (s : Spec)
| Delivered (i : uuid) (t : Target)
| Reported (i : uuid) (deviceId : uuid) (r : Role) (data : Report)
| Dispatched (type : string) (by_user : bool) (orgId : option uuid)
| BackupTimeout (type source : string)
| RestoreTimeout (type : string)
| Enqueued (job : string)
| Handled (handler : string) (i : uuid)
| Captured (message : string).

Abbreviation Overlay := (gmap uuid (option DeviceCommand)).
Abbreviation Row := (uuid * DeviceCommand)%type.

(** [Op A] is an action whose answer is an [A].  [Update i guard f] is [update ... set f where id
    = i and guard]; [Open], [Close] and [Undo] are begin, commit and rollback, or the
    savepoint statements inside a transaction; [OtherTable] is a statement on a table that is not
    modelled, and [Enqueue] adds to a job queue. *)
Inductive Op : Type → Type :=
| Clock : Op Z
| SleepUntil (t : Z) : Op unit
| InTx : Op bool
| Connected (agentId : string) : Op bool
| Send (agentId : string) (i : uuid) : Op bool
| Push (t : Target) (l : list uuid) : Op unit
| Note (e : Event) : Op unit
| FindDevice (visible : uuid → bool) (d : uuid) : Op (option Device)
| FindDeviceByAgent (agentId : string) : Op (option uuid)
| Insert (d : uuid) (type : string) (payload : json) (r : Role) (createdBy : option uuid) : Op Row
| Update (i : uuid) (guard : DeviceCommand → bool) (f : Progress → Progress) : Op bool
| UpdateMany (guard : DeviceCommand → bool) (f : Progress → Progress) : Op nat
| Delete (i : uuid) (guard : DeviceCommand → bool) : Op bool
| Select (i : uuid) (guard : DeviceCommand → bool) : Op (option DeviceCommand)
| SelectMany (guard : DeviceCommand → bool) (limit : nat) : Op (list Row)
| SelectForUpdate (guard : DeviceCommand → bool) (limit : nat) : Op (list Row)
| OtherTable (name : string) : Op unit
| Enqueue (job : string) : Op unit
| Open : Op unit
| Close : Op unit
| Undo : Op unit.

(** ** Programs *)

(** [PLoop s body k] runs [body] from [s] until it returns [inr], then goes on with [k]; [PFork]
    starts a program whose promise nobody awaits. *)
Inductive Reply :=
| Done
| Answer (r : Stored)
| Refused (message : string)
| Queued_as (i : uuid) (st : CommandStatus)
| Commands (l : list uuid)
| Http (code : Z).

Inductive Prog (A : Type) : Type :=
| PRet (a : A)
| PThrow (e : string)
| PAct {X} (o : Op X) (k : outcome string X → Prog A)
| PFork (p : Prog Reply) (k : Prog A)
| PLoop {S X} (s : S) (body : S → Prog (S + X)) (k : X → Prog A).
Arguments PRet {A}. Arguments PThrow {A}. Arguments PAct {A X}. Arguments PFork {A}.
Arguments PLoop {A S X}.

(** [try { a = await m } catch (e) { hd(e) }], then [f(a)]. *)
Fixpoint handle {A B} (m : Prog A) (f : A → Prog B) (hd : string → Prog B) : Prog B :=
  match m with
  | PRet a => f a
  | PThrow e => hd e
  | PAct o k => PAct o (λ x, handle (k x) f hd)
  | PFork p k => PFork p (handle k f hd)
  | PLoop s body k =>
      PLoop s
        (λ s, handle (body s)
                (λ r, PRet (match r with inl s' => inl s' | inr x => inr (inl x) end))
                (λ e, PRet (inr (inr e))))
        (λ r, match r with inl x => handle (k x) f hd | inr e => hd e end)
  end.

#[export] Instance Prog_ret : MRet Prog := λ A a, PRet a.
#[export] Instance Prog_bind : MBind Prog := λ A B f m, handle m f PThrow.

(** An action that throws when it is refused. *)
Definition act {X} (o : Op X) : Prog X :=
  PAct o (λ r, match r with Ok x => PRet x | Throw e => PThrow e end).
Definition catch {A} (m : Prog A) (hd : string → Prog A) : Prog A := handle m PRet hd.
Definition fork (p : Prog Reply) : Prog unit := PFork p (PRet tt).
Definition sleep (ms : Z) : Prog unit := t ← act Clock; act (SleepUntil (t + ms)).

(** [db.transaction(body)]: a transaction, or a savepoint inside one. *)
Definition db_transaction {A} (body : Prog A) : Prog A :=
  _ ← act Open;
  handle body (λ a, _ ← act Close; PRet a) (λ e, _ ← act Undo; PThrow e).

(** [withDbAccessContext]: inside a context the body runs in the transaction already open. *)
Definition withDbAccessContext {A} (body : Prog A) : Prog A :=
  b ← act InTx; if b : bool then body else db_transaction body.
Abbreviation withSystemDbAccessContext := withDbAccessContext.

(** ** The machine *)

Record Server := {
  sv_commands : gmap uuid DeviceCommand;
  sv_devices : gmap uuid Device;
  sv_users : gset uuid;
  sv_sockets : gset string;               (* activeConnections *)
  sv_clock : Z;
  sv_next : uuid;
  sv_log : list Event }.

Definition set_commands (f : gmap uuid DeviceCommand → gmap uuid DeviceCommand) (s : Server) : Server :=
  {| sv_commands := f (sv_commands s); sv_devices := sv_devices s; sv_users := sv_users s;
     sv_sockets := sv_sockets s; sv_clock := sv_clock s; sv_next := sv_next s; sv_log := sv_log s |}.
Definition set_world (dv : gmap uuid Device) (so : gset string) (t : Z) (s : Server) : Server :=
  {| sv_commands := sv_commands s; sv_devices := dv; sv_users := sv_users s;
     sv_sockets := so; sv_clock := t; sv_next := sv_next s; sv_log := sv_log s |}.
Definition add_events (l : list Event) (n : uuid) (s : Server) : Server :=
  {| sv_commands := sv_commands s; sv_devices := sv_devices s; sv_users := sv_users s;
     sv_sockets := sv_sockets s; sv_clock := sv_clock s; sv_next := n; sv_log := sv_log s ++ l |}.
Definition logs (l : list Event) (s : Server) : Server := add_events l (sv_next s) s.

(** A connection: the versions of an open transaction, the innermost savepoint first, when it
    began ([now()]), and whether a statement of it failed. *)
Record Conn := { cn_frames : list Overlay; cn_began : Z; cn_aborted : bool }.
Definition idle : Conn := {| cn_frames := []; cn_began := 0; cn_aborted := false |}.
Definition with_frames (c : Conn) (l : list Overlay) : Conn :=
  {| cn_frames := l; cn_began := cn_began c; cn_aborted := cn_aborted c |}.
Definition with_aborted (c : Conn) (b : bool) : Conn :=
  {| cn_frames := cn_frames c; cn_began := cn_began c; cn_aborted := b |}.

(** What the environment decides about one action. *)
Inductive Fault := no_fault | refused | unanswered.
Record Choice := { ch_fault : Fault; ch_sent : bool }.

Definition top (c : Conn) : Overlay := match cn_frames c with f :: _ => f | [] => ∅ end.

(** The rows a connection sees. *)
Definition laid (o : Overlay) (m : gmap uuid DeviceCommand) : gmap uuid DeviceCommand :=
  merge (λ a b, match a with Some v => v | None => b end) o m.
Definition rows (s : Server) (c : Conn) : gmap uuid DeviceCommand := laid (top c) (sv_commands s).

(** Write a row, or remove it, on a connection. *)
Definition put (i : uuid) (v : option DeviceCommand) (sc : Server * Conn) : Server * Conn :=
  let '(s, c) := sc in
  match cn_frames c with
  | [] => (set_commands (λ m, partial_alter (λ _, v) i m) s, c)
  | f :: l => (s, with_frames c (<[i := v]> f :: l))
  end.

Definition advanced (f : Progress → Progress) (r : DeviceCommand) : DeviceCommand :=
  {| dc_spec := dc_spec r; dc_at := f (dc_at r) |}.

(** [order by created_at limit n]. *)
Definition created_le (a b : Row) : Prop := sp_createdAt (dc_spec a.2) <= sp_createdAt (dc_spec b.2).
#[export] Instance created_le_dec : RelDecision created_le := λ a b, Z_le_dec _ _.
Definition oldest (n : nat) (l : list Row) : list Row := take n (merge_sort created_le l).

Definition matching (guard : DeviceCommand → bool) (m : gmap uuid DeviceCommand) : list Row :=
  filter (λ p, guard p.2 = true) (map_to_list m).

(** [None]: the action has to wait. *)
Definition Step (A : Type) : Type := option (outcome string A * Server * Conn).

(** A statement with the fault the environment chose; [body] is its effect and answer. *)
Definition statement {A} (ch : Choice) (s : Server) (c : Conn)
    (body : option (outcome string A * (Server * Conn))) : Step A :=
  if cn_aborted c then Some (Throw "current transaction is aborted", s, c)
  else
    let failing (c' : Conn) : Conn := match cn_frames c' with [] => c' | _ => with_aborted c' true end in
    match ch_fault ch with
    | refused => Some (Throw "statement failed", s, failing c)
    | unanswered =>
        match body with
        | Some (Ok _, (s', c')) => Some (Throw "connection lost", s', failing c')
        | Some (Throw e, _) => Some (Throw e, s, failing c)
        | None => None
        end
    | no_fault =>
        match body with
        | Some (Ok a, (s', c')) => Some (Ok a, s', c')
        | Some (Throw e, _) => Some (Throw e, s, failing c)
        | None => None
        end
    end.

Definition valid_user (s : Server) (u : option uuid) : bool :=
  match u with Some x => bool_decide (x ∈ sv_users s) | None => true end.

Definition insert_row (s : Server) (c : Conn) (d : uuid) (type : string) (payload : json) (r : Role)
    (u : option uuid) : option (outcome string Row * (Server * Conn)) :=
  if negb (bool_decide (is_Some (sv_devices s !! d))) || negb (valid_user s u)
  then Some (Throw "violates foreign key constraint", (s, c))
  else
    let spec := {| sp_deviceId := d; sp_type := type; sp_payload := payload; sp_targetRole := r;
                   sp_createdBy := u;
                   sp_createdAt := match cn_frames c with [] => sv_clock s | _ => cn_began c end |} in
    let row := {| dc_spec := spec;
                  dc_at := {| pg_status := pending; pg_executedAt := None; pg_completedAt := None;
                              pg_result := None |} |} in
    Some (Ok (sv_next s, row),
          put (sv_next s) (Some row) (add_events [Queued (sv_next s) spec] (S (sv_next s)) s, c)).

(** An update or deletion of one row: it waits for a row that matches and is locked. *)
Definition change_row (held : uuid → bool) (s : Server) (c : Conn) (i : uuid)
    (guard : DeviceCommand → bool) (v : DeviceCommand → option DeviceCommand)
    : option (outcome string bool * (Server * Conn)) :=
  match rows s c !! i with
  | Some r =>
      if guard r then if held i then None else Some (Ok true, put i (v r) (s, c))
      else Some (Ok false, (s, c))
  | None => Some (Ok false, (s, c))
  end.

Definition change_rows (held : uuid → bool) (s : Server) (c : Conn) (guard : DeviceCommand → bool)
    (f : Progress → Progress) : option (outcome string nat * (Server * Conn)) :=
  let l := matching guard (rows s c) in
  if existsb (λ p, held p.1) l then None
  else Some (Ok (length l), foldr (λ p sc, put p.1 (Some (advanced f p.2)) sc) (s, c) l).

(** [select ... for update skip locked]. *)
Definition lock_rows (held : uuid → bool) (s : Server) (c : Conn) (guard : DeviceCommand → bool)
    (n : nat) : option (outcome string (list Row) * (Server * Conn)) :=
  let l := oldest n (filter (λ p, held p.1 = false) (matching guard (rows s c))) in
  Some (Ok l, foldr (λ p sc, put p.1 (Some p.2) sc) (s, c) l).

Definition begin_tx (s : Server) (c : Conn) : Conn :=
  match cn_frames c with
  | [] => {| cn_frames := [∅]; cn_began := sv_clock s; cn_aborted := false |}
  | f :: l => with_frames c (f :: f :: l)
  end.
Definition rolled_back (c : Conn) : Conn :=
  match cn_frames c with
  | [] => c
  | _ :: l => {| cn_frames := l; cn_began := cn_began c; cn_aborted := false |}
  end.
Definition committed (s : Server) (c : Conn) : Server * Conn :=
  match cn_frames c with
  | [f] => (set_commands (laid f) s, idle)
  | f :: _ :: l => (s, with_frames c (f :: l))
  | [] => (s, c)
  end.

(** A transaction or savepoint whose answer is lost is not begun. *)
Definition open_tx (ch : Choice) (s : Server) (c : Conn) : Step unit :=
  if cn_aborted c then Some (Throw "current transaction is aborted", s, c)
  else match ch_fault ch with
       | no_fault => Some (Ok tt, s, begin_tx s c)
       | _ => Some (Throw "statement failed", s,
                    match cn_frames c with [] => c | _ => with_aborted c true end)
       end.

(** A commit that is refused, or follows a failed statement, rolls back. *)
Definition close_tx (ch : Choice) (s : Server) (c : Conn) : Step unit :=
  if cn_aborted c then Some (Throw "current transaction is aborted", s, rolled_back c)
  else match ch_fault ch with
       | refused => Some (Throw "statement failed", s, rolled_back c)
       | unanswered =>
           match cn_frames c with
           | [_] => Some (Throw "connection lost", (committed s c).1, (committed s c).2)
           | _ => Some (Throw "connection lost", s, rolled_back c)
           end
       | no_fault => Some (Ok tt, (committed s c).1, (committed s c).2)
       end.

(** [sendCommandToAgent] ([routes/agentWs.ts]): a failing send drops the connection. *)
Definition sendCommandToAgent (ch : Choice) (s : Server) (a : string) (i : uuid) : bool * Server :=
  if decide (a ∈ sv_sockets s) then
    if ch_sent ch then (true, logs [Delivered i (ToSocket a)] s)
    else (false, set_world (sv_devices s) (sv_sockets s ∖ {[a]}) (sv_clock s) s)
  else (false, s).

Definition exec {A} (o : Op A) (ch : Choice) (held : uuid → bool) (s : Server) (c : Conn) : Step A :=
  match o in Op A return Step A with
  | Clock => Some (Ok (sv_clock s), s, c)
  | SleepUntil t => if t <=? sv_clock s then Some (Ok tt, s, c) else None
  | InTx => Some (Ok (match cn_frames c with [] => false | _ => true end), s, c)
  | Connected a => Some (Ok (bool_decide (a ∈ sv_sockets s)), s, c)
  | Send a i => let '(b, s') := sendCommandToAgent ch s a i in Some (Ok b, s', c)
  | Push t l =>
      if ch_sent ch then Some (Ok tt, logs ((λ i, Delivered i t) <$> l) s, c)
      else Some (Throw "send failed", s, c)
  | Note e => Some (Ok tt, logs [e] s, c)
  | FindDevice visible d =>
      statement ch s c (Some (Ok (dv ← sv_devices s !! d; if visible (dv_orgId dv) then Some dv else None), (s, c)))
  | FindDeviceByAgent a =>
      statement ch s c
        (Some (Ok (fst <$> head (filter (λ p, dv_agentId p.2 = a) (map_to_list (sv_devices s)))), (s, c)))
  | Insert d ty pl r u => statement ch s c (insert_row s c d ty pl r u)
  | Update i g f => statement ch s c (change_row held s c i g (λ r, Some (advanced f r)))
  | UpdateMany g f => statement ch s c (change_rows held s c g f)
  | Delete i g => statement ch s c (change_row held s c i g (λ _, None))
  | Select i g =>
      statement ch s c
        (Some (Ok (r ← rows s c !! i; if g r then Some r else None), (s, c)))
  | SelectMany g n => statement ch s c (Some (Ok (oldest n (matching g (rows s c))), (s, c)))
  | SelectForUpdate g n => statement ch s c (lock_rows held s c g n)
  | OtherTable _ => statement ch s c (Some (Ok tt, (s, c)))
  | Enqueue j =>
      if ch_sent ch then Some (Ok tt, logs [Enqueued j] s, c) else Some (Throw "queue unavailable", s, c)
  | Open => open_tx ch s c
  | Close => close_tx ch s c
  | Undo => Some (Ok tt, s, rolled_back c)
  end.

(** ** Configurations *)

Record Proc := { pr_prog : Prog Reply; pr_conn : Conn }.
Record Config := { cf_server : Server; cf_procs : gmap nat Proc }.

(** Another process has the row in its transaction. *)
Definition held_by_other (c : Config) (p : nat) (i : uuid) : bool :=
  existsb (λ q, negb (Nat.eqb q.1 p) && bool_decide (is_Some (top (pr_conn q.2) !! i)))
    (map_to_list (cf_procs c)).

Definition set_proc (p : nat) (x : Proc) (s : Server) (c : Config) : Config :=
  {| cf_server := s; cf_procs := <[p := x]> (cf_procs c) |}.

(** An id no process has. *)
Definition fresh_pid (c : Config) : nat := fresh (dom (cf_procs c)).

(** Process [p] takes its next action; [None] if it has ended or must wait. *)
Definition step (p : nat) (ch : Choice) (c : Config) : option Config :=
  x ← cf_procs c !! p;
  match pr_prog x with
  | PRet _ | PThrow _ => None
  | PAct o k =>
      '(r, s, cn) ← exec o ch (held_by_other c p) (cf_server c) (pr_conn x);
      Some (set_proc p {| pr_prog := k r; pr_conn := cn |} s c)
  | PFork q k =>
      let c' := set_proc p {| pr_prog := k; pr_conn := pr_conn x |} (cf_server c) c in
      Some (set_proc (fresh_pid c) {| pr_prog := q; pr_conn := idle |} (cf_server c) c')
  | PLoop s body k =>
      Some (set_proc p
        {| pr_prog := handle (body s) (λ r, match r with inl s' => PLoop s' body k | inr a => k a end) PThrow;
           pr_conn := pr_conn x |} (cf_server c) c)
  end.
