(* ===== verification/CommandQueue.v ===== *)
(** * Commands to devices: the handlers
    ([services/commandQueue.ts], [commandDispatch.ts], [jobs/staleCommandReaper.ts],
    [routes/agents/commands.ts], the command parts of [routes/agentWs.ts],
    [routes/agents/heartbeat.ts], [routes/admin/abuse.ts], [routes/scripts.ts],
    [routes/backup/restore.ts] and [routes/backup/verificationScheduled.ts])

    Each function is a program of the machine, with one action per statement, clock reading,
    send or timer.  [runOutsideDbContext] leaves the transaction of the request, so what runs
    in it is a program on a connection of its own; the request's own transaction does
    not touch commands in those handlers. *)

From S2P Require Import Prelude JsNum Json CommandRules CommandMachine.

Open Scope Z_scope.

Definition DEVICE_UNREACHABLE_ERROR : string :=
  "Device is not currently reachable over the live connection. Please try again in a moment.".
Definition SEND_RETRY_ATTEMPTS : nat := 3.
Definition SEND_RETRY_DELAY_MS : Z := 500.

(** ** Row conditions and changes *)

Definition in_status (l : list CommandStatus) (r : DeviceCommand) : bool := bool_decide (status_of r ∈ l).
Definition is_open (r : DeviceCommand) : bool := in_status [pending; sent] r.
Definition is_settled (r : DeviceCommand) : bool := in_status [completed; failed; cancelled] r.

Definition to_sent (t : Z) (g : Progress) : Progress :=
  {| pg_status := sent; pg_executedAt := Some t; pg_completedAt := pg_completedAt g; pg_result := pg_result g |}.
Definition to_pending (g : Progress) : Progress :=
  {| pg_status := pending; pg_executedAt := None; pg_completedAt := pg_completedAt g; pg_result := pg_result g |}.
Definition settle (st : CommandStatus) (t : Z) (v : Stored) (g : Progress) : Progress :=
  {| pg_status := st; pg_executedAt := pg_executedAt g; pg_completedAt := Some t; pg_result := Some v |}.

Definition timed_out (error : string) (by_whom : option string) : Stored :=
  Result {| cr_status := rs_timeout; cr_exitCode := None; cr_stdout := None; cr_stderr := None;
            cr_error := Some error; cr_durationMs := None; cr_timedOutBy := by_whom |}.
Definition failure (error : string) : Stored :=
  Result {| cr_status := rs_failed; cr_exitCode := None; cr_stdout := None; cr_stderr := None;
            cr_error := Some error; cr_durationMs := None; cr_timedOutBy := None |}.

Definition everything (r : DeviceCommand) : bool := true.

(** ** Delivery ([services/commandDispatch.ts]) *)

Definition claimPendingCommandForDelivery (commandId : uuid) : Prog (option Z) :=
  executedAt ← act Clock;
  claimed ← withSystemDbAccessContext (act (Update commandId (in_status [pending]) (to_sent executedAt)));
  mret (if claimed : bool then Some executedAt else None).

Definition releaseClaimedCommandDelivery (commandId : uuid) (executedAt : Z) : Prog unit :=
  _ ← withSystemDbAccessContext
        (act (Update commandId
                (λ r, in_status [sent] r && bool_decide (pg_executedAt (dc_at r) = Some executedAt))
                to_pending));
  mret tt.

Definition claimable (deviceId : uuid) (targetRole : Role) (r : DeviceCommand) : bool :=
  bool_decide (sp_deviceId (dc_spec r) = deviceId) && in_status [pending] r &&
  bool_decide (sp_targetRole (dc_spec r) = targetRole).

Fixpoint claim_each (deviceId : uuid) (targetRole : Role) (l : list Row) : Prog (list uuid) :=
  match l with
  | [] => mret []
  | (i, _) :: l' =>
      executedAt ← act Clock;
      updated ← act (Update i (claimable deviceId targetRole) (to_sent executedAt));
      claimed ← claim_each deviceId targetRole l';
      mret (if updated : bool then i :: claimed else claimed)
  end.

Definition claimPendingCommandsForDevice (deviceId : uuid) (limit : nat) (targetRole : Role) : Prog (list uuid) :=
  db_transaction
    (pendingCommands ← act (SelectForUpdate (claimable deviceId targetRole) limit);
     claim_each deviceId targetRole pendingCommands).

(** ** The queue ([services/commandQueue.ts]) *)

Definition is_user (userId : option uuid) : bool := match userId with Some _ => true | None => false end.

(** The audit entry of a command, which nobody waits for. *)
Definition audit_queued (deviceId : uuid) (type : string) (userId : option uuid) : Prog Reply :=
  catch
    (withSystemDbAccessContext
       (device ← act (FindDevice (λ _, true) deviceId);
        match device with
        | None => _ ← act (Note (Dispatched type (is_user userId) None)); mret Done
        | Some dv =>
            _ ← act (Note (Dispatched type (is_user userId) (Some (dv_orgId dv))));
            _ ← act (OtherTable "audit_logs");
            mret Done
        end))
    (λ e, _ ← act (Note (Captured e)); mret Done).

Definition queueCommand (deviceId : uuid) (type : string) (payload : json) (userId : option uuid) : Prog Row :=
  command ← act (Insert deviceId type payload for_agent userId);
  _ ← (if has AUDITED_COMMANDS type then mret tt
       else act (Note (Dispatched type (is_user userId) None)));
  _ ← (if has AUDITED_COMMANDS type then fork (audit_queued deviceId type userId) else mret tt);
  mret command.

Definition is_finished (r : DeviceCommand) : bool := in_status [completed; failed] r.

(** One turn of the poll loop: [inl] the command seen, to go on; [inr] the command that ended, or
    the last one seen when the time is over. *)
Definition poll_once (commandId : uuid) (startTime timeoutMs pollIntervalMs : Z)
    (last : option DeviceCommand) : Prog (option DeviceCommand + (DeviceCommand + option DeviceCommand)) :=
  now ← act Clock;
  if now - startTime <? timeoutMs then
    command ← act (Select commandId everything);
    match command with
    | None => PThrow ("Command " +:+ print_Z (Z.of_nat commandId) +:+ " not found")
    | Some r =>
        if is_finished r then mret (inr (inl r))
        else _ ← sleep pollIntervalMs; mret (inl (Some r))
    end
  else mret (inr (inr last)).

Definition is_restore_type (t : string) : bool :=
  has ["backup_restore"; "vm_restore_from_backup"; "vm_instant_boot"; "bmr_recover"] t.

Definition record_timeout (type source : string) : Prog unit :=
  _ ← (if has BACKUP_COMMAND_TYPES type then act (Note (BackupTimeout type source)) else mret tt);
  if is_restore_type type then act (Note (RestoreTimeout type)) else mret tt.

Definition stop_waiting (commandId : uuid) (timeoutMs : Z) (last : option DeviceCommand)
    : Prog (option DeviceCommand) :=
  completedAt ← act Clock;
  updated ← withSystemDbAccessContext
    (act (Update commandId is_open
            (settle failed completedAt
               (timed_out ("Command timed out after " +:+ print_Z timeoutMs +:+ "ms") None))));
  _ ← match last with
      | Some r => if updated : bool then record_timeout (sp_type (dc_spec r)) "sync_wait" else mret tt
      | None => mret tt
      end;
  act (Select commandId everything).

Definition waitForCommandResult (commandId : uuid) (timeoutMs pollIntervalMs : Z) : Prog (option DeviceCommand) :=
  startTime ← act Clock;
  PLoop None (poll_once commandId startTime timeoutMs pollIntervalMs)
    (λ r, match r with
          | inl command => mret (Some command)
          | inr last => stop_waiting commandId timeoutMs last
          end).

(** The command and its status as the caller is told. *)
Definition queueCommandForExecution (visible : uuid → bool) (deviceId : uuid) (type : string) (payload : json)
    (userId : option uuid) (preferHeartbeat : bool) (expectedOrgId : option uuid)
    : Prog (string + uuid * CommandStatus) :=
  device ← act (FindDevice visible deviceId);
  match device with
  | None => mret (inl "Device not found")
  | Some dv =>
      if match expectedOrgId with Some o => negb (Nat.eqb (dv_orgId dv) o) | None => false end
      then mret (inl "Device not found")
      else if negb (String.eqb (dv_status dv) "online")
      then mret (inl ("Device is " +:+ dv_status dv +:+ ", cannot execute command"))
      else
        command ← queueCommand deviceId type payload userId;
        if truthy (Some (dv_agentId dv)) && negb preferHeartbeat then
          claimed ← claimPendingCommandForDelivery command.1;
          match claimed with
          | None => mret (inr (command.1, pending))
          | Some executedAt =>
              ok ← act (Send (dv_agentId dv) command.1);
              if ok : bool then mret (inr (command.1, sent))
              else _ ← releaseClaimedCommandDelivery command.1 executedAt; mret (inr (command.1, pending))
          end
        else mret (inr (command.1, pending))
  end.

Definition queueBackupStopCommand (deviceId : uuid) (userId : option uuid) : Prog (string + uuid * CommandStatus) :=
  withSystemDbAccessContext
    (result ← queueCommandForExecution (λ _, true) deviceId "backup_stop" (JObj [("reason", JStr "cancelled")])
                userId false None;
     match result with
     | inl error => mret (inl error)
     | inr (i, st) =>
         if decide (st = sent) then mret result
         else _ ← act (Delete i (in_status [pending]));
              mret (inl "Backup stop could not be dispatched immediately")
     end).

Record ExecOptions := {
  eo_userId : option uuid; eo_timeoutMs : Z; eo_preferHeartbeat : bool; eo_targetRole : Role }.

(** [sendCommandToAgent], tried again after a pause: true once it has succeeded. *)
Fixpoint send_attempts (n : nat) (agentId : string) (i : uuid) : Prog bool :=
  match n with
  | O => mret false
  | S n' =>
      ok ← act (Send agentId i);
      if ok : bool then mret true
      else _ ← (match n' with O => mret tt | S _ => sleep SEND_RETRY_DELAY_MS end);
           send_attempts n' agentId i
  end.

(** True if the caller goes on to wait for the result, false if it answers that the device is
    unreachable. *)
Definition dispatch_command (agentId : string) (i : uuid) (type : string) : Prog bool :=
  claimed ← claimPendingCommandForDelivery i;
  match claimed with
  | None => mret true
  | Some executedAt =>
      ok ← send_attempts SEND_RETRY_ATTEMPTS agentId i;
      if ok : bool then mret true
      else
        _ ← releaseClaimedCommandDelivery i executedAt;
        mret (negb (has INTERACTIVE_COMMAND_TYPES type))
  end.

Definition audit_executed : Prog Reply :=
  catch (withDbAccessContext (_ ← act (OtherTable "audit_logs"); mret Done))
        (λ e, _ ← act (Note (Captured e)); mret Done).

Definition executeCommand (visible : uuid → bool) (deviceId : uuid) (type : string) (payload : json)
    (options : ExecOptions) : Prog Stored :=
  let dispatchViaWs := bool_decide (eo_targetRole options = for_agent) && negb (eo_preferHeartbeat options) in
  device ← act (FindDevice visible deviceId);
  match device with
  | None => mret (failure "Device not found")
  | Some dv =>
      if negb (String.eqb (dv_status dv) "online")
      then mret (failure ("Device is " +:+ dv_status dv +:+ ", cannot execute command"))
      else
        let by_socket := truthy (Some (dv_agentId dv)) && dispatchViaWs in
        connected ← (if by_socket && has INTERACTIVE_COMMAND_TYPES type
                     then act (Connected (dv_agentId dv)) else mret true);
        if negb connected then mret (failure DEVICE_UNREACHABLE_ERROR)
        else
          let safeUserId := match eo_userId options with
                            | Some u => if Nat.eqb u deviceId then None else Some u
                            | None => None
                            end in
          command ← withSystemDbAccessContext
                      (act (Insert deviceId type payload (eo_targetRole options) safeUserId));
          _ ← (if has AUDITED_COMMANDS type then fork audit_executed else mret tt);
          waiting ← (if by_socket then dispatch_command (dv_agentId dv) command.1 type else mret true);
          if negb waiting then mret (failure DEVICE_UNREACHABLE_ERROR)
          else
            result ← waitForCommandResult command.1 (eo_timeoutMs options) 500;
            match result with
            | None => PThrow "Cannot read properties of undefined"
            | Some r => mret (default (failure "Command did not complete") (pg_result (dc_at r)))
            end
  end.

(** The older interface of the queue, which no handler calls. *)
Definition getPendingCommands (deviceId : uuid) (limit : nat) : Prog (list Row) :=
  act (SelectMany (λ r, bool_decide (sp_deviceId (dc_spec r) = deviceId) && in_status [pending] r) limit).

Fixpoint markCommandsSent (commandIds : list uuid) : Prog unit :=
  match commandIds with
  | [] => mret tt
  | i :: l => t ← act Clock; _ ← act (Update i (in_status [pending]) (to_sent t)); markCommandsSent l
  end.

Definition final_status (st : ResultStatus) : CommandStatus :=
  if decide (st = rs_completed) then completed else failed.

Definition submitCommandResult (commandId : uuid) (result : CommandResult) : Prog unit :=
  t ← act Clock;
  _ ← act (Update commandId (in_status [sent]) (settle (final_status (cr_status result)) t (Result result)));
  mret tt.

(** ** Polls and sockets *)

(** [GET /:id/commands]. *)
Definition poll_commands (deviceId : uuid) (role : Role) : Prog Reply :=
  l ← withSystemDbAccessContext (claimPendingCommandsForDevice deviceId 10 role);
  _ ← act (Push (ToPoll deviceId role) l);
  mret (Commands l).

(** [POST /:id/heartbeat]: the claim is one of many statements of a transaction; the answer is sent
    after its commit. *)
Definition heartbeat (deviceId : uuid) (role : Role) : Prog Reply :=
  l ← withDbAccessContext
        (_ ← act (OtherTable "devices");
         l ← claimPendingCommandsForDevice deviceId 10 role;
         _ ← act (OtherTable "agent_versions");
         mret l);
  _ ← act (Push (ToPoll deviceId role) l);
  mret (Commands l).

(** The commands for a socket that opens or sends a heartbeat ([routes/agentWs.ts]). *)
Definition ws_getPendingCommands (agentId : string) : Prog (list uuid) :=
  catch
    (device ← act (FindDeviceByAgent agentId);
     match device with
     | None => mret []
     | Some d => claimPendingCommandsForDevice d 10 for_agent
     end)
    (λ _, mret []).
Definition updateDeviceStatus : Prog unit := catch (act (OtherTable "devices")) (λ _, mret tt).

Definition ws_open (agentId : string) : Prog Reply :=
  l ← withDbAccessContext (_ ← updateDeviceStatus; ws_getPendingCommands agentId);
  _ ← act (Push (ToSocket agentId) l);
  mret (Commands l).
Definition ws_heartbeat (agentId : string) : Prog Reply :=
  catch
    (_ ← withDbAccessContext updateDeviceStatus;
     l ← withDbAccessContext (ws_getPendingCommands agentId);
     _ ← act (Push (ToSocket agentId) l);
     mret (Commands l))
    (λ _, mret (Refused "Failed to process message")).

(** ** Results *)

Section results.
Context `{ResultText}.

Definition accepts (deviceId : uuid) (role : Role) (r : DeviceCommand) : bool :=
  bool_decide (sp_deviceId (dc_spec r) = deviceId) && bool_decide (sp_targetRole (dc_spec r) = role) && is_open r.

(** The update that records a report. *)
Definition record_result (i deviceId : uuid) (role : Role) (type : string) (data : Report) : Prog bool :=
  t ← act Clock;
  let n := normalizeCriticalResultIfNeeded type data in
  act (Update i (accepts deviceId role)
         (settle (final_status (rp_status (nm_data n))) t
            (Result (buildStoredCommandResult (nm_data n) (nm_stdout n))))).

(** The handlers that [POST .../result] calls for a type, each in a [try] of its own. *)
Definition post_handlers (type : string) (st : ResultStatus) : list string :=
  (if has ["security_collect_status"; "security_scan"; "security_threat_quarantine";
           "security_threat_remove"; "security_threat_restore"] type
   then ["handleSecurityCommandResult"] else []) ++
  (if String.eqb type "filesystem_analysis" then ["handleFilesystemAnalysisCommandResult"] else []) ++
  (if has ["sensitive_data_scan"; "encrypt_file"; "secure_delete_file"; "quarantine_file"] type
   then ["handleSensitiveDataCommandResult"] else []) ++
  (if String.eqb type "software_uninstall" then ["handleSoftwareRemediationCommandResult"] else []) ++
  (if String.eqb type "collect_audit_policy" && bool_decide (st = rs_completed)
   then ["processCollectedAuditPolicyCommandResult"] else []).
Definition late_handlers (type : string) : list string :=
  (if has ["cis_benchmark"; "apply_cis_remediation"] type then ["handleCisCommandResult"] else []) ++
  (if has ["backup_verify"; "backup_test_restore"] type then ["processBackupVerificationResult"] else []) ++
  (if has ["backup_restore"; "bmr_recover"; "vm_restore_from_backup"; "vm_instant_boot"] type
   then ["updateRestoreJobByCommandId"] else []) ++
  (if String.eqb type "vault_sync" then ["applyVaultSyncCommandResult"] else []).

Fixpoint run_handlers (l : list string) (i : uuid) : Prog unit :=
  match l with
  | [] => mret tt
  | h :: l' => _ ← act (Note (Handled h i)); run_handlers l' i
  end.

Definition drExecutionId (payload : json) : option string := as_string (field "drExecutionId" payload).

(** The result of a disaster recovery step: its handler and the queue, in one [try] after a request
    and in two after a message. *)
Definition enqueueDrExecutionReconcile (id : string) : Prog unit := act (Enqueue ("dr-execution-reconcile:" +:+ id)).
Definition post_dr (i : uuid) (id : string) : Prog unit :=
  catch (_ ← act (Note (Handled "handleDrCommandResult" i)); enqueueDrExecutionReconcile id)
        (λ e, act (Note (Captured e))).
Definition ws_dr (i : uuid) (id : string) : Prog unit :=
  _ ← act (Note (Handled "handleDrCommandResult" i));
  catch (enqueueDrExecutionReconcile id) (λ e, act (Note (Captured e))).

(** After [apply_audit_policy_baseline] the policy is collected again. *)
Definition collect_again (deviceId : uuid) : Prog unit :=
  catch
    (result ← withSystemDbAccessContext
       (queueCommandForExecution (λ _, true) deviceId "collect_audit_policy" (JObj []) None false None);
     match result with
     | inl e => act (Note (Captured e))
     | inr _ => mret tt
     end)
    (λ e, act (Note (Captured e))).

Definition result_audit : Prog Reply := catch (_ ← act (OtherTable "audit_logs"); mret Done) (λ _, mret Done).

(** [POST /:id/commands/:commandId/result] for an id of the table. *)
Definition post_result (deviceId : uuid) (role : Role) (i : uuid) (data : Report) : Prog Reply :=
  _ ← act (Note (Reported i deviceId role data));
  command ← act (Select i (λ r, bool_decide (sp_deviceId (dc_spec r) = deviceId)));
  match command with
  | None => mret (Http 404)
  | Some r =>
      let type := sp_type (dc_spec r) in
      if negb (bool_decide (sp_targetRole (dc_spec r) = role)) then mret (Http 403)
      else if negb (is_open r) then mret (Http 200)
      else
        let n := normalizeCriticalResultIfNeeded type data in
        updated ← record_result i deviceId role type data;
        if negb updated then mret (Http 200)
        else match nm_validationError n with
             | Some _ => mret (Http 200)
             | None =>
                 let st := rp_status (nm_data n) in
                 _ ← run_handlers (post_handlers type st) i;
                 _ ← (if String.eqb type "apply_audit_policy_baseline" && bool_decide (st = rs_completed)
                      then collect_again deviceId else mret tt);
                 _ ← run_handlers (late_handlers type) i;
                 _ ← (if has DR_COMMAND_TYPES type then
                        match drExecutionId (sp_payload (dc_spec r)) with
                        | Some id => post_dr i id
                        | None => mret tt
                        end
                      else mret tt);
                 _ ← fork result_audit;
                 mret (Http 200)
             end
  end.

Definition commandResultHandlers : list string :=
  ["network_discovery"; "backup_verify"; "backup_test_restore"; "backup_restore"; "vm_restore_from_backup";
   "vm_instant_boot"; "bmr_recover"; "hyperv_backup"; "mssql_backup"; "vault_sync"; "snmp_poll"; "script";
   "sensitive_data_scan"; "encrypt_file"; "secure_delete_file"; "quarantine_file"; "cis_benchmark";
   "apply_cis_remediation"].

(** A [command_result] message on the socket of a device ([processCommandResult]). *)
Definition processCommandResult (deviceId : uuid) (i : uuid) (data : Report) : Prog Reply :=
  _ ← act (Note (Reported i deviceId for_agent data));
  catch
    (command ← act (Select i (accepts deviceId for_agent));
     match command with
     | None => _ ← act (Note (Handled "processOrphanedCommandResult" i)); mret Done
     | Some r =>
         let type := sp_type (dc_spec r) in
         let n := normalizeCriticalResultIfNeeded type data in
         updated ← record_result i deviceId for_agent type data;
         if negb updated then mret Done
         else match nm_validationError n with
              | Some _ => mret Done
              | None =>
                  _ ← (if has DR_COMMAND_TYPES type then
                         match drExecutionId (sp_payload (dc_spec r)) with
                         | Some id => ws_dr i id
                         | None => mret tt
                         end
                       else mret tt);
                  _ ← (if has commandResultHandlers type then act (Note (Handled type i)) else mret tt);
                  mret Done
              end
     end)
    (λ e, _ ← act (Note (Captured e)); mret Done).

End results.

(** ** Timeouts and cancellations *)

Definition SHORTEST_TIMEOUT_MS : Z := 5 * 60 * 1000.

Definition propagateTimedOutDeviceCommand (payload : json) : Prog unit :=
  _ ← act (OtherTable "restore_jobs");
  match drExecutionId payload with
  | Some id => if truthy (Some (trim id)) then enqueueDrExecutionReconcile id else mret tt
  | None => mret tt
  end.

(** [a < t] for a number of milliseconds. *)
Definition below (a : Z) (t : num) : bool :=
  match t with Some q => negb (Qle_bool q (inject_Z a)) | None => false end.

Definition reference_time (r : DeviceCommand) : Z :=
  match status_of r, pg_executedAt (dc_at r) with
  | sent, Some t => t
  | _, _ => sp_createdAt (dc_spec r)
  end.

Definition is_overdue (now : Z) (r : DeviceCommand) : bool :=
  negb (below (now - reference_time r) (getCommandTimeoutMs (sp_type (dc_spec r)) (sp_payload (dc_spec r)))).

Definition timeout_message (r : DeviceCommand) : string :=
  let t := getCommandTimeoutMs (sp_type (dc_spec r)) (sp_payload (dc_spec r)) in
  let minutes := match Math_round (ndiv t (nint 60000)) with Some z => print_Z z | None => "NaN" end in
  if decide (status_of r = sent)
  then "Server-side timeout: no response from agent after " +:+ minutes +:+ " minutes"
  else "Command expired: agent never received the command (" +:+ minutes +:+ " min timeout)".

Definition is_stale (now : Z) (r : DeviceCommand) : bool :=
  is_open r && (sp_createdAt (dc_spec r) <? now - SHORTEST_TIMEOUT_MS) &&
  negb (has EXCLUDED_COMMAND_TYPES (sp_type (dc_spec r))).

Fixpoint reap_each (now : Z) (l : list Row) : Prog nat :=
  match l with
  | [] => mret 0%nat
  | (i, r) :: l' =>
      if negb (is_overdue now r) then reap_each now l'
      else
        completedAt ← act Clock;
        updated ← act (Update i is_open
                         (settle failed completedAt (timed_out (timeout_message r) (Some "server"))));
        if negb updated then reap_each now l'
        else
          _ ← record_timeout (sp_type (dc_spec r)) "reaper";
          _ ← catch (propagateTimedOutDeviceCommand (sp_payload (dc_spec r))) (λ e, act (Note (Captured e)));
          n ← reap_each now l';
          mret (S n)
  end.

Definition reapStaleDeviceCommands (cap : nat) : Prog nat :=
  now ← act Clock;
  staleCommands ← act (SelectMany (is_stale now) cap);
  reap_each now staleCommands.

(** The job: one transaction; its failure is logged. *)
Definition reap_job (cap : nat) : Prog Reply :=
  catch (_ ← withSystemDbAccessContext (reapStaleDeviceCommands cap); mret Done)
        (λ e, _ ← act (Note (Captured e)); mret Done).

(** Cancelling a script execution cancels its command while it is pending ([routes/scripts.ts]). *)
Definition cancel_execution (deviceId : uuid) (executionId : string) (userId : uuid) : Prog Reply :=
  withDbAccessContext
    (_ ← act (OtherTable "script_executions");
     t ← act Clock;
     _ ← act (UpdateMany
               (λ r, bool_decide (sp_deviceId (dc_spec r) = deviceId) && in_status [pending] r &&
                     bool_decide (as_string (field "executionId" (sp_payload (dc_spec r))) = Some executionId))
               (settle cancelled t (CancelNote (Some userId) None)));
     mret Done).

(** Suspending a partner for abuse queues an uninstall for each of its devices and cancels their other
    commands ([routes/admin/abuse.ts]). *)
Fixpoint queue_uninstalls (deviceIds : list uuid) (callerId : uuid) : Prog unit :=
  match deviceIds with
  | [] => mret tt
  | d :: l =>
      _ ← act (Insert d "self_uninstall" (JObj [("removeConfig", JBool true)]) for_agent (Some callerId));
      queue_uninstalls l callerId
  end.
Definition suspend_devices (deviceIds : list uuid) (callerId : uuid) : Prog Reply :=
  withSystemDbAccessContext (db_transaction
    (_ ← act (OtherTable "partners");
     _ ← queue_uninstalls deviceIds callerId;
     t ← act Clock;
     _ ← act (UpdateMany
               (λ r, bool_decide (sp_deviceId (dc_spec r) ∈ deviceIds) &&
                     negb (String.eqb (sp_type (dc_spec r)) "self_uninstall") && is_open r)
               (settle cancelled t (CancelNote None (Some "partner_suspended_for_abuse"))));
     mret Done)).

Definition removeQueuedRestoreDispatch (commandId : uuid) : Prog bool :=
  act (Delete commandId (in_status [pending])).

Definition markVerificationCommandTimedOut (commandId : uuid) : Prog bool :=
  completedAt ← act Clock;
  withSystemDbAccessContext
    (act (Update commandId is_open
            (settle failed completedAt
               (timed_out "Verification timed out after 30 minutes" (Some "verification-timeout-check"))))).

(** [POST /devices/:id/commands]: the insertion; a pending inventory refresh refuses a second. *)
Definition queue_device_command (deviceId : uuid) (type : string) (payload : json) (userId : uuid) : Prog Reply :=
  withDbAccessContext
    (existing ← (if String.eqb type "refresh_inventory"
                 then act (SelectMany (λ r, bool_decide (sp_deviceId (dc_spec r) = deviceId) &&
                                            String.eqb (sp_type (dc_spec r)) "refresh_inventory" &&
                                            in_status [pending] r) 1)
                 else mret []);
     match existing with
     | _ :: _ => mret (Http 409)
     | [] =>
         command ← act (Insert deviceId type payload for_agent (Some userId));
         mret (Queued_as command.1 pending)
     end).

(** ** Histories *)

(** The programs that requests, jobs and messages start. *)
Definition told (r : string + uuid * CommandStatus) : Reply :=
  match r with inl e => Refused e | inr (i, st) => Queued_as i st end.

Inductive entry `{ResultText} : Prog Reply → Prop :=
| e_execute visible d ty pl o : entry (r ← executeCommand visible d ty pl o; mret (Answer r))
| e_queue d ty pl u : entry (command ← queueCommand d ty pl u; mret (Queued_as command.1 pending))
| e_request visible d ty pl u h o :       (* inside the transaction of a request or a job *)
    entry (withDbAccessContext (r ← queueCommandForExecution visible d ty pl u h o; mret (told r)))
| e_stop d u : entry (r ← queueBackupStopCommand d u; mret (told r))
| e_device_command d ty pl u : entry (queue_device_command d ty pl u)
| e_poll d r : entry (poll_commands d r)
| e_heartbeat d r : entry (heartbeat d r)
| e_ws_open a : entry (ws_open a)
| e_ws_heartbeat a : entry (ws_heartbeat a)
| e_post_result d r i data : entry (post_result d r i data)
| e_ws_result d i data : entry (processCommandResult d i data)
| e_reap cap : entry (reap_job cap)
| e_cancel d x u : entry (cancel_execution d x u)
| e_suspend ds u : entry (suspend_devices ds u)
| e_unqueue i : entry (_ ← removeQueuedRestoreDispatch i; mret Done)
| e_verification i : entry (_ ← markVerificationCommandTimedOut i; mret Done).

(** A device keeps its id, agent and organisation while its status changes. *)
Definition same_devices (m m' : gmap uuid Device) : Prop :=
  ∀ d dv, m !! d = Some dv → ∃ dv', m' !! d = Some dv' ∧ dv_agentId dv' = dv_agentId dv.

Inductive moves `{ResultText} : Config → Config → Prop :=
| m_step p ch c c' : step p ch c = Some c' → moves c c'
| m_start p prog c :
    cf_procs c !! p = None → entry prog →
    moves c (set_proc p {| pr_prog := prog; pr_conn := idle |} (cf_server c) c)
| m_crash p x c :                         (* its connections close *)
    cf_procs c !! p = Some x →
    moves c (set_proc p {| pr_prog := PThrow "terminated"; pr_conn := idle |} (cf_server c) c)
| m_world dv so t c :
    same_devices (sv_devices (cf_server c)) dv → sv_clock (cf_server c) <= t →
    moves c {| cf_server := set_world dv so t (cf_server c); cf_procs := cf_procs c |}.

(** The start of a history: no command yet. *)
Definition initial (dv : gmap uuid Device) (us : gset uuid) (t : Z) : Config :=
  {| cf_server := {| sv_commands := ∅; sv_devices := dv; sv_users := us; sv_sockets := ∅;
                     sv_clock := t; sv_next := 0; sv_log := [] |};
     cf_procs := ∅ |}.
