(* ===== verification/CommandLogic.v ===== *)
(** * Commands to devices: a logic for interleaved programs

    What a program may do next depends on what it has done: to hand over a command it must have claimed
    it.  A ghost state [Ghost] per process records that, [op_wp] gives the rule of each action and
    [wp] that of a program.  [SI] relates the table, the open transactions and the ghost states;
    the lemmas of this file show that it survives every elementary change. *)

From S2P Require Import Prelude JsNum Json CommandRules CommandMachine CommandQueue.

Open Scope Z_scope.

(** ** What is known of rows *)

Abbreviation settled r := (is_settled r = true).
Abbreviation is_pending r := (status_of r = pending).

Lemma settled_not_open r : settled r ↔ is_open r = false.
Proof.
  unfold is_settled, is_open, in_status. rewrite bool_decide_eq_true, bool_decide_eq_false.
  destruct (status_of r); set_solver.
Qed.
Lemma pending_open r : is_pending r → is_open r = true.
Proof. unfold is_open, in_status. intros ->. done. Qed.
Lemma settled_not_pending r : settled r → ¬ is_pending r.
Proof. intros H%settled_not_open Hp%pending_open. congruence. Qed.
Lemma in_status_iff l r : in_status l r = true ↔ status_of r ∈ l.
Proof. unfold in_status. apply bool_decide_eq_true. Qed.

(** The commands that were handed over. *)
Definition delivered_of (e : Event) : option uuid := match e with Delivered i _ => Some i | _ => None end.
Definition delivered (s : Server) : list uuid := omap delivered_of (sv_log s).

Abbreviation Frames := (nat → list Overlay).
Definition topf (l : list Overlay) : Overlay := match l with f :: _ => f | [] => ∅ end.
Abbreviation locked l i := (is_Some (topf l !! i)).

(** A version of row [i] in an open transaction. *)
Definition in_flight (fr : Frames) (i : uuid) (r : DeviceCommand) : Prop :=
  ∃ p f, f ∈ fr p ∧ f !! i = Some (Some r).

(** Whoever sees the inner version of a row holds the lock of its outer ones. *)
Fixpoint nested (l : list Overlay) : Prop :=
  match l with
  | [] => True
  | f :: l' => (∀ f' i, f' ∈ l' → is_Some (f' !! i) → is_Some (f !! i)) ∧ nested l'
  end.

Section logic.
Context `{ResultText}.

Record row_ok (s : Server) (i : uuid) (r : DeviceCommand) : Prop := {
  ro_queued : Queued i (dc_spec r) ∈ sv_log s;
  ro_result : settled r → is_Some (pg_result (dc_at r));
  ro_completed : status_of r = completed → ∃ data,
    Reported i (sp_deviceId (dc_spec r)) (sp_targetRole (dc_spec r)) data ∈ sv_log s ∧
    rp_status data = rs_completed ∧
    pg_result (dc_at r) = Some (Result (stored_result (sp_type (dc_spec r)) data)) }.

(** A version in a transaction keeps a row that is settled. *)
Record entry_ok (s : Server) (i : uuid) (v : option DeviceCommand) : Prop := {
  en_settled r : sv_commands s !! i = Some r → settled r → v = Some r;
  en_row r : v = Some r → row_ok s i r;
  en_issued : (i < sv_next s)%nat }.

(** ** Ghost states *)

Inductive Fact :=
| Is_queued (i : uuid) (s : Spec)
| Has_agent (d : uuid) (a : string)
| Was_reported (i d : uuid) (r : Role) (data : Report)
| Is_settled (i : uuid) (r : DeviceCommand)
| Is_born (i : uuid)
| Is_closed (i : uuid).

(** A row that was committed once does not come back after it was deleted. *)
Definition born (s : Server) (fr : Frames) (i : uuid) : Prop :=
  (i < sv_next s)%nat ∧ (sv_commands s !! i = None → ∀ r, ¬ in_flight fr i r).

Definition holds (s : Server) (fr : Frames) (f : Fact) : Prop :=
  match f with
  | Is_queued i sp => Queued i sp ∈ sv_log s
  | Has_agent d a => ∃ dv, sv_devices s !! d = Some dv ∧ dv_agentId dv = a
  | Was_reported i d r data => Reported i d r data ∈ sv_log s
  | Is_settled i r => sv_commands s !! i = Some r ∧ settled r
  | Is_born i => born s fr i
  | Is_closed i => born s fr i ∧ ∀ r, sv_commands s !! i = Some r → settled r
  end.

(** [g_held]: claims this process may hand over or give back; [g_claimed]: claims of its open
    transaction, which become usable at the commit; [g_own]: rows it inserted in the
    transaction; [g_closing]: rows that will be settled once it commits. *)
Record Ghost := {
  g_depth : nat; g_own : gset uuid; g_held : gset uuid; g_claimed : gset uuid;
  g_closing : gset uuid; g_facts : list Fact }.
Definition no_ghost : Ghost :=
  {| g_depth := 0; g_own := ∅; g_held := ∅; g_claimed := ∅; g_closing := ∅; g_facts := [] |}.

Definition learn (l : list Fact) (g : Ghost) : Ghost :=
  {| g_depth := g_depth g; g_own := g_own g; g_held := g_held g; g_claimed := g_claimed g;
     g_closing := g_closing g; g_facts := l ++ g_facts g |}.
Definition with_tokens (h c : gset uuid) (g : Ghost) : Ghost :=
  {| g_depth := g_depth g; g_own := g_own g; g_held := h; g_claimed := c;
     g_closing := g_closing g; g_facts := g_facts g |}.
Definition with_tx (n : nat) (own cl : gset uuid) (g : Ghost) : Ghost :=
  {| g_depth := n; g_own := own; g_held := g_held g; g_claimed := g_claimed g;
     g_closing := cl; g_facts := g_facts g |}.

Definition drop (l : list uuid) (g : Ghost) : Ghost :=
  with_tokens (g_held g ∖ list_to_set l) (g_claimed g) g.

(** A claim succeeded: outside a transaction it counts at once, and for a row inserted in the
    outermost transaction too, as nobody else sees it. *)
Definition at_once (i : uuid) (g : Ghost) : Prop :=
  g_depth g = 0%nat ∨ (g_depth g = 1%nat ∧ i ∈ g_own g).
#[export] Instance at_once_dec i g : Decision (at_once i g).
Proof. unfold at_once. apply _. Defined.
Definition claim (i : uuid) (g : Ghost) : Ghost :=
  if decide (at_once i g) then with_tokens ({[i]} ∪ g_held g) (g_claimed g) g
  else with_tokens (g_held g) ({[i]} ∪ g_claimed g) g.

Definition closing (i : uuid) (g : Ghost) : Ghost :=
  match g_depth g with
  | O => learn [Is_closed i] g
  | S _ => with_tx (g_depth g) (g_own g) ({[i]} ∪ g_closing g) g
  end.

Definition opened (g : Ghost) : Ghost := with_tx (S (g_depth g)) (g_own g) (g_closing g) g.
Definition undone (g : Ghost) : Ghost := with_tokens (g_held g) ∅ (with_tx (pred (g_depth g)) ∅ ∅ g).
Definition closed (g : Ghost) : Ghost :=
  match g_depth g with
  | 1%nat =>
      learn ((Is_born <$> elements (g_own g)) ++ (Is_closed <$> elements (g_closing g)))
        (with_tokens (g_held g ∪ g_claimed g) ∅ (with_tx 0 ∅ ∅ g))
  | n => with_tx (pred n) (g_own g) (g_closing g) g
  end.

Definition saw (i : uuid) (r : DeviceCommand) (g : Ghost) : Ghost :=
  learn (Is_queued i (dc_spec r) :: match g_depth g with
                                    | O => if is_settled r then [Is_settled i r] else []
                                    | S _ => []
                                    end) g.
Definition saw_all (l : list Row) (g : Ghost) : Ghost := learn ((λ p, Is_queued p.1 (dc_spec p.2)) <$> l) g.
Definition inserted (i : uuid) (sp : Spec) (g : Ghost) : Ghost :=
  match g_depth g with
  | O => learn [Is_queued i sp; Is_born i] g
  | S _ => learn [Is_queued i sp] (with_tx (g_depth g) ({[i]} ∪ g_own g) (g_closing g) g)
  end.

(** ** Rules *)

Definition spec_known (i : uuid) (r : DeviceCommand) (g : Ghost) : Prop :=
  ∀ sp, Is_queued i sp ∈ g_facts g → dc_spec r = sp.

Definition claims (guard : DeviceCommand → bool) (f : Progress → Progress) : Prop :=
  ∀ r, guard r = true → is_pending r ∧ pg_status (f (dc_at r)) = sent.
Definition releases (guard : DeviceCommand → bool) (f : Progress → Progress) : Prop :=
  ∀ r, guard r = true → status_of r = sent ∧ pg_status (f (dc_at r)) = pending.
Definition settles (i : uuid) (g : Ghost) (guard : DeviceCommand → bool) (f : Progress → Progress) : Prop :=
  ∀ r, guard r = true → spec_known i r g →
    is_open r = true ∧ settled (advanced f r) ∧ is_Some (pg_result (f (dc_at r))) ∧
    (pg_status (f (dc_at r)) = completed → ∃ data,
       Was_reported i (sp_deviceId (dc_spec r)) (sp_targetRole (dc_spec r)) data ∈ g_facts g ∧
       rp_status data = rs_completed ∧
       pg_result (f (dc_at r)) = Some (Result (stored_result (sp_type (dc_spec r)) data))).
Definition cancels (guard : DeviceCommand → bool) (f : Progress → Progress) : Prop :=
  ∀ r, guard r = true →
    is_open r = true ∧ settled (advanced f r) ∧ is_Some (pg_result (f (dc_at r))) ∧
    pg_status (f (dc_at r)) ≠ completed.

(** [t] is where command [i] belongs. *)
Definition reaches (t : Target) (sp : Spec) (g : Ghost) : Prop :=
  match t with
  | ToSocket a => sp_targetRole sp = for_agent ∧ Has_agent (sp_deviceId sp) a ∈ g_facts g
  | ToPoll d r => sp_deviceId sp = d ∧ sp_targetRole sp = r
  end.
Definition addressed (i : uuid) (t : Target) (g : Ghost) : Prop :=
  ∃ sp, Is_queued i sp ∈ g_facts g ∧ reaches t sp g.

Definition noted (e : Event) (g : Ghost) : Ghost :=
  match e with Reported i d r data => learn [Was_reported i d r data] g | _ => g end.
Definition plain (e : Event) : Prop := match e with Queued _ _ | Delivered _ _ => False | _ => True end.

Definition op_wp {A} (o : Op A) : Ghost → (outcome string A → Ghost → Prop) → Prop :=
  match o in Op A return Ghost → (outcome string A → Ghost → Prop) → Prop with
  | Clock => λ g Φ, ∀ t, Φ (Ok t) g
  | SleepUntil _ => λ g Φ, Φ (Ok tt) g
  | InTx => λ g Φ, Φ (Ok (match g_depth g with O => false | S _ => true end)) g
  | Connected _ => λ g Φ, ∀ b, Φ (Ok b) g
  | Send a i => λ g Φ,
      i ∈ g_held g ∧ addressed i (ToSocket a) g ∧ Φ (Ok true) (drop [i] g) ∧ Φ (Ok false) g
  | Push t l => λ g Φ,
      NoDup l ∧ (∀ i, i ∈ l → i ∈ g_held g ∧ addressed i t g) ∧ Φ (Ok tt) (drop l g) ∧ (∀ e, Φ (Throw e) g)
  | Note e => λ g Φ, plain e ∧ Φ (Ok tt) (noted e g)
  | FindDevice visible d => λ g Φ,
      (∀ dv, visible (dv_orgId dv) = true → Φ (Ok (Some dv)) (learn [Has_agent d (dv_agentId dv)] g)) ∧
      Φ (Ok None) g ∧ (∀ e, Φ (Throw e) g)
  | FindDeviceByAgent a => λ g Φ,
      (∀ d, Φ (Ok (Some d)) (learn [Has_agent d a] g)) ∧ Φ (Ok None) g ∧ (∀ e, Φ (Throw e) g)
  | Insert d ty pl ro u => λ g Φ,
      (∀ i r, dc_spec r = {| sp_deviceId := d; sp_type := ty; sp_payload := pl; sp_targetRole := ro;
                             sp_createdBy := u; sp_createdAt := sp_createdAt (dc_spec r) |} →
              Φ (Ok (i, r)) (inserted i (dc_spec r) g)) ∧
      (∀ e, Φ (Throw e) g)
  | Update i guard f => λ g Φ,
      (claims guard f ∧ Φ (Ok true) (claim i g) ∧ Φ (Ok false) g ∧ (∀ e, Φ (Throw e) g)) ∨
      (i ∈ g_held g ∧ releases guard f ∧
       (∀ b, Φ (Ok b) (drop [i] g)) ∧ (∀ e, Φ (Throw e) (drop [i] g))) ∨
      (settles i g guard f ∧ (∀ e, Φ (Throw e) g) ∧
       ((∀ b, Φ (Ok b) g) ∨
        (Is_born i ∈ g_facts g ∧ (∀ r, is_open r = true → guard r = true) ∧ ∀ b, Φ (Ok b) (closing i g))))
  | UpdateMany guard f => λ g Φ, cancels guard f ∧ (∀ n, Φ (Ok n) g) ∧ (∀ e, Φ (Throw e) g)
  | Delete i guard => λ g Φ,
      (∀ r, guard r = true → is_pending r) ∧ (∀ b, Φ (Ok b) g) ∧ (∀ e, Φ (Throw e) g)
  | Select i guard => λ g Φ,
      (∀ r, guard r = true → spec_known i r g →
            (Is_closed i ∈ g_facts g → settled r) → (settled r → is_Some (pg_result (dc_at r))) →
            Φ (Ok (Some r)) (saw i r g)) ∧
      Φ (Ok None) g ∧ (∀ e, Φ (Throw e) g)
  | SelectMany guard _ => λ g Φ,
      (∀ l, Forall (λ p, guard p.2 = true) l → Φ (Ok l) (saw_all l g)) ∧ (∀ e, Φ (Throw e) g)
  | SelectForUpdate guard _ => λ g Φ,
      g_depth g ≠ 0%nat ∧
      (∀ l, NoDup l.*1 → Forall (λ p, guard p.2 = true) l → Φ (Ok l) (saw_all l g)) ∧ (∀ e, Φ (Throw e) g)
  | OtherTable _ | Enqueue _ => λ g Φ, Φ (Ok tt) g ∧ (∀ e, Φ (Throw e) g)
  | Open => λ g Φ, Φ (Ok tt) (opened g) ∧ (∀ e, Φ (Throw e) g)
  | Close => λ g Φ,
      g_depth g ≠ 0%nat ∧ Φ (Ok tt) (closed g) ∧ (∀ e, Φ (Throw e) (undone g))
  | Undo => λ g Φ, Φ (Ok tt) (undone g)
  end.

Fixpoint wp {A} (m : Prog A) (g : Ghost) (Q : A → Ghost → Prop) (X : Ghost → Prop) : Prop :=
  match m with
  | PRet a => Q a g
  | PThrow _ => X g
  | PAct o k => op_wp o g (λ r g', wp (k r) g' Q X)
  | PFork p k => wp p no_ghost (λ _ _, True) (λ _, True) ∧ wp k g Q X
  | PLoop s body k =>
      ∃ I : _ → Ghost → Prop, I s g ∧
        ∀ s g, I s g →
          wp (body s) g (λ r g', match r with inl s' => I s' g' | inr x => wp (k x) g' Q X end) X
  end.

Lemma op_wp_mono {A} (o : Op A) g (Φ Ψ : outcome string A → Ghost → Prop) :
  (∀ r g', Φ r g' → Ψ r g') → op_wp o g Φ → op_wp o g Ψ.
Proof.
  intros HΦ. destruct o; simpl; naive_solver.
Qed.

Lemma wp_mono {A} (m : Prog A) g (Q Q' : A → Ghost → Prop) (X X' : Ghost → Prop) :
  (∀ a g, Q a g → Q' a g) → (∀ g, X g → X' g) → wp m g Q X → wp m g Q' X'.
Proof.
  intros HQ HX. revert g Q Q' X X' HQ HX.
  induction m as [A a|A e|A Y o k IH|A p IHp k IHk|A S Y s body IHb k IHk]; simpl; intros g Q Q' X X' HQ HX.
  - apply HQ.
  - apply HX.
  - apply op_wp_mono. intros r g'. by apply IH.
  - intros [? ?]. split; [done|]. eapply IHk; eauto.
  - intros (I & HI & Hb). exists I. split; [done|]. intros s' g' Hs. refine (IHb s' g' _ _ _ _ _ HX (Hb s' g' Hs)).
    intros [s''|x] g''; [done|]. by apply IHk.
Qed.

Lemma wp_handle {A B} (m : Prog A) (f : A → Prog B) (hd : string → Prog B) g
    (Q1 : A → Ghost → Prop) (X1 : Ghost → Prop) (Q : B → Ghost → Prop) (X : Ghost → Prop) :
  wp m g Q1 X1 → (∀ a g, Q1 a g → wp (f a) g Q X) → (∀ e g, X1 g → wp (hd e) g Q X) →
  wp (handle m f hd) g Q X.
Proof.
  intros Hm Hf Hh. revert B f hd g Q1 X1 Q X Hm Hf Hh.
  induction m as [A a|A e|A Y o k IH|A p IHp k IHk|A S Y s body IHb k IHk];
    simpl; intros B f hd g Q1 X1 Q X Hm Hf Hh.
  - by apply Hf.
  - by apply Hh.
  - eapply op_wp_mono; [|exact Hm]. intros r g' Hr. exact (IH r B f hd g' Q1 X1 Q X Hr Hf Hh).
  - destruct Hm as [? Hk]. split; [done|]. exact (IHk B f hd g Q1 X1 Q X Hk Hf Hh).
  - destruct Hm as (I & HI & Hb). exists I. split; [done|]. intros s' g' Hs.
    refine (IHb s' _ _ _ g' _ _ _ _ (Hb s' g' Hs) _ _).
    + intros [s''|x] g'' Hr; simpl; [done|]. exact (IHk x B f hd g'' Q1 X1 Q X Hr Hf Hh).
    + intros e g''. simpl. apply Hh.
Qed.

Lemma wp_bind {A B} (m : Prog A) (f : A → Prog B) g (Q1 : A → Ghost → Prop) Q X :
  wp m g Q1 X → (∀ a g, Q1 a g → wp (f a) g Q X) → wp (m ≫= f) g Q X.
Proof. intros Hm Hf. eapply wp_handle; [exact Hm | done | done]. Qed.

(** What an unrolled loop has to satisfy. *)
Lemma wp_unroll {A S Y} (s : S) (body : S → Prog (S + Y)) (k : Y → Prog A) g Q X :
  wp (PLoop s body k) g Q X →
  wp (handle (body s) (λ r, match r with inl s' => PLoop s' body k | inr a => k a end) PThrow) g Q X.
Proof.
  intros (I & HI & Hb). eapply wp_handle; [by apply Hb| |done].
  intros [s'|x] g'; simpl; [|done]. intros Hs. by exists I.
Qed.

End logic.
