(* ===== verification/CommandStore.v ===== *)
(** * Commands to devices: the invariant of the table

    [SI s fr gs]: the server [s], the open transactions [fr] and the ghost states [gs] of all
    processes fit together.  Each lemma takes it across one elementary change; [grows] is what
    such a change leaves as it was. *)

From stdpp Require Import functions.
From S2P Require Import Prelude JsNum Json CommandRules CommandMachine CommandQueue CommandLogic.

Open Scope Z_scope.

(** Split on whether a process is the one whose entry was replaced. *)
Ltac at_proc q p :=
  destruct (decide (p = q)) as [<-|?];
  [rewrite ?fn_lookup_insert in * | rewrite ?(fn_lookup_insert_ne _ p q) in * by done].

Section store.
Context `{ResultText}.

Abbreviation Ghosts := (nat → Ghost).

(** No process has claimed [i]. *)
Definition unheld (gs : Ghosts) (i : uuid) : Prop := ∀ p, i ∉ g_held (gs p).
(** No other process has claimed [i], also in an open transaction. *)
Definition sole (gs : Ghosts) (p : nat) (i : uuid) : Prop :=
  ∀ q, q ≠ p → i ∉ g_held (gs q) ∪ g_claimed (gs q).

Record SI (s : Server) (fr : Frames) (gs : Ghosts) : Prop := {
  si_depth p : length (fr p) = g_depth (gs p);
  si_idle p : g_depth (gs p) = 0%nat → g_own (gs p) = ∅ ∧ g_claimed (gs p) = ∅ ∧ g_closing (gs p) = ∅;
  si_nested p : nested (fr p);
  si_locks p q i : p ≠ q → locked (fr p) i → ¬ locked (fr q) i;
  si_commands i r : sv_commands s !! i = Some r → row_ok s i r;
  si_frames p f i v : f ∈ fr p → f !! i = Some v → entry_ok s i v;
  si_queued i sp : Queued i sp ∈ sv_log s →
    (i < sv_next s)%nat ∧ ∀ sp', Queued i sp' ∈ sv_log s → sp' = sp;
  si_once : NoDup (delivered s);
  si_known i t : Delivered i t ∈ sv_log s → ∃ sp, Queued i sp ∈ sv_log s ∧
    match t with
    | ToSocket a => sp_targetRole sp = for_agent ∧
        ∃ dv, sv_devices s !! sp_deviceId sp = Some dv ∧ dv_agentId dv = a
    | ToPoll d r => sp_deviceId sp = d ∧ sp_targetRole sp = r
    end;
  si_free i r : sv_commands s !! i = Some r ∨ in_flight fr i r → is_pending r → (i ∉ delivered s) ∧ unheld gs i;
  si_held p i : i ∈ g_held (gs p) ∪ g_claimed (gs p) → (i ∉ delivered s) ∧ sole gs p i;
  si_issued p i : i ∈ g_held (gs p) ∪ g_claimed (gs p) → (i < sv_next s)%nat;
  si_claimed p i : i ∈ g_claimed (gs p) →
    (i ∉ g_held (gs p)) ∧ ∃ v, topf (fr p) !! i = Some v ∧ ∀ r, v = Some r → ¬ is_pending r;
  si_own p i : i ∈ g_own (gs p) → (i < sv_next s)%nat ∧ sv_commands s !! i = None ∧ locked (fr p) i;
  si_closing p i : i ∈ g_closing (gs p) →
    born s fr i ∧ ∀ r, laid (topf (fr p)) (sv_commands s) !! i = Some r → settled r;
  si_facts p f : f ∈ g_facts (gs p) → holds s fr f }.

(** What every change keeps. *)
Record grows (s : Server) (fr : Frames) (s' : Server) (fr' : Frames) : Prop := {
  gr_log e : e ∈ sv_log s → e ∈ sv_log s';
  gr_next : (sv_next s <= sv_next s')%nat;
  gr_agents d dv : sv_devices s !! d = Some dv →
    ∃ dv', sv_devices s' !! d = Some dv' ∧ dv_agentId dv' = dv_agentId dv;
  gr_settled i r : sv_commands s !! i = Some r → settled r → sv_commands s' !! i = Some r;
  gr_born i : born s fr i → born s' fr' i;
  gr_gone i : born s fr i → sv_commands s !! i = None → sv_commands s' !! i = None }.

Lemma grows_refl s fr : grows s fr s fr.
Proof. split; naive_solver. Qed.
Lemma grows_holds s fr s' fr' f : grows s fr s' fr' → holds s fr f → holds s' fr' f.
Proof.
  intros G. destruct f; simpl; [apply G|..].
  - intros (dv & Hd & <-). by apply G.
  - apply G.
  - intros [? ?]. split; [|done]. by apply (gr_settled _ _ _ _ G).
  - apply G.
  - intros [Hb Hs]. split; [by apply G|]. intros r Hr.
    destruct (sv_commands s !! i) as [r0|] eqn:E.
    + pose proof (gr_settled _ _ _ _ G _ _ E (Hs _ eq_refl)). simplify_eq. by apply Hs.
    + pose proof (gr_gone _ _ _ _ G _ Hb E). congruence.
Qed.
Lemma grows_row s fr s' fr' i r : grows s fr s' fr' → row_ok s i r → row_ok s' i r.
Proof.
  intros G [Hq Hr Hc]. split; [by apply G | done|].
  intros Hs. destruct (Hc Hs) as (data & ? & ?). exists data. split; [by apply G | done].
Qed.

Lemma laid_lookup (o : Overlay) m i :
  laid o m !! i = match o !! i with Some v => v | None => m !! i end.
Proof. unfold laid. rewrite lookup_merge. by destruct (o !! i), (m !! i). Qed.

Lemma topf_in l i v : topf l !! i = Some v → ∃ f, f ∈ l ∧ f !! i = Some v.
Proof. destruct l as [|f l]; [done|]. intros E. exists f. split; [by left | done]. Qed.
Lemma nested_top l f i : nested l → f ∈ l → is_Some (f !! i) → locked l i.
Proof.
  destruct l as [|f0 l]; [intros _ []%elem_of_nil|]. intros [Hn _] [->|Hf]%elem_of_cons; [done|].
  by apply Hn.
Qed.

(** What a process sees of a row fits the invariant. *)
Lemma visible_row s fr gs p i r :
  SI s fr gs → laid (topf (fr p)) (sv_commands s) !! i = Some r →
  row_ok s i r ∧ (sv_commands s !! i = Some r ∨ in_flight fr i r).
Proof.
  intros S. rewrite laid_lookup. destruct (topf (fr p) !! i) as [v|] eqn:E.
  - intros ->. destruct (topf_in _ _ _ E) as (f & Hf & Ef). split.
    + by apply (en_row _ _ _ (si_frames _ _ _ S _ _ _ _ Hf Ef)).
    + right. by exists p, f.
  - intros Hr. split; [by apply S | by left].
Qed.

Lemma visible_closed s fr gs p i r :
  SI s fr gs → laid (topf (fr p)) (sv_commands s) !! i = Some r →
  Is_closed i ∈ g_facts (gs p) → settled r.
Proof.
  intros S Hr Hc. destruct (si_facts _ _ _ S _ _ Hc) as [[_ Hb] Hs].
  rewrite laid_lookup in Hr. destruct (topf (fr p) !! i) as [v|] eqn:E; [|by apply Hs]. subst v.
  destruct (topf_in _ _ _ E) as (f & Hf & Ef).
  destruct (sv_commands s !! i) as [r0|] eqn:E0.
  - pose proof (en_settled _ _ _ (si_frames _ _ _ S _ _ _ _ Hf Ef) _ E0 (Hs _ eq_refl)). naive_solver.
  - exfalso. eapply Hb; [done|]. by exists p, f.
Qed.

(** Two rows of one id have one specification. *)
Lemma row_spec s fr gs i r sp : SI s fr gs → row_ok s i r → Queued i sp ∈ sv_log s → dc_spec r = sp.
Proof. intros S [Hq _ _] Hs. by apply (si_queued _ _ _ S _ _ Hs). Qed.
Lemma row_known s fr gs p i r : SI s fr gs → row_ok s i r → spec_known i r (gs p).
Proof. intros S Hr sp Hf. eapply row_spec; [done..|]. by apply (si_facts _ _ _ S _ _ Hf). Qed.

(** *** Ghost states *)

(** The invariant looks at processes one by one. *)
Lemma SI_ext s fr fr' gs gs' :
  (∀ q, fr' q = fr q) → (∀ q, gs' q = gs q) → SI s fr gs → SI s fr' gs'.
Proof.
  intros Ef Eg S.
  assert (∀ i r, in_flight fr' i r ↔ in_flight fr i r) as Hf.
  { intros i r. split; intros (q & f & Hq & Hr); exists q, f; rewrite ?Ef in *; by rewrite ?Ef. }
  assert (∀ i, born s fr i ↔ born s fr' i) as Hb by (intros i; unfold born; by setoid_rewrite Hf).
  split; try apply S; unfold unheld, sole; intros *; rewrite ?Ef, ?Eg; try apply S.
  - rewrite Hf. intros Hi Hr. destruct (si_free _ _ _ S _ _ Hi Hr) as [? Hu]. split; [done|]. intros q. rewrite Eg. apply Hu.
  - intros Hi. destruct (si_held _ _ _ S _ _ Hi) as [? Hu]. split; [done|]. intros q. rewrite Eg. apply Hu.
  - rewrite <- Hb. apply S.
  - intros Hi. pose proof (si_facts _ _ _ S _ _ Hi). destruct f; simpl in *; rewrite <- ?Hb; done.
Qed.

(** Forget tokens and learn facts that hold. *)
Lemma SI_ghost s fr gs p g :
  SI s fr gs → g_depth g = g_depth (gs p) →
  g_own g ⊆ g_own (gs p) → g_held g ⊆ g_held (gs p) → g_claimed g ⊆ g_claimed (gs p) →
  g_closing g ⊆ g_closing (gs p) → (∀ f, f ∈ g_facts g → f ∈ g_facts (gs p) ∨ holds s fr f) →
  SI s fr (<[p := g]> gs).
Proof.
  intros S Ed Ho Hh Hc Hcl Hf.
  assert (∀ q, g_held (<[p:=g]> gs q) ⊆ g_held (gs q)) as Hh' by (intros q; by at_proc q p).
  assert (∀ q, g_claimed (<[p:=g]> gs q) ⊆ g_claimed (gs q)) as Hc' by (intros q; by at_proc q p).
  split; try apply S.
  - intros q. at_proc q p; [rewrite Ed|]; apply S.
  - intros q. at_proc q p; [|apply S]. intros E.
    destruct (si_idle _ _ _ S p) as (E1 & E2 & E3); [congruence|]. set_solver.
  - intros i r H1 H2. destruct (si_free _ _ _ S _ _ H1 H2) as [? Hu]. split; [done|].
    intros q Hq. apply (Hu q). set_solver.
  - intros q i Hi. destruct (si_held _ _ _ S q i) as [? Hs]; [set_solver|]. split; [done|].
    intros q' Hq' Hi'. apply (Hs q' Hq'). set_solver.
  - intros q i Hi. apply (si_issued _ _ _ S q). set_solver.
  - intros q i Hi. destruct (si_claimed _ _ _ S q i) as [? ?]; [set_solver|]. split; [set_solver|done].
  - intros q i Hi. apply (si_own _ _ _ S q). at_proc q p; set_solver.
  - intros q i Hi. apply (si_closing _ _ _ S q). at_proc q p; set_solver.
  - intros q f Hi. at_proc q p; [|by apply (si_facts _ _ _ S q)].
    destruct (Hf f Hi) as [?|?]; [by apply (si_facts _ _ _ S p)|done].
Qed.

Lemma SI_reghost s fr gs p g0 g :
  SI s fr (<[p := g0]> gs) → g_depth g = g_depth g0 →
  g_own g ⊆ g_own g0 → g_held g ⊆ g_held g0 → g_claimed g ⊆ g_claimed g0 →
  g_closing g ⊆ g_closing g0 → (∀ f, f ∈ g_facts g → f ∈ g_facts g0 ∨ holds s fr f) →
  SI s fr (<[p := g]> gs).
Proof.
  intros S. intros. apply (SI_ext _ fr _ (<[p := g]> (<[p := g0]> gs))); [done| |].
  - intros q. by at_proc q p.
  - apply SI_ghost; rewrite ?fn_lookup_insert; done.
Qed.

(** Add tokens: [i] to the claims that count ([h = true]), or to those of the transaction. *)
Definition add_token (h : bool) (i : uuid) (g : Ghost) : Ghost :=
  if h then with_tokens ({[i]} ∪ g_held g) (g_claimed g) g
  else with_tokens (g_held g) ({[i]} ∪ g_claimed g) g.

Lemma SI_token s fr gs p i h :
  SI s fr gs → (i < sv_next s)%nat → i ∉ delivered s → unheld gs i → (∀ q, i ∉ g_claimed (gs q)) →
  (if h : bool then ∀ r, sv_commands s !! i = Some r ∨ in_flight fr i r → ¬ is_pending r
   else g_depth (gs p) ≠ 0%nat ∧ ∃ v, topf (fr p) !! i = Some v ∧ ∀ r, v = Some r → ¬ is_pending r) →
  SI s fr (<[p := add_token h i (gs p)]> gs).
Proof.
  intros S Hi Hd Hu Hc Hp.
  assert (∀ q j, j ∈ g_held (<[p:=add_token h i (gs p)]> gs q) →
            (q = p ∧ j = i ∧ h = true) ∨ j ∈ g_held (gs q)) as Hh.
  { intros q j. at_proc q p; [|auto]. destruct h; simpl; set_solver. }
  assert (∀ q j, j ∈ g_claimed (<[p:=add_token h i (gs p)]> gs q) →
            (q = p ∧ j = i ∧ h = false) ∨ j ∈ g_claimed (gs q)) as Hc'.
  { intros q j. at_proc q p; [|auto]. destruct h; simpl; set_solver. }
  assert (∀ q j, j ∈ g_held (<[p:=add_token h i (gs p)]> gs q) ∪ g_claimed (<[p:=add_token h i (gs p)]> gs q) →
            (q = p ∧ j = i) ∨ j ∈ g_held (gs q) ∪ g_claimed (gs q)) as Hb.
  { intros q j [?%Hh|?%Hc']%elem_of_union; set_solver. }
  assert (∀ q, g_depth (<[p:=add_token h i (gs p)]> gs q) = g_depth (gs q) ∧
                 g_own (<[p:=add_token h i (gs p)]> gs q) = g_own (gs q) ∧
                 g_closing (<[p:=add_token h i (gs p)]> gs q) = g_closing (gs q) ∧
                 g_facts (<[p:=add_token h i (gs p)]> gs q) = g_facts (gs q)) as Hr.
  { intros q. at_proc q p; [by destruct h|done]. }
  split; try apply S.
  - intros q. destruct (Hr q) as (-> & _). apply S.
  - intros q. destruct (Hr q) as (-> & -> & -> & _). intros E.
    destruct (si_idle _ _ _ S q E) as (-> & E2 & ->). split_and!; [done| |done].
    apply set_eq. intros j. split; [|set_solver]. intros [(-> & -> & ->)|?]%Hc'; [naive_solver|set_solver].
  - intros j r Hj Hr'. destruct (si_free _ _ _ S _ _ Hj Hr') as [? Hu']. split; [done|]. intros q Hq.
    apply Hh in Hq as [(-> & -> & ->)|Hq]; [by eapply Hp|by eapply Hu'].
  - intros q j Hj. apply Hb in Hj as [[-> ->]|Hj].
    + split; [done|]. intros q' Hq'. rewrite fn_lookup_insert_ne by done.
      pose proof (Hu q'). pose proof (Hc q'). set_solver.
    + destruct (si_held _ _ _ S q j Hj) as [? Hs]. split; [done|]. intros q' Hq' [[-> ->]|Hj']%Hb.
      * pose proof (Hu q). pose proof (Hc q). set_solver.
      * by apply (Hs q').
  - intros q j [[-> ->]|?]%Hb; [done|by apply (si_issued _ _ _ S q)].
  - intros q j [(-> & -> & ->)|Hj]%Hc'.
    + split; [intros [(_ & _ & [=])|?]%Hh; by eapply Hu|]. apply Hp.
    + destruct (si_claimed _ _ _ S q j Hj) as [? ?]. split; [|done].
      intros [(-> & -> & _)|?]%Hh; [by apply (Hc p)|done].
  - intros q. destruct (Hr q) as (_ & -> & _). apply S.
  - intros q. destruct (Hr q) as (_ & _ & -> & _). apply S.
  - intros q. destruct (Hr q) as (_ & _ & _ & ->). apply S.
Qed.

Lemma SI_closing_row s fr gs p i :
  SI s fr gs → born s fr i → (∀ r, laid (topf (fr p)) (sv_commands s) !! i = Some r → settled r) →
  SI s fr (<[p := closing i (gs p)]> gs).
Proof.
  intros S Hb Hr. unfold closing. destruct (g_depth (gs p)) as [|n] eqn:Ed.
  - assert (fr p = []) as El by (apply length_zero_iff_nil; rewrite (si_depth _ _ _ S); done).
    rewrite El in Hr. apply SI_ghost; [done..|]. intros f [->|?]%elem_of_cons; [|by left]. right. split; [done|].
    intros r E. apply Hr. by rewrite laid_lookup.
  - set (g := with_tx _ _ _ _).
    assert (∀ q, g_held (<[p:=g]> gs q) = g_held (gs q)) as E1 by (intros q; by at_proc q p).
    assert (∀ q, g_claimed (<[p:=g]> gs q) = g_claimed (gs q)) as E2 by (intros q; by at_proc q p).
    split; try apply S; try (intros q; at_proc q p; apply S).
    + intros q. at_proc q p; [|apply S]. by rewrite (si_depth _ _ _ S).
    + intros q. at_proc q p; [done|apply S].
    + intros j r H1 H2. destruct (si_free _ _ _ S _ _ H1 H2) as [? Hu]. split; [done|]. intros q. rewrite E1. apply Hu.
    + intros q j. rewrite E1, E2. intros Hj. destruct (si_held _ _ _ S q j Hj) as [? Hs]. split; [done|].
      intros q' Hq'. rewrite E1, E2. by apply Hs.
    + intros q j. at_proc q p; [|apply S]. simpl. intros [->%elem_of_singleton|Hj]%elem_of_union; [done|by apply S].
Qed.

(** *** The server *)

Lemma plain_delivered (l : list Event) : Forall plain l → omap delivered_of l = [].
Proof. induction 1 as [|e l He Hl IH]; [done|]. csimpl. rewrite IH. by destruct e. Qed.

(** Events that are no insertion or delivery, devices and the clock. *)
Lemma SI_extend s s' fr gs l :
  SI s fr gs → sv_commands s' = sv_commands s → sv_next s' = sv_next s → sv_log s' = sv_log s ++ l →
  Forall plain l → same_devices (sv_devices s) (sv_devices s') →
  SI s' fr gs ∧ grows s fr s' fr.
Proof.
  intros S Ec En El Hl Hd.
  assert (grows s fr s' fr) as G.
  { split; unfold born; rewrite ?Ec, ?En, ?El; try done.
    intros e ?. apply elem_of_app. by left. }
  assert (∀ i sp, Queued i sp ∈ sv_log s' → Queued i sp ∈ sv_log s) as Hq.
  { intros i sp. rewrite El, elem_of_app. intros [?|Hin]; [done|]. by rewrite list.Forall_forall in Hl; apply Hl in Hin. }
  assert (delivered s' = delivered s) as Edl.
  { unfold delivered. by rewrite El, omap_app, (plain_delivered l Hl), app_nil_r. }
  split; [|done]. split; rewrite ?Ec, ?En, ?Edl; try apply S.
  - intros i r Hr. eapply grows_row; [done|by apply S].
  - intros p f i v Hf Hv. destruct (si_frames _ _ _ S _ _ _ _ Hf Hv) as [E1 E2 E3]. split.
    + intros r. rewrite Ec. apply E1.
    + intros r Hr. eapply grows_row; [done|by apply E2].
    + by rewrite En.
  - intros i sp Hi%Hq. destruct (si_queued _ _ _ S _ _ Hi) as [? Hu]. split; [done|]. intros sp' ?%Hq. by apply Hu.
  - intros i t. rewrite El, elem_of_app, <- El. intros [Hi|Hi].
    + destruct (si_known _ _ _ S _ _ Hi) as (sp & Hsp & Ht). exists sp. split; [by apply G|].
      destruct t; [|done]. destruct Ht as (? & dv & Hdv & <-). split; [done|].
      destruct (Hd _ _ Hdv) as (dv' & ? & ?). by exists dv'.
    + by rewrite list.Forall_forall in Hl; apply Hl in Hi.
  - intros p i Hi. destruct (si_closing _ _ _ S p i Hi) as [Hb Hs]. split; [by apply G|done].
  - intros p f Hf. eapply grows_holds; [done|]. by apply (si_facts _ _ _ S p).
Qed.

(** A command is handed over by the process that claimed it. *)
Lemma SI_deliver s fr gs p i t :
  SI s fr gs → i ∈ g_held (gs p) → addressed i t (gs p) →
  SI (logs [Delivered i t] s) fr (<[p := drop [i] (gs p)]> gs) ∧ grows s fr (logs [Delivered i t] s) fr.
Proof.
  intros S Hi (sp & Hsp & Ht). set (s' := logs _ s). set (g := drop _ _).
  destruct (si_held _ _ _ S p i) as [Hd Hs]; [set_solver|].
  assert (Queued i sp ∈ sv_log s) as Hq by apply (si_facts _ _ _ S _ _ Hsp).
  assert (grows s fr s' fr) as G.
  { split; try done; [|by eauto]. intros e ?. apply elem_of_app. by left. }
  assert (delivered s' = delivered s ++ [i]) as Edl by (unfold delivered; simpl; by rewrite omap_app).
  assert (∀ j sp, Queued j sp ∈ sv_log s' → Queued j sp ∈ sv_log s) as Hq'.
  { intros j sp'. simpl. rewrite elem_of_app, list_elem_of_singleton. by intros [?|?]. }
  assert (∀ q, g_held (<[p:=g]> gs q) ⊆ g_held (gs q) ∖ {[i]}) as Eh.
  { intros q. at_proc q p; [simpl; set_solver|]. pose proof (Hs q). set_solver. }
  assert (∀ q, g_claimed (<[p:=g]> gs q) = g_claimed (gs q)) as Ecl by (intros q; by at_proc q p).
  assert (∀ q, i ∉ g_claimed (gs q)) as Hnc.
  { intros q Hq0. destruct (decide (q = p)) as [->|Hne]; [|by apply (Hs q Hne); set_solver].
    by destruct (si_claimed _ _ _ S _ _ Hq0). }
  split; [|done]. split; try apply S; try (intros q; at_proc q p; apply S).
  - intros j r Hr. eapply grows_row; [done|by apply S].
  - intros q f j v Hf Hv. destruct (si_frames _ _ _ S _ _ _ _ Hf Hv) as [E1 E2 E3]. split; [apply E1| |done].
    intros r Hr. eapply grows_row; [done|by apply E2].
  - intros j sp' Hj%Hq'. destruct (si_queued _ _ _ S _ _ Hj) as [? Hu]. split; [done|]. intros ? ?%Hq'. by apply Hu.
  - rewrite Edl. apply list.NoDup_app. split_and!; [apply S|set_solver|apply NoDup_singleton].
  - intros j t'. simpl. rewrite elem_of_app, list_elem_of_singleton. intros [Hj|[= -> ->]].
    + destruct (si_known _ _ _ S _ _ Hj) as (sp' & ? & ?). exists sp'. split; [by apply G|done].
    + exists sp. split; [by apply G|]. destruct t; simpl in *; [|done]. destruct Ht as [? Ha]. split; [done|].
      apply (si_facts _ _ _ S _ _ Ha).
  - intros j r Hj Hr. destruct (si_free _ _ _ S _ _ Hj Hr) as [Hj' Hu].
    assert (j ≠ i) by (intros ->; by apply (Hu p)). rewrite Edl. split; [set_solver|].
    intros q Hq0. apply (Hu q). pose proof (Eh q). set_solver.
  - assert (∀ q j, j ∈ g_held (<[p:=g]> gs q) ∪ g_claimed (<[p:=g]> gs q) →
              j ≠ i ∧ j ∈ g_held (gs q) ∪ g_claimed (gs q)) as Hsub.
    { intros q j [Hj%Eh|Hj]%elem_of_union; [set_solver|]. rewrite Ecl in Hj.
      split; [intros ->; by apply (Hnc q)|set_solver]. }
    intros q j [Hne Hj]%Hsub. destruct (si_held _ _ _ S q j Hj) as [? Hs']. rewrite Edl. split; [set_solver|].
    intros q' Hq'' [_ Hj']%Hsub. by apply (Hs' q').
  - intros q j Hj. apply (si_issued _ _ _ S q). apply elem_of_union in Hj as [Hj%Eh|Hj]; [set_solver|].
    rewrite Ecl in Hj. set_solver.
  - intros q j. rewrite Ecl. intros Hj. destruct (si_claimed _ _ _ S q j Hj) as [? ?]. split; [intros ?%Eh; set_solver|done].
  - intros q f Hf. eapply grows_holds; [exact G|]. apply (si_facts _ _ _ S q). by at_proc q p.
Qed.

Lemma drop_cons i l g : drop l (drop [i] g) = drop (i :: l) g.
Proof. unfold drop, with_tokens; simpl. f_equal. set_solver. Qed.

Lemma grows_trans s1 f1 s2 f2 s3 f3 : grows s1 f1 s2 f2 → grows s2 f2 s3 f3 → grows s1 f1 s3 f3.
Proof.
  intros [L1 N1 A1 S1 B1 G1] [L2 N2 A2 S2 B2 G2]. split; auto; [lia|].
  intros d dv Hd. destruct (A1 _ _ Hd) as (dv1 & H1 & <-). by apply A2.
Qed.

(** *** Rows *)

(** Process [p] may replace the version [r0] of row [i] it sees by [v]. *)
Record may_put (s : Server) (fr : Frames) (gs : Ghosts) (p : nat) (i : uuid) (v : option DeviceCommand) : Prop := {
  mp_free q : q ≠ p → ¬ locked (fr q) i;
  mp_entry : entry_ok s i v;
  mp_seen : ∃ r0, laid (topf (fr p)) (sv_commands s) !! i = Some r0 ∧ (settled r0 → v = Some r0);
  mp_pending r : v = Some r → is_pending r → (i ∉ delivered s) ∧ unheld gs i ∧ (i ∉ g_claimed (gs p)) }.

Lemma not_in_flight s fr gs p i r :
  SI s fr gs → (∀ q, q ≠ p → ¬ locked (fr q) i) → in_flight fr i r → ∃ f, f ∈ fr p ∧ f !! i = Some (Some r).
Proof.
  intros S Hl (q & f & Hf & Hr). destruct (decide (q = p)) as [->|Hne]; [by exists f|]. exfalso.
  apply (Hl q Hne). eapply nested_top; [apply S|exact Hf|by eexists].
Qed.

(** Outside a transaction. *)
Lemma SI_write s fr gs p i v :
  SI s fr gs → fr p = [] → may_put s fr gs p i v →
  let s' := set_commands (partial_alter (λ _, v) i) s in SI s' fr gs ∧ grows s fr s' fr.
Proof.
  intros S El [Hfree Hen (r0 & Hr0 & Hset) Hpend] s'.
  rewrite El, laid_lookup in Hr0. simpl in Hr0. rewrite lookup_empty in Hr0.
  assert (∀ r, ¬ in_flight fr i r) as Hnf.
  { intros r Hr. destruct (not_in_flight _ _ _ _ _ _ S Hfree Hr) as (f & Hf & _). rewrite El in Hf. by apply elem_of_nil in Hf. }
  assert (∀ q f, f ∈ fr q → f !! i = None) as Hnl.
  { intros q f Hf. destruct (f !! i) eqn:E; [|done]. destruct (decide (q = p)) as [->|Hne].
    - rewrite El in Hf. by apply elem_of_nil in Hf.
    - exfalso. apply (Hfree q Hne). eapply nested_top; [apply S|exact Hf|by eexists]. }
  assert (sv_commands s' !! i = v) as Ei by (apply lookup_partial_alter_eq).
  assert (∀ j, j ≠ i → sv_commands s' !! j = sv_commands s !! j) as Ej by (intros j Hj; by apply lookup_partial_alter_ne).
  assert (∀ j, (j < sv_next s)%nat → born s fr j → born s' fr j) as Hborn.
  { intros j _ [Hj Hn]. split; [done|]. destruct (decide (j = i)) as [->|Hne]; [done|]. by rewrite Ej. }
  assert (grows s fr s' fr) as G.
  { split; try done.
    - intros d dv ?. by exists dv.
    - intros j r Hr Hs. destruct (decide (j = i)) as [->|Hne]; [|by rewrite Ej].
      rewrite Ei. simplify_eq. auto.
    - intros j Hj. apply Hborn; [apply Hj|done].
    - intros j Hj Hn. destruct (decide (j = i)) as [->|Hne]; [congruence|by rewrite Ej]. }
  split; [|done]. split; try apply S.
  - intros j r. destruct (decide (j = i)) as [->|Hne].
    + rewrite Ei. intros ->. apply (grows_row _ _ _ _ _ _ G). by apply Hen.
    + rewrite Ej by done. intros ?. apply (grows_row _ _ _ _ _ _ G). by apply S.
  - intros q f j w Hf Hw. assert (j ≠ i) by (intros ->; rewrite (Hnl _ _ Hf) in Hw; done).
    destruct (si_frames _ _ _ S _ _ _ _ Hf Hw) as [E1 E2 E3]. split; [| |done].
    + intros r. rewrite Ej by done. apply E1.
    + intros r Hr. apply (grows_row _ _ _ _ _ _ G). by apply E2.
  - intros j r Hj Hr. destruct (decide (j = i)) as [->|Hne].
    + destruct Hj as [Hj|Hj]; [|by apply Hnf in Hj]. rewrite Ei in Hj. destruct (Hpend _ Hj Hr) as (? & ? & _). done.
    + rewrite Ej in Hj by done. by apply (si_free _ _ _ S j r).
  - intros q j Hj. destruct (si_own _ _ _ S q j Hj) as (? & Hn & ?). split; [done|].
    rewrite Ej; [done|]. intros ->. congruence.
  - intros q j Hj. destruct (si_closing _ _ _ S q j Hj) as [Hb Hs]. split; [by apply G|].
    intros r. rewrite laid_lookup. specialize (Hs r). rewrite laid_lookup in Hs.
    destruct (decide (j = i)) as [->|Hne]; [|by rewrite Ej]. rewrite Ei.
    destruct (topf (fr q) !! i) as [w|] eqn:Ew; [done|]. intros ->.
    apply Hs. rewrite Hr0. symmetry. apply Hset.
    destruct (si_closing _ _ _ S q i Hj) as [_ Hs']. apply Hs'. by rewrite laid_lookup, Ew.
  - intros q f Hf. eapply grows_holds; [exact G|]. by apply (si_facts _ _ _ S q).
Qed.

(** Inside one. *)
Lemma SI_stage s fr gs p i v f l :
  SI s fr gs → fr p = f :: l → may_put s fr gs p i v →
  let fr' := <[p := <[i := v]> f :: l]> fr in SI s fr' gs ∧ grows s fr s fr'.
Proof.
  intros S El [Hfree Hen (r0 & Hr0 & Hset) Hpend] fr'.
  assert (∀ q, topf (fr' q) = if decide (q = p) then <[i:=v]> f else topf (fr q)) as Et.
  { intros q. subst fr'. at_proc q p; [by rewrite decide_True|by rewrite decide_False]. }
  assert (∀ q j, j ≠ i → topf (fr' q) !! j = topf (fr q) !! j) as Etj.
  { intros q j Hj. rewrite Et. case_decide as Hq; [|done]. subst q. rewrite El. by rewrite lookup_insert_ne. }
  assert (∀ j r, in_flight fr' j r → in_flight fr j r ∨ (j = i ∧ v = Some r)) as Hfl.
  { intros j r (q & f' & Hf & Hr). subst fr'. at_proc q p; [|left; by exists q, f'].
    apply elem_of_cons in Hf as [->|Hf]; [|left; exists p, f'; rewrite El; split; [by right|done]].
    apply lookup_insert_Some in Hr as [[<- ->]|[? Hr]]; [by right|]. left. exists p, f. rewrite El. split; [by left|done]. }
  assert (∀ r, born s fr i → sv_commands s !! i = None → v = Some r → False) as Hbi.
  { intros r [_ Hb] Hn _. destruct (visible_row _ _ _ _ _ _ S Hr0) as [_ [?|?]]; [congruence|]. by eapply Hb. }
  assert (grows s fr s fr') as G.
  { split; try done.
    - intros d dv ?. by exists dv.
    - intros j [Hj Hn]. split; [done|]. intros Hc r [Hr|[-> ->]]%Hfl; [by eapply Hn|]. by eapply Hbi. }
  split; [|done]. split; try apply S.
  - intros q. subst fr'. at_proc q p; [|apply S]. rewrite <- (si_depth _ _ _ S), El. done.
  - intros q. subst fr'. at_proc q p; [|apply S]. pose proof (si_nested _ _ _ S p) as Hn. rewrite El in Hn.
    destruct Hn as [Hn ?]. split; [|done]. intros f' j Hf Hj. destruct (decide (j = i)) as [->|]; [by rewrite lookup_insert_eq|].
    rewrite lookup_insert_ne by done. by eapply Hn.
  - intros q q' j Hne. destruct (decide (j = i)) as [->|Hj].
    + rewrite !Et. repeat case_decide; subst; try done; [intros _; by apply Hfree|intros Hq _; by eapply Hfree|].
      by apply (si_locks _ _ _ S).
    + rewrite !Etj by done. by apply (si_locks _ _ _ S).
  - intros q f' j w Hf Hw. subst fr'. at_proc q p; [|by apply (si_frames _ _ _ S q f')].
    apply elem_of_cons in Hf as [->|Hf].
    + apply lookup_insert_Some in Hw as [[<- <-]|[? Hw]]; [done|]. apply (si_frames _ _ _ S p f); [rewrite El; by left|done].
    + apply (si_frames _ _ _ S p f'); [rewrite El; by right|done].
  - intros j r Hj Hr. assert ((sv_commands s !! j = Some r ∨ in_flight fr j r) ∨ (j = i ∧ v = Some r)) as [Hj'|[-> Hv]].
    { destruct Hj as [?|[?|?]%Hfl]; auto. }
    + by apply (si_free _ _ _ S j r).
    + by destruct (Hpend _ Hv Hr) as (? & ? & _).
  - intros q j Hj. destruct (si_claimed _ _ _ S q j Hj) as [? (w & Hw & Hp)]. split; [done|].
    destruct (decide (j = i)) as [->|Hne]; [|exists w; by rewrite Etj].
    rewrite Et. case_decide as Hq; [|by exists w]. subst q. exists v. rewrite lookup_insert_eq. split; [done|].
    intros r Hv Hr. by destruct (Hpend _ Hv Hr) as (_ & _ & []).
  - intros q j Hj. destruct (si_own _ _ _ S q j Hj) as (? & ? & Hlk). split_and!; [done..|].
    destruct (decide (j = i)) as [->|Hne]; [|by rewrite Etj]. rewrite Et. case_decide; [by rewrite lookup_insert_eq|done].
  - intros q j Hj. destruct (si_closing _ _ _ S q j Hj) as [Hb Hs]. split; [by apply G|].
    intros r. rewrite laid_lookup. destruct (decide (j = i)) as [->|Hne]; [|rewrite Etj by done; intros Hr; apply Hs; by rewrite laid_lookup].
    rewrite Et. case_decide as Hq; [|intros Hr; apply Hs; by rewrite laid_lookup]. subst q.
    rewrite lookup_insert_eq. intros ->. pose proof (Hs _ Hr0) as Hs0. apply Hset in Hs0 as Heq. by simplify_eq.
  - intros q f' Hf. eapply grows_holds; [exact G|]. by apply (si_facts _ _ _ S q).
Qed.

(** *** Insertion *)

(** An id that was not given out occurs nowhere. *)
Record unused (s : Server) (fr : Frames) (gs : Ghosts) (i : uuid) : Prop := {
  un_commands : sv_commands s !! i = None;
  un_frames p f : f ∈ fr p → f !! i = None;
  un_delivered : i ∉ delivered s;
  un_tokens p : i ∉ g_held (gs p) ∪ g_claimed (gs p) }.

Lemma SI_unused s fr gs : SI s fr gs → unused s fr gs (sv_next s).
Proof.
  intros S. split.
  - destruct (sv_commands s !! sv_next s) as [r|] eqn:E; [|done].
    destruct (si_commands _ _ _ S _ _ E) as [[? _]%(si_queued _ _ _ S) _ _]. lia.
  - intros p f Hf. destruct (f !! sv_next s) as [v|] eqn:E; [|done].
    pose proof (en_issued _ _ _ (si_frames _ _ _ S _ _ _ _ Hf E)). lia.
  - unfold delivered. rewrite list_elem_of_omap. intros (e & He & Hd). destruct e; simplify_eq/=.
    destruct (si_known _ _ _ S _ _ He) as (sp & [? _]%(si_queued _ _ _ S) & _). lia.
  - intros p Hp%(si_issued _ _ _ S). lia.
Qed.

(** The id is given out; a row that waits for it may be written with [put]. *)
Lemma SI_issue s fr gs sp :
  SI s fr gs →
  let s' := add_events [Queued (sv_next s) sp] (S (sv_next s)) s in SI s' fr gs ∧ grows s fr s' fr.
Proof.
  intros S s'. destruct (SI_unused _ _ _ S) as [Uc Uf Ud Ut].
  assert (grows s fr s' fr) as G.
  { split; try done; simpl; [|lia|..].
    - intros e ?. apply elem_of_app. by left.
    - intros d dv ?. by exists dv.
    - intros i [? ?]. split; [simpl; lia|done]. }
  assert (delivered s' = delivered s) as Edl by (unfold delivered; simpl; rewrite omap_app; by rewrite app_nil_r).
  assert (∀ i sp', Queued i sp' ∈ sv_log s' → Queued i sp' ∈ sv_log s ∨ (i = sv_next s ∧ sp' = sp)) as Hq.
  { intros i sp'. simpl. rewrite elem_of_app, list_elem_of_singleton. intros [?|[= -> ->]]; auto. }
  split; [|done]. split; rewrite ?Edl; try apply S.
  - intros i r Hr. eapply grows_row; [done|by apply S].
  - intros p f i v Hf Hv. destruct (si_frames _ _ _ S _ _ _ _ Hf Hv) as [E1 E2 E3]. split; [apply E1| |simpl; lia].
    intros r Hr. eapply grows_row; [done|by apply E2].
  - intros i sp' [Hi|[-> ->]]%Hq.
    + destruct (si_queued _ _ _ S _ _ Hi) as [? Hu]. split; [simpl; lia|]. intros sp'' [?|[-> ->]]%Hq; [by apply Hu|lia].
    + split; [simpl; lia|]. intros sp'' [Hi|[_ ->]]%Hq; [|done]. destruct (si_queued _ _ _ S _ _ Hi). lia.
  - intros i t Hi. simpl in Hi. rewrite elem_of_app, list_elem_of_singleton in Hi. destruct Hi as [Hi|[=]].
    destruct (si_known _ _ _ S _ _ Hi) as (sp' & ? & ?). exists sp'. split; [by apply G|done].
  - intros p i Hi%(si_issued _ _ _ S). simpl. lia.
  - intros p i (? & ? & ?)%(si_own _ _ _ S). simpl. split; [lia|done].
  - intros p i [Hb Hs]%(si_closing _ _ _ S). split; [by apply G|done].
  - intros p f Hf. eapply grows_holds; [done|]. by apply (si_facts _ _ _ S p).
Qed.

Lemma row_new s fr gs i r :
  SI s fr gs → Queued i (dc_spec r) ∈ sv_log s → is_pending r → row_ok s i r.
Proof.
  intros S Hq Hp. split; [done|intros Hs; by destruct (settled_not_pending _ Hs)|]. intros Hc. congruence.
Qed.

(** Writing the row of an id that occurs nowhere, outside a transaction. *)
Lemma SI_insert0 s fr gs p i r :
  SI s fr gs → unused s fr gs i → Queued i (dc_spec r) ∈ sv_log s → is_pending r → fr p = [] →
  let s' := set_commands (partial_alter (λ _, Some r) i) s in
  ¬ (∃ q, i ∈ g_own (gs q)) →
  (∀ q, (Is_born i ∉ g_facts (gs q)) ∧ (Is_closed i ∉ g_facts (gs q)) ∧ (i ∉ g_closing (gs q))) →
  SI s' fr gs.
Proof.
  intros S [Uc Uf Ud Ut] Hq Hp El s' Ho Hb.
  assert (row_ok s i r) as Hrow by by eapply row_new.
  assert (sv_commands s' !! i = Some r) as Ei by (apply lookup_partial_alter_eq).
  assert (∀ j, j ≠ i → sv_commands s' !! j = sv_commands s !! j) as Ej by (intros j Hj; by apply lookup_partial_alter_ne).
  assert (∀ j r, row_ok s j r → row_ok s' j r) as Hro by (intros j r' []; by split).
  assert (∀ j, j ≠ i → born s fr j → born s' fr j) as Hbj.
  { intros j Hj [? Hn]. split; [done|]. by rewrite Ej. }
  split; try apply S.
  - intros j r'. destruct (decide (j = i)) as [->|]; [rewrite Ei; intros [= <-]; auto|]. rewrite Ej by done. intros ?. apply Hro. by apply S.
  - intros q f j v Hf Hv. destruct (si_frames _ _ _ S _ _ _ _ Hf Hv) as [E1 E2 E3].
    assert (j ≠ i) by (intros ->; rewrite (Uf _ _ Hf) in Hv; done). split; [|by auto|done]. intros r'. rewrite Ej by done. apply E1.
  - intros j r' Hj Hr. destruct (decide (j = i)) as [->|Hne].
    + split; [done|]. intros q. pose proof (Ut q). set_solver.
    + rewrite Ej in Hj by done. by apply (si_free _ _ _ S j r').
  - intros q j Hj. destruct (si_own _ _ _ S q j Hj) as (? & ? & ?). split; [done|]. rewrite Ej; [done|]. intros ->. eauto.
  - intros q j Hj. assert (j ≠ i) by (intros ->; naive_solver). destruct (si_closing _ _ _ S q j Hj) as [? Hs].
    split; [auto|]. intros r'. rewrite laid_lookup, Ej, <- laid_lookup by done. apply Hs.
  - intros q f Hf. pose proof (si_facts _ _ _ S q f Hf) as Hh. destruct (Hb q) as (Hb1 & Hb2 & _). destruct f; try done; simpl in *.
    + destruct Hh. rewrite Ej; [done|]. intros ->. congruence.
    + apply Hbj; [|done]. intros ->. by apply Hb1.
    + assert (i0 ≠ i) by (intros ->; by apply Hb2). rewrite Ej by done. naive_solver.
Qed.

Definition issued (s : Server) (sp : Spec) : Server := add_events [Queued (sv_next s) sp] (S (sv_next s)) s.

Lemma unborn s fr gs q :
  SI s fr gs →
  ((Is_born (sv_next s) ∉ g_facts (gs q)) ∧ (Is_closed (sv_next s) ∉ g_facts (gs q)) ∧
   (sv_next s ∉ g_closing (gs q))) ∧ (sv_next s ∉ g_own (gs q)).
Proof.
  intros S. split_and!.
  - intros Hf%(si_facts _ _ _ S). destruct Hf. lia.
  - intros Hf%(si_facts _ _ _ S). destruct Hf as [[? _] _]. lia.
  - intros [[? _] _]%(si_closing _ _ _ S). lia.
  - intros [? _]%(si_own _ _ _ S). lia.
Qed.

Lemma SI_insert_out s fr gs p r :
  SI s fr gs → is_pending r → fr p = [] →
  let s' := set_commands (partial_alter (λ _, Some r) (sv_next s)) (issued s (dc_spec r)) in
  SI s' fr (<[p := inserted (sv_next s) (dc_spec r) (gs p)]> gs) ∧ grows s fr s' fr.
Proof.
  intros S Hp El s'. destruct (SI_issue _ _ _ (dc_spec r) S) as [S1 G1].
  pose proof (SI_unused _ _ _ S) as [Uc Uf Ud Ut].
  assert (delivered (issued s (dc_spec r)) = delivered s) as Edl
    by (unfold delivered; simpl; rewrite omap_app; by rewrite app_nil_r).
  assert (unused (issued s (dc_spec r)) fr gs (sv_next s)) as U1 by (split; [done|done|by rewrite Edl|done]).
  assert (Queued (sv_next s) (dc_spec r) ∈ sv_log s') as Hq by (apply elem_of_app; right; by left).
  assert (SI s' fr gs) as S'.
  { apply (SI_insert0 _ _ _ p _ _ S1 U1); [done|done|done| |].
    - intros [q Hq']. by apply (unborn _ _ _ q S).
    - intros q. apply (unborn _ _ _ q S). }
  assert (∀ j, (j < sv_next s)%nat → sv_commands s' !! j = sv_commands s !! j) as Ej
    by (intros j Hj; apply lookup_partial_alter_ne; lia).
  split.
  - unfold inserted. rewrite <- (si_depth _ _ _ S), El. simpl. apply SI_ghost; [done..|].
    intros f [->|[->|?]%elem_of_cons]%elem_of_cons; [by right| |by left]. right. split; [simpl; lia|].
    intros E. exfalso. assert (sv_commands s' !! sv_next s = Some r) by apply lookup_partial_alter_eq. congruence.
  - split; try done.
    + intros e He. by apply G1.
    + simpl. lia.
    + intros d dv ?. by exists dv.
    + intros j r' Hr Hs. rewrite Ej; [done|]. destruct (si_commands _ _ _ S _ _ Hr) as [[? _]%(si_queued _ _ _ S) _ _]. done.
    + intros j [Hj Hn]. split; [simpl; lia|]. by rewrite Ej.
    + intros j [Hj _]. by rewrite Ej.
Qed.

Lemma SI_insert_frames s fr gs p r f l :
  SI s fr gs → is_pending r → fr p = f :: l →
  let fr' := <[p := <[sv_next s := Some r]> f :: l]> fr in
  SI (issued s (dc_spec r)) fr' gs ∧ grows s fr (issued s (dc_spec r)) fr'.
Proof.
  intros S Hp El fr'. destruct (SI_issue _ _ _ (dc_spec r) S) as [S1 G1]. fold (issued s (dc_spec r)) in S1, G1.
  pose proof (SI_unused _ _ _ S) as [Uc Uf Ud Ut]. set (i := sv_next s) in *. set (s1 := issued s (dc_spec r)) in *.
  assert (delivered s1 = delivered s) as Edl by (unfold delivered; simpl; rewrite omap_app; by rewrite app_nil_r).
  assert (Queued i (dc_spec r) ∈ sv_log s1) as Hq by (apply elem_of_app; right; by left).
  assert (∀ q j, j ≠ i → topf (fr' q) !! j = topf (fr q) !! j) as Etj.
  { intros q j Hj. subst fr'. at_proc q p; [|done]. rewrite El. simpl. by rewrite lookup_insert_ne. }
  assert (∀ q, topf (fr q) !! i = None) as Et.
  { intros q. destruct (fr q) as [|f0 l0] eqn:E; [done|]. simpl. apply (Uf q). rewrite E. by left. }
  assert (∀ j r', in_flight fr' j r' → in_flight fr j r' ∨ (j = i ∧ r' = r)) as Hfl.
  { intros j r' (q & f' & Hf & Hr). subst fr'. at_proc q p; [|left; by exists q, f'].
    apply elem_of_cons in Hf as [->|Hf]; [|left; exists p, f'; rewrite El; split; [by right|done]].
    apply lookup_insert_Some in Hr as [[<- [= ->]]|[? Hr]]; [by right|]. left. exists p, f. rewrite El. split; [by left|done]. }
  assert (∀ j, (j < i)%nat → born s fr j → born s1 fr' j) as Hbj.
  { intros j Hj [? Hn]. split; [simpl; lia|]. intros Hc r' [Hr|[-> _]]%Hfl; [by eapply Hn|lia]. }
  assert (grows s fr s1 fr') as G.
  { split; try done; [apply G1|simpl; lia| |].
    - intros d dv ?. by exists dv.
    - intros j Hj. apply Hbj; [apply Hj|done]. }
  split; [|done].
  split; try apply S1.
  - intros q. subst fr'. at_proc q p; [|apply S]. rewrite <- (si_depth _ _ _ S), El. done.
  - intros q. subst fr'. at_proc q p; [|apply S]. pose proof (si_nested _ _ _ S p) as Hn. rewrite El in Hn.
    destruct Hn as [Hn ?]. split; [|done]. intros f' j Hf Hj. destruct (decide (j = i)) as [->|]; [by rewrite lookup_insert_eq|].
    rewrite lookup_insert_ne by done. by eapply Hn.
  - intros q q' j Hne. destruct (decide (j = i)) as [->|Hj]; [|rewrite !Etj by done; by apply (si_locks _ _ _ S)].
    destruct (decide (q' = p)) as [->|Hq']; [|].
    + subst fr'. rewrite (fn_lookup_insert_ne _ p q) by done. rewrite Et. by intros [? ?].
    + subst fr'. rewrite (fn_lookup_insert_ne _ p q') by done. rewrite Et. by intros _ [? ?].
  - intros q f' j w Hf Hw. subst fr'. at_proc q p; [|by apply (si_frames _ _ _ S1 q f')].
    apply elem_of_cons in Hf as [->|Hf].
    + apply lookup_insert_Some in Hw as [[<- <-]|[? Hw]]; [|apply (si_frames _ _ _ S1 p f); [rewrite El; by left|done]].
      split; [simpl; congruence| |simpl; lia]. intros r' [= <-]. by eapply row_new.
    + apply (si_frames _ _ _ S1 p f'); [rewrite El; by right|done].
  - intros j r' Hj Hr. assert ((sv_commands s1 !! j = Some r' ∨ in_flight fr j r') ∨ j = i) as [Hj'| ->].
    { destruct Hj as [?|[?|[? _]]%Hfl]; auto. }
    + by apply (si_free _ _ _ S1 j r').
    + rewrite Edl. split; [done|]. intros q. pose proof (Ut q). set_solver.
  - intros q j Hj. destruct (si_claimed _ _ _ S q j Hj) as [? (w & Hw & ?)]. split; [done|].
    assert (j ≠ i) by (intros ->; rewrite Et in Hw; done). exists w. by rewrite Etj.
  - intros q j Hj. destruct (si_own _ _ _ S q j Hj) as (? & ? & ?). simpl. split_and!; [lia|done|].
    rewrite Etj; [done|]. subst i. lia.
  - intros q j Hj. destruct (si_closing _ _ _ S q j Hj) as [Hb Hs]. destruct Hb as [Hlt Hb'].
    split; [by apply Hbj|]. intros r'. rewrite laid_lookup, Etj by (subst i; lia). rewrite <- laid_lookup. apply Hs.
  - intros q f' Hf. eapply grows_holds; [exact G|]. by apply (si_facts _ _ _ S q).
Qed.

(** A row written in the transaction of [p] that nobody else has seen. *)
Lemma SI_own_row s fr gs p i :
  SI s fr gs → (i < sv_next s)%nat → sv_commands s !! i = None → locked (fr p) i →
  SI s fr (<[p := with_tx (g_depth (gs p)) ({[i]} ∪ g_own (gs p)) (g_closing (gs p)) (gs p)]> gs).
Proof.
  intros S Hi Hc Hl. set (g := with_tx _ _ _ _).
  assert (∀ q, g_held (<[p:=g]> gs q) = g_held (gs q)) as E1 by (intros q; by at_proc q p).
  assert (∀ q, g_claimed (<[p:=g]> gs q) = g_claimed (gs q)) as E2 by (intros q; by at_proc q p).
  assert (g_depth (gs p) ≠ 0%nat) as Hd.
  { rewrite <- (si_depth _ _ _ S). destruct (fr p); [by destruct Hl|done]. }
  split; try apply S; try (intros q; at_proc q p; apply S).
  - intros q. at_proc q p; [done|apply S].
  - intros j r' Hj Hr. destruct (si_free _ _ _ S _ _ Hj Hr) as [? Hu]. split; [done|]. intros q. rewrite E1. apply Hu.
  - intros q j. rewrite E1, E2. intros Hj. destruct (si_held _ _ _ S q j Hj) as [? Hs]. split; [done|].
    intros q' Hq'. rewrite E1, E2. by apply Hs.
  - intros q j. at_proc q p; [|apply S]. simpl. intros [->%elem_of_singleton|Hj]%elem_of_union; [done|by apply (si_own _ _ _ S p)].
Qed.

Lemma SI_insert_in s fr gs p r f l :
  SI s fr gs → is_pending r → fr p = f :: l →
  let fr' := <[p := <[sv_next s := Some r]> f :: l]> fr in
  SI (issued s (dc_spec r)) fr' (<[p := inserted (sv_next s) (dc_spec r) (gs p)]> gs) ∧
  grows s fr (issued s (dc_spec r)) fr'.
Proof.
  intros S Hp El fr'. destruct (SI_insert_frames _ _ _ _ _ _ _ S Hp El) as [S' G]. split; [|done].
  pose proof (SI_own_row _ _ _ p (sv_next s) S') as S''. unfold inserted. rewrite <- (si_depth _ _ _ S), El in *. simpl in *.
  eapply SI_reghost; [apply S''; [lia|by apply SI_unused in S as []|]|done..|].
  - rewrite fn_lookup_insert. simpl. by rewrite lookup_insert_eq.
  - intros f' [->|?]%elem_of_cons; [right|by left]. apply elem_of_app. right. by left.
Qed.

(** *** Transactions *)

Lemma SI_open s fr gs p c :
  SI s fr gs → cn_frames c = fr p →
  let fr' := <[p := cn_frames (begin_tx s c)]> fr in
  SI s fr' (<[p := opened (gs p)]> gs) ∧ grows s fr s fr'.
Proof.
  intros S Ec fr'.
  assert (cn_frames (begin_tx s c) = topf (fr p) :: fr p) as Eb
    by (unfold begin_tx; rewrite Ec; destruct (fr p) eqn:E; simpl; by rewrite ?Ec).
  assert (∀ q, topf (fr' q) = topf (fr q)) as Et by (intros q; subst fr'; at_proc q p; [by rewrite Eb|done]).
  assert (∀ q f, f ∈ fr' q → f ∈ fr q ∨ f = ∅) as Hfr.
  { intros q f. subst fr'. at_proc q p; [|by left]. rewrite Eb. intros [->|?]%elem_of_cons; [|by left].
    destruct (fr p); [by right|left; by left]. }
  assert (∀ i r, in_flight fr' i r → in_flight fr i r) as Hfl.
  { intros i r (q & f & [Hf| ->]%Hfr & Hr); [by exists q, f|done]. }
  assert (grows s fr s fr') as G.
  { split; try done; [intros d dv ?; by exists dv|]. intros i [? Hb]. split; [done|]. intros Hc r Hr%Hfl. by eapply Hb. }
  set (g := opened (gs p)).
  assert (∀ q, g_held (<[p:=g]> gs q) = g_held (gs q)) as E1 by (intros q; by at_proc q p).
  assert (∀ q, g_claimed (<[p:=g]> gs q) = g_claimed (gs q)) as E2 by (intros q; by at_proc q p).
  split; [|done]. split; try apply S.
  - intros q. subst fr'. at_proc q p; [|apply S]. rewrite Eb. simpl. by rewrite (si_depth _ _ _ S).
  - intros q. at_proc q p; [done|apply S].
  - intros q. subst fr'. at_proc q p; [|apply S]. rewrite Eb. split; [|apply S]. intros f i Hf Hi.
    eapply nested_top; [apply S|exact Hf|done].
  - intros q q' i. rewrite !Et. apply S.
  - intros q f i v [Hf| ->]%Hfr Hv; [by apply (si_frames _ _ _ S q f)|done].
  - intros i r Hi Hr. destruct (si_free _ _ _ S i r) as [? Hu]; [naive_solver|done|]. split; [done|].
    intros q. rewrite E1. apply Hu.
  - intros q i. rewrite E1, E2. intros Hi. destruct (si_held _ _ _ S q i Hi) as [? Hs]. split; [done|].
    intros q' Hq'. rewrite E1, E2. by apply Hs.
  - intros q i. rewrite E1, E2. apply S.
  - intros q i. rewrite E1, E2, Et. apply S.
  - intros q i. rewrite Et. at_proc q p; apply S.
  - intros q i. rewrite Et. intros Hi. destruct (si_closing _ _ _ S q i) as [Hb Hs]; [by at_proc q p|].
    split; [by apply G|done].
  - intros q f Hf. eapply grows_holds; [exact G|]. apply (si_facts _ _ _ S q). by at_proc q p.
Qed.

(** Versions are dropped: those of the innermost savepoint at a rollback, or those of the next one when
    it is released. *)
Lemma SI_pop s fr gs p f l l' g :
  SI s fr gs → fr p = f :: l → (l' = l ∧ g = undone (gs p) ∨ ∃ f2 k, l = f2 :: k ∧ l' = f :: k ∧ g = closed (gs p)) →
  let fr' := <[p := l']> fr in SI s fr' (<[p := g]> gs) ∧ grows s fr s fr'.
Proof.
  intros S El Hl fr'.
  pose proof (si_nested _ _ _ S p) as Hn. rewrite El in Hn. destruct Hn as [Hn1 Hn2].
  pose proof (si_depth _ _ _ S p) as Hd. rewrite El in Hd.
  assert (∀ q f, f ∈ fr' q → f ∈ fr q) as Hfr.
  { intros q f'. subst fr'. at_proc q p; [|done]. rewrite El.
    destruct Hl as [[-> _]|(f2 & k & -> & -> & _)]; set_solver. }
  assert (∀ q i, locked (fr' q) i → locked (fr q) i) as Hlk.
  { intros q i. subst fr'. at_proc q p; [|done]. rewrite El. destruct Hl as [[-> _]|(f2 & k & -> & -> & _)]; [|done].
    destruct l as [|f2 k]; [by intros [? ?]|]. simpl. apply Hn1. by left. }
  assert (∀ i r, in_flight fr' i r → in_flight fr i r) as Hfl.
  { intros i r (q & f' & Hf%Hfr & Hr). by exists q, f'. }
  assert (grows s fr s fr') as G.
  { split; try done; [intros d dv ?; by exists dv|]. intros i [? Hb]. split; [done|]. intros Hc r Hr%Hfl. by eapply Hb. }
  assert (g_held g = g_held (gs p) ∧ g_facts g = g_facts (gs p) ∧ g_depth g = length l' ∧
          (g_own g = ∅ ∧ g_claimed g = ∅ ∧ g_closing g = ∅ ∨
           (g_own g = g_own (gs p) ∧ g_claimed g = g_claimed (gs p) ∧ g_closing g = g_closing (gs p) ∧
            topf l' = topf (fr p) ∧ length l' ≠ 0%nat))) as (Eh & Ef & Edg & Hg).
  { destruct Hl as [[-> ->]|(f2 & k & -> & -> & ->)]; simpl in Hd.
    - simpl. rewrite <- Hd. split_and!; [done..|]. by left.
    - unfold closed. rewrite <- Hd. simpl. split_and!; [done..|]. right. rewrite El. done. }
  assert (∀ q, g_held (<[p:=g]> gs q) = g_held (gs q)) as E1 by (intros q; by at_proc q p).
  assert (∀ q, g_claimed (<[p:=g]> gs q) ⊆ g_claimed (gs q)) as E2 by (intros q; at_proc q p; set_solver).
  assert (∀ q i, i ∈ g_own (<[p:=g]> gs q) ∪ g_claimed (<[p:=g]> gs q) ∪ g_closing (<[p:=g]> gs q) →
            topf (fr' q) = topf (fr q) ∧ g_own (<[p:=g]> gs q) = g_own (gs q) ∧
            g_claimed (<[p:=g]> gs q) = g_claimed (gs q) ∧ g_closing (<[p:=g]> gs q) = g_closing (gs q)) as Hsame.
  { intros q i. subst fr'. at_proc q p; [|done]. destruct Hg as [(-> & -> & ->)|(? & ? & ? & ? & _)]; [set_solver|done]. }
  split; [|done]. split; try apply S.
  - intros q. subst fr'. at_proc q p; [done|apply S].
  - intros q. at_proc q p; [|apply S]. intros E. destruct Hg as [?|(? & ? & ? & ? & ?)]; [done|congruence].
  - intros q. subst fr'. at_proc q p; [|apply S]. destruct Hl as [[-> _]|(f2 & k & -> & -> & _)]; [done|].
    split; [|apply Hn2]. intros f' i Hf. apply Hn1. by right.
  - intros q q' i Hne H1%Hlk H2%Hlk. by eapply (si_locks _ _ _ S).
  - intros q f' i v Hf%Hfr Hv. by apply (si_frames _ _ _ S q f').
  - intros i r Hi Hr. destruct (si_free _ _ _ S i r) as [? Hu]; [naive_solver|done|]. split; [done|].
    intros q. rewrite E1. apply Hu.
  - intros q i Hi. destruct (si_held _ _ _ S q i) as [? Hs]; [pose proof (E2 q); rewrite E1 in Hi; set_solver|].
    split; [done|]. intros q' Hq' Hi'. apply (Hs q' Hq'). pose proof (E2 q'). rewrite E1 in Hi'. set_solver.
  - intros q i Hi. apply (si_issued _ _ _ S q). pose proof (E2 q). rewrite E1 in Hi. set_solver.
  - intros q i Hi. destruct (Hsame q i) as (Et & _ & Ec & _); [set_solver|]. rewrite E1, Et. rewrite Ec in Hi. by apply S.
  - intros q i Hi. destruct (Hsame q i) as (Et & Eo & _ & _); [set_solver|]. rewrite Et. rewrite Eo in Hi. by apply S.
  - intros q i Hi. destruct (Hsame q i) as (Et & _ & _ & Ec); [set_solver|]. rewrite Et. rewrite Ec in Hi.
    destruct (si_closing _ _ _ S q i Hi) as [Hb Hs]. split; [by apply G|done].
  - intros q f' Hf. eapply grows_holds; [exact G|]. apply (si_facts _ _ _ S q). at_proc q p; [by rewrite <- Ef|done].
Qed.

(** The process ends and its connection closes. *)
Lemma SI_crash s fr gs p : SI s fr gs → SI s (<[p := []]> fr) (<[p := no_ghost]> gs) ∧ grows s fr s (<[p := []]> fr).
Proof.
  remember (fr p) as l eqn:El. revert fr gs El. induction l as [|f l IH]; intros fr gs El S.
  - split.
    + apply (SI_ext _ fr _ (<[p := no_ghost]> gs)); [intros q; by at_proc q p|done|].
      apply SI_ghost; [done|by rewrite <- (si_depth _ _ _ S), <- El|set_solver..].
    + split; try done; [intros d dv ?; by exists dv|]. intros i [? Hb]. split; [done|].
      intros Hc r (q & f & Hf & Hr). apply (Hb Hc r). exists q, f. split; [|done].
      at_proc q p; [by apply elem_of_nil in Hf|done].
  - destruct (SI_pop s fr gs p f l l (undone (gs p)) S (eq_sym El)) as [S' G']; [by left|].
    destruct (IH _ _ ltac:(by rewrite fn_lookup_insert) S') as [S'' G''].
    assert (∀ q, <[p:=[]]> fr q = <[p:=[]]> (<[p:=l]> fr) q) as Ef.
    { intros q. destruct (decide (p = q)) as [<-|]; [by rewrite !fn_lookup_insert|by rewrite !fn_lookup_insert_ne]. }
    assert (∀ q, <[p:=no_ghost]> gs q = <[p:=no_ghost]> (<[p:=undone (gs p)]> gs) q) as Eg'.
    { intros q. destruct (decide (p = q)) as [<-|]; [by rewrite !fn_lookup_insert|by rewrite !fn_lookup_insert_ne]. }
    split; [exact (SI_ext _ _ _ _ _ Ef Eg' S'')|].
    eapply grows_trans; [exact G'|]. destruct G'' as [L N A D B Go]. split; try done.
    intros i Hi. destruct (B i Hi) as [? Hb]. split; [done|]. intros Hc r (q & f' & Hf & Hr). apply (Hb Hc r).
    exists q, f'. by rewrite <- Ef.
Qed.

(** *** Commit *)

(** What is known of the versions [f] of a transaction that process [p] commits. *)
Record commits (s : Server) (fr : Frames) (p : nat) (f : Overlay) (s' : Server) (fr' : Frames) : Prop := {
  cm_table j : sv_commands s' !! j = match f !! j with Some v => v | None => sv_commands s !! j end;
  cm_frames q f' : f' ∈ fr' q → q ≠ p ∧ f' ∈ fr q;
  cm_free q f' j : f' ∈ fr' q → is_Some (f' !! j) → f !! j = None;
  cm_entry j v : f !! j = Some v → entry_ok s j v;
  cm_flight j r : in_flight fr' j r → in_flight fr j r ∧ f !! j = None;
  cm_source j r : sv_commands s' !! j = Some r → sv_commands s !! j = Some r ∨ in_flight fr j r;
  cm_grows : grows s fr s' fr' }.

Lemma commits_frame s fr gs p f :
  SI s fr gs → fr p = [f] → commits s fr p f (set_commands (laid f) s) (<[p := []]> fr).
Proof.
  intros S El. set (s' := set_commands _ s). set (fr' := <[p := []]> fr).
  assert (∀ j, sv_commands s' !! j = match f !! j with Some v => v | None => sv_commands s !! j end) as Ec
    by (intros j; apply laid_lookup).
  assert (∀ q f', f' ∈ fr' q → q ≠ p ∧ f' ∈ fr q) as Hfr.
  { intros q f'. subst fr'. at_proc q p; [by intros ?%elem_of_nil|done]. }
  assert (∀ q f' j, f' ∈ fr' q → is_Some (f' !! j) → f !! j = None) as Hfree.
  { intros q f' j [Hne Hf]%Hfr Hj. destruct (f !! j) as [v|] eqn:E; [|done]. exfalso.
    apply (si_locks _ _ _ S p q j); [done|by rewrite El; eexists|]. eapply nested_top; [apply S|exact Hf|done]. }
  assert (∀ j v, f !! j = Some v → entry_ok s j v) as Hen.
  { intros j v. apply (si_frames _ _ _ S p f). rewrite El. by left. }
  assert (∀ j r, in_flight fr' j r → in_flight fr j r ∧ f !! j = None) as Hfl.
  { intros j r (q & f' & Hf & Hr). split; [exists q, f'; by apply Hfr in Hf as [_ ?]|]. eapply Hfree; [done|by eexists]. }
  assert (∀ j r, sv_commands s' !! j = Some r → sv_commands s !! j = Some r ∨ in_flight fr j r) as Hsrc.
  { intros j r. rewrite Ec. destruct (f !! j) as [v|] eqn:E; [intros ->|by left]. right. exists p, f. by rewrite El; split; [left|]. }
  assert (grows s fr s' fr') as G.
  { split; try done; [intros d dv ?; by exists dv|..].
    - intros j r Hr Hs. rewrite Ec. destruct (f !! j) as [v|] eqn:E; [|done]. by apply (Hen _ _ E).
    - intros j [? Hb]. split; [done|]. intros Hc r [Hr Hn]%Hfl. rewrite Ec, Hn in Hc. by eapply Hb.
    - intros j [_ Hb] Hc. rewrite Ec. destruct (f !! j) as [[r|]|] eqn:E; [|done..].
      exfalso. apply (Hb Hc r). exists p, f. by rewrite El; split; [left|]. }
  by split.
Qed.

Definition committed_ghost (g : Ghost) : Ghost :=
  with_tokens (g_held g ∪ g_claimed g) ∅ (with_tx 0 ∅ ∅ g).

Lemma SI_commit_rows s fr gs p f :
  SI s fr gs → fr p = [f] →
  SI (set_commands (laid f) s) (<[p := []]> fr) (<[p := committed_ghost (gs p)]> gs).
Proof.
  intros S El. destruct (commits_frame _ _ _ _ _ S El) as [Ec Hfr Hfree Hen Hfl Hsrc G].
  set (s' := set_commands _ s) in *. set (fr' := <[p := []]> fr) in *. set (g := committed_ghost (gs p)).
  assert (∀ q, g_held (<[p:=g]> gs q) ∪ g_claimed (<[p:=g]> gs q) = g_held (gs q) ∪ g_claimed (gs q)) as Eu
    by (intros q; at_proc q p; [subst g; simpl; set_solver|done]).
  split; try apply S.
  - intros q. subst fr'. at_proc q p; [done|apply S].
  - intros q. at_proc q p; [done|apply S].
  - intros q. subst fr'. at_proc q p; [done|apply S].
  - intros q q' j Hne. subst fr'. at_proc q p; [by intros [? ?]|]. at_proc q' p; [by intros _ [? ?]|]. by apply (si_locks _ _ _ S).
  - intros j r Hr. apply (grows_row _ _ _ _ _ _ G). rewrite Ec in Hr. destruct (f !! j) as [v|] eqn:E.
    + by apply (Hen _ _ E).
    + by apply S.
  - intros q f' j v Hf Hv. pose proof (Hfree _ _ _ Hf ltac:(by eexists)) as Hn. apply Hfr in Hf as [_ Hf].
    destruct (si_frames _ _ _ S _ _ _ _ Hf Hv) as [E1 E2 E3]. split; [|intros r ?; apply (grows_row _ _ _ _ _ _ G); auto|done].
    intros r. rewrite Ec, Hn. apply E1.
  - intros j r Hj Hr. destruct (si_free _ _ _ S j r) as [? Hu]; [destruct Hj as [?|[? _]%Hfl]; auto|done|]. split; [done|].
    intros q. at_proc q p; [|apply Hu]. subst g; simpl. intros [?|Hc]%elem_of_union; [by eapply Hu|].
    destruct (si_claimed _ _ _ S p j Hc) as [_ (v & Hv & Hp)]. rewrite El in Hv. simpl in Hv.
    destruct Hj as [Hj|[_ Hj]%Hfl]; [|congruence]. rewrite Ec, Hv in Hj. by eapply Hp.
  - intros q j. rewrite Eu. intros Hj. destruct (si_held _ _ _ S q j Hj) as [? Hs]. split; [done|].
    intros q' Hq'. rewrite Eu. by apply Hs.
  - intros q j. rewrite Eu. apply S.
  - intros q j. subst fr'. at_proc q p; [subst g; simpl; set_solver|apply S].
  - intros q j. subst fr'. at_proc q p; [subst g; simpl; set_solver|]. intros Hj. destruct (si_own _ _ _ S q j Hj) as (? & Hn & Hlk).
    split_and!; [done| |done]. rewrite Ec. destruct (f !! j) as [v|] eqn:E; [|done]. exfalso.
    apply (si_locks _ _ _ S q p j); [done..|]. rewrite El. by eexists.
  - intros q j. subst fr'. at_proc q p; [subst g; simpl; set_solver|]. intros Hj.
    destruct (si_closing _ _ _ S q j Hj) as [Hb Hs]. split; [by apply G|]. intros r Hr. rewrite laid_lookup in Hr.
    destruct (topf (fr q) !! j) as [w|] eqn:Ew; [apply Hs; by rewrite laid_lookup, Ew|].
    rewrite Ec in Hr. destruct (f !! j) as [v|] eqn:E; [subst v|apply Hs; by rewrite laid_lookup, Ew].
    destruct (sv_commands s !! j) as [r0|] eqn:E0.
    + assert (settled r0) as Hs0 by (apply Hs; by rewrite laid_lookup, Ew).
      pose proof (en_settled _ _ _ (Hen _ _ E) _ E0 Hs0). by simplify_eq.
    + exfalso. apply (proj2 Hb E0 r). exists p, f. by rewrite El; split; [left|].
  - intros q f' Hf. eapply grows_holds; [exact G|]. apply (si_facts _ _ _ S q). by at_proc q p.
Qed.

Lemma SI_commit s fr gs p f :
  SI s fr gs → fr p = [f] →
  let s' := set_commands (laid f) s in let fr' := <[p := []]> fr in
  SI s' fr' (<[p := closed (gs p)]> gs) ∧ grows s fr s' fr'.
Proof.
  intros S El s' fr'. destruct (commits_frame _ _ _ _ _ S El) as [Ec _ Hfree _ _ _ G]. fold s' fr' in Ec, Hfree, G.
  pose proof (SI_commit_rows _ _ _ _ _ S El) as S'. pose proof (si_depth _ _ _ S p) as Hd. rewrite El in Hd.
  assert (closed (gs p) = learn ((Is_born <$> elements (g_own (gs p))) ++ (Is_closed <$> elements (g_closing (gs p))))
            (committed_ghost (gs p))) as -> by (unfold closed, committed_ghost; by rewrite <- Hd).
  split; [|done]. eapply SI_reghost; [exact S'|done..|]. simpl.
  intros fa [[Hfa|Hfa]%elem_of_app|?]%elem_of_app; [right|right|by left].
  - apply list_elem_of_fmap in Hfa as (i & -> & Hi%elem_of_elements). destruct (si_own _ _ _ S p i Hi) as (? & _ & Hlk).
    split; [done|]. intros _ r (q & f' & Hf & Hr). rewrite El in Hlk. destruct Hlk as [v Hv]. simpl in Hv.
    pose proof (Hfree _ _ i Hf ltac:(by eexists)). congruence.
  - apply list_elem_of_fmap in Hfa as (i & -> & Hi%elem_of_elements). destruct (si_closing _ _ _ S p i Hi) as [Hb Hs].
    split; [by apply G|]. intros r. rewrite Ec. intros Hr. apply Hs. rewrite laid_lookup, El. done.
Qed.
End store.
