(* ===== verification/CommandSteps.v ===== *)
(** * Commands to devices: every action keeps the invariant

    [exec_sound]: an action that a program may take by [op_wp] takes the invariant [SI] along, and the
    program goes on from a ghost state its continuation covers. *)

From stdpp Require Import functions.
From S2P Require Import Prelude JsNum Json CommandRules CommandMachine CommandQueue CommandLogic CommandStore.

Open Scope Z_scope.

Section steps.
Context `{ResultText}.
Abbreviation Ghosts := (nat → Ghost).

(** After an action of process [p]: its transaction has the versions [l], its ghost state is [g]. *)
Definition lands (s : Server) (fr : Frames) (gs : Ghosts) (p : nat) (s' : Server) (l : list Overlay) (g : Ghost) : Prop :=
  SI s' (<[p := l]> fr) (<[p := g]> gs) ∧ grows s fr s' (<[p := l]> fr).

Lemma grows_ext s f s' f' f'' : (∀ q, f'' q = f' q) → grows s f s' f' → grows s f s' f''.
Proof.
  intros E [L N A D B G]. split; try done. intros i Hi. destruct (B i Hi) as [? Hb]. split; [done|].
  intros Hc r (q & o & Ho & Hr). apply (Hb Hc r). exists q, o. by rewrite <- E.
Qed.

Lemma lands_at s fr gs p s' l g :
  fr p = l → SI s' fr (<[p := g]> gs) → grows s fr s' fr → lands s fr gs p s' l g.
Proof.
  intros <- S G. assert (∀ q, <[p := fr p]> fr q = fr q) as E by (intros q; by at_proc q p).
  split; [by eapply SI_ext|by eapply grows_ext].
Qed.
Lemma lands_self s fr gs p s' l : SI s' (<[p := l]> fr) gs → grows s fr s' (<[p := l]> fr) → lands s fr gs p s' l (gs p).
Proof.
  intros S G. split; [|done]. eapply SI_ext; [done| |exact S]. intros q. by at_proc q p.
Qed.

(** [g] claims no more than [g0] and knows only what holds. *)
Record weaker (s : Server) (fr : Frames) (g g0 : Ghost) : Prop := {
  wk_depth : g_depth g = g_depth g0; wk_own : g_own g ⊆ g_own g0; wk_held : g_held g ⊆ g_held g0;
  wk_claimed : g_claimed g ⊆ g_claimed g0; wk_closing : g_closing g ⊆ g_closing g0;
  wk_facts f : f ∈ g_facts g → f ∈ g_facts g0 ∨ holds s fr f }.
Lemma weaker_refl s fr g : weaker s fr g g.
Proof. split; auto. Qed.
Lemma weaker_learn s fr l g : Forall (holds s fr) l → weaker s fr (learn l g) g.
Proof. intros Hl. split; simpl; auto. intros f [Hf|?]%elem_of_app; [|by left]. right. by eapply list.Forall_forall in Hl. Qed.
Lemma weaker_drop s fr l g : weaker s fr (drop l g) g.
Proof. split; simpl; auto. set_solver. Qed.
#[local] Hint Resolve weaker_refl weaker_drop : core.

Lemma lands_weaker s fr gs p s' l g0 g :
  lands s fr gs p s' l g0 → weaker s' (<[p := l]> fr) g g0 → lands s fr gs p s' l g.
Proof. intros [S G] []. split; [|done]. by eapply SI_reghost. Qed.
Lemma lands_same s fr gs p l g : SI s fr gs → fr p = l → weaker s fr g (gs p) → lands s fr gs p s l g.
Proof. intros S E []. apply lands_at; [done|by apply SI_ghost|apply grows_refl]. Qed.

(** ** Statements *)

Lemma statement_sound {A} ch s c (body : option (outcome string A * (Server * Conn))) r s' c' fr gs p
    (Φ : outcome string A → Ghost → Prop) g0 :
  statement ch s c body = Some (r, s', c') → SI s fr gs → cn_frames c = fr p →
  weaker s fr g0 (gs p) → (∀ e, Φ (Throw e) g0) →
  (∀ a s1 c1, body = Some (Ok a, (s1, c1)) →
     lands s fr gs p s1 (cn_frames c1) g0 ∧ ∃ g1, Φ (Ok a) g1 ∧ lands s fr gs p s1 (cn_frames c1) g1) →
  ∃ g', Φ r g' ∧ lands s fr gs p s' (cn_frames c') g'.
Proof.
  intros Hst S Ec Hw Ht Hok.
  assert (∀ c1 : Conn, cn_frames (match cn_frames c1 with [] => c1 | _ => with_aborted c1 true end) = cn_frames c1) as Ef
    by (intros c1; destruct (cn_frames c1) eqn:E; simpl; by rewrite ?E).
  assert (∀ e c1, cn_frames c1 = cn_frames c → ∃ g', Φ (Throw e) g' ∧ lands s fr gs p s (cn_frames c1) g') as Hthrow.
  { intros e c1 E. exists g0. split; [done|]. apply lands_same; [done|congruence|done]. }
  unfold statement in Hst. destruct (cn_aborted c); [simplify_eq; by apply Hthrow|].
  destruct (ch_fault ch); [|simplify_eq; apply Hthrow; apply Ef|].
  - destruct body as [[[a|e] [s1 c1]]|]; simplify_eq; [|apply Hthrow; apply Ef].
    destruct (Hok a s' c' eq_refl) as [_ (g1 & ? & ?)]. by exists g1.
  - destruct body as [[[a|e] [s1 c1]]|]; simplify_eq; [|apply Hthrow; apply Ef].
    destruct (Hok a s' c1 eq_refl) as [? _]. exists g0. split; [done|]. by rewrite Ef.
Qed.

(** Reads. *)
Lemma read_sound {A} ch s c (a : A) r s' c' fr gs p (Φ : outcome string A → Ghost → Prop) g1 :
  statement ch s c (Some (Ok a, (s, c))) = Some (r, s', c') → SI s fr gs → cn_frames c = fr p →
  (∀ e, Φ (Throw e) (gs p)) → Φ (Ok a) g1 → weaker s fr g1 (gs p) →
  ∃ g', Φ r g' ∧ lands s fr gs p s' (cn_frames c') g'.
Proof.
  intros Hst S Ec Ht Hok Hw. eapply statement_sound; [done..| |done|]; [done|].
  intros a' s1 c1 [= <- <- <-]. split; [by apply lands_same|]. exists g1. split; [done|]. by apply lands_same.
Qed.

(** ** Writing rows *)

Lemma put_sound s fr gs p c i v :
  SI s fr gs → cn_frames c = fr p → may_put s fr gs p i v →
  let sc := put i v (s, c) in
  SI sc.1 (<[p := cn_frames sc.2]> fr) gs ∧ grows s fr sc.1 (<[p := cn_frames sc.2]> fr).
Proof.
  intros S Ec Hp. unfold put. destruct (cn_frames c) as [|f l] eqn:El; simpl.
  - destruct (SI_write _ _ _ _ _ _ S (eq_sym Ec) Hp) as [S' G].
    assert (∀ q, <[p := cn_frames c]> fr q = fr q) as E by (intros q; at_proc q p; congruence).
    split; [by eapply SI_ext|by eapply grows_ext].
  - by apply (SI_stage _ _ _ _ _ _ _ _ S (eq_sym Ec)).
Qed.

(** What [put] leaves alone. *)
Lemma put_frame i v s c :
  let sc := put i v (s, c) in
  sv_log sc.1 = sv_log s ∧ sv_next sc.1 = sv_next s ∧ sv_devices sc.1 = sv_devices s ∧
  ∀ j, j ≠ i → sv_commands sc.1 !! j = sv_commands s !! j ∧ topf (cn_frames sc.2) !! j = topf (cn_frames c) !! j.
Proof.
  unfold put. destruct (cn_frames c) as [|f l] eqn:E; simpl; split_and!; try done; intros j Hj.
  - by rewrite lookup_partial_alter_ne, E.
  - by rewrite lookup_insert_ne.
Qed.

Lemma may_put_later s fr gs p c i v j w :
  SI s fr gs → cn_frames c = fr p → may_put s fr gs p i v → may_put s fr gs p j w → j ≠ i →
  let sc := put i v (s, c) in may_put sc.1 (<[p := cn_frames sc.2]> fr) gs p j w.
Proof.
  intros S Ec Hi [Hf [E1 E2 E3] (r0 & Hr0 & Hs) Hp] Hne sc.
  destruct (put_sound _ _ _ _ _ _ _ S Ec Hi) as [S' G]. destruct (put_frame i v s c) as (El & En & Ed & Hj).
  fold sc in S', G, El, En, Ed, Hj. destruct (Hj j Hne) as [Ej Et].
  split.
  - intros q Hq. rewrite fn_lookup_insert_ne by done. by apply Hf.
  - split; [rewrite Ej; done| |by rewrite En]. intros r Hr. eapply grows_row; [exact G|by apply E2].
  - exists r0. split; [|done]. rewrite fn_lookup_insert, laid_lookup, Et, Ej, Ec, <- laid_lookup. done.
  - intros r Hr Hpr. unfold delivered. rewrite El. by apply (Hp r).
Qed.

Lemma put_all_sound (l : list Row) (w : DeviceCommand → option DeviceCommand) s fr gs p c :
  SI s fr gs → cn_frames c = fr p → NoDup l.*1 → (∀ x, x ∈ l → may_put s fr gs p x.1 (w x.2)) →
  let sc := foldr (λ x sc, put x.1 (w x.2) sc) (s, c) l in
  SI sc.1 (<[p := cn_frames sc.2]> fr) gs ∧ grows s fr sc.1 (<[p := cn_frames sc.2]> fr) ∧
  (∀ j u, j ∉ l.*1 → may_put s fr gs p j u → may_put sc.1 (<[p := cn_frames sc.2]> fr) gs p j u).
Proof.
  intros S Ec. induction l as [|x l IH]; intros Hnd Hl.
  - simpl. assert (∀ q, <[p := cn_frames c]> fr q = fr q) as E by (intros q; at_proc q p; congruence).
    split_and!; [by eapply SI_ext|eapply grows_ext; [done|apply grows_refl]|].
    intros j u _ [Hf He (r0 & Hr0 & Hs) Hp]. split; [|done| |done].
    + intros q Hq. rewrite fn_lookup_insert_ne by done. by apply Hf.
    + exists r0. by rewrite E.
  - apply list.NoDup_cons in Hnd as [Hx Hnd]. destruct IH as (S1 & G1 & K1); [done|intros y Hy; apply Hl; by right|].
    cbn zeta in *. simpl. destruct (foldr _ (s, c) l) as [s1 c1] eqn:E. simpl in S1, G1, K1.
    assert (may_put s1 (<[p:=cn_frames c1]> fr) gs p x.1 (w x.2)) as M1 by (apply K1; [done|apply Hl; by left]).
    assert (cn_frames c1 = <[p:=cn_frames c1]> fr p) as Ec1 by by rewrite fn_lookup_insert.
    destruct (put_sound _ _ _ _ _ _ _ S1 Ec1 M1) as [S2 G2]. cbn zeta in S2, G2.
    assert (∀ l' q, <[p:=l']> fr q = <[p:=l']> (<[p:=cn_frames c1]> fr) q) as Ef.
    { intros l' q. destruct (decide (p = q)) as [<-|]; [by rewrite !fn_lookup_insert|by rewrite !fn_lookup_insert_ne]. }
    split_and!.
    + eapply SI_ext; [apply Ef|done|exact S2].
    + eapply grows_trans; [exact G1|]. eapply grows_ext; [apply Ef|exact G2].
    + intros j u Hj Hu. simpl in Hj. apply not_elem_of_cons in Hj as [Hj1 Hj2].
      destruct (may_put_later _ _ _ _ _ _ _ _ _ S1 Ec1 M1 (K1 j u Hj2 Hu) Hj1) as [A1 A2 (r0 & A3 & A4) A5].
      split; [|done| |done].
      * intros q Hq. rewrite Ef. by apply A1.
      * exists r0. by rewrite Ef.
Qed.

(** ** Updates of one row *)

Lemma rows_top s c i : rows s c !! i = laid (topf (cn_frames c)) (sv_commands s) !! i.
Proof. done. Qed.

(** A row seen as open may be replaced by a version of the same specification. *)
Lemma may_put_change s fr gs p i r v :
  SI s fr gs → laid (topf (fr p)) (sv_commands s) !! i = Some r → is_open r = true →
  (∀ q, q ≠ p → ¬ locked (fr q) i) → (∀ r', v = Some r' → row_ok s i r') →
  (∀ r', v = Some r' → is_pending r' → (i ∉ delivered s) ∧ unheld gs i ∧ (i ∉ g_claimed (gs p))) →
  may_put s fr gs p i v.
Proof.
  intros S Hr Ho Hf Hv Hp. destruct (visible_row _ _ _ _ _ _ S Hr) as [[Hq _ _] _].
  split; [done| |exists r; split; [done|]|done].
  - split; [|done|by apply (si_queued _ _ _ S _ _ Hq)]. intros r0 E Hs. exfalso. rewrite laid_lookup in Hr.
    destruct (topf (fr p) !! i) as [w|] eqn:Ew.
    + destruct (topf_in _ _ _ Ew) as (f & Hin & Ef). subst w.
      pose proof (en_settled _ _ _ (si_frames _ _ _ S _ _ _ _ Hin Ef) _ E Hs). simplify_eq.
      apply settled_not_open in Hs. congruence.
    + simplify_eq. apply settled_not_open in Hs. congruence.
  - intros Hs%settled_not_open. congruence.
Qed.

(** What is known of a row seen as pending. *)
Lemma pending_free s fr gs p i r :
  SI s fr gs → laid (topf (fr p)) (sv_commands s) !! i = Some r → is_pending r →
  (∀ q, q ≠ p → ¬ locked (fr q) i) →
  (i < sv_next s)%nat ∧ (i ∉ delivered s) ∧ unheld gs i ∧ ∀ q, i ∉ g_claimed (gs q).
Proof.
  intros S Hr Hp Hf. destruct (visible_row _ _ _ _ _ _ S Hr) as [[Hq _ _] Hs].
  destruct (si_free _ _ _ S _ _ Hs Hp) as [? ?]. split_and!; [by apply (si_queued _ _ _ S _ _ Hq)|done|done|].
  intros q Hc. destruct (si_claimed _ _ _ S q i Hc) as [_ (v & Hv & Hn)].
  destruct (decide (q = p)) as [->|Hne]; [|apply (Hf q Hne); by eexists].
  rewrite laid_lookup, Hv in Hr. by eapply Hn.
Qed.

Lemma flight_mine s fr gs p l i r :
  SI s fr gs → (∀ q, q ≠ p → ¬ locked (fr q) i) → in_flight (<[p := l]> fr) i r → ∃ f, f ∈ l ∧ f !! i = Some (Some r).
Proof.
  intros S Hl (q & f & Hf & Hr). destruct (decide (p = q)) as [<-|Hne].
  - rewrite fn_lookup_insert in Hf. by exists f.
  - rewrite fn_lookup_insert_ne in Hf by done. exfalso. apply (Hl q); [done|].
    eapply nested_top; [apply S|exact Hf|by eexists].
Qed.

(** After a [put] of a version that is not pending, a claim of the row is free to take. *)
Lemma take_claim s fr gs p c i r r' :
  SI s fr gs → cn_frames c = fr p → laid (topf (fr p)) (sv_commands s) !! i = Some r → is_pending r →
  (∀ q, q ≠ p → ¬ locked (fr q) i) → may_put s fr gs p i (Some r') → ¬ is_pending r' →
  let sc := put i (Some r') (s, c) in lands s fr gs p sc.1 (cn_frames sc.2) (claim i (gs p)).
Proof.
  intros S Ec Hr Hp Hf Hm Hn sc. destruct (put_sound _ _ _ _ _ _ _ S Ec Hm) as [S' G]. fold sc in S', G.
  destruct (pending_free _ _ _ _ _ _ S Hr Hp Hf) as (Hlt & Hd & Hu & Hc).
  destruct (put_frame i (Some r') s c) as (El & En & _ & _). fold sc in El, En.
  split; [|done].
  assert (claim i (gs p) = add_token (bool_decide (at_once i (gs p))) i (gs p)) as ->
    by (unfold claim, add_token; case_bool_decide; by case_decide).
  apply SI_token; [done|by rewrite En|unfold delivered; by rewrite El|done|done|].
  clear S' G. pose proof (si_depth _ _ _ S p) as Hd'. subst sc. unfold put. rewrite Ec.
  destruct (fr p) as [|f l] eqn:Ef; simpl in *.
  - rewrite bool_decide_true by by left. intros r1 [Hr1|Hr1].
    + rewrite lookup_partial_alter_eq in Hr1. naive_solver.
    + destruct (flight_mine _ _ _ _ _ _ _ S Hf Hr1) as (o & Ho & _). rewrite Ec in Ho. by apply elem_of_nil in Ho.
  - case_bool_decide as Ha.
    + destruct Ha as [Ha|[Ha Hown]]; [congruence|]. destruct l; [|simpl in Hd'; lia].
      destruct (si_own _ _ _ S p i Hown) as (_ & Hnone & _). intros r1 [Hr1|Hr1]; [congruence|].
      destruct (flight_mine _ _ _ _ _ _ _ S Hf Hr1) as (o & ->%list_elem_of_singleton & Hro).
      rewrite lookup_insert_eq in Hro. naive_solver.
    + split; [lia|]. exists (Some r'). rewrite fn_lookup_insert. simpl. rewrite lookup_insert_eq.
      split; [done|]. by intros ? [= <-].
Qed.

Lemma advanced_status f r : status_of (advanced f r) = pg_status (f (dc_at r)).
Proof. done. Qed.

Lemma row_advanced s fr gs p i r f :
  SI s fr gs → row_ok s i r →
  (settled (advanced f r) → is_Some (pg_result (f (dc_at r)))) →
  (pg_status (f (dc_at r)) = completed → ∃ data,
     Was_reported i (sp_deviceId (dc_spec r)) (sp_targetRole (dc_spec r)) data ∈ g_facts (gs p) ∧
     rp_status data = rs_completed ∧
     pg_result (f (dc_at r)) = Some (Result (stored_result (sp_type (dc_spec r)) data))) →
  row_ok s i (advanced f r).
Proof.
  intros S [Hq _ _] Hr Hc. split; [done|done|]. intros E. destruct (Hc E) as (data & Hf & ? & ?). exists data.
  split; [|done]. apply (si_facts _ _ _ S _ _ Hf).
Qed.

Definition unlocked (fr : Frames) (p : nat) (held : uuid → bool) : Prop :=
  ∀ i, held i = false → ∀ q, q ≠ p → ¬ locked (fr q) i.

Lemma change_row_cases held s c i guard v res :
  change_row held s c i guard v = Some res →
  (res = (Ok false, (s, c)) ∧ ∀ r, rows s c !! i = Some r → guard r = false) ∨
  (∃ r, rows s c !! i = Some r ∧ guard r = true ∧ held i = false ∧
     ∃ sc, put i (v r) (s, c) = sc ∧ res = (Ok true, sc)).
Proof.
  unfold change_row. intros E. destruct (rows s c !! i) as [r|] eqn:Er; [|left; naive_solver].
  destruct (guard r) eqn:Eg; [|left; naive_solver]. destruct (held i) eqn:Eh; [done|]. right. exists r. split_and!; [done..|]. eexists. split; [done|]. by simplify_eq.
Qed.

Section update.
Context (ch : Choice) (held : uuid → bool) (s : Server) (c : Conn) (i : uuid) (guard : DeviceCommand → bool)
  (f : Progress → Progress) (r : outcome string bool) (s' : Server) (c' : Conn) (fr : Frames) (gs : nat → Ghost)
  (p : nat) (Φ : outcome string bool → Ghost → Prop).
Context (S : SI s fr gs) (Ec : cn_frames c = fr p) (Hun : unlocked fr p held).
Context (Hst : statement ch s c (change_row held s c i guard (λ r, Some (advanced f r))) = Some (r, s', c')).

Lemma claim_sound :
  claims guard f → Φ (Ok true) (claim i (gs p)) → Φ (Ok false) (gs p) → (∀ e, Φ (Throw e) (gs p)) →
  ∃ g', Φ r g' ∧ lands s fr gs p s' (cn_frames c') g'.
Proof.
  intros Hcl Ht Hfa He.
  eapply statement_sound; [exact Hst|done|done|apply weaker_refl|exact He|].
  intros a s1 c1 Hb. destruct (change_row_cases _ _ _ _ _ _ _ Hb) as [[[= -> -> ->] _]|(r0 & Hr & Hg & Hh & sc & Hsc & [= -> <-])].
  + split; [by apply lands_same|]. exists (gs p). split; [done|]. by apply lands_same.
  + rewrite rows_top, Ec in Hr. destruct (Hcl _ Hg) as [Hp Hs]. pose proof (Hun _ Hh) as Hfree.
    assert (may_put s fr gs p i (Some (advanced f r0))) as Hm.
    { eapply may_put_change; [done|done|by apply pending_open|done| |].
      - intros r' [= <-]. eapply (row_advanced _ _ _ p); [done|by eapply visible_row|..].
        + intros Hset%settled_not_open. unfold is_open, in_status in Hset. rewrite advanced_status, Hs in Hset. done.
        + congruence.
      - intros r' [= <-]. rewrite advanced_status. congruence. }
    destruct (put_sound _ _ _ _ _ _ _ S Ec Hm) as [S1 G1]. rewrite Hsc in S1, G1.
    split; [by apply lands_self|]. exists (claim i (gs p)). split; [done|].
    pose proof (take_claim _ _ _ _ _ _ r0 _ S Ec Hr Hp Hfree Hm) as Hk. rewrite Hsc in Hk. apply Hk.
    rewrite advanced_status. congruence.
Qed.

Lemma release_sound :
  i ∈ g_held (gs p) → releases guard f → (∀ b, Φ (Ok b) (drop [i] (gs p))) → (∀ e, Φ (Throw e) (drop [i] (gs p))) →
  ∃ g', Φ r g' ∧ lands s fr gs p s' (cn_frames c') g'.
Proof.
  intros Hh Hre Hok He.
  assert (SI s fr (<[p := drop [i] (gs p)]> gs)) as S0 by (apply SI_ghost; simpl; try done; set_solver).
  eapply statement_sound; [exact Hst|done|done|apply weaker_drop|exact He|].
  intros a s1 c1 Hb.
  assert (lands s fr gs p s1 (cn_frames c1) (drop [i] (gs p))) as Hl; [|by eauto].
  destruct (change_row_cases _ _ _ _ _ _ _ Hb) as [[[= -> -> ->] _]|(r0 & Hr & Hg & Hheld & sc & Hsc & [= -> <-])].
  { by apply lands_same. }
  rewrite rows_top, Ec in Hr. destruct (Hre _ Hg) as [Hp Hs]. pose proof (Hun _ Hheld) as Hfree.
  destruct (si_held _ _ _ S p i) as [Hd Hso]; [set_solver|].
  assert (may_put s fr (<[p := drop [i] (gs p)]> gs) p i (Some (advanced f r0))) as Hm.
  { eapply may_put_change; [done|done| |done| |].
    - unfold is_open, in_status. by rewrite Hp.
    - intros r' [= <-]. eapply (row_advanced _ _ _ p); [exact S|by eapply visible_row|..].
      + intros Hset%settled_not_open. unfold is_open, in_status in Hset. rewrite advanced_status, Hs in Hset. done.
      + congruence.
    - intros r' [= <-] _. rewrite fn_lookup_insert. simpl. split_and!; [done| |].
      + intros q. at_proc q p; [simpl; set_solver|]. specialize (Hso q). set_solver.
      + intros Hc. by destruct (si_claimed _ _ _ S p i Hc). }
  destruct (put_sound _ _ _ _ _ _ _ S0 Ec Hm) as [S1 G1]. rewrite Hsc in S1, G1. by split.
Qed.

Lemma settlement_sound :
  settles i (gs p) guard f → (∀ e, Φ (Throw e) (gs p)) →
  (∀ b, Φ (Ok b) (gs p)) ∨
    (Is_born i ∈ g_facts (gs p) ∧ (∀ r, is_open r = true → guard r = true) ∧ ∀ b, Φ (Ok b) (closing i (gs p))) →
  ∃ g', Φ r g' ∧ lands s fr gs p s' (cn_frames c') g'.
Proof.
  intros Hse He Hok.
  eapply statement_sound; [exact Hst|done|done|apply weaker_refl|exact He|].
  intros a s1 c1 Hb.
  assert (lands s fr gs p s1 (cn_frames c1) (gs p) ∧
          ((∀ r, is_open r = true → guard r = true) →
           ∀ r, laid (topf (cn_frames c1)) (sv_commands s1) !! i = Some r → settled r)) as [Hl Hcl].
  { destruct (change_row_cases _ _ _ _ _ _ _ Hb) as [[[= -> -> ->] Hno]|(r0 & Hr & Hg & Hheld & sc & Hsc & [= -> <-])].
    - split; [by apply lands_same|]. intros Hcov r0 Hr0. apply settled_not_open.
      destruct (is_open r0) eqn:Eo; [|done]. specialize (Hno _ Hr0). rewrite (Hcov _ Eo) in Hno. done.
    - pose proof Hr as Hr'. rewrite rows_top, Ec in Hr. pose proof (Hun _ Hheld) as Hfree.
      destruct (visible_row _ _ _ _ _ _ S Hr) as [Hrow _].
      destruct (Hse _ Hg (row_known _ _ _ _ _ _ S Hrow)) as (Hop & Hset & Hres & Hcomp).
      assert (may_put s fr gs p i (Some (advanced f r0))) as Hm.
      { eapply may_put_change; [done|done|done|done| |].
        - intros r' [= <-]. by eapply row_advanced.
        - intros r' [= <-] Hp. by destruct (settled_not_pending _ Hset). }
      split.
      + destruct (put_sound _ _ _ _ _ _ _ S Ec Hm) as [S1 G1]. rewrite Hsc in S1, G1. by apply lands_self.
      + intros _ r1. unfold put in Hsc. destruct (cn_frames c) as [|o l] eqn:Eo; simplify_eq; simpl.
        * rewrite Eo, laid_lookup. simpl. rewrite lookup_empty, lookup_partial_alter_eq. naive_solver.
        * rewrite laid_lookup, lookup_insert_eq. naive_solver. }
  split; [done|]. destruct Hok as [Hok|(Hborn & Hcov & Hok)]; [by exists (gs p)|].
  exists (closing i (gs p)). split; [done|]. destruct Hl as [S1 G1]. split; [|done].
  pose proof (SI_closing_row _ _ _ p i S1) as HS. rewrite !fn_lookup_insert in HS.
  eapply SI_ext; [done| |apply HS].
  + intros q. destruct (decide (p = q)) as [<-|]; [by rewrite !fn_lookup_insert|by rewrite !fn_lookup_insert_ne].
  + apply G1. apply (si_facts _ _ _ S _ _ Hborn).
  + by apply Hcl.
Qed.

(** [Update]: a claim, a release or a settlement. *)
Lemma update_sound :
  op_wp (Update i guard f) (gs p) Φ → ∃ g', Φ r g' ∧ lands s fr gs p s' (cn_frames c') g'.
Proof.
  intros [(Hcl & Ht & Hfa & He)|[(Hh & Hre & Hok & He)|(Hse & He & Hok)]];
    [by apply claim_sound|by apply release_sound|by apply settlement_sound].
Qed.

End update.

(** ** The other statements *)

Lemma delete_sound ch held s c i guard r s' c' fr gs p Φ :
  SI s fr gs → cn_frames c = fr p → unlocked fr p held →
  op_wp (Delete i guard) (gs p) Φ →
  statement ch s c (change_row held s c i guard (λ _, None)) = Some (r, s', c') →
  ∃ g', Φ r g' ∧ lands s fr gs p s' (cn_frames c') g'.
Proof.
  intros S Ec Hun (Hp & Hok & He) Hst.
  eapply statement_sound; [exact Hst|done|done|apply weaker_refl|exact He|]. intros a s1 c1 Hb.
  assert (lands s fr gs p s1 (cn_frames c1) (gs p)) as Hl; [|by eauto].
  destruct (change_row_cases _ _ _ _ _ _ _ Hb) as [[[= -> -> ->] _]|(r0 & Hr & Hg & Hh & sc & Hsc & [= -> <-])].
  { by apply lands_same. }
  rewrite rows_top, Ec in Hr. specialize (Hun _ Hh).
  assert (may_put s fr gs p i None) as Hm by (eapply may_put_change; [done|done|by apply pending_open, Hp|done..]).
  destruct (put_sound _ _ _ _ _ _ _ S Ec Hm) as [S1 G1]. rewrite Hsc in S1, G1. by apply lands_self.
Qed.

Lemma matching_rows guard m x : x ∈ matching guard m ↔ guard x.2 = true ∧ m !! x.1 = Some x.2.
Proof.
  unfold matching. rewrite list_elem_of_filter. destruct x as [i r]. by rewrite elem_of_map_to_list.
Qed.
Lemma matching_nodup guard m : NoDup (matching guard m).*1.
Proof.
  eapply sublist_NoDup; [apply (NoDup_fst_map_to_list m)|]. apply fmap_sublist, sublist_filter.
Qed.
Lemma oldest_elem n l x : x ∈ oldest n l → x ∈ l.
Proof.
  unfold oldest. rewrite elem_of_take. intros (k & Hk%list_elem_of_lookup_2 & _).
  by rewrite merge_sort_Permutation in Hk.
Qed.
Lemma oldest_nodup n l : NoDup l.*1 → NoDup (oldest n l).*1.
Proof.
  intros Hl. eapply sublist_NoDup; [|apply fmap_sublist, sublist_take]. by rewrite merge_sort_Permutation.
Qed.

(** The rows a process sees are known to have been queued. *)
Lemma seen_queued s fr gs p c x :
  SI s fr gs → cn_frames c = fr p → rows s c !! x.1 = Some x.2 → holds s fr (Is_queued x.1 (dc_spec x.2)).
Proof. intros S Ec Hx. rewrite rows_top, Ec in Hx. apply (visible_row _ _ _ _ _ _ S Hx). Qed.

Lemma update_many_sound ch held s c guard f r s' c' fr gs p Φ :
  SI s fr gs → cn_frames c = fr p → unlocked fr p held →
  op_wp (UpdateMany guard f) (gs p) Φ →
  statement ch s c (change_rows held s c guard f) = Some (r, s', c') →
  ∃ g', Φ r g' ∧ lands s fr gs p s' (cn_frames c') g'.
Proof.
  intros S Ec Hun (Hc & Hok & He) Hst.
  eapply statement_sound; [exact Hst|done|done|apply weaker_refl|exact He|]. intros a s1 c1 Hb.
  assert (lands s fr gs p s1 (cn_frames c1) (gs p)) as Hl; [|by eauto].
  unfold change_rows in Hb. destruct (existsb _ _) eqn:Eh; [done|]. injection Hb as _ Hsc.
  destruct (put_all_sound (matching guard (rows s c)) (λ r, Some (advanced f r)) s fr gs p c S Ec) as (S1 & G1 & _).
  - apply matching_nodup.
  - intros [i r0] Hx. pose proof Hx as [Hg Hr]%matching_rows. simpl in Hg, Hr. rewrite rows_top, Ec in Hr.
    destruct (Hc _ Hg) as (Hop & Hset & Hres & Hne).
    assert (held i = false) as Hh.
    { destruct (held i) eqn:E; [|done]. assert (existsb (λ p : Row, held p.1) (matching guard (rows s c)) = true); [|congruence].
      apply existsb_exists. exists (i, r0). split; [by apply list_elem_of_In|done]. }
    eapply may_put_change; [done|done|done|by apply Hun| |].
    + intros r' [= <-]. eapply (row_advanced _ _ _ p); [done|by eapply visible_row|done|done].
    + intros r' [= <-] Hp. by destruct (settled_not_pending _ Hset).
  - cbn zeta in S1, G1. rewrite Hsc in S1, G1. by apply lands_self.
Qed.

Lemma lock_sound ch held s c guard n r s' c' fr gs p Φ :
  SI s fr gs → cn_frames c = fr p → unlocked fr p held →
  op_wp (SelectForUpdate guard n) (gs p) Φ →
  statement ch s c (lock_rows held s c guard n) = Some (r, s', c') →
  ∃ g', Φ r g' ∧ lands s fr gs p s' (cn_frames c') g'.
Proof.
  intros S Ec Hun (_ & Hok & He) Hst.
  eapply statement_sound; [exact Hst|done|done|apply weaker_refl|exact He|]. intros l s1 c1 Hb.
  unfold lock_rows in Hb. set (l0 := oldest n _) in Hb. injection Hb as <- Hsc.
  assert (NoDup l0.*1) as Hnd.
  { apply oldest_nodup. eapply sublist_NoDup; [apply matching_nodup|]. apply fmap_sublist, sublist_filter. }
  assert (∀ x, x ∈ l0 → guard x.2 = true ∧ rows s c !! x.1 = Some x.2 ∧ held x.1 = false) as Hl0.
  { intros x Hx%oldest_elem. rewrite list_elem_of_filter, matching_rows in Hx. naive_solver. }
  destruct (put_all_sound l0 Some s fr gs p c S Ec Hnd) as (S1 & G1 & _).
  - intros [i r0] Hx. destruct (Hl0 _ Hx) as (_ & Hr & Hh). simpl in Hr, Hh. rewrite rows_top, Ec in Hr. specialize (Hun _ Hh).
    destruct (visible_row _ _ _ _ _ _ S Hr) as [Hrow _]. split; [done| |by exists r0|].
    + split; [|by intros ? [= <-]|apply (si_queued _ _ _ S _ _ (ro_queued _ _ _ Hrow))]. intros r1 E Hs.
      rewrite laid_lookup in Hr. destruct (topf (fr p) !! i) as [w|] eqn:Ew; [|simpl in *; rewrite Hr in E; by simplify_eq]. subst w.
      destruct (topf_in _ _ _ Ew) as (f & Hin & Ef). apply (en_settled _ _ _ (si_frames _ _ _ S _ _ _ _ Hin Ef) _ E Hs).
    + intros r1 [= <-] Hp. destruct (pending_free _ _ _ _ _ _ S Hr Hp Hun) as (_ & ? & ? & ?). done.
  - cbn zeta in S1, G1. rewrite Hsc in S1, G1.
    assert (lands s fr gs p s1 (cn_frames c1) (gs p)) as Hl by by apply lands_self.
    split; [done|]. exists (saw_all l0 (gs p)). split; [apply Hok; [done|]|].
    + apply list.Forall_forall. intros x Hx. by apply Hl0.
    + eapply lands_weaker; [exact Hl|]. apply weaker_learn. apply list.Forall_forall. intros fa Hfa.
      apply list_elem_of_fmap in Hfa as (x & -> & Hx). eapply grows_holds; [exact G1|].
      eapply seen_queued; [done..|]. by apply Hl0.
Qed.

Lemma insert_sound ch s c d ty pl ro u r s' c' fr gs p Φ :
  SI s fr gs → cn_frames c = fr p → op_wp (Insert d ty pl ro u) (gs p) Φ →
  statement ch s c (insert_row s c d ty pl ro u) = Some (r, s', c') →
  ∃ g', Φ r g' ∧ lands s fr gs p s' (cn_frames c') g'.
Proof.
  intros S Ec (Hok & He) Hst.
  eapply statement_sound; [exact Hst|done|done|apply weaker_refl|exact He|]. intros a s1 c1 Hb.
  unfold insert_row in Hb. destruct (_ || _); [done|]. set (row := {| dc_spec := _; dc_at := _ |}) in Hb.
  assert (a = (sv_next s, row) ∧ put (sv_next s) (Some row) (issued s (dc_spec row), c) = (s1, c1)) as [-> Hsc]
    by (by injection Hb).
  assert (lands s fr gs p s1 (cn_frames c1) (inserted (sv_next s) (dc_spec row) (gs p))) as Hl.
  { unfold put in Hsc. destruct (cn_frames c) as [|f l] eqn:Ef; simplify_eq.
    - destruct (SI_insert_out s fr gs p row S) as [S1 G1]; [done..|]. by apply lands_at; [congruence|..].
    - by apply (SI_insert_in s fr gs p row f l S). }
  split; [|by eauto]. eapply lands_weaker; [exact Hl|].
  unfold inserted. destruct (g_depth (gs p)) eqn:Ed; split; simpl; try done; set_solver.
Qed.
(** ** Sockets, events and transactions *)

Lemma logs_sound s fr gs p l e g :
  SI s fr gs → fr p = l → plain e → weaker (logs [e] s) fr g (gs p) → lands s fr gs p (logs [e] s) l g.
Proof.
  intros S E He Hw. destruct (SI_extend s (logs [e] s) fr gs [e] S) as [S1 G1]; try done; [by constructor|intros d dv ?; by exists dv|].
  apply lands_at; [done| |done]. destruct Hw. by apply SI_ghost.
Qed.

Lemma push_sound s fr gs p t (l : list uuid) :
  SI s fr gs → NoDup l → (∀ i, i ∈ l → i ∈ g_held (gs p) ∧ addressed i t (gs p)) →
  lands s fr gs p (logs ((λ i, Delivered i t) <$> l) s) (fr p) (drop l (gs p)).
Proof.
  intros S Hnd Hl. apply lands_at; [done|..].
  - revert s gs S Hl. induction Hnd as [|i l Hi Hnd IH]; intros s gs S Hl.
    + apply (SI_ext _ fr _ (<[p := drop [] (gs p)]> gs)); [done|done|].
      destruct (SI_extend s (logs [] s) fr gs [] S) as [S1 _]; try done; [intros d dv ?; by exists dv|].
      destruct (weaker_drop (logs [] s) fr [] (gs p)). by apply SI_ghost.
    + destruct (Hl i) as [Hh Ha]; [by left|]. destruct (SI_deliver _ _ _ _ _ _ S Hh Ha) as [S1 _].
      specialize (IH _ _ S1). rewrite fn_lookup_insert in IH.
      assert (logs ((λ i, Delivered i t) <$> i :: l) s = logs ((λ i, Delivered i t) <$> l) (logs [Delivered i t] s)) as ->.
      { unfold logs, add_events; simpl. by rewrite <- app_assoc. }
      rewrite <- drop_cons. eapply SI_ext; [done| |apply IH].
      * intros q. destruct (decide (p = q)) as [<-|]; [by rewrite !fn_lookup_insert|by rewrite !fn_lookup_insert_ne].
      * intros j Hj. destruct (Hl j) as [Hjh Hja]; [by right|]. split; [simpl; set_solver|done].
  - split; try done; [intros e ?; apply elem_of_app; by left|intros d dv ?; by exists dv].
Qed.

Lemma send_sound ch s fr gs p c a i b s' Φ :
  SI s fr gs → cn_frames c = fr p → op_wp (Send a i) (gs p) Φ →
  sendCommandToAgent ch s a i = (b, s') → ∃ g', Φ (Ok b) g' ∧ lands s fr gs p s' (cn_frames c) g'.
Proof.
  intros S Ec (Hh & Ha & Ht & Hf) Hs. unfold sendCommandToAgent in Hs. rewrite Ec.
  destruct (decide _) as [?|?]; [destruct (ch_sent ch)|]; simplify_eq.
  - exists (drop [i] (gs p)). split; [done|]. destruct (SI_deliver _ _ _ _ _ _ S Hh Ha) as [S1 G1]. by apply lands_at.
  - exists (gs p). split; [done|]. set (s1 := set_world _ _ _ s).
    destruct (SI_extend s s1 fr gs [] S) as [S1 G1]; try done; [by rewrite app_nil_r|intros d dv ?; by exists dv|].
    apply lands_at; [done| |done]. eapply SI_ext; [done| |exact S1]. intros q. by at_proc q p.
  - exists (gs p). split; [done|]. by apply lands_same.
Qed.

Lemma rollback_sound s fr gs p c :
  SI s fr gs → cn_frames c = fr p → lands s fr gs p s (cn_frames (rolled_back c)) (undone (gs p)).
Proof.
  intros S Ec. unfold rolled_back. pose proof (si_depth _ _ _ S p) as Hd.
  destruct (cn_frames c) as [|f l] eqn:El; simpl.
  - rewrite El. apply lands_same; [done|done|]. destruct (si_idle _ _ _ S p) as (E1 & E2 & E3); [by rewrite <- Hd, <- Ec|].
    rewrite <- Ec in Hd. simpl in Hd. split; simpl; try set_solver. by rewrite <- Hd.
  - apply (SI_pop _ _ _ _ _ _ _ _ S (eq_sym Ec)). by left.
Qed.

Lemma committed_sound s fr gs p c :
  SI s fr gs → cn_frames c = fr p → g_depth (gs p) ≠ 0%nat →
  lands s fr gs p (committed s c).1 (cn_frames (committed s c).2) (closed (gs p)).
Proof.
  intros S Ec Hn. unfold committed. pose proof (si_depth _ _ _ S p) as Hd. rewrite <- Ec in Hd.
  destruct (cn_frames c) as [|f [|f2 l]] eqn:El; simpl in *; [lia|..].
  - by apply (SI_commit _ _ _ _ _ S).
  - apply (SI_pop _ _ _ _ f (f2 :: l) _ _ S (eq_sym Ec)). right. by exists f2, l.
Qed.

Lemma close_sound ch s fr gs p c r s' c' Φ :
  SI s fr gs → cn_frames c = fr p → op_wp Close (gs p) Φ → close_tx ch s c = Some (r, s', c') →
  ∃ g', Φ r g' ∧ lands s fr gs p s' (cn_frames c') g'.
Proof.
  intros S Ec (Hn & Hok & He) Hc. unfold close_tx in Hc.
  assert (∀ e, ∃ g', Φ (Throw e) g' ∧ lands s fr gs p s (cn_frames (rolled_back c)) g') as Hr.
  { intros e. exists (undone (gs p)). split; [done|]. by apply rollback_sound. }
  destruct (cn_aborted c); [simplify_eq; apply Hr|]. pose proof (committed_sound _ _ _ _ _ S Ec Hn) as Hl.
  destruct (ch_fault ch); [by simplify_eq; eauto|simplify_eq; apply Hr|].
  pose proof (si_depth _ _ _ S p) as Hd. rewrite <- Ec in Hd.
  destruct (cn_frames c) as [|f [|f2 l]] eqn:El; simplify_eq; [|apply Hr].
  exists (undone (gs p)). split; [done|]. eapply lands_weaker; [exact Hl|].
  simpl in Hd. unfold closed. rewrite <- Hd. split; simpl; try set_solver.
  by rewrite <- Hd.
Qed.

Lemma open_sound ch s fr gs p c r s' c' Φ :
  SI s fr gs → cn_frames c = fr p → op_wp Open (gs p) Φ → open_tx ch s c = Some (r, s', c') →
  ∃ g', Φ r g' ∧ lands s fr gs p s' (cn_frames c') g'.
Proof.
  intros S Ec (Hok & He) Hc. unfold open_tx in Hc.
  assert (∀ e c1, cn_frames c1 = cn_frames c → ∃ g', Φ (Throw e) g' ∧ lands s fr gs p s (cn_frames c1) g') as Hr.
  { intros e c1 E. exists (gs p). split; [done|]. apply lands_same; [done|congruence|apply weaker_refl]. }
  destruct (cn_aborted c); [simplify_eq; by apply Hr|].
  destruct (ch_fault ch); simplify_eq; [|apply Hr; by destruct (cn_frames c) eqn:E; rewrite ?E..].
  exists (opened (gs p)). split; [done|]. by apply SI_open.
Qed.

(** ** Every action *)

Theorem exec_sound {A} (o : Op A) ch held s c r s' c' fr gs p Φ :
  SI s fr gs → cn_frames c = fr p → unlocked fr p held → op_wp o (gs p) Φ →
  exec o ch held s c = Some (r, s', c') →
  ∃ g', Φ r g' ∧ lands s fr gs p s' (cn_frames c') g'.
Proof.
  intros S Ec Hun Hwp Hex. symmetry in Ec. destruct o; simpl in Hwp, Hex.
  - simplify_eq. exists (gs p). split; [apply Hwp|]. by apply lands_same.
  - destruct (_ <=? _); simplify_eq. exists (gs p). split; [apply Hwp|]. by apply lands_same.
  - simplify_eq. exists (gs p). split; [|by apply lands_same]. rewrite <- (si_depth _ _ _ S), Ec in Hwp. by destruct (cn_frames c').
  - simplify_eq. exists (gs p). split; [apply Hwp|]. by apply lands_same.
  - destruct (sendCommandToAgent ch s agentId i) as [b s1] eqn:E. simplify_eq. by eapply send_sound.
  - destruct Hwp as (Hnd & Hl & Hok & He). destruct (ch_sent ch); simplify_eq.
    + exists (drop l (gs p)). split; [done|]. rewrite <- Ec. by apply push_sound.
    + exists (gs p). split; [done|]. by apply lands_same.
  - destruct Hwp as [Hpl Hok]. simplify_eq. exists (noted e (gs p)). split; [done|]. apply logs_sound; [done..|].
    destruct e; simpl; auto. apply weaker_learn. constructor; [|done]. apply elem_of_app. right. by left.
  - destruct Hwp as (Hok & Hno & He).
    destruct (sv_devices s !! d) as [dv|] eqn:Ed; simpl in Hex; [destruct (visible (dv_orgId dv)) eqn:Ev|].
    + eapply read_sound; [exact Hex|done|done|exact He|by apply Hok|]. apply weaker_learn. constructor; [by exists dv|done].
    + by eapply read_sound; [exact Hex|..].
    + by eapply read_sound; [exact Hex|..].
  - destruct Hwp as (Hok & Hno & He). destruct (filter _ _) as [|[d dv] l] eqn:Ef; simpl in Hex.
    + by eapply read_sound; [exact Hex|..].
    + eapply read_sound; [exact Hex|done|done|exact He|by apply Hok|]. apply weaker_learn. constructor; [|done].
      assert ((d, dv) ∈ (d, dv) :: l) as Hin by left. rewrite <- Ef in Hin. apply list_elem_of_filter in Hin as [? Hin].
      exists dv. by apply elem_of_map_to_list in Hin.
  - by eapply insert_sound.
  - by eapply update_sound.
  - by eapply update_many_sound.
  - by eapply delete_sound.
  - destruct Hwp as (Hok & Hno & He). destruct (rows s c !! i) as [r0|] eqn:Er; simpl in Hex; [destruct (guard r0) eqn:Eg|];
      [|by eapply read_sound; [exact Hex|..]..].
    pose proof Er as Er'. rewrite rows_top, <- Ec in Er'. destruct (visible_row _ _ _ _ _ _ S Er') as [Hrow _].
    eapply read_sound; [exact Hex|done|done|exact He|apply Hok; [done|by eapply row_known| |apply Hrow]|].
    + intros Hc. by eapply visible_closed.
    + unfold saw. apply weaker_learn. constructor; [apply Hrow|]. destruct (g_depth (gs p)) eqn:Ed; [|done].
      destruct (is_settled r0) eqn:Es; [|done]. constructor; [|done]. split; [|done].
      assert (fr p = []) as Efr by (apply length_zero_iff_nil; by rewrite (si_depth _ _ _ S)).
      rewrite laid_lookup, Efr in Er'. done.
  - destruct Hwp as (Hok & He). eapply read_sound; [exact Hex|done|done|exact He|apply Hok|].
    + apply list.Forall_forall. intros x Hx%oldest_elem%matching_rows. apply Hx.
    + apply weaker_learn, list.Forall_forall. intros fa (x & -> & Hx%oldest_elem%matching_rows)%list_elem_of_fmap.
      eapply seen_queued; [done..|]. apply Hx.
  - by eapply lock_sound.
  - destruct Hwp as (Hok & He). by eapply read_sound; [exact Hex|..].
  - destruct Hwp as (Hok & He). destruct (ch_sent ch); simplify_eq; exists (gs p); (split; [done|]).
    + apply logs_sound; [done|done|done|apply weaker_refl].
    + by apply lands_same.
  - by eapply open_sound.
  - by eapply close_sound.
  - simplify_eq. exists (undone (gs p)). split; [done|]. by apply rollback_sound.
Qed.

End steps.
