(* ===== verification/CommandHandlers.v ===== *)
(** * Commands to devices: every handler follows the rules

    [safe m g Q]: run from the ghost state [g], the program [m] takes only actions it may take; it leaves
    the depth of the transaction and what is known as they were, and ends in [Q].  The
    lemmas of the handlers compose those of the functions they call. *)

From S2P Require Import Prelude JsNum Json CommandRules CommandMachine CommandQueue CommandLogic.

Open Scope Z_scope.

Section handlers.
Context `{ResultText}.

Record keeps (g g' : Ghost) : Prop := {
  kp_depth : g_depth g' = g_depth g;
  kp_facts f : f ∈ g_facts g → f ∈ g_facts g' }.
Lemma keeps_refl g : keeps g g.
Proof. done. Qed.
Lemma keeps_trans g1 g2 g3 : keeps g1 g2 → keeps g2 g3 → keeps g1 g3.
Proof.
  intros [D1 F1] [D2 F2]. split; [congruence|auto].
Qed.

Definition safe {A} (m : Prog A) (g : Ghost) (Q : A → Ghost → Prop) : Prop :=
  wp m g (λ a g', keeps g g' ∧ Q a g') (λ g', keeps g g').

Abbreviation ends m g := (safe m g (λ _ _, True)).

(** ** Rules *)

Lemma safe_ret {A} (a : A) g (Q : A → Ghost → Prop) : Q a g → safe (mret a) g Q.
Proof. by split. Qed.
Lemma safe_throw {A} e g (Q : A → Ghost → Prop) : safe (PThrow e) g Q.
Proof. done. Qed.
Lemma safe_post {A} (m : Prog A) g (Q Q' : A → Ghost → Prop) :
  (∀ a g', keeps g g' → Q a g' → Q' a g') → safe m g Q → safe m g Q'.
Proof. intros HQ. apply wp_mono; [|done]. intros a g' [? ?]. split; auto. Qed.

Lemma safe_handle {A B} (m : Prog A) (f : A → Prog B) (hd : string → Prog B) g Q1 Q :
  safe m g Q1 → (∀ a g', keeps g g' → Q1 a g' → safe (f a) g' Q) →
  (∀ e g', keeps g g' → safe (hd e) g' Q) → safe (handle m f hd) g Q.
Proof.
  intros Hm Hf Hh. eapply wp_handle; [exact Hm|..].
  - intros a g' [Hk Ha]. eapply wp_mono; [..|by apply Hf].
    + intros b g'' [? ?]. split; [by eapply keeps_trans|done].
    + intros g'' ?. by eapply keeps_trans.
  - intros e g' Hk. eapply wp_mono; [..|by apply Hh].
    + intros b g'' [? ?]. split; [by eapply keeps_trans|done].
    + intros g'' ?. by eapply keeps_trans.
Qed.
Lemma safe_bind {A B} (m : Prog A) (f : A → Prog B) g Q1 Q :
  safe m g Q1 → (∀ a g', keeps g g' → Q1 a g' → safe (f a) g' Q) → safe (m ≫= f) g Q.
Proof. intros Hm Hf. by eapply safe_handle. Qed.
Lemma safe_catch {A} (m : Prog A) (hd : string → Prog A) g Q :
  safe m g Q → (∀ e g', keeps g g' → safe (hd e) g' Q) → safe (catch m hd) g Q.
Proof. intros Hm Hh. eapply safe_handle; [exact Hm| |done]. intros. by apply safe_ret. Qed.

(** An action, by its rule. *)
Lemma safe_act {X} (o : Op X) g Q :
  op_wp o g (λ r g', keeps g g' ∧ match r with Ok x => Q x g' | Throw _ => True end) → safe (act o) g Q.
Proof.
  intros Ho. unfold safe, act. simpl. eapply op_wp_mono; [|exact Ho]. by intros [x|e] g' [? ?].
Qed.
Lemma safe_fork p g : ends p no_ghost → safe (fork p) g (λ _ g', g' = g).
Proof.
  intros Hp. split; [|by split]. eapply wp_mono; [..|exact Hp]; done.
Qed.

Lemma keeps_learn l g : keeps g (learn l g).
Proof. split; [done|]. intros f ?. apply elem_of_app. by right. Qed.
Lemma keeps_claim i g : keeps g (claim i g).
Proof. unfold claim. by case_decide. Qed.
Lemma keeps_drop l g : keeps g (drop l g).
Proof. done. Qed.
Lemma keeps_closing i g : keeps g (closing i g).
Proof. unfold closing. destruct (g_depth g) eqn:E; [apply keeps_learn|]. by split; simpl. Qed.
Lemma keeps_inserted i sp g : keeps g (inserted i sp g).
Proof.
  unfold inserted. destruct (g_depth g) eqn:E; [apply keeps_learn|]. split; simpl; [done|]. intros f ?. by right.
Qed.
Lemma keeps_noted e g : keeps g (noted e g).
Proof. destruct e; try done. apply keeps_learn. Qed.
Hint Resolve keeps_refl keeps_learn keeps_claim keeps_drop keeps_closing keeps_inserted keeps_noted : core.

Lemma safe_clock g : safe (act Clock) g (λ _ g', g' = g).
Proof. apply safe_act. simpl. auto. Qed.
Lemma safe_sleep ms g : safe (sleep ms) g (λ _ g', g' = g).
Proof. eapply safe_bind; [apply safe_clock|]. intros t g' _ ->. apply safe_act. simpl. auto. Qed.
Lemma safe_note e g : plain e → safe (act (Note e)) g (λ _ g', g' = noted e g).
Proof. intros He. apply safe_act. simpl. auto. Qed.
Lemma safe_other t g : safe (act (OtherTable t)) g (λ _ g', g' = g).
Proof. apply safe_act. simpl. auto. Qed.
Lemma safe_enqueue t g : safe (act (Enqueue t)) g (λ _ g', g' = g).
Proof. apply safe_act. simpl. auto. Qed.

(** Programs that end in a ghost state they may forget. *)
Ltac plain_step :=
  match goal with
  | |- safe (mret _) _ _ => by apply safe_ret
  | |- safe (PRet _) _ _ => by apply safe_ret
  | |- safe (PThrow _) _ _ => apply safe_throw
  | |- safe (catch _ _) _ _ => apply safe_catch; [|intros ? ? _]
  | |- safe (act Clock ≫= _) _ _ => eapply safe_bind; [apply safe_clock|intros ? ? _ ->]
  | |- safe (act (Note _) ≫= _) _ _ => eapply safe_bind; [apply safe_note; done|intros ? ? _ ->]
  | |- safe (act (OtherTable _) ≫= _) _ _ => eapply safe_bind; [apply safe_other|intros ? ? _ ->]
  | |- safe (act (Enqueue _) ≫= _) _ _ => eapply safe_bind; [apply safe_enqueue|intros ? ? _ ->]
  | |- safe (act (Note _)) _ _ => eapply safe_post; [|apply safe_note; done]; done
  | |- safe (act (OtherTable _)) _ _ => eapply safe_post; [|apply safe_other]; done
  | |- safe (act (Enqueue _)) _ _ => eapply safe_post; [|apply safe_enqueue]; done
  | |- safe (if ?b then _ else _) _ _ => destruct b eqn:?
  | |- safe (match ?x with _ => _ end) _ _ => destruct x eqn:?
  end.

(** Transactions. *)
Lemma keeps_undone g g' : keeps (opened g) g' → keeps g (undone g').
Proof. intros [D F]. simpl in D, F. split; simpl; [by rewrite D|auto]. Qed.
Lemma closed_facts g f : f ∈ g_facts g → f ∈ g_facts (closed g).
Proof. intros Hf. unfold closed. destruct (g_depth g) as [|[|n]]; simpl; try done. apply elem_of_app. by right. Qed.
Lemma keeps_closed g g' : keeps (opened g) g' → keeps g (closed g').
Proof.
  intros [D F]. simpl in D, F. split; [|intros f ?; apply closed_facts; auto].
  unfold closed. rewrite D. by destruct (g_depth g).
Qed.

Lemma safe_transaction {A} (body : Prog A) g Q1 Q :
  safe body (opened g) Q1 → (∀ a g', keeps (opened g) g' → Q1 a g' → Q a (closed g')) →
  safe (db_transaction body) g Q.
Proof.
  intros Hb Hq. unfold safe, db_transaction. simpl. split; [|done].
  eapply wp_handle; [exact Hb|..].
  - intros a g' [Hk Ha]. simpl. split; [by rewrite (kp_depth _ _ Hk)|]. split.
    + split; [by apply keeps_closed|by apply Hq].
    + intros _. by apply keeps_undone.
  - intros e g' Hk. simpl. by apply keeps_undone.
Qed.

(** A context opens a transaction outside one only. *)
Lemma safe_context0 {A} (body : Prog A) g Q1 Q :
  g_depth g = 0%nat → safe body (opened g) Q1 → (∀ a g', keeps (opened g) g' → Q1 a g' → Q a (closed g')) →
  safe (withDbAccessContext body) g Q.
Proof.
  intros Hd Hb Hq. unfold safe, withDbAccessContext. simpl. rewrite Hd. simpl. by eapply safe_transaction.
Qed.
Lemma safe_context1 {A} (body : Prog A) g Q :
  g_depth g ≠ 0%nat → safe body g Q → safe (withDbAccessContext body) g Q.
Proof.
  intros Hd Hb. unfold safe, withDbAccessContext. simpl. destruct (g_depth g); [done|]. exact Hb.
Qed.
Lemma safe_context {A} (body : Prog A) g : (∀ g, ends body g) → ends (withDbAccessContext body) g.
Proof.
  intros Hb. destruct (decide (g_depth g = 0%nat)); [by eapply safe_context0|by apply safe_context1].
Qed.

(** ** Delivery *)

(** A claim outside a transaction, or of a row inserted in the outermost one, may be used. *)
Lemma claim_safe i g :
  at_once i g → safe (claimPendingCommandForDelivery i) g (λ r g', ∀ t, r = Some t → i ∈ g_held g').
Proof.
  intros Ha. unfold claimPendingCommandForDelivery. repeat plain_step.
  assert (∀ t, claims (in_status [pending]) (to_sent t)) as Hc.
  { intros t r Hr%in_status_iff. set_solver. }
  destruct Ha as [Hd|[Hd Ho]].
  - eapply safe_bind.
    + eapply (safe_context0 _ _ (λ b g', b = true → i ∈ g_held g' ∪ g_claimed g')); [done| |].
      * apply safe_act. simpl. left. split_and!; [done|apply keeps_claim| |done|done|done].
        intros _. unfold claim. case_decide; simpl; set_solver.
      * instantiate (1 := λ b g', b = true → i ∈ g_held g'). simpl. intros b g' [Hd' _] Hb Ht.
        unfold closed. rewrite Hd'. simpl. rewrite Hd. simpl. auto.
    + intros b g' _ Hb. apply safe_ret. intros t. destruct b; [by auto|done].
  - eapply safe_bind.
    + eapply (safe_context1 _ _ (λ b g', b = true → i ∈ g_held g')); [lia|]. apply safe_act. simpl. left.
      split_and!; [done|apply keeps_claim| |done|done|done]. intros _. unfold claim, at_once.
      rewrite decide_True by auto. simpl. set_solver.
    + intros b g' _ Hb. apply safe_ret. intros t. destruct b; [by auto|done].
Qed.

Lemma release_safe i t g : i ∈ g_held g → ends (releaseClaimedCommandDelivery i t) g.
Proof.
  intros Hi. unfold releaseClaimedCommandDelivery. eapply safe_bind with (Q1 := λ _ _, True); [|intros; by apply safe_ret].
  assert (∀ g, i ∈ g_held g → ends (act (Update i
      (λ r, in_status [sent] r && bool_decide (pg_executedAt (dc_at r) = Some t)) to_pending)) g) as Hu.
  { intros g' Hi'. apply safe_act. simpl. right; left. split_and!; [done| |auto|auto].
    intros r Hr. bool_prop. rewrite in_status_iff in *. set_solver. }
  destruct (decide (g_depth g = 0%nat)); [|apply safe_context1; auto]. eapply safe_context0; [done|by apply Hu|done].
Qed.

(** What a poll may hand over. *)
Definition handable (deviceId : uuid) (r : Role) (l : list uuid) (g : Ghost) : Prop :=
  NoDup l ∧ ∀ i, i ∈ l → ∃ sp, Is_queued i sp ∈ g_facts g ∧ sp_deviceId sp = deviceId ∧ sp_targetRole sp = r.
Lemma handable_keeps d r l g g' : keeps g g' → handable d r l g → handable d r l g'.
Proof.
  intros K [Hn Hl]. split; [done|]. intros i Hi. destruct (Hl i Hi) as (sp & ? & ?). exists sp. split; [by apply K|done].
Qed.

Lemma claim_each_safe d ro l g :
  (1 < g_depth g)%nat → NoDup l.*1 →
  Forall (λ x, Is_queued x.1 (dc_spec x.2) ∈ g_facts g ∧ claimable d ro x.2 = true) l →
  safe (claim_each d ro l) g
    (λ k g', k `sublist_of` l.*1 ∧ list_to_set k ⊆ g_claimed g' ∧ g_claimed g ⊆ g_claimed g').
Proof.
  revert g. induction l as [|[i r] l IH]; intros g Hd Hn Hl; simpl.
  - apply safe_ret. split_and!; [done|set_solver|done].
  - apply list.NoDup_cons in Hn as [Hi Hn]. apply list.Forall_cons in Hl as [_ Hl].
    eapply safe_bind; [apply safe_clock|intros t ? _ ->].
    eapply safe_bind with (Q1 := λ b g', g_claimed g ⊆ g_claimed g' ∧ (b = true → i ∈ g_claimed g')).
    { apply safe_act. simpl. left. split_and!; [|apply keeps_claim| | |done|done|done|done].
      - intros r' Hr. unfold claimable in Hr. bool_prop. rewrite in_status_iff in *. set_solver.
      - unfold claim, at_once. rewrite decide_False by lia. simpl. set_solver.
      - intros _. unfold claim, at_once. rewrite decide_False by lia. simpl. set_solver. }
    intros b g' K [Hc Hb]. eapply safe_bind.
    { apply IH; [by rewrite (kp_depth _ _ K)|done|]. eapply Forall_impl; [exact Hl|]. intros x [? ?]. split; [by apply K|done]. }
    intros k g'' _ (Hk & Hk2 & Hk3). apply safe_ret. clear IH Hl.
    assert (g_claimed g ⊆ g_claimed g'') by (by etrans).
    destruct b; split_and!; [by apply sublist_skip| |done|by apply sublist_cons|done|done].
    simpl. apply union_subseteq. split; [|done]. apply singleton_subseteq_l. by apply Hk3, Hb.
Qed.

Lemma claim_all_safe d n ro g :
  g_depth g = 1%nat →
  safe (claimPendingCommandsForDevice d n ro) g (λ l g', handable d ro l g' ∧ list_to_set l ⊆ g_claimed g').
Proof.
  intros Hd. unfold claimPendingCommandsForDevice. eapply safe_transaction.
  - eapply safe_bind with (Q1 := λ l g', NoDup l.*1 ∧ Forall (λ x, Is_queued x.1 (dc_spec x.2) ∈ g_facts g' ∧ claimable d ro x.2 = true) l).
    + apply safe_act. simpl. split_and!; [done| |auto]. intros l Hn Hl. split; [apply keeps_learn|]. split; [done|].
      apply list.Forall_forall. intros x Hx. split; [|by eapply list.Forall_forall in Hl]. simpl. apply elem_of_app. left.
      apply list_elem_of_fmap. by exists x.
    + intros l g' K [Hn Hl]. eapply safe_post; [|apply claim_each_safe; [rewrite (kp_depth _ _ K); simpl; lia|done|done]].
      intros k g'' K2 (Hs & Hc & _). instantiate (1 := λ k g', handable d ro k g' ∧ list_to_set k ⊆ g_claimed g'). simpl.
      split; [|done]. split; [by eapply sublist_NoDup|]. intros i Hi.
      assert (i ∈ l.*1) as Hi' by (by eapply elem_of_sublist). apply list_elem_of_fmap in Hi' as (x & -> & Hx).
      eapply list.Forall_forall in Hl as [Hq Hcl]; [|exact Hx]. exists (dc_spec x.2). split; [by apply K2|].
      unfold claimable in Hcl. by bool_prop.
  - intros l g' [Hd' _] [Hh Hc]. unfold closed. simpl in Hd'. rewrite Hd', Hd. simpl. done.
Qed.

(** ** Single statements *)

Lemma safe_insert d ty pl ro u g :
  safe (act (Insert d ty pl ro u)) g (λ x g', g' = inserted x.1 (dc_spec x.2) g ∧
    sp_deviceId (dc_spec x.2) = d ∧ sp_type (dc_spec x.2) = ty ∧ sp_payload (dc_spec x.2) = pl ∧
    sp_targetRole (dc_spec x.2) = ro).
Proof.
  apply safe_act. simpl. split; [|auto]. intros i r Hr. split; [apply keeps_inserted|]. simpl.
  split; [done|]. rewrite Hr. done.
Qed.
Lemma inserted_at_once i sp g : (g_depth g ≤ 1)%nat → at_once i (inserted i sp g).
Proof.
  intros Hd. unfold inserted, at_once. destruct (g_depth g) as [|[|]] eqn:E; simpl; rewrite ?E; [by left|right|lia].
  split; [done|set_solver].
Qed.
Lemma inserted_queued i sp g : Is_queued i sp ∈ g_facts (inserted i sp g).
Proof. unfold inserted. destruct (g_depth g); by left. Qed.

Lemma safe_find visible d g :
  safe (act (FindDevice visible d)) g
    (λ x g', ∀ dv, x = Some dv → Has_agent d (dv_agentId dv) ∈ g_facts g').
Proof. apply safe_act. simpl. split_and!; [|auto..]; [|done]. intros dv _. split; [apply keeps_learn|]. intros ? [= <-]. by left. Qed.

(** Commands end as failed or cancelled with any note. *)
Lemma safe_settle i guard st t v g :
  (∀ r, guard r = true → is_open r = true) → st = failed ∨ st = cancelled →
  safe (act (Update i guard (settle st t v))) g (λ _ g', g' = g).
Proof.
  intros Hg Hst. apply safe_act. simpl. right; right. split_and!; [|auto|left; auto].
  intros r Hr _. split_and!; [by apply Hg| |by eexists|].
  - unfold is_settled, in_status. apply bool_decide_eq_true. simpl. set_solver.
  - simpl. intros ->. by destruct Hst.
Qed.
Lemma safe_cancel guard t v g :
  (∀ r, guard r = true → is_open r = true) → ends (act (UpdateMany guard (settle cancelled t v))) g.
Proof.
  intros Hg. apply safe_act. simpl. split_and!; [|auto..]. intros r Hr. split_and!; [by apply Hg|done|by eexists|done].
Qed.
Lemma in_status_open l r : l ⊆ [pending; sent] → in_status l r = true → is_open r = true.
Proof. unfold is_open. rewrite !in_status_iff. set_solver. Qed.
Lemma safe_delete i g : ends (act (Delete i (in_status [pending]))) g.
Proof. apply safe_act. simpl. split_and!; [|auto..]. intros r Hr%in_status_iff. set_solver. Qed.
Lemma safe_select_many guard n g : safe (act (SelectMany guard n)) g (λ l g', Forall (λ p, guard p.2 = true) l).
Proof. apply safe_act. simpl. split; [|auto]. intros l Hl. split; [apply keeps_learn|done]. Qed.

Definition to_socket (i : uuid) (a : string) (g : Ghost) : Prop := addressed i (ToSocket a) g.
Lemma to_socket_keeps i a g g' : keeps g g' → to_socket i a g → to_socket i a g'.
Proof.
  intros K (sp & ? & ? & ?). exists sp. split; [by apply K|]. split; [done|by apply K].
Qed.
Lemma safe_send a i g :
  i ∈ g_held g → to_socket i a g → safe (act (Send a i)) g (λ b g', b = false → i ∈ g_held g').
Proof. intros Hi Ha. apply safe_act. simpl. split_and!; auto; done. Qed.

(** ** The queue *)

Lemma audit_queued_safe d ty u : ends (audit_queued d ty u) no_ghost.
Proof.
  unfold audit_queued. apply safe_catch; [|intros; repeat plain_step].
  apply safe_context. intros g. eapply safe_bind; [apply safe_find|]. intros dv g' _ _. repeat plain_step.
Qed.

Lemma queueCommand_safe d ty pl u g :
  safe (queueCommand d ty pl u) g (λ x g', g' = inserted x.1 (dc_spec x.2) g ∧
    sp_deviceId (dc_spec x.2) = d ∧ sp_targetRole (dc_spec x.2) = for_agent).
Proof.
  unfold queueCommand. eapply safe_bind; [apply safe_insert|]. intros x g' _ (-> & Hd & _ & _ & Hr).
  eapply safe_bind with (Q1 := λ _ g', g' = inserted x.1 (dc_spec x.2) g).
  { destruct (has AUDITED_COMMANDS ty); [by apply safe_ret|]. eapply safe_post; [|by apply safe_note]. by intros ? ? ? ->. }
  intros _ ? _ ->. eapply safe_bind with (Q1 := λ _ g', g' = inserted x.1 (dc_spec x.2) g).
  { destruct (has AUDITED_COMMANDS ty); [apply safe_fork, audit_queued_safe|by apply safe_ret]. }
  intros _ ? _ ->. by apply safe_ret.
Qed.

Lemma queueCommandForExecution_safe vis d ty pl u h o g :
  (g_depth g ≤ 1)%nat → ends (queueCommandForExecution vis d ty pl u h o) g.
Proof.
  intros Hd. unfold queueCommandForExecution. eapply safe_bind; [apply safe_find|]. intros [dv|] g1 K1 Hdv; [|by apply safe_ret].
  specialize (Hdv _ eq_refl). do 2 (plain_step; [by apply safe_ret|]).
  eapply safe_bind; [apply queueCommand_safe|]. intros x g2 K2 (-> & Hx & Hr).
  plain_step; [|by apply safe_ret].
  assert (at_once x.1 (inserted x.1 (dc_spec x.2) g1)) as Ha by (apply inserted_at_once; rewrite (kp_depth _ _ K1); done).
  eapply safe_bind; [by apply claim_safe|]. intros [t|] g3 K3 Hh; [|by apply safe_ret]. specialize (Hh _ eq_refl).
  eapply safe_bind; [apply safe_send; [done|]|].
  - exists (dc_spec x.2). split; [apply K3, inserted_queued|]. split; [done|]. rewrite Hx. by apply K3, K2.
  - intros b g4 _ Hb. destruct b; [by apply safe_ret|].
    eapply safe_bind; [by apply release_safe, Hb|]. intros; by apply safe_ret.
Qed.

Lemma queueBackupStopCommand_safe d u g : g_depth g = 0%nat → ends (queueBackupStopCommand d u) g.
Proof.
  intros Hd. unfold queueBackupStopCommand. eapply (safe_context0 _ _ (λ _ _, True)); [done| |done].
  eapply safe_bind; [apply queueCommandForExecution_safe; simpl; lia|]. intros [e|[i st]] g' _ _; [by apply safe_ret|].
  plain_step; [by apply safe_ret|]. eapply safe_bind; [apply safe_delete|]. intros; by apply safe_ret.
Qed.

Lemma record_timeout_safe ty src g : safe (record_timeout ty src) g (λ _ g', g' = g).
Proof.
  unfold record_timeout. eapply safe_bind with (Q1 := λ _ g', g' = g).
  - plain_step; [|by apply safe_ret]. eapply safe_post; [|by apply safe_note]. by intros ? ? ? ->.
  - intros _ ? _ ->. plain_step; [|by apply safe_ret]. eapply safe_post; [|by apply safe_note]. by intros ? ? ? ->.
Qed.

(** ** Waiting for a result *)

Lemma safe_loop {A S Y} (s : S) (body : S → Prog (S + Y)) (k : Y → Prog A) g (I : S → Ghost → Prop) Q :
  I s g →
  (∀ s g', keeps g g' → I s g' →
     safe (body s) g' (λ r g'', match r with inl s' => I s' g'' | inr x => safe (k x) g'' Q end)) →
  safe (PLoop s body k) g Q.
Proof.
  intros Hi Hb. exists (λ s g', keeps g g' ∧ I s g'). split; [done|]. intros s' g' [K Hs].
  eapply wp_mono; [..|by apply Hb].
  - intros [s''|x] g'' [K' Hr]; [split; [by eapply keeps_trans|done]|].
    eapply wp_mono; [..|exact Hr].
    + intros a g3 [? ?]. split; [do 2 (eapply keeps_trans; [done|]); done|done].
    + intros g3 ?. do 2 (eapply keeps_trans; [done|]). done.
  - intros g'' ?. by eapply keeps_trans.
Qed.

(** The row a wait returns is settled, and stays as it is. *)
Definition recorded (i : uuid) (sp : Spec) (r : DeviceCommand) (g : Ghost) : Prop :=
  Is_settled i r ∈ g_facts g ∧ dc_spec r = sp ∧ is_Some (pg_result (dc_at r)).

Lemma safe_select i sp g :
  g_depth g = 0%nat → Is_queued i sp ∈ g_facts g →
  safe (act (Select i everything)) g (λ x g', ∀ r, x = Some r →
    (settled r → recorded i sp r g') ∧ (Is_closed i ∈ g_facts g → settled r)).
Proof.
  intros Hd Hq. apply safe_act. simpl. split_and!; [|auto|done|auto]. intros r _ Hsp Hcl Hres.
  split; [unfold saw; apply keeps_learn|]. intros ? [= <-]. split; [|done]. intros Hs. split_and!; [|by apply Hsp|auto].
  unfold saw. rewrite Hd, Hs. right. by left.
Qed.

Lemma finished_settled r : is_finished r = true → settled r.
Proof. unfold is_finished, is_settled. rewrite !in_status_iff. set_solver. Qed.

Lemma stop_waiting_safe i sp t last g :
  g_depth g = 0%nat → Is_queued i sp ∈ g_facts g → Is_born i ∈ g_facts g →
  safe (stop_waiting i t last) g (λ x g', ∀ r, x = Some r → recorded i sp r g').
Proof.
  intros Hd Hq Hb. unfold stop_waiting. eapply safe_bind; [apply safe_clock|intros now ? _ ->].
  eapply safe_bind with (Q1 := λ _ g', Is_closed i ∈ g_facts g').
  { eapply (safe_context0 _ _ (λ _ g', i ∈ g_closing g')); [done| |].
    - apply safe_act. simpl. right; right. split_and!; [|auto|right].
      + intros r Hr _. split_and!; [done|done|by eexists|done].
      + split_and!; [done|done|]. intros b. split; [apply keeps_closing|]. unfold closing. simpl. set_solver.
    - simpl. intros _ g' [Hd' _] Hc. unfold closed. rewrite Hd'. simpl. rewrite Hd. simpl. apply elem_of_app. left.
      apply elem_of_app. right. apply list_elem_of_fmap. exists i. split; [done|]. by apply elem_of_elements. }
  intros b g1 K1 Hc. eapply safe_bind with (Q1 := λ _ g', g' = g1).
  { destruct last; [|by apply safe_ret]. destruct b; [apply record_timeout_safe|by apply safe_ret]. }
  intros _ ? _ ->. eapply safe_post; [|apply (safe_select i sp); [by rewrite (kp_depth _ _ K1)|by apply K1]].
  intros x g2 K2 Hx r Hr. destruct (Hx r Hr) as [H1 H2]. auto.
Qed.

Lemma wait_safe i sp t poll g :
  g_depth g = 0%nat → Is_queued i sp ∈ g_facts g → Is_born i ∈ g_facts g →
  safe (waitForCommandResult i t poll) g (λ x g', ∀ r, x = Some r → recorded i sp r g').
Proof.
  intros Hd Hq Hb. unfold waitForCommandResult. eapply safe_bind; [apply safe_clock|intros start ? _ ->].
  apply safe_loop with (I := λ _ _, True); [done|]. intros last g1 K1 _. unfold poll_once.
  assert (g_depth g1 = 0%nat) as Hd1 by (by rewrite (kp_depth _ _ K1)).
  eapply safe_bind; [apply safe_clock|intros now ? _ ->]. plain_step.
  - eapply safe_bind; [apply (safe_select i sp); [done|by apply K1]|]. intros [r|] g2 K2 Hr; [|apply safe_throw].
    plain_step.
    + apply safe_ret. apply safe_ret. intros ? [= <-]. by apply (Hr r), finished_settled.
    + eapply safe_bind; [apply safe_sleep|intros _ ? _ ->]. by apply safe_ret.
  - apply safe_ret. apply stop_waiting_safe; [done|by apply K1..].
Qed.

(** ** Executing a command *)

Lemma send_attempts_safe n a i g :
  i ∈ g_held g → to_socket i a g → safe (send_attempts n a i) g (λ b g', b = false → i ∈ g_held g').
Proof.
  revert g. induction n as [|n IH]; intros g Hi Ha; simpl; [by apply safe_ret|].
  eapply safe_bind; [by apply safe_send|]. intros b g1 K1 Hb. destruct b; [by apply safe_ret|].
  eapply safe_bind with (Q1 := λ _ g', g' = g1); [destruct n; [by apply safe_ret|apply safe_sleep]|].
  intros _ ? _ ->. apply IH; [by apply Hb|by eapply to_socket_keeps].
Qed.

Lemma dispatch_safe a i ty g : at_once i g → to_socket i a g → ends (dispatch_command a i ty) g.
Proof.
  intros Ho Ha. unfold dispatch_command. eapply safe_bind; [by apply claim_safe|].
  intros [t|] g1 K1 Hh; [|by apply safe_ret]. eapply safe_bind; [apply send_attempts_safe; [by eapply Hh|by eapply to_socket_keeps]|].
  intros b g2 _ Hb. destruct b; [by apply safe_ret|]. eapply safe_bind; [by apply release_safe, Hb|].
  intros; by apply safe_ret.
Qed.

(** A refusal before the command is on its way, or what the table records for it. *)
Definition answers (d : uuid) (ty : string) (pl : json) (ro : Role) (v : Stored) (g : Ghost) : Prop :=
  (∃ e, v = failure e ∧ (e = "Device not found" ∨ e = DEVICE_UNREACHABLE_ERROR ∨
                         ∃ st, e = "Device is " +:+ st +:+ ", cannot execute command")) ∨
  ∃ i r, Is_settled i r ∈ g_facts g ∧ pg_result (dc_at r) = Some v ∧
         sp_deviceId (dc_spec r) = d ∧ sp_type (dc_spec r) = ty ∧ sp_payload (dc_spec r) = pl ∧
         sp_targetRole (dc_spec r) = ro.

Lemma audit_executed_safe : ends audit_executed no_ghost.
Proof.
  unfold audit_executed. apply safe_catch; [|intros; repeat plain_step]. apply safe_context. intros g. repeat plain_step.
Qed.

Lemma executeCommand_safe vis d ty pl o g :
  g_depth g = 0%nat → safe (executeCommand vis d ty pl o) g (answers d ty pl (eo_targetRole o)).
Proof.
  intros Hd. unfold executeCommand. eapply safe_bind; [apply safe_find|].
  intros [dv|] g1 K1 Hdv; [|apply safe_ret; left; eexists; split; [done|by left]]. specialize (Hdv _ eq_refl).
  plain_step; [apply safe_ret; left; eexists; split; [done|]; do 2 right; by eexists|].
  set (ws := truthy _ && _). eapply safe_bind with (Q1 := λ _ g', g' = g1).
  { plain_step; [|by apply safe_ret]. apply safe_act. simpl. auto. }
  intros con ? _ ->. plain_step; [apply safe_ret; left; eexists; split; [done|]; right; by left|].
  set (u := match eo_userId o with Some _ => _ | None => _ end).
  eapply safe_bind with (Q1 := λ x g', Is_queued x.1 (dc_spec x.2) ∈ g_facts g' ∧ Is_born x.1 ∈ g_facts g' ∧
    sp_deviceId (dc_spec x.2) = d ∧ sp_type (dc_spec x.2) = ty ∧ sp_payload (dc_spec x.2) = pl ∧
    sp_targetRole (dc_spec x.2) = eo_targetRole o).
  { eapply safe_context0; [by rewrite (kp_depth _ _ K1)|apply safe_insert|]. simpl.
    intros [i r] g' [Hd' Hf] [Eg Hs]. split_and!; try apply Hs.
    - apply closed_facts. rewrite Eg. apply inserted_queued.
    - unfold closed. simpl in Hd'. rewrite Hd', (kp_depth _ _ K1), Hd. apply elem_of_app. left. apply elem_of_app. left.
      apply list_elem_of_fmap. exists i. split; [done|]. apply elem_of_elements. rewrite Eg. unfold inserted. simpl. set_solver. }
  intros [i r] g2 K2 (Hq & Hb & Hs1 & Hs2 & Hs3 & Hs4). simpl in *.
  assert (g_depth g2 = 0%nat) as Hd2 by (by rewrite (kp_depth _ _ K2), (kp_depth _ _ K1)).
  eapply safe_bind with (Q1 := λ _ g', g' = g2).
  { plain_step; [apply safe_fork, audit_executed_safe|by apply safe_ret]. }
  intros _ ? _ ->. eapply safe_bind with (Q1 := λ _ _, True).
  { destruct ws eqn:Ews; [|by apply safe_ret]. apply dispatch_safe; [by left|]. exists (dc_spec r). split; [done|].
    subst ws. bool_prop. split; [congruence|]. rewrite Hs1. by apply K2. }
  intros w g3 K3 _. plain_step; [apply safe_ret; left; eexists; split; [done|]; right; by left|].
  eapply safe_bind; [apply (wait_safe i (dc_spec r)); [by rewrite (kp_depth _ _ K3)|by apply K3..]|].
  intros [r'|] g4 K4 Hr; [|apply safe_throw]. destruct (Hr r' eq_refl) as (Hset & Hsp & [v Hv]).
  apply safe_ret. right. exists i, r'. rewrite Hv, Hsp. done.
Qed.

(** ** Polls and sockets *)

(** What was claimed in a transaction may be handed over after its commit. *)
Definition pushable (t : Target) (l : list uuid) (g : Ghost) : Prop :=
  NoDup l ∧ ∀ i, i ∈ l → i ∈ g_held g ∧ addressed i t g.
Lemma safe_push t l g : pushable t l g → ends (act (Push t l)) g.
Proof. intros [? ?]. apply safe_act. simpl. split_and!; auto; done. Qed.

Lemma committed_pushable d ro l t g :
  g_depth g = 1%nat → handable d ro l g → list_to_set l ⊆ g_claimed g →
  match t with ToSocket a => ro = for_agent ∧ Has_agent d a ∈ g_facts g | ToPoll d' r => d' = d ∧ r = ro end →
  pushable t l (closed g).
Proof.
  intros Hd [Hn Hl] Hc Ht. split; [done|]. intros i Hi. split.
  - unfold closed. rewrite Hd. simpl. apply elem_of_union. right. apply Hc. by apply elem_of_list_to_set.
  - destruct (Hl i Hi) as (sp & Hq & <- & <-). exists sp. split; [by apply closed_facts|].
    destruct t; simpl in *; [|naive_solver]. destruct Ht. split; [done|by apply closed_facts].
Qed.

Lemma poll_safe d ro g : g_depth g = 0%nat → ends (poll_commands d ro) g.
Proof.
  intros Hd. unfold poll_commands. eapply safe_bind with (Q1 := λ l g', pushable (ToPoll d ro) l g').
  - eapply safe_context0; [done|apply claim_all_safe; simpl; lia|]. intros l g' K [Hh Hc].
    eapply committed_pushable; [rewrite (kp_depth _ _ K); simpl; lia|done..].
  - intros l g' _ Hp. eapply safe_bind; [by apply safe_push|]. intros; by apply safe_ret.
Qed.

Lemma heartbeat_safe d ro g : g_depth g = 0%nat → ends (heartbeat d ro) g.
Proof.
  intros Hd. unfold heartbeat. eapply safe_bind with (Q1 := λ l g', pushable (ToPoll d ro) l g').
  - eapply (safe_context0 _ _ (λ l g', handable d ro l g' ∧ list_to_set l ⊆ g_claimed g')); [done| |].
    + plain_step. eapply safe_bind; [apply claim_all_safe; simpl; lia|]. intros l g' _ Hl. plain_step. by apply safe_ret.
    + intros l g' K [Hh Hc]. eapply committed_pushable; [rewrite (kp_depth _ _ K); simpl; lia|done..].
  - intros l g' _ Hp. eapply safe_bind; [by apply safe_push|]. intros; by apply safe_ret.
Qed.

(** Commands fetched for the socket of an agent inside a transaction. *)
Definition fetched (a : string) (l : list uuid) (g : Ghost) : Prop :=
  l = [] ∨ ∃ d, handable d for_agent l g ∧ list_to_set l ⊆ g_claimed g ∧ Has_agent d a ∈ g_facts g.

Lemma ws_pending_safe a g : g_depth g = 1%nat → safe (ws_getPendingCommands a) g (fetched a).
Proof.
  intros Hd. unfold ws_getPendingCommands. apply safe_catch; [|intros; apply safe_ret; by left].
  eapply safe_bind with (Q1 := λ x g', ∀ d, x = Some d → Has_agent d a ∈ g_facts g').
  { apply safe_act. simpl. split_and!; [|auto|done|auto]. intros d. split; [apply keeps_learn|]. intros ? [= <-]. by left. }
  intros [d|] g1 K1 Hx; [|apply safe_ret; by left].
  eapply safe_post; [|apply claim_all_safe; by rewrite (kp_depth _ _ K1)].
  intros l g2 K2 [? ?]. right. exists d. split_and!; [done|done|]. by apply K2, Hx.
Qed.
Lemma update_status_safe g : safe updateDeviceStatus g (λ _ g', g_depth g' = g_depth g).
Proof.
  unfold updateDeviceStatus. apply safe_catch; [|intros e g' K; apply safe_ret; apply K].
  eapply safe_post; [|apply safe_other]. by intros ? ? ? ->.
Qed.
Lemma fetched_pushable a l g : g_depth g = 1%nat → fetched a l g → pushable (ToSocket a) l (closed g).
Proof.
  intros Hd [->|(d & Hh & Hc & Ha)]; [split; [apply base.NoDup_nil_2|by intros ? ?%elem_of_nil]|].
  by eapply committed_pushable.
Qed.

Lemma ws_open_safe a g : g_depth g = 0%nat → ends (ws_open a) g.
Proof.
  intros Hd. unfold ws_open. eapply safe_bind with (Q1 := λ l g', pushable (ToSocket a) l g').
  - eapply (safe_context0 _ _ (fetched a)); [done| |].
    + eapply safe_bind; [apply update_status_safe|]. intros [] g' _ E. apply ws_pending_safe. rewrite E. simpl. lia.
    + intros l g' K Hf. apply fetched_pushable; [rewrite (kp_depth _ _ K); simpl; lia|done].
  - intros l g' _ Hp. eapply safe_bind; [by apply safe_push|]. intros; by apply safe_ret.
Qed.
Lemma ws_heartbeat_safe a g : g_depth g = 0%nat → ends (ws_heartbeat a) g.
Proof.
  intros Hd. unfold ws_heartbeat. apply safe_catch; [|intros; by apply safe_ret].
  eapply safe_bind; [apply safe_context; intros g'; eapply safe_post; [|apply update_status_safe]; done|].
  intros _ g1 K1 _. assert (g_depth g1 = 0%nat) as Hd1 by (by rewrite (kp_depth _ _ K1)).
  eapply safe_bind with (Q1 := λ l g', pushable (ToSocket a) l g').
  - eapply (safe_context0 _ _ (fetched a)); [done|apply ws_pending_safe; simpl; lia|].
    intros l g' K Hf. apply fetched_pushable; [rewrite (kp_depth _ _ K); simpl; lia|done].
  - intros l g' _ Hp. eapply safe_bind; [by apply safe_push|]. intros; by apply safe_ret.
Qed.

(** ** Results *)

Lemma record_result_safe i d ro sp data g :
  Was_reported i d ro data ∈ g_facts g → Is_queued i sp ∈ g_facts g →
  ends (record_result i d ro (sp_type sp) data) g.
Proof.
  intros Hrep Hq. unfold record_result. eapply safe_bind; [apply safe_clock|intros t ? _ ->].
  apply safe_act. simpl. right; right. split_and!; [|auto|left; auto].
  set (n := normalizeCriticalResultIfNeeded (sp_type sp) data).
  intros r Hr Hsp. unfold accepts in Hr. bool_prop. split_and!; [done| |by eexists|].
  - unfold is_settled, in_status. simpl. unfold final_status. by case_decide.
  - simpl. intros Hc. exists data. split_and!; [by subst d ro| |by rewrite (Hsp _ Hq)].
    apply (stored_completed (sp_type sp)). unfold stored_result. simpl. unfold final_status in Hc. by case_decide.
Qed.

Lemma run_handlers_safe l i g : ends (run_handlers l i) g.
Proof. revert g. induction l as [|h l IH]; intros g; cbn [run_handlers]; [by apply safe_ret|]. plain_step. apply IH. Qed.
Lemma reconcile_safe i id g : ends (post_dr i id) g ∧ ends (ws_dr i id) g.
Proof.
  assert (∀ g, ends (enqueueDrExecutionReconcile id) g) as He by (intros; unfold enqueueDrExecutionReconcile; repeat plain_step).
  split.
  - apply safe_catch; [|intros; repeat plain_step]. plain_step. apply He.
  - unfold ws_dr. plain_step. apply safe_catch; [apply He|]. intros. repeat plain_step.
Qed.
Lemma collect_again_safe d g : g_depth g = 0%nat → ends (collect_again d) g.
Proof.
  intros Hd. unfold collect_again. apply safe_catch; [|intros; repeat plain_step].
  eapply safe_bind with (Q1 := λ _ _, True); [|intros [e|?] g' _ _; [|by apply safe_ret]; repeat plain_step].
  eapply (safe_context0 _ _ (λ _ _, True)); [done|apply queueCommandForExecution_safe; simpl; lia|done].
Qed.
Lemma dr_safe (b : bool) (id : option string) (f : string → Prog unit) g :
  (∀ x, ends (f x) g) → ends (if b then match id with Some x => f x | None => mret tt end else mret tt) g.
Proof. intros Hf. destruct b, id; [apply Hf|by apply safe_ret..]. Qed.

Lemma safe_see i guard g :
  safe (act (Select i guard)) g (λ x g', ∀ r, x = Some r → guard r = true ∧ Is_queued i (dc_spec r) ∈ g_facts g').
Proof.
  apply safe_act. simpl. split_and!; [|auto|done|auto]. intros r Hr _ _ _. split; [unfold saw; apply keeps_learn|].
  intros ? [= <-]. split; [done|]. by left.
Qed.

Lemma post_result_safe d ro i data g : g_depth g = 0%nat → ends (post_result d ro i data) g.
Proof.
  intros Hd. unfold post_result. eapply safe_bind; [by apply safe_note|]. intros _ ? K0 ->.
  assert (Was_reported i d ro data ∈ g_facts (noted (Reported i d ro data) g)) as Hrep by (by left).
  eapply safe_bind; [apply safe_see|]. intros [r|] g1 K1 Hr; [|by apply safe_ret]. destruct (Hr r eq_refl) as [_ Hq].
  plain_step; [by apply safe_ret|]. plain_step; [by apply safe_ret|].
  eapply safe_bind; [by apply record_result_safe; [apply K1|]|]. intros up g2 K2 _.
  plain_step; [by apply safe_ret|]. plain_step; [by apply safe_ret|].
  eapply safe_bind; [apply run_handlers_safe|]. intros _ g3 K3 _.
  eapply safe_bind with (Q1 := λ _ _, True).
  { plain_step; [|by apply safe_ret]. apply collect_again_safe.
    by rewrite (kp_depth _ _ K3), (kp_depth _ _ K2), (kp_depth _ _ K1), (kp_depth _ _ K0). }
  intros _ g4 _ _. eapply safe_bind; [apply run_handlers_safe|]. intros _ g5 _ _.
  eapply safe_bind; [apply dr_safe; intros; by apply reconcile_safe|]. intros _ g6 _ _.
  eapply safe_bind; [apply safe_fork|intros; by apply safe_ret]. unfold result_audit. repeat plain_step.
Qed.

Lemma ws_result_safe d i data g : ends (processCommandResult d i data) g.
Proof.
  unfold processCommandResult. eapply safe_bind; [by apply safe_note|]. intros _ ? K0 ->.
  assert (Was_reported i d for_agent data ∈ g_facts (noted (Reported i d for_agent data) g)) as Hrep by (by left).
  apply safe_catch; [|intros; repeat plain_step].
  eapply safe_bind; [apply safe_see|]. intros [r|] g1 K1 Hr; [|repeat plain_step]. destruct (Hr r eq_refl) as [_ Hq].
  eapply safe_bind; [by apply record_result_safe; [apply K1|]|]. intros up g2 _ _.
  plain_step; [by apply safe_ret|]. plain_step; [by apply safe_ret|].
  eapply safe_bind; [apply dr_safe; intros; by apply reconcile_safe|]. intros _ g3 _ _.
  eapply safe_bind with (Q1 := λ _ _, True); [repeat plain_step|]. intros; by apply safe_ret.
Qed.

(** ** Timeouts and cancellations *)

Lemma propagate_safe pl g : ends (catch (propagateTimedOutDeviceCommand pl) (λ e, act (Note (Captured e)))) g.
Proof. apply safe_catch; [|intros; repeat plain_step]. unfold propagateTimedOutDeviceCommand, enqueueDrExecutionReconcile. repeat plain_step. Qed.

Lemma reap_each_safe now l g : ends (reap_each now l) g.
Proof.
  revert g. induction l as [|[i r] l IH]; intros g; cbn [reap_each]; [by apply safe_ret|].
  plain_step; [apply IH|]. eapply safe_bind; [apply safe_clock|intros t ? _ ->].
  eapply safe_bind; [apply safe_settle; [done|by left]|]. intros b ? _ ->. plain_step; [apply IH|].
  eapply safe_bind; [apply record_timeout_safe|]. intros _ ? _ ->.
  eapply safe_bind; [apply propagate_safe|]. intros _ g1 _ _. eapply safe_bind; [apply IH|]. intros; by apply safe_ret.
Qed.
Lemma reap_job_safe cap g : ends (reap_job cap) g.
Proof.
  unfold reap_job. apply safe_catch; [|intros; repeat plain_step]. eapply safe_bind with (Q1 := λ _ _, True); [|intros; by apply safe_ret].
  apply safe_context. intros g'. unfold reapStaleDeviceCommands. plain_step.
  eapply safe_bind; [apply safe_select_many|]. intros l g'' _ _. apply reap_each_safe.
Qed.

Lemma cancel_execution_safe d x u g : ends (cancel_execution d x u) g.
Proof.
  unfold cancel_execution. apply safe_context. intros g'. do 2 plain_step. eapply safe_bind with (Q1 := λ _ _, True); [|intros; by apply safe_ret].
  apply safe_cancel. intros r Hr. bool_prop. by eapply (in_status_open [pending]); [set_solver|].
Qed.
Lemma uninstalls_safe ds u g : ends (queue_uninstalls ds u) g.
Proof.
  revert g. induction ds as [|d ds IH]; intros g; cbn [queue_uninstalls]; [by apply safe_ret|].
  eapply safe_bind; [apply safe_insert|]. intros. apply IH.
Qed.
Lemma suspend_safe ds u g : ends (suspend_devices ds u) g.
Proof.
  unfold suspend_devices. apply safe_context. intros g'. eapply (safe_transaction _ _ (λ _ _, True)); [|done].
  plain_step. eapply safe_bind; [apply uninstalls_safe|]. intros _ g1 _ _.
  eapply safe_bind; [apply safe_clock|intros t ? _ ->]. eapply safe_bind with (Q1 := λ _ _, True); [|intros; by apply safe_ret].
  apply safe_cancel. intros r Hr. by bool_prop.
Qed.
Lemma queue_device_command_safe d ty pl u g : ends (queue_device_command d ty pl u) g.
Proof.
  unfold queue_device_command. apply safe_context. intros g'.
  eapply safe_bind with (Q1 := λ _ _, True).
  { plain_step; [|by apply safe_ret]. eapply safe_post; [|apply safe_select_many]. done. }
  intros [|] g1 _ _; [|by apply safe_ret]. eapply safe_bind; [apply safe_insert|]. intros; by apply safe_ret.
Qed.
Lemma verification_safe i g : ends (markVerificationCommandTimedOut i) g.
Proof.
  unfold markVerificationCommandTimedOut. plain_step. apply safe_context. intros g'.
  eapply safe_post; [|apply safe_settle; [done|by left]]. done.
Qed.

(** ** Every program *)

Lemma entry_safe prog : entry prog → ends prog no_ghost.
Proof.
  intros He.
  destruct He; try (eapply safe_bind with (Q1 := λ _ _, True); [|intros; by apply safe_ret]); try (by apply safe_context).
  - eapply safe_post; [|by apply executeCommand_safe]. done.
  - eapply safe_post; [|apply queueCommand_safe]. done.
  - eapply (safe_context0 _ _ (λ _ _, True)); [done| |done].
    eapply safe_bind; [apply queueCommandForExecution_safe; simpl; lia|]. intros; by apply safe_ret.
  - by apply queueBackupStopCommand_safe.
  - apply queue_device_command_safe.
  - by apply poll_safe.
  - by apply heartbeat_safe.
  - by apply ws_open_safe.
  - by apply ws_heartbeat_safe.
  - by apply post_result_safe.
  - apply ws_result_safe.
  - apply reap_job_safe.
  - apply cancel_execution_safe.
  - apply suspend_safe.
  - apply safe_delete.
  - apply verification_safe.
Qed.

End handlers.
