(* ===== verification/CommandSafety.v ===== *)
(** * Commands to devices: safety over every interleaving

    [Inv] holds in every configuration that requests, jobs, agents, crashes and the passing of time can
    reach; the theorems read off it what the queue promises. *)

From stdpp Require Import functions.
From S2P Require Import Prelude JsNum Json CommandRules CommandMachine CommandQueue.
From S2P Require Import CommandLogic CommandStore CommandSteps CommandHandlers.

Open Scope Z_scope.

Section safety.
Context `{ResultText}.

Definition frames_of (c : Config) (p : nat) : list Overlay :=
  match cf_procs c !! p with Some x => cn_frames (pr_conn x) | None => [] end.

Abbreviation Post := (Reply → Ghost → Prop).

(** What a process may still do, and what it has promised to end in. *)
Record Inv (c : Config) (gs : nat → Ghost) (post : nat → Post) : Prop := {
  iv_store : SI (cf_server c) (frames_of c) gs;
  iv_prog p x : cf_procs c !! p = Some x → wp (pr_prog x) (gs p) (post p) (λ _, True);
  iv_absent p : cf_procs c !! p = None → gs p = no_ghost }.

Lemma held_unlocked c p : unlocked (frames_of c) p (held_by_other c p).
Proof.
  intros i Hi q Hq [v Hv]. unfold frames_of in Hv. destruct (cf_procs c !! q) as [x|] eqn:E; [|done].
  assert (held_by_other c p i = true) as Ht; [|congruence]. apply existsb_exists. exists (q, x). split.
  - apply list_elem_of_In, elem_of_map_to_list. done.
  - apply andb_true_iff. split; [apply negb_true_iff, Nat.eqb_neq; done|]. simpl. apply bool_decide_eq_true. by exists v.
Qed.

Lemma frames_set p x s c q : frames_of (set_proc p x s c) q = <[p := cn_frames (pr_conn x)]> (frames_of c) q.
Proof.
  unfold frames_of. simpl. destruct (decide (p = q)) as [<-|Hne].
  - by rewrite lookup_insert_eq, fn_lookup_insert.
  - by rewrite lookup_insert_ne, fn_lookup_insert_ne.
Qed.

(** What a process has been told stays true; processes stay, with their promises. *)
Record onward (c c' : Config) (post post' : nat → Post) : Prop := {
  ow_grows : grows (cf_server c) (frames_of c) (cf_server c') (frames_of c');
  ow_post p : is_Some (cf_procs c !! p) → is_Some (cf_procs c' !! p) ∧ post' p = post p }.
Lemma onward_refl c post : onward c c post post.
Proof. split; [apply grows_refl|done]. Qed.
Lemma onward_trans c1 c2 c3 po1 po2 po3 : onward c1 c2 po1 po2 → onward c2 c3 po2 po3 → onward c1 c3 po1 po3.
Proof.
  intros [G1 P1] [G2 P2]. split; [by eapply grows_trans|]. intros p Hp. destruct (P1 p Hp) as [Hp2 E1].
  destruct (P2 p Hp2) as [? E2]. split; [done|]. congruence.
Qed.

(** Process [p] is replaced by one whose next actions are covered. *)
Lemma Inv_set c gs post p x s g po :
  Inv c gs post → lands (cf_server c) (frames_of c) gs p s (cn_frames (pr_conn x)) g →
  wp (pr_prog x) g po (λ _, True) → (is_Some (cf_procs c !! p) → po = post p) →
  let c' := set_proc p x s c in
  Inv c' (<[p := g]> gs) (<[p := po]> post) ∧ onward c c' post (<[p := po]> post).
Proof.
  intros [S Hp Ha] [S' G'] Hx Hpo c'. split; split.
  - eapply SI_ext; [apply frames_set|done|exact S'].
  - intros q y Hq. destruct (decide (p = q)) as [<-|Hne].
    + simpl in Hq. rewrite lookup_insert_eq in Hq. rewrite !fn_lookup_insert. by simplify_eq.
    + simpl in Hq. rewrite lookup_insert_ne in Hq by done. rewrite !fn_lookup_insert_ne by done. by apply Hp.
  - intros q Hq. simpl in Hq. apply lookup_insert_None in Hq as [? ?]. rewrite fn_lookup_insert_ne by done. by apply Ha.
  - eapply grows_ext; [apply frames_set|exact G'].
  - intros q Hq. simpl. destruct (decide (p = q)) as [<-|Hne].
    + rewrite lookup_insert_eq, fn_lookup_insert. split; [done|by apply Hpo].
    + rewrite lookup_insert_ne, fn_lookup_insert_ne by done. done.
Qed.

(** A process starts on a connection of its own. *)
Lemma Inv_start c gs post p prog po :
  Inv c gs post → cf_procs c !! p = None → wp prog no_ghost po (λ _, True) →
  let c' := set_proc p {| pr_prog := prog; pr_conn := idle |} (cf_server c) c in
  ∃ gs', Inv c' gs' (<[p := po]> post) ∧ onward c c' post (<[p := po]> post).
Proof.
  intros I Hn Hp. eexists. apply (Inv_set c gs post p _ _ no_ghost); [done| |done|rewrite Hn; by intros [? ?]].
  rewrite <- (iv_absent _ _ _ I p Hn). apply lands_same; [apply I| |apply weaker_refl]. unfold frames_of. by rewrite Hn.
Qed.

Lemma step_inv p ch c c' gs post :
  Inv c gs post → step p ch c = Some c' → ∃ gs' post', Inv c' gs' post' ∧ onward c c' post post'.
Proof.
  intros I Hst. unfold step in Hst. destruct (cf_procs c !! p) as [x|] eqn:Ex; [|done]. simpl in Hst.
  pose proof (iv_prog _ _ _ I p x Ex) as Hx.
  assert (cn_frames (pr_conn x) = frames_of c p) as Ec by (unfold frames_of; by rewrite Ex).
  destruct (pr_prog x) as [a|e|X o k|q k|S X s body k] eqn:Ep; [done|done|..].
  - simpl in Hx. destruct (exec o ch _ _ _) as [[[r s] cn]|] eqn:Eo; [|done]. simplify_eq/=.
    destruct (exec_sound o _ _ _ _ _ _ _ _ _ _ _ (iv_store _ _ _ I) Ec (held_unlocked c p) Hx Eo) as (g & Hg & Hl).
    eexists _, _. by apply (Inv_set c gs post p {| pr_prog := k r; pr_conn := cn |} s g (post p)).
  - destruct Hx as [Hq Hk]. simplify_eq/=. set (c1 := set_proc p _ _ c).
    destruct (Inv_set c gs post p {| pr_prog := k; pr_conn := pr_conn x |} (cf_server c) (gs p) (post p)) as [I1 O1]; try done.
    { apply lands_same; [apply I|done|apply weaker_refl]. }
    fold c1 in I1, O1.
    assert (cf_procs c1 !! fresh_pid c = None) as Hf.
    { simpl. assert (fresh_pid c ∉ dom (cf_procs c)) as Hd by (unfold fresh_pid; apply is_fresh).
      rewrite lookup_insert_ne; [by apply not_elem_of_dom|]. intros ->. apply Hd, elem_of_dom. by exists x. }
    destruct (Inv_start c1 _ _ (fresh_pid c) q (λ _ _, True) I1 Hf Hq) as (gs2 & I2 & O2).
    eexists _, _. split; [exact I2|by eapply onward_trans].
  - simplify_eq/=. eexists _, _. apply (Inv_set c gs post p _ _ (gs p) (post p)); [done| |by apply wp_unroll|done].
    apply lands_same; [apply I|done|apply weaker_refl].
Qed.

Lemma crash_inv p x c gs post :
  Inv c gs post → cf_procs c !! p = Some x →
  let c' := set_proc p {| pr_prog := PThrow "terminated"; pr_conn := idle |} (cf_server c) c in
  ∃ gs' post', Inv c' gs' post' ∧ onward c c' post post'.
Proof.
  intros I Hx c'. eexists _, _. apply (Inv_set c gs post p _ _ no_ghost (post p)); try done.
  apply SI_crash, I.
Qed.

Lemma world_inv dv so t c gs post :
  Inv c gs post → same_devices (sv_devices (cf_server c)) dv →
  let c' := {| cf_server := set_world dv so t (cf_server c); cf_procs := cf_procs c |} in
  Inv c' gs post ∧ onward c c' post post.
Proof.
  intros [S Hp Ha] Hd c'.
  destruct (SI_extend _ (set_world dv so t (cf_server c)) _ _ [] S) as [S' G'];
    [done|done|simpl; by rewrite app_nil_r|done|done|].
  by split; split.
Qed.

Lemma moves_inv c c' gs post :
  Inv c gs post → moves c c' → ∃ gs' post', Inv c' gs' post' ∧ onward c c' post post'.
Proof.
  intros I Hm. destruct Hm as [p ch c c' Hs|p prog c Hn He|p x c Hx|dv so t c Hd _].
  - by eapply step_inv.
  - destruct (Inv_start c gs post p prog (λ _ _, True) I Hn) as (gs' & ? & ?); [|by eauto].
    eapply wp_mono; [..|by apply entry_safe]; done.
  - by eapply crash_inv.
  - destruct (world_inv dv so t c gs post I Hd). by eauto.
Qed.

Lemma history_inv c c' gs post :
  Inv c gs post → rtc moves c c' → ∃ gs' post', Inv c' gs' post' ∧ onward c c' post post'.
Proof.
  intros I Hh. revert gs post I. induction Hh as [c|c1 c2 c3 Hm Hh IH]; intros gs post I.
  - exists gs, post. split; [done|apply onward_refl].
  - destruct (moves_inv _ _ _ _ I Hm) as (gs1 & po1 & I1 & O1). destruct (IH _ _ I1) as (gs2 & po2 & I2 & O2).
    exists gs2, po2. split; [done|by eapply onward_trans].
Qed.

Lemma initial_inv dv us t : Inv (initial dv us t) (λ _, no_ghost) (λ _ _ _, True).
Proof.
  assert (∀ i r, ¬ in_flight (frames_of (initial dv us t)) i r) as Hf by (intros i r (p & f & []%elem_of_nil & _)).
  split; [|done|done]. split; try done; simpl; try set_solver.
  apply base.NoDup_nil_2.
Qed.

Lemma reachable_inv dv us t c :
  rtc moves (initial dv us t) c → ∃ gs post, Inv c gs post.
Proof. intros Hh. destruct (history_inv _ _ _ _ (initial_inv dv us t) Hh) as (gs & po & ? & _). by eauto. Qed.

(** ** What the queue promises *)

(** Where a command is handed over: on the socket of the agent of its device, or in the answer to a
    poll of its device with its role. *)
Definition belongs (s : Server) (t : Target) (sp : Spec) : Prop :=
  match t with
  | ToSocket a => sp_targetRole sp = for_agent ∧ ∃ dv, sv_devices s !! sp_deviceId sp = Some dv ∧ dv_agentId dv = a
  | ToPoll d r => sp_deviceId sp = d ∧ sp_targetRole sp = r
  end.

(** C33. Over every interleaving of requests, jobs, polls, sockets and results, with statements that
    fail, answers that are lost and processes that die: a command is handed over at most once, and
    only to the consumer it was queued for. *)
Theorem commands_delivered_once dv us t c :
  rtc moves (initial dv us t) c →
  NoDup (delivered (cf_server c)) ∧
  ∀ i tgt, Delivered i tgt ∈ sv_log (cf_server c) →
    ∃ sp, Queued i sp ∈ sv_log (cf_server c) ∧ belongs (cf_server c) tgt sp.
Proof. intros (gs & po & I)%reachable_inv. split; [apply (iv_store _ _ _ I)|]. apply (si_known _ _ _ (iv_store _ _ _ I)). Qed.

(** C34. A command that has completed, failed or been cancelled never changes again, and the
    device, type, payload and role of a command never change at all. *)
Theorem settled_commands_final dv us t c c' i r :
  rtc moves (initial dv us t) c → rtc moves c c' → sv_commands (cf_server c) !! i = Some r →
  (is_settled r = true → sv_commands (cf_server c') !! i = Some r) ∧
  ∀ r', sv_commands (cf_server c') !! i = Some r' → dc_spec r' = dc_spec r.
Proof.
  intros (gs & po & I)%reachable_inv Hh Hr. destruct (history_inv _ _ _ _ I Hh) as (gs' & po' & I' & [G _]).
  split; [by apply (gr_settled _ _ _ _ G)|]. intros r' Hr'.
  eapply row_spec; [apply I'|by apply (si_commands _ _ _ (iv_store _ _ _ I'))|].
  apply G. apply (si_commands _ _ _ (iv_store _ _ _ I) _ _ Hr).
Qed.

(** C35. A command is completed only by a report of success that its own device made for it with the
    role it was queued for, and it stores that report. *)
Theorem completed_by_own_device dv us t c i r :
  rtc moves (initial dv us t) c → sv_commands (cf_server c) !! i = Some r → status_of r = completed →
  ∃ data, Reported i (sp_deviceId (dc_spec r)) (sp_targetRole (dc_spec r)) data ∈ sv_log (cf_server c) ∧
          rp_status data = rs_completed ∧
          pg_result (dc_at r) = Some (Result (stored_result (sp_type (dc_spec r)) data)).
Proof.
  intros (gs & po & I)%reachable_inv Hr Hc. by apply (si_commands _ _ _ (iv_store _ _ _ I) _ _ Hr).
Qed.

(** C36. Whatever happens meanwhile, [executeCommand] answers with a refusal from before the wait, or
    with the result the table holds, for good, for a command with the requested device, type, payload
    and role. *)
Theorem executeCommand_answers dv us t c0 c p x visible d ty pl o v :
  rtc moves (initial dv us t) c0 → cf_procs c0 !! p = None →
  let started := set_proc p {| pr_prog := (r ← executeCommand visible d ty pl o; mret (Answer r)); pr_conn := idle |}
                   (cf_server c0) c0 in
  rtc moves started c → cf_procs c !! p = Some x → pr_prog x = PRet (Answer v) →
  (∃ e, v = failure e ∧ (e = "Device not found" ∨ e = DEVICE_UNREACHABLE_ERROR ∨
                         ∃ st, e = "Device is " +:+ st +:+ ", cannot execute command")) ∨
  ∃ i r, sv_commands (cf_server c) !! i = Some r ∧ is_settled r = true ∧ pg_result (dc_at r) = Some v ∧
         sp_deviceId (dc_spec r) = d ∧ sp_type (dc_spec r) = ty ∧ sp_payload (dc_spec r) = pl ∧
         sp_targetRole (dc_spec r) = eo_targetRole o.
Proof.
  intros (gs & po & I)%reachable_inv Hn started Hh Hx Hv.
  set (post := λ (r : Reply) g, ∃ v, r = Answer v ∧ answers d ty pl (eo_targetRole o) v g).
  assert (wp (r ← executeCommand visible d ty pl o; mret (Answer r)) no_ghost post (λ _, True)) as Hw0.
  { eapply wp_mono; [..|eapply (safe_bind _ _ _ (answers d ty pl (eo_targetRole o)) post)].
    - by intros r g [_ Hr].
    - done.
    - by apply executeCommand_safe.
    - intros r g _ Hr. apply safe_ret. by exists r. }
  destruct (Inv_start c0 gs po p _ post I Hn Hw0) as (gs1 & I1 & O1).
  destruct (history_inv _ _ _ _ I1 Hh) as (gs2 & po2 & I2 & [_ Hpo]).
  pose proof (iv_prog _ _ _ I2 p x Hx) as Hw. rewrite Hv in Hw. simpl in Hw.
  destruct (Hpo p) as [_ E]; [simpl; by rewrite lookup_insert_eq|]. rewrite E, fn_lookup_insert in Hw.
  destruct Hw as (v' & [= <-] & [He|(i & r & Hf & Hrest)]); [by left|]. right. exists i, r.
  destruct (si_facts _ _ _ (iv_store _ _ _ I2) _ _ Hf). done.
Qed.

End safety.
