(* ===== verification/CommandRuns.v ===== *)
(** * Commands to devices: undisturbed runs

    What a handler does when its statements succeed and no other process holds its rows.  [drain]
    lets one process go on until it has ended or must wait; [alone] computes the same of a program
    by itself, and [alone_drain] relates the two. *)

From S2P Require Import Prelude JsNum Json CommandRules CommandMachine CommandQueue.
From S2P Require Import CommandLogic CommandStore CommandSteps.

Open Scope Z_scope.

Definition good : Choice := {| ch_fault := no_fault; ch_sent := true |}.
Definition no_lock (i : uuid) : bool := false.

(** At most [n] actions of process [p]. *)
Fixpoint steps (n : nat) (p : nat) (ch : Choice) (c : Config) : Config :=
  match n with
  | O => c
  | S n' => match step p ch c with Some c' => steps n' p ch c' | None => c end
  end.
Abbreviation drain n p c := (steps n p good c).

Definition launch (p : nat) (prog : Prog Reply) (c : Config) : Config :=
  set_proc p {| pr_prog := prog; pr_conn := idle |} (cf_server c) c.
Definition later (so : gset string) (ms : Z) (c : Config) : Config :=
  {| cf_server := set_world (sv_devices (cf_server c)) so (sv_clock (cf_server c) + Z.max 0 ms) (cf_server c);
     cf_procs := cf_procs c |}.

Section histories.
Context `{ResultText}.

Lemma steps_history n p ch c : rtc moves c (steps n p ch c).
Proof.
  revert c. induction n as [|n IH]; intros c; simpl; [done|]. destruct (step p ch c) as [c'|] eqn:E; [|done].
  eapply rtc_l; [by eapply m_step|apply IH].
Qed.
Lemma launch_history p prog c : cf_procs c !! p = None → entry prog → rtc moves c (launch p prog c).
Proof. intros. by apply rtc_once, m_start. Qed.
Lemma later_history so ms c : rtc moves c (later so ms c).
Proof. apply rtc_once, m_world; [|lia]. intros d dv Hd. by exists dv. Qed.

End histories.

(** ** One program by itself *)

Fixpoint alone {A} (m : Prog A) (s : Server) (c : Conn) : option (outcome string A * Server * Conn) :=
  match m with
  | PRet a => Some (Ok a, s, c)
  | PThrow e => Some (Throw e, s, c)
  | PAct o k => '(r, s', c') ← exec o good no_lock s c; alone (k r) s' c'
  | PFork _ _ | PLoop _ _ _ => None
  end.

Lemma alone_handle {A B} (m : Prog A) (f : A → Prog B) hd s c :
  alone (handle m f hd) s c =
    '(r, s', c') ← alone m s c; match r with Ok a => alone (f a) s' c' | Throw e => alone (hd e) s' c' end.
Proof.
  revert s c. induction m as [A a|A e|A X o k IH|A q _ k IH|A S X s0 body _ k IH]; intros s c; simpl; try done.
  destruct (exec o good no_lock s c) as [[[r s'] c']|]; simpl; [apply IH|done].
Qed.

Lemma alone_bind {A B} (m : Prog A) (f : A → Prog B) s c a s' c' :
  alone m s c = Some (Ok a, s', c') → alone (m ≫= f) s c = alone (f a) s' c'.
Proof. intros E. unfold mbind, Prog_bind. by rewrite alone_handle, E. Qed.

Lemma alone_act {X} (o : Op X) s c x s' c' :
  exec o good no_lock s c = Some (Ok x, s', c') → alone (act o) s c = Some (Ok x, s', c').
Proof. intros E. unfold act. simpl. by rewrite E. Qed.

Lemma alone_catch {A} (m : Prog A) hd s c a s' c' :
  alone m s c = Some (Ok a, s', c') → alone (catch m hd) s c = Some (Ok a, s', c').
Proof. intros E. unfold catch. by rewrite alone_handle, E. Qed.

Lemma alone_transaction {A} (body : Prog A) s c a s' c' :
  cn_aborted c = false → alone body s (begin_tx s c) = Some (Ok a, s', c') → cn_aborted c' = false →
  alone (db_transaction body) s c = Some (Ok a, (committed s' c').1, (committed s' c').2).
Proof.
  intros Hc Hb Hc'. unfold db_transaction.
  erewrite alone_bind; [|apply alone_act; simpl; unfold open_tx; by rewrite Hc].
  rewrite alone_handle, Hb. cbn. unfold close_tx. by rewrite Hc'.
Qed.

Lemma alone_context {A} (body : Prog A) s a s' c' :
  alone body s (begin_tx s idle) = Some (Ok a, s', c') → cn_aborted c' = false →
  alone (withDbAccessContext body) s idle = Some (Ok a, (committed s' c').1, (committed s' c').2).
Proof.
  intros Hb Hc'. unfold withDbAccessContext. erewrite alone_bind; [|by apply alone_act]. by apply alone_transaction.
Qed.

(** ** The same among other processes *)

Lemma held_iff c p i :
  held_by_other c p i = true ↔ ∃ q x, q ≠ p ∧ cf_procs c !! q = Some x ∧ is_Some (top (pr_conn x) !! i).
Proof.
  unfold held_by_other. rewrite existsb_exists. split.
  - intros ([q x] & Hin%list_elem_of_In & Hb). apply elem_of_map_to_list in Hin. apply andb_true_iff in Hb as [Hq Hx].
    apply negb_true_iff, Nat.eqb_neq in Hq. apply bool_decide_eq_true in Hx. eauto.
  - intros (q & x & Hq & Hx & Hi). exists (q, x). split; [by apply list_elem_of_In, elem_of_map_to_list|].
    apply andb_true_iff. split; [by apply negb_true_iff, Nat.eqb_neq|by apply bool_decide_eq_true].
Qed.

Lemma held_set p x s c i : held_by_other (set_proc p x s c) p i = held_by_other c p i.
Proof.
  apply eq_true_iff_eq. rewrite !held_iff. simpl. split; intros (q & y & Hq & Hy & Hi); exists q, y;
    (split_and!; [done| |done]); [rewrite lookup_insert_ne in Hy by done|rewrite lookup_insert_ne by done]; done.
Qed.

Lemma exec_unheld {A} (o : Op A) ch held s c :
  (∀ i, held i = false) → exec o ch held s c = exec o ch no_lock s c.
Proof.
  intros Hh. assert (∀ l : list Row, existsb (λ p, held p.1) l = existsb (λ p, no_lock p.1) l) as He.
  { induction l as [|x l IH]; simpl; [done|]. by rewrite Hh, IH. }
  destruct o; try done; unfold exec; f_equal.
  - unfold change_row. destruct (rows s c !! i); [|done]. by rewrite Hh.
  - unfold change_rows. by rewrite He.
  - unfold change_row. destruct (rows s c !! i); [|done]. by rewrite Hh.
  - unfold lock_rows. f_equal. erewrite list_filter_iff; [done|]. intros x. by rewrite Hh.
Qed.

Lemma alone_drain (m : Prog Reply) p c s s' cn cn' a :
  (∀ i, held_by_other c p i = false) → alone m s cn = Some (Ok a, s', cn') →
  ∃ n, drain n p (set_proc p {| pr_prog := m; pr_conn := cn |} s c) =
       set_proc p {| pr_prog := PRet a; pr_conn := cn' |} s' c.
Proof.
  intros Hh. revert m s cn. fix IH 1. intros [b|e|X o k|q k|S X s0 body k] s cn E; simpl in E; try done.
  - simplify_eq. by exists 0%nat.
  - destruct (exec o good no_lock s cn) as [[[r s1] c1]|] eqn:Eo; [|done]. simpl in E.
    destruct (IH (k r) _ _ E) as [n Hn]. exists (S n). simpl. unfold step. simpl. rewrite lookup_insert_eq. simpl.
    rewrite exec_unheld, Eo by (intros i; by rewrite held_set). simpl. rewrite <- Hn. f_equal.
    unfold set_proc. simpl. by rewrite insert_insert_eq.
Qed.

Lemma alone_ends m p c s' a :
  cf_procs c !! p = Some {| pr_prog := m; pr_conn := idle |} → (∀ i, held_by_other c p i = false) →
  alone m (cf_server c) idle = Some (Ok a, s', idle) →
  ∃ n, drain n p c = set_proc p {| pr_prog := PRet a; pr_conn := idle |} s' c.
Proof.
  intros Hp Hh E. destruct (alone_drain m p c (cf_server c) s' idle idle a Hh E) as [n Hn]. exists n. rewrite <- Hn.
  f_equal. destruct c as [s ps]. unfold set_proc. simpl in *. by rewrite insert_id.
Qed.

(** ** Changes of rows in a transaction *)

Definition tx (f : Overlay) (fs : list Overlay) (t : Z) : Conn :=
  {| cn_frames := f :: fs; cn_began := t; cn_aborted := false |}.

(** The rows of [l] changed by [g], the others as in [m]. *)
Definition amended (g : DeviceCommand → DeviceCommand) (l : list Row) (m : gmap uuid DeviceCommand)
    (i : uuid) : option DeviceCommand :=
  match (list_to_map l : gmap uuid DeviceCommand) !! i with Some r => Some (g r) | None => m !! i end.
Definition over (g : DeviceCommand → DeviceCommand) (l : list Row) (f : Overlay) (i : uuid) : option (option DeviceCommand) :=
  match (list_to_map l : gmap uuid DeviceCommand) !! i with Some r => Some (Some (g r)) | None => f !! i end.

Lemma laid_over g l f f' m i : (∀ j, f' !! j = over g l f j) → laid f' m !! i = amended g l (laid f m) i.
Proof. intros Hf. rewrite laid_lookup, Hf. unfold over, amended. rewrite laid_lookup. by destruct (list_to_map l !! i). Qed.

Lemma over_cons g i r l f j : i ∉ l.*1 → over g l (<[i := Some (g r)]> f) j = over g ((i, r) :: l) f j.
Proof.
  intros Hi. unfold over. simpl. destruct (decide (i = j)) as [<-|Hne].
  - rewrite not_elem_of_list_to_map_1 by done. by rewrite !lookup_insert_eq.
  - by rewrite !lookup_insert_ne.
Qed.

Lemma laid_empty m : laid ∅ m = m.
Proof. apply map_eq. intros i. by rewrite laid_lookup, lookup_empty. Qed.

Lemma alone_update i guard g r s f fs t :
  laid f (sv_commands s) !! i = Some r → guard r = true →
  alone (act (Update i guard g)) s (tx f fs t) = Some (Ok true, s, tx (<[i := Some (advanced g r)]> f) fs t).
Proof. intros Hr Hg. apply alone_act. simpl. unfold statement, change_row. rewrite rows_top. simpl. by rewrite Hr, Hg. Qed.

(** The rows of [l] are there, before and after another row is written. *)
Definition there (s : Server) (f : Overlay) (P : DeviceCommand → bool) (l : list Row) : Prop :=
  NoDup (l.*1) ∧ Forall (λ x, laid f (sv_commands s) !! x.1 = Some x.2 ∧ P x.2 = true) l.

Lemma there_cons s f P i r l : there s f P ((i, r) :: l) →
  laid f (sv_commands s) !! i = Some r ∧ P r = true ∧ (i ∉ l.*1) ∧ there s f P l.
Proof. intros [[Hi Hn]%list.NoDup_cons [[Hr HP] Hl]%list.Forall_cons]. done. Qed.

Lemma there_insert s f P i v l : i ∉ l.*1 → there s f P l → there s (<[i := v]> f) P l.
Proof.
  intros Hi [Hn Hl]. split; [done|]. rewrite list.Forall_forall in *. intros x Hx. destruct (Hl x Hx) as [Hr HP].
  split; [|done]. rewrite <- Hr, !laid_lookup, lookup_insert_ne; [done|].
  intros ->. apply Hi. apply list_elem_of_fmap. by exists x.
Qed.

Lemma there_selected s n guard : there s ∅ guard (oldest n (matching guard (sv_commands s))).
Proof.
  split; [apply oldest_nodup, matching_nodup|]. apply list.Forall_forall. intros x Hx%oldest_elem.
  apply matching_rows in Hx as [Hg Hx]. split; [|done]. by rewrite laid_lookup, lookup_empty.
Qed.

(** ** The reaper *)

Lemma logs_nil s : logs [] s = s.
Proof. destruct s. unfold logs, add_events. simpl. by rewrite app_nil_r. Qed.
Lemma logs_logs l k s : logs k (logs l s) = logs (l ++ k) s.
Proof. unfold logs, add_events. simpl. by rewrite app_assoc. Qed.

(** Only the log grows. *)
Definition only_logs {A} (m : Prog A) : Prop :=
  ∀ s f fs t, ∃ a l, alone m s (tx f fs t) = Some (Ok a, logs l s, tx f fs t).

Lemma only_ret {A} (a : A) : only_logs (mret a).
Proof. intros s f fs t. exists a, []. by rewrite logs_nil. Qed.
Lemma only_act {X} (o : Op X) :
  (∀ s f fs t, ∃ a l, exec o good no_lock s (tx f fs t) = Some (Ok a, logs l s, tx f fs t)) → only_logs (act o).
Proof. intros Ho s f fs t. destruct (Ho s f fs t) as (a & l & E). exists a, l. by apply alone_act. Qed.
Lemma only_bind {A B} (m : Prog A) (k : A → Prog B) : only_logs m → (∀ a, only_logs (k a)) → only_logs (m ≫= k).
Proof.
  intros Hm Hk s f fs t. destruct (Hm s f fs t) as (a & l & E). destruct (Hk a (logs l s) f fs t) as (b & l' & E').
  exists b, (l ++ l'). rewrite (alone_bind _ _ _ _ _ _ _ E), E'. by rewrite logs_logs.
Qed.
Lemma only_catch {A} (m : Prog A) hd : only_logs m → only_logs (catch m hd).
Proof. intros Hm s f fs t. destruct (Hm s f fs t) as (a & l & E). exists a, l. by apply alone_catch. Qed.
Lemma only_note e : only_logs (act (Note e)).
Proof. apply only_act. intros. by eexists _, _. Qed.
Lemma only_enqueue j : only_logs (act (Enqueue j)).
Proof. apply only_act. intros. by eexists _, _. Qed.
Lemma only_other x : only_logs (act (OtherTable x)).
Proof. apply only_act. intros s f fs t. exists tt, []. by rewrite logs_nil. Qed.

Lemma only_record_timeout ty src : only_logs (record_timeout ty src).
Proof.
  unfold record_timeout. apply only_bind; [destruct (has _ _); [apply only_note|apply only_ret]|].
  intros _. destruct (is_restore_type ty); [apply only_note|apply only_ret].
Qed.
Lemma only_propagate pl : only_logs (propagateTimedOutDeviceCommand pl).
Proof.
  unfold propagateTimedOutDeviceCommand. apply only_bind; [apply only_other|]. intros _.
  destruct (drExecutionId pl); [|apply only_ret]. destruct (truthy _); [apply only_enqueue|apply only_ret].
Qed.

(** What the reaper makes of an overdue command. *)
Definition reaped (t : Z) (r : DeviceCommand) : DeviceCommand :=
  advanced (settle failed t (timed_out (timeout_message r) (Some "server"))) r.
Definition overdue (now : Z) (l : list Row) : list Row := filter (λ x, is_overdue now x.2 = true) l.

Lemma overdue_fst now l i : i ∉ l.*1 → i ∉ (overdue now l).*1.
Proof. intros Hi Hx. apply Hi. eapply elem_of_sublist; [exact Hx|]. apply fmap_sublist, sublist_filter. Qed.

Lemma reap_each_alone now l s f fs t : there s f is_open l →
  ∃ n k f', alone (reap_each now l) s (tx f fs t) = Some (Ok n, logs k s, tx f' fs t) ∧
    ∀ i, f' !! i = over (reaped (sv_clock s)) (overdue now l) f i.
Proof.
  revert s f. induction l as [|[i r] l IH]; intros s f Hl.
  { exists 0%nat, [], f. by rewrite logs_nil. }
  apply there_cons in Hl as (Hr & Ho & Hi & Hl). cbn [reap_each]. unfold overdue.
  destruct (is_overdue now r) eqn:Ed; cbn [negb].
  - rewrite filter_cons_True by done. set (f1 := <[i := Some (reaped (sv_clock s) r)]> f).
    erewrite alone_bind; [|by apply alone_act]. erewrite alone_bind; [|by apply alone_update]. cbn [negb].
    destruct (only_record_timeout (sp_type (dc_spec r)) "reaper" s f1 fs t) as (u & k1 & E1).
    erewrite alone_bind; [|exact E1].
    edestruct (only_catch _ (λ e, act (Note (Captured e))) (only_propagate (sp_payload (dc_spec r))) (logs k1 s) f1 fs t)
      as (v & k2 & E2).
    erewrite alone_bind; [|exact E2]. rewrite logs_logs.
    destruct (IH (logs (k1 ++ k2) s) f1) as (n & k3 & f' & E3 & Hf'); [by apply there_insert|].
    erewrite alone_bind; [|exact E3]. exists (S n), ((k1 ++ k2) ++ k3), f'. split; [by rewrite logs_logs|].
    intros j. rewrite Hf'. apply over_cons. by apply overdue_fst.
  - rewrite filter_cons_False by (simpl; congruence). by apply IH.
Qed.

(** C37. The reaper, undisturbed, ends; of the oldest [cap] stale open commands it fails each one
    whose timeout has passed, with the message for its state, and leaves every other command as it is. *)
Theorem reaper_settles c p cap :
  cf_procs c !! p = Some {| pr_prog := reap_job cap; pr_conn := idle |} →
  (∀ i, held_by_other c p i = false) →
  let now := sv_clock (cf_server c) in
  let table := sv_commands (cf_server c) in
  ∃ n s', drain n p c = set_proc p {| pr_prog := PRet Done; pr_conn := idle |} s' c ∧
    ∀ i, sv_commands s' !! i =
      amended (reaped now) (overdue now (oldest cap (matching (is_stale now) table))) table i.
Proof.
  intros Hp Hh now table. set (l := oldest cap (matching (is_stale now) table)).
  assert (there (cf_server c) ∅ is_open l) as Hl.
  { destruct (there_selected (cf_server c) cap (is_stale now)) as [Hn Hf]. split; [done|]. eapply list.Forall_impl; [exact Hf|].
    intros x [Hx Hs]. split; [done|]. unfold is_stale in Hs. by apply andb_true_iff in Hs as [[? _]%andb_true_iff _]. }
  destruct (reap_each_alone now l (cf_server c) ∅ [] now Hl) as (n & k & f & E & Hf).
  destruct (alone_ends _ p c (set_commands (laid f) (logs k (cf_server c))) Done Hp Hh) as [m Hm].
  - unfold reap_job. apply alone_catch. erewrite alone_bind; [done|].
    apply (alone_context _ _ n (logs k (cf_server c)) (tx f [] now)); [|done]. unfold reapStaleDeviceCommands.
    erewrite alone_bind; [|by apply alone_act]. erewrite alone_bind; [exact E|].
    apply alone_act. simpl. unfold statement, rows, top. simpl. by rewrite laid_empty.
  - exists m. eexists. split; [exact Hm|]. intros i. simpl. by rewrite (laid_over _ _ _ _ _ _ Hf), laid_empty.
Qed.

(** ** A poll *)

Definition locks (l : list Row) (f : Overlay) : Overlay := foldr (λ x f, <[x.1 := Some x.2]> f) f l.

Lemma put_locks l s f fs t :
  foldr (λ x sc, put x.1 (Some x.2) sc) (s, tx f fs t) l = (s, tx (locks l f) fs t).
Proof. induction l as [|x l IH]; simpl; [done|]. by rewrite IH. Qed.

(** Locking rows changes none. *)
Lemma laid_locks P l s f : there s f P l → laid (locks l f) (sv_commands s) = laid f (sv_commands s).
Proof.
  intros [_ Hl]. induction Hl as [|[i r] l [Hr _] _ IH]; simpl; [done|]. apply map_eq. intros j.
  destruct (decide (i = j)) as [<-|Hne].
  - rewrite laid_lookup, lookup_insert_eq. done.
  - by rewrite <- IH, !laid_lookup, lookup_insert_ne.
Qed.

Lemma alone_select_for_update guard n s fs t :
  let l := oldest n (matching guard (sv_commands s)) in
  alone (act (SelectForUpdate guard n)) s (tx ∅ fs t) = Some (Ok l, s, tx (locks l ∅) fs t).
Proof.
  intros l. apply alone_act. simpl. unfold statement, lock_rows, rows, top. simpl. rewrite laid_empty.
  assert (∀ k : list Row, filter (λ x, no_lock x.1 = false) k = k) as ->.
  { induction k as [|x k IH]; [done|]. rewrite filter_cons_True by done. by rewrite IH. }
  by rewrite put_locks.
Qed.

Lemma claim_each_alone d ro l s f fs t : there s f (claimable d ro) l →
  ∃ f', alone (claim_each d ro l) s (tx f fs t) = Some (Ok l.*1, s, tx f' fs t) ∧
    ∀ i, f' !! i = over (advanced (to_sent (sv_clock s))) l f i.
Proof.
  revert f. induction l as [|[i r] l IH]; intros f Hl; [by exists f|].
  apply there_cons in Hl as (Hr & Ho & Hi & Hl). cbn [claim_each].
  erewrite alone_bind; [|by apply alone_act]. erewrite alone_bind; [|by apply alone_update].
  destruct (IH (<[i := Some (advanced (to_sent (sv_clock s)) r)]> f)) as (f' & E & Hf'); [by apply there_insert|].
  erewrite alone_bind; [|exact E]. exists f'. split; [done|]. intros j. rewrite Hf'. by apply over_cons.
Qed.

Lemma claim_all_alone d n ro s t :
  let l := oldest n (matching (claimable d ro) (sv_commands s)) in
  ∃ f, alone (claimPendingCommandsForDevice d n ro) s (tx ∅ [] t) = Some (Ok l.*1, s, tx f [] t) ∧
    ∀ i, laid f (sv_commands s) !! i = amended (advanced (to_sent (sv_clock s))) l (sv_commands s) i.
Proof.
  intros l. pose proof (there_selected s n (claimable d ro)) as Hl. fold l in Hl.
  destruct (claim_each_alone d ro l s (locks l ∅) [∅] t) as (f & E & Hf).
  { destruct Hl as [Hn Hl]. split; [done|]. by rewrite (laid_locks (claimable d ro)). }
  exists f. split.
  - unfold claimPendingCommandsForDevice. erewrite (alone_transaction _ _ _ l.*1 s (tx f [∅] t)); [done|done| |done].
    erewrite alone_bind; [exact E|]. apply alone_select_for_update.
  - intros i. rewrite (laid_over _ _ _ _ _ _ Hf). unfold amended. rewrite (laid_locks (claimable d ro)), laid_empty by done. done.
Qed.

(** C38. A poll, undisturbed, ends and hands over the ten oldest pending commands of the device for
    the role, each marked sent at that time; every other command stays as it is. *)
Theorem poll_hands_over c p d ro :
  cf_procs c !! p = Some {| pr_prog := poll_commands d ro; pr_conn := idle |} →
  (∀ i, held_by_other c p i = false) →
  let now := sv_clock (cf_server c) in
  let table := sv_commands (cf_server c) in
  let mine := oldest 10 (matching (claimable d ro) table) in
  ∃ n s', drain n p c = set_proc p {| pr_prog := PRet (Commands mine.*1); pr_conn := idle |} s' c ∧
    (∀ i, sv_commands s' !! i = amended (advanced (to_sent now)) mine table i) ∧
    sv_log s' = sv_log (cf_server c) ++ ((λ i, Delivered i (ToPoll d ro)) <$> mine.*1).
Proof.
  intros Hp Hh now table mine. destruct (claim_all_alone d 10 ro (cf_server c) now) as (f & E & Hf).
  set (s1 := logs ((λ i, Delivered i (ToPoll d ro)) <$> mine.*1) (set_commands (laid f) (cf_server c))).
  destruct (alone_ends _ p c s1 (Commands mine.*1) Hp Hh) as [m Hm].
  - unfold poll_commands. erewrite alone_bind; [|by apply (alone_context _ _ _ _ _ E)].
    erewrite alone_bind; [done|]. by apply alone_act.
  - exists m. eexists. split; [exact Hm|]. done.
Qed.
