(* ===== verification/CommandCases.v ===== *)
(** * Commands to devices: histories

    Concrete histories: instances of the theorems, and two behaviours that the code does not
    mean to have. *)

From S2P Require Import Prelude JsNum Json CommandRules CommandMachine CommandQueue.
From S2P Require Import CommandLogic CommandStore CommandSafety CommandRuns.

Open Scope Z_scope.

#[local] Instance text : ResultText :=
  {| JSON_stringify := λ _, "{}"; JSON_parse := λ _, None; schema_parse := λ _ v, Ok v |}.

Definition laptop : Device := {| dv_orgId := 1; dv_agentId := "agent-a"; dv_hostname := "laptop"; dv_status := "online" |}.
Definition start : Config := initial {[ 5%nat := laptop ]} {[ 7%nat ]} 1000000.

Definition report (st : ResultStatus) : Report :=
  {| rp_status := st; rp_exitCode := Some 0; rp_stdout := Some "out"; rp_stderr := None; rp_durationMs := Some 12;
     rp_error := None; rp_result := None |}.

Definition request (p : nat) (prog : Prog Reply) (c : Config) : Config := drain 100 p (launch p prog c).
Lemma request_history p prog c : cf_procs c !! p = None → entry prog → rtc moves c (request p prog c).
Proof. intros. etrans; [by apply launch_history|apply steps_history]. Qed.

(** A command is queued, polled and answered, and answered again. *)
Definition queued : Config := request 0 (queue_device_command 5 "list_services" JNull 7) start.
Definition polled : Config := request 1 (poll_commands 5 for_agent) (later ∅ 2000 queued).
Definition answered : Config := request 2 (post_result 5 for_agent 0 (report rs_completed)) polled.
Definition answered_again : Config := request 4 (post_result 5 for_agent 0 (report rs_failed)) answered.

(** A command is executed over the socket: sent, answered on the socket, and found by the wait. *)
Definition options : ExecOptions :=
  {| eo_userId := Some 7%nat; eo_timeoutMs := 30000; eo_preferHeartbeat := false; eo_targetRole := for_agent |}.
Definition executing : Config :=
  request 0 (r ← executeCommand (λ _, true) 5 "list_services" JNull options; mret (Answer r)) (later {[ "agent-a" ]} 0 start).
Definition executed : Config :=
  drain 100 0 (later {[ "agent-a" ]} 500 (request 1 (processCommandResult 5 0 (report rs_completed)) executing)).

(** An interactive command is executed while the socket of the agent breaks; a poll follows. *)
Definition bad : Choice := {| ch_fault := no_fault; ch_sent := false |}.
Definition calling (ty : string) (pl : json) : Config :=
  launch 0 (r ← executeCommand (λ _, true) 5 ty pl options; mret (Answer r)) (later {[ "agent-a" ]} 0 start).
Definition refused_call (ty : string) (pl : json) : Config :=
  steps 100 0 bad (later ∅ 500 (steps 100 0 bad (later ∅ 500 (steps 100 0 bad (calling ty pl))))).
Definition polled_later (ty : string) (pl : json) : Config :=
  request 10 (poll_commands 5 for_agent) (later ∅ 60000 (refused_call ty pl)).

(** A command is queued in a transaction; the agent answers before the commit. *)
Definition dispatching : Config :=
  steps 9 0 good (launch 0 (withDbAccessContext
    (r ← queueCommandForExecution (λ _, true) 5 "collect_audit_policy" (JObj []) None false None; mret (told r)))
    (later {[ "agent-a" ]} 0 start)).
Definition answered_early (data : Report) : Config := request 10 (post_result 5 for_agent 0 data) dispatching.
Definition committed_late (data : Report) : Config := drain 100 0 (answered_early data).

Lemma later_procs so ms c : cf_procs (later so ms c) = cf_procs c.
Proof. done. Qed.

Ltac history :=
  lazymatch goal with
  | |- rtc moves _ (steps _ _ _ ?c) => transitivity c; [history|apply steps_history]
  | |- rtc moves _ (later _ _ ?c) => transitivity c; [history|apply later_history]
  | |- rtc moves _ (request _ _ ?c) => transitivity c; [history|apply request_history; [vm_compute; reflexivity|constructor]]
  | |- rtc moves _ (launch _ _ ?c) => transitivity c; [history|apply launch_history; [vm_compute; reflexivity|constructor]]
  | |- _ => apply rtc_refl
  end.

Lemma answered_history : rtc moves start answered.
Proof. unfold answered, polled, queued. history. Qed.
Lemma answered_again_history : rtc moves answered answered_again.
Proof. unfold answered_again. history. Qed.
Lemma refused_history ty pl : rtc moves start (refused_call ty pl).
Proof. unfold refused_call, calling. history. Qed.

(** ** The theorems at work *)

Definition stored (c : Config) (i : uuid) : option DeviceCommand := sv_commands (cf_server c) !! i.
Definition replied (c : Config) (p : nat) : option (Prog Reply) := pr_prog <$> cf_procs c !! p.

Lemma commands_delivered_once_witness :
  delivered (cf_server answered) = [0%nat] ∧ NoDup (delivered (cf_server answered)).
Proof.
  split; [vm_compute; reflexivity|].
  exact (proj1 (commands_delivered_once _ _ _ answered answered_history)).
Defined.

Definition answered_row : DeviceCommand :=
  {| dc_spec := {| sp_deviceId := 5; sp_type := "list_services"; sp_payload := JNull; sp_targetRole := for_agent;
                   sp_createdBy := Some 7%nat; sp_createdAt := 1000000 |};
     dc_at := {| pg_status := completed; pg_executedAt := Some 1002000; pg_completedAt := Some 1002000;
                 pg_result := Some (Result (stored_result "list_services" (report rs_completed))) |} |}.
Lemma answered_stored : sv_commands (cf_server answered) !! 0%nat = Some answered_row.
Proof. vm_compute. reflexivity. Qed.

Lemma settled_commands_final_witness :
  is_settled answered_row = true ∧ sv_commands (cf_server answered_again) !! 0%nat = Some answered_row.
Proof.
  split; [vm_compute; reflexivity|].
  apply (settled_commands_final _ _ _ answered answered_again 0 answered_row answered_history answered_again_history answered_stored).
  vm_compute. reflexivity.
Defined.

Lemma completed_by_own_device_witness :
  status_of answered_row = completed ∧
  ∃ data, Reported 0 5 for_agent data ∈ sv_log (cf_server answered) ∧ rp_status data = rs_completed ∧
          pg_result (dc_at answered_row) = Some (Result (stored_result "list_services" data)).
Proof.
  split; [reflexivity|].
  exact (completed_by_own_device _ _ _ answered 0 answered_row answered_history answered_stored eq_refl).
Defined.

Lemma executed_history : rtc moves (launch 0 (r ← executeCommand (λ _, true) 5 "list_services" JNull options; mret (Answer r))
  (later {[ "agent-a" ]} 0 start)) executed.
Proof.
  unfold executed. transitivity executing; [apply steps_history|]. history.
Qed.

Lemma executeCommand_answers_witness :
  let v := Result (stored_result "list_services" (report rs_completed)) in
  replied executed 0 = Some (PRet (Answer v)) ∧
  ((∃ e, v = failure e ∧ (e = "Device not found" ∨ e = DEVICE_UNREACHABLE_ERROR ∨
                          ∃ st, e = "Device is " +:+ st +:+ ", cannot execute command")) ∨
   ∃ i r, sv_commands (cf_server executed) !! i = Some r ∧ is_settled r = true ∧ pg_result (dc_at r) = Some v ∧
          sp_deviceId (dc_spec r) = 5%nat ∧ sp_type (dc_spec r) = "list_services" ∧ sp_payload (dc_spec r) = JNull ∧
          sp_targetRole (dc_spec r) = for_agent).
Proof.
  intros v. assert (∃ cn, cf_procs executed !! 0%nat = Some {| pr_prog := PRet (Answer v); pr_conn := cn |}) as [cn E].
  { eexists. vm_compute. reflexivity. }
  split; [unfold replied; rewrite E; reflexivity|].
  eapply (executeCommand_answers _ _ _ (later {[ "agent-a" ]} 0 start) executed 0 _ (λ _, true) 5 "list_services" JNull options v);
    [apply later_history|reflexivity|exact executed_history|exact E|reflexivity].
Defined.

Definition reaping : Config := launch 1 (reap_job 100) (later ∅ 360000 queued).
Lemma reaper_settles_witness :
  ∃ n s', steps n 1 good reaping = set_proc 1 {| pr_prog := PRet Done; pr_conn := idle |} s' reaping ∧
    (pg_result ∘ dc_at <$> sv_commands s' !! 0%nat) =
      Some (Some (timed_out "Command expired: agent never received the command (5 min timeout)" (Some "server"))).
Proof.
  destruct (reaper_settles reaping 1 100) as (n & s' & E & Ht); [apply lookup_insert_eq|intros i; vm_compute; reflexivity|].
  exists n, s'. split; [exact E|]. rewrite Ht. vm_compute. reflexivity.
Defined.

Definition polling : Config := launch 1 (poll_commands 5 for_agent) (later ∅ 2000 queued).
Lemma poll_hands_over_witness :
  ∃ n s', steps n 1 good polling = set_proc 1 {| pr_prog := PRet (Commands [0%nat]); pr_conn := idle |} s' polling ∧
    (pg_status ∘ dc_at <$> sv_commands s' !! 0%nat) = Some sent.
Proof.
  destruct (poll_hands_over polling 1 5 for_agent) as (n & s' & E & Ht & _); [apply lookup_insert_eq|intros i; vm_compute; reflexivity|].
  exists n, s'. split; [exact E|]. rewrite Ht. vm_compute. reflexivity.
Defined.

(** ** Two defects *)




(** A failure to pass a timeout on is caught, but it was a statement of the reaper's transaction: the
    whole run is undone, here with two commands of which the first fails so. *)
Definition two_overdue : Config :=
  later ∅ 360000 (request 2 (queue_device_command 5 "list_processes" JNull 7) (later ∅ 1 queued)).
Definition reaped_in_vain : Config :=
  drain 100 3 (steps 1 3 {| ch_fault := refused; ch_sent := true |} (steps 6 3 good (launch 3 (reap_job 100) two_overdue))).

Theorem refused_propagation_undoes_reap :
  rtc moves start reaped_in_vain ∧
  replied reaped_in_vain 3 = Some (PRet Done) ∧
  ((λ r, status_of r) <$> sv_commands (cf_server reaped_in_vain)) = {[ 0%nat := pending; 1%nat := pending ]} ∧
  ((λ r, status_of r) <$> sv_commands (cf_server (drain 100 3 (launch 3 (reap_job 100) two_overdue)))) =
    {[ 0%nat := failed; 1%nat := failed ]}.
Proof.
  split_and!; [unfold reaped_in_vain, two_overdue, queued; history|vm_compute; reflexivity..].
Qed.
